(* ===== verification/_CoqProject ===== *)
-Q . S2P
Prelude.v
Json.v
GoStd.v
JsonPlain.v
Redact.v
JsonRound.v
Resource.v
Plan.v
ActionContract.v
PluginMapping.v
ResourceJson.v
References.v
ActionContractFacts.v
FlowGraph.v
FlowTarjan.v
FlowCompiler.v
Db.v
StoreRuns.v
StoreResources.v
StoreOutbox.v
StorePlugins.v
PluginContract.v
ManagerBind.v
ServerPages.v
StoreStep.v
Proc.v
StoreSafety.v
StoreWatch.v
StoreAttempts.v
StoreOps.v
ServerPagesFacts.v
StoreHistory.v
EngineModel.v
EngineOrder.v
FlowCompilerFacts.v
EngineNode.v
ManagerRun.v
ManagerBindFacts.v
ManagerStream.v
EngineReplay.v
ManagerFacts.v
EngineInterp.v
EngineLoop.v
EngineSched.v
EngineAdapter.v
Orchestrator.v
OrchestratorSafety.v
Trigger.v
TriggerFacts.v
Samples.v
Properties.v
PropertiesEngine.v
PropertiesFlow.v
HttpIngress.v
PropertiesServer.v
PropertiesManager.v
JsonCanonical.v
PluginSchema.v
PluginBundle.v
PluginSdk.v
PluginSdkFacts.v
PluginController.v
ManagerAdmin.v
ManagerWatch.v
ServerHandlers.v
ServerResources.v
ServerRuns.v
ServerPlugins.v
Retention.v
ServerStream.v
ServerFacts.v
RetentionFacts.v
PropertiesPlugins.v
PropertiesApi.v
Workspace.v
GithubApi.v
GithubWatch.v
GithubActions.v
GithubFacts.v
PropertiesGithub.v
