(* ===== verification/Prelude.v ===== *)
(** * Orchigram: a model of the durable control plane

    Orchigram runs declarative Flows.  Resources (Flow, Trigger, Repository,
    AgentProfile, PluginInstallation, SecretRef) are applied through a gRPC API to a
    SQLite store; an occurrence of a Trigger is accepted by writing a receipt and an
    outbox command in one transaction; the orchestrator dispatches the command to a
    durable workflow engine (go-workflows); the interpreter workflow executes the
    compiled plan the Run is pinned to, component by component, through activities
    that record every attempt in the store and call plugins, which are installed,
    activated and supervised by the plugin manager.  Paths below are under
    [src/internal/] unless they start with [sdk/].

    ** Parts and files

    Shared:
    - [Prelude]: results and errors ([res], [Err]), stable sorting ([sort_by], for
      SQL's ORDER BY and Go's sort), text order of strings ([str_cmp]), the lemmas and
      tactics the files share.
    - [GoStd], [Json], [JsonPlain], [JsonRound], [JsonCanonical]: what is used of
      strconv, strings, time, fmt, base64 and encoding/json (parser, marshaller,
      compaction), with the round trips of the JSON text.

    Resources and plans:
    - [Resource], [ResourceJson]: resource/resource.go, documents, validation
      ([DecodeStrict] and the typed decoders) and the JSON of the specs.
    - [Plan]: the data of flow/compiler.go.  [FlowGraph] (reachability, Tarjan's
      algorithm), [FlowCompiler] ([Compile], [ValidateRunInput], canonical plan text),
      [FlowTarjan], [FlowCompilerFacts].
    - [ActionContract], [ActionContractFacts]: actioncontract/schema.go, the static
      inspection of JSON Schemas.  [References]: references/resolver.go.

    Store:
    - [Db]: the tables of store/migrations/*.sql as one record and the transaction
      monad [Tx].  [StoreRuns], [StoreResources], [StoreOutbox], [StorePlugins]: the
      operations of store/store.go and store/retention.go under their Go names ([List]
      is [List_], the method [TriggerState] is [GetTriggerState]).
    - [StoreStep]: the store as a transition system, one rule per mutating operation;
      [reachable] closes the empty database under them with arbitrary arguments, that
      is under every interleaving of the components below.  [StoreSafety],
      [StoreHistory], [StoreWatch], [StoreAttempts], [StoreOps]: its
      invariants and the contracts of single operations.
    - [Proc]: code that makes several store calls, with what others commit in between,
      and the operations of the store that run their statements outside a transaction
      ([List_], [PlanRunRetention], [PlanPluginRetention]).

    Engine and dispatch:
    - [EngineModel] (buildComponentModel), [EngineNode] (activities), [EngineInterp]
      (executePlanNode, executePlanComponent), [EngineSched] (InterpreterWorkflow as a
      step relation), [EngineAdapter]: engine/engine.go.  [EngineOrder],
      [EngineReplay], [EngineLoop] hold their proofs.
    - [Orchestrator], [OrchestratorSafety]: orchestrator/orchestrator.go and
      health/health.go.  [Trigger], [TriggerFacts]: trigger/controller.go.

    Plugins:
    - [PluginContract], [PluginSchema]: manifests, contracts and
      their validation (sdk/plugin/schema.go and the metadata of sdk/plugin/sdk.go).
    - [PluginBundle]: pluginbundle/bundle.go.  [PluginSdk], [PluginSdkFacts]: the
      runtime inside a plugin process, sdk/plugin/sdk.go.
    - pluginmanager/manager.go: [PluginMapping] (templates and mappings), [ManagerBind]
      (action binding), [ManagerRun] (secrets, configuration), [ManagerStream] (the
      event stream of a call and the execution of a node), [Redact], [ManagerWatch]
      (provider watches), [ManagerAdmin] (installation, activation, processes, health,
      limits); [ManagerBindFacts], [ManagerFacts].
    - [PluginController]: plugincontroller/controller.go.

    Server:
    - [ServerPages], [ServerPagesFacts]: server/pagination.go and [List].
    - [ServerHandlers]: the monad of a handler, error translation and server streams.
      [ServerResources] (resource and flow services), [ServerRuns] (run service),
      [ServerPlugins] (plugin, trigger and system services): server/api.go, where a
      name the store also uses gets an underscore ([Delete_], [Start_], [decide_]).
      [ServerStream], [ServerFacts] hold the proofs.
    - [Retention], [RetentionFacts]: retention/retention.go with the adapter's
      [RemoveFinishedRun] and the [Retention] handler.
    - [HttpIngress]: httpingress/server.go, the webhook listener ([ServeHTTP]).

    The GitHub provider, a first-party plugin:
    - [Workspace]: workspace/workspace.go ([Checkout], [CommitPush], redaction of git
      output) over process/runner.go ([Run], bounded capture).
    - githubplugin/github.go: [GithubApi] (requests, retries, pages, configurations),
      [GithubWatch] (issue and review watches, cursors, the acknowledgement of each
      event), [GithubActions] (issues, comments, pull requests, checks, git actions and
      [ValidateAction]; [Execute] dispatches).  [GithubFacts] holds the proofs.  What a
      watch sends is what [ManagerWatch] receives on the daemon's side.

    [Samples] is a concrete flow, plan and history.  [Properties] (store),
    [PropertiesEngine], [PropertiesFlow], [PropertiesServer] (triggers, references,
    pages, webhooks), [PropertiesManager], [PropertiesPlugins], [PropertiesApi] and
    [PropertiesGithub] state the properties, each with a witness at a concrete input; the numbered ones are the most important,
    the others in these files are theorems of the same kind.

    ** How state is modelled

    A table with a key is a [gmap], a log a list.  An operation is a function of the
    database with the instants, UUIDs and digests it draws as arguments.  Transactions
    are serial (the store opens one connection): an operation is atomic and one that
    fails changes nothing; where an operation is not a transaction each of its
    statements is a call of its own.  Code that makes several calls is a [Proc]: an [Env] gives,
    for each call, the clock, the UUIDs and the commits of other goroutines before it,
    and an error keeps the commits before it.  [World R] adds the state [R] of plugin
    processes and files, [Handler] the errors of gRPC.  Components of a run execute
    concurrently, so the scheduler is a step relation over its variables, the running
    components and the buffered channel; the runtime of a plugin process is one over
    its calls and sinks.  A polling loop is a list of turns, one per tick.  Timestamps
    in the store are RFC3339Nano text, compared as text, as SQL does; instants are
    nanoseconds.  Integers are [Z] with the bounds and wrap-around of the code written
    out (uint64 generations and sequences, uint32 attempts, int64 durations).

    ** Third-party code, as parameters

    [Calendar] (cron parser, time zones), [CronLibrary], [Digest] and [Sha256]
    (SHA-256), [Cel] and [CelChecker] (conditions), [JsonSchema] and [SdkSchemas]
    (schema libraries), [Semver], [Archives] (tar, gzip, YAML), [Runtime] and
    [WorkflowClient] (go-workflows, with [ClientLaws], and [SignalLog], the record of the
    signals it accepted), [PluginHost] and [ProcessHost]
    (plugin processes), [TriggerHost], [FileStat], [StateDir], [FileSystem],
    [RawLogFiles] (which writes and reads of a raw log fail, and after how many bytes) and
    [SystemHost] (files and the executable path), [Client] (the receiving side of a stream),
    [GithubService] (HTTP transport, clock and waiting), [UrlParser] (net/url),
    [TriggerStream] and [EventSink] (the plugin's side of its streams), [Machine]
    (processes and directories of a workspace).  Interfaces between
    modelled components are classes too: [TaskExecutor] (engine to plugin manager),
    [Orchestrator.FlowCompiler] and [CapabilityResolver], [DurableEngine] (orchestrator
    to adapter), [Acceptor] and [Provider] (trigger controller), [PluginRuntime]
    (controller to manager), [PluginService] and [ManagerViews] (server to manager).
    Every property with such a parameter has a witness with a concrete one.

    ** What the properties show

    - Store: an occurrence has one receipt and one Run for ever, also after retention;
      accepted work stays in the outbox; claims are first in, first out and exclusive
      while the lease lasts; terminal Runs are final; event logs have no gaps; evidence
      is immutable; approvals are decided once; apply is compare-and-swap; list then
      watch loses nothing; retention removes only finished Runs.
    - Compiler: a Flow without error diagnostics yields a well-formed plan that the
      interpreter accepts; Tarjan's components are the classes of mutual reachability;
      typed mappings deliver values of the target type when no source schema admits
      both objects and arrays; compilation ends exactly when
      schema references do; the plan does not depend on the order of the source.
    - Interpreter: topological order, no deadlock, bounded parallelism, termination,
      replay instead of repeated execution.  Dispatch: a turn completes a command exactly
      when it succeeds, and then the engine accepted the start, with the pinned plan, or
      the signal, or the Run was cancelled; a failed turn leaves the command open.
    - Triggers: a schedule pass settles the latest due occurrence, once.
    - Plugins: bundles and contracts are read back as they were written; installations
      are immutable; activation converges to what the installation resources ask for,
      except where the runtime refused the call for the plugin; an output is returned
      only for a stream that follows the protocol, and for each of those when recording
      it cannot fail; what is stored and logged of it is the redacted text; the host reads
      the events of the SDK as the result of the handler; acknowledged provider events
      are persisted.
    - API: watches and run streams are complete, ordered and without repetition; apply
      writes valid documents once; an enabled installation is not deleted; a decision is
      flagged as delivered only if the engine has its signal, and the next successful
      reconciliation delivers it; downloads are intact; uploads are bounded; a retention
      plan names only what may go, and its files are touched only after its rows are gone.
    - Webhooks: an answer 202 means an authenticated, bounded, durable occurrence of an
      enabled Trigger, and a retry gets the first receipt.  GitHub: watches deliver in
      cursor order, one acknowledgement at a time, what GitHub listed and all that the
      watch is for; cursors are read back; a successful wait has seen green
      checks on the head that is still current; a comment is posted once per request;
      the git token does not reach the log.
    - Theorems on defects: retention can delete the plan of accepted work, a decided
      approval answers the waits of later loop iterations, an unlisted instance is never
      cancelled, a lease can expire early, more than ten thousand missed occurrences
      stop a schedule for ever, cyclic schema references make the compiler diverge, data
      after the final chunk of an upload is ignored, [List] can return a revision newer than
      its documents ([List_can_miss_a_write]), a source typed object or array maps values
      of the wrong type, a review of a finished Run keeps
      later reviews from being delivered.

    ** Fuel

    Kahn's loop has one unit per component ([order_components_total]).  [loop_fuel] of
    a cyclic component with [n] nodes and bound [k] is [1 + n + n * k * (1 + n)]: each
    of the at most [n * k] executions enqueues at most [n] nodes
    ([component_loop_total]).  The breadth-first search has one unit per listed
    successor plus two, Tarjan's visit one per vertex, and neither runs out.  [dereference] takes
    its fuel as an argument: [compilation_terminates] says when some fuel is enough.
    The JSON readers ([walk], [raw_items]) have one unit per byte of their input;
    [send_chunks] has one per byte plus one, [remove_parents] one per path component.
    A wait for external events consumes at most [signals] signals before its timer fires; [signals] is a parameter.
    A listing of GitHub follows at most a hundred links and a request is tried at most
    three times, as in the code.  [watchIssues], [watchReviews] and
    [waitForCommitChecks] poll until they are stopped and take the number of polls as an
    argument; their properties hold for every number, and an answer of a wait
    for checks is the same with more polls ([wait_turns_more]).  Case folding, which the
    code uses on hexadecimal names and GitHub's state words, is that of ASCII.

    ** Not modelled

    YAML decoding, SQLite I/O errors and the migrations' data movement
    (store/store.go, store/migrations.go), go-workflows itself, CEL, gRPC and protobuf
    code, process supervision and packaging (pluginhost, pluginpack), how signals end a
    cancelled process (process/runner.go; the outcome is a parameter), the texts of
    errors of encoding/json and of sockets, the
    start-up reconciliation of raw-log files (manager.go, [ReconcileArtifacts]), the
    tickers and goroutines around the modelled passes, [Info] and [Backup] of the API:
    they are I/O around third-party code.  The agent plugins (pluginruntime, firstparty),
    the terminal UI, the command line, configuration, backup, installation and release tooling hold no state the
    components above depend on; they call the operations above. *)

From Stdlib Require Export ZArith Lia.
From Stdlib Require Import Ascii.
From Stdlib Require String.
From stdpp Require Export prelude gmap strings list sorting relations.

Declare Scope orch_scope.
Delimit Scope orch_scope with orch.

(** * Comparison functions

    Go compares strings bytewise, SQLite's BINARY collation does the same, and
    [ORDER BY a, b DESC] is a lexicographic comparison.  A comparison is a
    function to [comparison] with the two laws of a total preorder. *)

Class TotalCmp {A} (c : A → A → comparison) : Prop := {
  cmp_sym : ∀ x y, c y x = CompOpp (c x y);
  cmp_le_trans : ∀ x y z, c x y ≠ Gt → c y z ≠ Gt → c x z ≠ Gt
}.

#[global] Arguments cmp_sym {A} c {_} x y : rename.
#[global] Arguments cmp_le_trans {A} c {_} x y z : rename.

Definition cmp_le {A} (c : A → A → comparison) (x y : A) : Prop := c x y ≠ Gt.
Definition cmp_lt {A} (c : A → A → comparison) (x y : A) : Prop := c x y = Lt.

#[export] Instance cmp_le_dec {A} (c : A → A → comparison) : RelDecision (cmp_le c).
Proof. intros x y. unfold cmp_le. destruct (c x y); [left|left|right]; congruence. Defined.

#[export] Instance cmp_lt_dec {A} (c : A → A → comparison) : RelDecision (cmp_lt c).
Proof. intros x y. unfold cmp_lt. destruct (c x y); [right|left|right]; congruence. Defined.

(** [onc f c] compares images, [lexc c1 c2] breaks ties of [c1] by [c2] and
    [revc c] is the descending order. *)
Definition onc {A B} (f : A → B) (c : B → B → comparison) (x y : A) : comparison := c (f x) (f y).
Definition lexc {A} (c1 c2 : A → A → comparison) (x y : A) : comparison :=
  match c1 x y with Eq => c2 x y | r => r end.
Definition revc {A} (c : A → A → comparison) (x y : A) : comparison := c y x.
#[global] Typeclasses Opaque onc lexc revc.

Section TotalCmpFacts.
Context {A : Type} (c : A → A → comparison) `{!TotalCmp c}.

Lemma cmp_refl x : c x x = Eq.
Proof. pose proof (cmp_sym c x x) as H. destruct (c x x); simpl in *; congruence. Qed.

Lemma cmp_gt_lt x y : c x y = Gt ↔ c y x = Lt.
Proof. rewrite (cmp_sym c x y). destruct (c x y); simpl; split; congruence. Qed.

Lemma cmp_not_le x y : ¬ cmp_le c x y ↔ cmp_lt c y x.
Proof.
  unfold cmp_le, cmp_lt. rewrite <- cmp_gt_lt.
  destruct (c x y); split; intros H; try congruence; exfalso; apply H; congruence.
Qed.

Lemma cmp_lt_le x y : cmp_lt c x y → cmp_le c x y.
Proof. unfold cmp_lt, cmp_le. congruence. Qed.

Lemma cmp_lt_le_trans x y z : cmp_lt c x y → cmp_le c y z → cmp_lt c x z.
Proof.
  unfold cmp_lt, cmp_le. intros H1 H2.
  destruct (c x z) eqn:E; [|done|].
  - exfalso. assert (c z x ≠ Gt) as H3 by (rewrite (cmp_sym c x z), E; simpl; congruence).
    pose proof (cmp_le_trans c _ _ _ H2 H3) as H4. rewrite (cmp_sym c x y), H1 in H4. simpl in H4. congruence.
  - exfalso. apply cmp_gt_lt in E.
    assert (c z x ≠ Gt) as H3 by congruence.
    pose proof (cmp_le_trans c _ _ _ H2 H3) as H4. rewrite (cmp_sym c x y), H1 in H4. simpl in H4. congruence.
Qed.

Lemma cmp_le_lt_trans x y z : cmp_le c x y → cmp_lt c y z → cmp_lt c x z.
Proof.
  unfold cmp_lt, cmp_le. intros H1 H2.
  destruct (c x z) eqn:E; [|done|].
  - exfalso. assert (c z x ≠ Gt) as H3 by (rewrite (cmp_sym c x z), E; simpl; congruence).
    pose proof (cmp_le_trans c _ _ _ H3 H1) as H4. rewrite (cmp_sym c y z), H2 in H4. simpl in H4. congruence.
  - exfalso. apply cmp_gt_lt in E.
    assert (c z x ≠ Gt) as H3 by congruence.
    pose proof (cmp_le_trans c _ _ _ H3 H1) as H4. rewrite (cmp_sym c y z), H2 in H4. simpl in H4. congruence.
Qed.

#[export] Instance cmp_le_transitive : Transitive (cmp_le c).
Proof. intros x y z. apply (cmp_le_trans c). Qed.
#[export] Instance cmp_le_reflexive : Reflexive (cmp_le c).
Proof. intros x. unfold cmp_le. rewrite cmp_refl. congruence. Qed.
#[export] Instance cmp_le_total : Total (cmp_le c).
Proof.
  intros x y. unfold cmp_le. rewrite (cmp_sym c x y).
  destruct (c x y); simpl; [left|left|right]; congruence.
Qed.
#[export] Instance cmp_lt_transitive : Transitive (cmp_lt c).
Proof. intros x y z H1 H2. eapply cmp_lt_le_trans; [done|by apply cmp_lt_le]. Qed.

Lemma cmp_lt_irrefl x : ¬ cmp_lt c x x.
Proof. unfold cmp_lt. rewrite cmp_refl. congruence. Qed.
End TotalCmpFacts.

#[export] Instance onc_total {A B} (f : A → B) c `{!TotalCmp c} : TotalCmp (onc f c).
Proof. split; unfold onc; [intros; apply (cmp_sym c)|intros x y z; apply (cmp_le_trans c)]. Qed.

#[export] Instance revc_total {A} (c : A → A → comparison) `{!TotalCmp c} : TotalCmp (revc c).
Proof. split; unfold revc; [intros; apply (cmp_sym c)|intros x y z H1 H2; by apply (cmp_le_trans c z y x)]. Qed.

#[export] Instance lexc_total {A} (c1 c2 : A → A → comparison) `{!TotalCmp c1, !TotalCmp c2} :
  TotalCmp (lexc c1 c2).
Proof.
  split; unfold lexc.
  - intros x y. rewrite (cmp_sym c1 x y). destruct (c1 x y); simpl; [apply (cmp_sym c2)|done|done].
  - intros x y z.
    destruct (c1 x y) eqn:E1; [| |congruence]; destruct (c1 y z) eqn:E2; intros H1 H2; try congruence.
    + assert (c1 x z = Eq) as ->.
      { assert (c1 x z ≠ Gt) by (apply (cmp_le_trans c1 x y z); congruence).
        assert (c1 z x ≠ Gt) as H3.
        { apply (cmp_le_trans c1 z y x); rewrite (cmp_sym c1); [rewrite E2|rewrite E1]; done. }
        rewrite (cmp_sym c1 x z) in H3. destruct (c1 x z); simpl in *; congruence. }
      by apply (cmp_le_trans c2 x y z).
    + assert (cmp_lt c1 x z) as ->; [|done].
      apply (cmp_le_lt_trans c1 x y z); [unfold cmp_le; congruence|done].
    + assert (cmp_lt c1 x z) as ->; [|done].
      apply (cmp_lt_le_trans c1 x y z); [done|unfold cmp_le; congruence].
    + assert (cmp_lt c1 x z) as ->; [|done].
      apply (cmp_lt_le_trans c1 x y z); [done|unfold cmp_le; congruence].
Qed.

#[export] Instance Zcompare_total : TotalCmp Z.compare.
Proof. split; [intros; by rewrite Z.compare_antisym|]. intros x y z ??. change (x ≤ z)%Z. change (x ≤ y)%Z in H. change (y ≤ z)%Z in H0. lia. Qed.

(** ** Strings: bytewise lexicographic order *)

Definition str_cmp : string → string → comparison := String.compare.
Definition str_lt (a b : string) : bool := match str_cmp a b with Lt => true | _ => false end.
Definition str_le (a b : string) : bool := match str_cmp a b with Gt => false | _ => true end.

Lemma ascii_cmp_le_trans a b c :
  Ascii.compare a b ≠ Gt → Ascii.compare b c ≠ Gt → Ascii.compare a c ≠ Gt.
Proof. unfold Ascii.compare. rewrite !N.compare_ngt_iff. lia. Qed.

Lemma ascii_cmp_eq a b : Ascii.compare a b = Eq ↔ a = b.
Proof. split; [apply Ascii.compare_eq_iff|intros ->; unfold Ascii.compare; apply N.compare_refl]. Qed.

Lemma str_cmp_eq a b : str_cmp a b = Eq ↔ a = b.
Proof.
  split; [apply String.compare_eq_iff|intros ->].
  induction b as [|x b IH]; simpl; [done|]. unfold str_cmp in *. simpl.
  by rewrite (proj2 (ascii_cmp_eq x x) eq_refl).
Qed.

#[export] Instance str_cmp_total : TotalCmp str_cmp.
Proof.
  split.
  - intros x y. apply String.compare_antisym.
  - intros x. induction x as [|a x IH]; intros [|b y] [|c z] H1 H2; try done.
    unfold str_cmp in *; simpl in *.
    pose proof (ascii_cmp_le_trans a b c) as HT.
    destruct (Ascii.compare a b) eqn:Eab; [| |done].
    + apply ascii_cmp_eq in Eab as ->.
      destruct (Ascii.compare b c) eqn:Ebc; [|done|done]. by eapply IH.
    + destruct (Ascii.compare b c) eqn:Ebc; [| |done].
      * apply ascii_cmp_eq in Ebc as ->. by rewrite Eab.
      * destruct (Ascii.compare a c) eqn:Eac; [|done|].
        -- apply ascii_cmp_eq in Eac as ->. unfold Ascii.compare in *.
           rewrite N.compare_lt_iff in *. lia.
        -- exfalso. by apply HT.
Qed.

Lemma str_lt_spec a b : str_lt a b = true ↔ cmp_lt str_cmp a b.
Proof. unfold str_lt, cmp_lt. destruct (str_cmp a b); split; congruence. Qed.
Lemma str_le_spec a b : str_le a b = true ↔ cmp_le str_cmp a b.
Proof. unfold str_le, cmp_le. destruct (str_cmp a b); split; congruence. Qed.
Lemma str_le_lt a b : str_le a b = negb (str_lt b a).
Proof.
  unfold str_le, str_lt. rewrite (cmp_sym str_cmp a b). by destruct (str_cmp a b).
Qed.
Lemma str_lt_irrefl a : str_lt a a = false.
Proof. unfold str_lt. by rewrite (proj2 (str_cmp_eq a a) eq_refl). Qed.

(** What follows a prefix. *)
Fixpoint strip_prefix (p s : string) : option string :=
  match p, s with
  | EmptyString, _ => Some s
  | String a p, String b s => if Ascii.eqb a b then strip_prefix p s else None
  | String _ _, EmptyString => None
  end.
Lemma strip_prefix_some p s r : strip_prefix p s = Some r → s = p +:+ r.
Proof.
  revert s. induction p as [|c p IH]; intros s; cbn [strip_prefix]; [by intros [= ->]|].
  destruct s as [|d s]; [done|]. destruct (Ascii.eqb_spec c d) as [->|]; [|done]. intros H. by rewrite (IH _ H).
Qed.
Lemma strip_prefix_app p r : strip_prefix p (p +:+ r) = Some r.
Proof. induction p as [|c p IH]; simpl; [done|]. by rewrite Ascii.eqb_refl. Qed.

(** ** Sorting by a comparison ([sort.Slice], [sort.Strings], [ORDER BY]) *)

Definition sort_by {A} (c : A → A → comparison) (l : list A) : list A := merge_sort (cmp_le c) l.
Definition sort_strings : list string → list string := sort_by str_cmp.

Section SortBy.
Context {A : Type} (c : A → A → comparison) `{!TotalCmp c}.

Lemma sort_by_perm l : sort_by c l ≡ₚ l.
Proof. apply merge_sort_Permutation. Qed.
Lemma elem_of_sort_by x l : x ∈ sort_by c l ↔ x ∈ l.
Proof. by rewrite sort_by_perm. Qed.
Lemma sort_by_sorted l : StronglySorted (cmp_le c) (sort_by c l).
Proof. apply StronglySorted_merge_sort; apply _. Qed.
Lemma sort_by_nodup l : NoDup (sort_by c l) ↔ NoDup l.
Proof. by rewrite sort_by_perm. Qed.
Lemma sort_by_length l : length (sort_by c l) = length l.
Proof. by rewrite sort_by_perm. Qed.

(** Two sorted permutations of the same keys coincide when ties are equal. *)
Lemma sorted_unique l k :
  (∀ x y, x ∈ l → y ∈ l → c x y = Eq → x = y) →
  StronglySorted (cmp_le c) l → StronglySorted (cmp_le c) k → l ≡ₚ k → l = k.
Proof.
  revert k. induction l as [|x l IH]; intros k Htie Hl Hk Hp.
  { symmetry. by apply Permutation_nil_r. }
  destruct k as [|y k]; [by apply Permutation_nil_r in Hp|].
  apply StronglySorted_inv in Hl as [Hl Hxl]. apply StronglySorted_inv in Hk as [Hk Hyk].
  assert (x = y) as ->.
  { assert (x ∈ y :: k) as Hx by (rewrite <- Hp; left).
    assert (y ∈ x :: l) as Hy by (rewrite Hp; left).
    apply Htie; [left|done|].
    apply elem_of_cons in Hx as [->|Hx]; [by apply cmp_refl|].
    apply elem_of_cons in Hy as [->|Hy]; [by apply cmp_refl|].
    rewrite Forall_forall in Hxl, Hyk.
    specialize (Hxl _ Hy). specialize (Hyk _ Hx).
    unfold cmp_le in *. rewrite (cmp_sym c x y) in Hyk.
    destruct (c x y); simpl in *; congruence. }
  f_equal. apply IH; [|done|done|by eapply Permutation_cons_inv].
  intros a b ??. apply Htie; by right.
Qed.

Lemma sorted_lt_le l : StronglySorted (cmp_lt c) l → StronglySorted (cmp_le c) l.
Proof.
  induction 1 as [|z l Hl IH Hz]; constructor; [done|].
  eapply Forall_impl; [exact Hz|]. intros. by apply cmp_lt_le.
Qed.

Lemma sorted_lt_nodup l : StronglySorted (cmp_lt c) l → NoDup l.
Proof.
  induction 1 as [|x l Hl IH Hx]; constructor; [|done]. intros Hin. rewrite Forall_forall in Hx.
  by apply (cmp_lt_irrefl c x), Hx.
Qed.

(** A strictly sorted list is the only sorted permutation of its elements. *)
Lemma sorted_perm_eq l k : StronglySorted (cmp_lt c) l → StronglySorted (cmp_le c) k → l ≡ₚ k → l = k.
Proof.
  intros Hl. apply sorted_unique; [|by apply sorted_lt_le].
  induction Hl as [|z l Hl IH Hz]; intros x y Hx Hy E; [by apply elem_of_nil in Hx|].
  rewrite Forall_forall in Hz. unfold cmp_lt in Hz.
  apply elem_of_cons in Hx as [->|Hx]; apply elem_of_cons in Hy as [->|Hy]; [done| | |by apply IH].
  - specialize (Hz _ Hy). congruence.
  - specialize (Hz _ Hx). rewrite (cmp_sym c), E in Hz. done.
Qed.

(** Rows in strict order are returned as they are stored. *)
Lemma sort_by_sorted_id l : StronglySorted (cmp_lt c) l → sort_by c l = l.
Proof. intros Hl. symmetry. apply sorted_perm_eq; [done|apply sort_by_sorted|symmetry; apply sort_by_perm]. Qed.
End SortBy.

(** * Results

    Fallible code returns [Err + A]; the constructors are the sentinel errors
    and error types of the packages, [ErrMsg] an [errors.New]/[fmt.Errorf]
    without a type of its own and [ErrConstraint] a violated SQL constraint. *)

Inductive Err :=
  | ErrNotFound
  | ErrTriggerDisabled
  | ErrStaleTriggerGeneration (expected current : Z)
  | ErrStaleFlowPlan (expectedUID : string) (expectedGeneration : Z) (currentUID : string) (currentGeneration : Z)
  | ErrTriggerReferenceChanged
  | ErrConflict (expected current : Z)
  | ErrStaleObservedGeneration (expected current : Z)
  | ErrSnapshotRevision (expected current : Z)
  | ErrRunCapacity
  | ErrConstraint (table : string)
  | ErrMsg (message : string).

#[export] Instance Err_eq_dec : EqDecision Err.
Proof. solve_decision. Defined.

Definition res (A : Type) : Type := Err + A.
Definition ok {A} (a : A) : res A := inr a.
Definition fail {A} (e : Err) : res A := inl e.

#[export] Instance res_ret : MRet res := λ A a, inr a.
#[export] Instance res_bind : MBind res := λ A B f m, match m with inl e => inl e | inr a => f a end.

Definition guard_err (b : bool) (e : Err) : res unit := if b then ok tt else fail e.

Lemma res_bind_ok {A B} (m : res A) (f : A → res B) b :
  m ≫= f = inr b ↔ ∃ a, m = inr a ∧ f a = inr b.
Proof.
  destruct m as [e|a]; unfold mbind, res_bind; split.
  - congruence.
  - intros (?&?&?); congruence.
  - eauto.
  - intros (?&[= ->]&?); done.
Qed.

(** * Generic list facts *)

Section ListFacts.
Context {A : Type}.

Lemma find_filter_head (P : A → bool) (l : list A) : List.find P l = head (filter (λ x, P x = true) l).
Proof.
  induction l as [|x l IH]; [done|]. simpl. rewrite filter_cons.
  destruct (P x) eqn:E; case_decide; try congruence; done.
Qed.

Lemma seqZ_snoc (n : Z) : (0 ≤ n → seqZ 1 (n + 1) = seqZ 1 n ++ [n + 1])%Z.
Proof.
  intros Hn. rewrite seqZ_app by lia. f_equal.
  rewrite seqZ_cons, seqZ_nil by lia. f_equal. lia.
Qed.

Lemma StronglySorted_filter (R : relation A) (P : A → Prop) `{∀ x, Decision (P x)} (l : list A) :
  StronglySorted R l → StronglySorted R (filter P l).
Proof.
  induction 1 as [|x l Hl IH Hx]; [constructor|]. rewrite filter_cons. case_decide; [|done].
  constructor; [done|]. rewrite Forall_forall in Hx |- *. intros y [_ Hy]%list_elem_of_filter. by apply Hx.
Qed.

Lemma NoDup_join_elem (ls : list (list A)) l : NoDup (mjoin ls) → l ∈ ls → NoDup l.
Proof.
  intros Hn (l1&l2&->)%list_elem_of_split. rewrite join_app in Hn. simpl in Hn.
  apply NoDup_app in Hn as (_&_&Hn). by apply NoDup_app in Hn as (?&_&_).
Qed.

Lemma NoDup_join_lists (ls : list (list A)) : NoDup (mjoin ls) → (∀ l, l ∈ ls → l ≠ []) → NoDup ls.
Proof.
  induction ls as [|l ls IH]; intros Hn Hne; [constructor|]. simpl in Hn. apply NoDup_app in Hn as (_&Hd&Hn).
  constructor; [|apply IH; [done|]; intros k Hk; apply Hne; by right].
  intros Hin. destruct l as [|x l]; [by apply (Hne []); [left|]|].
  apply (Hd x); [left|]. apply list_elem_of_join. exists (x :: l). split; [left|done].
Qed.
End ListFacts.

(** * Automation *)

(** [inv_res H] splits every [≫=] and every [match] scrutinee of an equation
    [H : … = inr _] until the result is exposed. *)
Ltac inv_res_step H :=
  match type of H with
  | inl _ = inr _ => discriminate H
  | inr _ = inl _ => discriminate H
  | inr _ = inr _ => apply (inj inr) in H
  | Some _ = Some _ => apply (inj Some) in H
  | (_, _) = (_, _) => apply pair_equal_spec in H; destruct H
  end.

Ltac split_match :=
  match goal with
  | H : context [match ?x with _ => _ end] |- _ =>
      lazymatch x with
      | context [match _ with _ => _ end] => fail
      | _ => destruct x eqn:?
      end
  end.
