(* ===== verification/Json.v ===== *)
(** JSON values as [encoding/json] decodes and encodes them.

    The source keeps JSON either as raw bytes ([json.RawMessage], a [string]
    here) or decoded into [any] (the type [json] here).  [parse] is the decoder
    with [UseNumber] (a number is its literal), [valid] is [json.Valid] and
    [marshal] is [json.Marshal] of a decoded value, with Go's HTML escaping.
    A decoded object is a Go map: keys are unique, the last duplicate wins, and
    [marshal] writes them in sorted order, so [JObj] keeps its fields sorted. *)

From Stdlib Require Import Ascii.
From Stdlib Require String.
From S2P Require Import Prelude.

Inductive json :=
  | JNull
  | JBool (b : bool)
  | JNum (lit : string)
  | JStr (s : string)
  | JArr (items : list json)
  | JObj (fields : list (string * json)).

(** The nested induction principle. *)
Section JsonInd.
Context (P : json → Prop).
Context (HNull : P JNull) (HBool : ∀ b, P (JBool b)) (HNum : ∀ l, P (JNum l)) (HStr : ∀ s, P (JStr s)).
Context (HArr : ∀ l, Forall P l → P (JArr l)) (HObj : ∀ m, Forall (λ kv, P kv.2) m → P (JObj m)).

Fixpoint json_ind' (j : json) : P j :=
  match j with
  | JNull => HNull
  | JBool b => HBool b
  | JNum l => HNum l
  | JStr s => HStr s
  | JArr l => HArr l ((fix go l := match l return Forall P l with
                        | [] => Forall_nil_2 _
                        | x :: l => Forall_cons_2 _ _ _ (json_ind' x) (go l) end) l)
  | JObj m => HObj m ((fix go m := match m return Forall (λ kv, P kv.2) m with
                        | [] => Forall_nil_2 _
                        | kv :: m => Forall_cons_2 _ _ _ (json_ind' kv.2) (go m) end) m)
  end.
End JsonInd.

#[export] Instance json_eq_dec : EqDecision json.
Proof.
  refine (fix go (a b : json) {struct a} : Decision (a = b) :=
    match a, b with
    | JNull, JNull => left eq_refl
    | JBool x, JBool y => cast_if (decide (x = y))
    | JNum x, JNum y => cast_if (decide (x = y))
    | JStr x, JStr y => cast_if (decide (x = y))
    | JArr x, JArr y => cast_if ((fix gol (l k : list json) : Decision (l = k) :=
        match l, k with
        | [], [] => left eq_refl
        | p :: l, q :: k => match go p q with left _ => cast_if (gol l k) | right _ => right _ end
        | _, _ => right _ end) x y)
    | JObj x, JObj y => cast_if ((fix gol (l k : list (string * json)) : Decision (l = k) :=
        match l, k with
        | [], [] => left eq_refl
        | p :: l, q :: k =>
            match decide (p.1 = q.1) with
            | left _ => match go p.2 q.2 with left _ => cast_if (gol l k) | right _ => right _ end
            | right _ => right _ end
        | _, _ => right _ end) x y)
    | _, _ => right _
    end); try abstract congruence; try abstract (destruct p, q; simpl in *; congruence).
Defined.

(** ** Objects *)

Fixpoint obj_set (k : string) (v : json) (m : list (string * json)) : list (string * json) :=
  match m with
  | [] => [(k, v)]
  | (k', v') :: m' =>
      match str_cmp k k' with
      | Lt => (k, v) :: m
      | Eq => (k, v) :: m'
      | Gt => (k', v') :: obj_set k v m'
      end
  end.

Fixpoint obj_get (k : string) (m : list (string * json)) : option json :=
  match m with
  | [] => None
  | (k', v) :: m => if decide (k = k') then Some v else obj_get k m
  end.

Definition obj_delete (k : string) (m : list (string * json)) : list (string * json) :=
  filter (λ kv, kv.1 ≠ k) m.

Definition mkobj (l : list (string * json)) : json := JObj (fold_left (λ m kv, obj_set kv.1 kv.2 m) l []).

Lemma obj_get_set_eq k v m : obj_get k (obj_set k v m) = Some v.
Proof.
  induction m as [|[k' v'] m IH]; simpl.
  - by rewrite decide_True.
  - destruct (str_cmp k k') eqn:E; simpl; [by rewrite decide_True..|].
    rewrite decide_False; [done|]. intros ->. by rewrite (proj2 (str_cmp_eq k' k') eq_refl) in E.
Qed.

Lemma obj_get_set_ne k k' v m : k ≠ k' → obj_get k (obj_set k' v m) = obj_get k m.
Proof.
  intros Hne. induction m as [|[k2 v2] m IH]; simpl.
  - by rewrite decide_False.
  - destruct (str_cmp k' k2) eqn:E; simpl.
    + apply str_cmp_eq in E as ->. by rewrite !decide_False.
    + by rewrite (decide_False (P:=k = k')).
    + by rewrite IH.
Qed.

(** ** Decoding *)

Local Open Scope N_scope.

Definition chr (n : N) : ascii := ascii_of_N n.
Definition code (c : ascii) : N := N_of_ascii c.

Definition is_ws (c : ascii) : bool :=
  let n := code c in (n =? 32) || (n =? 9) || (n =? 10) || (n =? 13).
Definition is_digit (c : ascii) : bool := let n := code c in (48 <=? n) && (n <=? 57).

Fixpoint skip_ws (s : string) : string :=
  match s with
  | EmptyString => EmptyString
  | String c s' => if is_ws c then skip_ws s' else s
  end.

Fixpoint take_digits (s : string) : string * string :=
  match s with
  | String c s' => if is_digit c then let '(d, r) := take_digits s' in (String c d, r) else (EmptyString, s)
  | EmptyString => (EmptyString, EmptyString)
  end.

Definition hex_val (c : ascii) : option N :=
  let n := code c in
  if (48 <=? n) && (n <=? 57) then Some (n - 48)
  else if (97 <=? n) && (n <=? 102) then Some (n - 87)
  else if (65 <=? n) && (n <=? 70) then Some (n - 55)
  else None.

Definition hex4 (a b c d : ascii) : option N :=
  a ← hex_val a; b ← hex_val b; c ← hex_val c; d ← hex_val d;
  Some (((a * 16 + b) * 16 + c) * 16 + d).

(** UTF-8 encoding of a code point. *)
Definition utf8 (n : N) : string :=
  if n <? 128 then String (chr n) EmptyString
  else if n <? 2048 then String (chr (192 + n / 64)) (String (chr (128 + n mod 64)) EmptyString)
  else if n <? 65536 then
    String (chr (224 + n / 4096)) (String (chr (128 + n / 64 mod 64)) (String (chr (128 + n mod 64)) EmptyString))
  else String (chr (240 + n / 262144)) (String (chr (128 + n / 4096 mod 64))
         (String (chr (128 + n / 64 mod 64)) (String (chr (128 + n mod 64)) EmptyString))).

Definition replacement : string := utf8 65533.

(** [parse_str s] reads the body of a string literal after its opening quote.
    [hi] is a pending high surrogate. *)
Definition flush (hi : option N) (s : string) : string :=
  match hi with Some _ => replacement +:+ s | None => s end.

Fixpoint parse_str (hi : option N) (s : string) : option (string * string) :=
  match s with
  | EmptyString => None
  | String c s1 =>
      if code c =? 34 then Some (flush hi EmptyString, s1)
      else if code c <? 32 then None
      else if code c =? 92 then
        match s1 with
        | EmptyString => None
        | String e s2 =>
            let lit n := '(r, rest) ← parse_str None s2; Some (flush hi (String (chr n) r), rest) in
            match code e with
            | 34 => lit 34 | 92 => lit 92 | 47 => lit 47
            | 98 => lit 8 | 102 => lit 12 | 110 => lit 10 | 114 => lit 13 | 116 => lit 9
            | 117 =>
                match s2 with
                | String a (String b (String c' (String d s3))) =>
                    n ← hex4 a b c' d;
                    match hi with
                    | Some h =>
                        if (56320 <=? n) && (n <=? 57343) then
                          '(r, rest) ← parse_str None s3;
                          Some (utf8 (65536 + (h - 55296) * 1024 + (n - 56320)) +:+ r, rest)
                        else if (55296 <=? n) && (n <=? 56319) then
                          '(r, rest) ← parse_str (Some n) s3; Some (replacement +:+ r, rest)
                        else '(r, rest) ← parse_str None s3; Some (replacement +:+ utf8 n +:+ r, rest)
                    | None =>
                        if (55296 <=? n) && (n <=? 56319) then parse_str (Some n) s3
                        else if (56320 <=? n) && (n <=? 57343) then
                          '(r, rest) ← parse_str None s3; Some (replacement +:+ r, rest)
                        else '(r, rest) ← parse_str None s3; Some (utf8 n +:+ r, rest)
                    end
                | _ => None
                end
            | _ => None
            end
        end
      else '(r, rest) ← parse_str None s1; Some (flush hi (String c r), rest)
  end.

(** Numbers: [-?(0|[1-9][0-9]* )([.][0-9]+)?([eE][+-]?[0-9]+)?]. *)
Definition parse_num (s : string) : option (string * string) :=
  let '(sign, s) := match s with String c s' => if code c =? 45 then ("-", s') else ("", s) | _ => ("", s) end in
  let '(int, s) := take_digits s in
  match int with
  | EmptyString => None
  | String c rest =>
      if (code c =? 48) && negb (String.eqb rest "") then None else
      frac ← match s with
        | String c' s' => if code c' =? 46 then
            let '(d, r) := take_digits s' in
            if String.eqb d "" then None else Some ("." +:+ d, r)
          else Some ("", s)
        | EmptyString => Some ("", s) end;
      let '(f, s) := frac in
      expo ← match s with
        | String e s' => if (code e =? 101) || (code e =? 69) then
            let '(sg, s'') := match s' with
              | String c' r => if (code c' =? 43) || (code c' =? 45) then (String c' "", r) else ("", s')
              | _ => ("", s') end in
            let '(d, r) := take_digits s'' in
            if String.eqb d "" then None else Some (String e (sg +:+ d), r)
          else Some ("", s)
        | EmptyString => Some ("", s) end;
      let '(x, s) := expo in
      Some (sign +:+ int +:+ f +:+ x, s)
  end.


(** The nesting fuel is the length of the input: every level consumes a byte. *)
Fixpoint parse_value (fuel : nat) (s : string) : option (json * string) :=
  match fuel with
  | O => None
  | S fuel =>
      match skip_ws s with
      | EmptyString => None
      | String c rest as s0 =>
          match code c with
          | 34 => '(v, r) ← parse_str None rest; Some (JStr v, r)
          | 91 =>
              match skip_ws rest with
              | String c' r => if code c' =? 93 then Some (JArr [], r)
                               else '(l, r) ← parse_items fuel rest; Some (JArr l, r)
              | EmptyString => None
              end
          | 123 =>
              match skip_ws rest with
              | String c' r => if code c' =? 125 then Some (JObj [], r)
                               else '(l, r) ← parse_fields fuel rest; Some (mkobj l, r)
              | EmptyString => None
              end
          | 110 => r ← strip_prefix "null" s0; Some (JNull, r)
          | 116 => r ← strip_prefix "true" s0; Some (JBool true, r)
          | 102 => r ← strip_prefix "false" s0; Some (JBool false, r)
          | _ => '(l, r) ← parse_num s0; Some (JNum l, r)
          end
      end
  end
with parse_items (fuel : nat) (s : string) : option (list json * string) :=
  match fuel with
  | O => None
  | S fuel =>
      '(v, r) ← parse_value fuel s;
      match skip_ws r with
      | String c r' => if code c =? 44 then '(l, r'') ← parse_items fuel r'; Some (v :: l, r'')
                       else if code c =? 93 then Some ([v], r') else None
      | EmptyString => None
      end
  end
with parse_fields (fuel : nat) (s : string) : option (list (string * json) * string) :=
  match fuel with
  | O => None
  | S fuel =>
      match skip_ws s with
      | String q r0 =>
          if code q =? 34 then
            '(k, r1) ← parse_str None r0;
            match skip_ws r1 with
            | String col r2 =>
                if code col =? 58 then
                  '(v, r3) ← parse_value fuel r2;
                  match skip_ws r3 with
                  | String c r4 => if code c =? 44 then '(l, r5) ← parse_fields fuel r4; Some ((k, v) :: l, r5)
                                   else if code c =? 125 then Some ([(k, v)], r4) else None
                  | EmptyString => None
                  end
                else None
            | EmptyString => None
            end
          else None
      | EmptyString => None
      end
  end.

(** [json.Unmarshal] into [any]: exactly one value up to trailing whitespace. *)
Definition parse (s : string) : option json :=
  '(v, rest) ← parse_value (2 * String.length s + 2)%nat s;
  if String.eqb (skip_ws rest) "" then Some v else None.

(** [json.Valid]. *)
Definition valid (s : string) : bool := if parse s is Some _ then true else false.

(** [json.Unmarshal] into a [map[string]any]: [null] leaves the map nil. *)
Definition parse_object (s : string) : option (option (list (string * json))) :=
  v ← parse s;
  match v with JObj m => Some (Some m) | JNull => Some None | _ => None end.

(** ** Encoding *)

Definition hexdigit (n : N) : ascii := chr (if n <? 10 then 48 + n else 87 + n).
Definition u00 (n : N) : string :=
  "\u00" +:+ String (hexdigit (n / 16)) (String (hexdigit (n mod 16)) EmptyString).

Definition escape_char (c : ascii) : string :=
  let n := code c in
  match n with
  | 34 => String (chr 92) (String (chr 34) EmptyString)
  | 92 => String (chr 92) (String (chr 92) EmptyString)
  | 8 => "\b" | 12 => "\f" | 10 => "\n" | 13 => "\r" | 9 => "\t"
  | _ => if (n <? 32) || (n =? 60) || (n =? 62) || (n =? 38) then u00 n else String c EmptyString
  end.

Fixpoint escape (s : string) : string :=
  match s with
  | EmptyString => EmptyString
  | String c rest =>
      match rest with
      | String c2 (String c3 rest') =>
          if (code c =? 226) && (code c2 =? 128) && (code c3 =? 168) then "\u2028" +:+ escape rest'
          else if (code c =? 226) && (code c2 =? 128) && (code c3 =? 169) then "\u2029" +:+ escape rest'
          else escape_char c +:+ escape rest
      | _ => escape_char c +:+ escape rest
      end
  end.

Definition quote : string := String (chr 34) EmptyString.
Definition quoted (s : string) : string := quote +:+ escape s +:+ quote.

Fixpoint joinc (sep : string) (l : list string) : string :=
  match l with
  | [] => ""
  | [x] => x
  | x :: l => x +:+ sep +:+ joinc sep l
  end.

Fixpoint marshal (j : json) : string :=
  match j with
  | JNull => "null"
  | JBool b => if b then "true" else "false"
  | JNum l => l
  | JStr s => quoted s
  | JArr l => "[" +:+ joinc "," (List.map marshal l) +:+ "]"
  | JObj m => "{" +:+ joinc "," (List.map (λ kv, quoted kv.1 +:+ ":" +:+ marshal kv.2) m) +:+ "}"
  end.

(** [json.Marshal] of a [json.RawMessage]: the bytes without insignificant white
    space, HTML-escaped, keys in their original order. *)
Fixpoint compact (in_string escaped : bool) (s : string) : string :=
  match s with
  | EmptyString => EmptyString
  | String c rest =>
      if negb in_string && is_ws c then compact false false rest
      else
        let n := code c in
        let in' := if in_string then negb ((n =? 34) && negb escaped) else n =? 34 in
        let esc' := in_string && negb escaped && (n =? 92) in
        if (n =? 60) || (n =? 62) || (n =? 38) then u00 n +:+ compact in' esc' rest
        else match rest with
             | String c2 (String c3 rest') =>
                 if (n =? 226) && (code c2 =? 128) && (code c3 =? 168) then "\u2028" +:+ compact in' false rest'
                 else if (n =? 226) && (code c2 =? 128) && (code c3 =? 169) then "\u2029" +:+ compact in' false rest'
                 else String c (compact in' esc' rest)
             | _ => String c (compact in' esc' rest)
             end
  end.
Definition compact_raw (s : string) : string := compact false false s.

(** A literal object round-trips through its encoding. *)
Example parse_marshal_example :
  let j := mkobj [("b", JArr [JNum "1"; JNum "-2.5e3"; JBool true]); ("a", JStr "<x>"); ("c", JNull)] in
  parse (marshal j) = Some j ∧ parse " [1,] " = None ∧ valid "01" = false.
Proof. vm_compute. done. Qed.
