(* ===== verification/GoStd.v ===== *)
(** The parts of Go's standard library the modelled packages use: [strings],
    [strconv], [time] instants and durations.

    An instant is its number of nanoseconds since the Unix epoch (UTC) and a
    [time.Duration] its number of nanoseconds, both in [Z]; the int64 bounds of
    durations are written out.  [rfc3339nano] is
    [t.UTC().Format(time.RFC3339Nano)] for years 0000-9999: it drops trailing
    zeros of the fraction.  [ParseDuration] computes a fraction exactly where
    Go uses float64. *)

From Stdlib Require Import Ascii.
From Stdlib Require String.
From S2P Require Import Prelude.

Local Open Scope Z_scope.

(** ** Integers *)

Definition max_int64 : Z := 2 ^ 63 - 1.
Definition max_uint32 : Z := 2 ^ 32 - 1.
(** Wrap-around of uint64 arithmetic. *)
Definition u64 (x : Z) : Z := x mod 2 ^ 64.

Lemma u64_small x : 0 ≤ x < 2 ^ 64 → u64 x = x.
Proof. apply Z.mod_small. Qed.

(** ** Bytes and strings *)

Definition digit_char (n : Z) : ascii := ascii_of_N (Z.to_N (48 + n)).
Definition byte (c : ascii) : Z := Z.of_N (N_of_ascii c).
Definition is_digit (c : ascii) : bool := (48 <=? byte c) && (byte c <=? 57).
Definition is_lower (c : ascii) : bool := (97 <=? byte c) && (byte c <=? 122).
Definition is_upper (c : ascii) : bool := (65 <=? byte c) && (byte c <=? 90).

Definition explode : string → list ascii := String.list_ascii_of_string.
Definition implode : list ascii → string := String.string_of_list_ascii.

(** Decimal printing ([strconv.Itoa], [strconv.FormatUint], [%d]). *)
Fixpoint dec_digits (fuel : nat) (n : Z) (acc : string) : string :=
  match fuel with
  | O => acc
  | S fuel =>
      let acc := String (digit_char (n mod 10)) acc in
      if n / 10 =? 0 then acc else dec_digits fuel (n / 10) acc
  end.
Definition itoa (n : Z) : string :=
  if n <? 0 then "-" +:+ dec_digits 40 (- n) "" else dec_digits 40 n "".

Fixpoint pad_digits (width : nat) (n : Z) (acc : string) : string :=
  match width with
  | O => acc
  | S w => pad_digits w (n / 10) (String (digit_char (n mod 10)) acc)
  end.
Definition padded (width : nat) (n : Z) : string := pad_digits width n "".

(** [strconv.Atoi]: optional sign, decimal digits, int64 range. *)
Fixpoint digits_val (l : list ascii) (acc : Z) : option Z :=
  match l with
  | [] => Some acc
  | c :: l => if is_digit c then digits_val l (acc * 10 + (byte c - 48)) else None
  end.
Definition atoi (s : string) : option Z :=
  let '(neg, l) := match explode s with
    | c :: l => if byte c =? 45 then (true, l) else if byte c =? 43 then (false, l) else (false, c :: l)
    | [] => (false, []) end in
  match l with
  | [] => None
  | _ =>
      v ← digits_val l 0;
      let v := if neg : bool then - v else v in
      if (- 2 ^ 63 <=? v) && (v <=? max_int64) then Some v else None
  end.

(** [strings.HasPrefix], [strings.TrimPrefix]. *)
Definition has_prefix (s p : string) : bool := if strip_prefix p s is Some _ then true else false.
Definition trim_prefix (s p : string) : string := if strip_prefix p s is Some r then r else s.

(** [strings.Split s sep] for a one-byte separator, [strings.Join]. *)
Fixpoint split_on (sep : ascii) (s : string) : list string :=
  match s with
  | EmptyString => [""]
  | String c s =>
      if Ascii.eqb c sep then "" :: split_on sep s
      else match split_on sep s with
           | [] => [String c ""]
           | x :: l => String c x :: l
           end
  end.
Fixpoint join (sep : string) (l : list string) : string :=
  match l with
  | [] => ""
  | [x] => x
  | x :: l => x +:+ sep +:+ join sep l
  end.

(** ASCII white space, [strings.TrimSpace], [strings.Fields]. *)
Definition is_space (c : ascii) : bool :=
  let n := byte c in (n =? 32) || ((9 <=? n) && (n <=? 13)).
Fixpoint drop_while (f : ascii → bool) (l : list ascii) : list ascii :=
  match l with
  | [] => []
  | c :: l' => if f c then drop_while f l' else l
  end.
Definition trim_with (f : ascii → bool) (s : string) : string :=
  implode (rev (drop_while f (rev (drop_while f (explode s))))).
Definition trim_space : string → string := trim_with is_space.
Fixpoint fields_from (cur : list ascii) (l : list ascii) : list string :=
  match l with
  | [] => match cur with [] => [] | _ => [implode (rev cur)] end
  | c :: l => if is_space c
              then match cur with [] => fields_from [] l | _ => implode (rev cur) :: fields_from [] l end
              else fields_from (c :: cur) l
  end.
Definition fields (s : string) : list string := fields_from [] (explode s).

Fixpoint replace_all (old new : string) (fuel : nat) (s : string) : string :=
  match fuel with
  | O => s
  | S fuel =>
      match strip_prefix old s with
      | Some r => new +:+ replace_all old new fuel r
      | None => match s with EmptyString => "" | String c r => String c (replace_all old new fuel r) end
      end
  end.
(** [strings.ReplaceAll] for a non-empty [old]. *)
Definition ReplaceAll (s old new : string) : string := replace_all old new (S (String.length s)) s.

(** ** Instants *)

Definition second : Z := 1000000000.
Definition minute : Z := 60 * second.
Definition hour : Z := 60 * minute.

(** Days since the epoch to the proleptic Gregorian (year, month, day). *)
Definition civil_from_days (days : Z) : Z * Z * Z :=
  let z := days + 719468 in
  let era := z / 146097 in
  let doe := z mod 146097 in
  let yoe := (doe - doe / 1460 + doe / 36524 - doe / 146096) / 365 in
  let doy := doe - (365 * yoe + yoe / 4 - yoe / 100) in
  let mp := (5 * doy + 2) / 153 in
  let d := doy - (153 * mp + 2) / 5 + 1 in
  let m := if mp <? 10 then mp + 3 else mp - 9 in
  (yoe + era * 400 + (if m <=? 2 then 1 else 0), m, d).

(** The fraction of a second without trailing zeros, with its point. *)
Fixpoint strip_zeros (l : list ascii) : list ascii :=
  match l with
  | [] => []
  | c :: l' => if byte c =? 48 then strip_zeros l' else l
  end.
Definition fraction (width : nat) (n : Z) : string :=
  match rev (strip_zeros (rev (explode (padded width n)))) with
  | [] => ""
  | l => "." +:+ implode l
  end.

Definition rfc3339nano (t : Z) : string :=
  let secs := t / second in
  let '(y, m, d) := civil_from_days (secs / 86400) in
  let s := secs mod 86400 in
  padded 4 y +:+ "-" +:+ padded 2 m +:+ "-" +:+ padded 2 d +:+ "T" +:+
  padded 2 (s / 3600) +:+ ":" +:+ padded 2 (s / 60 mod 60) +:+ ":" +:+ padded 2 (s mod 60) +:+
  fraction 9 (t mod second) +:+ "Z".

(** ** Durations *)

(** [time.Duration.String]. *)
Definition duration_string (d : Z) : string :=
  let u := Z.abs d in
  let body :=
    if u =? 0 then "0s"
    else if u <? 1000 then itoa u +:+ "ns"
    else if u <? 1000000 then itoa (u / 1000) +:+ fraction 3 (u mod 1000) +:+ "µs"
    else if u <? second then itoa (u / 1000000) +:+ fraction 6 (u mod 1000000) +:+ "ms"
    else
      let secs := u / second in
      let tail := itoa (secs mod 60) +:+ fraction 9 (u mod second) +:+ "s" in
      if secs / 60 =? 0 then tail
      else
        let tail := itoa (secs / 60 mod 60) +:+ "m" +:+ tail in
        if secs / 3600 =? 0 then tail else itoa (secs / 3600) +:+ "h" +:+ tail in
  if d <? 0 then "-" +:+ body else body.

Definition unit_of (s : string) : option Z :=
  if String.eqb s "ns" then Some 1
  else if String.eqb s "us" || String.eqb s "µs" || String.eqb s "μs" then Some 1000
  else if String.eqb s "ms" then Some 1000000
  else if String.eqb s "s" then Some second
  else if String.eqb s "m" then Some minute
  else if String.eqb s "h" then Some hour
  else None.

Fixpoint leading_int (l : list ascii) (x : Z) : option (Z * list ascii) :=
  match l with
  | c :: l' =>
      if is_digit c then
        if 2 ^ 63 / 10 <? x then None
        else let x := x * 10 + (byte c - 48) in
             if 2 ^ 63 <? x then None else leading_int l' x
      else Some (x, l)
  | [] => Some (x, [])
  end.

Fixpoint leading_fraction (l : list ascii) (x scale : Z) (overflow : bool) : Z * Z * list ascii :=
  match l with
  | c :: l' =>
      if is_digit c then
        if overflow then leading_fraction l' x scale true
        else if max_int64 / 10 <? x then leading_fraction l' x scale true
        else let y := x * 10 + (byte c - 48) in
             if 2 ^ 63 <? y then leading_fraction l' x scale true
             else leading_fraction l' y (scale * 10) false
      else (x, scale, l)
  | [] => (x, scale, [])
  end.

Fixpoint take_unit (l : list ascii) : list ascii * list ascii :=
  match l with
  | c :: l' => if (byte c =? 46) || is_digit c then ([], l) else let '(u, r) := take_unit l' in (c :: u, r)
  | [] => ([], [])
  end.

(** One [number unit] group per iteration; each consumes at least a byte. *)
Fixpoint duration_groups (fuel : nat) (l : list ascii) (d : Z) : option Z :=
  match l, fuel with
  | [], _ => Some d
  | _, O => None
  | c :: _, S fuel =>
      if negb ((byte c =? 46) || is_digit c) then None else
      '(v, l1) ← leading_int l 0;
      let pre := negb (length l1 =? length l)%nat in
      let '(f, scale, l2, post) :=
        match l1 with
        | c1 :: l1' => if byte c1 =? 46 then
            let '(f, scale, l2) := leading_fraction l1' 0 1 false in
            (f, scale, l2, negb (length l2 =? length l1')%nat)
          else (0, 1, l1, false)
        | [] => (0, 1, l1, false)
        end in
      if negb pre && negb post then None else
      let '(u, l3) := take_unit l2 in
      unit ← unit_of (implode u);
      if 2 ^ 63 / unit <? v then None else
      let v := v * unit + f * unit / scale in
      if 2 ^ 63 <? v then None else
      let d := d + v in
      if 2 ^ 63 <? d then None else duration_groups fuel l3 d
  end.

(** [time.ParseDuration]. *)
Definition time_ParseDuration (s : string) : option Z :=
  let '(neg, l) := match explode s with
    | c :: l => if byte c =? 45 then (true, l) else if byte c =? 43 then (false, l) else (false, c :: l)
    | [] => (false, []) end in
  if bool_decide (l = ["0"%char]) then Some 0
  else match l with
  | [] => None
  | _ => d ← duration_groups (length l) l 0;
         if neg : bool then Some (- d) else if max_int64 <? d then None else Some d
  end.

Example go_std_examples :
  rfc3339nano 1700000000500000000 = "2023-11-14T22:13:20.5Z" ∧
  rfc3339nano 1700000000000000000 = "2023-11-14T22:13:20Z" ∧
  duration_string (hour + 90 * second + 500000000) = "1h1m30.5s" ∧
  time_ParseDuration "1h1m30.5s" = Some (hour + 90 * second + 500000000) ∧
  time_ParseDuration "1x" = None ∧ time_ParseDuration "-2ms" = Some (-2000000) ∧
  atoi "-42" = Some (-42) ∧ atoi "4x" = None ∧ itoa 1204 = "1204" ∧
  split_on "."%char "a.b..c" = ["a"; "b"; ""; "c"] ∧ fields "  a b  " = ["a"; "b"] ∧
  trim_space " x " = "x".
Proof. vm_compute. done. Qed.

(** RFC3339Nano timestamps do not sort chronologically as text: the fraction's
    point sorts before the [Z] of a whole second. *)
Lemma rfc3339nano_text_order_not_chronological :
  ∃ t t', t < t' ∧ str_lt (rfc3339nano t') (rfc3339nano t) = true.
Proof. exists 1700000000000000000, 1700000000500000000. by vm_compute. Qed.

(** ** Errors *)

(** [err.Error()] of the modelled errors; a constraint violation carries
    SQLite's text, of which only the table is kept. *)
Definition error_text (e : Err) : string :=
  match e with
  | ErrNotFound => "not found"
  | ErrTriggerDisabled => "trigger is disabled"
  | ErrConflict e c => "resource version conflict: expected " +:+ itoa e +:+ ", current " +:+ itoa c
  | ErrStaleTriggerGeneration e c => "stale Trigger generation: watch=" +:+ itoa e +:+ " current=" +:+ itoa c
  | ErrStaleObservedGeneration e c => "stale observed generation: expected " +:+ itoa e +:+ ", current " +:+ itoa c
  | ErrSnapshotRevision e c => "resource snapshot revision changed: expected " +:+ itoa e +:+ ", current " +:+ itoa c
  | ErrStaleFlowPlan eu eg cu cg =>
      "compiled Flow is stale: expected uid=" +:+ eu +:+ " generation=" +:+ itoa eg +:+ ", current uid=" +:+ cu
        +:+ " generation=" +:+ itoa cg
  | ErrTriggerReferenceChanged => "Trigger Flow reference changed before acceptance"
  | ErrRunCapacity => "configured active Run capacity is saturated"
  | ErrConstraint t => "constraint failed: " +:+ t
  | ErrMsg m => m
  end.

(** * [base64.RawURLEncoding] of the Go library: the URL alphabet without padding.
       The decoder skips carriage returns and line feeds and ignores the unused bits
       of the last character. *)

Definition b64_char (n : Z) : ascii :=
  if n <? 26 then ascii_of_N (Z.to_N (65 + n))
  else if n <? 52 then ascii_of_N (Z.to_N (97 + (n - 26)))
  else if n <? 62 then ascii_of_N (Z.to_N (48 + (n - 52)))
  else if n =? 62 then "-"%char else "_"%char.
Definition b64_val (c : ascii) : option Z :=
  let n := byte c in
  if is_upper c then Some (n - 65) else if is_lower c then Some (n - 97 + 26)
  else if is_digit c then Some (n - 48 + 52)
  else if n =? 45 then Some 62 else if n =? 95 then Some 63 else None.

Fixpoint encode_bytes (l : list ascii) : list ascii :=
  match l with
  | a :: b :: c :: l =>
      let '(a, b, c) := (byte a, byte b, byte c) in
      b64_char (a / 4) :: b64_char (a mod 4 * 16 + b / 16) :: b64_char (b mod 16 * 4 + c / 64) :: b64_char (c mod 64) :: encode_bytes l
  | [a; b] => let '(a, b) := (byte a, byte b) in [b64_char (a / 4); b64_char (a mod 4 * 16 + b / 16); b64_char (b mod 16 * 4)]
  | [a] => [b64_char (byte a / 4); b64_char (byte a mod 4 * 16)]
  | [] => []
  end.
Definition EncodeToString (s : string) : string := implode (encode_bytes (explode s)).

Definition byte_char (n : Z) : ascii := ascii_of_N (Z.to_N n).
Fixpoint decode_quanta (l : list ascii) : option (list ascii) :=
  match l with
  | w :: x :: y :: z :: l =>
      w ← b64_val w; x ← b64_val x; y ← b64_val y; z ← b64_val z;
      rest ← decode_quanta l;
      Some (byte_char (w * 4 + x / 16) :: byte_char (x mod 16 * 16 + y / 4) :: byte_char (y mod 4 * 64 + z) :: rest)
  | [w; x; y] =>
      w ← b64_val w; x ← b64_val x; y ← b64_val y;
      Some [byte_char (w * 4 + x / 16); byte_char (x mod 16 * 16 + y / 4)]
  | [w; x] => w ← b64_val w; x ← b64_val x; Some [byte_char (w * 4 + x / 16)]
  | [_] => None
  | [] => Some []
  end.
Definition line_break (c : ascii) : bool := (byte c =? 10) || (byte c =? 13).
Definition DecodeString (s : string) : option string :=
  l ← decode_quanta (filter (λ c, line_break c = false) (explode s)); Some (implode l).

Example base64_example : EncodeToString "any carnal pleas" = "YW55IGNhcm5hbCBwbGVhcw" ∧ DecodeString "YW55IGNhcm5hbCBwbGVhcw" = Some "any carnal pleas"
  ∧ DecodeString "Y" = None.
Proof. vm_compute. done. Qed.

(** ** Round trip *)

Lemma byte_range c : 0 ≤ byte c < 256.
Proof. unfold byte. pose proof (N_ascii_bounded c). lia. Qed.
Lemma byte_char_byte c : byte_char (byte c) = c.
Proof. unfold byte_char, byte. rewrite N2Z.id. apply ascii_N_embedding. Qed.

Lemma sextet n : 0 ≤ n < 64 → b64_val (b64_char n) = Some n ∧ line_break (b64_char n) = false.
Proof.
  intros H. assert (Hall : forallb (λ n, bool_decide (b64_val (b64_char (Z.of_nat n)) = Some (Z.of_nat n)) && negb (line_break (b64_char (Z.of_nat n))))
    (seq 0 64) = true) by (vm_compute; reflexivity).
  rewrite forallb_forall in Hall. specialize (Hall (Z.to_nat n)). rewrite Z2Nat.id in Hall by lia.
  destruct (andb_prop _ _ (Hall (proj2 (in_seq 64 0 (Z.to_nat n)) ltac:(lia)))) as [H1 H2].
  split; [by apply bool_decide_eq_true in H1|by apply negb_true_iff].
Qed.

(** The sextets of a group and the bytes they give back. *)
Lemma group_sextets a b c : 0 ≤ a < 256 → 0 ≤ b < 256 → 0 ≤ c < 256 →
  (0 ≤ a / 4 < 64 ∧ 0 ≤ a mod 4 * 16 + b / 16 < 64 ∧ 0 ≤ b mod 16 * 4 + c / 64 < 64 ∧ 0 ≤ c mod 64 < 64 ∧
   0 ≤ a mod 4 * 16 < 64 ∧ 0 ≤ b mod 16 * 4 < 64) ∧
  (a / 4 * 4 + (a mod 4 * 16 + b / 16) / 16 = a ∧ a / 4 * 4 + a mod 4 * 16 / 16 = a ∧
   (a mod 4 * 16 + b / 16) mod 16 * 16 + (b mod 16 * 4 + c / 64) / 4 = b ∧
   (a mod 4 * 16 + b / 16) mod 16 * 16 + b mod 16 * 4 / 4 = b ∧
   (b mod 16 * 4 + c / 64) mod 4 * 64 + c mod 64 = c).
Proof. intros Ha Hb Hc. split; split_and!; Z.div_mod_to_equations; lia. Qed.

Lemma decode_encode_bytes l : filter (λ c, line_break c = false) (encode_bytes l) = encode_bytes l ∧ decode_quanta (encode_bytes l) = Some l.
Proof.
  induction l as [l IH] using (induction_ltof1 _ (@length ascii)). unfold ltof in IH.
  destruct l as [|a [|b [|c l]]]; [done| | |]; cbn [encode_bytes].
  - destruct (group_sextets (byte a) 0 0 (byte_range a) ltac:(lia) ltac:(lia)) as [(H1&_&_&_&H5&_) (_&E&_)].
    destruct (sextet _ H1) as [V1 L1], (sextet _ H5) as [V5 L5].
    rewrite !filter_cons_True, filter_nil by done. split; [done|]. cbn [decode_quanta]. rewrite V1, V5. cbn. rewrite E.
    by rewrite byte_char_byte.
  - destruct (group_sextets (byte a) (byte b) 0 (byte_range a) (byte_range b) ltac:(lia)) as [(H1&H2&_&_&_&H6) (E1&_&_&E2&_)].
    destruct (sextet _ H1) as [V1 L1], (sextet _ H2) as [V2 L2], (sextet _ H6) as [V6 L6].
    rewrite !filter_cons_True, filter_nil by done. split; [done|]. cbn [decode_quanta]. rewrite V1, V2, V6. cbn. rewrite E1, E2.
    by rewrite !byte_char_byte.
  - destruct (group_sextets (byte a) (byte b) (byte c) (byte_range a) (byte_range b) (byte_range c)) as [(H1&H2&H3&H4&_&_) (E1&_&E2&_&E3)].
    destruct (sextet _ H1) as [V1 L1], (sextet _ H2) as [V2 L2], (sextet _ H3) as [V3 L3], (sextet _ H4) as [V4 L4].
    destruct (IH l ltac:(simpl; lia)) as [If Id]. rewrite !filter_cons_True by done. rewrite If. split; [done|].
    cbn [decode_quanta]. rewrite V1, V2, V3, V4. cbn [mbind option_bind]. rewrite Id. cbn [mbind option_bind]. rewrite E1, E2, E3.
    by rewrite !byte_char_byte.
Qed.
Lemma explode_implode l : explode (implode l) = l.
Proof. apply String.list_ascii_of_string_of_list_ascii. Qed.
Lemma implode_explode s : implode (explode s) = s.
Proof. apply String.string_of_list_ascii_of_string. Qed.
Lemma DecodeString_EncodeToString s : DecodeString (EncodeToString s) = Some s.
Proof.
  unfold DecodeString, EncodeToString. rewrite explode_implode. destruct (decode_encode_bytes (explode s)) as [-> ->].
  simpl. by rewrite implode_explode.
Qed.
