(* ===== verification/JsonPlain.v ===== *)
(** Plain text through the JSON encoder and decoder: a string without escapes, a
    decimal number and a flat object of them are read back as they were written. *)

From Stdlib Require Import Ascii.
From Stdlib Require String.
From S2P Require Import Prelude.
From S2P Require Import Json.
From S2P Require Import GoStd.

Local Open Scope Z_scope.

(** ** Plain strings *)

(** Printable ASCII that neither JSON nor Go's HTML escaping touches. *)
Definition plain_char (c : ascii) : bool :=
  let n := byte c in
  (32 <=? n) && (n <? 127) && negb (existsb (Z.eqb n) [34; 38; 60; 62; 92]).
Definition plain (s : string) : bool := forallb plain_char (explode s).

Lemma explode_app a b : explode (a +:+ b) = explode a ++ explode b.
Proof. induction a as [|c a IH]; [done|]. exact (f_equal (cons c) IH). Qed.
Lemma append_nil s : s +:+ "" = s.
Proof. induction s as [|c s IH]; [done|]. exact (f_equal (String c) IH). Qed.
Lemma append_assoc a b c : (a +:+ b) +:+ c = a +:+ (b +:+ c).
Proof. induction a as [|x a IH]; [done|]. exact (f_equal (String x) IH). Qed.
Lemma append_length a b : String.length (a +:+ b) = (String.length a + String.length b)%nat.
Proof. induction a as [|x a IH]; [done|]. exact (f_equal S IH). Qed.
Lemma implode_app l k : implode (l ++ k) = implode l +:+ implode k.
Proof. induction l as [|x l IH]; [done|]. exact (f_equal (String x) IH). Qed.
Lemma implode_length l : String.length (implode l) = length l.
Proof. induction l as [|x l IH]; [done|]. exact (f_equal S IH). Qed.
Lemma explode_length s : length (explode s) = String.length s.
Proof. induction s as [|x s IH]; [done|]. exact (f_equal S IH). Qed.

(** What a plain character is, for the two functions that look at it. *)
Definition plain_step (c : ascii) : bool :=
  String.eqb (escape_char c) (String c "") && negb (code c =? 226)%N && negb (code c =? 34)%N && negb (code c <? 32)%N
  && negb (code c =? 92)%N && negb (is_ws c && negb (code c =? 32)%N).
Lemma all_chars (f : ascii → bool) : forallb f (ascii_of_nat <$> seq 0 256) = true → ∀ c, f c = true.
Proof.
  rewrite forallb_forall. intros H c. apply H. apply list_elem_of_In, list_elem_of_fmap. exists (nat_of_ascii c).
  split; [symmetry; apply ascii_nat_embedding|]. apply elem_of_seq. pose proof (nat_ascii_bounded c). lia.
Qed.
Lemma plain_steps c : plain_char c = true → plain_step c = true.
Proof.
  assert (H : ∀ c, implb (plain_char c) (plain_step c) = true) by (apply all_chars; vm_compute; reflexivity).
  specialize (H c). destruct (plain_char c); [by intros _|done].
Qed.
Lemma plain_char_facts c : plain_char c = true →
  escape_char c = String c "" ∧ (code c =? 226)%N = false ∧ (code c =? 34)%N = false ∧ (code c <? 32)%N = false ∧ (code c =? 92)%N = false.
Proof.
  intros H%plain_steps. unfold plain_step in H. rewrite !andb_true_iff, !negb_true_iff in H.
  destruct H as [[[[[H1 H2] H3] H4] H5] _]. apply String.eqb_eq in H1. done.
Qed.
Lemma plain_cons c s : plain (String c s) = true → plain_char c = true ∧ plain s = true.
Proof. unfold plain. simpl. by intros [? ?]%andb_prop. Qed.

Lemma escape_plain s : plain s = true → escape s = s.
Proof.
  induction s as [|c s IH]; [done|]. intros [Hc Hs]%plain_cons.
  destruct (plain_char_facts c Hc) as (E&F&_). simpl. rewrite E, F, IH by done. simpl. by destruct s as [|c2 [|c3 s]].
Qed.
Lemma parse_str_plain s rest : plain s = true → parse_str None (s +:+ quote +:+ rest) = Some (s, rest).
Proof.
  induction s as [|c s IH]; [done|]. intros [Hc Hs]%plain_cons.
  destruct (plain_char_facts c Hc) as (_&_&E&F&G).
  change (String c s +:+ quote +:+ rest) with (String c (s +:+ quote +:+ rest)). cbn [parse_str].
  rewrite E, F, G, IH by done. done.
Qed.

(** ** Decimal numbers *)

Lemma digit_char_facts d : 0 ≤ d < 10 →
  is_digit (digit_char d) = true ∧ Json.is_digit (digit_char d) = true ∧ byte (digit_char d) = 48 + d ∧ plain_char (digit_char d) = true.
Proof.
  intros H. assert (Hall : forallb (λ n, let c := digit_char (Z.of_nat n) in
      GoStd.is_digit c && Json.is_digit c && (byte c =? 48 + Z.of_nat n) && plain_char c) (seq 0 10) = true) by (vm_compute; reflexivity).
  rewrite forallb_forall in Hall. specialize (Hall (Z.to_nat d) (proj2 (in_seq 10 0 (Z.to_nat d)) ltac:(lia))).
  cbv zeta in Hall. rewrite Z2Nat.id, !andb_true_iff, Z.eqb_eq in Hall by lia. by destruct Hall as [[[? ?] ?] ?].
Qed.

(** The digits of a positive number. *)
Record digits_of (n : Z) (l : list ascii) : Prop := mkDigits {
  dg_go : forallb is_digit l = true; dg_json : forallb Json.is_digit l = true; dg_plain : forallb plain_char l = true;
  dg_val : ∀ a, digits_val l a = Some (a * 10 ^ Z.of_nat (length l) + n);
  dg_head : ∃ c l', l = c :: l' ∧ byte c ≠ 48 }.

Lemma digits_val_app l k a : digits_val (l ++ k) a = (v ← digits_val l a; digits_val k v).
Proof. revert a. induction l as [|c l IH]; intros a; [done|]. simpl. destruct (is_digit c); [apply IH|done]. Qed.

Lemma dec_digits_of fuel n acc : 0 < n < 10 ^ Z.of_nat fuel →
  ∃ l, dec_digits fuel n acc = implode l +:+ acc ∧ digits_of n l ∧ (length l ≤ fuel)%nat.
Proof.
  revert n acc. induction fuel as [|fuel IH]; intros n acc H; [simpl in H; lia|]. simpl.
  destruct (digit_char_facts (n mod 10) ltac:(Z.div_mod_to_equations; lia)) as (D1&D2&D3&D4).
  destruct (Z.eqb_spec (n / 10) 0) as [E|E].
  - assert (n mod 10 = n) as Em by (Z.div_mod_to_equations; lia). rewrite Em in *. exists [digit_char n]. split_and!; [done| |simpl; lia].
    split; try (cbn [forallb]; rewrite ?D1, ?D2, ?D4; reflexivity).
    + intros a. cbn [digits_val]. rewrite D1, D3. cbn [length]. change (10 ^ Z.of_nat 1) with 10. f_equal. lia.
    + exists (digit_char n), []. split; [done|lia].
  - destruct (IH (n / 10) (String (digit_char (n mod 10)) acc)) as (l&E1&[G1 G2 G3 G4 (c&l'&Ec&Hc)]&Hl).
    { rewrite Nat2Z.inj_succ, Z.pow_succ_r in H by lia. pose proof (Z.div_pos n 10 ltac:(lia) ltac:(lia)).
      split; [lia|]. apply Z.div_lt_upper_bound; lia. }
    exists (l ++ [digit_char (n mod 10)]). split_and!.
    + by rewrite E1, implode_app, append_assoc.
    + split; try (rewrite forallb_app; rewrite ?G1, ?G2, ?G3; cbn [forallb]; rewrite ?D1, ?D2, ?D4; reflexivity).
      * intros a. rewrite digits_val_app, G4. cbn [mbind option_bind digits_val]. rewrite D1, D3, length_app. cbn [length]. f_equal.
        rewrite Nat2Z.inj_add, Z.pow_add_r by lia. change (10 ^ Z.of_nat 1) with 10. pose proof (Z.div_mod n 10 ltac:(lia)) as En. lia.
      * subst l. by exists c, (l' ++ [digit_char (n mod 10)]).
    + rewrite length_app. cbn. lia.
Qed.

Lemma itoa_digits n : 0 < n < 2 ^ 64 → ∃ l, itoa n = implode l ∧ digits_of n l ∧ (length l ≤ 40)%nat.
Proof.
  intros H. unfold itoa. rewrite (proj2 (Z.ltb_ge n 0)) by lia.
assert (2 ^ 64 < 10 ^ Z.of_nat 40) by (vm_compute; reflexivity).
  destruct (dec_digits_of 40 n "" ltac:(lia)) as (l&E&Hd&Hl). exists l. rewrite E, append_nil.
  exact (conj eq_refl (conj Hd Hl)).
Qed.

(** A text that a number literal cannot continue into. *)
Definition stops_number (s : string) : bool :=
  match s with
  | EmptyString => true
  | String c _ => negb (Json.is_digit c) && negb (existsb (N.eqb (code c)) [46; 69; 101]%N)
  end.
Lemma take_digits_of l rest : forallb Json.is_digit l = true → stops_number rest = true →
  take_digits (implode l +:+ rest) = (implode l, rest).
Proof.
  intros Hl Hr. induction l as [|c l IH].
  - destruct rest as [|c rest]; [done|]. simpl in *. by destruct (Json.is_digit c).
  - simpl in Hl. apply andb_prop in Hl as [Hc Hl]. change (implode (c :: l) +:+ rest) with (String c (implode l +:+ rest)).
    cbn [take_digits]. by rewrite Hc, IH.
Qed.
Lemma parse_num_digits n l rest : digits_of n l → stops_number rest = true →
  parse_num (implode l +:+ rest) = Some (implode l, rest).
Proof.
  intros [_ Hj _ _ (c&l'&->&Hc)] Hr. pose proof (take_digits_of (c :: l') rest Hj Hr) as Ht.
  assert (Hc1 : (code c =? 45)%N = false ∧ (code c =? 48)%N = false).
  { cbn [forallb] in Hj. apply andb_prop in Hj as [Hj _]. unfold Json.is_digit, code in *. unfold byte in Hc. cbv zeta in Hj.
    apply andb_prop in Hj as [H1%N.leb_le H2%N.leb_le]. rewrite !N.eqb_neq. lia. }
  destruct Hc1 as [E1 E2]. unfold parse_num. change (implode (c :: l') +:+ rest) with (String c (implode l' +:+ rest)) in *.
  cbv beta iota. rewrite E1. cbv zeta. rewrite Ht. change (implode (c :: l')) with (String c (implode l')). cbv beta iota zeta. rewrite E2. cbn [andb].
  destruct rest as [|d rest]; [cbn [mbind option_bind]; f_equal; f_equal; cbn; by rewrite append_nil|].
  unfold stops_number in Hr. apply andb_prop in Hr as [_ Hr]. apply negb_true_iff in Hr. cbn [existsb] in Hr.
  rewrite !orb_false_iff in Hr. destruct Hr as (R1&R2&R3&_). rewrite R1. cbn [mbind option_bind]. rewrite R3, R2.
  cbn [orb mbind option_bind]. f_equal. f_equal. cbn. by rewrite append_nil.
Qed.

(** ** Flat objects *)

Inductive flat := FlatStr (s : string) | FlatNum (n : Z).
Definition flat_text (v : flat) : string := match v with FlatStr s => quoted s | FlatNum n => itoa n end.
Definition flat_json (v : flat) : json := match v with FlatStr s => JStr s | FlatNum n => JNum (itoa n) end.
Definition flat_ok (v : flat) : Prop := match v with FlatStr s => plain s = true | FlatNum n => 0 < n < 2 ^ 64 end.
Definition field_text (kv : string * flat) : string := quoted kv.1 +:+ ":" +:+ flat_text kv.2.

Lemma skip_ws_stop c s : is_ws c = false → skip_ws (String c s) = String c s.
Proof. intros H. simpl. by rewrite H. Qed.
Lemma quoted_plain s rest : plain s = true → quoted s +:+ rest = String (chr 34) (s +:+ quote +:+ rest).
Proof. intros H. unfold quoted. by rewrite !append_assoc, escape_plain. Qed.

(** A digit starts none of the other values. *)
Lemma digit_starts_number fuel c s : Json.is_digit c = true →
  parse_value (S fuel) (String c s) = ('(l, r) ← parse_num (String c s); Some (JNum l, r)).
Proof.
  intros H. assert (Hn : (48 <= code c <= 57)%N).
  { unfold Json.is_digit in H. cbv zeta in H. by apply andb_prop in H as [?%N.leb_le ?%N.leb_le]. }
  assert (Hw : is_ws c = false) by (unfold is_ws; cbv zeta; rewrite !orb_false_iff, !N.eqb_neq; lia).
  cbn [parse_value]. rewrite skip_ws_stop by done.
  assert (∃ k, (k < 10)%nat ∧ code c = (48 + N.of_nat k)%N) as (k&Hk&->) by (exists (N.to_nat (code c - 48)); lia).
  do 10 (destruct k as [|k]; [reflexivity|]). lia.
Qed.

Lemma parse_value_flat fuel v rest : flat_ok v → stops_number rest = true →
  parse_value (S fuel) (flat_text v +:+ rest) = Some (flat_json v, rest).
Proof.
  destruct v as [s|n]; intros Hv Hr.
  - change (flat_text (FlatStr s)) with (quoted s). rewrite quoted_plain by done. cbn [parse_value].
    rewrite skip_ws_stop by done. change (code (chr 34)) with 34%N. cbv beta iota. by rewrite parse_str_plain.
  - destruct (itoa_digits n Hv) as (l&El&Hl&_). cbn [flat_text flat_json]. rewrite El.
    pose proof Hl as [_ Hj _ _ (c&l'&->&_)]. cbn [forallb] in Hj. apply andb_prop in Hj as [Hj _].
    change (implode (c :: l') +:+ rest) with (String c (implode l' +:+ rest)). rewrite digit_starts_number by done.
    change (String c (implode l' +:+ rest)) with (implode (c :: l') +:+ rest). by rewrite (parse_num_digits n) by done.
Qed.

Lemma parse_fields_flat fields rest fuel : fields ≠ [] →
  Forall (λ kv, plain kv.1 = true ∧ flat_ok kv.2) fields → (length fields < fuel)%nat →
  parse_fields fuel (joinc "," (field_text <$> fields) +:+ String (chr 125) rest) =
    Some ((λ kv, (kv.1, flat_json kv.2)) <$> fields, rest).
Proof.
  revert fuel. induction fields as [|[k v] fields IH]; intros fuel Hne Hf Hfuel; [done|]. clear Hne.
  apply Forall_cons in Hf as [[Hk Hv] Hf]. cbn [fst snd] in *. destruct fuel as [|[|fuel]]; [simpl in Hfuel; lia..|].
  assert (Hstep : ∀ c tail, stops_number (String c tail) = true → is_ws c = false →
    parse_fields (S (S fuel)) (field_text (k, v) +:+ String c tail) =
      (if (code c =? 44)%N then '(l, r) ← parse_fields (S fuel) tail; Some ((k, flat_json v) :: l, r)
       else if (code c =? 125)%N then Some ([(k, flat_json v)], tail) else None)).
  { intros c tail Hc Hw. unfold field_text. cbn [fst snd]. rewrite append_assoc, quoted_plain by done. rewrite !append_assoc.
    cbn [parse_fields]. rewrite skip_ws_stop by done. change (code (chr 34) =? 34)%N with true. cbv iota.
    rewrite parse_str_plain by done. cbn [mbind option_bind]. change (":" +:+ ?s) with (String ":" s). rewrite skip_ws_stop by done.
    change (code ":" =? 58)%N with true. cbv iota. rewrite parse_value_flat by done. cbn [mbind option_bind]. by rewrite skip_ws_stop. }
  destruct fields as [|kv fields].
  - cbn [fmap list_fmap joinc]. by rewrite Hstep.
  - rewrite !fmap_cons. set (more := joinc "," (field_text kv :: (field_text <$> fields))).
    change (joinc "," (field_text (k, v) :: field_text kv :: (field_text <$> fields))) with (field_text (k, v) +:+ "," +:+ more).
    rewrite !append_assoc. change ("," +:+ (more +:+ ?s)) with (String "," (more +:+ s)). rewrite Hstep by done.
    change (code "," =? 44)%N with true. cbv iota. unfold more. rewrite <- fmap_cons.
    rewrite IH; [done|done|done|]. simpl in *. lia.
Qed.
