(* ===== verification/Redact.v ===== *)
(** [redact] of [internal/pluginmanager/manager.go]: no secret of a call appears in
    what the manager keeps of the plugin's output, as it is or as JSON text.

    A secret with a bracket, or one that is part of the word [REDACTED], can
    appear in the replacement itself; both are excluded by [redactable]. *)

From Stdlib Require Import Ascii.
From Stdlib Require String.
From S2P Require Import Prelude.
From S2P Require Import Json.
From S2P Require Import GoStd.
From S2P Require Import JsonPlain.

Local Open Scope Z_scope.

Definition mark : string := "[REDACTED]".
Definition redact_one (data secret : string) : string := ReplaceAll (ReplaceAll data (escape secret) mark) secret mark.
Definition redact (data : string) (secrets : list string) : string := fold_left redact_one secrets data.

(** ** Occurrences *)

Definition occurs (p s : string) : Prop := ∃ a b, s = a +:+ p +:+ b.
Definition bracket (c : ascii) : bool := Ascii.eqb c "[" || Ascii.eqb c "]".
(** A text that cannot arise inside the replacement or across its ends. *)
Definition redactable (p : string) : Prop := p ≠ "" ∧ forallb (λ c, negb (bracket c)) (explode p) = true ∧ ¬ occurs p "REDACTED".

Lemma occurs_empty p : occurs p "" → p = "".
Proof. by intros ([|]&b&E); destruct p. Qed.
Lemma occurs_cons p c s : occurs p (String c s) → (∃ b, String c s = p +:+ b) ∨ occurs p s.
Proof. intros ([|d a]&b&E); [left; by exists b|right]. injection E as _ E. by exists a, b. Qed.

(** What is replaced comes from the text: the replacement starts with a bracket. *)
Lemma prefix_before_replace old fuel s p b : forallb (λ c, negb (bracket c)) (explode p) = true →
  replace_all old mark fuel s = p +:+ b → ∃ b', s = p +:+ b'.
Proof.
  revert fuel s. induction p as [|c p IH]; intros fuel s Hp E; [by exists s|].
  cbn [explode String.list_ascii_of_string forallb] in Hp. apply andb_prop in Hp as [Hc Hp]. change (String c p +:+ b) with (String c (p +:+ b)) in E.
  destruct fuel as [|fuel]; cbn [replace_all] in E; [exists b; exact E|].
  destruct (strip_prefix old s) as [r|] eqn:Es.
  - change (mark +:+ ?x) with (String "[" ("REDACTED]" +:+ x)) in E. injection E as <- _. done.
  - destruct s as [|d s]; [done|]. injection E as -> E. destruct (IH fuel s Hp E) as [b' ->]. by exists b'.
Qed.

(** An occurrence that starts inside the replacement ends there. *)
Lemma occurs_mark p x : redactable p → occurs p (mark +:+ x) → occurs p x.
Proof.
  intros (Hne&Hb&Hr) H.
  assert (Hstop : ∀ u, (∃ w, "REDACTED" = w +:+ u) → (∃ b, u +:+ String "]" x = p +:+ b) → False).
  { intros u [w Hw] [b Eb]. apply Hr. clear H Hne.
    assert (∃ v, u = p +:+ v) as [v ->]; [|by exists w, v].
    clear w Hw Hr. revert p b Hb Eb. induction u as [|c u IH]; intros [|d p] b Hp Eb; try (by eexists).
    - injection Eb as <- _. cbn in Hp. discriminate Hp.
    - cbn [explode String.list_ascii_of_string forallb] in Hp. apply andb_prop in Hp as [_ Hp].
      injection Eb as -> Eb. destruct (IH p b Hp Eb) as [v ->]. by exists v. }
  change (mark +:+ x) with (String "[" ("REDACTED" +:+ String "]" x)) in H.
  apply occurs_cons in H as [[b E]|H].
  { destruct p as [|c p]; [done|]. injection E as <- _. cbn in Hb. discriminate Hb. }
  assert (Hall : ∀ u, (∃ w, "REDACTED" = w +:+ u) → occurs p (u +:+ String "]" x) → occurs p x).
  { induction u as [|c u IH]; intros Hw Ho.
    - change ("" +:+ String "]" x) with (String "]" x) in Ho. apply occurs_cons in Ho as [[b E]|Ho]; [|done].
      destruct p as [|d p]; [done|]. injection E as <- _. cbn in Hb. discriminate Hb.
    - change (String c u +:+ String "]" x) with (String c (u +:+ String "]" x)) in Ho. apply occurs_cons in Ho as [Ho|Ho].
      + exfalso. by apply (Hstop (String c u)).
      + apply IH; [|done]. destruct Hw as [w Hw]. exists (w +:+ String c ""). by rewrite append_assoc. }
  apply (Hall "REDACTED"); [by exists ""|done].
Qed.

(** Replacing anything creates no new occurrence. *)
Lemma occurs_replace old fuel s p : redactable p → occurs p (replace_all old mark fuel s) → occurs p s.
Proof.
  intros Hp. revert s. induction fuel as [|fuel IH]; intros s Ho; cbn [replace_all] in Ho; [done|].
  destruct (strip_prefix old s) as [r|] eqn:Es.
  - apply strip_prefix_some in Es as ->. apply occurs_mark, IH in Ho as (a&b&->); [|done]. exists (old +:+ a), b. by rewrite append_assoc.
  - destruct s as [|c s]; [destruct Ho as ([|]&?&E); destruct p; try discriminate E; by destruct Hp|].
    apply occurs_cons in Ho as [[b E]|Ho].
    + destruct p as [|d p]; [by destruct Hp|]. injection E as -> E. destruct Hp as (_&Hb&_).
      cbn [explode String.list_ascii_of_string forallb] in Hb. apply andb_prop in Hb as [_ Hb].
      destruct (prefix_before_replace old fuel s p b Hb E) as [b' ->]. by exists "", b'.
    + destruct (IH s Ho) as (a&b&->). by exists (String c a), b.
Qed.

(** The replaced text is gone. *)
Lemma replaced fuel s old : redactable old → (String.length s < fuel)%nat → ¬ occurs old (replace_all old mark fuel s).
Proof.
  intros Hp. revert s. induction fuel as [|fuel IH]; intros s Hf; [lia|]. cbn [replace_all]. intros Ho.
  destruct (strip_prefix old s) as [r|] eqn:Es.
  - apply strip_prefix_some in Es as ->. apply occurs_mark in Ho; [|done]. rewrite append_length in Hf. destruct Hp as (Hne&_).
    revert Ho. apply IH. destruct old; [done|]. cbn [String.length] in Hf. lia.
  - destruct s as [|c s]; [destruct Ho as ([|]&?&E); destruct old; try discriminate E; by destruct Hp|].
    apply occurs_cons in Ho as [[b E]|Ho]; [|apply (IH s); [cbn in Hf; lia|done]].
    destruct old as [|d old]; [by destruct Hp|]. injection E as -> E. destruct Hp as (_&Hb&_).
    cbn [explode String.list_ascii_of_string forallb] in Hb. apply andb_prop in Hb as [_ Hb].
    destruct (prefix_before_replace _ fuel s old b Hb E) as [b' ->].
    change (String d (old +:+ b')) with (String d old +:+ b') in Es. by rewrite strip_prefix_app in Es.
Qed.

Lemma ReplaceAll_gone s old : redactable old → ¬ occurs old (ReplaceAll s old mark).
Proof. intros H. apply replaced; [done|lia]. Qed.
Lemma occurs_redact_one data secret p : redactable p → occurs p (redact_one data secret) → occurs p data.
Proof. intros Hp H. by apply occurs_replace, occurs_replace in H. Qed.
Lemma occurs_redact data secrets p : redactable p → occurs p (redact data secrets) → occurs p data.
Proof.
  intros Hp. revert data. induction secrets as [|x secrets IH]; intros data H; [done|].
  by apply IH, occurs_redact_one in H.
Qed.

Lemma redact_gone data secrets secret : secret ∈ secrets →
  (redactable secret → ¬ occurs secret (redact data secrets)) ∧
  (redactable (escape secret) → ¬ occurs (escape secret) (redact data secrets)).
Proof.
  intros (l&k&->)%list_elem_of_split. unfold redact. rewrite fold_left_app. cbn [fold_left].
  split; intros Hp H; apply occurs_redact in H; try done.
  - revert H. by apply ReplaceAll_gone.
  - apply occurs_replace in H; [|done]. revert H. by apply ReplaceAll_gone.
Qed.

(** What the two exclusions of [redact_gone] leave: a secret that is the prefix of
    another one and comes first, and a secret split over two chunks. *)
Example overlapping_secret_leaks : redact "key abc123" ["abc"; "abc123"] = "key [REDACTED]123".
Proof. vm_compute. reflexivity. Qed.
Example split_secret_leaks : redact "s3c" ["s3cr3t"] +:+ redact "r3t" ["s3cr3t"] = "s3cr3t".
Proof. vm_compute. reflexivity. Qed.
