(* ===== verification/JsonRound.v ===== *)
(** Decoding what was encoded: [parse (marshal j)] is [j] for every value a Go
    program can hold, that is with number literals of the JSON grammar and the
    fields of an object under distinct keys, kept in order. *)

From Stdlib Require Import Ascii.
From Stdlib Require String.
From S2P Require Import Prelude.
From S2P Require Import Json.
From S2P Require Import GoStd.
From S2P Require Import JsonPlain.

Local Open Scope Z_scope.

(** ** Strings *)

(** The three shapes of an encoded character. *)
Definition short_escape (e : ascii) : option N :=
  match code e with
  | 34 => Some 34 | 92 => Some 92 | 47 => Some 47 | 98 => Some 8 | 102 => Some 12 | 110 => Some 10 | 114 => Some 13 | 116 => Some 9
  | _ => None
  end%N.
Definition escape_shape (c : ascii) : bool :=
  match escape_char c with
  | String c1 "" => Ascii.eqb c1 c && negb (code c =? 34)%N && negb (code c <? 32)%N && negb (code c =? 92)%N
  | String b (String e "") => Ascii.eqb b (chr 92) && match short_escape e with Some n => Ascii.eqb (chr n) c | None => false end
  | String b (String u (String h1 (String h2 (String h3 (String h4 ""))))) =>
      Ascii.eqb b (chr 92) && Ascii.eqb u (chr 117)
      && match hex4 h1 h2 h3 h4 with Some n => (n <? 128)%N && Ascii.eqb (chr n) c | None => false end
  | _ => false
  end.
Lemma escape_shapes c : escape_shape c = true.
Proof. apply all_chars. vm_compute. reflexivity. Qed.

Lemma parse_short e n tail r rest : short_escape e = Some n → parse_str None tail = Some (r, rest) →
  parse_str None (String (chr 92) (String e tail)) = Some (String (chr n) r, rest).
Proof.
  intros He H. cbn [parse_str]. change (code (chr 92) =? 34)%N with false. change (code (chr 92) <? 32)%N with false.
  change (code (chr 92) =? 92)%N with true. cbv iota. rewrite H. unfold short_escape in He.
  repeat match type of He with context [match ?x with _ => _ end] => destruct x; try discriminate He end;
    injection He as <-; reflexivity.
Qed.
Lemma parse_u a b c d n tail r rest : hex4 a b c d = Some n → (n <? 128)%N = true → parse_str None tail = Some (r, rest) →
  parse_str None (String (chr 92) (String (chr 117) (String a (String b (String c (String d tail)))))) = Some (String (chr n) r, rest).
Proof.
  intros Hh Hn H. cbn [parse_str]. change (code (chr 92) =? 34)%N with false. change (code (chr 92) <? 32)%N with false.
  change (code (chr 92) =? 92)%N with true. change (code (chr 117)) with 117%N. cbv iota. rewrite Hh. cbn [mbind option_bind].
  apply N.ltb_lt in Hn as Hlt.
  assert ((55296 <=? n)%N = false) as -> by (apply N.leb_gt; lia). assert ((56320 <=? n)%N = false) as -> by (apply N.leb_gt; lia). cbn [andb]. rewrite H. cbn [mbind option_bind].
  unfold utf8. by rewrite Hn.
Qed.
Lemma parse_escaped_char c tail r rest : parse_str None tail = Some (r, rest) →
  parse_str None (escape_char c +:+ tail) = Some (String c r, rest).
Proof.
  intros H. pose proof (escape_shapes c) as Hs. unfold escape_shape in Hs.
  destruct (escape_char c) as [|c1 [|c2 [|c3 [|c4 [|c5 [|c6 [|c7 l]]]]]]]; try discriminate Hs.
  - rewrite !andb_true_iff, !negb_true_iff in Hs. destruct Hs as [[[->%Ascii.eqb_eq H1] H2] H3].
    change (String c "" +:+ tail) with (String c tail). cbn [parse_str]. rewrite H1, H2, H3, H. done.
  - apply andb_prop in Hs as [->%Ascii.eqb_eq Hs]. destruct (short_escape c2) as [n|] eqn:E; [|done]. apply Ascii.eqb_eq in Hs as <-.
    by apply parse_short.
  - apply andb_prop in Hs as [[->%Ascii.eqb_eq ->%Ascii.eqb_eq]%andb_prop Hs]. destruct (hex4 c3 c4 c5 c6) as [n|] eqn:E; [|done].
    apply andb_prop in Hs as [Hn <-%Ascii.eqb_eq]. by apply parse_u.
Qed.
Lemma parse_separator b tail r rest : (b =? "8")%char || (b =? "9")%char = true → parse_str None tail = Some (r, rest) →
  parse_str None ("\u202" +:+ String b tail) = Some (utf8 (if (b =? "8")%char then 8232 else 8233)%N +:+ r, rest).
Proof.
  intros Hb H. apply orb_true_iff in Hb as [->%Ascii.eqb_eq| ->%Ascii.eqb_eq].
  - change (parse_str None ("\u202" +:+ String "8" tail)) with ('(r, rest) ← parse_str None tail; Some (utf8 8232 +:+ r, rest)).
    by rewrite H.
  - change (parse_str None ("\u202" +:+ String "9" tail)) with ('(r, rest) ← parse_str None tail; Some (utf8 8233 +:+ r, rest)).
    by rewrite H.
Qed.

Lemma code_chr c n : (code c =? n)%N = true → c = chr n.
Proof. intros H%N.eqb_eq. unfold chr. rewrite <- H. symmetry. apply ascii_N_embedding. Qed.

Lemma escape_cons c s : escape (String c s) =
  match s with
  | String c2 (String c3 s') =>
      if (code c =? 226)%N && (code c2 =? 128)%N && (code c3 =? 168)%N then "\u2028" +:+ escape s'
      else if (code c =? 226)%N && (code c2 =? 128)%N && (code c3 =? 169)%N then "\u2029" +:+ escape s'
      else escape_char c +:+ escape s
  | _ => escape_char c +:+ escape s
  end.
Proof. by destruct s as [|c2 [|c3 s]]. Qed.

Lemma parse_str_escape s rest : parse_str None (escape s +:+ quote +:+ rest) = Some (s, rest).
Proof.
  remember (String.length s) as n eqn:Hn. revert s Hn. induction n as [n IH] using lt_wf_ind. intros s ->.
  destruct s as [|c s]; [reflexivity|].
  assert (Hplain : parse_str None ((escape_char c +:+ escape s) +:+ quote +:+ rest) = Some (String c s, rest)).
  { rewrite append_assoc. apply parse_escaped_char. apply (IH (String.length s)); [cbn; lia|done]. }
  rewrite escape_cons. destruct s as [|c2 [|c3 s]]; [done|done|].
  assert (Hs : parse_str None (escape s +:+ quote +:+ rest) = Some (s, rest)) by (apply (IH (String.length s)); [cbn; lia|done]).
  destruct (_ && _) eqn:E1.
  { apply andb_prop in E1 as [[->%code_chr ->%code_chr]%andb_prop ->%code_chr]. rewrite append_assoc.
    exact (parse_separator "8" _ _ _ eq_refl Hs). }
  clear E1. destruct (_ && _) eqn:E2; [|done].
  apply andb_prop in E2 as [[->%code_chr ->%code_chr]%andb_prop ->%code_chr]. rewrite append_assoc.
  exact (parse_separator "9" _ _ _ eq_refl Hs).
Qed.

Lemma quoted_text s rest : quoted s +:+ rest = String (chr 34) (escape s +:+ quote +:+ rest).
Proof. unfold quoted. by rewrite !append_assoc. Qed.

(** ** Numbers *)

Definition number (lit : string) : bool := match parse_num lit with Some (x, "") => String.eqb x lit | _ => false end.

Lemma take_digits_app s d r rest : take_digits s = (d, r) → r ≠ "" ∨ stops_number rest = true →
  take_digits (s +:+ rest) = (d, r +:+ rest).
Proof.
  revert d r. induction s as [|c s IH]; intros d r H Hr.
  - injection H as <- <-. destruct Hr as [?|Hr]; [done|]. change ("" +:+ rest) with rest. destruct rest as [|c rest]; [done|].
    cbn in Hr |- *. by destruct (Json.is_digit c).
  - change (String c s +:+ rest) with (String c (s +:+ rest)). cbn [take_digits] in *. destruct (Json.is_digit c); [|by injection H as <- <-].
    destruct (take_digits s) as [d' r']. injection H as <- <-. by rewrite (IH d' r').
Qed.

Lemma take_digits_nil d r : take_digits "" = (d, r) → d = "" ∧ r = "".
Proof. by intros [= <- <-]. Qed.
(** The optional parts of a number, read before a text they cannot continue into. *)
Definition num_frac (s : string) : option (string * string) :=
  match s with
  | String c' s' => if (code c' =? 46)%N then let '(d, r) := take_digits s' in if String.eqb d "" then None else Some ("." +:+ d, r)
                    else Some ("", s)
  | EmptyString => Some ("", s)
  end.
Definition num_expo (s : string) : option (string * string) :=
  match s with
  | String e s' =>
      if (code e =? 101)%N || (code e =? 69)%N then
        let '(sg, s'') := match s' with
          | String c' r => if (code c' =? 43)%N || (code c' =? 45)%N then (String c' "", r) else ("", s')
          | _ => ("", s') end in
        let '(d, r) := take_digits s'' in
        if String.eqb d "" then None else Some (String e (sg +:+ d), r)
      else Some ("", s)
  | EmptyString => Some ("", s)
  end.
Definition num_sign (s : string) : string * string :=
  match s with String c s' => if (code c =? 45)%N then ("-", s') else ("", s) | _ => ("", s) end.
Lemma parse_num_parts s : parse_num s =
  let '(sign, s) := num_sign s in
  let '(int, s) := take_digits s in
  match int with
  | EmptyString => None
  | String c rest =>
      if (code c =? 48)%N && negb (String.eqb rest "") then None else
      '(f, s) ← num_frac s; '(x, s) ← num_expo s; Some (sign +:+ int +:+ f +:+ x, s)
  end.
Proof.
  unfold parse_num, num_sign. destruct (match s with String c s' => if (code c =? 45)%N then ("-", s') else ("", s) | _ => ("", s) end) as [sign s1].
  destruct (take_digits s1) as [[|c int] s2]; [done|]. destruct (_ && _); [done|]. unfold num_frac.
  destruct s2 as [|c2 s2]; reflexivity.
Qed.

Lemma stop_char c s : stops_number (String c s) = true → (code c =? 46)%N = false ∧ (code c =? 101)%N = false ∧ (code c =? 69)%N = false.
Proof.
  cbn [stops_number]. intros [_ H]%andb_prop. apply negb_true_iff in H.
  cbn [existsb] in H. rewrite !orb_false_iff in H. by destruct H as (H1&H2&H3&_).
Qed.

Section Extend.
Context (rest : string) (Hrest : stops_number rest = true).

Lemma take_digits_ext s d r : take_digits s = (d, r) → take_digits (s +:+ rest) = (d, r +:+ rest).
Proof. intros H. apply take_digits_app; [done|by right]. Qed.
Lemma num_frac_ext s f r : num_frac s = Some (f, r) → num_frac (s +:+ rest) = Some (f, r +:+ rest).
Proof.
  destruct s as [|c s]; cbn [num_frac].
  - intros [= <- <-]. change ("" +:+ rest) with rest. clear -Hrest. destruct rest as [|c s]; [done|]. destruct (stop_char c s Hrest) as (H&_&_).
    cbn [num_frac]. by rewrite H.
  - change (String c s +:+ rest) with (String c (s +:+ rest)). cbn [num_frac]. destruct (code c =? 46)%N; [|by intros [= <- <-]].
    destruct (take_digits s) as [d r'] eqn:E. rewrite (take_digits_ext _ _ _ E). destruct (String.eqb d ""); [done|]. by intros [= <- <-].
Qed.
Lemma num_expo_ext s x r : num_expo s = Some (x, r) → num_expo (s +:+ rest) = Some (x, r +:+ rest).
Proof.
  destruct s as [|c s]; cbn [num_expo].
  - intros [= <- <-]. change ("" +:+ rest) with rest. clear -Hrest. destruct rest as [|c s]; [done|]. destruct (stop_char c s Hrest) as (_&H1&H2).
    cbn [num_expo]. by rewrite H1, H2.
  - change (String c s +:+ rest) with (String c (s +:+ rest)). cbn [num_expo]. destruct (_ || _); [|by intros [= <- <-]].
    destruct s as [|c' s].
    + by intros H.
    + change (String c' s +:+ rest) with (String c' (s +:+ rest)). cbv iota beta.
      destruct ((code c' =? 43)%N || (code c' =? 45)%N); cbv iota beta.
      * destruct (take_digits s) as [d r'] eqn:E. rewrite (take_digits_ext _ _ _ E). destruct (String.eqb d ""); [done|]. by intros [= <- <-].
      * destruct (take_digits (String c' s)) as [d r'] eqn:E. change (String c' (s +:+ rest)) with (String c' s +:+ rest).
        rewrite (take_digits_ext _ _ _ E). destruct (String.eqb d ""); [done|]. by intros [= <- <-].
Qed.
Lemma parse_num_ext s x r : parse_num s = Some (x, r) → parse_num (s +:+ rest) = Some (x, r +:+ rest).
Proof.
  rewrite !parse_num_parts. destruct s as [|c s]; [done|].
  assert (Hsign : num_sign (String c s +:+ rest) = let '(g, t) := num_sign (String c s) in (g, t +:+ rest)).
  { unfold num_sign. change (String c s +:+ rest) with (String c (s +:+ rest)). cbv beta iota. destruct (code c =? 45)%N; reflexivity. }
  rewrite Hsign. destruct (num_sign (String c s)) as [g t]. destruct (take_digits t) as [int t1] eqn:E.
  rewrite (take_digits_ext _ _ _ E). destruct int as [|c1 int]; [done|]. destruct (_ && _); [done|].
  destruct (num_frac t1) as [[f t2]|] eqn:Ef; [|done]. rewrite (num_frac_ext _ _ _ Ef). cbn [mbind option_bind].
  destruct (num_expo t2) as [[e t3]|] eqn:Ee; [|done]. rewrite (num_expo_ext _ _ _ Ee). cbn [mbind option_bind]. by intros [= <- <-].
Qed.
End Extend.

Lemma number_ext lit rest : number lit = true → stops_number rest = true → parse_num (lit +:+ rest) = Some (lit, rest).
Proof.
  unfold number. intros H Hr. destruct (parse_num lit) as [[x [|c r]]|] eqn:E; try done. apply String.eqb_eq in H as ->.
  by rewrite (parse_num_ext rest Hr _ _ _ E).
Qed.

(** ** Values *)

(** The keys of an object, strictly increasing. *)
Fixpoint increasing (l : list (string * json)) : bool :=
  match l with
  | [] => true
  | kv :: l => forallb (λ kv', str_lt kv.1 kv'.1) l && increasing l
  end.
(** What [any] can hold: number literals and maps. *)
Fixpoint canonical (j : json) : bool :=
  match j with
  | JNum l => number l
  | JArr l => forallb canonical l
  | JObj m => increasing m && forallb (λ kv, canonical kv.2) m
  | _ => true
  end.
(** Every number is a number, and what reading makes of a value: the fields of an
    object go to their places. *)
Fixpoint sound (j : json) : bool :=
  match j with
  | JNum l => number l
  | JArr l => forallb sound l
  | JObj m => forallb (λ kv, sound kv.2) m
  | _ => true
  end.
Fixpoint norm (j : json) : json :=
  match j with
  | JArr l => JArr (List.map norm l)
  | JObj m => mkobj (List.map (λ kv, (kv.1, norm kv.2)) m)
  | _ => j
  end.

Lemma obj_set_last k v m : forallb (λ kv, str_lt kv.1 k) m = true → obj_set k v m = m ++ [(k, v)].
Proof.
  induction m as [|[k' v'] m IH]; [done|]. cbn [forallb fst]. intros [H1 H2]%andb_prop. cbn [obj_set].
  apply str_lt_spec in H1. unfold cmp_lt in H1. rewrite (cmp_sym str_cmp k' k), H1. cbn [CompOpp]. by rewrite IH.
Qed.
Lemma mkobj_increasing m : increasing m = true → mkobj m = JObj m.
Proof.
  intros H. unfold mkobj. f_equal.
  enough (∀ acc, forallb (λ kv, forallb (λ kv', str_lt kv'.1 kv.1) acc) m = true →
    fold_left (λ m kv, obj_set kv.1 kv.2 m) m acc = acc ++ m) as E by (apply (E []); apply forallb_forall; done).
  induction m as [|[k v] m IH]; intros acc Hacc; [by rewrite app_nil_r|]. cbn [increasing fst] in H. apply andb_prop in H as [Hk Hm].
  cbn [forallb fst] in Hacc. apply andb_prop in Hacc as [Ha Hacc]. cbn [fold_left fst snd]. rewrite obj_set_last by done.
  rewrite (IH Hm), <- app_assoc; [done|]. rewrite forallb_forall in Hk, Hacc |- *. intros kv Hin. rewrite forallb_app.
  cbn [forallb fst]. by rewrite (Hacc kv Hin), (Hk kv Hin).
Qed.

(** The first byte of a value. *)
Definition value_start (c : ascii) : bool := negb (is_ws c) && negb (code c =? 93)%N && negb (code c =? 125)%N.
Definition number_start (c : ascii) : bool := Json.is_digit c || (code c =? 45)%N.
Lemma number_head lit : number lit = true → ∃ c s, lit = String c s ∧ number_start c = true.
Proof.
  unfold number. rewrite parse_num_parts. destruct lit as [|c s]; [done|]. intros H. exists c, s. split; [done|].
  unfold number_start. unfold num_sign in H. destruct (code c =? 45)%N; [by rewrite orb_true_r|]. cbv beta iota in H. cbn [take_digits] in H.
  by destruct (Json.is_digit c).
Qed.
Lemma number_starts c : number_start c = true → value_start c = true ∧
  ∀ fuel s, parse_value (S fuel) (String c s) = ('(l, r) ← parse_num (String c s); Some (JNum l, r)).
Proof.
  assert (Hc : ∀ c, implb (number_start c) (value_start c && negb (existsb (N.eqb (code c)) [34; 91; 123; 110; 116; 102]%N)) = true)
    by (apply all_chars; vm_compute; reflexivity).
  specialize (Hc c). intros H. rewrite H in Hc. cbn [implb] in Hc. apply andb_prop in Hc as [H1 H2]. split; [done|]. intros fuel s.
  cbn [parse_value]. rewrite skip_ws_stop by (unfold value_start in H1; rewrite !andb_true_iff in H1; by apply negb_true_iff, H1).
  apply negb_true_iff in H2. cbn [existsb] in H2. rewrite !orb_false_iff, !N.eqb_neq in H2.
  destruct H2 as (N1&N2&N3&N4&N5&N6&_). clear -N1 N2 N3 N4 N5 N6. generalize dependent (code c). intros n N1 N2 N3 N4 N5 N6.
  repeat match goal with |- context [match ?x with _ => _ end] => is_var x; destruct x; try lia; try reflexivity end.
Qed.

Lemma marshal_head j : sound j = true → ∃ c s, marshal j = String c s ∧ value_start c = true.
Proof.
  destruct j as [|[]|l|s|l|m]; intros H; try (eexists _, _; split; [reflexivity|reflexivity]).
  destruct (number_head l H) as (c&s&->&Hs). exists c, s. split; [done|]. by apply number_starts.
Qed.

Definition reads_back (j : json) : Prop := ∀ fuel rest, sound j = true → (String.length (marshal j) < fuel)%nat →
  stops_number rest = true → parse_value fuel (marshal j +:+ rest) = Some (norm j, rest).

Lemma value_start_ws c s : value_start c = true → skip_ws (String c s) = String c s.
Proof. unfold value_start. rewrite !andb_true_iff, !negb_true_iff. intros [[H _] _]. by apply skip_ws_stop. Qed.

Lemma joinc_cons sep x y l : joinc sep (x :: y :: l) = x +:+ sep +:+ joinc sep (y :: l).
Proof. done. Qed.
Lemma comma_text a b : a +:+ "," +:+ b = a +:+ String (chr 44) b.
Proof. done. Qed.

Lemma parse_items_back l : Forall reads_back l → forallb sound l = true → l ≠ [] → ∀ fuel rest,
  (S (String.length (joinc "," (List.map marshal l))) < fuel)%nat →
  parse_items fuel (joinc "," (List.map marshal l) +:+ String (chr 93) rest) = Some (List.map norm l, rest).
Proof.
  induction 1 as [|x l Hx Hl IH]; [done|]. cbn [forallb]. intros [Cx Cl]%andb_prop _ fuel rest Hfuel.
  destruct fuel as [|fuel]; [lia|]. cbn [parse_items]. destruct l as [|y l].
  - cbn [List.map joinc] in *. rewrite Hx by (try done; lia). cbn [mbind option_bind]. by rewrite skip_ws_stop.
  - cbn [List.map] in *. rewrite joinc_cons in *. rewrite !append_length in Hfuel. cbn [String.length] in Hfuel.
    rewrite !append_assoc, comma_text. rewrite Hx by (try done; lia). cbn [mbind option_bind]. rewrite skip_ws_stop by done.
    change (code (chr 44) =? 44)%N with true. cbv iota. rewrite IH by (try done; lia). done.
Qed.

Definition member_text (kv : string * json) : string := quoted kv.1 +:+ ":" +:+ marshal kv.2.
Lemma parse_members_back m : Forall (λ kv, reads_back kv.2) m → forallb (λ kv, sound kv.2) m = true → m ≠ [] → ∀ fuel rest,
  (S (String.length (joinc "," (List.map member_text m))) < fuel)%nat →
  parse_fields fuel (joinc "," (List.map member_text m) +:+ String (chr 125) rest) = Some (List.map (λ kv, (kv.1, norm kv.2)) m, rest).
Proof.
  induction 1 as [|[k v] m Hv Hm IH]; [done|]. cbn [forallb snd] in *. intros [Cv Cm]%andb_prop _ fuel rest Hfuel.
  destruct fuel as [|fuel]; [lia|].
  assert (Hstep : ∀ c tail, stops_number (String c tail) = true → is_ws c = false →
    (String.length (member_text (k, v)) < S fuel)%nat →
    parse_fields (S fuel) (member_text (k, v) +:+ String c tail) =
      (if (code c =? 44)%N then '(l, r) ← parse_fields fuel tail; Some ((k, norm v) :: l, r)
       else if (code c =? 125)%N then Some ([(k, norm v)], tail) else None)).
  { intros c tail Hc Hw Hlen. unfold member_text in *. cbn [fst snd] in *. rewrite append_assoc, quoted_text.
    rewrite append_length in Hlen. change (String.length (":" +:+ marshal v)) with (S (String.length (marshal v))) in Hlen.
    cbn [parse_fields]. rewrite skip_ws_stop by done. change (code (chr 34) =? 34)%N with true. cbv iota.
    rewrite parse_str_escape. cbn [mbind option_bind]. rewrite append_assoc. change (":" +:+ ?s) with (String ":" s). rewrite skip_ws_stop by done.
    change (code ":" =? 58)%N with true. cbv iota. rewrite Hv by (try done; lia). cbn [mbind option_bind]. by rewrite skip_ws_stop. }
  destruct m as [|kv m].
  - cbn [List.map joinc] in *. by rewrite Hstep by (try done; lia).
  - cbn [List.map] in *. rewrite joinc_cons in *. rewrite !append_length in Hfuel. cbn [String.length] in Hfuel.
    rewrite !append_assoc, comma_text. rewrite Hstep by (try done; lia).
    change (code (chr 44) =? 44)%N with true. cbv iota. rewrite IH by (try done; lia). done.
Qed.

Lemma joinc_head (f : json → string) x l s : ∃ tail, joinc "," (f x :: l) +:+ s = f x +:+ tail.
Proof. destruct l as [|y l]; [by eexists|]. rewrite joinc_cons, append_assoc. by eexists. Qed.

Lemma reads_back_all j : reads_back j.
Proof.
  induction j as [| |l|s|l IH|m IH] using json_ind'; intros fuel rest Hc Hfuel Hr; (destruct fuel as [|fuel]; [lia|]).
  - reflexivity.
  - destruct b; reflexivity.
  - destruct (number_head l Hc) as (c&s&->&Hs). change (marshal (JNum (String c s)) +:+ rest) with (String c (s +:+ rest)).
    rewrite (proj2 (number_starts c Hs)). change (String c (s +:+ rest)) with (String c s +:+ rest). by rewrite number_ext.
  - change (marshal (JStr s)) with (quoted s). rewrite quoted_text. cbn [parse_value]. rewrite skip_ws_stop by done.
    change (code (chr 34)) with 34%N. cbv beta iota. by rewrite parse_str_escape.
  - cbn [sound] in Hc. destruct l as [|x l]; [reflexivity|].
    change (marshal (JArr (x :: l)) +:+ rest) with (String (chr 91) ((joinc "," (List.map marshal (x :: l)) +:+ "]") +:+ rest)).
    rewrite append_assoc. change ("]" +:+ rest) with (String (chr 93) rest). cbn [parse_value]. rewrite skip_ws_stop by done.
    change (code (chr 91)) with 91%N. cbv beta iota. set (text := joinc "," (List.map marshal (x :: l)) +:+ String (chr 93) rest).
    assert (∃ c s, text = String c s ∧ value_start c = true) as (c&s&Et&Hs).
    { cbn [forallb] in Hc. apply andb_prop in Hc as [Hx _]. destruct (marshal_head x Hx) as (c&s&E&Hs).
      destruct (joinc_head marshal x (List.map marshal l) (String (chr 93) rest)) as [tail Ht].
      exists c, (s +:+ tail). split; [|done]. unfold text. cbn [List.map]. by rewrite Ht, E. }
    rewrite Et at 1. rewrite value_start_ws by done. unfold value_start in Hs. rewrite !andb_true_iff, !negb_true_iff in Hs.
    destruct Hs as [[_ ->] _]. unfold text. rewrite parse_items_back; [done|done|done|done|].
    change (String.length (marshal (JArr (x :: l)))) with (S (String.length (joinc "," (List.map marshal (x :: l)) +:+ "]"))) in Hfuel.
    rewrite append_length in Hfuel. cbn [String.length] in Hfuel. lia.
  - cbn [sound] in Hc. destruct m as [|kv m]; [reflexivity|].
    change (marshal (JObj (kv :: m)) +:+ rest) with (String (chr 123) ((joinc "," (List.map member_text (kv :: m)) +:+ "}") +:+ rest)).
    rewrite append_assoc. change ("}" +:+ rest) with (String (chr 125) rest). cbn [parse_value]. rewrite skip_ws_stop by done.
    change (code (chr 123)) with 123%N. cbv beta iota. set (text := joinc "," (List.map member_text (kv :: m)) +:+ String (chr 125) rest).
    assert (∃ s, text = String (chr 34) s) as (s&Et).
    { unfold text. cbn [List.map]. destruct m as [|kv2 m]; cbn [List.map]; [cbn [joinc]|rewrite joinc_cons, append_assoc]; unfold member_text at 1;
        rewrite append_assoc, quoted_text; eauto. }
    rewrite Et at 1. rewrite skip_ws_stop by done. change (code (chr 34) =? 125)%N with false. cbv iota.
    unfold text. rewrite parse_members_back; [done|done|done|done|].
    change (String.length (marshal (JObj (kv :: m)))) with (S (String.length (joinc "," (List.map member_text (kv :: m)) +:+ "}"))) in Hfuel.
    rewrite append_length in Hfuel. cbn [String.length] in Hfuel. lia.
Qed.

Lemma forallb_weaken {A} (f g : A → bool) l : (∀ x, x ∈ l → f x = true → g x = true) → forallb f l = true → forallb g l = true.
Proof. rewrite !forallb_forall. intros H Hf x Hx. apply H; [by apply list_elem_of_In|auto]. Qed.
(** A canonical value is its own normal form. *)
Lemma canonical_sound j : canonical j = true → sound j = true ∧ norm j = j.
Proof.
  induction j as [| | | |l IH|m IH] using json_ind'; intros Hc; try done; cbn [canonical sound norm] in *.
  - split.
    + revert Hc. apply forallb_weaken. intros x Hx Hc. rewrite Forall_forall in IH. by apply IH.
    + f_equal. induction IH as [|x l Hx _ IHl]; [done|]. cbn [forallb List.map] in *. apply andb_prop in Hc as [Hc1 Hc2].
      destruct (Hx Hc1) as [_ ->]. by rewrite IHl.
  - apply andb_prop in Hc as [Hi Hc]. split.
    + revert Hc. apply forallb_weaken. intros x Hx Hc. rewrite Forall_forall in IH. by apply (IH x).
    + rewrite <- (mkobj_increasing m Hi). f_equal. clear Hi. induction IH as [|[k v] m Hx _ IHl]; [done|]. cbn [forallb List.map fst snd] in *.
      apply andb_prop in Hc as [Hc1 Hc2]. destruct (Hx Hc1) as [_ ->]. by rewrite IHl.
Qed.
Lemma parse_norm j : sound j = true → parse (marshal j) = Some (norm j).
Proof.
  intros H. unfold parse. rewrite <- (append_nil (marshal j)) at 2. rewrite reads_back_all by (try done; lia). done.
Qed.
Lemma parse_marshal j : canonical j = true → parse (marshal j) = Some j.
Proof. intros [H1 H2]%canonical_sound. by rewrite parse_norm, H2. Qed.

(** An object whose fields are written in another order is decoded into the map. *)
Lemma parse_object_text m : forallb (λ kv, canonical kv.2) m = true → parse (marshal (JObj m)) = Some (mkobj m).
Proof.
  intros Hc. assert (forallb (λ kv, sound kv.2) m = true ∧ List.map (λ kv, (kv.1, norm kv.2)) m = m) as [Hs E].
  { induction m as [|[k v] m IH]; [done|]. cbn [forallb List.map fst snd] in *. apply andb_prop in Hc as [[H1 H2]%canonical_sound Hm].
    destruct (IH Hm) as [H3 H4]. by rewrite H1, H2, H3, H4. }
  rewrite parse_norm by done. cbn [norm]. by rewrite E.
Qed.

(** Lookup in the decoded map. *)
Lemma obj_get_fold k m acc : NoDup m.*1 →
  obj_get k (fold_left (λ o kv, obj_set kv.1 kv.2 o) m acc) = match obj_get k m with Some v => Some v | None => obj_get k acc end.
Proof.
  revert acc. induction m as [|[k' v] m IH]; intros acc Hn; [done|]. cbn [fmap list_fmap fst] in Hn. apply NoDup_cons in Hn as [Hk Hn].
  cbn [fold_left fst snd obj_get]. rewrite IH by done. destruct (decide (k = k')) as [->|Hne].
  - rewrite obj_get_set_eq. destruct (obj_get k' m) as [w|] eqn:E; [|done]. exfalso. apply Hk. clear -E.
    induction m as [|[k v] m IH]; [done|]. cbn [obj_get] in E. rewrite fmap_cons. destruct (decide (k' = k)) as [->|]; [left|right; auto].
  - by rewrite obj_get_set_ne.
Qed.
Lemma obj_get_app k l l' : obj_get k (l ++ l') = match obj_get k l with Some v => Some v | None => obj_get k l' end.
Proof. induction l as [|[k' v] l IH]; [done|]. cbn [app obj_get]. by destruct (decide (k = k')). Qed.
Lemma obj_get_elem k v m : obj_get k m = Some v → (k, v) ∈ m.
Proof. induction m as [|[k' w] m IH]; [done|]. cbn [obj_get]. destruct (decide (k = k')) as [->|]; [intros [= ->]; left|right; auto]. Qed.
Lemma obj_set_keys k v k' m : k' ∈ (obj_set k v m).*1 → k' = k ∨ k' ∈ m.*1.
Proof.
  induction m as [|[k2 w] m IH]; cbn [obj_set].
  - intros Hin. apply list_elem_of_singleton in Hin. by left.
  - destruct (str_cmp k k2); rewrite ?fmap_cons; cbn [fst]; rewrite ?elem_of_cons; intuition.
Qed.
Lemma fold_keys k m acc : k ∈ (fold_left (λ o kv, obj_set kv.1 kv.2 o) m acc).*1 → k ∈ m.*1 ∨ k ∈ acc.*1.
Proof.
  revert acc. induction m as [|[k' v] m IH]; intros acc Hin; [by right|]. cbn [fold_left fst snd] in Hin.
  rewrite fmap_cons, elem_of_cons. apply IH in Hin as [?|[->|?]%obj_set_keys]; auto.
Qed.
