(* ===== verification/Resource.v ===== *)
(** [internal/resource/resource.go]: the declarative resources.

    A decoded resource is a [Document]: metadata, one of the six specs and the
    server-owned status object.  Go keeps the canonical JSON of the same value
    next to it ([Document.JSON], [Document.Spec]); since that JSON is always
    [json.Marshal] of the value, the model keeps the value only.  YAML decoding
    (yaml.v3, third party) is outside: [DecodeStrict] starts from the decoded
    value and performs every check the function makes on it.  The cron parser
    (robfig/cron) and the time-zone database are the operations of [Calendar]; the
    text they give an error is not kept. *)

From Stdlib Require Import Ascii.
From Stdlib Require String.
From S2P Require Import Prelude.
From S2P Require Import Json.
From S2P Require Import GoStd.

Local Open Scope Z_scope.

Definition APIVersion : string := "orchigram.dev/v1alpha1".
Definition DefaultNamespace : string := "default".

(** [cron.ParseStandard] succeeds, [time.LoadLocation] succeeds. *)
Class Calendar := { cron_parses : string → bool; location_loads : string → bool }.

(** ** Resource data *)

Record ObjectMeta := mkMeta {
  m_name : string; m_namespace : string; m_uid : string;
  m_resourceVersion : Z; m_generation : Z; m_labels : gmap string string }.

Record Policies := mkPolicies { p_timeout : string; p_maxParallel : Z }.
Record RetryPolicy := mkRetry { r_limit : Z; r_backoff : string }.
Record LoopPolicy := mkLoop { l_maxIterations : Z }.
Record FlowNode := mkNode {
  n_id : string; n_name : string; n_uses : string; n_with : list (string * json);
  n_retry : option RetryPolicy; n_timeout : string; n_loop : option LoopPolicy }.
Record FlowEdge := mkEdge { e_from : string; e_to : string; e_when : string }.
Record FlowSpec := mkFlowSpec {
  f_inputs : list (string * json); f_inputSchema : list (string * json);
  f_policies : Policies; f_nodes : list FlowNode; f_edges : list FlowEdge }.

Record ScheduleTrigger := mkSchedule {
  s_cron : string; s_timezone : string; s_misfirePolicy : string;
  s_startingDeadline : string; s_concurrencyPolicy : string }.
Record WebhookTrigger := mkWebhook { w_bearerSecretRef : string }.
Record ProviderTrigger := mkProvider { pr_plugin : string; pr_source : string; pr_config : list (string * json) }.
Record TriggerDelivery := mkDelivery { d_mode : string; d_node : string }.
Record TriggerSpec := mkTriggerSpec {
  t_flow : string; t_enabled : option bool; t_schedule : option ScheduleTrigger;
  t_webhook : option WebhookTrigger; t_provider : option ProviderTrigger; t_delivery : option TriggerDelivery }.

Record RepositorySpec := mkRepository {
  rp_cloneURL : string; rp_defaultBranch : string; rp_workspacePolicy : string; rp_authSecretRef : string }.
Record AgentProfileSpec := mkAgentProfile {
  a_type : string; a_executable : string; a_args : list string; a_model : string; a_profile : string;
  a_effort : string; a_sandbox : string; a_environment : gmap string string; a_secretRefs : list string }.
Record PluginInstallationSpec := mkPluginInstallation {
  pi_plugin : string; pi_version : string; pi_digest : string; pi_enabled : option bool }.
Record SecretRefSpec := mkSecretRef { sr_backend : string; sr_key : string }.

Inductive Spec :=
  | SpecFlow (s : FlowSpec)
  | SpecTrigger (s : TriggerSpec)
  | SpecRepository (s : RepositorySpec)
  | SpecAgentProfile (s : AgentProfileSpec)
  | SpecPluginInstallation (s : PluginInstallationSpec)
  | SpecSecretRef (s : SecretRefSpec).

Record Document := mkDocument {
  doc_apiVersion : string; doc_meta : ObjectMeta; doc_spec : Spec; doc_status : list (string * json) }.

Definition doc_kind (d : Document) : string :=
  match doc_spec d with
  | SpecFlow _ => "Flow" | SpecTrigger _ => "Trigger" | SpecRepository _ => "Repository"
  | SpecAgentProfile _ => "AgentProfile" | SpecPluginInstallation _ => "PluginInstallation"
  | SpecSecretRef _ => "SecretRef"
  end.

#[export] Instance Policies_eq_dec : EqDecision Policies. Proof. solve_decision. Defined.
#[export] Instance RetryPolicy_eq_dec : EqDecision RetryPolicy. Proof. solve_decision. Defined.
#[export] Instance LoopPolicy_eq_dec : EqDecision LoopPolicy. Proof. solve_decision. Defined.
#[export] Instance FlowNode_eq_dec : EqDecision FlowNode. Proof. solve_decision. Defined.
#[export] Instance FlowEdge_eq_dec : EqDecision FlowEdge. Proof. solve_decision. Defined.
#[export] Instance FlowSpec_eq_dec : EqDecision FlowSpec. Proof. solve_decision. Defined.
#[export] Instance ScheduleTrigger_eq_dec : EqDecision ScheduleTrigger. Proof. solve_decision. Defined.
#[export] Instance WebhookTrigger_eq_dec : EqDecision WebhookTrigger. Proof. solve_decision. Defined.
#[export] Instance ProviderTrigger_eq_dec : EqDecision ProviderTrigger. Proof. solve_decision. Defined.
#[export] Instance TriggerDelivery_eq_dec : EqDecision TriggerDelivery. Proof. solve_decision. Defined.
#[export] Instance TriggerSpec_eq_dec : EqDecision TriggerSpec. Proof. solve_decision. Defined.
#[export] Instance RepositorySpec_eq_dec : EqDecision RepositorySpec. Proof. solve_decision. Defined.
#[export] Instance AgentProfileSpec_eq_dec : EqDecision AgentProfileSpec. Proof. solve_decision. Defined.
#[export] Instance PluginInstallationSpec_eq_dec : EqDecision PluginInstallationSpec. Proof. solve_decision. Defined.
#[export] Instance SecretRefSpec_eq_dec : EqDecision SecretRefSpec. Proof. solve_decision. Defined.
#[export] Instance Spec_eq_dec : EqDecision Spec. Proof. solve_decision. Defined.

(** ** Names *)

Definition dns_char (c : ascii) : bool := is_lower c || is_digit c.
(** [^[a-z0-9]([-a-z0-9]*[a-z0-9])?$] *)
Definition dnsName (s : string) : bool :=
  match explode s with
  | [] => false
  | c :: l => dns_char c && forallb (λ c, dns_char c || (byte c =? 45)) l
              && match last l with Some e => dns_char e | None => true end
  end.
(** [^[a-z][a-z0-9_-]{0,62}$] *)
Definition nodeIDName (s : string) : bool :=
  match explode s with
  | [] => false
  | c :: l => is_lower c && forallb (λ c, dns_char c || (byte c =? 95) || (byte c =? 45)) l
              && (length l <=? 62)%nat
  end.

(** ** Validation *)

Definition ParseDuration (value : string) (fallback : Z) : res Z :=
  if String.eqb value "" then ok fallback
  else match time_ParseDuration value with
       | Some d => if 0 <? d then ok d else fail (ErrMsg ("invalid positive duration " +:+ quoted value))
       | None => fail (ErrMsg ("invalid positive duration " +:+ quoted value))
       end.

Definition ValidateMetadata (m : ObjectMeta) : res unit :=
  guard_err (dnsName (m_name m) && (String.length (m_name m) <=? 63)%nat)
    (ErrMsg ("metadata.name " +:+ quoted (m_name m) +:+ " must be a DNS label")) ≫= λ _,
  guard_err (dnsName (m_namespace m) && (String.length (m_namespace m) <=? 63)%nat)
    (ErrMsg ("metadata.namespace " +:+ quoted (m_namespace m) +:+ " must be a DNS label")).

Section Validation.
Context {cal : Calendar}.

Definition validateSchedule (s : ScheduleTrigger) : res unit :=
  guard_err (length (fields (s_cron s)) =? 5)%nat
    (ErrMsg "trigger schedule cron must contain exactly five fields") ≫= λ _,
  guard_err (cron_parses (s_cron s)) (ErrMsg "trigger schedule cron is invalid") ≫= λ _,
  let timezone := if String.eqb (s_timezone s) "" then "UTC" else s_timezone s in
  guard_err (location_loads timezone) (ErrMsg ("trigger schedule timezone " +:+ quoted timezone +:+ " is invalid")) ≫= λ _,
  guard_err (String.eqb (s_misfirePolicy s) "" || String.eqb (s_misfirePolicy s) "fireOnce")
    (ErrMsg ("trigger schedule misfirePolicy " +:+ quoted (s_misfirePolicy s) +:+ " is unsupported")) ≫= λ _,
  guard_err (String.eqb (s_concurrencyPolicy s) "" || String.eqb (s_concurrencyPolicy s) "forbid")
    (ErrMsg ("trigger schedule concurrencyPolicy " +:+ quoted (s_concurrencyPolicy s) +:+ " is unsupported")) ≫= λ _,
  match ParseDuration (s_startingDeadline s) hour with
  | inl _ => fail (ErrMsg ("trigger schedule startingDeadline: invalid positive duration " +:+ quoted (s_startingDeadline s)))
  | inr _ => ok tt
  end.

Definition validateDelivery (t : TriggerSpec) (d : TriggerDelivery) : res unit :=
  if String.eqb (d_mode d) "" || String.eqb (d_mode d) "start" then
    guard_err (String.eqb (d_node d) "") (ErrMsg "trigger start delivery must not configure a node")
  else if String.eqb (d_mode d) "signal" then
    guard_err (if t_provider t is Some _ then true else false)
      (ErrMsg "trigger signal delivery requires a provider source") ≫= λ _,
    guard_err (nodeIDName (d_node d)) (ErrMsg "trigger signal delivery node must match ^[a-z][a-z0-9_-]{0,62}$")
  else fail (ErrMsg ("trigger delivery mode " +:+ quoted (d_mode d) +:+ " is unsupported")).

Definition opt_count {A} (o : option A) : nat := if o is Some _ then 1 else 0.

Definition validateTrigger (t : TriggerSpec) : res unit :=
  guard_err (opt_count (t_schedule t) + opt_count (t_webhook t) + opt_count (t_provider t) =? 1)%nat
    (ErrMsg "trigger spec must configure exactly one of schedule, webhook, or provider") ≫= λ _,
  guard_err (negb (String.eqb (trim_space (t_flow t)) "")) (ErrMsg "trigger spec flow is required") ≫= λ _,
  match t_schedule t with Some s => validateSchedule s | None => ok tt end ≫= λ _,
  match t_webhook t with
  | Some w => guard_err (negb (String.eqb (trim_space (w_bearerSecretRef w)) ""))
                (ErrMsg "trigger webhook bearerSecretRef is required")
  | None => ok tt end ≫= λ _,
  match t_provider t with
  | Some p =>
      guard_err (negb (String.eqb (trim_space (pr_plugin p)) "")) (ErrMsg "trigger provider plugin is required") ≫= λ _,
      guard_err (String.eqb (pr_source p) (trim_space (pr_source p)))
        (ErrMsg "trigger provider source must not have surrounding whitespace")
  | None => ok tt end ≫= λ _,
  match t_delivery t with Some d => validateDelivery t d | None => ok tt end.

Definition validateKind (s : Spec) : res unit :=
  match s with
  | SpecFlow f => guard_err (negb (length (f_nodes f) =? 0)%nat) (ErrMsg "flow spec nodes must not be empty")
  | SpecTrigger t => validateTrigger t
  | SpecRepository r =>
      guard_err (negb (String.eqb (trim_space (rp_cloneURL r)) "")) (ErrMsg "Repository.spec.cloneURL is required") ≫= λ _,
      guard_err (String.eqb (rp_workspacePolicy r) "" || String.eqb (rp_workspacePolicy r) "isolated-run")
        (ErrMsg ("Repository.spec.workspacePolicy " +:+ quoted (rp_workspacePolicy r) +:+ " is unsupported"))
  | SpecAgentProfile a =>
      guard_err (String.eqb (a_type a) "codex" || String.eqb (a_type a) "claude" || String.eqb (a_type a) "command")
        (ErrMsg ("AgentProfile.spec.type " +:+ quoted (a_type a) +:+ " is unsupported")) ≫= λ _,
      guard_err (negb (String.eqb (a_type a) "command" && String.eqb (trim_space (a_executable a)) ""))
        (ErrMsg "AgentProfile command type requires an executable")
  | SpecPluginInstallation p =>
      guard_err (negb (String.eqb (pi_plugin p) "" || String.eqb (pi_version p) "" || String.eqb (pi_digest p) ""))
        (ErrMsg "PluginInstallation plugin, version, and digest are required")
  | SpecSecretRef s =>
      guard_err (negb (String.eqb (sr_backend s) "" || String.eqb (sr_key s) ""))
        (ErrMsg "SecretRef backend and key are required") ≫= λ _,
      guard_err (String.eqb (sr_backend s) "env" || String.eqb (sr_backend s) "environment" || String.eqb (sr_backend s) "file")
        (ErrMsg ("SecretRef backend " +:+ quoted (sr_backend s) +:+ " is unsupported"))
  end.

Definition set_namespace (ns : string) (m : ObjectMeta) : ObjectMeta :=
  mkMeta (m_name m) ns (m_uid m) (m_resourceVersion m) (m_generation m) (m_labels m).

Definition DecodeStrict (d : Document) : res Document :=
  if negb (String.eqb (doc_apiVersion d) APIVersion) then fail (ErrMsg ("unsupported apiVersion " +:+ quoted (doc_apiVersion d)))
  else
    let m := if String.eqb (m_namespace (doc_meta d)) "" then set_namespace DefaultNamespace (doc_meta d) else doc_meta d in
    ValidateMetadata m ≫= λ _,
    validateKind (doc_spec d) ≫= λ _,
    ok (mkDocument (doc_apiVersion d) m (doc_spec d) (doc_status d)).

(** The typed decoders: strict decode, then the kind check. *)
Definition DecodeFlow (d : Document) : res (ObjectMeta * FlowSpec) :=
  DecodeStrict d ≫= λ d, match doc_spec d with SpecFlow s => ok (doc_meta d, s) | _ => fail (ErrMsg ("expected Flow, got " +:+ doc_kind d)) end.
Definition DecodeTrigger (d : Document) : res (ObjectMeta * TriggerSpec) :=
  DecodeStrict d ≫= λ d, match doc_spec d with SpecTrigger s => ok (doc_meta d, s) | _ => fail (ErrMsg ("expected Trigger, got " +:+ doc_kind d)) end.
Definition DecodeRepository (d : Document) : res (ObjectMeta * RepositorySpec) :=
  DecodeStrict d ≫= λ d, match doc_spec d with SpecRepository s => ok (doc_meta d, s) | _ => fail (ErrMsg ("expected Repository, got " +:+ doc_kind d)) end.
Definition DecodeAgentProfile (d : Document) : res (ObjectMeta * AgentProfileSpec) :=
  DecodeStrict d ≫= λ d, match doc_spec d with SpecAgentProfile s => ok (doc_meta d, s) | _ => fail (ErrMsg ("expected AgentProfile, got " +:+ doc_kind d)) end.
Definition DecodePluginInstallation (d : Document) : res (ObjectMeta * PluginInstallationSpec) :=
  DecodeStrict d ≫= λ d, match doc_spec d with SpecPluginInstallation s => ok (doc_meta d, s) | _ => fail (ErrMsg ("expected PluginInstallation, got " +:+ doc_kind d)) end.
Definition DecodeSecretRef (d : Document) : res (ObjectMeta * SecretRefSpec) :=
  DecodeStrict d ≫= λ d, match doc_spec d with SpecSecretRef s => ok (doc_meta d, s) | _ => fail (ErrMsg ("expected SecretRef, got " +:+ doc_kind d)) end.
End Validation.

(** ** Server-owned fields *)

Definition WithServerMetadata (m : ObjectMeta) (d : Document) : Document :=
  mkDocument (doc_apiVersion d) m (doc_spec d) (doc_status d).
Definition WithServerStatus (status : list (string * json)) (d : Document) : Document :=
  mkDocument (doc_apiVersion d) (doc_meta d) (doc_spec d) status.

(** ** Properties *)

(** A well-formed document: what [DecodeStrict] accepts unchanged. *)
Definition well_formed {cal : Calendar} (d : Document) : Prop := DecodeStrict d = inr d.

Section Facts.
Context {cal : Calendar}.

Lemma guard_err_ok b e : guard_err b e = inr tt ↔ b = true.
Proof. destruct b; simpl; split; done. Qed.

Lemma DecodeStrict_ok d d' :
  DecodeStrict d = inr d' ↔
  doc_apiVersion d = APIVersion ∧ validateKind (doc_spec d) = inr tt ∧
  ValidateMetadata (doc_meta d') = inr tt ∧
  d' = mkDocument (doc_apiVersion d)
         (if String.eqb (m_namespace (doc_meta d)) "" then set_namespace DefaultNamespace (doc_meta d) else doc_meta d)
         (doc_spec d) (doc_status d).
Proof.
  unfold DecodeStrict. destruct (String.eqb (doc_apiVersion d) APIVersion) eqn:E; simpl.
  - apply String.eqb_eq in E. split.
    + intros H. apply res_bind_ok in H as ([]&Hm&H1). apply res_bind_ok in H1 as ([]&Hk&[= <-]). done.
    + intros (_&Hk&Hm&->). simpl in Hm. unfold mbind, res_bind. by rewrite Hm, Hk.
  - split; [done|]. intros (H&_). by rewrite H, String.eqb_refl in E.
Qed.

(** Decoding is idempotent: what it returns is accepted unchanged. *)
Lemma DecodeStrict_idem d d' : DecodeStrict d = inr d' → well_formed d'.
Proof.
  intros H. apply DecodeStrict_ok in H as (Ha&Hk&Hm&E). unfold well_formed.
  apply DecodeStrict_ok. rewrite E in *; simpl in *. split_and!; try done.
  f_equal. destruct (String.eqb (m_namespace (doc_meta d)) "") eqn:En; simpl; [done|]. by rewrite En.
Qed.

Lemma well_formed_server_status d st : well_formed d → well_formed (WithServerStatus st d).
Proof.
  unfold well_formed. rewrite !DecodeStrict_ok. intros (Ha&Hk&Hm&E).
  destruct d as [a m sp st0]; simpl in *. injection E as E.
  split_and!; try done. unfold WithServerStatus; simpl. by f_equal.
Qed.

Lemma ValidateMetadata_ignores m uid rv g ls :
  ValidateMetadata (mkMeta (m_name m) (m_namespace m) uid rv g ls) = ValidateMetadata m.
Proof. done. Qed.
End Facts.
