(* ===== verification/Plan.v ===== *)
(** [internal/flow/compiler.go], data: diagnostics, bindings and the immutable
    [ExecutionPlan] that the compiler produces, the store pins and the engine
    interprets. *)

From Stdlib Require String.
From S2P Require Import Prelude.
From S2P Require Import Json.

Definition InterpreterVersion : string := "generic-v1".

Record Diagnostic := mkDiag { dg_severity : string; dg_path : string; dg_code : string; dg_message : string }.
Definition SeverityError : string := "error".
Definition SeverityWarning : string := "warning".
(** A composite literal without a severity. *)
Definition diag (path code message : string) : Diagnostic := mkDiag "" path code message.
Definition warning (path code message : string) : Diagnostic := mkDiag SeverityWarning path code message.

Definition IsError (d : Diagnostic) : bool :=
  String.eqb (dg_severity d) "" || String.eqb (dg_severity d) SeverityError.

Fixpoint HasErrors (l : list Diagnostic) : bool :=
  match l with
  | [] => false
  | d :: l => if IsError d then true else HasErrors l
  end.

Record PluginBinding := mkPluginBinding {
  pb_name : string; pb_version : string; pb_digest : string; pb_protocolVersion : Z }.
Record ResourceBinding := mkResourceBinding {
  rb_kind : string; rb_namespace : string; rb_name : string; rb_uid : string;
  rb_resourceVersion : Z; rb_generation : Z; rb_spec : string }.
Record ActionContract := mkContract {
  ac_digest : string; ac_config : string; ac_input : string; ac_output : string }.
Record ActionBinding := mkActionBinding {
  ab_plugin : PluginBinding; ab_contract : ActionContract;
  ab_config : list (string * json); ab_resources : list ResourceBinding }.

Record PlanNode := mkPlanNode {
  pn_id : string; pn_name : string; pn_namespace : string; pn_uses : string;
  pn_with : list (string * json); pn_retryLimit : Z; pn_retryBackoff : string; pn_timeout : string;
  pn_loopMaxIterations : Z; pn_plugin : option PluginBinding; pn_contract : option ActionContract;
  pn_resources : list ResourceBinding }.
Record PlanEdge := mkPlanEdge { pe_from : string; pe_to : string; pe_condition : string }.
Record ExecutionPlan := mkPlan {
  pl_apiVersion : string; pl_flowUID : string; pl_flowGeneration : Z; pl_interpreterVersion : string;
  pl_timeout : string; pl_maxParallel : Z; pl_inputSchema : string;
  pl_nodes : list PlanNode; pl_edges : list PlanEdge; pl_components : list (list string);
  pl_planHash : string }.

#[export] Instance Diagnostic_eq_dec : EqDecision Diagnostic. Proof. solve_decision. Defined.
#[export] Instance PluginBinding_eq_dec : EqDecision PluginBinding. Proof. solve_decision. Defined.
#[export] Instance ResourceBinding_eq_dec : EqDecision ResourceBinding. Proof. solve_decision. Defined.
#[export] Instance ActionContract_eq_dec : EqDecision ActionContract. Proof. solve_decision. Defined.
#[export] Instance PlanNode_eq_dec : EqDecision PlanNode. Proof. solve_decision. Defined.
#[export] Instance PlanEdge_eq_dec : EqDecision PlanEdge. Proof. solve_decision. Defined.
#[export] Instance ExecutionPlan_eq_dec : EqDecision ExecutionPlan. Proof. solve_decision. Defined.

Lemma HasErrors_spec l : HasErrors l = true ↔ ∃ d, d ∈ l ∧ IsError d = true.
Proof.
  induction l as [|d l IH]; simpl.
  - split; [done|]. intros (?&?&_). set_solver.
  - destruct (IsError d) eqn:E.
    + split; [|done]. intros _. exists d. split; [left|done].
    + rewrite IH. split; intros (x&Hx&He); exists x; (split; [|done]).
      * by right.
      * apply elem_of_cons in Hx as [->|Hx]; [congruence|done].
Qed.

Lemma HasErrors_app l k : HasErrors (l ++ k) = HasErrors l || HasErrors k.
Proof. induction l as [|d l IH]; simpl; [done|]. by destruct (IsError d). Qed.
