(* ===== verification/ActionContract.v ===== *)
(** [internal/actioncontract/schema.go]: static inspection and validation of JSON
    Schema contracts.

    The schema library (santhosh-tekuri/jsonschema) is [JsonSchema]: building a
    graph of schema objects from a document, and asserting what the shape check of
    this package leaves over.  Of a schema object the model has the fields this
    package reads; a pointer is the position of an object in the graph.  The loop
    that follows [$ref] does not end when the references form a cycle: [None] is a
    run that does not return, and the fuel, one step per object of the graph,
    suffices for every chain that ends ([ActionContractFacts]).

    Go iterates over maps in an unspecified order; where this shows, in the choice
    of one error among several, the model takes the order of the keys.  The text
    of a decoder's error is not modelled ([decode_error]). *)

From Stdlib Require Import Ascii.
From Stdlib Require String.
From S2P Require Import Prelude.
From S2P Require Import Json.
From S2P Require Import GoStd.

Local Open Scope Z_scope.

(** ** Types *)

Abbreviation Type_ := Z (only parsing).
Definition TypeUnknown : Type_ := 0.
Definition TypeNull : Type_ := Z.shiftl 1 1.
Definition TypeBoolean : Type_ := Z.shiftl 1 2.
Definition TypeInteger : Type_ := Z.shiftl 1 3.
Definition TypeNumber : Type_ := Z.shiftl 1 4.
Definition TypeString : Type_ := Z.shiftl 1 5.
Definition TypeObject : Type_ := Z.shiftl 1 6.
Definition TypeArray : Type_ := Z.shiftl 1 7.

(** [a & b != 0]. *)
Definition overlaps (a b : Z) : bool := negb (Z.land a b =? 0).

Record Violation := mkViolation { vi_path : list string; vi_code : string; vi_message : string }.

Inductive additional :=
  | AdditionalUnset
  | AdditionalBool (allowed : bool)
  | AdditionalSchema (schema : nat).
Record schemaObject := mkSchemaObject {
  so_ref : option nat; so_types : list string; so_properties : gmap string nat; so_additional : additional;
  so_items2020 : option nat; so_items : option nat; so_required : list string }.
(** A compiled contract: the objects and the root. *)
Record Schema := mkSchema { sc_objects : list schemaObject; sc_root : nat }.

Record Resolution := mkResolution {
  rs_schema : option schemaObject; rs_type : Type_; rs_exists : bool; rs_dynamic : bool }.
(** [Resolution{}] and [Resolution{Exists: true, Dynamic: true}]. *)
Definition unresolved : Resolution := mkResolution None TypeUnknown false false.
Definition open_region : Resolution := mkResolution None TypeUnknown true true.

(** The library: [AddResource] and [Compile] of a fresh compiler, and the
    [InstanceLocation] of the error of [Validate]. *)
Class JsonSchema := {
  js_build : json → string + Schema;
  js_validate : Schema → json → option (list string)
}.

(** ** Compile *)

Definition decode_error : string := "invalid JSON".

(** [json.Decoder.Decode]: the first value and the rest of the stream. *)
Definition decode_stream (s : string) : option (json * string) :=
  '(v, rest) ← parse_value (2 * String.length s + 2)%nat s;
  match v, rest with
  | JArr _, _ | JObj _, _ | _, EmptyString => Some (v, rest)
  | _, String c _ => if is_ws c then Some (v, rest) else None
  end.
(** A second [Decode] reports [io.EOF]. *)
Definition at_eof (rest : string) : bool := String.eqb (skip_ws rest) "".

Fixpoint first_error (l : list (option string)) : option string :=
  match l with
  | [] => None
  | Some e :: _ => Some e
  | None :: l => first_error l
  end.

Definition schema_draft (object : list (string * json)) : option string :=
  match obj_get "$schema" object with
  | None => None
  | Some (JStr "https://json-schema.org/draft/2020-12/schema") => None
  | Some _ => Some "$schema must select Draft 2020-12"
  end.
Definition local_reference (object : list (string * json)) (keyword : string) : option string :=
  match obj_get keyword object with
  | None => None
  | Some (JStr reference) =>
      if has_prefix reference "#" then None else Some ("external " +:+ keyword +:+ " values are not allowed")
  | Some _ => Some ("external " +:+ keyword +:+ " values are not allowed")
  end.
Definition schema_keywords : list string :=
  ["additionalProperties"; "unevaluatedProperties"; "unevaluatedItems"; "propertyNames"; "contains"; "items";
   "not"; "if"; "then"; "else"; "contentSchema"].
Definition list_keywords : list string := ["allOf"; "anyOf"; "oneOf"; "prefixItems"].
Definition map_keywords : list string := ["$defs"; "properties"; "patternProperties"; "dependentSchemas"].

(** [None] is [nil].  The three inner functions find the value of a keyword and
    check it as a schema, as a list of schemas and as a map of schemas.  The SDK
    has the same function with its own check [draft] of [$schema]. *)
Fixpoint reject_external (draft : list (string * json) → option string) (value : json) : option string :=
  match value with
  | JObj object =>
      let child := fix child (keyword : string) (m : list (string * json)) : option string :=
        match m with
        | [] => None
        | (k, v) :: m => if decide (keyword = k) then reject_external draft v else child keyword m
        end in
      let children := fix children (keyword : string) (m : list (string * json)) : option string :=
        match m with
        | [] => None
        | (k, v) :: m =>
            if decide (keyword = k)
            then match v with JArr l => first_error (List.map (reject_external draft) l) | _ => None end
            else children keyword m
        end in
      let named := fix named (keyword : string) (m : list (string * json)) : option string :=
        match m with
        | [] => None
        | (k, v) :: m =>
            if decide (keyword = k)
            then match v with JObj o => first_error (List.map (λ kv, reject_external draft kv.2) o) | _ => None end
            else named keyword m
        end in
      first_error ([draft object] ++ (local_reference object <$> ["$ref"; "$dynamicRef"])
        ++ ((λ k, child k object) <$> schema_keywords) ++ ((λ k, children k object) <$> list_keywords)
        ++ ((λ k, named k object) <$> map_keywords))
  | _ => None
  end.
Definition rejectExternalReferences : json → option string := reject_external schema_draft.

Definition Compile `{JsonSchema} (raw : string) : string + Schema :=
  match decode_stream raw with
  | None => inl decode_error
  | Some (document, rest) =>
      if negb (at_eof rest) then inl "schema must contain exactly one JSON value"
      else match rejectExternalReferences document with
           | Some e => inl e
           | None => js_build document
           end
  end.

(** ** Following references *)

(** [None]: does not return; [Some None]: the nil schema. *)
Fixpoint follow (fuel : nat) (objects : list schemaObject) (p : option nat) : option (option schemaObject) :=
  match i ← p; objects !! i with
  | None => Some None
  | Some object =>
      match so_ref object with
      | None => Some (Some object)
      | Some r => match fuel with O => None | S fuel => follow fuel objects (Some r) end
      end
  end.
Definition dereference (s : Schema) (p : option nat) : option (option schemaObject) :=
  follow (length (sc_objects s)) (sc_objects s) p.

Definition type_of_name (name : string) : Type_ :=
  if String.eqb name "null" then TypeNull
  else if String.eqb name "boolean" then TypeBoolean
  else if String.eqb name "integer" then TypeInteger
  else if String.eqb name "number" then TypeNumber
  else if String.eqb name "string" then TypeString
  else if String.eqb name "object" then TypeObject
  else if String.eqb name "array" then TypeArray
  else TypeUnknown.
(** [schemaType] of a schema that is not a reference. *)
Definition types_of (object : schemaObject) : Type_ :=
  fold_left (λ t name, Z.lor t (type_of_name name)) (so_types object) TypeUnknown.
Definition schemaType (s : Schema) (p : option nat) : option Type_ :=
  object ← dereference s p;
  Some (match object with None => TypeUnknown | Some object => types_of object end).
Definition item_schema (object : schemaObject) : option nat :=
  match so_items2020 object with Some i => Some i | None => so_items object end.

(** ** Resolution of a path *)

Fixpoint resolve (s : Schema) (p : option nat) (parts : list string) (dynamic : bool) : option Resolution :=
  schema ← dereference s p;
  match schema with
  | None => Some open_region
  | Some object =>
      let types := types_of object in
      match parts with
      | [] => Some (mkResolution (Some object) types true (dynamic || (types =? TypeUnknown)))
      | part :: parts =>
          if types =? TypeUnknown then Some (mkResolution (Some object) TypeUnknown true true)
          else if overlaps types TypeObject then
            match so_properties object !! part with
            | Some property => resolve s (Some property) parts dynamic
            | None =>
                match so_additional object with
                | AdditionalBool false => Some unresolved
                | AdditionalBool true | AdditionalUnset => Some open_region
                | AdditionalSchema q => resolve s (Some q) parts true
                end
            end
          else if overlaps types TypeArray then
            match atoi part, item_schema object with
            | None, _ => Some unresolved
            | Some _, None => Some open_region
            | Some _, Some item => resolve s (Some item) parts dynamic
            end
          else Some unresolved
      end
  end.

Definition ResolveDot (s : Schema) (parts : list string) : option Resolution := resolve s (Some (sc_root s)) parts false.

(** The decoded tokens of a JSON pointer. *)
Definition unescape_token (part : string) : string := ReplaceAll (ReplaceAll part "~1" "/") "~0" "~".
Definition pointer_tokens (pointer : string) : list string :=
  unescape_token <$> split_on "/"%char (trim_prefix pointer "/").
Definition non_root (pointer : string) : bool := has_prefix pointer "/" && negb (String.eqb pointer "/").

Definition ResolvePointer (s : Schema) (pointer : string) : option Resolution :=
  if non_root pointer then resolve s (Some (sc_root s)) (pointer_tokens pointer) false else Some unresolved.

(** ** Assignability *)

Definition Placeholder (r : Resolution) : json :=
  if overlaps (rs_type r) TypeString then JStr "mapped-value"
  else if overlaps (rs_type r) TypeInteger then JNum "1"
  else if overlaps (rs_type r) TypeNumber then JNum "1"
  else if overlaps (rs_type r) TypeBoolean then JBool false
  else if overlaps (rs_type r) TypeObject then JObj []
  else if overlaps (rs_type r) TypeArray then JArr []
  else if overlaps (rs_type r) TypeNull then JNull
  else JStr "mapped-value".

(** [(compatible, dynamic)] *)
Definition Compatible (source target : Resolution) : bool * bool :=
  if rs_dynamic source || rs_dynamic target || (rs_type source =? TypeUnknown) || (rs_type target =? TypeUnknown)
  then (true, true)
  else
    let accepted := if overlaps (rs_type target) TypeNumber then Z.lor (rs_type target) TypeInteger else rs_type target in
    (Z.ldiff (rs_type source) accepted =? 0, false).

(** ** SetPointer

    The function updates the containers it walks through in place; the new root
    is returned.  Missing and null members of an object become objects. *)

Definition unavailable_index (part : string) : string := "mapping target array index " +:+ quoted part +:+ " is unavailable".
Definition non_container (part : string) : string := "mapping target traverses a non-container at " +:+ quoted part.

(** A failing walk has already created the containers on its way. *)
Fixpoint set_tokens (current : json) (parts : list string) (value : json) : json * option string :=
  match parts with
  | [] => (current, None)
  | part :: rest =>
      match current with
      | JObj container =>
          match rest with
          | [] => (JObj (obj_set part value container), None)
          | _ =>
              let next := match obj_get part container with None | Some JNull => JObj [] | Some next => next end in
              let '(next, e) := set_tokens next rest value in
              (JObj (obj_set part next container), e)
          end
      | JArr container =>
          match atoi part with
          | Some offset =>
              if (offset <? 0) || (Z.of_nat (length container) <=? offset) then (current, Some (unavailable_index part))
              else match rest with
                   | [] => (JArr (<[Z.to_nat offset := value]> container), None)
                   | _ =>
                       let '(next, e) := set_tokens (default JNull (container !! Z.to_nat offset)) rest value in
                       (JArr (<[Z.to_nat offset := next]> container), e)
                   end
          | None => (current, Some (unavailable_index part))
          end
      | _ => (current, Some (non_container part))
      end
  end.
Definition SetPointer (root : list (string * json)) (pointer : string) (value : json) : json * option string :=
  if non_root pointer then set_tokens (JObj root) (pointer_tokens pointer) value
  else (JObj root, Some "mapping target must be a non-root JSON pointer").

(** ** Validate *)

Definition valueType (value : json) : Type_ :=
  match value with
  | JNull => TypeNull
  | JBool _ => TypeBoolean
  | JStr _ => TypeString
  | JNum lit => if atoi lit is Some _ then TypeInteger else TypeNumber
  | JObj _ => TypeObject
  | JArr _ => TypeArray
  end.
Definition valueMatches (got want : Type_) : bool :=
  overlaps got want || ((got =? TypeInteger) && overlaps want TypeNumber).

Definition type_mismatch (path : list string) : Violation :=
  mkViolation path "type_mismatch" "value type is incompatible with the declared schema".
Definition missing_field (path : list string) (required : string) : Violation :=
  mkViolation (path ++ [required]) "required" "required field is missing".
Definition unknown_field (path : list string) (key : string) : Violation :=
  mkViolation (path ++ [key]) "unknown_field" "field is not declared by the closed schema".

(** The schema of a member: [inl] a violation, [inr None] nothing to check. *)
Definition member_schema (object : schemaObject) (key : string) : unit + option nat :=
  match so_properties object !! key with
  | Some child => inr (Some child)
  | None =>
      match so_additional object with
      | AdditionalBool false => inl tt
      | AdditionalBool true | AdditionalUnset => inr None
      | AdditionalSchema q => inr (Some q)
      end
  end.

Fixpoint validateShape (s : Schema) (p : option nat) (value : json) (path : list string) : option (list Violation) :=
  schema ← dereference s p;
  match schema with
  | None => Some []
  | Some object =>
      let want := types_of object in
      if negb (want =? TypeUnknown) && negb (valueMatches (valueType value) want) then Some [type_mismatch path]
      else
        match value with
        | JObj typed =>
            let missing := missing_field path <$> filter (λ r, obj_get r typed = None) (so_required object) in
            members ← (fix members (m : list (string * json)) : option (list Violation) :=
              match m with
              | [] => Some []
              | (key, child) :: m =>
                  here ← match member_schema object key with
                         | inl _ => Some [unknown_field path key]
                         | inr None => Some []
                         | inr (Some q) => validateShape s (Some q) child (path ++ [key])
                         end;
                  there ← members m;
                  Some (here ++ there)
              end) typed;
            Some (missing ++ members)
        | JArr typed =>
            match item_schema object with
            | None => Some []
            | Some item =>
                (fix items (index : Z) (l : list json) : option (list Violation) :=
                  match l with
                  | [] => Some []
                  | child :: l =>
                      here ← validateShape s (Some item) child (path ++ [itoa index]);
                      there ← items (index + 1) l;
                      Some (here ++ there)
                  end) 0 typed
            end
        | _ => Some []
        end
  end.

Definition normalize (value : json) : option json := parse (marshal value).

Definition violation_order : Violation → Violation → comparison :=
  lexc (onc (λ v, join (String zero EmptyString) (vi_path v)) str_cmp) (onc vi_code str_cmp).

Definition Validate `{JsonSchema} (s : Schema) (value : json) : option (list Violation) :=
  match normalize value with
  | None => Some [mkViolation [] "schema_invalid" "value cannot be represented as JSON"]
  | Some normalized =>
      violations ← validateShape s (Some (sc_root s)) normalized [];
      let violations :=
        match violations with
        | [] =>
            match js_validate s normalized with
            | None => []
            | Some path => [mkViolation path "schema_invalid" "value does not satisfy the declared schema"]
            end
        | _ => violations
        end in
      Some (sort_by violation_order violations)
  end.
