(* ===== verification/PluginMapping.v ===== *)
(** [internal/pluginmanager/manager.go], the configuration of an execution:
    templates and mappings are resolved against the run input and the outputs of
    earlier nodes, and the result is checked against the pinned contract.

    Go updates nested objects in place; the functions return the new value, an
    error discards it.  Where the iteration order of a map would select the error,
    the model takes the order of the keys. *)

From Stdlib Require Import Ascii.
From Stdlib Require String.
From S2P Require Import Prelude.
From S2P Require Import Json.
From S2P Require Import GoStd.
From S2P Require Import Plan.
From S2P Require Import ActionContract.

Local Open Scope Z_scope.

Abbreviation config := (list (string * json)).

(** ** Sources *)

(** [map[string]any] as a JSON object. *)
Definition object_of (m : gmap string json) : json := JObj (fold_left (λ o kv, obj_set kv.1 kv.2 o) (map_to_list m) []).

Definition mappingSources (input : string) (nodes : gmap string json) : string + json :=
  let sources decoded := inr (JObj [("input", decoded); ("nodes", object_of nodes)]) in
  if String.eqb input "" then sources JNull
  else match parse input with Some decoded => sources decoded | None => inl "decode mapping input" end.

(** The loop of [lookupMappingValue] over the segments. *)
Fixpoint lookup_segments (current : json) (segments : list string) : string + json :=
  match segments with
  | [] => inr current
  | segment :: segments =>
      match current with
      | JObj value =>
          match obj_get segment value with
          | Some next => lookup_segments next segments
          | None => inl ("field " +:+ quoted segment +:+ " does not exist")
          end
      | JArr value =>
          match atoi segment with
          | Some index =>
              if (index <? 0) || (Z.of_nat (length value) <=? index) then inl ("array index " +:+ quoted segment +:+ " is invalid")
              else lookup_segments (default JNull (value !! Z.to_nat index)) segments
          | None => inl ("array index " +:+ quoted segment +:+ " is invalid")
          end
      | _ => inl ("cannot traverse " +:+ quoted segment)
      end
  end.
Definition lookupMappingValue (root : json) (path : string) : string + json :=
  if String.eqb path "" then inl "source path is empty" else lookup_segments root (split_on "."%char path).

(** ** Targets *)

Fixpoint setPointerValue (current : json) (tokens : list string) (value : json) : string + json :=
  match tokens with
  | [] => inr value
  | token :: rest =>
      match current with
      | JObj typed =>
          match obj_get token typed, rest with
          | None, [] => inr (JObj (obj_set token value typed))
          | child, _ =>
              match setPointerValue (default (JObj []) child) rest value with
              | inl e => inl e
              | inr updated => inr (JObj (obj_set token updated typed))
              end
          end
      | JArr typed =>
          match atoi token with
          | Some index =>
              if (index <? 0) || (Z.of_nat (length typed) <=? index) then inl ("array index " +:+ quoted token +:+ " is invalid")
              else match setPointerValue (default JNull (typed !! Z.to_nat index)) rest value with
                   | inl e => inl e
                   | inr updated => inr (JArr (<[Z.to_nat index := updated]> typed))
                   end
          | None => inl ("array index " +:+ quoted token +:+ " is invalid")
          end
      | _ => inl ("cannot traverse target segment " +:+ quoted token)
      end
  end.
Definition setJSONPointer (root : config) (pointer : string) (value : json) : string + config :=
  if String.eqb pointer "" || negb (has_prefix pointer "/") then inl "target must be a non-empty JSON pointer"
  else match setPointerValue (JObj root) (pointer_tokens pointer) value with
       | inr (JObj m) => inr m
       | inr _ => inr root
       | inl e => inl e
       end.

(** ** Mappings *)

Record valueMapping := mkMapping { vm_from : string; vm_to : string }.

(** encoding/json matches a struct field by name without regard to case. *)
Definition lower (c : ascii) : ascii := if is_upper c then ascii_of_N (N_of_ascii c + 32) else c.
Definition fold_name (s : string) : string := implode (List.map lower (explode s)).
(** One member of a strictly decoded mapping. *)
Definition decode_member (m : valueMapping) (kv : string * json) : option valueMapping :=
  let set (v : option string) : option valueMapping :=
    if String.eqb (fold_name kv.1) "from" then Some (mkMapping (default (vm_from m) v) (vm_to m))
    else if String.eqb (fold_name kv.1) "to" then Some (mkMapping (vm_from m) (default (vm_to m) v))
    else None in
  match kv.2 with JStr s => set (Some s) | JNull => set None | _ => None end.
Fixpoint decode_members (m : valueMapping) (fields : config) : option valueMapping :=
  match fields with
  | [] => Some m
  | kv :: fields => m ← decode_member m kv; decode_members m fields
  end.
Definition decode_mapping (item : json) : option valueMapping :=
  match item with
  | JObj fields => decode_members (mkMapping "" "") fields
  | JNull => Some (mkMapping "" "")
  | _ => None
  end.
Definition decode_mappings (raw : json) : option (list valueMapping) :=
  match raw with
  | JArr items => mapM decode_mapping items
  | JNull => Some []
  | _ => None
  end.

Fixpoint apply_each (sources : json) (index : nat) (mappings : list valueMapping) (c : config) : string + config :=
  match mappings with
  | [] => inr c
  | m :: mappings =>
      match lookupMappingValue sources (vm_from m) with
      | inl e => inl ("mapping " +:+ itoa (Z.of_nat index) +:+ " from " +:+ quoted (vm_from m) +:+ ": " +:+ e)
      | inr value =>
          match setJSONPointer c (vm_to m) value with
          | inl e => inl ("mapping " +:+ itoa (Z.of_nat index) +:+ " to " +:+ quoted (vm_to m) +:+ ": " +:+ e)
          | inr c => apply_each sources (S index) mappings c
          end
      end
  end.
Definition applyMappings (c : config) (input : string) (nodes : gmap string json) : string + config :=
  match obj_get "mappings" c with
  | None => inr c
  | Some raw =>
      let c := obj_delete "mappings" c in
      match decode_mappings raw with
      | None => inl "decode mappings"
      | Some mappings =>
          match mappingSources input nodes with
          | inl e => inl e
          | inr sources => apply_each sources 0 mappings c
          end
      end
  end.

(** ** Templates *)

Definition brace (c : ascii) : bool := Ascii.eqb c "{" || Ascii.eqb c "}".
(** The longest run without braces. *)
Fixpoint plain_run (l : list ascii) : list ascii * list ascii :=
  match l with
  | c :: l' => if brace c then ([], l) else let '(run, rest) := plain_run l' in (c :: run, rest)
  | [] => ([], [])
  end.
(** [\$\{([^{}]+)\}] at the head of the text: the path and what follows. *)
Definition template_at (l : list ascii) : option (string * list ascii) :=
  match l with
  | d :: o :: l =>
      if Ascii.eqb d "$" && Ascii.eqb o "{" then
        match plain_run l with
        | (c :: run, close :: rest) => if Ascii.eqb close "}" then Some (implode (c :: run), rest) else None
        | _ => None
        end
      else None
  | _ => None
  end.
(** One expression: its text, or the match itself and the error. *)
Definition render_path (sources : json) (path : string) : string * option string :=
  match lookupMappingValue sources path with
  | inl e => ("${" +:+ path +:+ "}", Some e)
  | inr (JStr text) => (text, None)
  | inr resolved => (marshal resolved, None)
  end.
(** [ReplaceAllStringFunc]; [renderErr] is the last error.  Every step consumes
    a character. *)
Fixpoint render_text (fuel : nat) (sources : json) (l : list ascii) (e : option string) : string * option string :=
  match fuel, l with
  | S fuel, c :: rest =>
      match template_at l with
      | Some (path, rest) =>
          let '(text, e1) := render_path sources path in
          let '(tail, e2) := render_text fuel sources rest (match e1 with Some _ => e1 | None => e end) in
          (text +:+ tail, e2)
      | None => let '(tail, e2) := render_text fuel sources rest e in (String c tail, e2)
      end
  | _, _ => ("", e)
  end.

Fixpoint renderValue (value : json) (sources : json) : string + json :=
  match value with
  | JStr typed =>
      match render_text (String.length typed) sources (explode typed) None with
      | (rendered, None) => inr (JStr rendered)
      | (_, Some e) => inl e
      end
  | JObj typed =>
      (fix fields (m done : list (string * json)) : string + json :=
        match m with
        | [] => inr (JObj (rev done))
        | (key, child) :: m =>
            match renderValue child sources with
            | inl e => inl e
            | inr rendered => fields m ((key, rendered) :: done)
            end
        end) typed []
  | JArr typed =>
      (fix items (l done : list json) : string + json :=
        match l with
        | [] => inr (JArr (rev done))
        | child :: l =>
            match renderValue child sources with
            | inl e => inl e
            | inr rendered => items l (rendered :: done)
            end
        end) typed []
  | _ => inr value
  end.
Fixpoint render_fields (fields done : config) (sources : json) : string + config :=
  match fields with
  | [] => inr (rev done)
  | (key, value) :: fields =>
      match renderValue value sources with
      | inl e => inl ("render config " +:+ key +:+ ": " +:+ e)
      | inr rendered => render_fields fields ((key, rendered) :: done) sources
      end
  end.
Definition renderConfigTemplates (c : config) (input : string) (nodes : gmap string json) : string + config :=
  match mappingSources input nodes with
  | inl e => inl e
  | inr sources => render_fields c [] sources
  end.

(** ** The pinned contract *)

Inductive contractPart := PartConfig | PartInput | PartOutput.
Definition part_name (p : contractPart) : string :=
  match p with PartConfig => "config" | PartInput => "input" | PartOutput => "output" end.
Definition part_schema (c : ActionContract) (p : contractPart) : string :=
  match p with PartConfig => ac_config c | PartInput => ac_input c | PartOutput => ac_output c end.

(** [None] does not return, see [ActionContract]. *)
Definition validatePinnedValue `{JsonSchema} (node : PlanNode) (part : contractPart) (value : json) : option (string + unit) :=
  match pn_contract node with
  | None => Some (inr tt)
  | Some contract =>
      match Compile (part_schema contract part) with
      | inl _ => Some (inl ("pinned " +:+ part_name part +:+ " schema is invalid"))
      | inr schema =>
          violations ← Validate schema value;
          Some match violations with
          | [] => inr tt
          | v :: _ =>
              let path := match vi_path v with [] => part_name part | p => part_name part +:+ "." +:+ join "." p end in
              inl (path +:+ " violates pinned action schema (" +:+ vi_code v +:+ ")")
          end
      end
  end.
Definition validatePinnedJSON `{JsonSchema} (node : PlanNode) (part : contractPart) (raw : string) : option (string + unit) :=
  match parse (if String.eqb raw "" then "{}" else raw) with
  | None => Some (inl (part_name part +:+ " is not valid JSON"))
  | Some value => validatePinnedValue node part value
  end.

Example render_example :
  let nodes : gmap string json := <["build" := mkobj [("image", JStr "app:1"); ("size", JNum "3")]]> ∅ in
  renderConfigTemplates [("image", JStr "${nodes.build.image}-${input.env} x${}"); ("n", JArr [JStr "${nodes.build.size}"])]
    (marshal (mkobj [("env", JStr "prod")])) nodes
  = inr [("image", JStr "app:1-prod x${}"); ("n", JArr [JStr "3"])].
Proof. vm_compute. reflexivity. Qed.
