(* ===== verification/ResourceJson.v ===== *)
(** The JSON of resource specs: [Document.Spec], the text [json.Marshal] gives the
    typed structs of [internal/resource/resource.go] (fields in the order of the
    struct, [omitempty] as tagged), and its decoding back into the specs that
    execution plans pin. *)

From Stdlib Require Import Ascii.
From Stdlib Require String.
From S2P Require Import Prelude.
From S2P Require Import Json.
From S2P Require Import GoStd.
From S2P Require Import JsonPlain.
From S2P Require Import JsonRound.
From S2P Require Import Resource.
From S2P Require Import PluginMapping.

Local Open Scope Z_scope.

(** ** Encoding *)

(** A field tagged [omitempty] is left out when its value is empty. *)
Definition omit_str (key value : string) : config := if String.eqb value "" then [] else [(key, JStr value)].
Definition omit_int (key : string) (value : Z) : config := if value =? 0 then [] else [(key, JNum (itoa value))].
Definition omit_map (key : string) (m : config) : config := match m with [] => [] | _ => [(key, JObj m)] end.
Definition omit_list (key : string) (l : list json) : config := match l with [] => [] | _ => [(key, JArr l)] end.
Definition omit_ptr {A} (key : string) (f : A → json) (o : option A) : config := match o with Some a => [(key, f a)] | None => [] end.
Definition string_map (m : gmap string string) : config :=
  List.map (λ kv, (kv.1, JStr kv.2)) (sort_by (onc fst str_cmp) (map_to_list m)).

Definition policies_json (p : Policies) : json := JObj (omit_str "timeout" (p_timeout p) ++ omit_int "maxParallel" (p_maxParallel p)).
Definition retry_json (r : RetryPolicy) : json := JObj (omit_int "limit" (r_limit r) ++ omit_str "backoff" (r_backoff r)).
Definition loop_json (l : LoopPolicy) : json := JObj [("maxIterations", JNum (itoa (l_maxIterations l)))].
Definition node_json (n : FlowNode) : json :=
  JObj ([("id", JStr (n_id n))] ++ omit_str "name" (n_name n) ++ [("uses", JStr (n_uses n))] ++ omit_map "with" (n_with n)
    ++ omit_ptr "retry" retry_json (n_retry n) ++ omit_str "timeout" (n_timeout n) ++ omit_ptr "loop" loop_json (n_loop n)).
Definition edge_json (e : FlowEdge) : json :=
  JObj ([("from", JStr (e_from e)); ("to", JStr (e_to e))] ++ omit_str "when" (e_when e)).
Definition flow_fields (s : FlowSpec) : config :=
  omit_map "inputs" (f_inputs s) ++ omit_map "inputSchema" (f_inputSchema s) ++ [("policies", policies_json (f_policies s))]
  ++ [("nodes", JArr (node_json <$> f_nodes s))] ++ omit_list "edges" (edge_json <$> f_edges s).
Definition schedule_json (s : ScheduleTrigger) : json :=
  JObj ([("cron", JStr (s_cron s))] ++ omit_str "timezone" (s_timezone s) ++ omit_str "misfirePolicy" (s_misfirePolicy s)
    ++ omit_str "startingDeadline" (s_startingDeadline s) ++ omit_str "concurrencyPolicy" (s_concurrencyPolicy s)).
Definition webhook_json (w : WebhookTrigger) : json := JObj [("bearerSecretRef", JStr (w_bearerSecretRef w))].
Definition provider_json (p : ProviderTrigger) : json :=
  JObj ([("plugin", JStr (pr_plugin p))] ++ omit_str "source" (pr_source p) ++ omit_map "config" (pr_config p)).
Definition delivery_json (d : TriggerDelivery) : json := JObj (omit_str "mode" (d_mode d) ++ omit_str "node" (d_node d)).
Definition trigger_fields (t : TriggerSpec) : config :=
  [("flow", JStr (t_flow t))] ++ omit_ptr "enabled" JBool (t_enabled t) ++ omit_ptr "schedule" schedule_json (t_schedule t)
  ++ omit_ptr "webhook" webhook_json (t_webhook t) ++ omit_ptr "provider" provider_json (t_provider t)
  ++ omit_ptr "delivery" delivery_json (t_delivery t).
Definition repository_fields (r : RepositorySpec) : config :=
  [("cloneURL", JStr (rp_cloneURL r))] ++ omit_str "defaultBranch" (rp_defaultBranch r)
  ++ omit_str "workspacePolicy" (rp_workspacePolicy r) ++ omit_str "authSecretRef" (rp_authSecretRef r).
Definition profile_fields (a : AgentProfileSpec) : config :=
  [("type", JStr (a_type a))] ++ omit_str "executable" (a_executable a) ++ omit_list "args" (JStr <$> a_args a)
  ++ omit_str "model" (a_model a) ++ omit_str "profile" (a_profile a) ++ omit_str "effort" (a_effort a)
  ++ omit_str "sandbox" (a_sandbox a) ++ omit_map "environment" (string_map (a_environment a))
  ++ omit_list "secretRefs" (JStr <$> a_secretRefs a).
Definition installation_fields (p : PluginInstallationSpec) : config :=
  [("plugin", JStr (pi_plugin p)); ("version", JStr (pi_version p)); ("digest", JStr (pi_digest p))]
  ++ omit_ptr "enabled" JBool (pi_enabled p).
Definition secret_fields (s : SecretRefSpec) : config := [("backend", JStr (sr_backend s)); ("key", JStr (sr_key s))].

Definition spec_fields (s : Spec) : config :=
  match s with
  | SpecFlow s => flow_fields s | SpecTrigger t => trigger_fields t | SpecRepository r => repository_fields r
  | SpecAgentProfile a => profile_fields a | SpecPluginInstallation p => installation_fields p | SpecSecretRef s => secret_fields s
  end.
(** [Document.Spec]. *)
Definition spec_text (s : Spec) : string := marshal (JObj (spec_fields s)).

(** ** Decoding *)

(** [json.Unmarshal] into a struct: the member named so, without regard to case;
    [null] leaves the zero value. *)
Definition member (key : string) (m : config) : json :=
  match obj_get key m with
  | Some v => v
  | None => match List.find (λ kv, String.eqb (fold_name kv.1) (fold_name key)) m with Some kv => kv.2 | None => JNull end
  end.
Definition str_member (key : string) (m : config) : option string :=
  match member key m with JStr s => Some s | JNull => Some "" | _ => None end.
Definition as_string (v : json) : option string := match v with JStr s => Some s | JNull => Some "" | _ => None end.
Definition strs_member (key : string) (m : config) : option (list string) :=
  match member key m with JArr l => mapM as_string l | JNull => Some [] | _ => None end.
Definition strmap_member (key : string) (m : config) : option (gmap string string) :=
  match member key m with
  | JObj l => l ← mapM (λ kv, v ← as_string kv.2; Some (kv.1, v)) l; Some (list_to_map l)
  | JNull => Some ∅
  | _ => None
  end.
Definition decode_fields (raw : string) : option config :=
  match parse raw with Some (JObj m) => Some m | Some JNull => Some [] | _ => None end.

Definition decode_secret_spec (raw : string) : option SecretRefSpec :=
  m ← decode_fields raw;
  backend ← str_member "backend" m; key ← str_member "key" m;
  Some (mkSecretRef backend key).
Definition decode_profile_spec (raw : string) : option AgentProfileSpec :=
  m ← decode_fields raw;
  type ← str_member "type" m; executable ← str_member "executable" m; args ← strs_member "args" m;
  model ← str_member "model" m; profile ← str_member "profile" m; effort ← str_member "effort" m;
  sandbox ← str_member "sandbox" m; environment ← strmap_member "environment" m; secretRefs ← strs_member "secretRefs" m;
  Some (mkAgentProfile type executable args model profile effort sandbox environment secretRefs).

(** ** Round trips *)

Lemma sublist_nodup {A} (l k : list A) : l `sublist_of` k → NoDup k → NoDup l.
Proof.
  induction 1 as [|x l k Hs IH|x l k Hs IH]; intros Hn; [done| |]; apply NoDup_cons in Hn as [Hx Hn]; [|auto].
  constructor; [|auto]. intros Hin. apply Hx. by eapply elem_of_sublist.
Qed.

(** Members of a decoded struct whose fields are among [names]. *)
Section Members.
Context (names : list string) (Hnames : NoDup (fold_name <$> names)) (m : config) (Hm : m.*1 `sublist_of` names).

Lemma names_fold a b : a ∈ names → b ∈ names → fold_name a = fold_name b → a = b.
Proof.
  intros Ha Hb E. apply list_elem_of_lookup in Ha as [i Hi], Hb as [j Hj].
  assert (i = j) as ->; [|congruence]. apply (NoDup_lookup _ i j (fold_name a) Hnames); rewrite list_lookup_fmap, ?Hi, ?Hj; cbn; congruence.
Qed.
Lemma member_mkobj key : key ∈ names → ∃ fields, mkobj m = JObj fields ∧ member key fields = default JNull (obj_get key m).
Proof.
  intros Hkey. eexists. split; [reflexivity|]. unfold member.
  assert (Hn : NoDup m.*1).
  { eapply sublist_nodup; [exact Hm|]. by eapply NoDup_fmap_1. }
  rewrite obj_get_fold by done. cbn [obj_get]. destruct (obj_get key m) as [v|] eqn:E; [done|].
  destruct (List.find _ _) as [kv|] eqn:Ef; [|done]. exfalso. apply List.find_some in Ef as [Hin Heq%String.eqb_eq].
  apply list_elem_of_In in Hin. assert (kv.1 ∈ m.*1) as Hk.
  { destruct (fold_keys kv.1 m []) as [?|?]; [|done|]; [apply list_elem_of_fmap; by exists kv|by apply elem_of_nil in H]. }
  assert (kv.1 = key) as Ek by (apply names_fold; [by eapply elem_of_sublist|done|done]). subst key.
  apply list_elem_of_fmap in Hk as ([k w]&Ek&Hk). cbn in Ek. clear -E Ek Hk. rewrite Ek in E.
  induction m as [|[k2 w2] m' IH]; [by apply elem_of_nil in Hk|]. cbn [obj_get] in E. case_decide; [done|].
  apply elem_of_cons in Hk as [Hk|Hk]; [congruence|auto].
Qed.
End Members.

Lemma omit_str_keys key v : (omit_str key v).*1 `sublist_of` [key].
Proof. unfold omit_str. destruct (String.eqb v ""); cbn; [apply sublist_nil_l|done]. Qed.
Lemma omit_map_keys key v : (omit_map key v).*1 `sublist_of` [key].
Proof. unfold omit_map. destruct v; cbn; [apply sublist_nil_l|done]. Qed.
Lemma omit_list_keys key v : (omit_list key v).*1 `sublist_of` [key].
Proof. unfold omit_list. destruct v; cbn; [apply sublist_nil_l|done]. Qed.

(** What a member is read as: present or omitted. *)
Lemma get_omit_str k key v : obj_get k (omit_str key v) = if decide (k = key) then (if String.eqb v "" then None else Some (JStr v)) else None.
Proof. unfold omit_str. destruct (String.eqb v ""); cbn; by case_decide. Qed.
Lemma get_omit_map k key v : obj_get k (omit_map key v) = if decide (k = key) then (match v with [] => None | _ => Some (JObj v) end) else None.
Proof. unfold omit_map. destruct v; cbn; by case_decide. Qed.
Lemma get_omit_list k key v : obj_get k (omit_list key v) = if decide (k = key) then (match v with [] => None | _ => Some (JArr v) end) else None.
Proof. unfold omit_list. destruct v; cbn; by case_decide. Qed.

Lemma string_map_sorted m : StronglySorted (cmp_lt (onc fst str_cmp)) (sort_by (onc fst str_cmp) (map_to_list (m : gmap string string))).
Proof.
  assert (Hn : NoDup (sort_by (onc fst str_cmp) (map_to_list m)).*1) by (rewrite sort_by_perm; apply NoDup_fst_map_to_list).
  pose proof (sort_by_sorted (onc fst str_cmp) (map_to_list m)) as Hs. revert Hn Hs.
  induction (sort_by (onc fst str_cmp) (map_to_list m)) as [|x l IH]; intros Hn Hs; [constructor|].
  rewrite fmap_cons in Hn. apply NoDup_cons in Hn as [Hx Hn]. apply StronglySorted_inv in Hs as [Hs Hle]. constructor; [auto|].
  rewrite Forall_forall in Hle |- *. intros y Hy. specialize (Hle y Hy). unfold cmp_le, cmp_lt, onc in *.
  destruct (str_cmp x.1 y.1) eqn:E; [|done|done]. exfalso. apply str_cmp_eq in E. apply Hx. rewrite E. by apply list_elem_of_fmap_2.
Qed.
Lemma string_map_canonical m : canonical (JObj (string_map m)) = true.
Proof.
  cbn [canonical]. apply andb_true_intro. split.
  - unfold string_map. pose proof (string_map_sorted m) as Hs. induction Hs as [|x l Hs IH Hx]; [done|]. cbn [List.map increasing fst].
    apply andb_true_intro. split; [|exact IH]. apply forallb_forall. intros kv Hin. apply List.in_map_iff in Hin as (y&<-&Hy).
    apply list_elem_of_In in Hy. rewrite Forall_forall in Hx. apply str_lt_spec. exact (Hx y Hy).
  - apply forallb_forall. intros kv Hin. by apply List.in_map_iff in Hin as (y&<-&_).
Qed.
Lemma mapM_string_map (l : list (string * string)) :
  mapM (λ kv, v ← as_string kv.2; Some (kv.1, v)) (List.map (λ kv, (kv.1, JStr kv.2)) l) = Some l.
Proof. induction l as [|[k v] l IH]; [done|]. cbn [List.map mapM]. cbn. by rewrite IH. Qed.
Lemma mapM_as_string l : mapM as_string (JStr <$> l) = Some l.
Proof. induction l as [|s l IH]; [done|]. cbn. by rewrite IH. Qed.
Lemma list_to_map_sorted (m : gmap string string) : list_to_map (sort_by (onc fst str_cmp) (map_to_list m)) = m.
Proof.
  rewrite <- (list_to_map_to_list m) at 2. apply list_to_map_proper; [rewrite sort_by_perm; apply NoDup_fst_map_to_list|apply sort_by_perm].
Qed.

Lemma decode_secret_spec_text s : decode_secret_spec (spec_text (SpecSecretRef s)) = Some s.
Proof.
  unfold decode_secret_spec, decode_fields, spec_text. rewrite parse_object_text by done. destruct s. cbn. reflexivity.
Qed.

Definition profile_names : list string :=
  ["type"; "executable"; "args"; "model"; "profile"; "effort"; "sandbox"; "environment"; "secretRefs"].
Lemma profile_keys a : (profile_fields a).*1 `sublist_of` profile_names.
Proof.
  unfold profile_fields, profile_names. rewrite !fmap_app.
  repeat (change (?x :: ?y :: ?l) with ([x] ++ (y :: l)); apply sublist_app; [cbn; auto using omit_str_keys, omit_map_keys, omit_list_keys|]).
  apply omit_list_keys.
Qed.
Lemma profile_members a key : key ∈ profile_names → ∃ fields,
  mkobj (profile_fields a) = JObj fields ∧ member key fields = default JNull (obj_get key (profile_fields a)).
Proof. apply member_mkobj; [|apply profile_keys]. apply (bool_decide_unpack _). vm_compute. exact I. Qed.

Lemma omit_canonical key v l m :
  forallb (λ kv, canonical kv.2) (omit_str key v) = true ∧
  (forallb canonical l = true → forallb (λ kv, canonical kv.2) (omit_list key l) = true) ∧
  (canonical (JObj m) = true → forallb (λ kv, canonical kv.2) (omit_map key m) = true).
Proof.
  unfold omit_str, omit_list, omit_map. split_and!.
  - by destruct (String.eqb v "").
  - destruct l; [done|]. cbn [forallb snd canonical]. by intros ->.
  - destruct m; [done|]. cbn [forallb snd]. by intros ->.
Qed.
Lemma profile_canonical a : forallb (λ kv, canonical kv.2) (profile_fields a) = true.
Proof.
  assert (Hs : ∀ l, forallb canonical (JStr <$> l) = true) by (intros l; apply forallb_forall; intros x Hx; apply List.in_map_iff in Hx as (y&<-&_); done).
  unfold profile_fields. rewrite !forallb_app.
  rewrite !(proj1 (omit_canonical _ _ [] [])), !(proj1 (proj2 (omit_canonical _ "" _ []))) by apply Hs.
  by rewrite (proj2 (proj2 (omit_canonical _ "" [] _))) by apply string_map_canonical.
Qed.

Lemma decode_profile_spec_text a : decode_profile_spec (spec_text (SpecAgentProfile a)) = Some a.
Proof.
  unfold decode_profile_spec, decode_fields, spec_text. rewrite parse_object_text by apply profile_canonical.
  destruct (profile_members a "type" ltac:(by left)) as (m&Em&_). cbn [spec_fields]. rewrite Em. cbn [mbind option_bind].
  assert (Hm : ∀ key, key ∈ profile_names → member key m = default JNull (obj_get key (profile_fields a))).
  { intros key Hk. destruct (profile_members a key Hk) as (m'&Em'&H). rewrite Em in Em'. injection Em' as <-. exact H. }
  unfold str_member, strs_member, strmap_member. rewrite !Hm by (apply (bool_decide_unpack _); vm_compute; exact I).
  unfold profile_fields. rewrite !obj_get_app, !get_omit_str, !get_omit_map, !get_omit_list. cbn [obj_get].
  repeat match goal with |- context [decide (?x = ?y)] => first [rewrite (decide_True (P:=x = y)) by reflexivity|rewrite (decide_False (P:=x = y)) by discriminate] end.
  destruct a as [ty ex args mo pr ef sa env refs]. cbn [a_type a_executable a_args a_model a_profile a_effort a_sandbox a_environment a_secretRefs].
  assert (Hstr : ∀ v, match default JNull (if String.eqb v "" then None else Some (JStr v)) with JStr s => Some s | JNull => Some "" | _ => None end = Some v).
  { intros v. destruct (String.eqb_spec v "") as [->|]; done. }
  assert (Hlist : ∀ l, match default JNull (match JStr <$> l with [] => None | _ => Some (JArr (JStr <$> l)) end) with
    JArr l => mapM as_string l | JNull => Some [] | _ => None end = Some l).
  { intros [|s l]; [done|]. cbn [default]. change (match JStr <$> s :: l with [] => None | _ => Some (JArr (JStr <$> s :: l)) end) with (Some (JArr (JStr <$> s :: l))).
    cbn [default from_option id]. apply (mapM_as_string (s :: l)). }
  assert (Henv : match default JNull (match string_map env with [] => None | _ => Some (JObj (string_map env)) end) with
    JObj l => l ← mapM (λ kv, v ← as_string kv.2; Some (kv.1, v)) l; Some (list_to_map l) | JNull => Some ∅ | _ => None end = Some env).
  { destruct (string_map env) as [|x l] eqn:E.
    - cbn. f_equal. symmetry. unfold string_map in E. apply List.map_eq_nil in E. rewrite <- (list_to_map_sorted env), E. done.
    - cbn [default from_option id]. rewrite <- E. unfold string_map. cbn [id]. rewrite mapM_string_map. cbn [mbind option_bind]. by rewrite list_to_map_sorted. }
  assert (Heta : ∀ o : option json, match o with Some v => Some v | None => None end = o) by (by intros []).
  change (match default JNull (Some (JStr ty)) with JStr s => Some s | JNull => Some "" | _ => None end) with (Some ty).
  cbn [mbind option_bind].
  repeat (rewrite ?Heta; first [rewrite Hstr|rewrite Hlist|rewrite Henv]; cbn [mbind option_bind]). done.
Qed.
