(* ===== verification/References.v ===== *)
(** [internal/references/resolver.go]: the cross-resource references of a
    document, their diagnostics and the Ready condition projected from them.

    The resource lookup is the store's [Get]; the validation of a provider's
    contract is the interface [ProviderValidator], which the plugin manager
    implements. *)

From Stdlib Require Import Ascii.
From Stdlib Require String.
From S2P Require Import Prelude.
From S2P Require Import Json.
From S2P Require Import GoStd.
From S2P Require Import Resource.
From S2P Require Import Plan.

Local Open Scope Z_scope.

(** [Lookup.Get]: kind, namespace, name. *)
Abbreviation Lookup := (string → string → string → res Document).
(** [ValidateTriggerProvider]: namespace, plugin, source, config. *)
Abbreviation ProviderValidator := (string → string → string → list (string * json) → list Diagnostic).

Record Resolver := mkResolver { rv_resources : option Lookup; rv_providers : option ProviderValidator }.

Definition Supports (kind : string) : bool :=
  String.eqb kind "Trigger" || String.eqb kind "Repository" || String.eqb kind "AgentProfile".

(** [strings.SplitN(s, "=", 2)]. *)
Fixpoint cut_equals (s : string) : option (string * string) :=
  match s with
  | EmptyString => None
  | String c s => if Ascii.eqb c "="%char then Some ("", s) else '(a, b) ← cut_equals s; Some (String c a, b)
  end.
Definition secretName (binding : string) : string :=
  match cut_equals binding with Some (_, name) => trim_space name | None => trim_space binding end.

Section Diagnostics.
Context {cal : Calendar} (r : Resolver).

Definition require (namespace kind name path : string) : list Diagnostic :=
  if String.eqb (trim_space name) "" then [diag path "invalid_reference" (kind +:+ " reference must contain a resource name")]
  else match rv_resources r with
  | None => [diag path "reference_unavailable" "resource reference validation is unavailable"]
  | Some get =>
      match get kind namespace name with
      | inr _ => []
      | inl ErrNotFound =>
          [diag path "reference_not_found" (kind +:+ " " +:+ quoted name +:+ " is not available in namespace " +:+ quoted namespace)]
      | inl _ => [diag path "reference_unavailable" (kind +:+ " reference state is temporarily unavailable")]
      end
  end.

Definition signalTarget (namespace flowName nodeID : string) : list Diagnostic :=
  let path := "spec.delivery.node" in
  match rv_resources r with
  | None => []
  | Some get =>
      if String.eqb (trim_space flowName) "" then [] else
      match get "Flow" namespace flowName with
      | inl ErrNotFound => []
      | inl _ => [diag path "reference_unavailable" "Flow signal target state is temporarily unavailable"]
      | inr document =>
          match DecodeFlow document with
          | inl _ => [diag path "invalid_reference" "referenced Flow cannot be decoded"]
          | inr definition =>
              match List.find (λ n, String.eqb (n_id n) nodeID) (f_nodes definition.2) with
              | Some node =>
                  if String.eqb (n_uses node) "core.event" then []
                  else [diag path "invalid_reference" ("Flow node " +:+ quoted nodeID +:+ " must use core.event")]
              | None =>
                  [diag path "reference_not_found" ("Flow node " +:+ quoted nodeID +:+ " is not available in Flow " +:+ quoted flowName)]
              end
          end
      end
  end.

Definition relocated (d : Diagnostic) : Diagnostic :=
  mkDiag (dg_severity d) ("spec.provider." +:+ trim_prefix (dg_path d) ".") (dg_code d) (dg_message d).
Definition trigger_diagnostics (namespace : string) (trigger : TriggerSpec) : list Diagnostic :=
  require namespace "Flow" (t_flow trigger) "spec.flow"
  ++ match t_delivery trigger with
     | Some delivery => if String.eqb (d_mode delivery) "signal" then signalTarget namespace (t_flow trigger) (d_node delivery) else []
     | None => []
     end
  ++ match t_webhook trigger with
     | Some webhook => require namespace "SecretRef" (w_bearerSecretRef webhook) "spec.webhook.bearerSecretRef"
     | None => []
     end
  ++ match t_provider trigger with
     | Some provider =>
         match rv_providers r with
         | None => [diag "spec.provider.plugin" "provider_unavailable" "provider validation is unavailable"]
         | Some validate => relocated <$> validate namespace (pr_plugin provider) (pr_source provider) (pr_config provider)
         end
     | None => []
     end.
Definition profile_binding (namespace : string) (index : nat) (binding : string) : list Diagnostic :=
  let path := "spec.secretRefs[" +:+ itoa (Z.of_nat index) +:+ "]" in
  if String.eqb (secretName binding) "" then [diag path "invalid_reference" "SecretRef binding must contain a resource name"]
  else require namespace "SecretRef" (secretName binding) path.

Definition undecodable (kind : string) : list Diagnostic := [diag "spec" "invalid" (kind +:+ " cannot be decoded")].
(** Path, then code. *)
Definition diagnostic_order : Diagnostic → Diagnostic → comparison := lexc (onc dg_path str_cmp) (onc dg_code str_cmp).

Definition Diagnostics (document : Document) : list Diagnostic :=
  let namespace := if String.eqb (m_namespace (doc_meta document)) "" then DefaultNamespace else m_namespace (doc_meta document) in
  match doc_spec document with
  | SpecTrigger _ =>
      match DecodeTrigger document with
      | inl _ => undecodable "Trigger"
      | inr trigger => sort_by diagnostic_order (trigger_diagnostics namespace trigger.2)
      end
  | SpecRepository _ =>
      match DecodeRepository document with
      | inl _ => undecodable "Repository"
      | inr repository =>
          sort_by diagnostic_order
            (if String.eqb (rp_authSecretRef repository.2) "" then []
             else require namespace "SecretRef" (rp_authSecretRef repository.2) "spec.authSecretRef")
      end
  | SpecAgentProfile _ =>
      match DecodeAgentProfile document with
      | inl _ => undecodable "AgentProfile"
      | inr profile => sort_by diagnostic_order (mjoin (imap (profile_binding namespace) (a_secretRefs profile.2)))
      end
  | _ => []
  end.
End Diagnostics.

(** ** The Ready condition *)

Definition failure_reason (code : string) : string :=
  if String.eqb code "reference_not_found" then "MissingReference"
  else if String.eqb code "provider_unavailable" then "ProviderUnavailable" else "ValidationFailed".
(** Status, reason and message. *)
Definition readiness (diagnostics : list Diagnostic) : string * string * string :=
  match List.find IsError diagnostics with
  | Some d => ("False", failure_reason (dg_code d), dg_message d)
  | None =>
      match diagnostics with
      | d :: _ => ("True", "ValidationWarnings", dg_message d)
      | [] => ("True", "ReferencesResolved", "all required references are available")
      end
  end.
Definition Status (document : Document) (diagnostics : list Diagnostic) : list (string * json) :=
  let '(ready, reason, message) := readiness diagnostics in
  let condition := mkobj [("type", JStr "Ready"); ("status", JStr ready); ("reason", JStr reason); ("message", JStr message);
                          ("observedGeneration", JNum (itoa (m_generation (doc_meta document))))] in
  let projected := List.map (λ d, mkobj [("path", JStr (dg_path d)); ("code", JStr (dg_code d)); ("message", JStr (dg_message d))]) diagnostics in
  match diagnostics with
  | [] => [("conditions", JArr [condition])]
  | _ => [("conditions", JArr [condition]); ("diagnostics", JArr projected)]
  end.

(** ** Specification *)

(** What has to exist for the references of a document to resolve. *)
Definition available (get : Lookup) (namespace kind name : string) : Prop :=
  trim_space name ≠ "" ∧ ∃ document, get kind namespace name = inr document.
Definition signal_node {cal : Calendar} (get : Lookup) (namespace flowName nodeID : string) : Prop :=
  ∃ document definition node, get "Flow" namespace flowName = inr document ∧ DecodeFlow document = inr definition ∧
    List.find (λ n, String.eqb (n_id n) nodeID) (f_nodes definition.2) = Some node ∧ n_uses node = "core.event".
Definition resolves {cal : Calendar} (get : Lookup) (validate : ProviderValidator) (namespace : string) (spec : Spec) : Prop :=
  match spec with
  | SpecTrigger t =>
      available get namespace "Flow" (t_flow t) ∧
      (∀ d, t_delivery t = Some d → d_mode d = "signal" → signal_node get namespace (t_flow t) (d_node d)) ∧
      (∀ w, t_webhook t = Some w → available get namespace "SecretRef" (w_bearerSecretRef w)) ∧
      (∀ p, t_provider t = Some p → validate namespace (pr_plugin p) (pr_source p) (pr_config p) = [])
  | SpecRepository s => rp_authSecretRef s = "" ∨ available get namespace "SecretRef" (rp_authSecretRef s)
  | SpecAgentProfile a => Forall (λ b, available get namespace "SecretRef" (secretName b)) (a_secretRefs a)
  | _ => True
  end.

Section Facts.
Context {cal : Calendar} (get : Lookup) (validate : ProviderValidator).
Abbreviation r := (mkResolver (Some get) (Some validate)).

Lemma require_nil namespace kind name path : require r namespace kind name path = [] ↔ available get namespace kind name.
Proof.
  unfold require, available. simpl. destruct (String.eqb_spec (trim_space name) "") as [E|E]; [split; [done|by intros [? _]]|].
  destruct (get kind namespace name) as [e|d]; [|split; eauto]. split; [by destruct e|by intros [_ [? ?]]].
Qed.
Lemma signalTarget_nil namespace flowName nodeID : available get namespace "Flow" flowName →
  signalTarget r namespace flowName nodeID = [] ↔ signal_node get namespace flowName nodeID.
Proof.
  intros [Hn [d Hd]]. unfold signalTarget, signal_node. simpl. rewrite (proj2 (String.eqb_neq _ _) Hn), Hd.
  destruct (DecodeFlow d) as [e|definition] eqn:Ef; [split; [done|]; intros (?&?&?&[= <-]&?&_); congruence|].
  destruct (List.find _ _) as [node|] eqn:Efind.
  - destruct (String.eqb_spec (n_uses node) "core.event") as [Eu|Eu].
    + split; [|done]. intros _. by exists d, definition, node.
    + split; [done|]. intros (?&?&?&[= <-]&Hx&Hy&Hz). rewrite Ef in Hx. injection Hx as <-. congruence.
  - split; [done|]. intros (?&?&?&[= <-]&Hx&Hy&Hz). rewrite Ef in Hx. injection Hx as <-. congruence.
Qed.
Lemma sort_nil {A} (c : A → A → comparison) `{!TotalCmp c} l : sort_by c l = [] ↔ l = [].
Proof.
  split; [|by intros ->]. intros H. pose proof (sort_by_perm c l) as Hp. rewrite H in Hp. by apply Permutation_nil in Hp.
Qed.
#[local] Instance diagnostic_order_total : TotalCmp diagnostic_order.
Proof. unfold diagnostic_order. apply _. Qed.

Lemma profile_nil namespace l n :
  mjoin (imap (λ i, profile_binding r namespace (n + i)) l) = [] ↔ Forall (λ b, available get namespace "SecretRef" (secretName b)) l.
Proof.
  revert n. induction l as [|b l IH]; intros n; [by split|]. rewrite imap_cons. simpl. rewrite Forall_cons, app_nil.
  replace (λ i, profile_binding r namespace (n + i)) with (λ i, profile_binding r namespace (n + i)) by done.
  specialize (IH (S n)). rewrite <- IH. clear IH. rewrite (imap_ext _ (λ i, profile_binding r namespace (S n + i)) l).
  2: { intros i x _. simpl. by rewrite Nat.add_succ_r. }
  apply and_iff_compat_r. unfold profile_binding. destruct (String.eqb_spec (secretName b) "") as [E|E].
  - split; [done|]. intros [Hn _]. by rewrite E in Hn.
  - apply require_nil.
Qed.

(** The specification: no diagnostics exactly when every reference resolves. *)
Lemma Diagnostics_nil document : well_formed document →
  Diagnostics r document = [] ↔ resolves get validate (m_namespace (doc_meta document)) (doc_spec document).
Proof.
  intros Hw. unfold Diagnostics. assert (Hns : m_namespace (doc_meta document) ≠ "").
  { apply DecodeStrict_ok in Hw as (_&_&Hm&_). intros E. unfold ValidateMetadata in Hm. rewrite E in Hm.
    apply res_bind_ok in Hm as (?&_&Hm). by apply guard_err_ok in Hm. }
  rewrite (proj2 (String.eqb_neq _ _) Hns). set (ns := m_namespace (doc_meta document)).
  unfold DecodeTrigger, DecodeRepository, DecodeAgentProfile. unfold well_formed in Hw. rewrite Hw. cbn [mbind res_bind].
  destruct (doc_spec document) as [f|t|rp|a|p|sr] eqn:Es; cbn [snd resolves ok]; try (by split); unfold ok; cbn [snd]; rewrite sort_nil by apply _.
  - unfold trigger_diagnostics. rewrite !app_nil, require_nil. split.
    + intros (H1&H2&H3&H4). split_and!; [done| | |].
      * intros d Hd Hm. rewrite Hd, Hm in H2. simpl in H2. by apply signalTarget_nil.
      * intros w Hwb. rewrite Hwb in H3. by apply require_nil in H3.
      * intros p Hp. rewrite Hp in H4. simpl in H4. by apply fmap_nil_inv in H4.
    + intros (H1&H2&H3&H4). split_and!; [done| | |].
      * destruct (t_delivery t) as [d|]; [|done]. destruct (String.eqb_spec (d_mode d) "signal") as [E|E]; [|done].
        apply signalTarget_nil; [done|]. by apply H2.
      * destruct (t_webhook t) as [w|]; [|done]. by apply require_nil, H3.
      * destruct (t_provider t) as [p|]; [|done]. simpl. by rewrite H4.
  - destruct (String.eqb_spec (rp_authSecretRef rp) "") as [E|E]; [split; [by left|done]|]. rewrite require_nil. split; [by right|].
    by intros [?|?].
  - apply (profile_nil ns (a_secretRefs a) 0).
Qed.
Lemma readiness_true diagnostics : (readiness diagnostics).1.1 = "True" ↔ HasErrors diagnostics = false.
Proof.
  unfold readiness. split.
  - destruct (List.find IsError diagnostics) as [d|] eqn:E; [done|]. intros _.
    apply not_true_iff_false. intros (d&Hin&Hd)%HasErrors_spec. apply list_elem_of_In in Hin.
    by rewrite (List.find_none _ _ E d Hin) in Hd.
  - intros H. destruct (List.find IsError diagnostics) as [d|] eqn:E.
    + apply List.find_some in E as [Hin Hd]. apply list_elem_of_In in Hin.
      assert (HasErrors diagnostics = true) by (apply HasErrors_spec; eauto). congruence.
    + by destruct diagnostics.
Qed.
Lemma readiness_false diagnostics : (readiness diagnostics).1.1 = "False" ↔ HasErrors diagnostics = true.
Proof.
  rewrite <- not_false_iff_true, <- readiness_true. unfold readiness.
  destruct (List.find IsError diagnostics); [by split|]. by destruct diagnostics.
Qed.
Lemma readiness_resolved diagnostics : (readiness diagnostics).1 = ("True", "ReferencesResolved") ↔ diagnostics = [].
Proof.
  split; [|by intros ->]. unfold readiness. destruct (List.find IsError diagnostics); [done|]. by destruct diagnostics.
Qed.
End Facts.
