(* ===== verification/ActionContractFacts.v ===== *)
(** Static inspection of contracts: it ends exactly when no chain of references
    is cyclic, and it is sound for the values that pass the shape check: a path
    the compiler resolves to a type has, at run time, a value of that type. *)

From Stdlib Require String.
From S2P Require Import Prelude.
From S2P Require Import Json.
From S2P Require Import GoStd.
From S2P Require Import ActionContract.
From S2P Require Import PluginMapping.

Local Open Scope Z_scope.

(** ** References *)

Definition refers (objects : list schemaObject) (i j : nat) : Prop := ∃ o, objects !! i = Some o ∧ so_ref o = Some j.
(** No chain of references returns to its start. *)
Definition references_end (s : Schema) : Prop := ∀ i, ¬ tc (refers (sc_objects s)) i i.

Section Follow.
Context (objects : list schemaObject).
Abbreviation ref := (refers objects).

Lemma refers_functional i j k : ref i j → ref i k → j = k.
Proof. intros (o&Ho&Hj) (o'&Ho'&Hk). congruence. Qed.

(** [seen] is the chain so far: it has no repetition, so the objects run out
    before the fuel does. *)
Lemma follow_total : (∀ i, ¬ tc ref i i) → ∀ fuel p seen,
  NoDup seen → (∀ x, x ∈ seen → (x < length objects)%nat) → (∀ i x, p = Some i → x ∈ seen → tc ref x i) →
  (length objects ≤ fuel + length seen)%nat → ∃ r, follow fuel objects p = Some r.
Proof.
  intros Hac. induction fuel as [|fuel IH]; intros p seen Hn Hb Ht Hl.
  all: destruct p as [i|]; [|by eexists]; simpl; destruct (objects !! i) as [o|] eqn:Ho; [|by eexists].
  all: destruct (so_ref o) as [r|] eqn:Hr; [|by eexists].
  all: assert (Hi : i ∉ seen) by (intros Hi; by apply (Hac i), Ht).
  all: assert (Hb' : ∀ x, x ∈ i :: seen → (x < length objects)%nat)
         by (intros x [->|Hx]%elem_of_cons; [by eapply lookup_lt_Some|by apply Hb]).
  - exfalso. assert (Hs : (length (i :: seen) ≤ length (seq 0 (length objects)))%nat).
    { apply submseteq_length, NoDup_submseteq; [by constructor|]. intros x Hx%Hb'. apply elem_of_seq. lia. }
    rewrite length_seq in Hs. simpl in *. lia.
  - apply (IH (Some r) (i :: seen)); [by constructor|done| |simpl; lia].
    assert (ref i r) by (by exists o). intros j x [= <-] [->|Hx]%elem_of_cons; [by apply tc_once|].
    eapply tc_r; [by apply Ht|done].
Qed.

Lemma follow_cycle : ∀ fuel i, tc ref i i → follow fuel objects (Some i) = None.
Proof.
  induction fuel as [|fuel IH]; intros i Hi.
  all: assert (∃ j, ref i j ∧ rtc ref j i) as (j&(o&Ho&Hr)&Hj) by (inversion Hi; subst; eauto using tc_rtc).
  all: simpl; rewrite Ho, Hr; simpl.
  { done. }
  apply IH. eapply tc_rtc_l; [exact Hj|]. inversion Hi as [? ? Hij|? k ? Hik Hk]; subst.
  - assert (i = j) as -> by (eapply refers_functional; [exact Hij|by exists o]). by apply tc_once; exists o.
  - assert (k = j) as -> by (eapply refers_functional; [exact Hik|by exists o]).
    apply tc_once. by exists o.
Qed.
End Follow.

Lemma dereference_total s p : references_end s → ∃ r, dereference s p = Some r.
Proof.
  intros H. apply (follow_total (sc_objects s) H _ _ []); [constructor|by intros ? ?%elem_of_nil|by intros ? ? ? ?%elem_of_nil|lia].
Qed.

(** Following references returns for every pointer just when they are acyclic. *)
Lemma dereference_ends s : (∀ p, ∃ r, dereference s p = Some r) ↔ references_end s.
Proof.
  split; [|intros H p; by apply dereference_total]. intros H i Hi. destruct (H (Some i)) as [r Hr].
  unfold dereference in Hr. by rewrite follow_cycle in Hr.
Qed.

Section Total.
Context (s : Schema).
Hypothesis ends : references_end s.

Lemma resolve_total parts : ∀ p dynamic, ∃ r, resolve s p parts dynamic = Some r.
Proof.
  induction parts as [|part parts IH]; intros p dynamic; simpl; destruct (dereference_total s p ends) as [[o|] ->]; simpl; eauto.
  repeat case_match; eauto.
Qed.

Lemma validateShape_total : ∀ value p path, ∃ l, validateShape s p value path = Some l.
Proof.
  induction value as [| | | |l IH|m IH] using json_ind'; intros p path; simpl;
    destruct (dereference_total s p ends) as [[o|] ->]; simpl; eauto.
  all: destruct (negb (types_of o =? TypeUnknown) && _); eauto.
  - destruct (item_schema o) as [item|]; [|eauto]. generalize 0. induction IH as [|child l Hc _ IHl]; intros index; [eauto|].
    destruct (Hc (Some item) (path ++ [itoa index])) as [v ->]. simpl. destruct (IHl (index + 1)) as [vs ->]. simpl. eauto.
  - match goal with |- context [_ ≫= (λ members, Some (?missing ++ members))] => generalize missing end. intros missing.
    enough (∃ l, (fix members (m : list (string * json)) : option (list Violation) :=
       match m with
       | [] => Some []
       | (key, child) :: m =>
           here ← match member_schema o key with
                  | inl _ => Some [unknown_field path key]
                  | inr None => Some []
                  | inr (Some q) => validateShape s (Some q) child (path ++ [key])
                  end;
           there ← members m; Some (here ++ there)
       end) m = Some l) as [l ->] by (simpl; eauto).
    induction IH as [|[key child] m Hc _ IHm]; [eauto|]. destruct IHm as [vs ->]. simpl in *.
    destruct (member_schema o key) as [?|[q|]]; simpl; eauto. destruct (Hc (Some q) (path ++ [key])) as [v ->]. simpl. eauto.
Qed.

Lemma ResolveDot_total parts : ∃ r, ResolveDot s parts = Some r.
Proof. apply resolve_total. Qed.
Lemma ResolvePointer_total pointer : ∃ r, ResolvePointer s pointer = Some r.
Proof. unfold ResolvePointer. case_match; [apply resolve_total|eauto]. Qed.
Lemma Validate_total `{JsonSchema} value : ∃ l, Validate s value = Some l.
Proof.
  unfold Validate. destruct (normalize value) as [v|]; [|eauto].
  destruct (validateShape_total v (Some (sc_root s)) []) as [l ->]. simpl. eauto.
Qed.
End Total.

(** ** Types as sets *)

Lemma overlaps_bit k b : 0 ≤ k → overlaps (Z.shiftl 1 k) b = Z.testbit b k.
Proof.
  intros Hk. unfold overlaps. rewrite Z.shiftl_1_l. destruct (Z.testbit b k) eqn:E.
  - apply negb_true_iff, Z.eqb_neq. intros H0.
    assert (Hb : Z.testbit (Z.land (2 ^ k) b) k = false) by (by rewrite H0, Z.bits_0).
    by rewrite Z.land_spec, Z.pow2_bits_true, E in Hb.
  - apply negb_false_iff, Z.eqb_eq, Z.bits_inj'. intros i Hi. rewrite Z.land_spec, Z.bits_0.
    destruct (decide (i = k)) as [->|Hne]; [by rewrite E, andb_false_r|]. by rewrite Z.pow2_bits_false.
Qed.

(** The type of a value is a single bit. *)
Lemma valueType_bit value : ∃ k, 0 ≤ k ∧ valueType value = Z.shiftl 1 k ∧ (valueType value = TypeInteger → k = 3).
Proof.
  destruct value as [|b|lit|t|l|m]; simpl.
  - by exists 1. - by exists 2. - destruct (atoi lit); [by exists 3|by exists 4]. - by exists 5. - by exists 7. - by exists 6.
Qed.

Lemma overlaps_sym a b : overlaps a b = overlaps b a.
Proof. unfold overlaps. by rewrite Z.land_comm. Qed.

Lemma valueMatches_bit value want k : 0 ≤ k → valueType value = Z.shiftl 1 k → (valueType value = TypeInteger → k = 3) →
  valueMatches (valueType value) want = Z.testbit want k || ((valueType value =? TypeInteger) && Z.testbit want 4).
Proof. intros Hk E _. unfold valueMatches. rewrite E at 1. rewrite overlaps_bit by done. by rewrite overlaps_sym, (overlaps_bit 4). Qed.

(** Assignable types: what a source admits, the target admits. *)
Lemma Compatible_sound source target value : Compatible source target = (true, false) →
  valueMatches (valueType value) (rs_type source) = true → valueMatches (valueType value) (rs_type target) = true.
Proof.
  unfold Compatible. destruct (rs_dynamic source || _ || _ || _); [done|]. cbv zeta.
  set (accepted := if overlaps (rs_type target) TypeNumber then _ else _). intros [= Hd%Z.eqb_eq].
  assert (Hsub : ∀ k, 0 ≤ k → Z.testbit (rs_type source) k = true → Z.testbit accepted k = true).
  { intros k Hk Hs. destruct (Z.testbit accepted k) eqn:E; [done|].
    assert (Hb : Z.testbit (Z.ldiff (rs_type source) accepted) k = true) by (by rewrite Z.ldiff_spec, Hs, E).
    by rewrite Hd, Z.bits_0 in Hb. }
  assert (Hacc : ∀ k, 0 ≤ k → Z.testbit accepted k = true →
    Z.testbit (rs_type target) k = true ∨ (k = 3 ∧ Z.testbit (rs_type target) 4 = true)).
  { intros k Hk. unfold accepted. rewrite overlaps_sym, (overlaps_bit 4) by done.
    destruct (Z.testbit (rs_type target) 4) eqn:E4; [|auto]. rewrite Z.lor_spec. intros [?|H3]%orb_true_iff; [auto|].
    unfold TypeInteger in H3. rewrite Z.shiftl_1_l, Z.pow2_bits_eqb in H3 by done. apply Z.eqb_eq in H3. auto. }
  destruct (valueType_bit value) as (k&Hk&Ek&H3). rewrite !(valueMatches_bit value _ k) by done.
  rewrite !orb_true_iff, !andb_true_iff, !Z.eqb_eq. intros [Hs|[Hi H4]].
  - destruct (Hacc k Hk (Hsub k Hk Hs)) as [?|[-> ?]]; [by left|right]. split; [by rewrite Ek|done].
  - destruct (Hacc 4 ltac:(done) (Hsub 4 ltac:(done) H4)) as [?|[? _]]; [by right|done].
Qed.

(** ** Soundness of resolution *)

(** No schema object admits both objects and arrays. *)
Definition unambiguous (s : Schema) : Prop :=
  ∀ o, o ∈ sc_objects s → overlaps (types_of o) TypeObject = true → overlaps (types_of o) TypeArray = false.

Lemma follow_member objects : ∀ fuel p o, follow fuel objects p = Some (Some o) → o ∈ objects.
Proof.
  induction fuel as [|fuel IH]; intros [i|] o; simpl; try done; destruct (objects !! i) as [o'|] eqn:E; try done;
    destruct (so_ref o'); try done; try apply IH; intros [= <-]; by eapply list_elem_of_lookup_2.
Qed.

Lemma option_app_nil {A} (a b : option (list A)) :
  (x ← a; y ← b; Some (x ++ y)) = Some [] → a = Some [] ∧ b = Some [].
Proof.
  destruct a as [x|]; [|done]. destruct b as [y|]; [|done]. simpl. intros [= E]. by apply app_nil in E as [-> ->].
Qed.

(** A member of a checked object has passed its own check. *)
Lemma checked_member s o path m key child :
  (fix members (m : list (string * json)) : option (list Violation) :=
     match m with
     | [] => Some []
     | (key, child) :: m =>
         here ← match member_schema o key with
                | inl _ => Some [unknown_field path key]
                | inr None => Some []
                | inr (Some q) => validateShape s (Some q) child (path ++ [key])
                end;
         there ← members m; Some (here ++ there)
     end) m = Some [] → obj_get key m = Some child →
  match member_schema o key with
  | inl _ => False | inr None => True
  | inr (Some q) => validateShape s (Some q) child (path ++ [key]) = Some []
  end.
Proof.
  induction m as [|[k c] m IH]; intros H Hg; simpl in Hg; [done|]. apply option_app_nil in H as [Hh Ht].
  case_decide as Hk; [subst k; injection Hg as <-|by apply IH].
  destruct (member_schema o key) as [?|[q|]]; done.
Qed.

Lemma checked_item s item path l child : ∀ index i,
  (fix items (index : Z) (l : list json) : option (list Violation) :=
     match l with
     | [] => Some []
     | child :: l =>
         here ← validateShape s (Some item) child (path ++ [itoa index]);
         there ← items (index + 1) l; Some (here ++ there)
     end) index l = Some [] → l !! i = Some child → ∃ path', validateShape s (Some item) child path' = Some [].
Proof.
  induction l as [|c l IH]; intros index i H Hi; [done|]. apply option_app_nil in H as [Hh Ht].
  destruct i as [|i]; simpl in Hi; [injection Hi as <-; eauto|by eapply IH].
Qed.

Lemma shape_matches s p v path o : validateShape s p v path = Some [] → dereference s p = Some (Some o) →
  types_of o ≠ TypeUnknown → valueMatches (valueType v) (types_of o) = true.
Proof.
  intros Hv Hd Ht%Z.eqb_neq. destruct v; simpl in Hv; rewrite Hd in Hv; simpl in Hv; rewrite Ht in Hv; simpl in Hv;
    (destruct (valueMatches _ _); [done|discriminate Hv]).
Qed.

(** The member of a checked object under the schema that resolution picks. *)
Lemma shape_member s p m path o key child : validateShape s p (JObj m) path = Some [] → dereference s p = Some (Some o) →
  obj_get key m = Some child →
  match member_schema o key with
  | inl _ => False | inr None => True
  | inr (Some q) => validateShape s (Some q) child (path ++ [key]) = Some []
  end ∨ types_of o = TypeUnknown.
Proof.
  intros Hv Hd Hg. destruct (Z.eqb_spec (types_of o) TypeUnknown) as [|Ht]; [by right|left].
  pose proof (shape_matches _ _ _ _ _ Hv Hd Ht) as Hm. simpl in Hv, Hm. rewrite Hd in Hv. simpl in Hv. rewrite Hm in Hv.
  rewrite andb_false_r in Hv. apply bind_Some in Hv as (members&Hms&[= E]). apply app_nil in E as [_ ->].
  by eapply checked_member.
Qed.

Lemma shape_item s p l path o item i child : validateShape s p (JArr l) path = Some [] → dereference s p = Some (Some o) →
  types_of o ≠ TypeUnknown → item_schema o = Some item → l !! i = Some child →
  ∃ path', validateShape s (Some item) child path' = Some [].
Proof.
  intros Hv Hd Ht Hi Hl. pose proof (shape_matches _ _ _ _ _ Hv Hd Ht) as Hm. simpl in Hv, Hm. rewrite Hd in Hv. simpl in Hv.
  rewrite Hm, andb_false_r, Hi in Hv. by eapply checked_item.
Qed.

Lemma matches_object want : valueMatches TypeObject want = overlaps want TypeObject.
Proof. unfold valueMatches. rewrite overlaps_sym. by rewrite orb_false_r. Qed.
Lemma matches_array want : valueMatches TypeArray want = overlaps want TypeArray.
Proof. unfold valueMatches. rewrite overlaps_sym. by rewrite orb_false_r. Qed.

(** A path the compiler resolves, looked up in a value that passes the shape
    check: the path is declared and, unless it crosses an open region, the value
    has the resolved type. *)
Lemma resolve_sound s : unambiguous s → ∀ parts p v path dynamic r w,
  validateShape s p v path = Some [] → resolve s p parts dynamic = Some r → lookup_segments v parts = inr w →
  rs_exists r = true ∧ (rs_dynamic r = false → valueMatches (valueType w) (rs_type r) = true).
Proof.
  intros Hu. induction parts as [|part parts IH]; intros p v path dynamic r w Hv Hr Hl; simpl in Hr;
    apply bind_Some in Hr as ([o|]&Hd&Hr); try (by injection Hr as <-).
  - simpl in Hl. injection Hl as <-. injection Hr as <-. simpl. split; [done|].
    intros [-> Hw%Z.eqb_neq]%orb_false_iff. by eapply shape_matches.
  - destruct (Z.eqb_spec (types_of o) TypeUnknown) as [|Ht]; [by injection Hr as <-|].
    pose proof (shape_matches _ _ _ _ _ Hv Hd Ht) as Hm.
    assert (Ho : o ∈ sc_objects s) by (by eapply follow_member).
    destruct v as [| | | |l|m]; try discriminate Hl; simpl in Hl, Hm.
    + rewrite matches_array in Hm. destruct (overlaps (types_of o) TypeObject) eqn:Eo; [by rewrite (Hu o Ho Eo) in Hm|].
      rewrite Hm in Hr. destruct (atoi part) as [index|]; [|discriminate Hl].
      destruct (index <? 0) eqn:E0; simpl in Hl; [discriminate Hl|].
      destruct (Z.of_nat (length l) <=? index) eqn:E1; [discriminate Hl|]. apply Z.ltb_ge in E0. apply Z.leb_gt in E1.
      destruct (item_schema o) as [item|] eqn:Ei; [|by injection Hr as <-].
      destruct (lookup_lt_is_Some_2 l (Z.to_nat index)) as [child Hc]; [lia|]. rewrite Hc in Hl. simpl in Hl.
      destruct (shape_item _ _ _ _ _ _ _ _ Hv Hd Ht Ei Hc) as [path' Hv']. by eapply IH.
    + rewrite matches_object in Hm. rewrite Hm in Hr. destruct (obj_get part m) as [child|] eqn:Eg; [|discriminate Hl].
      destruct (shape_member _ _ _ _ _ _ _ Hv Hd Eg) as [Hs|]; [|done].
      unfold member_schema in Hs. destruct (so_properties o !! part) as [q|]; [by eapply IH|].
      destruct (so_additional o) as [|[]|q]; [by injection Hr as <-|by injection Hr as <-|done|by eapply IH].
Qed.

(** Once dynamic, always dynamic: an open region stays open below. *)
Lemma resolve_dynamic s : ∀ parts p r, resolve s p parts true = Some r → rs_exists r = true → rs_dynamic r = true.
Proof.
  induction parts as [|part parts IH]; intros p r Hr He; simpl in Hr; apply bind_Some in Hr as ([o|]&Hd&Hr); try (by injection Hr as <-).
  destruct (types_of o =? TypeUnknown); [by injection Hr as <-|]. repeat case_match; try (injection Hr as <-; done); by eapply IH.
Qed.

(** ** Compile-time and run-time assignment *)

(** A target the run time can assign is one the compiler can assign, with the
    same result. *)
Lemma SetPointer_complete value : ∀ tokens current v, tokens ≠ [] →
  setPointerValue current tokens value = inr v → set_tokens current tokens value = (v, None).
Proof.
  induction tokens as [|token rest IH]; intros current v Hne H; [done|]. simpl in *.
  destruct current as [| | | |l|m]; try discriminate H.
  - destruct (atoi token) as [i|]; [|discriminate H]. destruct (_ || _); [discriminate H|].
    destruct rest as [|t rest]; [simpl in H; by injection H as <-|].
    destruct (setPointerValue _ (t :: rest) value) as [e|u] eqn:E; [discriminate H|]. injection H as <-.
    by rewrite (IH _ _ ltac:(done) E).
  - destruct rest as [|t rest]; [destruct (obj_get token m); simpl in H; by injection H as <-|].
    destruct (obj_get token m) as [child|] eqn:Eg.
    + destruct (setPointerValue _ (t :: rest) value) as [e|u] eqn:E; [discriminate H|]. injection H as <-.
      change (default (JObj []) (Some child)) with child in E.
      destruct child; try discriminate E; by rewrite (IH _ _ ltac:(done) E).
    + destruct (setPointerValue _ (t :: rest) value) as [e|u] eqn:E; [discriminate H|]. injection H as <-.
      by rewrite (IH _ _ ltac:(done) E).
Qed.

(** The converse fails on a null container: the compiler replaces it by an
    object, the run time refuses to traverse it. *)
Lemma null_container_diverges :
  set_tokens (mkobj [("env", JNull)]) ["env"; "name"] (JStr "x") = (mkobj [("env", mkobj [("name", JStr "x")])], None) ∧
  setPointerValue (mkobj [("env", JNull)]) ["env"; "name"] (JStr "x") = inl ("cannot traverse target segment " +:+ quoted "name").
Proof. split; reflexivity. Qed.

(** ** Validation *)

(** A value without violations has passed the shape check. *)
Lemma Validate_shape `{JsonSchema} s value normalized : Validate s value = Some [] → normalize value = Some normalized →
  validateShape s (Some (sc_root s)) normalized [] = Some [].
Proof.
  unfold Validate. intros Hv Hn. rewrite Hn in Hv. apply bind_Some in Hv as (l&Hl&[= Hs]).
  destruct l as [|v l]; [done|]. pose proof (sort_by_perm violation_order (v :: l)) as Hp. rewrite Hs in Hp.
  symmetry in Hp. by apply Permutation_nil_r in Hp.
Qed.

Lemma Compatible_static source target : Compatible source target = (true, false) → rs_dynamic source = false.
Proof. unfold Compatible. by destruct (rs_dynamic source). Qed.

(** *** A schema that admits both *)

(** [{"type": ["object", "array"], "properties": {"0": {"type": "string"}},
    "additionalProperties": false, "items": {"type": "integer"}}], a target of
    strings, and an array that validates against the source. *)
Definition typed (name : string) : schemaObject := mkSchemaObject None [name] ∅ AdditionalUnset None None [].
Definition either_source : Schema :=
  mkSchema [mkSchemaObject None ["object"; "array"] {["0" := 1%nat]} (AdditionalBool false) (Some 2%nat) None [];
            typed "string"; typed "integer"] 0.
Definition string_target : Schema :=
  mkSchema [mkSchemaObject None ["object"] {["name" := 1%nat]} (AdditionalBool false) None None []; typed "string"] 0.
Definition one_integer : json := JArr [JNum "1"].

(** The compiler looks "0" up as a property first, finds a string and no dynamic
    region; the run time looks it up in the array. *)
Lemma either_source_is_mistyped `{JsonSchema} : js_validate either_source one_integer = None →
  Validate either_source one_integer = Some [] ∧
  ∃ rs rt, ResolveDot either_source ["0"] = Some rs ∧ ResolvePointer string_target "/name" = Some rt ∧
    Compatible rs rt = (true, false) ∧ lookup_segments one_integer ["0"] = inr (JNum "1") ∧
    valueMatches (valueType (JNum "1")) (rs_type rt) = false.
Proof.
  intros Hj. split.
  - unfold Validate. change (normalize one_integer) with (Some one_integer). cbv beta iota.
    change (validateShape either_source (Some (sc_root either_source)) one_integer []) with (Some (@nil Violation)). simpl. by rewrite Hj.
  - eexists _, _. split_and!; vm_compute; reflexivity.
Qed.
