(* ===== verification/FlowGraph.v ===== *)
(** The graph algorithms of [internal/flow/compiler.go]: [reaches] (breadth
    first), [stronglyConnected] (Tarjan) and [sortedKeys].

    A Go map from a node to its successors is a [gmap]; the missing entry is the
    empty list.  The closure [visit] and the variables it captures are a function
    of a record of those variables; the [stack] is kept with its top first.
    [None] is a run that does not return a value: the fuel ran out, or the pop of
    an empty stack, which panics.  The fuel counts the vertices the map can
    mention; the second part and [FlowTarjan] prove that it never runs out. *)

From Stdlib Require String.
From S2P Require Import Prelude.

Local Open Scope nat_scope.

Abbreviation Adjacency := (gmap string (list string)).

Definition succs (adjacency : Adjacency) (v : string) : list string := default [] (adjacency !! v).
(** Every vertex that is a successor of some vertex. *)
Definition targets (adjacency : Adjacency) : list string := mjoin (snd <$> map_to_list adjacency).

(** ** reaches *)

(** [for _, next := range adjacency[current]]; [None] is [return true]. *)
Fixpoint reach_scan (target : string) (nexts : list string) (seen : gset string) (queue : list string)
    : option (gset string * list string) :=
  match nexts with
  | [] => Some (seen, queue)
  | next :: nexts =>
      if String.eqb next target then None
      else if decide (next ∈ seen) then reach_scan target nexts seen queue
      else reach_scan target nexts ({[next]} ∪ seen) (queue ++ [next])
  end.
Fixpoint reaches_loop (fuel : nat) (target : string) (adjacency : Adjacency) (queue : list string)
    (seen : gset string) : option bool :=
  match fuel with
  | O => None
  | S fuel =>
      match queue with
      | [] => Some false
      | current :: queue =>
          match reach_scan target (succs adjacency current) seen queue with
          | None => Some true
          | Some (seen, queue) => reaches_loop fuel target adjacency queue seen
          end
      end
  end.
Definition reaches (source target : string) (adjacency : Adjacency) : option bool :=
  reaches_loop (2 + length (targets adjacency)) target adjacency [source] {[source]}.

(** ** stronglyConnected *)

Record tarjan := mkTarjan {
  tj_index : nat; tj_stack : list string; tj_onStack : gmap string bool;
  tj_indices : gmap string nat; tj_low : gmap string nat; tj_components : list (list string) }.

Definition tarjan_start : tarjan := mkTarjan 0 [] ∅ ∅ ∅ [].
Definition onstack (st : tarjan) (v : string) : bool := default false (tj_onStack st !! v).
Definition index_of (st : tarjan) (v : string) : nat := default 0 (tj_indices st !! v).
Definition low_of (st : tarjan) (v : string) : nat := default 0 (tj_low st !! v).
Definition set_low (v : string) (n : nat) (st : tarjan) : tarjan :=
  mkTarjan (tj_index st) (tj_stack st) (tj_onStack st) (tj_indices st) (<[v := n]> (tj_low st)) (tj_components st).

(** The entry of [visit]: number the vertex and push it. *)
Definition enter (v : string) (st : tarjan) : tarjan :=
  mkTarjan (S (tj_index st)) (v :: tj_stack st) (<[v := true]> (tj_onStack st))
    (<[v := tj_index st]> (tj_indices st)) (<[v := tj_index st]> (tj_low st)) (tj_components st).

(** The loop that pops the stack down to [v]. *)
Fixpoint pop_component (v : string) (stack : list string) (on : gmap string bool) (component : list string)
    : option (list string * gmap string bool * list string) :=
  match stack with
  | [] => None
  | last :: stack =>
      let on := <[last := false]> on in
      let component := component ++ [last] in
      if String.eqb last v then Some (stack, on, component) else pop_component v stack on component
  end.
(** [if low[v] == indices[v]]: [v] is the root of a component. *)
Definition close_component (v : string) (st : tarjan) : option tarjan :=
  if low_of st v =? index_of st v then
    '(stack, on, component) ← pop_component v (tj_stack st) (tj_onStack st) [];
    Some (mkTarjan (tj_index st) stack on (tj_indices st) (tj_low st)
            (tj_components st ++ [sort_strings component]))
  else Some st.

(** [for _, w := range adjacency[v]], with the recursive call as [visit]. *)
Fixpoint visit_edges (visit : string → tarjan → option tarjan) (v : string) (ws : list string) (st : tarjan) : option tarjan :=
  match ws with
  | [] => Some st
  | w :: ws =>
      match tj_indices st !! w with
      | None =>
          st ← visit w st;
          visit_edges visit v ws (if low_of st w <? low_of st v then set_low v (low_of st w) st else st)
      | Some i =>
          visit_edges visit v ws (if onstack st w && (i <? low_of st v) then set_low v i st else st)
      end
  end.
Fixpoint visit (fuel : nat) (adjacency : Adjacency) (v : string) (st : tarjan) : option tarjan :=
  match fuel with
  | O => None
  | S fuel =>
      st ← visit_edges (visit fuel adjacency) v (succs adjacency v) (enter v st);
      close_component v st
  end.
(** [for _, id := range ids]. *)
Fixpoint visit_all (fuel : nat) (adjacency : Adjacency) (ids : list string) (st : tarjan) : option tarjan :=
  match ids with
  | [] => Some st
  | id :: ids =>
      match tj_indices st !! id with
      | None => st ← visit fuel adjacency id st; visit_all fuel adjacency ids st
      | Some _ => visit_all fuel adjacency ids st
      end
  end.

Definition first_of (component : list string) : string := default "" (head component).
Definition by_first : list string → list string → comparison := onc first_of str_cmp.

Definition stronglyConnected (ids : list string) (adjacency : Adjacency) : option (list (list string)) :=
  st ← visit_all (S (length ids + length (targets adjacency))) adjacency ids tarjan_start;
  Some (sort_by by_first (tj_components st)).

(** [sortedKeys] of the node map. *)
Definition sortedKeys {A} (nodes : gmap string A) : list string := sort_strings ((map_to_list nodes).*1).

(** ** Reference definitions

    A path of the graph, and the partition it induces: two vertices belong
    together when each reaches the other. *)

Definition edge (adjacency : Adjacency) (x y : string) : Prop := y ∈ succs adjacency x.
Definition mutual (adjacency : Adjacency) (x y : string) : Prop := rtc (edge adjacency) x y ∧ rtc (edge adjacency) y x.

Definition reaches_or_is (adjacency : Adjacency) (x y : string) : bool :=
  String.eqb x y || default false (reaches x y adjacency).
Definition mutualb (adjacency : Adjacency) (x y : string) : bool :=
  reaches_or_is adjacency x y && reaches_or_is adjacency y x.
(** Each class once, as the sorted list of its members, ordered by its least one. *)
Definition mutual_classes (ids : list string) (adjacency : Adjacency) : list (list string) :=
  let ids := sort_strings ids in
  (λ v, filter (λ w, mutualb adjacency v w = true) ids)
    <$> filter (λ v, forallb (λ w, negb (mutualb adjacency v w) || str_le v w) ids = true) ids.

Definition demo_graph : Adjacency :=
  <["a" := ["b"]]> (<["b" := ["c"; "d"]]> (<["c" := ["a"]]> (<["d" := ["e"; "d"]]> ∅))).
Example demo_reaches : (reaches "a" "e" demo_graph, reaches "e" "a" demo_graph, reaches "a" "a" demo_graph, reaches "e" "e" demo_graph)
  = (Some true, Some false, Some true, Some false).
Proof. vm_compute. reflexivity. Qed.
Example demo_components :
  stronglyConnected ["e"; "d"; "c"; "b"; "a"] demo_graph = Some [["a"; "b"; "c"]; ["d"]; ["e"]].
Proof. vm_compute. reflexivity. Qed.
Example demo_classes : mutual_classes ["e"; "d"; "c"; "b"; "a"] demo_graph = [["a"; "b"; "c"]; ["d"]; ["e"]].
Proof. vm_compute. reflexivity. Qed.

(** * [reaches] decides the transitive closure of the edge relation, and its fuel
       is enough: every vertex enters the queue at most once. *)

Local Open Scope nat_scope.

Lemma elem_of_targets adjacency x y : edge adjacency x y → y ∈ targets adjacency.
Proof.
  unfold edge, succs, targets. destruct (adjacency !! x) as [l|] eqn:E; simpl; [|by intros ?%elem_of_nil].
  intros Hy. apply list_elem_of_join. exists l. split; [done|].
  apply list_elem_of_fmap. exists (x, l). split; [done|]. by apply elem_of_map_to_list.
Qed.

Section Reach.
Context (adjacency : Adjacency) (source target : string).
Abbreviation E := (edge adjacency).

(** The vertices seen are the processed ones and the queued ones. *)
Record frontier (done : gset string) (queue : list string) (seen : gset string) : Prop := {
  fr_queue : NoDup queue;
  fr_fresh : ∀ x, x ∈ queue → x ∉ done;
  fr_seen : ∀ x, x ∈ seen ↔ x ∈ done ∨ x ∈ queue;
  fr_reached : ∀ x, x ∈ seen → rtc E source x;
  fr_bound : ∀ x, x ∈ seen → x ∈ source :: targets adjacency
}.

Lemma frontier_push done queue seen current next :
  frontier done queue seen → rtc E source current → E current next → next ∉ seen →
  frontier done (queue ++ [next]) ({[next]} ∪ seen).
Proof.
  intros [Hq Hf Hs Hr Hb] Hc Hn Hnew. split.
  - apply NoDup_app. split; [done|]. split; [|by apply NoDup_singleton].
    intros x Hx ->%list_elem_of_singleton. apply Hnew, Hs. by right.
  - intros x [Hx| ->%list_elem_of_singleton]%elem_of_app; [by apply Hf|].
    intros Hd. apply Hnew, Hs. by left.
  - intros x. rewrite elem_of_union, elem_of_singleton, elem_of_app, list_elem_of_singleton, Hs. tauto.
  - intros x [->%elem_of_singleton|Hx]%elem_of_union; [by eapply rtc_r|by apply Hr].
  - intros x [->%elem_of_singleton|Hx]%elem_of_union; [|by apply Hb].
    right. by eapply elem_of_targets.
Qed.

Lemma reach_scan_spec current done : rtc E source current → ∀ nexts seen queue,
  (∀ y, y ∈ nexts → E current y) → frontier done queue seen →
  match reach_scan target nexts seen queue with
  | None => E current target
  | Some (seen', queue') =>
      frontier done queue' seen' ∧ seen ⊆ seen' ∧ ∀ y, y ∈ nexts → y ∈ seen' ∧ y ≠ target
  end.
Proof.
  intros Hc. induction nexts as [|next nexts IH]; intros seen queue Hn Hf; simpl.
  { split; [done|]. split; [done|]. by intros y ?%elem_of_nil. }
  assert (Hnext : E current next) by (apply Hn; left).
  assert (Hn' : ∀ y, y ∈ nexts → E current y) by (intros y Hy; apply Hn; by right).
  destruct (String.eqb_spec next target) as [->|Hne]; [done|].
  case_decide as Hseen.
  - specialize (IH seen queue Hn' Hf). destruct (reach_scan _ _ _ _) as [[seen' queue']|]; [|done].
    destruct IH as (?&Hsub&Hcl). split; [done|]. split; [done|].
    intros y [->|Hy]%elem_of_cons; [|by apply Hcl]. split; [by apply Hsub|done].
  - specialize (IH _ _ Hn' (frontier_push _ _ _ _ _ Hf Hc Hnext Hseen)).
    destruct (reach_scan _ _ _ _) as [[seen' queue']|]; [|done].
    destruct IH as (?&Hsub&Hcl). split; [done|]. split; [by intros x Hx; apply Hsub, elem_of_union_r|].
    intros y [->|Hy]%elem_of_cons; [|by apply Hcl]. split; [by apply Hsub, elem_of_union_l, elem_of_singleton|done].
Qed.

(** A processed vertex has no unseen successor and is not before the target. *)
Definition closed (done seen : gset string) : Prop := ∀ x y, x ∈ done → E x y → y ∈ seen ∧ y ≠ target.

Lemma frontier_next done current queue seen :
  frontier done (current :: queue) seen → frontier ({[current]} ∪ done) queue seen.
Proof.
  intros [Hq Hf Hs Hr Hb]. apply NoDup_cons in Hq as [Hcur Hq]. split; [done| | |done|done].
  - intros x Hx [->%elem_of_singleton|Hd]%elem_of_union; [done|]. by apply (Hf x); [right|].
  - intros x. rewrite Hs, elem_of_union, elem_of_singleton, elem_of_cons. tauto.
Qed.

Lemma closed_no_path done seen : frontier done [] seen → source ∈ seen → closed done seen → ¬ tc E source target.
Proof.
  intros [_ _ Hs _ _] Hsrc Hc Ht.
  assert (Hdone : ∀ x, x ∈ seen → x ∈ done) by (intros x [?|?%elem_of_nil]%Hs; done).
  assert (Hall : ∀ y, tc E source y → y ∈ done ∧ y ≠ target).
  { apply tc_ind_r.
    - intros y Hy. destruct (Hc source y (Hdone _ Hsrc) Hy). auto.
    - intros y z _ Hz [IH _]. destruct (Hc y z IH Hz). auto. }
  by destruct (Hall target Ht).
Qed.

Lemma frontier_size done queue seen : frontier done queue seen → size done + length queue ≤ S (length (targets adjacency)).
Proof.
  intros [Hq Hf Hs _ Hb].
  assert (Hp : elements done ++ queue ⊆+ source :: targets adjacency).
  { apply NoDup_submseteq.
    - apply NoDup_app. split; [apply NoDup_elements|]. split; [|done].
      intros x Hx%elem_of_elements Hx'. by apply (Hf x).
    - intros x Hx. apply Hb, Hs. rewrite elem_of_app, elem_of_elements in Hx. done. }
  apply submseteq_length in Hp. rewrite length_app in Hp. unfold size, set_size. simpl in *. lia.
Qed.

Lemma reaches_loop_spec : ∀ fuel done queue seen, frontier done queue seen → source ∈ seen → closed done seen →
  S (length (targets adjacency)) < fuel + size done →
  ∃ b, reaches_loop fuel target adjacency queue seen = Some b ∧ (b = true ↔ tc E source target).
Proof.
  induction fuel as [|fuel IH]; intros done queue seen Hf Hsrc Hc Hfuel.
  { pose proof (frontier_size _ _ _ Hf). lia. }
  destruct queue as [|current queue]; simpl.
  { exists false. split; [done|]. split; [done|]. intros Ht. by destruct (closed_no_path _ _ Hf Hsrc Hc). }
  assert (Hrc : rtc E source current) by (apply (fr_reached _ _ _ Hf), (fr_seen _ _ _ Hf); right; left).
  assert (Hcur : current ∉ done) by (apply (fr_fresh _ _ _ Hf); left).
  pose proof (reach_scan_spec current _ Hrc (succs adjacency current) _ _ (λ y Hy, Hy) (frontier_next _ _ _ _ Hf)) as Hscan.
  destruct (reach_scan _ _ _ _) as [[seen' queue']|].
  - destruct Hscan as (Hf'&Hsub&Hcl). apply (IH ({[current]} ∪ done)); [done|by apply Hsub| |].
    + intros x y [->%elem_of_singleton|Hx]%elem_of_union Hy; [by apply Hcl|].
      destruct (Hc x y Hx Hy). split; [by apply Hsub|done].
    + rewrite size_union, size_singleton by set_solver. lia.
  - exists true. split; [done|]. split; [|done]. intros _. by eapply tc_rtc_l; [|apply tc_once].
Qed.

Lemma reaches_spec : ∃ b, reaches source target adjacency = Some b ∧ (b = true ↔ tc E source target).
Proof.
  unfold reaches. apply (reaches_loop_spec _ ∅).
  - split.
    + by apply NoDup_singleton.
    + by intros x _ ?%elem_of_empty.
    + intros x. rewrite elem_of_singleton, list_elem_of_singleton. set_solver.
    + by intros x ->%elem_of_singleton.
    + intros x ->%elem_of_singleton. left.
  - set_solver.
  - by intros x y ?%elem_of_empty.
  - rewrite size_empty. lia.
Qed.
End Reach.

Lemma reaches_or_is_spec adjacency x y : reaches_or_is adjacency x y = true ↔ rtc (edge adjacency) x y.
Proof.
  unfold reaches_or_is. destruct (reaches_spec adjacency x y) as (b&->&Hb). simpl.
  destruct (String.eqb_spec x y) as [->|Hne]; simpl; [done|]. rewrite Hb. split; [apply tc_rtc|].
  intros [|?]%rtc_tc; done.
Qed.

Lemma mutualb_spec adjacency x y : mutualb adjacency x y = true ↔ mutual adjacency x y.
Proof. unfold mutualb, mutual. by rewrite andb_true_iff, !reaches_or_is_spec. Qed.
