(* ===== verification/FlowTarjan.v ===== *)
(** [stronglyConnected]: Tarjan's algorithm never runs out of fuel, never pops an
    empty stack, and its result is the partition of the vertices into classes of
    mutually reachable ones ([mutual_classes]).

    The invariant speaks of the vertices on the call stack of [visit], the "gray"
    ones: every vertex of the stack reaches a gray vertex at or below it, and
    every vertex below another reaches it. *)

From Stdlib Require String.
From S2P Require Import Prelude.
From S2P Require Import FlowGraph.

Local Open Scope nat_scope.

Definition visited (st : tarjan) (v : string) : Prop := is_Some (tj_indices st !! v).
Definition closed_vertices (st : tarjan) : list string := mjoin (tj_components st).

#[export] Instance visited_dec st v : Decision (visited st v).
Proof. unfold visited. apply _. Defined.

Lemma join_snoc (l : list (list string)) (c : list string) w : w ∈ mjoin (l ++ [sort_strings c]) ↔ w ∈ mjoin l ∨ w ∈ c.
Proof.
  rewrite join_app, elem_of_app. simpl. rewrite app_nil_r. unfold sort_strings.
  by rewrite (elem_of_sort_by str_cmp).
Qed.

Section Tarjan.
Context (adjacency : Adjacency) (universe : gset string).
Hypothesis universe_closed : ∀ x y, x ∈ universe → edge adjacency x y → y ∈ universe.
Abbreviation E := (edge adjacency).
Abbreviation R := (rtc (edge adjacency)).

(** A list of all the vertices of one class, sorted. *)
Definition is_class (c : list string) : Prop :=
  StronglySorted (cmp_le str_cmp) c ∧ ∃ v, ∀ y, y ∈ c ↔ mutual adjacency v y.

Record tarjan_inv (gray : list string) (st : tarjan) : Prop := {
  ti_on : ∀ w, onstack st w = true ↔ w ∈ tj_stack st;
  ti_sorted : StronglySorted (λ x y, index_of st y < index_of st x) (tj_stack st);
  ti_visited : ∀ w, visited st w ↔ w ∈ tj_stack st ∨ w ∈ closed_vertices st;
  ti_bound : ∀ w, visited st w → index_of st w < tj_index st ∧ w ∈ universe;
  ti_disjoint : ∀ w, w ∈ tj_stack st → w ∉ closed_vertices st;
  ti_gray : ∀ w, w ∈ gray → w ∈ tj_stack st;
  ti_black : ∀ x y, visited st x → x ∉ gray → E x y → visited st y;
  ti_closed : ∀ x y, x ∈ closed_vertices st → E x y → y ∈ closed_vertices st;
  ti_classes : ∀ c, c ∈ tj_components st → is_class c;
  ti_nodup : NoDup (closed_vertices st);
  ti_chain : ∀ x y, x ∈ tj_stack st → y ∈ tj_stack st → index_of st x ≤ index_of st y → R x y;
  ti_below : ∀ y, y ∈ tj_stack st → ∃ g, g ∈ gray ∧ index_of st g ≤ index_of st y ∧ R y g
}.

(** What a call keeps of the state it starts from. *)
Record extends (st st' : tarjan) : Prop := {
  ex_index : tj_index st ≤ tj_index st';
  ex_same : ∀ w, visited st w → visited st' w ∧ index_of st' w = index_of st w ∧ low_of st' w = low_of st w;
  ex_new : ∀ w, visited st' w → ¬ visited st w → tj_index st ≤ index_of st' w;
  ex_stack : ∀ w, w ∈ tj_stack st → w ∈ tj_stack st';
  ex_closed : ∀ w, w ∈ closed_vertices st → w ∈ closed_vertices st'
}.

Lemma extends_refl st : extends st st.
Proof. by split. Qed.

Lemma extends_trans st1 st2 st3 : extends st1 st2 → extends st2 st3 → extends st1 st3.
Proof.
  intros [H1 H2 H3 H4 H5] [K1 K2 K3 K4 K5]. split; [lia| | |auto|auto].
  - intros w Hw. destruct (H2 w Hw) as (Hv&Hi&Hl). destruct (K2 w Hv) as (?&?&?). split; [done|]. split; congruence.
  - intros w Hw Hn. destruct (decide (visited st2 w)) as [Hv|Hv].
    + destruct (K2 w Hv) as (_&->&_). auto.
    + specialize (K3 w Hw Hv). lia.
Qed.

(** Neither the invariant nor the vertices seen depend on [low]. *)
Lemma tarjan_inv_set_low gray v n st : tarjan_inv gray st → tarjan_inv gray (set_low v n st).
Proof. intros [????????????]. by split. Qed.

Lemma low_of_set_low v n st w : low_of (set_low v n st) w = if decide (v = w) then n else low_of st w.
Proof. unfold low_of. simpl. rewrite lookup_insert. by case_decide. Qed.

Lemma low_of_set_low_eq v n st : low_of (set_low v n st) v = n.
Proof. rewrite low_of_set_low. by case_decide. Qed.

Lemma extends_set_low v n st st' : ¬ visited st v → extends st st' → extends st (set_low v n st').
Proof.
  intros Hv [K1 K2 K3 K4 K5]. split; [done| |done|done|done].
  intros w Hw. destruct (K2 w Hw) as (?&?&?). split; [done|]. split; [done|].
  rewrite low_of_set_low, decide_False by (by intros <-). done.
Qed.

(** ** Entering a vertex *)

Section Enter.
Context (gray : list string) (v : string) (st : tarjan).
Hypothesis inv : tarjan_inv gray st.
Hypothesis fresh : ¬ visited st v.
Hypothesis in_universe : v ∈ universe.
Hypothesis gray_reaches : ∀ g, g ∈ gray → R g v.

Lemma enter_visited w : visited (enter v st) w ↔ w = v ∨ visited st w.
Proof.
  unfold visited. simpl. destruct (decide (w = v)) as [->|Hne].
  - rewrite lookup_insert_eq. split; eauto.
  - rewrite lookup_insert_ne by done. split; [by right|]. by intros [|].
Qed.
Lemma enter_index w : index_of (enter v st) w = if decide (w = v) then tj_index st else index_of st w.
Proof.
  unfold index_of. simpl. case_decide as Hw; [subst; by rewrite lookup_insert_eq|].
  by rewrite lookup_insert_ne.
Qed.
Lemma enter_index_old w : visited st w → index_of (enter v st) w = index_of st w.
Proof. intros Hw. rewrite enter_index. case_decide; [by subst|done]. Qed.
Lemma enter_index_new : index_of (enter v st) v = tj_index st.
Proof. rewrite enter_index. by case_decide. Qed.
Lemma enter_low_new : low_of (enter v st) v = tj_index st.
Proof. unfold low_of. simpl. by rewrite lookup_insert_eq. Qed.

Lemma stack_visited w : w ∈ tj_stack st → visited st w.
Proof. intros Hw. apply (ti_visited _ _ inv). by left. Qed.
Lemma stack_index w : w ∈ tj_stack st → index_of (enter v st) w = index_of st w.
Proof. intros Hw. by apply enter_index_old, stack_visited. Qed.
Lemma stack_below w : w ∈ tj_stack st → index_of st w < tj_index st.
Proof. intros Hw. by apply (ti_bound _ _ inv), stack_visited. Qed.
Lemma stack_reaches w : w ∈ tj_stack st → R w v.
Proof.
  intros Hw. destruct (ti_below _ _ inv w Hw) as (g&Hg&_&Hr).
  etrans; [exact Hr|by apply gray_reaches].
Qed.

Lemma enter_extends : extends st (enter v st).
Proof.
  split; simpl; [lia| | |by right|done].
  - intros w Hw. rewrite enter_visited, enter_index_old by done. split; [by right|]. split; [done|].
    unfold low_of. simpl. rewrite lookup_insert_ne; [done|]. by intros ->.
  - intros w [->|Hw]%enter_visited Hn; [by rewrite enter_index_new|done].
Qed.

Lemma enter_sorted : StronglySorted (λ x y, index_of (enter v st) y < index_of (enter v st) x) (v :: tj_stack st).
Proof.
  constructor.
  - pose proof (ti_sorted _ _ inv) as Hs. pose proof stack_index as Hi. revert Hs Hi.
    generalize (tj_stack st). intros l. induction 1 as [|x l Hl IH Hx]; intros Hi; constructor.
    + apply IH. intros w Hw. apply Hi. by right.
    + rewrite Forall_forall in Hx |- *. intros y Hy. rewrite !Hi by (by left || by right). by apply Hx.
  - apply Forall_forall. intros w Hw. rewrite enter_index_new, stack_index by done. by apply stack_below.
Qed.

Lemma enter_inv : tarjan_inv (v :: gray) (enter v st).
Proof.
  split; simpl.
  - intros w. unfold onstack. simpl. rewrite elem_of_cons. destruct (decide (w = v)) as [->|Hne].
    + rewrite lookup_insert_eq. split; [by left|done].
    + rewrite lookup_insert_ne by done. fold (onstack st w). rewrite (ti_on _ _ inv). tauto.
  - apply enter_sorted.
  - intros w. rewrite enter_visited, elem_of_cons, (ti_visited _ _ inv). unfold closed_vertices; simpl. tauto.
  - intros w [->|Hw]%enter_visited; [rewrite enter_index_new; auto|].
    rewrite enter_index_old by done. destruct (ti_bound _ _ inv w Hw). auto.
  - intros w [->|Hw]%elem_of_cons; [|by apply (ti_disjoint _ _ inv)].
    intros Hc. apply fresh, (ti_visited _ _ inv). by right.
  - intros w [->|Hw]%elem_of_cons; [by left|right; by apply (ti_gray _ _ inv)].
  - intros x y [->|Hx]%enter_visited Hg He; [destruct Hg; left|].
    apply enter_visited. right. apply (ti_black _ _ inv x); [done| |done].
    intros Hxg. apply Hg. by right.
  - apply (ti_closed _ _ inv).
  - apply (ti_classes _ _ inv).
  - apply (ti_nodup _ _ inv).
  - intros x y [->|Hx]%elem_of_cons [->|Hy]%elem_of_cons.
    + done.
    + rewrite enter_index_new, stack_index by done. intros ?. pose proof (stack_below _ Hy). lia.
    + intros _. by apply stack_reaches.
    + rewrite !stack_index by done. by apply (ti_chain _ _ inv).
  - intros y [->|Hy]%elem_of_cons; [exists v; repeat split; [left|done|done]|].
    destruct (ti_below _ _ inv y Hy) as (g&Hg&Hle&Hr). exists g. split; [by right|].
    rewrite !stack_index by (done || by apply (ti_gray _ _ inv)). done.
Qed.
End Enter.

(** ** The edges of a vertex on the call stack *)

Section Edges.
Context (v : string) (n : nat).

(** [low[v]] after the edges to [done]: the number of a stack vertex that [v]
    reaches, and at most that of any stack vertex with an edge from [v]'s subtree. *)
Record low_inv (done : list string) (st : tarjan) : Prop := {
  li_index : index_of st v = n;
  li_entered : n < tj_index st;
  li_low : low_of st v ≤ n;
  li_witness : ∃ x, x ∈ tj_stack st ∧ index_of st x = low_of st v ∧ R v x;
  li_minimal : ∀ x y, x ∈ tj_stack st → n ≤ index_of st x → y ∈ tj_stack st → E x y →
    (x = v → y ∈ done) → low_of st v ≤ index_of st y;
  li_done : ∀ w, w ∈ done → visited st w
}.

(** A smaller value with the same properties. *)
Lemma low_inv_take done st m : low_inv done st → m < low_of st v →
  (∃ x, x ∈ tj_stack st ∧ index_of st x = m ∧ R v x) → low_inv done (set_low v m st).
Proof.
  intros [H1 H2 H3 H4 H5 H6] Hm Hw. split; rewrite ?low_of_set_low_eq; [done|done|lia|done| |done].
  intros x y Hx Hn Hy He Hd. specialize (H5 x y Hx Hn Hy He Hd). change (index_of (set_low v m st) y) with (index_of st y). lia.
Qed.
End Edges.

(** ** The specification of a call, and the loop over the edges *)

Record visit_post (st : tarjan) (gray : list string) (v : string) (st' : tarjan) : Prop := {
  vp_inv : tarjan_inv gray st';
  vp_extends : extends st st';
  vp_visited : visited st' v;
  vp_low : v ∈ tj_stack st' → ∃ x, x ∈ tj_stack st' ∧ index_of st' x = low_of st' v ∧ R v x;
  vp_root : v ∉ tj_stack st' → tj_index st ≤ low_of st' v;
  vp_minimal : ∀ x y, x ∈ tj_stack st' → tj_index st ≤ index_of st' x → y ∈ tj_stack st' → E x y →
    low_of st' v ≤ index_of st' y
}.

Definition unvisited (st : tarjan) : nat := size (filter (λ w, ¬ visited st w) universe).

Lemma unvisited_extends st st' : extends st st' → unvisited st' ≤ unvisited st.
Proof.
  intros He. unfold unvisited. apply subseteq_size. intros w. rewrite !elem_of_filter. intros [Hw ?]. split; [|done].
  intros Hv. by apply Hw, (ex_same _ _ He).
Qed.

Lemma unvisited_enter v st : ¬ visited st v → v ∈ universe → unvisited (enter v st) < unvisited st.
Proof.
  intros Hn Hu. unfold unvisited. apply subset_size. split.
  - intros w. rewrite !elem_of_filter, enter_visited. intros [Hw ?]. split; [tauto|done].
  - intros Hs. assert (Hv : v ∈ filter (λ w, ¬ visited st w) universe) by (by apply elem_of_filter).
    apply Hs, elem_of_filter in Hv as [Hv _]. rewrite enter_visited in Hv. tauto.
Qed.

Section Loop.
Context (rec : string → tarjan → option tarjan) (gray : list string) (v : string) (n : nat) (st0 : tarjan) (budget : nat).
Hypothesis gray_reaches : ∀ g, g ∈ gray → R g v.
Hypothesis v_entered : v ∈ universe.
Hypothesis rec_spec : ∀ w st, tarjan_inv (v :: gray) st → ¬ visited st w → w ∈ universe →
  (∀ g, g ∈ v :: gray → R g w) → unvisited st < budget → ∃ st', rec w st = Some st' ∧ visit_post st (v :: gray) w st'.

Record loop_inv (done : list string) (st : tarjan) : Prop := {
  lo_inv : tarjan_inv (v :: gray) st;
  lo_low : low_inv v n done st;
  lo_extends : extends st0 st;
  lo_fresh : ¬ visited st0 v
}.

Lemma loop_set_low done st m : loop_inv done st → m < low_of st v →
  (∃ x, x ∈ tj_stack st ∧ index_of st x = m ∧ R v x) → loop_inv done (set_low v m st).
Proof.
  intros [H1 H2 H3 H4] Hm Hx. split; [by apply tarjan_inv_set_low|by apply low_inv_take| |done].
  by apply extends_set_low.
Qed.

(** The edge to a vertex seen before. *)
Lemma loop_seen done w i st : loop_inv done st → E v w → tj_indices st !! w = Some i →
  loop_inv (w :: done) (if onstack st w && (i <? low_of st v) then set_low v i st else st).
Proof.
  intros Hl He Hi.
  assert (Hw : index_of st w = i) by (unfold index_of; by rewrite Hi).
  assert (Hstep : ∀ st', loop_inv done st' → tj_stack st' = tj_stack st → (∀ x, index_of st' x = index_of st x) →
    visited st' w → (w ∈ tj_stack st → low_of st' v ≤ i) → loop_inv (w :: done) st').
  { intros st' [H1 [L1 L2 L3 L4 L5 L6] H3 H4] Hstk Hidx Hv Hle. split; [done| |done|done]. split; [done..| |].
    - intros x y Hx Hn Hy Hxy Hd. destruct (decide (y = w)) as [->|Hne].
      + rewrite Hidx, Hw. apply Hle. by rewrite <- Hstk.
      + apply (L5 x y); try done. intros Hxv. destruct (proj1 (elem_of_cons _ _ _) (Hd Hxv)); done.
    - intros z [->|Hz]%elem_of_cons; [done|by apply L6]. }
  assert (visited st w) by (unfold visited; eauto).
  pose proof (ti_on _ _ (lo_inv _ _ Hl) w) as Hon.
  destruct (onstack st w) eqn:Ho; simpl.
  - destruct (Nat.ltb_spec i (low_of st v)) as [Hlt|Hge]; apply Hstep; try done.
    + apply loop_set_low; [done|done|]. exists w. split; [by apply Hon|]. split; [done|]. by apply rtc_once.
    + intros _. by rewrite low_of_set_low_eq.
  - apply Hstep; try done. intros Hin%Hon. done.
Qed.

(** The edge to a new vertex: the recursive call, then the update of [low]. *)
Section Call.
Context (done_ : list string) (w : string) (st st1 : tarjan).
Hypothesis before : loop_inv done_ st.
Hypothesis Hedge : E v w.
Hypothesis post : visit_post st (v :: gray) w st1.
Hypothesis Hnew : ¬ visited st w.

Lemma call_visited x : x ∈ tj_stack st → visited st x.
Proof. intros ?. apply (ti_visited _ _ (lo_inv _ _ before)). by left. Qed.

Lemma call_v : index_of st1 v = n ∧ low_of st1 v = low_of st v.
Proof.
  destruct (ex_same _ _ (vp_extends _ _ _ _ post) v) as (_&->&->).
  - apply call_visited, (ti_gray _ _ (lo_inv _ _ before)). left.
  - split; [|done]. apply (lo_low _ _ before).
Qed.

(** A stack vertex of the new state is old, or numbered since. *)
Lemma call_old x : x ∈ tj_stack st1 →
  (x ∈ tj_stack st ∧ index_of st1 x = index_of st x) ∨ (tj_index st ≤ index_of st1 x ∧ ¬ visited st x).
Proof.
  destruct post as [Pi Px _ _ _ _]. intros Hx1. destruct (decide (visited st x)) as [Hv|Hv].
  - left. split; [|by apply (ex_same _ _ Px)].
    apply (ti_visited _ _ (lo_inv _ _ before)) in Hv as [|Hc]; [done|].
    by destruct (ti_disjoint _ _ Pi x Hx1); apply (ex_closed _ _ Px).
  - right. split; [|done]. apply (ex_new _ _ Px); [|done]. apply (ti_visited _ _ Pi). by left.
Qed.

Lemma call_minimal m x y : m ≤ low_of st v → m ≤ low_of st1 w →
  x ∈ tj_stack st1 → n ≤ index_of st1 x → y ∈ tj_stack st1 → E x y → (x = v → y ∈ w :: done_) → m ≤ index_of st1 y.
Proof.
  intros Hmv Hmw Hx Hnx Hy Hxy Hd. destruct before as [_ [_ L2 L3 _ L5 _] _ _].
  destruct (call_old x Hx) as [[Hxs Hxi]|[Hxi _]]; [|by pose proof (vp_minimal _ _ _ _ post x y Hx Hxi Hy Hxy); lia].
  destruct (call_old y Hy) as [[Hys Hyi]|[Hyi _]]; [|lia].
  rewrite Hyi. etrans; [exact Hmv|]. apply (L5 x y); try done; [by rewrite <- Hxi|].
  intros Hxv. destruct (proj1 (elem_of_cons _ _ _) (Hd Hxv)) as [->|]; [|done].
  by destruct Hnew; apply call_visited.
Qed.

Lemma call_done z : z ∈ w :: done_ → visited st1 z.
Proof.
  intros [->|Hz]%elem_of_cons; [apply (vp_visited _ _ _ _ post)|].
  apply (ex_same _ _ (vp_extends _ _ _ _ post)). by apply (lo_low _ _ before).
Qed.

Lemma call_keep : low_of st1 v ≤ low_of st1 w → loop_inv (w :: done_) st1.
Proof.
  intros Hle. destruct call_v as [Hiv Hlv]. pose proof (vp_extends _ _ _ _ post) as Px.
  destruct before as [Hi [L1 L2 L3 L4 L5 L6] Hx Hf]. split; [apply post| |by eapply extends_trans|done].
  split; [done|pose proof (ex_index _ _ Px); lia|by rewrite Hlv| | |apply call_done].
  - destruct L4 as (x&Hxs&Hxi&Hr). exists x. split; [by apply (ex_stack _ _ Px)|]. split; [|done].
    destruct (ex_same _ _ Px x (call_visited x Hxs)) as (_&->&_). congruence.
  - intros x y. rewrite Hlv in *. by apply call_minimal.
Qed.

Lemma call_lower : low_of st1 w < low_of st1 v → loop_inv (w :: done_) (set_low v (low_of st1 w) st1).
Proof.
  intros Hlt. destruct call_v as [Hiv Hlv]. pose proof (vp_extends _ _ _ _ post) as Px.
  pose proof (ex_index _ _ Px) as Hidx. destruct before as [Hi [L1 L2 L3 _ _ _] Hx Hf].
  assert (Hws : w ∈ tj_stack st1).
  { destruct (decide (w ∈ tj_stack st1)) as [|Hn]; [done|]. pose proof (vp_root _ _ _ _ post Hn). lia. }
  destruct (vp_low _ _ _ _ post Hws) as (x&Hxs&Hxi&Hr).
  split; [apply tarjan_inv_set_low, post| | |done].
  - split; rewrite ?low_of_set_low_eq; [done|simpl; lia|lia| | |apply call_done].
    + exists x. split; [done|]. split; [done|]. by eapply rtc_l.
    + intros a b. apply call_minimal; [lia|done].
  - apply extends_set_low; [done|]. by eapply extends_trans.
Qed.

Lemma loop_call : loop_inv (w :: done_) (if low_of st1 w <? low_of st1 v then set_low v (low_of st1 w) st1 else st1).
Proof. destruct (Nat.ltb_spec (low_of st1 w) (low_of st1 v)); [by apply call_lower|by apply call_keep]. Qed.
End Call.

Lemma visit_edges_spec : ∀ ws done st, loop_inv done st → (∀ w, w ∈ ws → E v w) → unvisited st < budget →
  ∃ st', visit_edges rec v ws st = Some st' ∧ loop_inv (rev ws ++ done) st'.
Proof.
  induction ws as [|w ws IH]; intros done st Hl Hws Hb; simpl; [by eauto|].
  assert (He : E v w) by (apply Hws; left).
  assert (Hws' : ∀ u, u ∈ ws → E v u) by (intros u Hu; apply Hws; by right).
  rewrite <- app_assoc. simpl. destruct (tj_indices st !! w) as [i|] eqn:Ei.
  - apply IH; [by apply loop_seen|done|]. by destruct (_ && _).
  - assert (Hnv : ¬ visited st w) by (unfold visited; rewrite Ei; by intros []).
    destruct (rec_spec w st) as (st1&->&Hp); [apply Hl|done|by eapply universe_closed| |done|].
    { intros g [->|Hg]%elem_of_cons; [by apply rtc_once|]. eapply rtc_r; [by apply gray_reaches|done]. }
    simpl. apply IH; [by eapply loop_call|done|].
    pose proof (unvisited_extends _ _ (vp_extends _ _ _ _ Hp)). by destruct (_ <? _); [change (unvisited st1 < budget)|]; lia.
Qed.
End Loop.

(** ** Closing a component *)

Lemma pop_component_spec v : ∀ top rest on component, v ∉ top →
  pop_component v (top ++ v :: rest) on component =
    Some (rest, foldl (λ m w, <[w := false]> m) on (top ++ [v]), component ++ top ++ [v]).
Proof.
  induction top as [|x top IH]; intros rest on component Hv; simpl.
  - by rewrite String.eqb_refl.
  - destruct (String.eqb_spec x v) as [->|Hne]; [destruct Hv; left|].
    rewrite IH by (intros ?; apply Hv; by right). by rewrite <- (assoc_L (++)).
Qed.

Lemma foldl_off (l : list string) (on : gmap string bool) w :
  default false (foldl (λ m w, <[w := false]> m) on l !! w) = if decide (w ∈ l) then false else default false (on !! w).
Proof.
  revert on. induction l as [|x l IH]; intros on; simpl.
  { done. }
  rewrite IH. destruct (decide (w ∈ x :: l)) as [Hw|Hw].
  - apply elem_of_cons in Hw as [->|Hw]; [rewrite lookup_insert_eq; by case_decide|by rewrite decide_True].
  - apply not_elem_of_cons in Hw as [Hne Hw]. by rewrite decide_False, lookup_insert_ne.
Qed.

Section Close.
Context (gray : list string) (v : string) (st0 st : tarjan) (done_ : list string).
Abbreviation n := (tj_index st0).
Hypothesis inv : loop_inv gray v n st0 done_ st.
Hypothesis inv0 : tarjan_inv gray st0.
Hypothesis all_done : ∀ y, E v y → y ∈ done_.

Lemma close_v : v ∈ tj_stack st ∧ index_of st v = n ∧ visited st v.
Proof.
  assert (v ∈ tj_stack st) by (apply (ti_gray _ _ (lo_inv _ _ _ _ _ _ inv)); left).
  split; [done|]. split; [apply (lo_low _ _ _ _ _ _ inv)|].
  apply (ti_visited _ _ (lo_inv _ _ _ _ _ _ inv)). by left.
Qed.

Lemma close_gray g : g ∈ gray → g ∈ tj_stack st ∧ index_of st g < n ∧ g ≠ v.
Proof.
  intros Hg. assert (Hv : visited st0 g).
  { apply (ti_visited _ _ inv0). left. by apply (ti_gray _ _ inv0). }
  split; [apply (ti_gray _ _ (lo_inv _ _ _ _ _ _ inv)); by right|].
  destruct (ex_same _ _ (lo_extends _ _ _ _ _ _ inv) g Hv) as (_&->&_).
  split; [by apply (ti_bound _ _ inv0)|]. intros ->. by apply (lo_fresh _ _ _ _ _ _ inv).
Qed.

(** The successors of the subtree of [v] have been visited. *)
Lemma close_successors x y : visited st x → x ∉ gray → E x y → visited st y.
Proof.
  intros Hx Hg He. destruct (decide (x = v)) as [->|Hne].
  - apply (lo_low _ _ _ _ _ _ inv). by apply all_done.
  - apply (ti_black _ _ (lo_inv _ _ _ _ _ _ inv) x); [done| |done]. by intros [|]%elem_of_cons.
Qed.

(** [low[v] < indices[v]]: [v] stays on the stack and is no longer on the call stack. *)
Lemma close_stays : low_of st v < n → tarjan_inv gray st.
Proof.
  intros Hlow. destruct (lo_inv _ _ _ _ _ _ inv) as [I1 I2 I3 I4 I5 I6 I7 I8 I9 I10 I11 I12].
  split; try done.
  - intros w Hw. by apply close_gray.
  - intros x y. apply close_successors.
  - intros y Hy. destruct (I12 y Hy) as (g&[->|Hg]%elem_of_cons&Hle&Hr); [|by exists g].
    destruct (li_witness _ _ _ _ (lo_low _ _ _ _ _ _ inv)) as (x&Hx&Hxi&Hvx).
    destruct close_v as (_&Hvn&_). rewrite Hvn in Hle.
    destruct (I12 x Hx) as (g&[->|Hg]%elem_of_cons&Hgle&Hgr); [lia|].
    exists g. split; [done|]. split; [lia|]. etrans; [exact Hr|]. by etrans.
Qed.

(** [low[v] == indices[v]]: the vertices from [v] up are one class. *)
Section Root.
Hypothesis root : low_of st v = n.
Abbreviation above := (λ x, x ∈ tj_stack st ∧ n ≤ index_of st x).

Lemma above_closed x y : above x ∨ x ∈ closed_vertices st → E x y → above y ∨ y ∈ closed_vertices st.
Proof.
  intros [[Hx Hn]|Hx] He; [|right; by eapply (ti_closed _ _ (lo_inv _ _ _ _ _ _ inv))].
  assert (Hy : visited st y).
  { apply (close_successors x); [|intros Hg|done].
    - apply (ti_visited _ _ (lo_inv _ _ _ _ _ _ inv)). by left.
    - destruct (close_gray x Hg) as (_&?&_). lia. }
  apply (ti_visited _ _ (lo_inv _ _ _ _ _ _ inv)) in Hy as [Hy|Hy]; [left|by right].
  split; [done|]. rewrite <- root. apply (li_minimal _ _ _ _ (lo_low _ _ _ _ _ _ inv) x); try done.
  intros ->. by apply all_done.
Qed.

Lemma above_path x y : above x ∨ x ∈ closed_vertices st → R x y → above y ∨ y ∈ closed_vertices st.
Proof. intros Hx Hr. induction Hr as [|x y z He _ IH]; [done|]. apply IH. by eapply above_closed. Qed.

Lemma above_reaches y : above y → R y v.
Proof.
  intros [Hy Hn]. pose proof (lo_inv _ _ _ _ _ _ inv) as Hi.
  destruct (ti_below _ _ Hi y Hy) as (g&[->|Hg]%elem_of_cons&_&Hr); [done|].
  destruct (close_gray g Hg) as (Hgs&Hgn&_).
  destruct (above_path y g) as [[_ ?]|Hc]; [by left|done|lia|].
  by destruct (ti_disjoint _ _ Hi g Hgs).
Qed.

Lemma above_class y : above y ↔ mutual adjacency v y.
Proof.
  destruct close_v as (Hvs&Hvn&_). pose proof (lo_inv _ _ _ _ _ _ inv) as Hi. split.
  - intros Hy. split; [|by apply above_reaches]. destruct Hy. apply (ti_chain _ _ Hi); [done|done|lia].
  - intros [Hvy Hyv]. destruct (above_path v y) as [|Hc]; [left; split; [done|lia]|done|done|].
    exfalso. apply (ti_disjoint _ _ Hi v Hvs). clear Hvy. induction Hyv as [|a b c Hab _ IH]; [done|].
    apply IH; try done. by eapply (ti_closed _ _ Hi).
Qed.

(** The stack is cut at [v]. *)
Lemma stack_cut : ∃ top rest, tj_stack st = top ++ (v :: rest) ∧ (v ∉ top) ∧ NoDup (top ++ v :: rest) ∧
  (∀ x, x ∈ top ++ [v] ↔ above x) ∧ (∀ x, x ∈ rest ↔ x ∈ tj_stack st ∧ index_of st x < n) ∧
  StronglySorted (λ x y, index_of st y < index_of st x) rest.
Proof.
  destruct close_v as (Hvs&Hvn&_). pose proof (ti_sorted _ _ (lo_inv _ _ _ _ _ _ inv)) as Hs.
  assert (Hnd : NoDup (tj_stack st)).
  { clear -Hs. induction Hs as [|x l Hl IH Hx]; [constructor|]. constructor; [|done].
    intros Hin. rewrite Forall_forall in Hx. specialize (Hx x Hin). simpl in Hx. lia. }
  apply list_elem_of_split in Hvs as (top&rest&Hst). exists top, rest. rewrite Hst in *.
  apply StronglySorted_app in Hs as (Hcross&_&Hs). apply StronglySorted_inv in Hs as [Hs Hrest].
  rewrite Forall_forall in Hrest.
  assert (Htop : ∀ x, x ∈ top → n < index_of st x).
  { intros x Hx. rewrite <- Hvn. apply Hcross; [done|left]. }
  assert (Hlt : ∀ x, x ∈ rest → index_of st x < n) by (intros x Hx; rewrite <- Hvn; by apply Hrest).
  split; [done|]. split; [intros Hin; specialize (Htop v Hin); lia|]. split; [done|].
  split; [|split; [|done]]; intros x; rewrite !elem_of_app, ?list_elem_of_singleton, elem_of_cons; split.
  - intros [Hx| ->]; [split; [tauto|]|split; [tauto|lia]]. apply Nat.lt_le_incl. by apply Htop.
  - intros [[Hx|[->|Hx]] Hn]; [tauto|tauto|]. specialize (Hlt x Hx). lia.
  - intros Hx. split; [tauto|by apply Hlt].
  - intros [[Hx|[->|Hx]] Hn]; [specialize (Htop x Hx); lia|lia|done].
Qed.
Definition popped (rest : list string) (component : list string) : tarjan :=
  mkTarjan (tj_index st) rest (foldl (λ m w, <[w := false]> m) (tj_onStack st) component)
    (tj_indices st) (tj_low st) (tj_components st ++ [sort_strings component]).

Lemma closed_popped rest component w :
  w ∈ closed_vertices (popped rest component) ↔ w ∈ closed_vertices st ∨ w ∈ component.
Proof.
  apply join_snoc.
Qed.

Lemma popped_inv top rest : tj_stack st = top ++ v :: rest → NoDup (top ++ v :: rest) →
  (∀ x, x ∈ top ++ [v] ↔ above x) → (∀ x, x ∈ rest ↔ x ∈ tj_stack st ∧ index_of st x < n) →
  StronglySorted (λ x y, index_of st y < index_of st x) rest →
  tarjan_inv gray (popped rest (top ++ [v])).
Proof.
  intros Hst Hnd Htop Hrest Hs. destruct (lo_inv _ _ _ _ _ _ inv) as [I1 I2 I3 I4 I5 I6 I7 I8 I9 I10 I11 I12].
  assert (Hcut : ∀ x, x ∈ tj_stack st ↔ x ∈ rest ∨ x ∈ top ++ [v]).
  { intros x. rewrite Htop, Hrest. split; [|tauto]. intros Hx. destruct (decide (index_of st x < n)); [tauto|].
    right. split; [done|lia]. }
  assert (Hdis : ∀ x, x ∈ rest → x ∉ top ++ [v]).
  { intros x Hx%Hrest Hx'%Htop. lia. }
  split; simpl.
  - intros w. unfold onstack; simpl. rewrite foldl_off. case_decide as Hw.
    + split; [done|]. intros Hr. by destruct (Hdis w).
    + fold (onstack st w). rewrite I1, Hcut. tauto.
  - exact Hs.
  - intros w. change (visited st w ↔ w ∈ rest ∨ w ∈ closed_vertices (popped rest (top ++ [v]))).
    rewrite closed_popped, I3, Hcut. tauto.
  - exact I4.
  - intros w Hw [Hc|Hc]%closed_popped; [|by apply (Hdis w)]. apply (I5 w); [|done]. apply Hcut. by left.
  - intros g Hg. destruct (close_gray g Hg) as (?&?&_). by apply Hrest.
  - intros x y. apply close_successors.
  - intros x y Hx%closed_popped He. apply closed_popped. rewrite (Htop y).
    destruct (above_closed x y) as [?|?]; [|done|by right|by left]. rewrite Htop in Hx. tauto.
  - intros c [Hc| ->%list_elem_of_singleton]%elem_of_app; [by apply I9|]. split; [apply sort_by_sorted; apply _|].
    exists v. intros y. unfold sort_strings. rewrite elem_of_sort_by, Htop by apply _. apply above_class.
  - unfold closed_vertices; simpl. rewrite join_app. apply NoDup_app. split; [done|].
    simpl. rewrite app_nil_r. split.
    + intros x Hx Hx'. unfold sort_strings in Hx'. rewrite elem_of_sort_by in Hx' by apply _.
      apply (I5 x); [|done]. apply Hcut. by right.
    + unfold sort_strings. rewrite sort_by_nodup by apply _.
      rewrite cons_middle, (assoc_L (++)) in Hnd. by apply NoDup_app in Hnd as [? _].
  - intros x y Hx%Hrest Hy%Hrest. apply I11; tauto.
  - intros y Hy%Hrest. destruct Hy as [Hys Hyn]. destruct (I12 y Hys) as (g&[->|Hg]%elem_of_cons&Hle&Hr).
    + destruct close_v as (_&Hvn&_). change (index_of st v ≤ index_of st y) in Hle. lia.
    + by exists g.
Qed.

Lemma close_root : ∃ st', close_component v st = Some st' ∧ visit_post st0 gray v st'.
Proof.
  destruct stack_cut as (top&rest&Hst&Hv&Hnd&Htop&Hrest&Hs). destruct close_v as (Hvs&Hvn&Hvv).
  exists (popped rest (top ++ [v])). split.
  - unfold close_component. rewrite root, Hvn, Nat.eqb_refl, Hst, pop_component_spec by done. done.
  - assert (Hvr : v ∉ rest) by (intros Hin%Hrest; lia).
    pose proof (lo_extends _ _ _ _ _ _ inv) as [X1 X2 X3 X4 X5].
    split; simpl; [by apply popped_inv| |done|done|intros _; change (n ≤ low_of st v); lia|].
    + split; simpl; [done|done|done| |].
      * intros w Hw. apply Hrest. split; [by apply X4|].
        assert (Hwv : visited st0 w) by (apply (ti_visited _ _ inv0); by left).
        destruct (X2 w Hwv) as (_&->&_). by apply (ti_bound _ _ inv0).
      * intros w Hw. apply closed_popped. left. by apply X5.
    + intros x y Hx%Hrest Hn. change (n ≤ index_of st x) in Hn. lia.
Qed.
End Root.

Lemma close_spec : ∃ st', close_component v st = Some st' ∧ visit_post st0 gray v st'.
Proof.
  pose proof (lo_low _ _ _ _ _ _ inv) as [L1 L2 L3 L4 L5 L6]. destruct close_v as (Hvs&Hvn&Hvv).
  destruct (decide (low_of st v = n)) as [Hr|Hr]; [by apply close_root|].
  exists st. split.
  - unfold close_component. destruct (Nat.eqb_spec (low_of st v) (index_of st v)); [congruence|done].
  - split; [apply close_stays; lia|apply inv|done|done|done|].
    intros x y Hx Hn Hy He. apply (L5 x y); try done. intros ->. by apply all_done.
Qed.
End Close.

(** ** The whole run *)

Lemma visit_spec : ∀ fuel gray v st, tarjan_inv gray st → ¬ visited st v → v ∈ universe →
  (∀ g, g ∈ gray → R g v) → unvisited st < fuel →
  ∃ st', visit fuel adjacency v st = Some st' ∧ visit_post st gray v st'.
Proof.
  induction fuel as [|fuel IH]; intros gray v st Hi Hn Hu Hg Hf; [lia|]. simpl.
  assert (Hl : loop_inv gray v (tj_index st) st [] (enter v st)).
  { split; [by apply enter_inv| |by eapply enter_extends|done].
    split; simpl; [apply enter_index_new|lia|by rewrite enter_low_new| | |by intros w ?%elem_of_nil].
    - exists v. split; [left|]. rewrite enter_index_new, enter_low_new. done.
    - intros x y Hx Hnx Hy He Hd. destruct (decide (x = v)) as [->|Hxv]; [by apply elem_of_nil in Hd|].
      apply elem_of_cons in Hx as [|Hx]; [done|]. rewrite (stack_index gray v st Hi Hn x Hx) in Hnx.
      pose proof (stack_below gray st Hi x Hx). lia. }
  destruct (visit_edges_spec (visit fuel adjacency) gray v (tj_index st) st fuel Hg Hu) with
    (ws := succs adjacency v) (done := @nil string) (st := enter v st) as (st1&->&Hl1); [|done|done| |].
  - intros w st1 Hi1 Hn1 Hu1 Hg1 Hf1. by apply IH.
  - pose proof (unvisited_enter _ _ Hn Hu). lia.
  - simpl. eapply close_spec; [done|done|]. intros y Hy. apply elem_of_app. left. by apply list_elem_of_In, (proj1 (in_rev _ _)), list_elem_of_In.
Qed.

Lemma start_inv : tarjan_inv [] tarjan_start.
Proof.
  assert (Hno : ∀ w, ¬ visited tarjan_start w) by (by intros w [? ?]).
  split; simpl.
  - intros w. split; [done|by intros ?%elem_of_nil].
  - constructor.
  - intros w. split; [by intros ?%Hno|by intros [?%elem_of_nil|?%elem_of_nil]].
  - by intros w ?%Hno.
  - by intros w ?%elem_of_nil.
  - by intros w ?%elem_of_nil.
  - by intros x y ?%Hno.
  - by intros x y ?%elem_of_nil.
  - by intros c ?%elem_of_nil.
  - constructor.
  - by intros x y ?%elem_of_nil.
  - by intros y ?%elem_of_nil.
Qed.

Lemma visit_all_spec : ∀ ids fuel st, tarjan_inv [] st → (∀ v, v ∈ ids → v ∈ universe) → size universe < fuel →
  ∃ st', visit_all fuel adjacency ids st = Some st' ∧ tarjan_inv [] st' ∧ extends st st' ∧ ∀ v, v ∈ ids → visited st' v.
Proof.
  induction ids as [|id ids IH]; intros fuel st Hi Hu Hf; simpl.
  { exists st. split; [done|]. split; [done|]. split; [apply extends_refl|]. by intros v ?%elem_of_nil. }
  assert (Hu' : ∀ v, v ∈ ids → v ∈ universe) by (intros v Hv; apply Hu; by right).
  destruct (tj_indices st !! id) as [i|] eqn:Ei.
  - destruct (IH fuel st Hi Hu' Hf) as (st'&->&?&Hx&Hv). exists st'. repeat (split; [done|]).
    intros v [->|?]%elem_of_cons; [|by apply Hv]. apply (ex_same _ _ Hx). unfold visited. eauto.
  - destruct (visit_spec fuel [] id st) as (st1&->&[P1 P2 P3 _ _ _]); try done.
    + unfold visited. rewrite Ei. by intros [].
    + apply Hu. left.
    + by intros g ?%elem_of_nil.
    + unfold unvisited. eapply Nat.le_lt_trans; [|exact Hf]. apply subseteq_size. intros w ?%elem_of_filter. tauto.
    + simpl. destruct (IH fuel st1 P1 Hu' Hf) as (st'&->&?&Hx&Hv). exists st'. split; [done|]. split; [done|].
      split; [by eapply extends_trans|]. intros v [->|?]%elem_of_cons; [|by apply Hv]. by apply (ex_same _ _ Hx).
Qed.

(** Between calls of [visit] the stack is empty. *)
Lemma idle_stack st : tarjan_inv [] st → tj_stack st = [].
Proof.
  intros Hi. destruct (tj_stack st) as [|x l] eqn:E1; [done|].
  destruct (ti_below _ _ Hi x) as (g&?%elem_of_nil&_); [rewrite E1; left|done].
Qed.
End Tarjan.

(** * [stronglyConnected] against its reference: on the nodes of a flow the result
       is [mutual_classes], computed from [reaches] alone; in particular it returns,
       and its components are a partition of the nodes. *)

Local Open Scope nat_scope.

Lemma mutual_equiv adjacency : Equivalence (mutual adjacency).
Proof.
  split.
  - by intros x.
  - intros x y [? ?]. by split.
  - intros x y z [? ?] [? ?]. split; by etrans.
Qed.

(** The least element of a sorted list is its head. *)
Lemma sorted_head (c : list string) v :
  StronglySorted (cmp_le str_cmp) c → v ∈ c → (∀ w, w ∈ c → cmp_le str_cmp v w) → head c = Some v.
Proof.
  intros Hs Hv Hmin. destruct c as [|h c]; [by apply elem_of_nil in Hv|]. simpl. f_equal.
  apply StronglySorted_inv in Hs as [_ Hh]. rewrite Forall_forall in Hh.
  apply elem_of_cons in Hv as [->|Hv]; [done|]. specialize (Hh v Hv). specialize (Hmin h ltac:(left)).
  apply str_cmp_eq. unfold cmp_le in *. rewrite (cmp_sym str_cmp) in Hmin. destruct (str_cmp h v); done.
Qed.

Lemma head_least (c : list string) h : StronglySorted (cmp_le str_cmp) c → head c = Some h →
  h ∈ c ∧ ∀ w, w ∈ c → cmp_le str_cmp h w.
Proof.
  destruct c as [|x c]; intros Hs Hh; simplify_eq/=. split; [left|].
  apply StronglySorted_inv in Hs as [_ Hx]. rewrite Forall_forall in Hx.
  intros w [->|Hw]%elem_of_cons; [unfold cmp_le; by rewrite (cmp_refl str_cmp)|by apply Hx].
Qed.

(** Sorted lists without repetition and with the same elements are equal. *)
Lemma sorted_set_eq (l k : list string) : NoDup l → NoDup k → (∀ x, x ∈ l ↔ x ∈ k) →
  StronglySorted (cmp_le str_cmp) l → StronglySorted (cmp_le str_cmp) k → l = k.
Proof.
  intros Hl Hk He Sl Sk. apply (sorted_unique str_cmp); [|done|done|by apply NoDup_Permutation].
  intros x y _ _. by apply str_cmp_eq.
Qed.

Section Components.
Context (ids : list string) (adjacency : Adjacency).
Hypothesis ids_nodup : NoDup ids.
Hypothesis ids_closed : ∀ x y, x ∈ ids → edge adjacency x y → y ∈ ids.

Definition class_of (v : string) : list string := filter (λ w, mutualb adjacency v w = true) (sort_strings ids).
Definition leader (v : string) : Prop := forallb (λ w, negb (mutualb adjacency v w) || str_le v w) (sort_strings ids) = true.

Lemma elem_of_ids x : x ∈ sort_strings ids ↔ x ∈ ids.
Proof. by apply elem_of_sort_by. Qed.

Lemma elem_of_class v w : v ∈ ids → w ∈ class_of v ↔ mutual adjacency v w.
Proof.
  intros Hv. unfold class_of. rewrite list_elem_of_filter, mutualb_spec, elem_of_ids. split; [tauto|].
  intros Hm. split; [done|]. destruct Hm as [Hr _]. revert Hv. induction Hr; [done|]. intros Hx. apply IHHr. by eapply ids_closed.
Qed.

Lemma class_sorted v : StronglySorted (cmp_le str_cmp) (class_of v).
Proof. unfold class_of. apply StronglySorted_filter. by apply (sort_by_sorted str_cmp). Qed.

Lemma class_nodup v : NoDup (class_of v).
Proof. apply NoDup_filter. unfold sort_strings. by rewrite (sort_by_nodup str_cmp). Qed.

Lemma leader_spec v : leader v ↔ ∀ w, w ∈ class_of v → cmp_le str_cmp v w.
Proof.
  unfold leader, class_of. rewrite forallb_forall. split.
  - intros Hl w [Hm Hw%list_elem_of_In]%list_elem_of_filter. specialize (Hl w Hw). rewrite Hm in Hl. by apply str_le_spec.
  - intros Hl w Hw%list_elem_of_In. destruct (mutualb adjacency v w) eqn:Hm; [simpl|done].
    apply str_le_spec, Hl, list_elem_of_filter. done.
Qed.

Lemma leader_head v : v ∈ ids → leader v → head (class_of v) = Some v.
Proof.
  intros Hv Hl. apply sorted_head; [apply class_sorted|by apply elem_of_class|by apply leader_spec].
Qed.

Lemma class_of_eq v u : v ∈ ids → u ∈ ids → mutual adjacency v u → class_of v = class_of u.
Proof.
  intros Hv Hu Hm. apply sorted_set_eq; try apply class_nodup; try apply class_sorted.
  intros x. rewrite !elem_of_class by done. destruct (mutual_equiv adjacency) as [_ Hsym Htr].
  split; intros Hx; [|by eapply Htr]. eapply Htr; [by apply Hsym|done].
Qed.

(** ** The reference is a partition in order *)

Abbreviation leaders := (filter (λ v, forallb (λ w, negb (mutualb adjacency v w) || str_le v w) (sort_strings ids) = true) (sort_strings ids)).

Lemma mutual_classes_eq : mutual_classes ids adjacency = class_of <$> leaders.
Proof. done. Qed.

Lemma mutual_classes_sorted : StronglySorted (cmp_lt by_first) (mutual_classes ids adjacency).
Proof.
  rewrite mutual_classes_eq.
  assert (Hs : StronglySorted (cmp_lt str_cmp) leaders).
  { apply StronglySorted_filter. pose proof (sort_by_sorted str_cmp ids) as Hs.
    assert (Hn : NoDup (sort_by str_cmp ids)) by (by rewrite (sort_by_nodup str_cmp)).
    unfold sort_strings. induction Hs as [|x l Hl IH Hx]; [constructor|]. apply NoDup_cons in Hn as [Hxl Hn].
    constructor; [by apply IH|]. rewrite Forall_forall in Hx |- *. intros y Hy. specialize (Hx y Hy).
    unfold cmp_le, cmp_lt in *. destruct (str_cmp x y) eqn:Ec; [|done|done].
    apply str_cmp_eq in Ec as ->. done. }
  assert (Hl : ∀ v, v ∈ leaders → first_of (class_of v) = v).
  { intros v [Hl Hv]%list_elem_of_filter. unfold first_of. rewrite leader_head; [done|by apply elem_of_ids|done]. }
  induction Hs as [|x l Hs IH Hx]; [constructor|]. simpl. constructor; [apply IH; intros v Hv; apply Hl; by right|].
  apply Forall_forall. intros c (y&->&Hy)%list_elem_of_fmap. rewrite Forall_forall in Hx.
  unfold cmp_lt, by_first, onc. rewrite !Hl by (by left || by right). by apply Hx.
Qed.

Lemma elem_of_mutual_classes c : c ∈ mutual_classes ids adjacency ↔ ∃ v, v ∈ ids ∧ c = class_of v.
Proof.
  rewrite mutual_classes_eq, list_elem_of_fmap. split.
  - intros (v&->&[_ Hv]%list_elem_of_filter). exists v. by rewrite <- elem_of_ids.
  - intros (v&Hv&->). destruct (head (class_of v)) as [h|] eqn:Eh.
    2: { apply head_None in Eh. assert (Hin : v ∈ class_of v) by (by apply elem_of_class).
         rewrite Eh in Hin. by apply elem_of_nil in Hin. }
    destruct (head_least _ h (class_sorted v) Eh) as [Hh Hmin].
    assert (Hhi : h ∈ ids) by (by apply list_elem_of_filter in Hh as [_ ?%elem_of_ids]).
    apply elem_of_class in Hh; [|done].
    assert (Hsame : class_of v = class_of h) by (by apply class_of_eq).
    exists h. split; [done|]. apply list_elem_of_filter. split; [|by apply elem_of_ids].
    apply leader_spec. by rewrite <- Hsame.
Qed.

(** No vertex is in two classes. *)
Lemma mutual_classes_nodup : NoDup (mjoin (mutual_classes ids adjacency)).
Proof.
  pose proof (sorted_lt_nodup by_first _ mutual_classes_sorted) as Hn.
  assert (Hc : ∀ c, c ∈ mutual_classes ids adjacency → ∃ v, v ∈ ids ∧ c = class_of v) by (intros c; apply elem_of_mutual_classes).
  induction Hn as [|c l Hcl Hn IH]; [constructor|]. simpl. apply NoDup_app. split; [|split].
  - destruct (Hc c) as (v&_&->); [left|apply class_nodup].
  - intros x Hx (k&Hxk&Hk)%list_elem_of_join. destruct (Hc c) as (v&Hv&->); [left|].
    destruct (Hc k) as (u&Hu&->); [by right|]. apply elem_of_class in Hx, Hxk; [|done|done].
    destruct Hcl. rewrite (class_of_eq v u); [done|done|done|].
    destruct (mutual_equiv adjacency) as [_ Hsym Htr]. eapply Htr; [done|by apply Hsym].
  - apply IH. intros k Hk. apply Hc. by right.
Qed.

(** ** The algorithm computes it *)

Lemma class_unique c : is_class adjacency c → NoDup c → (∀ x, x ∈ c → x ∈ ids) → ∃ v, v ∈ ids ∧ c = class_of v.
Proof.
  intros [Hs (v&Hv)] Hn Hc. assert (Hvi : v ∈ ids) by (by apply Hc, Hv).
  exists v. split; [done|]. apply sorted_set_eq; [done|apply class_nodup| |done|apply class_sorted].
  intros x. by rewrite elem_of_class, Hv.
Qed.

(** What [visit_all] leaves: a partition of the vertices into classes. *)
Lemma final_components st : tarjan_inv adjacency (list_to_set ids) [] st → (∀ v, v ∈ ids → visited st v) →
  (∀ c, c ∈ tj_components st → NoDup c ∧ ∃ v, v ∈ ids ∧ c = class_of v) ∧
  (∀ v, v ∈ ids → class_of v ∈ tj_components st) ∧ NoDup (tj_components st).
Proof.
  intros Hi Hv. pose proof (idle_stack _ _ _ Hi) as Hst.
  assert (Hmem : ∀ x, x ∈ mjoin (tj_components st) ↔ x ∈ ids).
  { intros x. split.
    - intros Hx. rewrite <- (elem_of_list_to_set (C:=gset string)).
      apply (ti_bound _ _ _ _ Hi), (ti_visited _ _ _ _ Hi). by right.
    - intros [Hx|Hx]%Hv%(ti_visited _ _ _ _ Hi); [|done]. rewrite Hst in Hx. by apply elem_of_nil in Hx. }
  pose proof (ti_nodup _ _ _ _ Hi) as Hnd. fold (mjoin (tj_components st)) in Hnd. unfold closed_vertices in Hnd.
  assert (Hcls : ∀ c, c ∈ tj_components st → NoDup c ∧ ∃ v, v ∈ ids ∧ c = class_of v).
  { intros c Hc. assert (Hn : NoDup c) by (by eapply NoDup_join_elem). split; [done|].
    apply class_unique; [by apply (ti_classes _ _ _ _ Hi)|done|].
    intros x Hx. apply Hmem, list_elem_of_join. eauto. }
  split; [done|]. split.
  - intros v Hvi. apply Hmem in Hvi as Hvc. apply list_elem_of_join in Hvc as (c&Hvc&Hc).
    destruct (Hcls c Hc) as (_&u&Hu&->). rewrite (class_of_eq v u); [done|done|done|].
    apply (mutual_equiv adjacency). by apply elem_of_class.
  - apply NoDup_join_lists; [done|]. intros c Hc. destruct (Hcls c Hc) as (_&v&Hvi&->) .
    intros En. apply (not_elem_of_nil v). rewrite <- En. by apply elem_of_class.
Qed.

Lemma stronglyConnected_spec : stronglyConnected ids adjacency = Some (mutual_classes ids adjacency).
Proof.
  unfold stronglyConnected.
  destruct (visit_all_spec adjacency (list_to_set ids)) with (ids := ids) (st := tarjan_start)
    (fuel := S (length ids + length (targets adjacency))) as (st&->&Hi&_&Hv).
  - intros x y. rewrite !elem_of_list_to_set. apply ids_closed.
  - apply start_inv.
  - intros v. by rewrite elem_of_list_to_set.
  - rewrite size_list_to_set by done. lia.
  - simpl. f_equal. destruct (final_components st Hi Hv) as (Hc&Hall&Hnd).
    assert (Hp : mutual_classes ids adjacency ≡ₚ tj_components st).
    { apply NoDup_Permutation; [|done|].
      - eapply (sorted_lt_nodup by_first), mutual_classes_sorted.
      - intros c. rewrite elem_of_mutual_classes. split; [by intros (v&Hvi&->); apply Hall|by intros [_ ?]%Hc]. }
    symmetry. apply (sorted_perm_eq by_first); [apply mutual_classes_sorted|apply sort_by_sorted; apply _|].
    rewrite sort_by_perm. done.
Qed.
End Components.
