(* ===== verification/FlowCompiler.v ===== *)
(** [internal/flow/compiler.go]: [Compile] and the functions it calls.

    The capabilities (the plugin manager) are [CapabilityResolver]: an optional
    object that may also bind or validate actions.  CEL's parser and checker are
    [CelChecker]; of a checked expression the model has the constructors the code
    inspects ([exprpb.Expr]).  SHA-256 is [Sha256].  [None] is a run that does not
    return (a cyclic [$ref], see [ActionContract]); everything else returns a plan
    and its diagnostics.

    The fallback schema of an invalid [inputSchema] is a constant: if the library
    refused it too Go would dereference nil, the model reads an empty graph.
    The keys of a mapping are visited in their order where Go has none. *)

From Stdlib Require Import Ascii.
From Stdlib Require String.
From S2P Require Import Prelude.
From S2P Require Import Json.
From S2P Require Import GoStd.
From S2P Require Import Resource.
From S2P Require Import Plan.
From S2P Require Import ActionContract.
From S2P Require Import FlowGraph.

Local Open Scope Z_scope.

Abbreviation config := (list (string * json)).

(** ** Interfaces *)

Record Capabilities := mkCapabilities {
  HasAction : string → bool;
  BindAction : option (string → string → config → ActionBinding * list Diagnostic);
  ValidateAction : option (string → config → list Diagnostic) }.
Class CapabilityResolver := capabilities : option Capabilities.

Inductive Constant := CBool | CInt64 | CUint64 | CDouble | CString | CBytes | CNull | COther.
Inductive Expr :=
  | EIdent (name : string)
  | ESelect (operand : Expr) (field : string) (test_only : bool)
  | EConst (c : Constant)
  | ECall (function : string) (target : option Expr) (args : list Expr)
  | EOther.
Inductive CelOutput := CelOutBool | CelOutDyn | CelOutOther.
(** [None]: the conversion to a checked expression failed. *)
Inductive CelAst := CelIssues (text : string) | CelAst_ (output : CelOutput) (checked : option Expr).
Class CelChecker := cel_compile : string → CelAst.

Class Sha256 := sha256_hex : string → string.

(** ** Texts *)

Definition object_text (fields : list (string * string)) : string :=
  "{" +:+ joinc "," ((λ kv, quoted kv.1 +:+ ":" +:+ kv.2) <$> fields) +:+ "}".
(** [{"type":"object","additionalProperties":true}] *)
Definition open_object_schema : string := object_text [("type", quoted "object"); ("additionalProperties", "true")].
Definition closed_empty_schema : string :=
  object_text [("type", quoted "object"); ("properties", "{}"); ("additionalProperties", "false")].
Definition approval_output_schema : string :=
  object_text
    [("type", quoted "object");
     ("properties", object_text [("approved", object_text [("type", quoted "boolean")]);
                                 ("state", object_text [("type", quoted "string")]);
                                 ("reason", object_text [("type", quoted "string")])]);
     ("required", "[" +:+ joinc "," (quoted <$> ["approved"; "state"; "reason"]) +:+ "]");
     ("additionalProperties", "false")].

Definition node_path (i : nat) : string := "spec.nodes[" +:+ itoa (Z.of_nat i) +:+ "]".
Definition edge_path (i : nat) : string := "spec.edges[" +:+ itoa (Z.of_nat i) +:+ "]".
Definition node_missing (id : string) : string := "node " +:+ quoted id +:+ " does not exist".

Definition validAction (action : string) : bool :=
  match split_on "."%char action with
  | part :: ((_ :: _) as rest) => nodeIDName part && nodeIDName (join "_" rest)
  | _ => false
  end.

Definition nodeConfigDiagnosticPath (nodePath pluginPath : string) : string :=
  if String.eqb pluginPath "" || String.eqb pluginPath "config" then nodePath +:+ ".with"
  else nodePath +:+ ".with." +:+ trim_prefix pluginPath "config.".
Definition set_path (path : string) (d : Diagnostic) : Diagnostic :=
  mkDiag (dg_severity d) path (dg_code d) (dg_message d).

Definition hasErrorAt (diagnostics : list Diagnostic) (path : string) : bool :=
  existsb (λ d, IsError d && has_prefix (dg_path d) path) diagnostics.

Definition schemaDiagnostic (base : string) (violation : Violation) : Diagnostic :=
  diag (fold_left (λ path segment,
          if atoi segment is Some _ then path +:+ "[" +:+ segment +:+ "]" else path +:+ "." +:+ segment)
          (vi_path violation) base)
    (vi_code violation) (vi_message violation).

Definition cloneMap (source : config) : option config :=
  match parse_object (marshal (JObj source)) with Some (Some m) => Some m | Some None => Some [] | None => None end.

(** ** Contracts of the core actions *)

Fixpoint schema_of_value (value : json) : json :=
  match value with
  | JNull => mkobj [("type", JStr "null")]
  | JBool _ => mkobj [("type", JStr "boolean")]
  | JStr _ => mkobj [("type", JStr "string")]
  | JNum lit => mkobj [("type", JStr (if atoi lit is Some _ then "integer" else "number"))]
  | JObj typed =>
      mkobj [("type", JStr "object");
             ("properties", mkobj (List.map (λ kv, (kv.1, schema_of_value kv.2)) typed));
             ("required", JArr (JStr <$> sort_strings (typed.*1)));
             ("additionalProperties", JBool false)]
  | JArr typed =>
      mkobj [("type", JStr "array");
             ("items", match typed with [] => JObj [] | child :: _ => schema_of_value child end)]
  end.
Definition schemaFromValue (value : json) : string := marshal (schema_of_value value).

Definition no_contract : ActionContract := mkContract "" "" "" "".
Definition coreActionContract (node : FlowNode) : ActionContract :=
  if String.eqb (n_uses node) "core.approval" then
    mkContract "core.approval/v1" closed_empty_schema open_object_schema approval_output_schema
  else if String.eqb (n_uses node) "core.event" then
    mkContract "core.event/v1" closed_empty_schema open_object_schema open_object_schema
  else if String.eqb (n_uses node) "core.noop" then
    mkContract "core.noop/v1" "" "" (schemaFromValue (default (mkobj [("ok", JBool true)]) (obj_get "result" (n_with node))))
  else no_contract.

Section Compiler.
Context {js : JsonSchema} {cap : CapabilityResolver} {cel : CelChecker} {sha : Sha256}.

Definition outputSchema (contract : ActionContract) : option Schema :=
  if String.eqb (ac_output contract) "" then None
  else match ActionContract.Compile (ac_output contract) with inr s => Some s | inl _ => None end.

(** ** Conditions *)

Fixpoint celSelectPath (expression : Expr) : option (string * list string) :=
  match expression with
  | EIdent name => Some (name, [])
  | ESelect operand field _ => '(root, parts) ← celSelectPath operand; Some (root, parts ++ [field])
  | _ => None
  end.

Definition constant_type (c : Constant) : option Z :=
  match c with
  | CBool => Some TypeBoolean | CInt64 | CUint64 => Some TypeInteger | CDouble => Some TypeNumber
  | CString | CBytes => Some TypeString | CNull => Some TypeNull | COther => None
  end.
Definition boolean_calls : list string :=
  ["_==_"; "_!=_"; "_<_"; "_<=_"; "_>_"; "_>=_"; "_&&_"; "_||_"; "!_"; "@in"; "_in_"].

(** The type of a path: [(type, exists, dynamic)]. *)
Definition path_type (root : string) (parts : list string) (resultNode : string) (inputSchema : Schema)
    (contracts : gmap string ActionContract) : option (Z * bool * bool) :=
  let resolved (schema : option Schema) (parts : list string) :=
    match schema with
    | None => Some (TypeUnknown, true, true)
    | Some schema => r ← ResolveDot schema parts; Some (rs_type r, rs_exists r, rs_dynamic r)
    end in
  if String.eqb root "input" then resolved (Some inputSchema) parts
  else if String.eqb root "result" then resolved (c ← contracts !! resultNode; outputSchema c) parts
  else if String.eqb root "nodes" then
    match parts with
    | [] => Some (TypeObject, true, true)
    | node :: parts => resolved (c ← contracts !! node; outputSchema c) parts
    end
  else Some (TypeUnknown, true, true).

Fixpoint inferCELType (expression : Expr) (resultNode : string) (inputSchema : Schema)
    (contracts : gmap string ActionContract) : option (Z * bool * bool) :=
  match celSelectPath expression with
  | Some (root, parts) => path_type root parts resultNode inputSchema contracts
  | None =>
      match expression with
      | EConst c => match constant_type c with
                    | Some t => Some (t, true, false) | None => Some (TypeUnknown, true, true) end
      | ECall function target args =>
          if decide (function ∈ boolean_calls) then
            (* the arguments, then the target *)
            r ← (fix all (l : list Expr) (dynamic : bool) : option (option bool) :=
              match l with
              | [] =>
                  match target with
                  | None => Some (Some dynamic)
                  | Some t =>
                      '(_, declared, d) ← inferCELType t resultNode inputSchema contracts;
                      Some (if negb declared then None else Some (dynamic || d))
                  end
              | argument :: l =>
                  '(_, declared, d) ← inferCELType argument resultNode inputSchema contracts;
                  if negb declared then Some None else all l (dynamic || d)
              end) args false;
            Some match r with None => (TypeBoolean, false, false) | Some dynamic => (TypeBoolean, true, dynamic) end
          else if String.eqb function "_?_:_" then
            match args with
            | [_; a; b] =>
                '(ltype, leftExists, leftDynamic) ← inferCELType a resultNode inputSchema contracts;
                '(rtype, rightExists, rightDynamic) ← inferCELType b resultNode inputSchema contracts;
                Some (Z.lor ltype rtype, leftExists && rightExists, leftDynamic || rightDynamic)
            | _ => Some (TypeUnknown, true, true)
            end
          else Some (TypeUnknown, true, true)
      | _ => Some (TypeUnknown, true, true)
      end
  end.

Definition typedCELDiagnostics (path : string) (expression : Expr) (resultNode : string) (inputSchema : Schema)
    (contracts : gmap string ActionContract) : option (list Diagnostic) :=
  '(inferred, declared, dynamic) ← inferCELType expression resultNode inputSchema contracts;
  Some (
    if negb declared then [diag path "unknown_cel_field" "condition references a field that is absent from its declared schema"]
    else if negb (inferred =? TypeUnknown) && negb (overlaps inferred TypeBoolean)
    then [diag path "cel_not_boolean" "condition resolves to a non-boolean schema type"]
    else if (inferred =? TypeUnknown) || dynamic
    then [warning path "dynamic_cel" "condition crosses an explicitly open schema region and will be type-checked again at runtime"]
    else []).

(** ** Mappings *)

Definition source_prefix (from : string) : bool :=
  String.eqb from "input" || has_prefix from "input." || has_prefix from "nodes.".

(** [(resolution, usable, diagnostics)]; [from] is [None] when it is no string. *)
Definition mappingSource (path : string) (from : option string) (destination : string) (nodes : gmap string FlowNode)
    (adjacency : Adjacency) (inputSchema : Schema) (contracts : gmap string ActionContract)
    : option (Resolution * bool * list Diagnostic) :=
  let bad code message := Some (unresolved, false, [diag path code message]) in
  let from_ := default "" from in
  if String.eqb from_ "" || negb (source_prefix from_) then bad "invalid_source" "must start with input or nodes.<nodeID>"
  else if String.eqb from_ "input" || has_prefix from_ "input." then
    let parts := if String.eqb from_ "input" then [] else split_on "."%char (trim_prefix from_ "input.") in
    resolution ← ResolveDot inputSchema parts;
    Some (if rs_exists resolution then (resolution, true, [])
          else (resolution, false,
                [diag path "unknown_source_field" ("source " +:+ quoted from_ +:+ " is not declared by spec.inputSchema")]))
  else
    match split_on "."%char (trim_prefix from_ "nodes.") with
    | sourceNode :: ((_ :: _) as parts) =>
        if String.eqb sourceNode "" then bad "invalid_source" "node output source must include nodes.<nodeID>.<field>"
        else match nodes !! sourceNode with
        | None => bad "unknown_node" (node_missing sourceNode)
        | Some _ =>
            before ← reaches sourceNode destination adjacency;
            if negb before then
              bad "source_not_predecessor" ("node " +:+ quoted sourceNode +:+ " is not a predecessor of " +:+ quoted destination)
            else
              let contract := default no_contract (contracts !! sourceNode) in
              if String.eqb (ac_output contract) "" then Some (open_region, true, [])
              else match ActionContract.Compile (ac_output contract) with
              | inl _ => bad "invalid_action_schema" "source node output schema is invalid"
              | inr schema =>
                  resolution ← ResolveDot schema parts;
                  Some (if rs_exists resolution then (resolution, true, [])
                        else (resolution, false,
                              [diag path "unknown_source_field"
                                 ("source " +:+ quoted from_ +:+ " is not declared by node " +:+ quoted sourceNode +:+ " output schema")]))
              end
        end
    | _ => bad "invalid_source" "node output source must include nodes.<nodeID>.<field>"
    end.

Definition get_str (key : string) (m : config) : option string :=
  match obj_get key m with Some (JStr s) => Some s | _ => None end.
(** The range over the keys of a mapping. *)
Definition unknown_keys (itemPath : string) (mapping : config) : list Diagnostic :=
  (λ kv, diag (itemPath +:+ "." +:+ kv.1) "unknown_field" "only from and to are allowed")
    <$> filter (λ kv, kv.1 ≠ "from" ∧ kv.1 ≠ "to") mapping.
Definition valid_target (to : option string) : bool := match to with Some to => non_root to | None => false end.

Definition compatibility (itemPath : string) (source target : Resolution) : list Diagnostic :=
  let '(compatible, dynamic) := Compatible source target in
  if negb compatible then
    [diag itemPath "mapping_type_mismatch" "mapping source type is incompatible with the destination action field"]
  else if dynamic then
    [warning itemPath "dynamic_mapping" "mapping crosses an explicitly open schema region and will be validated again at runtime"]
  else [].

(** One mapping with its target field: [(projected config, diagnostics)]. *)
Definition mapping_target (itemPath to : string) (source : option Resolution) (target : Resolution)
    (st : config * list Diagnostic) : config * list Diagnostic :=
  let '(projected, diagnostics) := st in
  if negb (rs_exists target) then
    (projected, diagnostics ++ [diag (itemPath +:+ ".to") "unknown_target"
       ("target " +:+ quoted to +:+ " is not declared by the action config schema")])
  else
    let diagnostics := diagnostics ++ match source with Some source => compatibility itemPath source target | None => [] end in
    if hasErrorAt diagnostics itemPath then (projected, diagnostics)
    else
      let '(root, e) := SetPointer projected to (Placeholder target) in
      (match root with JObj m => m | _ => projected end,
       diagnostics ++ match e with Some e => [diag (itemPath +:+ ".to") "invalid_target" e] | None => [] end).

Section Mappings.
Context (node : FlowNode) (nodes : gmap string FlowNode) (adjacency : Adjacency) (inputSchema : Schema)
  (contracts : gmap string ActionContract).

Definition validateMapping (path : string) (configSchema : Schema) (index : nat) (item : json)
    (st : config * list Diagnostic) : option (config * list Diagnostic) :=
  let '(projected, diagnostics) := st in
  let itemPath := path +:+ ".mappings[" +:+ itoa (Z.of_nat index) +:+ "]" in
  match item with
  | JObj mapping =>
      let diagnostics := diagnostics ++ unknown_keys itemPath mapping in
      '(source, usable, ds) ← mappingSource (itemPath +:+ ".from") (get_str "from" mapping) (n_id node) nodes adjacency inputSchema contracts;
      let diagnostics := diagnostics ++ ds in
      let to := get_str "to" mapping in
      if negb (valid_target to) then
        Some (projected, diagnostics ++ [diag (itemPath +:+ ".to") "invalid_target" "must be a non-root JSON pointer"])
      else
        let to := default "" to in
        target ← ResolvePointer configSchema to;
        Some (mapping_target itemPath to (if (usable : bool) then Some source else None) target (projected, diagnostics))
  | _ => Some (projected, diagnostics ++ [diag itemPath "invalid_mapping" "must be an object"])
  end.
Fixpoint validateItems (path : string) (configSchema : Schema) (index : nat) (items : list json)
    (st : config * list Diagnostic) : option (config * list Diagnostic) :=
  match items with
  | [] => Some st
  | item :: items =>
      st ← validateMapping path configSchema index item st;
      validateItems path configSchema (S index) items st
  end.

Definition shape_item (path : string) (index : nat) (item : json) : list Diagnostic :=
  let itemPath := path +:+ "[" +:+ itoa (Z.of_nat index) +:+ "]" in
  match item with
  | JObj mapping =>
      let from := default "" (get_str "from" mapping) in
      (if String.eqb from "" || negb (source_prefix from) then
         [diag (itemPath +:+ ".from") "invalid_source" "must start with input or nodes.<nodeID>"]
       else if has_prefix from "nodes." then
         match split_on "."%char from with
         | _ :: id :: _ =>
             match nodes !! id with
             | None => [diag (itemPath +:+ ".from") "unknown_node" (node_missing id)]
             | Some _ => []
             end
         | _ => [diag (itemPath +:+ ".from") "invalid_source" "node output path is incomplete"]
         end
       else [])
      ++ (if valid_target (get_str "to" mapping) then []
          else [diag (itemPath +:+ ".to") "invalid_target" "must be a non-root JSON pointer"])
  | _ => [diag itemPath "invalid_mapping" "must be an object"]
  end.
Definition validateMappingShapeOnly (nodeIndex : nat) : list Diagnostic :=
  let path := node_path nodeIndex +:+ ".with.mappings" in
  match obj_get "mappings" (n_with node) with
  | None => []
  | Some (JArr items) => mjoin (imap (shape_item path) items)
  | Some _ => [diag path "invalid_mapping" "must be a list of {from,to} mappings"]
  end.

Definition validateMappings (nodeIndex : nat) (boundConfig : config) : option (list Diagnostic) :=
  let path := node_path nodeIndex +:+ ".with" in
  let contract := default no_contract (contracts !! n_id node) in
  if String.eqb (ac_config contract) "" then Some (validateMappingShapeOnly nodeIndex)
  else match ActionContract.Compile (ac_config contract) with
  | inl _ => Some [diag path "invalid_action_schema" "pinned action config schema is invalid"]
  | inr configSchema =>
      match cloneMap boundConfig with
      | None => Some [diag path "invalid_config" "config cannot be represented as JSON"]
      | Some projected =>
          let projected := obj_delete "secretRefs" projected in
          let bare := obj_delete "mappings" projected in
          match obj_get "mappings" projected with
          | Some (JArr items) =>
              '(projected, diagnostics) ← validateItems path configSchema 0 items (bare, []);
              violations ← Validate configSchema (JObj projected);
              Some (diagnostics ++ (List.map (schemaDiagnostic path) violations))
          | Some _ => Some [diag (path +:+ ".mappings") "invalid_mapping" "must be a list of {from,to} mappings"]
          | None => violations ← Validate configSchema (JObj bare); Some (List.map (schemaDiagnostic path) violations)
          end
      end
  end.
End Mappings.

(** ** Nodes *)

Record nodeState := mkNodeState {
  ns_nodes : gmap string FlowNode; ns_contracts : gmap string ActionContract; ns_configs : gmap string config;
  ns_planNodes : list PlanNode; ns_diagnostics : list Diagnostic }.
Definition no_nodes : nodeState := mkNodeState ∅ ∅ ∅ [] [].

Definition is_core (uses : string) : bool := has_prefix uses "core.".

(** Availability and binding of the action. *)
Definition bind_node (namespace path : string) (node : FlowNode) : option ActionBinding * list Diagnostic :=
  let relocate ds := (λ d, set_path (nodeConfigDiagnosticPath path (dg_path d)) d) <$> ds in
  if negb (validAction (n_uses node)) then
    (None, [diag (path +:+ ".uses") "invalid_action" "action must be core.<name> or <plugin>.<action>"])
  else if is_core (n_uses node) then (None, [])
  else match capabilities with
  | None => (None, [])
  | Some c =>
      if negb (HasAction c (n_uses node)) then
        (None, [diag (path +:+ ".uses") "unknown_action" ("no enabled plugin provides " +:+ quoted (n_uses node))])
      else match BindAction c, ValidateAction c with
      | Some bind, _ =>
          let '(resolved, ds) := bind namespace (n_uses node) (n_with node) in
          (match ds with [] => Some resolved | _ => None end, relocate ds)
      | None, Some validate => (None, relocate (validate (n_uses node) (n_with node)))
      | None, None => (None, [])
      end
  end.

Definition duration_or (path value : string) (fallback : Z) : Z * list Diagnostic :=
  match ParseDuration value fallback with
  | inr d => (d, [])
  | inl e => (fallback, [diag path "invalid_duration" (error_text e)])
  end.

Definition node_retry (path : string) (node : FlowNode) : Z * string * list Diagnostic :=
  match n_retry node with
  | None => (0, "1s", [])
  | Some r =>
      let ds := if (r_limit r <? 0) || (100 <? r_limit r)
                then [diag (path +:+ ".retry.limit") "out_of_range" "must be between 0 and 100"] else [] in
      if String.eqb (r_backoff r) "" then (r_limit r, "1s", ds)
      else match ParseDuration (r_backoff r) second with
           | inl e => (r_limit r, "1s", ds ++ [diag (path +:+ ".retry.backoff") "invalid_duration" (error_text e)])
           | inr _ => (r_limit r, r_backoff r, ds)
           end
  end.
Definition node_loop (path : string) (node : FlowNode) : Z * list Diagnostic :=
  match n_loop node with
  | None => (0, [])
  | Some l =>
      (l_maxIterations l,
       if (l_maxIterations l <? 1) || (1000 <? l_maxIterations l)
       then [diag (path +:+ ".loop.maxIterations") "out_of_range" "must be between 1 and 1000"] else [])
  end.

(** The action's input schema against the flow's. *)
Definition action_input (path : string) (compiledInput : Schema) (contract : ActionContract) : option (list Diagnostic) :=
  if String.eqb (ac_input contract) "" then Some []
  else match ActionContract.Compile (ac_input contract) with
  | inl _ => Some [diag (path +:+ ".uses") "invalid_action_schema" "pinned action input schema is invalid"]
  | inr actionInput =>
      source ← ResolveDot compiledInput [];
      target ← ResolveDot actionInput [];
      Some (if (Compatible source target).1 then []
            else [diag (path +:+ ".uses") "action_input_type_mismatch" "Flow input type is incompatible with the action input schema"])
  end.

Definition plan_node (namespace : string) (node : FlowNode) (binding : option ActionBinding)
    (timeout limit loop : Z) (backoff : string) : PlanNode :=
  let name := if String.eqb (n_name node) "" then n_id node else n_name node in
  match binding with
  | None => mkPlanNode (n_id node) name namespace (n_uses node) (n_with node) limit backoff (duration_string timeout) loop None None []
  | Some b => mkPlanNode (n_id node) name namespace (n_uses node) (ab_config b) limit backoff (duration_string timeout) loop
                (Some (ab_plugin b)) (Some (ab_contract b)) (ab_resources b)
  end.

Definition compile_node (namespace : string) (timeout : Z) (compiledInput : Schema) (i : nat) (node : FlowNode)
    (st : nodeState) : option nodeState :=
  let path := node_path i in
  let id_ds := if nodeIDName (n_id node) then [] else [diag (path +:+ ".id") "invalid_node_id" "must match ^[a-z][a-z0-9_-]{0,62}$"] in
  match ns_nodes st !! n_id node with
  | Some _ =>
      Some (mkNodeState (ns_nodes st) (ns_contracts st) (ns_configs st) (ns_planNodes st)
        (ns_diagnostics st ++ id_ds ++ [diag (path +:+ ".id") "duplicate_node_id" ("node " +:+ quoted (n_id node) +:+ " is duplicated")]))
  | None =>
      let '(binding, bind_ds) := bind_node namespace path node in
      let '(nodeTimeout, timeout_ds) := duration_or (path +:+ ".timeout") (n_timeout node) timeout in
      let '(limit, backoff, retry_ds) := node_retry path node in
      let '(loop, loop_ds) := node_loop path node in
      let planNode := plan_node namespace node binding nodeTimeout limit loop backoff in
      input_ds ← match binding with Some b => action_input path compiledInput (ab_contract b) | None => Some [] end;
      let contracts :=
        match binding with
        | Some b => <[n_id node := ab_contract b]> (ns_contracts st)
        | None => if is_core (n_uses node) then <[n_id node := coreActionContract node]> (ns_contracts st) else ns_contracts st
        end in
      Some (mkNodeState (<[n_id node := node]> (ns_nodes st)) contracts (<[n_id node := pn_with planNode]> (ns_configs st))
        (ns_planNodes st ++ [planNode])
        (ns_diagnostics st ++ id_ds ++ bind_ds ++ timeout_ds ++ retry_ds ++ loop_ds ++ input_ds))
  end.
Fixpoint compile_nodes (namespace : string) (timeout : Z) (compiledInput : Schema) (i : nat) (nodes : list FlowNode)
    (st : nodeState) : option nodeState :=
  match nodes with
  | [] => Some st
  | node :: nodes =>
      st ← compile_node namespace timeout compiledInput i node st;
      compile_nodes namespace timeout compiledInput (S i) nodes st
  end.

(** ** Edges *)

Record edgesState := mkEdgesState { eg_edges : list PlanEdge; eg_adjacency : Adjacency; eg_diagnostics : list Diagnostic }.

Definition condition_diagnostics (path from condition : string) (compiledInput : Schema)
    (contracts : gmap string ActionContract) : option (list Diagnostic) :=
  if String.eqb condition "" then Some []
  else match cel_compile condition with
  | CelIssues text => Some [diag path "invalid_cel" text]
  | CelAst_ CelOutOther _ => Some [diag path "cel_not_boolean" "condition must produce bool"]
  | CelAst_ _ None => Some [diag path "invalid_cel" "condition could not be converted to a checked expression"]
  | CelAst_ _ (Some expression) => typedCELDiagnostics path expression from compiledInput contracts
  end.

Definition known (nodes : gmap string FlowNode) (path id : string) : list Diagnostic :=
  match nodes !! id with Some _ => [] | None => [diag path "unknown_node" (node_missing id)] end.

Definition compile_edge (nodes : gmap string FlowNode) (compiledInput : Schema) (contracts : gmap string ActionContract)
    (i : nat) (edge : FlowEdge) (st : edgesState) : option edgesState :=
  let path := edge_path i in
  condition ← condition_diagnostics (path +:+ ".when") (e_from edge) (e_when edge) compiledInput contracts;
  let adjacency :=
    match nodes !! e_from edge, nodes !! e_to edge with
    | Some _, Some _ => <[e_from edge := succs (eg_adjacency st) (e_from edge) ++ [e_to edge]]> (eg_adjacency st)
    | _, _ => eg_adjacency st
    end in
  Some (mkEdgesState (eg_edges st ++ [mkPlanEdge (e_from edge) (e_to edge) (e_when edge)]) adjacency
    (eg_diagnostics st ++ known nodes (path +:+ ".from") (e_from edge) ++ known nodes (path +:+ ".to") (e_to edge) ++ condition)).
Fixpoint compile_edges (nodes : gmap string FlowNode) (compiledInput : Schema) (contracts : gmap string ActionContract)
    (i : nat) (edges : list FlowEdge) (st : edgesState) : option edgesState :=
  match edges with
  | [] => Some st
  | edge :: edges =>
      st ← compile_edge nodes compiledInput contracts i edge st;
      compile_edges nodes compiledInput contracts (S i) edges st
  end.

Fixpoint mappings_diagnostics (i : nat) (l : list FlowNode) (nodes : gmap string FlowNode) (adjacency : Adjacency)
    (compiledInput : Schema) (contracts : gmap string ActionContract) (configs : gmap string config) : option (list Diagnostic) :=
  match l with
  | [] => Some []
  | node :: l =>
      here ← validateMappings node nodes adjacency compiledInput contracts i (default [] (configs !! n_id node));
      there ← mappings_diagnostics (S i) l nodes adjacency compiledInput contracts configs;
      Some (here ++ there)
  end.

(** ** Cycles *)

Definition cyclic (adjacency : Adjacency) (component : list string) : bool :=
  match component with
  | [id] => existsb (String.eqb id) (succs adjacency id)
  | _ => (1 <? length component)%nat
  end.
Definition finite (nodes : gmap string FlowNode) (component : list string) : bool :=
  existsb (λ id, match n ← nodes !! id; n_loop n with Some l => 0 <? l_maxIterations l | None => false end) component.
Definition cycle_diagnostics (nodes : gmap string FlowNode) (adjacency : Adjacency) (components : list (list string)) : list Diagnostic :=
  (λ component, diag "spec.edges" "unbounded_cycle" ("cycle " +:+ join " -> " component +:+ " requires a finite loop policy"))
    <$> filter (λ component, cyclic adjacency component && negb (finite nodes component) = true) components.

(** ** The plan *)

Definition by_id : PlanNode → PlanNode → comparison := onc pn_id str_cmp.
Definition by_edge : PlanEdge → PlanEdge → comparison :=
  lexc (onc pe_from str_cmp) (lexc (onc pe_to str_cmp) (onc pe_condition str_cmp)).

(** [json.Marshal] of the plan: fields in the order of the structs. *)
Definition raw_text (raw : string) : string := if String.eqb raw "" then "null" else compact_raw raw.
Definition array_text (l : list string) : string := "[" +:+ joinc "," l +:+ "]".
Definition omit_empty (key text : string) (empty : bool) : list (string * string) := if empty then [] else [(key, text)].
Definition contract_text (c : ActionContract) : string :=
  object_text [("digest", quoted (ac_digest c)); ("configSchema", raw_text (ac_config c));
               ("inputSchema", raw_text (ac_input c)); ("outputSchema", raw_text (ac_output c))].
Definition plugin_text (p : PluginBinding) : string :=
  object_text [("name", quoted (pb_name p)); ("version", quoted (pb_version p)); ("digest", quoted (pb_digest p));
               ("protocolVersion", itoa (pb_protocolVersion p))].
Definition resource_text (r : ResourceBinding) : string :=
  object_text [("kind", quoted (rb_kind r)); ("namespace", quoted (rb_namespace r)); ("name", quoted (rb_name r));
               ("uid", quoted (rb_uid r)); ("resourceVersion", itoa (rb_resourceVersion r));
               ("generation", itoa (rb_generation r)); ("spec", raw_text (rb_spec r))].
Definition plan_node_text (n : PlanNode) : string :=
  object_text (
    [("id", quoted (pn_id n)); ("name", quoted (pn_name n)); ("namespace", quoted (pn_namespace n)); ("uses", quoted (pn_uses n))]
    ++ omit_empty "with" (marshal (JObj (pn_with n))) (bool_decide (pn_with n = []))
    ++ [("retryLimit", itoa (pn_retryLimit n)); ("retryBackoff", quoted (pn_retryBackoff n)); ("timeout", quoted (pn_timeout n))]
    ++ omit_empty "loopMaxIterations" (itoa (pn_loopMaxIterations n)) (pn_loopMaxIterations n =? 0)
    ++ match pn_plugin n with Some p => [("plugin", plugin_text p)] | None => [] end
    ++ match pn_contract n with Some c => [("contract", contract_text c)] | None => [] end
    ++ omit_empty "resources" (array_text (resource_text <$> pn_resources n)) (bool_decide (pn_resources n = []))).
Definition plan_edge_text (e : PlanEdge) : string :=
  object_text ([("from", quoted (pe_from e)); ("to", quoted (pe_to e))]
    ++ omit_empty "condition" (quoted (pe_condition e)) (String.eqb (pe_condition e) "")).
Definition plan_text (p : ExecutionPlan) : string :=
  object_text
    [("apiVersion", quoted (pl_apiVersion p)); ("flowUID", quoted (pl_flowUID p)); ("flowGeneration", itoa (pl_flowGeneration p));
     ("interpreterVersion", quoted (pl_interpreterVersion p)); ("timeout", quoted (pl_timeout p));
     ("maxParallel", itoa (pl_maxParallel p)); ("inputSchema", raw_text (pl_inputSchema p));
     ("nodes", array_text (plan_node_text <$> pl_nodes p)); ("edges", array_text (plan_edge_text <$> pl_edges p));
     ("components", array_text ((λ c, array_text (quoted <$> c)) <$> pl_components p)); ("planHash", quoted (pl_planHash p))].
Definition set_hash (hash : string) (p : ExecutionPlan) : ExecutionPlan :=
  mkPlan (pl_apiVersion p) (pl_flowUID p) (pl_flowGeneration p) (pl_interpreterVersion p) (pl_timeout p) (pl_maxParallel p)
    (pl_inputSchema p) (pl_nodes p) (pl_edges p) (pl_components p) hash.

Definition defaultTimeout : Z := hour.

Definition input_schema (spec : FlowSpec) : string * Schema * list Diagnostic :=
  let text := match f_inputSchema spec with [] => open_object_schema | schema => marshal (JObj schema) end in
  match ActionContract.Compile text with
  | inr s => (text, s, [])
  | inl e =>
      (text, match ActionContract.Compile open_object_schema with inr s => s | inl _ => mkSchema [] 0 end,
       [diag "spec.inputSchema" "invalid_schema" e])
  end.
Definition max_parallel (spec : FlowSpec) : Z * list Diagnostic :=
  let n := if p_maxParallel (f_policies spec) =? 0 then 1 else p_maxParallel (f_policies spec) in
  (n, if (n <? 1) || (128 <? n) then [diag "spec.policies.maxParallel" "out_of_range" "must be between 1 and 128"] else []).

Definition Compile (meta : ObjectMeta) (spec : FlowSpec) : option (ExecutionPlan * list Diagnostic) :=
  let '(inputSchemaJSON, compiledInput, input_ds) := input_schema spec in
  let '(timeout, timeout_ds) := duration_or "spec.policies.timeout" (p_timeout (f_policies spec)) defaultTimeout in
  let '(maxParallel, parallel_ds) := max_parallel spec in
  ns ← compile_nodes (m_namespace meta) timeout compiledInput 0 (f_nodes spec) no_nodes;
  es ← compile_edges (ns_nodes ns) compiledInput (ns_contracts ns) 0 (f_edges spec) (mkEdgesState [] ∅ []);
  let adjacency := sort_strings <$> eg_adjacency es in
  mapping_ds ← mappings_diagnostics 0 (f_nodes spec) (ns_nodes ns) adjacency compiledInput (ns_contracts ns) (ns_configs ns);
  components ← stronglyConnected (sortedKeys (ns_nodes ns)) adjacency;
  let diagnostics := input_ds ++ timeout_ds ++ parallel_ds ++ ns_diagnostics ns ++ eg_diagnostics es ++ mapping_ds
    ++ cycle_diagnostics (ns_nodes ns) adjacency components in
  let plan := mkPlan APIVersion (m_uid meta) (m_generation meta) InterpreterVersion (duration_string timeout) maxParallel
    inputSchemaJSON (sort_by by_id (ns_planNodes ns)) (sort_by by_edge (eg_edges es)) components "" in
  Some (if HasErrors diagnostics then plan else set_hash (sha256_hex (plan_text plan)) plan, diagnostics).

(** ** ValidateRunInput *)

Definition ValidateRunInput (plan : ExecutionPlan) (raw : string) : option (res unit) :=
  if String.eqb (pl_inputSchema plan) "" then Some (ok tt)
  else
    let raw := if String.eqb raw "" then "{}" else raw in
    match decode_stream raw with
    | None => Some (fail (ErrMsg "run input is not valid JSON"))
    | Some (value, rest) =>
        if negb (at_eof rest) then Some (fail (ErrMsg "run input must contain exactly one JSON value"))
        else match ActionContract.Compile (pl_inputSchema plan) with
        | inl _ => Some (fail (ErrMsg "pinned run input schema is invalid"))
        | inr schema =>
            violations ← Validate schema value;
            Some match violations with
            | [] => ok tt
            | v :: _ =>
                let path := match vi_path v with [] => "input" | p => "input." +:+ join "." p end in
                fail (ErrMsg (path +:+ " violates the Flow input schema (" +:+ vi_code v +:+ ")"))
            end
        end
    end.
End Compiler.
