(* ===== verification/Db.v ===== *)
(** The SQLite database of [internal/store]: one component per table of
    [migrations/*.sql], the transaction monad and the SQL statements the store
    uses on each table.

    A table with a primary key is a [gmap] from the key to the other columns, a
    table read in insertion order a list.  A [Tx A] is a transaction: it reads
    and updates the database and either commits with a result or fails, in which
    case nothing is stored ([defer tx.Rollback()]).  Constraint violations
    (primary keys, UNIQUE, FOREIGN KEY with [foreign_keys(1)]) are the error
    [ErrConstraint]; I/O failures of SQLite itself are not modelled.

    Text columns that SQL compares are strings, so that [<] and [ORDER BY] have
    SQLite's text order; a text column that only Go parses back is kept parsed.
    A JSON column that only the store writes and reads back ([plan_json], the
    outbox payload, [spec_json]) holds the Go value. *)

From Stdlib Require String.
From S2P Require Import Prelude.
From S2P Require Import Json.
From S2P Require Import GoStd.
From S2P Require Import Resource.
From S2P Require Import Plan.

Local Open Scope Z_scope.

Abbreviation resource_key := (string * string * string)%type.
(** (run_uid, node_id, logical_iteration, attempt) *)
Abbreviation attempt_key := (string * string * Z * Z)%type.

(** ** Rows *)

Record ResourceRow := mkResourceRow {
  rr_uid : string; rr_version : Z; rr_generation : Z; rr_labels : gmap string string;
  rr_doc : Document; rr_status : list (string * json); rr_created : string; rr_updated : string }.
Record ResourceEventRow := mkResourceEventRow {
  re_revision : Z; re_type : string; re_kind : string; re_namespace : string; re_name : string;
  re_uid : string; re_doc : option Document; re_observed : string }.
Record AuditRow := mkAuditRow {
  au_revision : Z; au_requestID : string; au_actor : string; au_context : string; au_operation : string;
  au_resourceUID : string; au_oldHash : string; au_newHash : string; au_at : string }.
Record PlanRow := mkPlanRow { pr_plan : ExecutionPlan; pr_created : string }.
Record ReceiptRow := mkReceiptRow {
  rc_uid : string; rc_cursor : string; rc_payload : string; rc_deduplicated : bool;
  rc_run : string; rc_accepted : string }.
Record TombstoneRow := mkTombstoneRow {
  tb_receipt : string; tb_run : string; tb_deduplicated : bool; tb_accepted : string; tb_collected : string }.

Record StartPayload := mkStartPayload {
  sp_run : string; sp_receipt : string; sp_flowName : string; sp_namespace : string;
  sp_planHash : string; sp_input : string; sp_key : string }.
Record SignalPayload := mkSignalPayload {
  sg_run : string; sg_receipt : string; sg_node : string; sg_providerEventID : string;
  sg_payload : string; sg_key : string }.
(** [command_type] with its payload: ["start-run"] or ["signal-run"]. *)
Inductive OutboxPayload := StartRun (p : StartPayload) | SignalRun (p : SignalPayload).
Inductive OutboxState := ObPending | ObInflight | ObCompleted.
Record OutboxRow := mkOutboxRow {
  ob_id : Z; ob_aggregate : string; ob_key : string; ob_payload : OutboxPayload; ob_state : OutboxState;
  ob_attempts : Z; ob_available : string; ob_claimed : option string; ob_completed : option string;
  ob_error : string }.

Record RunRow := mkRunRow {
  run_flow : string; run_receipt : string; run_plan : string; run_interpreter : string; run_phase : string;
  run_input : string; run_created : string; run_updated : string; run_completed : option string }.
Record AttemptRow := mkAttemptRow {
  at_framework : Z; at_phase : string; at_key : string; at_input : string; at_output : option string;
  at_error : string; at_outcome : string; at_started : string; at_completed : option string }.
Record RunEventRow := mkRunEventRow {
  ev_run : string; ev_seq : Z; ev_node : string; ev_attempt : Z; ev_type : string;
  ev_payload : string; ev_at : string }.
Record ApprovalRow := mkApprovalRow {
  ap_state : string; ap_actor : string; ap_reason : string; ap_expires : option string;
  ap_decided : option string; ap_delivered : bool }.
Record CursorRow := mkCursorRow { cu_cursor : string; cu_eventID : string; cu_at : string }.
Record PluginRow := mkPluginRow {
  pg_digest : string; pg_manifest : string; pg_contract : string; pg_contractDigest : string;
  pg_state : string; pg_installed : Z }.
Record ActivationRow := mkActivationRow { av_version : string; av_at : string }.
Record TriggerStateRow := mkTriggerStateRow {
  ts_generation : Z; ts_enabled : bool; ts_cursor : Z; ts_updated : string }.
Record SkipRow := mkSkipRow { sk_reason : string; sk_scheduled : string; sk_recorded : string }.
Record CancellationRow := mkCancellationRow {
  ca_reason : string; ca_delivered : bool; ca_requested : string; ca_deliveredAt : option string }.
Record PluginEventRow := mkPluginEventRow { pe_type : string; pe_payload : string; pe_at : string }.
Record ArtifactRow := mkArtifactRow {
  ar_uid : string; ar_mediaType : string; ar_path : string; ar_size : Z; ar_sha256 : string;
  ar_created : string; ar_updated : string }.

#[export] Instance StartPayload_eq_dec : EqDecision StartPayload. Proof. solve_decision. Defined.
#[export] Instance SignalPayload_eq_dec : EqDecision SignalPayload. Proof. solve_decision. Defined.
#[export] Instance OutboxPayload_eq_dec : EqDecision OutboxPayload. Proof. solve_decision. Defined.
#[export] Instance OutboxState_eq_dec : EqDecision OutboxState. Proof. solve_decision. Defined.

(** ** The database *)

Record Db := mkDb {
  db_revision : Z;
  db_resources : gmap resource_key ResourceRow;
  db_resource_events : list ResourceEventRow;
  db_audit : list AuditRow;
  db_plans : gmap string PlanRow;
  db_receipts : gmap (string * string) ReceiptRow;
  db_outbox : list OutboxRow;
  db_outbox_seq : Z;
  db_runs : gmap string RunRow;
  db_attempts : gmap attempt_key AttemptRow;
  db_run_events : list RunEventRow;
  db_approvals : gmap (string * string) ApprovalRow;
  db_cursors : gmap string CursorRow;
  db_plugins : gmap (string * string) PluginRow;
  db_activations : gmap string ActivationRow;
  db_trigger_states : gmap string TriggerStateRow;
  db_skips : gmap (string * string) SkipRow;
  db_cancellations : gmap string CancellationRow;
  db_plugin_events : gmap (attempt_key * Z) PluginEventRow;
  db_artifacts : gmap (attempt_key * string) ArtifactRow;
  db_tombstones : gmap (string * string) TombstoneRow }.

Definition empty_db : Db := mkDb 0 ∅ [] [] ∅ ∅ [] 0 ∅ ∅ [] ∅ ∅ ∅ ∅ ∅ ∅ ∅ ∅ ∅ ∅.

(** Field updates. *)
Definition set_revision (f : Z → Z) (s : Db) : Db :=
  mkDb (f (db_revision s)) (db_resources s) (db_resource_events s) (db_audit s) (db_plans s) (db_receipts s) (db_outbox s) (db_outbox_seq s) (db_runs s) (db_attempts s) (db_run_events s) (db_approvals s) (db_cursors s) (db_plugins s) (db_activations s) (db_trigger_states s) (db_skips s) (db_cancellations s) (db_plugin_events s) (db_artifacts s) (db_tombstones s).
Definition set_resources (f : gmap resource_key ResourceRow → gmap resource_key ResourceRow) (s : Db) : Db :=
  mkDb (db_revision s) (f (db_resources s)) (db_resource_events s) (db_audit s) (db_plans s) (db_receipts s) (db_outbox s) (db_outbox_seq s) (db_runs s) (db_attempts s) (db_run_events s) (db_approvals s) (db_cursors s) (db_plugins s) (db_activations s) (db_trigger_states s) (db_skips s) (db_cancellations s) (db_plugin_events s) (db_artifacts s) (db_tombstones s).
Definition set_resource_events (f : list ResourceEventRow → list ResourceEventRow) (s : Db) : Db :=
  mkDb (db_revision s) (db_resources s) (f (db_resource_events s)) (db_audit s) (db_plans s) (db_receipts s) (db_outbox s) (db_outbox_seq s) (db_runs s) (db_attempts s) (db_run_events s) (db_approvals s) (db_cursors s) (db_plugins s) (db_activations s) (db_trigger_states s) (db_skips s) (db_cancellations s) (db_plugin_events s) (db_artifacts s) (db_tombstones s).
Definition set_audit (f : list AuditRow → list AuditRow) (s : Db) : Db :=
  mkDb (db_revision s) (db_resources s) (db_resource_events s) (f (db_audit s)) (db_plans s) (db_receipts s) (db_outbox s) (db_outbox_seq s) (db_runs s) (db_attempts s) (db_run_events s) (db_approvals s) (db_cursors s) (db_plugins s) (db_activations s) (db_trigger_states s) (db_skips s) (db_cancellations s) (db_plugin_events s) (db_artifacts s) (db_tombstones s).
Definition set_plans (f : gmap string PlanRow → gmap string PlanRow) (s : Db) : Db :=
  mkDb (db_revision s) (db_resources s) (db_resource_events s) (db_audit s) (f (db_plans s)) (db_receipts s) (db_outbox s) (db_outbox_seq s) (db_runs s) (db_attempts s) (db_run_events s) (db_approvals s) (db_cursors s) (db_plugins s) (db_activations s) (db_trigger_states s) (db_skips s) (db_cancellations s) (db_plugin_events s) (db_artifacts s) (db_tombstones s).
Definition set_receipts (f : gmap (string * string) ReceiptRow → gmap (string * string) ReceiptRow) (s : Db) : Db :=
  mkDb (db_revision s) (db_resources s) (db_resource_events s) (db_audit s) (db_plans s) (f (db_receipts s)) (db_outbox s) (db_outbox_seq s) (db_runs s) (db_attempts s) (db_run_events s) (db_approvals s) (db_cursors s) (db_plugins s) (db_activations s) (db_trigger_states s) (db_skips s) (db_cancellations s) (db_plugin_events s) (db_artifacts s) (db_tombstones s).
Definition set_outbox (f : list OutboxRow → list OutboxRow) (s : Db) : Db :=
  mkDb (db_revision s) (db_resources s) (db_resource_events s) (db_audit s) (db_plans s) (db_receipts s) (f (db_outbox s)) (db_outbox_seq s) (db_runs s) (db_attempts s) (db_run_events s) (db_approvals s) (db_cursors s) (db_plugins s) (db_activations s) (db_trigger_states s) (db_skips s) (db_cancellations s) (db_plugin_events s) (db_artifacts s) (db_tombstones s).
Definition set_outbox_seq (f : Z → Z) (s : Db) : Db :=
  mkDb (db_revision s) (db_resources s) (db_resource_events s) (db_audit s) (db_plans s) (db_receipts s) (db_outbox s) (f (db_outbox_seq s)) (db_runs s) (db_attempts s) (db_run_events s) (db_approvals s) (db_cursors s) (db_plugins s) (db_activations s) (db_trigger_states s) (db_skips s) (db_cancellations s) (db_plugin_events s) (db_artifacts s) (db_tombstones s).
Definition set_runs (f : gmap string RunRow → gmap string RunRow) (s : Db) : Db :=
  mkDb (db_revision s) (db_resources s) (db_resource_events s) (db_audit s) (db_plans s) (db_receipts s) (db_outbox s) (db_outbox_seq s) (f (db_runs s)) (db_attempts s) (db_run_events s) (db_approvals s) (db_cursors s) (db_plugins s) (db_activations s) (db_trigger_states s) (db_skips s) (db_cancellations s) (db_plugin_events s) (db_artifacts s) (db_tombstones s).
Definition set_attempts (f : gmap attempt_key AttemptRow → gmap attempt_key AttemptRow) (s : Db) : Db :=
  mkDb (db_revision s) (db_resources s) (db_resource_events s) (db_audit s) (db_plans s) (db_receipts s) (db_outbox s) (db_outbox_seq s) (db_runs s) (f (db_attempts s)) (db_run_events s) (db_approvals s) (db_cursors s) (db_plugins s) (db_activations s) (db_trigger_states s) (db_skips s) (db_cancellations s) (db_plugin_events s) (db_artifacts s) (db_tombstones s).
Definition set_run_events (f : list RunEventRow → list RunEventRow) (s : Db) : Db :=
  mkDb (db_revision s) (db_resources s) (db_resource_events s) (db_audit s) (db_plans s) (db_receipts s) (db_outbox s) (db_outbox_seq s) (db_runs s) (db_attempts s) (f (db_run_events s)) (db_approvals s) (db_cursors s) (db_plugins s) (db_activations s) (db_trigger_states s) (db_skips s) (db_cancellations s) (db_plugin_events s) (db_artifacts s) (db_tombstones s).
Definition set_approvals (f : gmap (string * string) ApprovalRow → gmap (string * string) ApprovalRow) (s : Db) : Db :=
  mkDb (db_revision s) (db_resources s) (db_resource_events s) (db_audit s) (db_plans s) (db_receipts s) (db_outbox s) (db_outbox_seq s) (db_runs s) (db_attempts s) (db_run_events s) (f (db_approvals s)) (db_cursors s) (db_plugins s) (db_activations s) (db_trigger_states s) (db_skips s) (db_cancellations s) (db_plugin_events s) (db_artifacts s) (db_tombstones s).
Definition set_cursors (f : gmap string CursorRow → gmap string CursorRow) (s : Db) : Db :=
  mkDb (db_revision s) (db_resources s) (db_resource_events s) (db_audit s) (db_plans s) (db_receipts s) (db_outbox s) (db_outbox_seq s) (db_runs s) (db_attempts s) (db_run_events s) (db_approvals s) (f (db_cursors s)) (db_plugins s) (db_activations s) (db_trigger_states s) (db_skips s) (db_cancellations s) (db_plugin_events s) (db_artifacts s) (db_tombstones s).
Definition set_plugins (f : gmap (string * string) PluginRow → gmap (string * string) PluginRow) (s : Db) : Db :=
  mkDb (db_revision s) (db_resources s) (db_resource_events s) (db_audit s) (db_plans s) (db_receipts s) (db_outbox s) (db_outbox_seq s) (db_runs s) (db_attempts s) (db_run_events s) (db_approvals s) (db_cursors s) (f (db_plugins s)) (db_activations s) (db_trigger_states s) (db_skips s) (db_cancellations s) (db_plugin_events s) (db_artifacts s) (db_tombstones s).
Definition set_activations (f : gmap string ActivationRow → gmap string ActivationRow) (s : Db) : Db :=
  mkDb (db_revision s) (db_resources s) (db_resource_events s) (db_audit s) (db_plans s) (db_receipts s) (db_outbox s) (db_outbox_seq s) (db_runs s) (db_attempts s) (db_run_events s) (db_approvals s) (db_cursors s) (db_plugins s) (f (db_activations s)) (db_trigger_states s) (db_skips s) (db_cancellations s) (db_plugin_events s) (db_artifacts s) (db_tombstones s).
Definition set_trigger_states (f : gmap string TriggerStateRow → gmap string TriggerStateRow) (s : Db) : Db :=
  mkDb (db_revision s) (db_resources s) (db_resource_events s) (db_audit s) (db_plans s) (db_receipts s) (db_outbox s) (db_outbox_seq s) (db_runs s) (db_attempts s) (db_run_events s) (db_approvals s) (db_cursors s) (db_plugins s) (db_activations s) (f (db_trigger_states s)) (db_skips s) (db_cancellations s) (db_plugin_events s) (db_artifacts s) (db_tombstones s).
Definition set_skips (f : gmap (string * string) SkipRow → gmap (string * string) SkipRow) (s : Db) : Db :=
  mkDb (db_revision s) (db_resources s) (db_resource_events s) (db_audit s) (db_plans s) (db_receipts s) (db_outbox s) (db_outbox_seq s) (db_runs s) (db_attempts s) (db_run_events s) (db_approvals s) (db_cursors s) (db_plugins s) (db_activations s) (db_trigger_states s) (f (db_skips s)) (db_cancellations s) (db_plugin_events s) (db_artifacts s) (db_tombstones s).
Definition set_cancellations (f : gmap string CancellationRow → gmap string CancellationRow) (s : Db) : Db :=
  mkDb (db_revision s) (db_resources s) (db_resource_events s) (db_audit s) (db_plans s) (db_receipts s) (db_outbox s) (db_outbox_seq s) (db_runs s) (db_attempts s) (db_run_events s) (db_approvals s) (db_cursors s) (db_plugins s) (db_activations s) (db_trigger_states s) (db_skips s) (f (db_cancellations s)) (db_plugin_events s) (db_artifacts s) (db_tombstones s).
Definition set_plugin_events (f : gmap (attempt_key * Z) PluginEventRow → gmap (attempt_key * Z) PluginEventRow) (s : Db) : Db :=
  mkDb (db_revision s) (db_resources s) (db_resource_events s) (db_audit s) (db_plans s) (db_receipts s) (db_outbox s) (db_outbox_seq s) (db_runs s) (db_attempts s) (db_run_events s) (db_approvals s) (db_cursors s) (db_plugins s) (db_activations s) (db_trigger_states s) (db_skips s) (db_cancellations s) (f (db_plugin_events s)) (db_artifacts s) (db_tombstones s).
Definition set_artifacts (f : gmap (attempt_key * string) ArtifactRow → gmap (attempt_key * string) ArtifactRow) (s : Db) : Db :=
  mkDb (db_revision s) (db_resources s) (db_resource_events s) (db_audit s) (db_plans s) (db_receipts s) (db_outbox s) (db_outbox_seq s) (db_runs s) (db_attempts s) (db_run_events s) (db_approvals s) (db_cursors s) (db_plugins s) (db_activations s) (db_trigger_states s) (db_skips s) (db_cancellations s) (db_plugin_events s) (f (db_artifacts s)) (db_tombstones s).
Definition set_tombstones (f : gmap (string * string) TombstoneRow → gmap (string * string) TombstoneRow) (s : Db) : Db :=
  mkDb (db_revision s) (db_resources s) (db_resource_events s) (db_audit s) (db_plans s) (db_receipts s) (db_outbox s) (db_outbox_seq s) (db_runs s) (db_attempts s) (db_run_events s) (db_approvals s) (db_cursors s) (db_plugins s) (db_activations s) (db_trigger_states s) (db_skips s) (db_cancellations s) (db_plugin_events s) (db_artifacts s) (f (db_tombstones s)).

(** ** Transactions *)

Definition Tx (A : Type) : Type := Db → res (A * Db).

#[export] Instance tx_ret : MRet Tx := λ A a s, inr (a, s).
#[export] Instance tx_bind : MBind Tx := λ A B f m s,
  match m s with inl e => inl e | inr (a, s') => f a s' end.

Definition tx_fail {A} (e : Err) : Tx A := λ _, inl e.
Definition tx_get {A} (f : Db → A) : Tx A := λ s, inr (f s, s).
Definition tx_mod (f : Db → Db) : Tx unit := λ s, inr (tt, f s).
Definition tx_guard (b : bool) (e : Err) : Tx unit := λ s, if b then inr (tt, s) else inl e.
Definition tx_lift {A} (r : res A) : Tx A := λ s, match r with inl e => inl e | inr a => inr (a, s) end.
(** [SELECT] of one row: [sql.ErrNoRows] becomes [ErrNotFound]. *)
Definition tx_row {A} (f : Db → option A) : Tx A :=
  λ s, match f s with Some a => inr (a, s) | None => inl ErrNotFound end.

(** The database after the operation: a failed transaction leaves it alone. *)
Definition commit {A} (m : Tx A) (s : Db) : Db := match m s with inl _ => s | inr (_, s') => s' end.
Definition result {A} (m : Tx A) (s : Db) : res A := match m s with inl e => inl e | inr (a, _) => inr a end.

Section TxFacts.
Context {A B : Type}.
Lemma tx_bind_inv (m : Tx A) (f : A → Tx B) s b s' :
  (m ≫= f) s = inr (b, s') ↔ ∃ a s1, m s = inr (a, s1) ∧ f a s1 = inr (b, s').
Proof.
  unfold mbind, tx_bind. destruct (m s) as [e|[a s1]]; split.
  - done.
  - by intros (?&?&?&?).
  - eauto.
  - by intros (?&?&[= -> ->]&?).
Qed.
Lemma tx_get_inv (f : Db → A) s a s' : tx_get f s = inr (a, s') ↔ a = f s ∧ s' = s.
Proof. unfold tx_get. split; [by intros [= -> ->]|by intros [-> ->]]. Qed.
Lemma tx_row_inv (f : Db → option A) s a s' : tx_row f s = inr (a, s') ↔ f s = Some a ∧ s' = s.
Proof. unfold tx_row. destruct (f s); split; [by intros [= -> ->]|by intros [[= ->] ->]|done|by intros [? _]]. Qed.
Lemma tx_lift_inv (r : res A) s a s' : tx_lift r s = inr (a, s') ↔ r = inr a ∧ s' = s.
Proof. unfold tx_lift. destruct r; split; [done|by intros [? _]|by intros [= -> ->]|by intros [[= ->] ->]]. Qed.
Lemma tx_ret_inv (x : A) s a s' : mret (M:=Tx) x s = inr (a, s') ↔ a = x ∧ s' = s.
Proof. unfold mret, tx_ret. split; [by intros [= -> ->]|by intros [-> ->]]. Qed.
End TxFacts.

Lemma tx_mod_inv f s (a : unit) s' : tx_mod f s = inr (a, s') ↔ s' = f s.
Proof. unfold tx_mod. destruct a. split; [by intros [= ->]|by intros ->]. Qed.
Lemma tx_guard_inv b e s (a : unit) s' : tx_guard b e s = inr (a, s') ↔ b = true ∧ s' = s.
Proof. unfold tx_guard. destruct a, b; split; [by intros [= ->]|by intros [_ ->]|done|by intros [? _]]. Qed.

(** [tx_inv] decomposes every hypothesis [op s = inr (a, s')] into the reads,
    guards and writes of the path taken. *)
Ltac tx_step :=
  match goal with
  | H : inl _ = inr _ |- _ => discriminate H
  | H : inr _ = inr _ |- _ => injection H as H; try (injection H as ? ?); subst
  | H : tx_fail _ _ = inr _ |- _ => discriminate H
  | H : mret _ _ = inr (_, _) |- _ => apply tx_ret_inv in H as [? ?]; subst
  | H : tx_get _ _ = inr (_, _) |- _ => apply tx_get_inv in H as [? ?]; subst
  | H : tx_mod _ _ = inr (_, _) |- _ => apply tx_mod_inv in H; subst
  | H : tx_row _ _ = inr (_, _) |- _ =>
      let Hr := fresh "Hrow" in apply tx_row_inv in H as [Hr ?]; subst
  | H : tx_lift _ _ = inr (_, _) |- _ =>
      let Hr := fresh "Hlift" in apply tx_lift_inv in H as [Hr ?]; subst
  | H : tx_guard _ _ _ = inr (_, _) |- _ =>
      let Hg := fresh "Hguard" in apply tx_guard_inv in H as [Hg ?]; subst
  | H : (_ ≫= _) _ = inr (_, _) |- _ =>
      let H1 := fresh "Htx" in apply tx_bind_inv in H as (?&?&H1&H)
  | H : (match ?x with _ => _ end) _ = inr (_, _) |- _ => destruct x eqn:?
  | H : match ?x with _ => _ end = inr (_, _) |- _ => destruct x eqn:?
  end.
Ltac tx_inv := repeat (tx_step; try discriminate).
