(* ===== verification/StoreRuns.v ===== *)
(** [internal/store/store.go], runs: the run projection, its event log, node
    attempts, plugin evidence, artifacts, approvals and cancellations.

    Every operation that calls [s.timestamp()] takes the formatted instant
    [now]; [uuid.NewString()] is an argument.  A row with its key is returned
    where Go returns the filled-in struct. *)

From Stdlib Require Import Ascii.
From Stdlib Require String.
From S2P Require Import Prelude.
From S2P Require Import Json.
From S2P Require Import GoStd.
From S2P Require Import Resource.
From S2P Require Import Plan.
From S2P Require Import Db.

Local Open Scope Z_scope.

(** ** SQL helpers *)

(** [COALESCE(MAX(column),0)] of non-negative values. *)
Definition max_z (l : list Z) : Z := foldr Z.max 0 l.
(** The store's [limit <= 0 || limit > 1000] default. *)
Definition page_limit (limit : Z) : nat :=
  Z.to_nat (if (limit <=? 0) || (1000 <? limit) then 100 else limit).

Definition terminalRunPhase (phase : string) : bool :=
  String.eqb phase "succeeded" || String.eqb phase "failed" || String.eqb phase "rejected" || String.eqb phase "cancelled".

Definition events_of (run : string) (s : Db) : list RunEventRow := filter (λ e, ev_run e = run) (db_run_events s).
(** [SELECT COALESCE(MAX(sequence),0)+1 FROM run_events WHERE run_uid=?] *)
Definition next_sequence (run : string) (s : Db) : Z := max_z (ev_seq <$> events_of run s) + 1.

Definition insert_run_event (e : RunEventRow) : Tx unit :=
  dup ← tx_get (λ s, existsb (λ e', String.eqb (ev_run e') (ev_run e) && (ev_seq e' =? ev_seq e)) (db_run_events s));
  tx_guard (negb dup) (ErrConstraint "run_events") ≫= λ _,
  has_run ← tx_get (λ s, bool_decide (is_Some (db_runs s !! ev_run e)));
  tx_guard has_run (ErrConstraint "run_events") ≫= λ _,
  tx_mod (set_run_events (λ l, l ++ [e])).

Definition set_run_phase (phase now : string) (completed : option string) (r : RunRow) : RunRow :=
  mkRunRow (run_flow r) (run_receipt r) (run_plan r) (run_interpreter r) phase (run_input r)
    (run_created r) now (match completed with Some _ => completed | None => run_completed r end).
Definition touch_run (now : string) (r : RunRow) : RunRow :=
  mkRunRow (run_flow r) (run_receipt r) (run_plan r) (run_interpreter r) (run_phase r) (run_input r)
    (run_created r) now (run_completed r).

(** ** Runs *)

Definition json_error_payload (msg outcome : string) : string :=
  marshal (mkobj [("error", JStr msg); ("outcome", JStr outcome)]).
Definition nonempty (payload : string) : string := if String.eqb payload "" then "{}" else payload.

Definition put_plan_row (plan : ExecutionPlan) (now : string) : Tx unit :=
  tx_mod (set_plans (λ m, match m !! pl_planHash plan with
                          | Some _ => m
                          | None => <[pl_planHash plan := mkPlanRow plan now]> m end)).

Definition PutPlan (plan : ExecutionPlan) (now : string) : Tx unit := put_plan_row plan now.
Definition GetPlan (planHash : string) : Tx ExecutionPlan := tx_row (λ s, pr_plan <$> db_plans s !! planHash).

Definition EnsureRun (payload : StartPayload) (plan : ExecutionPlan) (now : string) : Tx bool :=
  exists_ ← tx_get (λ s, bool_decide (is_Some (db_runs s !! sp_run payload)));
  if exists_ : bool then mret false else
  put_plan_row plan now ≫= λ _,
  tx_mod (set_runs (λ m, <[sp_run payload :=
    mkRunRow (pl_flowUID plan) (sp_receipt payload) (pl_planHash plan) (pl_interpreterVersion plan) "pending"
      (sp_input payload) now now None]> m)) ≫= λ _,
  insert_run_event (mkRunEventRow (sp_run payload) 1 "" 0 "run.accepted" "{}" now) ≫= λ _,
  mret true.

Definition GetRun (uid : string) : Tx RunRow := tx_row (λ s, db_runs s !! uid).

Definition CountActiveRunsExcluding (uid : string) : Tx Z :=
  tx_get (λ s, Z.of_nat (length (filter (λ kr, kr.1 ≠ uid ∧ terminalRunPhase (run_phase kr.2) = false) (map_to_list (db_runs s))))).

Definition ListRunsFiltered (flowUID phase : string) (limit : Z) : Tx (list (string * RunRow)) :=
  tx_get (λ s, take (page_limit limit)
    (sort_by (lexc (revc (onc (run_created ∘ snd) str_cmp)) (revc (onc fst str_cmp)))
      (filter (λ kr, (flowUID = "" ∨ run_flow kr.2 = flowUID) ∧ (phase = "" ∨ run_phase kr.2 = phase))
        (map_to_list (db_runs s))))).
Definition ListRuns (limit : Z) : Tx (list (string * RunRow)) := ListRunsFiltered "" "" limit.

(** ** Run events *)

Definition appendRunEventTx (run node type phase : string) (attempt : Z) (payload now : string) : Tx bool :=
  r ← tx_row (λ s, db_runs s !! run);
  if terminalRunPhase (run_phase r) then mret false else
  seq ← tx_get (next_sequence run);
  insert_run_event (mkRunEventRow run seq node attempt type payload now) ≫= λ _,
  let completed := if terminalRunPhase phase then Some now else None in
  tx_mod (set_runs (alter (set_run_phase phase now completed) run)) ≫= λ _,
  mret true.

Definition AppendRunEvent (run node type phase : string) (attempt : Z) (payload now : string) : Tx unit :=
  appendRunEventTx run node type phase attempt (nonempty payload) now ≫= λ _, mret tt.

Definition appendRunEvidenceTx (run node type : string) (attempt : Z) (payload now : string) : Tx unit :=
  r ← tx_row (λ s, db_runs s !! run);
  seq ← tx_get (next_sequence run);
  insert_run_event (mkRunEventRow run seq node attempt type payload now) ≫= λ _,
  if terminalRunPhase (run_phase r) then mret tt
  else tx_mod (set_runs (alter (touch_run now) run)).

Definition RunEventsAfter (run : string) (after limit : Z) : Tx (list RunEventRow) :=
  tx_get (λ s, take (page_limit limit)
    (sort_by (onc ev_seq Z.compare) (filter (λ e, after < ev_seq e) (events_of run s)))).

(** ** Node attempts *)

Definition attempt_rows (run node : string) (iteration : Z) (s : Db) : list (attempt_key * AttemptRow) :=
  filter (λ ka, ka.1.1 = (run, node, iteration)) (map_to_list (db_attempts s)).
(** [... AND framework_attempt=? ORDER BY attempt DESC LIMIT 1] *)
Definition nodeAttemptForFrameworkTx (run node : string) (iteration framework : Z) (s : Db) : option (attempt_key * AttemptRow) :=
  head (sort_by (revc (onc (λ ka, ka.1.2) Z.compare))
    (filter (λ ka, at_framework ka.2 = framework) (attempt_rows run node iteration s))).
Definition next_attempt (run node : string) (iteration : Z) (s : Db) : Z :=
  max_z ((λ ka, ka.1.2) <$> attempt_rows run node iteration s) + 1.

Definition complete_row (phase : string) (output : option string) (error outcome now : string) (a : AttemptRow) : AttemptRow :=
  mkAttemptRow (at_framework a) phase (at_key a) (at_input a) output error outcome (at_started a) (Some now).

Definition lostMessage : string := "activity delivery ended without a durable completion".

Definition BeginNodeAttempt (run node : string) (iteration framework : Z) (key input now : string)
    : Tx ((attempt_key * AttemptRow) * bool) :=
  tx_guard (negb ((iteration <? 0) || (framework =? 0) || String.eqb key "")) (ErrMsg "node attempt identity is incomplete") ≫= λ _,
  let input := nonempty input in
  latest ← tx_get (nodeAttemptForFrameworkTx run node iteration framework);
  let start : Tx ((attempt_key * AttemptRow) * bool) :=
    r ← tx_row (λ s, db_runs s !! run);
    tx_guard (negb (terminalRunPhase (run_phase r))) (ErrMsg ("run " +:+ run +:+ " is already " +:+ run_phase r)) ≫= λ _,
    match latest with
    | Some (k, a) =>
        tx_mod (set_attempts (λ m, <[k := complete_row "failed" (at_output a) lostMessage "delivery-lost" now a]> m)) ≫= λ _,
        appendRunEventTx run node "node.failed" "running" k.2 (json_error_payload lostMessage "delivery-lost") now ≫= λ _,
        mret tt
    | None => mret tt
    end ≫= λ _,
    attempt ← tx_get (next_attempt run node iteration);
    tx_guard (negb ((attempt <=? 0) || (max_uint32 <? attempt))) (ErrMsg "node attempt sequence is exhausted") ≫= λ _,
    let row := mkAttemptRow framework "running" key input None "" "" now None in
    tx_mod (set_attempts (λ m, <[(run, node, iteration, attempt) := row]> m)) ≫= λ _,
    appendRunEventTx run node "node.started" "running" attempt "{}" now ≫= λ _,
    mret (((run, node, iteration, attempt), row), true) in
  match latest with
  | Some (k, a) => match at_completed a with Some _ => mret ((k, a), false) | None => start end
  | None => start
  end.

Definition NodeAttempt (run node : string) (iteration attempt : Z) : Tx AttemptRow :=
  tx_row (λ s, db_attempts s !! (run, node, iteration, attempt)).

Definition CompleteNodeAttempt (run node : string) (iteration attempt : Z) (phase output errorText exitOutcome now : string)
    : Tx AttemptRow :=
  tx_guard (String.eqb phase "succeeded" || String.eqb phase "failed" || String.eqb phase "cancelled")
    (ErrMsg ("invalid node attempt phase " +:+ quoted phase)) ≫= λ _,
  let output := nonempty output in
  existing ← NodeAttempt run node iteration attempt;
  match at_completed existing with
  | Some _ => mret existing
  | None =>
      let effective := if String.eqb (at_outcome existing) "" then exitOutcome else at_outcome existing in
      tx_mod (set_attempts (λ m, <[(run, node, iteration, attempt) :=
        complete_row phase (Some output) errorText effective now existing]> m)) ≫= λ _,
      let '(type, payload) :=
        if String.eqb phase "succeeded" then ("node.completed", output)
        else ("node.failed", json_error_payload errorText effective) in
      appendRunEventTx run node type "running" attempt payload now ≫= λ _,
      NodeAttempt run node iteration attempt
  end.

Definition set_outcome (outcome : string) (a : AttemptRow) : AttemptRow :=
  if String.eqb (at_outcome a) "" then
    mkAttemptRow (at_framework a) (at_phase a) (at_key a) (at_input a) (at_output a) (at_error a) outcome
      (at_started a) (at_completed a)
  else a.
Definition SetNodeAttemptOutcome (run node : string) (iteration attempt : Z) (outcome : string) : Tx unit :=
  if String.eqb outcome "" then mret tt
  else tx_mod (set_attempts (alter (set_outcome outcome) (run, node, iteration, attempt))).

Definition ListNodeAttempts (run node : string) (limit : Z) : Tx (list (attempt_key * AttemptRow)) :=
  tx_get (λ s, take (page_limit limit)
    (sort_by (lexc (onc (λ ka, ka.1.1.2) Z.compare) (lexc (onc (λ ka, ka.1.2) Z.compare) (onc (λ ka, ka.1.1.1.2) str_cmp)))
      (filter (λ ka, ka.1.1.1.1 = run ∧ (node = "" ∨ ka.1.1.1.2 = node)) (map_to_list (db_attempts s))))).

(** ** Plugin evidence *)

Definition plugin_envelope (sequence : Z) (at_ payload : string) : string :=
  "{" +:+ quoted "occurredAt" +:+ ":" +:+ quoted at_ +:+ "," +:+ quoted "payload" +:+ ":" +:+ compact_raw payload
      +:+ "," +:+ quoted "sequence" +:+ ":" +:+ itoa sequence +:+ "}".

Definition AppendPluginEvent (run node : string) (iteration attempt sequence : Z) (type payload occurredAt now : string) : Tx unit :=
  tx_guard (negb ((sequence =? 0) || String.eqb type "" || negb (valid payload))) (ErrMsg "plugin event is incomplete") ≫= λ _,
  let k := (run, node, iteration, attempt, sequence) in
  stored ← tx_get (λ s, db_plugin_events s !! k);
  match stored with
  | Some r =>
      tx_guard (String.eqb (pe_type r) type && String.eqb (pe_at r) occurredAt && String.eqb (pe_payload r) payload)
        (ErrMsg "plugin event sequence conflicts with durable evidence")
  | None =>
      fk ← tx_get (λ s, bool_decide (is_Some (db_attempts s !! (run, node, iteration, attempt))));
      tx_guard fk (ErrConstraint "plugin_events") ≫= λ _,
      tx_mod (set_plugin_events (λ m, <[k := mkPluginEventRow type payload occurredAt]> m)) ≫= λ _,
      appendRunEvidenceTx run node ("plugin." +:+ type) attempt (plugin_envelope sequence occurredAt payload) now
  end.

(** ** Artifacts *)

(** [filepath.Clean] on a slash-separated path. *)
Fixpoint clean_parts (rooted : bool) (parts : list string) (stack : list string) : list string :=
  match parts with
  | [] => rev stack
  | p :: parts =>
      if String.eqb p "" || String.eqb p "." then clean_parts rooted parts stack
      else if String.eqb p ".." then
        match stack with
        | top :: stack' => if String.eqb top ".." then clean_parts rooted parts (p :: stack)
                           else clean_parts rooted parts stack'
        | [] => if rooted then clean_parts rooted parts [] else clean_parts rooted parts [p]
        end
      else clean_parts rooted parts (p :: stack)
  end.
Definition path_is_abs (p : string) : bool := has_prefix p "/".
Definition path_clean (p : string) : string :=
  let rooted := path_is_abs p in
  let parts := clean_parts rooted (split_on "/"%char p) [] in
  if rooted then "/" +:+ join "/" parts
  else match parts with [] => "." | _ => join "/" parts end.

Definition is_hex (c : ascii) : bool :=
  is_digit c || ((97 <=? byte c) && (byte c <=? 102)) || ((65 <=? byte c) && (byte c <=? 70)).
(** [hex.DecodeString] gives exactly [sha256.Size] bytes. *)
Definition sha256_hex (s : string) : bool := (String.length s =? 64)%nat && forallb is_hex (explode s).

Record ArtifactArg := mkArtifactArg {
  aa_uid : string; aa_run : string; aa_node : string; aa_iteration : Z; aa_attempt : Z; aa_name : string;
  aa_mediaType : string; aa_path : string; aa_size : Z; aa_sha256 : string }.

Definition PutArtifact (a : ArtifactArg) (fresh now : string) : Tx ArtifactRow :=
  tx_guard (negb (String.eqb (aa_run a) "" || String.eqb (aa_node a) "" || (aa_iteration a <? 0) || (aa_attempt a =? 0)
                  || String.eqb (aa_name a) "" || String.eqb (aa_path a) "" || (aa_size a <? 0)))
    (ErrMsg "artifact metadata is incomplete") ≫= λ _,
  tx_guard (sha256_hex (aa_sha256 a)) (ErrMsg "artifact sha256 is invalid") ≫= λ _,
  let clean := path_clean (aa_path a) in
  tx_guard (negb (path_is_abs clean || String.eqb clean "." || String.eqb clean ".." || has_prefix clean "../"))
    (ErrMsg "artifact path escapes the state directory") ≫= λ _,
  let uid := if String.eqb (aa_uid a) "" then fresh else aa_uid a in
  let media := if String.eqb (aa_mediaType a) "" then "application/octet-stream" else aa_mediaType a in
  let attempt := (aa_run a, aa_node a, aa_iteration a, aa_attempt a) in
  owner ← tx_row (λ s, db_attempts s !! attempt);
  existing ← tx_get (λ s, db_artifacts s !! (attempt, aa_name a));
  let uid := if existing is Some e then ar_uid e else uid in
  match existing, at_completed owner with
  | Some e, Some _ =>
      tx_guard (String.eqb (ar_mediaType e) media && String.eqb (ar_path e) clean && (ar_size e =? aa_size a)
                && String.eqb (ar_sha256 e) (aa_sha256 a))
        (ErrMsg "completed attempt artifact differs from durable metadata") ≫= λ _, mret e
  | _, _ =>
      clash ← tx_get (λ s, existsb (λ kr, String.eqb (ar_uid kr.2) uid && negb (bool_decide (kr.1 = (attempt, aa_name a))))
                             (map_to_list (db_artifacts s)));
      tx_guard (negb clash) (ErrConstraint "artifacts") ≫= λ _,
      let created := if existing is Some e then ar_created e else now in
      let row := mkArtifactRow uid media clean (aa_size a) (aa_sha256 a) created now in
      tx_mod (set_artifacts (λ m, <[(attempt, aa_name a) := row]> m)) ≫= λ _, mret row
  end.

Definition Artifact (run node : string) (iteration attempt : Z) (name : string) : Tx ArtifactRow :=
  tx_row (λ s, db_artifacts s !! ((run, node, iteration, attempt), name)).
Definition ArtifactByUID (uid : string) : Tx ArtifactRow :=
  tx_row (λ s, head (filter (λ a, ar_uid a = uid) (snd <$> map_to_list (db_artifacts s)))).
Definition ListArtifacts (run : string) (limit : Z) : Tx (list ((attempt_key * string) * ArtifactRow)) :=
  tx_get (λ s, take (page_limit limit)
    (sort_by (lexc (onc (λ ka, ka.1.1.1.2) Z.compare) (lexc (onc (λ ka, ka.1.1.2) Z.compare)
               (lexc (onc (λ ka, ka.1.1.1.1.2) str_cmp) (onc (λ ka, ka.1.2) str_cmp))))
      (filter (λ ka, ka.1.1.1.1.1 = run) (map_to_list (db_artifacts s))))).

(** ** Cancellation *)

Definition RequestRunCancellation (run reason now : string) : Tx unit :=
  r ← tx_row (λ s, db_runs s !! run);
  if negb (String.eqb (run_phase r) "cancelled") && terminalRunPhase (run_phase r) then mret tt else
  recorded ← tx_get (λ s, bool_decide (is_Some (db_cancellations s !! run)));
  if recorded : bool then mret tt else
  tx_mod (set_cancellations (λ m, <[run := mkCancellationRow reason false now None]> m)) ≫= λ _,
  seq ← tx_get (next_sequence run);
  insert_run_event (mkRunEventRow run seq "" 0 "run.cancelled" (marshal (mkobj [("reason", JStr reason)])) now) ≫= λ _,
  tx_mod (set_runs (alter (λ r,
    mkRunRow (run_flow r) (run_receipt r) (run_plan r) (run_interpreter r) "cancelled" (run_input r)
      (run_created r) now (match run_completed r with Some c => Some c | None => Some now end)) run)).

Definition UndeliveredRunCancellations (limit : Z) : Tx (list (string * string)) :=
  tx_get (λ s, (λ kc, (kc.1, ca_reason kc.2)) <$> take (page_limit limit)
    (sort_by (lexc (onc (ca_requested ∘ snd) str_cmp) (onc fst str_cmp))
      (filter (λ kc, ca_delivered kc.2 = false) (map_to_list (db_cancellations s))))).

Definition deliver (now : string) (c : CancellationRow) : CancellationRow :=
  mkCancellationRow (ca_reason c) true (ca_requested c) (Some now).
Definition MarkRunCancellationDelivered (run now : string) : Tx unit :=
  tx_mod (set_cancellations (alter (deliver now) run)).

Definition is_start (p : OutboxPayload) : bool := if p is StartRun _ then true else false.
Definition MarkRunCancellationDeliveredIfStartImpossible (run now : string) : Tx bool :=
  pending ← tx_get (λ s, existsb (λ o, is_start (ob_payload o) && String.eqb (ob_aggregate o) run
                                        && negb (bool_decide (ob_state o = ObCompleted))) (db_outbox s));
  c ← tx_get (λ s, db_cancellations s !! run);
  match c with
  | Some c => if ca_delivered c || pending then mret false
              else tx_mod (set_cancellations (alter (deliver now) run)) ≫= λ _, mret true
  | None => mret false
  end.

(** ** Approvals *)

Definition EnsureApproval (run node : string) (expiresAt : option string) : Tx unit :=
  existing ← tx_get (λ s, db_approvals s !! (run, node));
  match existing with
  | Some _ => mret tt
  | None =>
      fk ← tx_get (λ s, bool_decide (is_Some (db_runs s !! run)));
      tx_guard fk (ErrConstraint "approvals") ≫= λ _,
      tx_mod (set_approvals (λ m, <[(run, node) := mkApprovalRow "pending" "" "" expiresAt None false]> m))
  end.

Definition DecideApproval (run node state actor reason now : string) : Tx unit :=
  tx_guard (String.eqb state "approved" || String.eqb state "rejected") (ErrMsg ("invalid approval state " +:+ quoted state)) ≫= λ _,
  existing ← tx_get (λ s, db_approvals s !! (run, node));
  match existing with
  | Some a =>
      if String.eqb (ap_state a) "pending" then
        tx_mod (set_approvals (λ m, <[(run, node) := mkApprovalRow state actor reason (ap_expires a) (Some now) false]> m))
      else tx_fail (ErrMsg "approval is missing or already decided")
  | None => tx_fail (ErrMsg "approval is missing or already decided")
  end.

Definition ApprovalState (run node : string) : Tx string :=
  tx_row (λ s, ap_state <$> db_approvals s !! (run, node)).

(** [ORDER BY decided_at]: a NULL sorts first; decided rows are never NULL. *)
Definition decided_key (ka : (string * string) * ApprovalRow) : string :=
  if ap_decided ka.2 is Some d then d else "".
Definition UndeliveredApprovalSignals (limit : Z) : Tx (list (string * string * string * string)) :=
  tx_get (λ s, (λ ka, (ka.1.1, ka.1.2, ap_state ka.2, ap_reason ka.2)) <$> take (page_limit limit)
    (sort_by (onc decided_key str_cmp)
      (filter (λ ka, ap_state ka.2 ≠ "pending" ∧ ap_delivered ka.2 = false) (map_to_list (db_approvals s))))).

Definition mark_signaled (a : ApprovalRow) : ApprovalRow :=
  if String.eqb (ap_state a) "pending" then a
  else mkApprovalRow (ap_state a) (ap_actor a) (ap_reason a) (ap_expires a) (ap_decided a) true.
Definition MarkApprovalSignaled (run node : string) : Tx unit :=
  tx_mod (set_approvals (alter mark_signaled (run, node))).
