(* ===== verification/StoreResources.v ===== *)
(** [internal/store/store.go], resources: compare-and-swap apply and delete, the
    server-owned status projection, the global revision with its watch log, the
    audit log, keyset pagination, and the trigger state that follows a Trigger's
    generation.

    [digest] (hex SHA-256 of canonical JSON) is the operation of [Digest]; no
    other operation reads a digest back.  [uuid.NewString()] is an argument. *)

From Stdlib Require String.
From S2P Require Import Prelude.
From S2P Require Import Json.
From S2P Require Import GoStd.
From S2P Require Import Resource.
From S2P Require Import Plan.
From S2P Require Import Db.
From S2P Require Import StoreRuns.

Local Open Scope Z_scope.

Class Digest := { document_digest : Document → string; object_digest : list (string * json) → string }.

Definition default_namespace (ns : string) : string := if String.eqb ns "" then DefaultNamespace else ns.
Definition valueOr (value fallback : string) : string := if String.eqb value "" then fallback else value.

(** [UPDATE revisions SET value=value+1 ... RETURNING value] *)
Definition nextRevision : Tx Z :=
  tx_mod (set_revision (λ v, v + 1)) ≫= λ _, tx_get db_revision.

Definition insert_resource_event (e : ResourceEventRow) : Tx unit :=
  dup ← tx_get (λ s, existsb (λ e', re_revision e' =? re_revision e) (db_resource_events s));
  tx_guard (negb dup) (ErrConstraint "resource_events") ≫= λ _,
  tx_mod (set_resource_events (λ l, l ++ [e])).
Definition insert_audit (a : AuditRow) : Tx unit := tx_mod (set_audit (λ l, l ++ [a])).

(** [INSERT]/[UPDATE] of a resource row: the uid column is UNIQUE. *)
Definition put_resource (k : resource_key) (r : ResourceRow) : Tx unit :=
  clash ← tx_get (λ s, existsb (λ kr, String.eqb (rr_uid kr.2) (rr_uid r) && negb (bool_decide (kr.1 = k)))
                         (map_to_list (db_resources s)));
  tx_guard (negb clash) (ErrConstraint "resources") ≫= λ _,
  tx_mod (set_resources (λ m, <[k := r]> m)).

(** ** Trigger state *)

Record TriggerState := mkTriggerState {
  st_trigger : string; st_generation : Z; st_enabled : bool; st_cursor : Z }.
Definition trigger_state (uid : string) (r : TriggerStateRow) : TriggerState :=
  mkTriggerState uid (ts_generation r) (ts_enabled r) (ts_cursor r).

Definition ensureTriggerStateTx (uid : string) (generation : Z) (enabled : bool) (initialCursor : Z) (updatedAt : string)
    : Tx TriggerState :=
  current ← tx_get (λ s, db_trigger_states s !! uid);
  let fresh := mkTriggerStateRow generation enabled initialCursor updatedAt in
  match current with
  | None => tx_mod (set_trigger_states (λ m, <[uid := fresh]> m)) ≫= λ _, mret (trigger_state uid fresh)
  | Some r =>
      if ts_generation r =? generation then mret (trigger_state uid r)
      else
        tx_guard (negb (generation <? ts_generation r)) (ErrStaleTriggerGeneration generation (ts_generation r)) ≫= λ _,
        tx_mod (set_trigger_states (λ m, <[uid := fresh]> m)) ≫= λ _,
        tx_mod (set_cursors (delete uid)) ≫= λ _,
        mret (trigger_state uid fresh)
  end.

Definition EnsureTriggerState (uid : string) (generation : Z) (enabled : bool) (initialCursor : Z) (now : string)
    : Tx TriggerState := ensureTriggerStateTx uid generation enabled initialCursor now.
Definition GetTriggerState (uid : string) : Tx TriggerState :=
  tx_row (λ s, trigger_state uid <$> db_trigger_states s !! uid).

Definition AdvanceTriggerCursor (uid : string) (cursor : Z) (now : string) : Tx unit :=
  r ← tx_row (λ s, db_trigger_states s !! uid);
  tx_mod (set_trigger_states (λ m, <[uid := mkTriggerStateRow (ts_generation r) (ts_enabled r) cursor now]> m)).
Definition SetTriggerEnabled (uid : string) (enabled : bool) (now : string) : Tx unit :=
  r ← tx_row (λ s, db_trigger_states s !! uid);
  tx_mod (set_trigger_states (λ m, <[uid := mkTriggerStateRow (ts_generation r) enabled (ts_cursor r) now]> m)).

Definition RecordTriggerSkip (uid occurrence reason scheduledAt now : string) : Tx unit :=
  tx_mod (set_skips (λ m, match m !! (uid, occurrence) with
                          | Some _ => m
                          | None => <[(uid, occurrence) := mkSkipRow reason scheduledAt now]> m end)).
Definition TriggerSkips (uid : string) (limit : Z) : Tx (list ((string * string) * SkipRow)) :=
  tx_get (λ s, take (page_limit limit)
    (sort_by (revc (onc (sk_scheduled ∘ snd) str_cmp)) (filter (λ kr, kr.1.1 = uid) (map_to_list (db_skips s))))).

(** ** Apply, status, delete *)

Record ApplyOptions := mkApplyOptions {
  ao_expected : Z; ao_requestID : string; ao_actor : string; ao_context : string }.

Section Resources.
Context {cal : Calendar} {dig : Digest}.

(** [nowTime] is [s.now().UTC()] and [now] its RFC3339Nano text. *)
Definition Apply (doc : Document) (options : ApplyOptions) (freshUID freshRequest : string) (nowTime : Z) : Tx Document :=
  let now := rfc3339nano nowTime in
  let doc := WithServerStatus [] doc in
  let m := doc_meta doc in
  let k := (doc_kind doc, m_namespace m, m_name m) in
  current ← tx_get (λ s, db_resources s !! k);
  let expected := if ao_expected options =? 0 then m_resourceVersion m else ao_expected options in
  match current with
  | Some r => tx_guard (expected =? rr_version r) (ErrConflict expected (rr_version r))
  | None => tx_guard (expected =? 0) (ErrConflict expected 0)
  end ≫= λ _,
  revision ← nextRevision;
  meta ← (match current with
    | Some r =>
        currentDoc ← tx_lift (DecodeStrict (rr_doc r));
        let generation := if decide (doc_spec currentDoc = doc_spec doc) then rr_generation r else u64 (rr_generation r + 1) in
        mret (mkMeta (m_name m) (m_namespace m) (rr_uid r) revision generation (m_labels m))
    | None => mret (mkMeta (m_name m) (m_namespace m) freshUID revision 1 (m_labels m))
    end);
  let doc := WithServerMetadata meta doc in
  let doc := match current with Some r => WithServerStatus (rr_status r) doc | None => doc end in
  let created := match current with Some r => rr_created r | None => now end in
  put_resource k (mkResourceRow (m_uid meta) revision (m_generation meta) (m_labels meta) doc (doc_status doc) created now) ≫= λ _,
  match doc_spec doc with
  | SpecTrigger _ =>
      trigger ← tx_lift (DecodeTrigger doc);
      let enabled := match t_enabled trigger.2 with Some b => b | None => true end in
      ensureTriggerStateTx (m_uid trigger.1) (m_generation trigger.1) enabled nowTime now ≫= λ _, mret tt
  | _ => mret tt
  end ≫= λ _,
  let eventType := if current is Some _ then "MODIFIED" else "ADDED" in
  let operation := if current is Some _ then "modified" else "added" in
  insert_resource_event (mkResourceEventRow revision eventType (doc_kind doc) (m_namespace meta) (m_name meta) (m_uid meta) (Some doc) now) ≫= λ _,
  let oldHash := match current with Some r => document_digest (rr_doc r) | None => "" end in
  insert_audit (mkAuditRow revision (valueOr (ao_requestID options) freshRequest) (valueOr (ao_actor options) "unix-peer")
    (ao_context options) operation (m_uid meta) oldHash (document_digest doc) now) ≫= λ _,
  mret doc.

Definition UpdateResourceStatus (kind namespace name : string) (expectedGeneration : Z) (status : list (string * json)) (now : string)
    : Tx Document :=
  let namespace := default_namespace namespace in
  let k := (kind, namespace, name) in
  r ← tx_row (λ s, db_resources s !! k);
  tx_guard ((expectedGeneration =? 0) || (rr_generation r =? expectedGeneration))
    (ErrStaleObservedGeneration expectedGeneration (rr_generation r)) ≫= λ _,
  if decide (rr_status r = status) then tx_lift (DecodeStrict (rr_doc r)) else
  revision ← nextRevision;
  doc ← tx_lift (DecodeStrict (rr_doc r));
  let m := doc_meta doc in
  let meta := mkMeta (m_name m) (m_namespace m) (m_uid m) revision (m_generation m) (m_labels m) in
  let doc := WithServerStatus status (WithServerMetadata meta doc) in
  put_resource k (mkResourceRow (rr_uid r) revision (rr_generation r) (rr_labels r) doc status (rr_created r) now) ≫= λ _,
  insert_resource_event (mkResourceEventRow revision "MODIFIED" kind namespace name (rr_uid r) (Some doc) now) ≫= λ _,
  insert_audit (mkAuditRow revision ("status:" +:+ rr_uid r +:+ ":" +:+ itoa (rr_generation r) +:+ ":" +:+ object_digest status)
    "controller" "" "status" (rr_uid r) (document_digest (rr_doc r)) (document_digest doc) now) ≫= λ _,
  mret doc.

Definition Delete (kind namespace name : string) (expected : Z) (requestID freshRequest now : string) : Tx unit :=
  let namespace := default_namespace namespace in
  let k := (kind, namespace, name) in
  r ← tx_row (λ s, db_resources s !! k);
  tx_guard (rr_version r =? expected) (ErrConflict expected (rr_version r)) ≫= λ _,
  revision ← nextRevision;
  tx_mod (set_resources (delete k)) ≫= λ _,
  (if String.eqb kind "Trigger" then
     tx_mod (set_cursors (delete (rr_uid r))) ≫= λ _, tx_mod (set_trigger_states (delete (rr_uid r)))
   else mret tt) ≫= λ _,
  insert_resource_event (mkResourceEventRow revision "DELETED" kind namespace name (rr_uid r) None now) ≫= λ _,
  insert_audit (mkAuditRow revision (valueOr requestID freshRequest) "unix-peer" "" "deleted" (rr_uid r)
    (document_digest (rr_doc r)) "" now).

(** ** Reads *)

Definition Get (kind namespace name : string) : Tx Document :=
  r ← tx_row (λ s, db_resources s !! (kind, default_namespace namespace, name));
  tx_lift (DecodeStrict (rr_doc r)).

Definition key_cmp : resource_key → resource_key → comparison :=
  lexc (onc (λ k, k.1.1) str_cmp) (lexc (onc (λ k, k.1.2) str_cmp) (onc snd str_cmp)).
(** [ORDER BY kind,namespace,name]. *)
Definition sorted_resources (s : Db) : list (resource_key * ResourceRow) :=
  sort_by (onc fst key_cmp) (map_to_list (db_resources s)).
Definition matches (filter value : string) : bool := String.eqb filter "" || String.eqb value filter.

Fixpoint decode_all (l : list ResourceRow) : res (list Document) :=
  match l with
  | [] => ok []
  | r :: l => DecodeStrict (rr_doc r) ≫= λ d, decode_all l ≫= λ ds, ok (d :: ds)
  end.

(** The first statement of [List]; the revision is a second one ([Proc.List_]). *)
Definition list_rows (kind namespace : string) (limit : Z) : Tx (list Document) :=
  rows ← tx_get (λ s, take (page_limit limit)
    (filter (λ kr, matches kind kr.1.1.1 && matches namespace kr.1.1.2 = true) (sorted_resources s)));
  tx_lift (decode_all (snd <$> rows)).

Record ResourcePageOptions := mkPageOptions {
  po_kind : string; po_namespace : string; po_labels : gmap string string;
  po_after : resource_key; po_expectedRevision : Z; po_limit : Z }.

Definition labelsMatch (actual required : gmap string string) : bool :=
  forallb (λ kv, bool_decide (actual !! kv.1 = Some kv.2)) (map_to_list required).
Definition after_set (k : resource_key) : bool :=
  negb (String.eqb k.1.1 "" && String.eqb k.1.2 "" && String.eqb k.2 "").
(** [kind>? OR (kind=? AND namespace>?) OR (kind=? AND namespace=? AND name>?)] *)
Definition key_after (a k : resource_key) : bool :=
  str_lt a.1.1 k.1.1 || (String.eqb k.1.1 a.1.1 && str_lt a.1.2 k.1.2)
  || (String.eqb k.1.1 a.1.1 && String.eqb k.1.2 a.1.2 && str_lt a.2 k.2).

(** The row loop: collect up to [limit] label matches, [more] on the next. *)
Fixpoint page_rows (labels : gmap string string) (limit : nat) (rows : list (resource_key * ResourceRow))
    (acc : list Document) : res (list Document * bool) :=
  match rows with
  | [] => ok (rev acc, false)
  | kr :: rows =>
      if negb (labelsMatch (rr_labels kr.2) labels) then page_rows labels limit rows acc
      else if (length acc =? limit)%nat then ok (rev acc, true)
      else DecodeStrict (rr_doc kr.2) ≫= λ d, page_rows labels limit rows (d :: acc)
  end.

Definition ListResourcePage (o : ResourcePageOptions) : Tx (list Document * Z * bool) :=
  revision ← tx_get db_revision;
  tx_guard ((po_expectedRevision o =? 0) || (po_expectedRevision o =? revision))
    (ErrSnapshotRevision (po_expectedRevision o) revision) ≫= λ _,
  rows ← tx_get (λ s, filter (λ kr, matches (po_kind o) kr.1.1.1 && matches (po_namespace o) kr.1.1.2
                                 && (negb (after_set (po_after o)) || key_after (po_after o) kr.1) = true)
                        (sorted_resources s));
  page ← tx_lift (page_rows (po_labels o) (page_limit (po_limit o)) rows []);
  mret (page.1, revision, page.2).

Definition EventsAfter (kind namespace : string) (revision limit : Z) : Tx (list ResourceEventRow) :=
  tx_get (λ s, take (page_limit limit) (sort_by (onc re_revision Z.compare)
    (filter (λ e, revision < re_revision e ∧ matches kind (re_kind e) && matches namespace (re_namespace e) = true)
      (db_resource_events s)))).

Definition ResourceByUID (kind uid : string) : Tx Document :=
  r ← tx_row (λ s, head (filter (λ kr, kr.1.1.1 = kind ∧ rr_uid kr.2 = uid) (map_to_list (db_resources s))));
  tx_lift (DecodeStrict (rr_doc r.2)).
End Resources.
