(* ===== verification/StoreOutbox.v ===== *)
(** [internal/store/store.go], acceptance and dispatch: the receipt / plan /
    outbox transaction, provider cursors, occurrence tombstones and the durable
    outbox with its claims. *)

From Stdlib Require String.
From S2P Require Import Prelude.
From S2P Require Import Json.
From S2P Require Import GoStd.
From S2P Require Import Resource.
From S2P Require Import Plan.
From S2P Require Import Db.
From S2P Require Import StoreRuns.
From S2P Require Import StoreResources.

Local Open Scope Z_scope.

(** ** Receipts *)

Record Receipt := mkReceipt {
  rt_uid : string; rt_trigger : string; rt_occurrence : string; rt_run : string;
  rt_deduplicated : bool; rt_accepted : string; rt_existing : bool }.

(** The receipt row of an occurrence, else its tombstone. *)
Definition lookup_receipt (trigger occurrence : string) (s : Db) : option Receipt :=
  match db_receipts s !! (trigger, occurrence) with
  | Some r => Some (mkReceipt (rc_uid r) trigger occurrence (rc_run r) (rc_deduplicated r) (rc_accepted r) false)
  | None =>
      (λ t, mkReceipt (tb_receipt t) trigger occurrence (tb_run t) (tb_deduplicated t) (tb_accepted t) false)
        <$> db_tombstones s !! (trigger, occurrence)
  end.
Definition receiptByOccurrence (trigger occurrence : string) : Tx (option Receipt) := tx_get (lookup_receipt trigger occurrence).
Definition ReceiptByOccurrence (trigger occurrence : string) : Tx Receipt := tx_row (lookup_receipt trigger occurrence).
Definition mark_existing (r : Receipt) : Receipt :=
  mkReceipt (rt_uid r) (rt_trigger r) (rt_occurrence r) (rt_run r) (rt_deduplicated r) (rt_accepted r) true.

Definition insert_receipt (trigger occurrence : string) (r : ReceiptRow) : Tx unit :=
  clash ← tx_get (λ s, bool_decide (is_Some (db_receipts s !! (trigger, occurrence)))
                        || existsb (λ kr, String.eqb (rc_uid kr.2) (rc_uid r)) (map_to_list (db_receipts s)));
  tx_guard (negb clash) (ErrConstraint "trigger_receipts") ≫= λ _,
  tx_mod (set_receipts (λ m, <[(trigger, occurrence) := r]> m)).

(** AUTOINCREMENT id, UNIQUE idempotency key. *)
Definition insert_outbox (aggregate key : string) (payload : OutboxPayload) (now : string) : Tx unit :=
  dup ← tx_get (λ s, existsb (λ o, String.eqb (ob_key o) key) (db_outbox s));
  tx_guard (negb dup) (ErrConstraint "outbox") ≫= λ _,
  tx_mod (set_outbox_seq (λ n, n + 1)) ≫= λ _,
  id ← tx_get db_outbox_seq;
  tx_mod (set_outbox (λ l, l ++ [mkOutboxRow id aggregate key payload ObPending 0 now None None ""])).

Definition upsertProviderCursor (trigger cursor eventID now : string) : Tx unit :=
  tx_mod (set_cursors (λ m, <[trigger := mkCursorRow cursor eventID now]> m)).
Definition ProviderCursor (trigger : string) : Tx (string * string) :=
  tx_get (λ s, match db_cursors s !! trigger with Some c => (cu_cursor c, cu_eventID c) | None => ("", "") end).

Section Acceptance.
Context {cal : Calendar}.

Definition validateTriggerAcceptanceTx (trigger : string) (generation : Z) (flowName namespace : string) : Tx unit :=
  row ← tx_row (λ s,
    kr ← head (filter (λ kr, kr.1.1.1 = "Trigger" ∧ rr_uid kr.2 = trigger) (map_to_list (db_resources s)));
    st ← db_trigger_states s !! trigger;
    Some (kr.2, st));
  let '(r, st) := row in
  tx_guard (rr_generation r =? generation) (ErrStaleTriggerGeneration generation (rr_generation r)) ≫= λ _,
  tx_guard (ts_generation st =? generation) (ErrStaleTriggerGeneration generation (ts_generation st)) ≫= λ _,
  tx_guard (ts_enabled st) ErrTriggerDisabled ≫= λ _,
  t ← tx_lift (match DecodeTrigger (rr_doc r) with inl _ => fail (ErrMsg "stored Trigger is invalid") | inr t => ok t end);
  tx_guard (String.eqb (m_namespace t.1) namespace && String.eqb (t_flow t.2) flowName) ErrTriggerReferenceChanged.

Definition validateFlowPlanTx (flowName namespace : string) (plan : ExecutionPlan) : Tx unit :=
  r ← tx_row (λ s, db_resources s !! ("Flow", namespace, flowName));
  tx_guard (String.eqb (rr_uid r) (pl_flowUID plan) && (rr_generation r =? pl_flowGeneration plan))
    (ErrStaleFlowPlan (pl_flowUID plan) (pl_flowGeneration plan) (rr_uid r) (rr_generation r)).

Definition validateSignalTargetTx (flowName namespace run node : string) : Tx unit :=
  tx_guard (negb (String.eqb run "" || String.eqb node "")) (ErrMsg "provider signal target run and node are required") ≫= λ _,
  r ← tx_row (λ s, db_runs s !! run);
  tx_guard (negb (terminalRunPhase (run_phase r))) (ErrMsg ("signal target run " +:+ run +:+ " is already " +:+ run_phase r)) ≫= λ _,
  fl ← tx_row (λ s, db_resources s !! ("Flow", namespace, flowName));
  plan ← tx_row (λ s, pr_plan <$> db_plans s !! run_plan r);
  tx_guard (String.eqb (pl_flowUID plan) (rr_uid fl)) (ErrMsg "signal target run belongs to a different Flow") ≫= λ _,
  match List.find (λ n, String.eqb (pn_id n) node) (pl_nodes plan) with
  | Some n => tx_guard (String.eqb (pn_uses n) "core.event") (ErrMsg ("signal target node " +:+ node +:+ " is not a core.event node"))
  | None => tx_fail (ErrMsg ("signal target node " +:+ node +:+ " is not present in the pinned plan"))
  end.

Definition startKey (trigger occurrence : string) : string := "trigger/" +:+ trigger +:+ "/" +:+ occurrence.
Definition signalKey (trigger occurrence : string) : string := "signal/" +:+ trigger +:+ "/" +:+ occurrence.

Definition acceptTrigger (trigger : string) (generation : Z) (occurrence flowName namespace input : string)
    (deduplicated : bool) (providerCursor providerEventID : string) (plan : option ExecutionPlan)
    (freshReceipt freshRun now : string) : Tx Receipt :=
  let namespace := default_namespace namespace in
  let input := nonempty input in
  (if generation =? 0 then mret tt else validateTriggerAcceptanceTx trigger generation flowName namespace) ≫= λ _,
  existing ← receiptByOccurrence trigger occurrence;
  match existing with
  | Some r =>
      (if String.eqb providerCursor "" then mret tt
       else upsertProviderCursor trigger providerCursor providerEventID now) ≫= λ _,
      mret (mark_existing r)
  | None =>
      match plan with
      | Some plan =>
          tx_guard (negb (String.eqb (pl_planHash plan) "" || String.eqb (pl_flowUID plan) "" || String.eqb (pl_interpreterVersion plan) ""))
            (ErrMsg "accepted execution plan is incomplete") ≫= λ _,
          validateFlowPlanTx flowName namespace plan ≫= λ _,
          put_plan_row plan now
      | None => mret tt
      end ≫= λ _,
      let hash := match plan with Some p => pl_planHash p | None => "" end in
      let key := startKey trigger occurrence in
      insert_receipt trigger occurrence (mkReceiptRow freshReceipt "" input deduplicated freshRun now) ≫= λ _,
      insert_outbox freshRun key
        (StartRun (mkStartPayload freshRun freshReceipt flowName namespace hash input key)) now ≫= λ _,
      (if String.eqb providerCursor "" then mret tt
       else upsertProviderCursor trigger providerCursor providerEventID now) ≫= λ _,
      mret (mkReceipt freshReceipt trigger occurrence freshRun deduplicated now false)
  end.

Definition AcceptTrigger trigger generation occurrence flowName namespace input deduplicated fr fu now :=
  acceptTrigger trigger generation occurrence flowName namespace input deduplicated "" "" None fr fu now.
Definition AcceptTriggerWithPlan trigger generation occurrence flowName namespace input deduplicated plan fr fu now :=
  acceptTrigger trigger generation occurrence flowName namespace input deduplicated "" "" (Some plan) fr fu now.
Definition AcceptProviderTrigger trigger generation occurrence flowName namespace input cursor fr fu now :=
  acceptTrigger trigger generation occurrence flowName namespace input true cursor occurrence None fr fu now.
Definition AcceptProviderTriggerWithPlan trigger generation occurrence flowName namespace input cursor plan fr fu now :=
  acceptTrigger trigger generation occurrence flowName namespace input true cursor occurrence (Some plan) fr fu now.

Definition AcceptProviderSignal (trigger : string) (generation : Z) (occurrence flowName namespace run node payload cursor : string)
    (freshReceipt now : string) : Tx Receipt :=
  let namespace := default_namespace namespace in
  tx_guard (valid payload) (ErrMsg "provider signal payload must be valid JSON") ≫= λ _,
  tx_guard (if parse_object payload is Some (Some _) then true else false)
    (ErrMsg "provider signal payload must be a JSON object") ≫= λ _,
  validateTriggerAcceptanceTx trigger generation flowName namespace ≫= λ _,
  existing ← receiptByOccurrence trigger occurrence;
  match existing with
  | Some r => upsertProviderCursor trigger cursor occurrence now ≫= λ _, mret (mark_existing r)
  | None =>
      validateSignalTargetTx flowName namespace run node ≫= λ _,
      let key := signalKey trigger occurrence in
      insert_receipt trigger occurrence (mkReceiptRow freshReceipt cursor payload true run now) ≫= λ _,
      insert_outbox run key (SignalRun (mkSignalPayload run freshReceipt node occurrence payload key)) now ≫= λ _,
      upsertProviderCursor trigger cursor occurrence now ≫= λ _,
      mret (mkReceipt freshReceipt trigger occurrence run true now false)
  end.
End Acceptance.

Definition receipt_of (kr : (string * string) * ReceiptRow) : Receipt :=
  mkReceipt (rc_uid kr.2) kr.1.1 kr.1.2 (rc_run kr.2) (rc_deduplicated kr.2) (rc_accepted kr.2) false.
Definition TriggerReceipts (trigger : string) (limit : Z) : Tx (list Receipt) :=
  tx_get (λ s, receipt_of <$> take (page_limit limit)
    (sort_by (revc (onc (rc_accepted ∘ snd) str_cmp)) (filter (λ kr, kr.1.1 = trigger) (map_to_list (db_receipts s))))).

(** [trigger_receipts LEFT JOIN runs]: a receipt without a run is active. *)
Definition HasActiveRunForTrigger (trigger : string) : Tx bool :=
  tx_get (λ s, existsb (λ kr,
    let runs := filter (λ ur, run_receipt ur.2 = rc_uid kr.2) (map_to_list (db_runs s)) in
    String.eqb kr.1.1 trigger &&
    ((length runs =? 0)%nat || existsb (λ ur, negb (terminalRunPhase (run_phase ur.2))) runs))
    (map_to_list (db_receipts s))).

(** ** Outbox *)

Record OutboxStatus := mkOutboxStatus { os_active : Z; os_failed : Z }.
Definition InspectOutboxStatus : Tx OutboxStatus :=
  tx_get (λ s, let open := filter (λ o, ob_state o ≠ ObCompleted) (db_outbox s) in
    mkOutboxStatus (Z.of_nat (length open)) (Z.of_nat (length (filter (λ o, ob_error o ≠ "") open)))).

Definition update_outbox (id : Z) (f : OutboxRow → OutboxRow) : Tx unit :=
  tx_mod (set_outbox (fmap (λ o, if ob_id o =? id then f o else o))).

(** [state='pending' OR (state='inflight' AND claimed_at<stale)] and
    [available_at<=now]; a NULL [claimed_at] compares false. *)
Definition claimable (kind : OutboxPayload → bool) (stale now : string) (o : OutboxRow) : bool :=
  kind (ob_payload o) &&
  (match ob_state o with
   | ObPending => true
   | ObInflight => match ob_claimed o with Some c => str_lt c stale | None => false end
   | ObCompleted => false
   end) && str_le (ob_available o) now.
(** [ORDER BY id LIMIT 1]. *)
Definition next_claim (kind : OutboxPayload → bool) (stale now : string) (s : Db) : option OutboxRow :=
  head (sort_by (onc ob_id Z.compare) (filter (λ o, claimable kind stale now o = true) (db_outbox s))).

Definition claimed (now : string) (o : OutboxRow) : OutboxRow :=
  mkOutboxRow (ob_id o) (ob_aggregate o) (ob_key o) (ob_payload o) ObInflight (ob_attempts o + 1)
    (ob_available o) (Some now) (ob_completed o) (ob_error o).

Definition claim (kind : OutboxPayload → bool) (nowTime staleAfter : Z) : Tx OutboxRow :=
  let now := rfc3339nano nowTime in
  o ← tx_row (next_claim kind (rfc3339nano (nowTime - staleAfter)) now);
  update_outbox (ob_id o) (claimed now) ≫= λ _,
  mret (claimed now o).

Definition is_signal (p : OutboxPayload) : bool := if p is SignalRun _ then true else false.
Definition ClaimStart : Z → Z → Tx OutboxRow := claim is_start.
Definition ClaimSignal : Z → Z → Tx OutboxRow := claim is_signal.
Definition ClaimNext : Z → Z → Tx OutboxRow := claim (λ _, true).

Definition completed_row (now : string) (o : OutboxRow) : OutboxRow :=
  mkOutboxRow (ob_id o) (ob_aggregate o) (ob_key o) (ob_payload o) ObCompleted (ob_attempts o)
    (ob_available o) (ob_claimed o) (Some now) "".
Definition CompleteOutbox (id : Z) (now : string) : Tx unit := update_outbox id (completed_row now).

Definition CompleteStartIfRunCancelled (id : Z) (run now : string) : Tx bool :=
  cancelled ← tx_get (λ s, bool_decide (is_Some (db_cancellations s !! run)));
  found ← tx_get (λ s, existsb (λ o, (ob_id o =? id) && is_start (ob_payload o) && String.eqb (ob_aggregate o) run) (db_outbox s));
  if (cancelled : bool) && (found : bool) then update_outbox id (completed_row now) ≫= λ _, mret true
  else mret false.

Definition retried (available cause : string) (o : OutboxRow) : OutboxRow :=
  mkOutboxRow (ob_id o) (ob_aggregate o) (ob_key o) (ob_payload o) ObPending (ob_attempts o)
    available (ob_claimed o) (ob_completed o) cause.
Definition RetryOutbox (id : Z) (cause : string) (delay nowTime : Z) : Tx unit :=
  update_outbox id (retried (rfc3339nano (nowTime + delay)) cause).
