(* ===== verification/StorePlugins.v ===== *)
(** [internal/store/store.go], plugins, and [internal/store/retention.go]:
    immutable plugin installations with their activation, and the planning and
    collection of old Runs and plugin versions. *)

From Stdlib Require String.
From S2P Require Import Prelude.
From S2P Require Import Json.
From S2P Require Import GoStd.
From S2P Require Import Resource.
From S2P Require Import Plan.
From S2P Require Import Db.
From S2P Require Import StoreRuns.
From S2P Require Import StoreResources.
From S2P Require Import StoreOutbox.

Local Open Scope Z_scope.

(** ** Plugin installations *)

Record PluginRecord := mkPluginRecord {
  pv_name : string; pv_version : string; pv_digest : string; pv_manifest : string;
  pv_contract : string; pv_contractDigest : string; pv_state : string; pv_installed : Z; pv_active : bool }.

(** [installedAt = None] is the zero [InstalledAt]. *)
Definition PutPlugin (r : PluginRecord) (installedAt : option Z) (nowTime : Z) : Tx unit :=
  let k := (pv_name r, pv_version r) in
  existing ← tx_get (λ s, db_plugins s !! k);
  match existing with
  | Some e =>
      tx_guard (String.eqb (pg_digest e) (pv_digest r)) (ErrMsg ("plugin " +:+ pv_name r +:+ " version " +:+ pv_version r +:+ " already has digest " +:+ pg_digest e)) ≫= λ _,
      if String.eqb (pg_contractDigest e) "" && String.eqb (pg_contract e) "" && negb (String.eqb (pv_contractDigest r) "")
      then tx_mod (set_plugins (λ m, <[k := mkPluginRow (pg_digest e) (pg_manifest e) (pv_contract r) (pv_contractDigest r)
                                             (pg_state e) (pg_installed e)]> m))
      else tx_guard (String.eqb (pg_contractDigest e) (pv_contractDigest r))
             (ErrMsg ("plugin " +:+ pv_name r +:+ " version " +:+ pv_version r +:+ " action contract changed under the same immutable digest"))
  | None =>
      let state := if String.eqb (pv_state r) "" then "installed" else pv_state r in
      let installed := match installedAt with Some t => t | None => nowTime end in
      tx_guard (negb (String.eqb (pv_contractDigest r) "" || String.eqb (pv_contract r) "")) (ErrMsg "plugin action contract is required") ≫= λ _,
      clash ← tx_get (λ s, existsb (λ kr, String.eqb (pg_digest kr.2) (pv_digest r)) (map_to_list (db_plugins s)));
      tx_guard (negb clash) (ErrConstraint "plugin_installations") ≫= λ _,
      tx_mod (set_plugins (λ m, <[k := mkPluginRow (pv_digest r) (pv_manifest r) (pv_contract r) (pv_contractDigest r) state installed]> m))
  end.

Definition set_plugin_state (state : string) (p : PluginRow) : PluginRow :=
  mkPluginRow (pg_digest p) (pg_manifest p) (pg_contract p) (pg_contractDigest p) state (pg_installed p).

(** [CASE WHEN name=? AND version=? THEN 'active' WHEN name=? AND
    state='active' THEN 'installed' ELSE state END] *)
Definition activation_state (name version : string) (k : string * string) (p : PluginRow) : PluginRow :=
  if bool_decide (k = (name, version)) then set_plugin_state "active" p
  else if String.eqb k.1 name && String.eqb (pg_state p) "active" then set_plugin_state "installed" p
  else p.

Definition ActivatePlugin (name version now : string) : Tx unit :=
  _ ← tx_row (λ s, db_plugins s !! (name, version));
  tx_mod (set_activations (λ m, <[name := mkActivationRow version now]> m)) ≫= λ _,
  tx_mod (set_plugins (map_imap (λ k p, Some (activation_state name version k p)))).

Definition deactivation_state (name : string) (k : string * string) (p : PluginRow) : PluginRow :=
  if String.eqb k.1 name && String.eqb (pg_state p) "active" then set_plugin_state "installed" p else p.
Definition DisablePlugin (name : string) : Tx unit :=
  _ ← tx_row (λ s, db_activations s !! name);
  tx_mod (set_activations (delete name)) ≫= λ _,
  tx_mod (set_plugins (map_imap (λ k p, Some (deactivation_state name k p)))).

Definition is_active_version (name version : string) (s : Db) : bool :=
  match db_activations s !! name with Some a => String.eqb (av_version a) version | None => false end.
Definition plugin_record (s : Db) (kp : (string * string) * PluginRow) : PluginRecord :=
  let '((name, version), p) := kp in
  mkPluginRecord name version (pg_digest p) (pg_manifest p) (pg_contract p) (pg_contractDigest p) (pg_state p)
    (pg_installed p) (is_active_version name version s).

Definition Plugin (name version : string) : Tx PluginRecord :=
  tx_row (λ s,
    if String.eqb version "" then
      a ← db_activations s !! name;
      p ← db_plugins s !! (name, av_version a);
      Some (plugin_record s ((name, av_version a), p))
    else p ← db_plugins s !! (name, version); Some (plugin_record s ((name, version), p))).

Definition ListPlugins : Tx (list PluginRecord) :=
  tx_get (λ s, plugin_record s <$>
    sort_by (lexc (onc (λ kp, kp.1.1) str_cmp) (onc (λ kp, kp.1.2) str_cmp)) (map_to_list (db_plugins s))).

(** ** Run retention *)

Record RetentionRun := mkRetentionRun {
  rn_uid : string; rn_completed : string; rn_paths : list string; rn_bytes : Z }.

Definition open_dispatch (run : string) (s : Db) : bool :=
  existsb (λ o, String.eqb (ob_aggregate o) run && negb (bool_decide (ob_state o = ObCompleted))) (db_outbox s).
Definition terminal_runs (s : Db) : list (string * RunRow) :=
  filter (λ ur, terminalRunPhase (run_phase ur.2) = true) (map_to_list (db_runs s)).
(** NULL sorts first ascending, hence last descending. *)
Definition completed_text (ur : string * RunRow) : string := if run_completed ur.2 is Some c then c else "".
Definition recent_runs (keep : Z) (s : Db) : list string :=
  fst <$> take (Z.to_nat keep)
    (sort_by (lexc (revc (onc completed_text str_cmp)) (revc (onc fst str_cmp))) (terminal_runs s)).

Definition artifacts_of (run : string) (s : Db) : list ArtifactRow :=
  sort_by (onc ar_path str_cmp)
    (snd <$> filter (λ ka : (attempt_key * string) * ArtifactRow, ka.1.1.1.1.1 = run) (map_to_list (db_artifacts s))).

Definition retention_candidate (before : string) (keepRecent : Z) (s : Db) (ur : string * RunRow) : bool :=
  match run_completed ur.2 with Some c => str_lt c before | None => false end
  && negb (open_dispatch ur.1 s) && negb (bool_decide (ur.1 ∈ recent_runs keepRecent s)).

(** The zero [time.Time]. *)
Definition zero_time : Z := -62135596800 * second.

(** The first query of [PlanRunRetention], for the Runs with the text of their
    completion, and the query for the artifacts of one of them. *)
Definition retention_runs (before : Z) (keepRecent limit : Z) : Tx (list (string * string)) :=
  tx_get (λ s,
    (λ ur, (ur.1, completed_text ur))
    <$> take (Z.to_nat limit)
      (sort_by (lexc (onc completed_text str_cmp) (onc fst str_cmp))
        (filter (λ ur, retention_candidate (rfc3339nano before) keepRecent s ur = true) (terminal_runs s)))).
Definition retention_artifacts (run : string) : Tx (list ArtifactRow) := tx_get (artifacts_of run).

Definition delete_where {K A} `{Countable K} (P : K → bool) (m : gmap K A) : gmap K A :=
  filter (λ kv, P kv.1 = false) m.

Definition tombstone_of (now : string) (r : ReceiptRow) : TombstoneRow :=
  mkTombstoneRow (rc_uid r) (rc_run r) (rc_deduplicated r) (rc_accepted r) now.

(** [INSERT OR IGNORE ... SELECT FROM trigger_receipts WHERE run_uid=?] *)
Definition add_tombstones (run now : string) (s : Db) : gmap (string * string) TombstoneRow :=
  db_tombstones s ∪ (tombstone_of now <$> filter (λ kr, rc_run kr.2 = run) (db_receipts s)).

Definition collect_run (now run : string) : Tx unit :=
  row ← tx_get (λ s, db_runs s !! run);
  match row with
  | None => mret tt
  | Some r =>
      tx_guard (terminalRunPhase (run_phase r)) (ErrMsg ("retention Run " +:+ run +:+ " is no longer terminal")) ≫= λ _,
      incomplete ← tx_get (open_dispatch run);
      tx_guard (negb incomplete) (ErrMsg ("retention Run " +:+ run +:+ " has incomplete dispatch work")) ≫= λ _,
      tx_mod (set_plugin_events (delete_where (λ k, String.eqb k.1.1.1.1 run))) ≫= λ _,
      tx_mod (set_artifacts (delete_where (λ k, String.eqb k.1.1.1.1 run))) ≫= λ _,
      tx_mod (set_attempts (delete_where (λ k, String.eqb k.1.1.1 run))) ≫= λ _,
      tx_mod (set_approvals (delete_where (λ k, String.eqb k.1 run))) ≫= λ _,
      tx_mod (set_cancellations (delete run)) ≫= λ _,
      tx_mod (set_run_events (filter (λ e, ev_run e ≠ run))) ≫= λ _,
      tx_mod (set_outbox (filter (λ o, ¬ (ob_aggregate o = run ∧ ob_state o = ObCompleted)))) ≫= λ _,
      tombs ← tx_get (add_tombstones run now);
      tx_mod (set_tombstones (λ _, tombs)) ≫= λ _,
      tx_mod (set_runs (delete run)) ≫= λ _,
      tx_mod (set_receipts (filter (λ kr, rc_run kr.2 ≠ run))) ≫= λ _,
      tx_mod (λ s, if bool_decide (map_Forall (λ _ r', run_plan r' ≠ run_plan r) (db_runs s))
                   then set_plans (delete (run_plan r)) s else s)
  end.

Fixpoint collect_runs (now : string) (runs : list string) : Tx unit :=
  match runs with
  | [] => mret tt
  | run :: runs => collect_run now run ≫= λ _, collect_runs now runs
  end.

Definition CollectRetainedRuns (runs : list string) (now : string) : Tx unit :=
  tx_guard (length runs <=? 1000)%nat (ErrMsg "retention collection exceeds 1000 Runs") ≫= λ _,
  collect_runs now runs.

(** ** Plugin retention *)

Section PluginRetention.
Context {cal : Calendar}.

Fixpoint installation_refs (l : list ResourceRow) : res (list (string * string)) :=
  match l with
  | [] => ok []
  | r :: l => DecodePluginInstallation (rr_doc r) ≫= λ p, installation_refs l ≫= λ ps,
              ok ((pi_plugin p.2, pi_version p.2) :: ps)
  end.
Definition plan_refs (p : ExecutionPlan) : list (string * string) :=
  omap (λ n, (λ b, (pb_name b, pb_version b)) <$> pn_plugin n) (pl_nodes p).

Definition referencedPluginVersionsTx : Tx (gset (string * string)) :=
  rows ← tx_get (λ s, snd <$> filter (λ kr : resource_key * ResourceRow, kr.1.1.1 = "PluginInstallation") (map_to_list (db_resources s)));
  desired ← tx_lift (installation_refs rows);
  plans ← tx_get (λ s, (λ kp : string * PlanRow, pr_plan kp.2) <$> map_to_list (db_plans s));
  mret (list_to_set (desired ++ (plans ≫= plan_refs))).

Definition CollectRetainedPlugin (name version digest : string) : Tx unit :=
  row ← tx_get (λ s, db_plugins s !! (name, version));
  match row with
  | None => mret tt
  | Some p =>
      active ← tx_get (is_active_version name version);
      tx_guard (negb active && String.eqb (pg_digest p) digest) (ErrMsg "plugin retention candidate changed before collection") ≫= λ _,
      referenced ← referencedPluginVersionsTx;
      tx_guard (bool_decide ((name, version) ∉ referenced)) (ErrMsg "plugin retention candidate became referenced") ≫= λ _,
      tx_mod (set_plugins (delete (name, version)))
  end.
End PluginRetention.
