(* ===== verification/PluginContract.v ===== *)
(** The metadata the host keeps of an installed plugin: the manifest
    ([internal/pluginbundle/bundle.go]) and the contract of its actions and
    triggers ([sdk/plugin/sdk.go], [sdk/plugin/schema.go]), decoded from the JSON
    text of the installation row.

    A [json.RawMessage] is the text of the value, so the decoder of structs here
    keeps the text of every member.  Of several members of one name the last one
    counts. *)

From Stdlib Require Import Ascii.
From Stdlib Require String.
From S2P Require Import Prelude.
From S2P Require Import Json.
From S2P Require Import GoStd.
From S2P Require Import Resource.
From S2P Require Import Plan.
From S2P Require Import ActionContract.
From S2P Require Import PluginMapping.
From S2P Require Import StorePlugins.

Local Open Scope Z_scope.

(** ** Structs with raw members *)

(** The text between two suffixes of the input. *)
Definition before (s rest : string) : string := String.substring 0 (String.length s - String.length rest) s.
Definition nesting (s : string) : nat := (2 * String.length s + 2)%nat.

Fixpoint raw_items (fuel : nat) (s : string) : option (list string * string) :=
  match fuel with
  | O => None
  | S fuel =>
      let s := skip_ws s in
      '(_, r) ← parse_value (nesting s) s;
      match skip_ws r with
      | String c r' => if Ascii.eqb c "," then '(l, r'') ← raw_items fuel r'; Some (before s r :: l, r'')
                       else if Ascii.eqb c "]" then Some ([before s r], r') else None
      | EmptyString => None
      end
  end.
Fixpoint raw_members (fuel : nat) (s : string) : option (list (string * string) * string) :=
  match fuel with
  | O => None
  | S fuel =>
      match skip_ws s with
      | String q r0 =>
          if negb (Ascii.eqb q (chr 34)) then None else
          '(k, r1) ← parse_str None r0;
          match skip_ws r1 with
          | String col r2 =>
              if negb (Ascii.eqb col ":") then None else
              let v := skip_ws r2 in
              '(_, r3) ← parse_value (nesting v) v;
              match skip_ws r3 with
              | String c r4 => if Ascii.eqb c "," then '(l, r5) ← raw_members fuel r4; Some ((k, before v r3) :: l, r5)
                               else if Ascii.eqb c "}" then Some ([(k, before v r3)], r4) else None
              | EmptyString => None
              end
          | EmptyString => None
          end
      | EmptyString => None
      end
  end.
(** The members of an object, [None] for [null]. *)
Definition object_members (raw : string) : option (option (list (string * string))) :=
  match skip_ws raw with
  | String c rest =>
      if Ascii.eqb c "{" then
        match skip_ws rest with
        | String c' _ => if Ascii.eqb c' "}" then Some (Some []) else '(l, _) ← raw_members (nesting rest) rest; Some (Some l)
        | EmptyString => None
        end
      else _ ← strip_prefix "null" (String c rest); Some None
  | EmptyString => None
  end.
Definition array_items (raw : string) : option (list string) :=
  match skip_ws raw with
  | String c rest =>
      if Ascii.eqb c "[" then
        match skip_ws rest with
        | String c' _ => if Ascii.eqb c' "]" then Some [] else '(l, _) ← raw_items (nesting rest) rest; Some l
        | EmptyString => None
        end
      else _ ← strip_prefix "null" (String c rest); Some []
  | EmptyString => None
  end.
Definition raw_string (old raw : string) : option string :=
  v ← parse raw; match v with JStr s => Some s | JNull => Some old | _ => None end.
(** A uint32 field. *)
Definition raw_uint32 (old : Z) (raw : string) : option Z :=
  v ← parse raw;
  match v with
  | JNum l => n ← digits_val (explode l) 0; if n <=? max_uint32 then Some n else None
  | JNull => Some old
  | _ => None
  end.
Definition raw_list {A} (f : string → option A) (raw : string) : option (list A) := items ← array_items raw; mapM f items.
(** [field] reads one member into the struct; [None] is an error. *)
Fixpoint raw_struct {A} (field : A → string → string → option A) (a : A) (members : list (string * string)) : option A :=
  match members with
  | [] => Some a
  | kv :: members => a ← field a (fold_name kv.1) kv.2; raw_struct field a members
  end.
Definition decode_struct {A} (field : A → string → string → option A) (zero : A) (raw : string) : option A :=
  members ← object_members raw; match members with Some l => raw_struct field zero l | None => Some zero end.

(** ** The contract *)

Record ActionDescriptor := mkActionDescriptor { ad_action : string; ad_config : string; ad_input : string; ad_output : string }.
Record TriggerDescriptor := mkTriggerDescriptor { td_source : string; td_config : string; td_event : string }.
Record Contract := mkPluginContract { ct_actions : list ActionDescriptor; ct_triggers : list TriggerDescriptor }.

Definition action_field (d : ActionDescriptor) (name raw : string) : option ActionDescriptor :=
  if String.eqb name "action" then a ← raw_string (ad_action d) raw; Some (mkActionDescriptor a (ad_config d) (ad_input d) (ad_output d))
  else if String.eqb name "configschema" then Some (mkActionDescriptor (ad_action d) raw (ad_input d) (ad_output d))
  else if String.eqb name "inputschema" then Some (mkActionDescriptor (ad_action d) (ad_config d) raw (ad_output d))
  else if String.eqb name "outputschema" then Some (mkActionDescriptor (ad_action d) (ad_config d) (ad_input d) raw)
  else None.
Definition trigger_field (d : TriggerDescriptor) (name raw : string) : option TriggerDescriptor :=
  if String.eqb name "source" then s ← raw_string (td_source d) raw; Some (mkTriggerDescriptor s (td_config d) (td_event d))
  else if String.eqb name "configschema" then Some (mkTriggerDescriptor (td_source d) raw (td_event d))
  else if String.eqb name "eventschema" then Some (mkTriggerDescriptor (td_source d) (td_config d) raw)
  else None.
Definition contract_field (c : Contract) (name raw : string) : option Contract :=
  if String.eqb name "actions" then
    l ← raw_list (decode_struct action_field (mkActionDescriptor "" "" "" "")) raw; Some (mkPluginContract l (ct_triggers c))
  else if String.eqb name "triggers" then
    l ← raw_list (decode_struct trigger_field (mkTriggerDescriptor "" "" "")) raw; Some (mkPluginContract (ct_actions c) l)
  else None.
(** The first value of the text; what follows it is not read. *)
Definition DecodeContract (raw : string) : option Contract :=
  _ ← decode_stream raw; decode_struct contract_field (mkPluginContract [] []) raw.

(** ** The manifest *)

Record ProtocolRange := mkProtocolRange { pt_minimum : Z; pt_maximum : Z }.
Record Platform := mkPlatform { pf_os : string; pf_arch : string; pf_path : string; pf_sha256 : string }.
Record Manifest := mkManifest {
  mf_apiVersion : string; mf_name : string; mf_version : string; mf_protocol : ProtocolRange;
  mf_capabilities : list string; mf_platforms : list Platform }.

Definition protocol_field (p : ProtocolRange) (name raw : string) : option ProtocolRange :=
  if String.eqb name "minimum" then v ← raw_uint32 (pt_minimum p) raw; Some (mkProtocolRange v (pt_maximum p))
  else if String.eqb name "maximum" then v ← raw_uint32 (pt_maximum p) raw; Some (mkProtocolRange (pt_minimum p) v)
  else Some p.
Definition platform_field (p : Platform) (name raw : string) : option Platform :=
  if String.eqb name "os" then v ← raw_string (pf_os p) raw; Some (mkPlatform v (pf_arch p) (pf_path p) (pf_sha256 p))
  else if String.eqb name "arch" then v ← raw_string (pf_arch p) raw; Some (mkPlatform (pf_os p) v (pf_path p) (pf_sha256 p))
  else if String.eqb name "path" then v ← raw_string (pf_path p) raw; Some (mkPlatform (pf_os p) (pf_arch p) v (pf_sha256 p))
  else if String.eqb name "sha256" then v ← raw_string (pf_sha256 p) raw; Some (mkPlatform (pf_os p) (pf_arch p) (pf_path p) v)
  else Some p.
Definition manifest_field (m : Manifest) (name raw : string) : option Manifest :=
  let '(mkManifest a n v p c f) := m in
  if String.eqb name "apiversion" then a ← raw_string a raw; Some (mkManifest a n v p c f)
  else if String.eqb name "name" then n ← raw_string n raw; Some (mkManifest a n v p c f)
  else if String.eqb name "version" then v ← raw_string v raw; Some (mkManifest a n v p c f)
  else if String.eqb name "protocol" then p ← decode_struct protocol_field p raw; Some (mkManifest a n v p c f)
  else if String.eqb name "capabilities" then c ← raw_list (raw_string "") raw; Some (mkManifest a n v p c f)
  else if String.eqb name "platforms" then
    f ← raw_list (decode_struct platform_field (mkPlatform "" "" "" "")) raw; Some (mkManifest a n v p c f)
  else Some m.
(** [json.Unmarshal] of the whole text. *)
Definition decode_manifest (raw : string) : option Manifest :=
  _ ← parse raw; decode_struct manifest_field (mkManifest "" "" "" (mkProtocolRange 0 0) [] []) raw.

Definition platform_for (m : Manifest) (targetOS targetArch : string) : string + Platform :=
  match List.find (λ p, String.eqb (pf_os p) targetOS && String.eqb (pf_arch p) targetArch) (mf_platforms m) with
  | Some p => inr p
  | None => inl ("plugin " +:+ mf_name m +:+ " " +:+ mf_version m +:+ " has no binary for " +:+ targetOS +:+ "/" +:+ targetArch)
  end.

(** ** Descriptors *)

Definition actionDescriptor (contract : Contract) (action : string) : option ActionDescriptor :=
  List.find (λ d, String.eqb (ad_action d) action) (ct_actions contract).

Inductive ProviderError :=
  | ProviderContractInvalid | ProviderSourceRequired | ProviderSourceNotFound (source plugin : string).
Definition provider_error_text (e : ProviderError) : string :=
  match e with
  | ProviderContractInvalid => "installed provider contract is invalid"
  | ProviderSourceRequired => "provider source is required when the plugin publishes multiple trigger sources"
  | ProviderSourceNotFound source plugin => "provider source " +:+ quoted source +:+ " is not published by plugin " +:+ quoted plugin
  end.
Definition triggerDescriptor (record : PluginRecord) (source : string) : ProviderError + TriggerDescriptor :=
  match DecodeContract (pv_contract record) with
  | None => inl ProviderContractInvalid
  | Some contract =>
      if String.eqb source "" then
        match ct_triggers contract with
        | [d] => inr d
        | _ => inl ProviderSourceRequired
        end
      else match List.find (λ d, String.eqb (td_source d) source) (ct_triggers contract) with
           | Some d => inr d
           | None => inl (ProviderSourceNotFound source (pv_name record))
           end
  end.

Definition installationKey (name version : string) : string := name +:+ "@" +:+ version.
Definition sameCapabilities (actual expected : list string) : bool :=
  String.eqb (join (String (chr 0) "") (sort_strings actual)) (join (String (chr 0) "") (sort_strings expected)).

Example decode_contract_example :
  DecodeContract (marshal (mkobj [("actions", JArr [mkobj [("action", JStr "echo.say"); ("configSchema", mkobj [("type", JStr "object")]);
      ("inputSchema", JBool true); ("outputSchema", JBool true)]])]) +:+ " x")
  = Some (mkPluginContract [mkActionDescriptor "echo.say" (marshal (mkobj [("type", JStr "object")])) "true" "true"] [])
  ∧ DecodeContract (marshal (mkobj [("action", JNull)])) = None.
Proof. split; vm_compute; reflexivity. Qed.
