(* ===== verification/ManagerBind.v ===== *)
(** [internal/pluginmanager/manager.go], the control plane of actions: which
    actions the active plugins provide ([HasAction]), the immutable binding of a
    node to a plugin, its contract and the resources it names ([BindAction]), and
    the validation of provider Triggers.  The operations read the store [s]; the
    capabilities of a store are the resolver of the Flow compiler.  The texts of
    JSON decoding errors are not kept. *)

From Stdlib Require Import Ascii.
From Stdlib Require String.
From S2P Require Import Prelude.
From S2P Require Import Json.
From S2P Require Import GoStd.
From S2P Require Import Resource.
From S2P Require Import Plan.
From S2P Require Import ActionContract.
From S2P Require Import PluginMapping.
From S2P Require Import ResourceJson.
From S2P Require Import PluginContract.
From S2P Require Import References.
From S2P Require Import FlowCompiler.
From S2P Require Import Db.
From S2P Require Import StoreRuns.
From S2P Require Import StoreResources.
From S2P Require Import StorePlugins.

Local Open Scope Z_scope.

(** ** Configuration *)

Definition cloneConfig : config → option config := cloneMap.
Definition normalizedNamespace (namespace : string) : string := default_namespace namespace.
(** [strings.SplitN(action, ".", 2)[0]]. *)
Definition plugin_of (action : string) : string := default "" (head (split_on "."%char action)).
Definition get_string (key : string) (c : config) : string := match obj_get key c with Some (JStr s) => s | _ => "" end.
Definition splitSecretBinding (binding : string) : string * string :=
  match cut_equals binding with Some (target, name) => (target, name) | None => ("", binding) end.

Definition secret_map_error : string := "with.secretRefs must be a string map".
Definition secret_name_error (target : string) : string := "secret reference for " +:+ target +:+ " must be a resource name".
Definition bindSecretConfig (c : config) (target name : string) : string + config :=
  match default (JObj []) (obj_get "secretRefs" c) with
  | JObj refs =>
      let refs := if obj_get target refs is Some _ then refs else obj_set target (JStr name) refs in
      inr (obj_set "secretRefs" (JObj refs) c)
  | _ => inl secret_map_error
  end.
Fixpoint secret_names (references : config) : string + list string :=
  match references with
  | [] => inr []
  | (target, value) :: references =>
      match value with
      | JStr name =>
          if String.eqb name "" then inl (secret_name_error target)
          else match secret_names references with inl e => inl e | inr l => inr (name :: l) end
      | _ => inl (secret_name_error target)
      end
  end.
Definition secretReferenceNames (c : config) : string + list string :=
  match obj_get "secretRefs" c with
  | None => inr []
  | Some (JObj references) => match secret_names references with inl e => inl e | inr l => inr (sort_strings l) end
  | Some _ => inl secret_map_error
  end.

(** ** Bindings *)

Definition resource_binding (kind : string) (document : Document) : ResourceBinding :=
  let m := doc_meta document in
  mkResourceBinding kind (m_namespace m) (m_name m) (m_uid m) (m_resourceVersion m) (m_generation m) (spec_text (doc_spec document)).
Definition binding_path (kind namespace name : string) : string := kind +:+ "/" +:+ namespace +:+ "/" +:+ name.
Definition binding_key (b : ResourceBinding) : string := binding_path (rb_kind b) (rb_namespace b) (rb_name b).
Abbreviation bindings := (gmap string ResourceBinding).

Definition actionBinding (record : PluginRecord) (manifest : Manifest) (descriptor : ActionDescriptor) (c : config) (resources : bindings)
    : ActionBinding :=
  mkActionBinding
    (mkPluginBinding (pv_name record) (pv_version record) (pv_digest record) (Z.min 1 (pt_maximum (mf_protocol manifest))))
    (mkContract (pv_contractDigest record) (ad_config descriptor) (ad_input descriptor) (ad_output descriptor))
    c (sort_by (onc binding_key str_cmp) (snd <$> map_to_list resources)).
Definition no_binding : ActionBinding := mkActionBinding (mkPluginBinding "" "" "" 0) (mkContract "" "" "" "") [] [].

Section Manager.
Context {cal : Calendar} (workspaces : string) (s : Db).

Definition active_plugin (name : string) : res PluginRecord := result (Plugin name "") s.
Definition lookup (kind namespace name : string) : res Document := result (Get kind namespace name) s.

Definition HasAction (action : string) : bool :=
  let name := plugin_of action in
  match active_plugin name with
  | inl _ => false
  | inr record =>
      match decode_manifest (pv_manifest record) with
      | None => false
      | Some manifest =>
          existsb (λ capability,
            String.eqb capability action || String.eqb capability ("task." +:+ action)
            || (String.eqb name "agent-command" && String.eqb action "agent-command.run" && has_prefix capability "agent."))
            (mf_capabilities manifest)
      end
  end.

Definition bindResource (namespace kind name : string) (b : bindings) : res (Document * bindings) :=
  document ← lookup kind namespace name;
  ok (document, <[binding_path kind (m_namespace (doc_meta document)) (m_name (doc_meta document)) := resource_binding kind document]> b).
Definition bindSecret (namespace name : string) (b : bindings) : res bindings :=
  if String.eqb name "" then fail (ErrMsg "SecretRef name is empty")
  else '(_, b) ← bindResource namespace "SecretRef" name b; ok b.
Fixpoint bindSecrets (namespace : string) (names : list string) (b : bindings) : res bindings :=
  match names with [] => ok b | name :: names => b ← bindSecret namespace name b; bindSecrets namespace names b end.

(** The configuration and resources of an action, or one diagnostic. *)
Definition bind_agent (namespace : string) (c : config) : Diagnostic + (config * bindings) :=
  let profileName := get_string "profile" c in
  if String.eqb profileName "" then inl (diag "config.profile" "required" "agent-command action requires a profile") else
  match bindResource namespace "AgentProfile" profileName ∅ with
  | inl _ => inl (diag "config.profile" "not_found" ("AgentProfile " +:+ quoted profileName +:+ " is not available"))
  | inr (document, b) =>
      match DecodeAgentProfile document with
      | inl e => inl (diag "config.profile" "invalid" (error_text e))
      | inr profile =>
          match bindSecrets namespace ((λ r, (splitSecretBinding r).2) <$> a_secretRefs profile.2) b with
          | inl e => inl (diag "config.profile" "not_found" (error_text e))
          | inr b => inr (c, b)
          end
      end
  end.
Definition bind_checkout (namespace : string) (c : config) : Diagnostic + (config * bindings) :=
  let repositoryName := get_string "repositoryRef" c in
  if String.eqb repositoryName "" then inl (diag "config.repositoryRef" "required" "repositoryRef is required") else
  match bindResource namespace "Repository" repositoryName ∅ with
  | inl e => inl (diag "config.repositoryRef" "not_found" ("resolve Repository " +:+ quoted repositoryName +:+ ": " +:+ error_text e))
  | inr (document, b) =>
      match DecodeRepository document with
      | inl e => inl (diag "config.repositoryRef" "invalid" (error_text e))
      | inr repository =>
          let spec := repository.2 in
          let c := obj_set "defaultBranch" (JStr (rp_defaultBranch spec))
                     (obj_set "cloneURL" (JStr (rp_cloneURL spec)) (obj_delete "repositoryRef" c)) in
          if String.eqb (rp_authSecretRef spec) "" then inr (c, b) else
          match bindSecret namespace (rp_authSecretRef spec) b with
          | inl e => inl (diag "config.repositoryRef" "not_found" (error_text e))
          | inr b =>
              match bindSecretConfig c "token" (rp_authSecretRef spec) with
              | inl e => inl (diag "config.secretRefs" "invalid" e)
              | inr c => inr (if obj_get "tokenSecret" c is Some _ then c else obj_set "tokenSecret" (JStr "token") c, b)
              end
          end
      end
  end.
Definition bind_references (namespace action : string) (c : config) : Diagnostic + (config * bindings) :=
  match (if String.eqb action "github.workspace.checkout" then bind_checkout namespace c else inr (c, ∅)) with
  | inl d => inl d
  | inr (c, b) =>
      match secretReferenceNames c with
      | inl e => inl (diag "config.secretRefs" "invalid" e)
      | inr names =>
          match bindSecrets namespace names b with
          | inl e => inl (diag "config.secretRefs" "not_found" (error_text e))
          | inr b => inr (if has_prefix action "github.workspace." then obj_set "workspaceRoot" (JStr workspaces) c else c, b)
          end
      end
  end.

Definition BindAction (namespace action : string) (c : config) : ActionBinding * list Diagnostic :=
  let bad path code message := (no_binding, [diag path code message]) in
  let namespace := default_namespace namespace in
  let name := plugin_of action in
  match active_plugin name with
  | inl e => bad "config" "plugin_unavailable" (error_text e)
  | inr record =>
      match decode_manifest (pv_manifest record), DecodeContract (pv_contract record) with
      | None, _ => bad "config" "plugin_invalid" decode_error
      | _, None => bad "config" "plugin_contract_invalid" ("decode plugin contract: " +:+ decode_error)
      | Some manifest, Some contract =>
          match actionDescriptor contract action with
          | None => bad "config" "plugin_contract_missing" ("plugin action " +:+ quoted action +:+ " has no installed schema descriptor")
          | Some descriptor =>
              match cloneConfig c with
              | None => bad "config" "invalid" decode_error
              | Some bound =>
                  match (if String.eqb name "agent-command" then bind_agent namespace bound else bind_references namespace action bound) with
                  | inl d => (no_binding, [d])
                  | inr (bound, b) => (actionBinding record manifest descriptor bound b, [])
                  end
              end
          end
      end
  end.
Definition ValidateAction (action : string) (c : config) : list Diagnostic := (BindAction DefaultNamespace action c).2.

(** The manager as the resolver of the Flow compiler. *)
Definition manager_capabilities : Capabilities :=
  mkCapabilities HasAction (Some BindAction) (Some ValidateAction).

(** ** Provider Triggers *)

Record triggerContractError := mkTriggerError { te_path : string; te_code : string; te_message : string }.
(** [None] does not return, see [ActionContract]. *)
Definition validateTriggerContractValue `{JsonSchema} (raw root : string) (value : json) : option (option triggerContractError) :=
  match ActionContract.Compile raw with
  | inl _ => Some (Some (mkTriggerError root "provider_contract_invalid" "installed provider schema is invalid"))
  | inr schema =>
      violations ← Validate schema value;
      Some match violations with
      | [] => None
      | v :: _ =>
          let path := match vi_path v with [] => root | p => root +:+ "." +:+ join "." p end in
          Some (mkTriggerError path (vi_code v) (root +:+ " does not satisfy the installed provider schema"))
      end
  end.
Definition validateTriggerContractJSON `{JsonSchema} (schema root raw : string) : option (option triggerContractError) :=
  match parse raw with
  | None => Some (Some (mkTriggerError root "schema_invalid" (root +:+ " is not valid JSON")))
  | Some value => validateTriggerContractValue schema root value
  end.

Fixpoint missing_secret (namespace : string) (names : list string) : option Diagnostic :=
  match names with
  | [] => None
  | name :: names =>
      match lookup "SecretRef" namespace name with
      | inl ErrNotFound =>
          Some (diag "config.secretRefs" "reference_not_found"
            ("SecretRef " +:+ quoted name +:+ " is not available in namespace " +:+ quoted (normalizedNamespace namespace)))
      | inl _ => Some (diag "config.secretRefs" "reference_unavailable" "SecretRef state is temporarily unavailable")
      | inr _ => missing_secret namespace names
      end
  end.
Definition ValidateTriggerProvider `{JsonSchema} (namespace pluginName source : string) (c : config) : option (list Diagnostic) :=
  match active_plugin pluginName with
  | inl _ => Some [diag "plugin" "provider_unavailable" ("provider plugin " +:+ quoted pluginName +:+ " is not active")]
  | inr record =>
      match triggerDescriptor record source with
      | inl ProviderSourceRequired => Some [diag "source" "required" (provider_error_text ProviderSourceRequired)]
      | inl (ProviderSourceNotFound _ _ as e) => Some [diag "source" "source_not_found" (provider_error_text e)]
      | inl e => Some [diag "plugin" "provider_contract_invalid" (provider_error_text e)]
      | inr descriptor =>
          match cloneConfig c with
          | None => Some [diag "config" "invalid" "provider config cannot be represented as JSON"]
          | Some copy =>
              match secretReferenceNames copy with
              | inl e => Some [diag "config.secretRefs" "invalid" e]
              | inr names =>
                  match missing_secret namespace names with
                  | Some d => Some [d]
                  | None =>
                      error ← validateTriggerContractValue (td_config descriptor) "config" (JObj (obj_delete "secretRefs" copy));
                      Some match error with Some e => [diag (te_path e) (te_code e) (te_message e)] | None => [] end
                  end
              end
          end
      end
  end.
End Manager.
