(* ===== verification/ServerPages.v ===== *)
(** [internal/server/pagination.go] and the [List] handler of
    [internal/server/api.go]: opaque page tokens over [ListResourcePage].

    A request or response message is a record; an error of a handler is a gRPC
    status.  encoding/json decodes the members of the token in the order of the
    text, matching names without regard to (ASCII) case. *)

From Stdlib Require String.
From S2P Require Import Prelude.
From S2P Require Import Json.
From S2P Require Import GoStd.
From S2P Require Import Resource.
From S2P Require Import Plan.
From S2P Require Import ActionContract.
From S2P Require Import PluginMapping.
From S2P Require Import FlowCompiler.
From S2P Require Import Db.
From S2P Require Import StoreRuns.
From S2P Require Import StoreResources.

Local Open Scope Z_scope.

(** ** Statuses *)

Inductive Code := Canceled | Unknown | PermissionDenied | InvalidArgument | NotFound | Aborted | FailedPrecondition | Internal | Unavailable | ResourceExhausted | DataLoss.
Record RpcStatus := mkStatus { rs_code : Code; rs_message : string }.
Definition rpc (A : Type) : Type := RpcStatus + A.

Definition rpcError (e : Err) : RpcStatus :=
  match e with
  | ErrConflict _ _ | ErrStaleFlowPlan _ _ _ _ | ErrStaleTriggerGeneration _ _ | ErrTriggerReferenceChanged
  | ErrStaleObservedGeneration _ _ => mkStatus Aborted (error_text e)
  | ErrSnapshotRevision _ _ => mkStatus Aborted "resource collection changed; restart pagination"
  | ErrTriggerDisabled => mkStatus FailedPrecondition (error_text e)
  | ErrNotFound => mkStatus NotFound (error_text e)
  | _ => mkStatus Internal (error_text e)
  end.

(** ** Messages *)

Record ListRequest := mkListRequest {
  lq_kind : string; lq_namespace : string; lq_labels : gmap string string; lq_limit : Z; lq_token : string }.
Record ResourceDocument := mkResourceDocument {
  rd_key : resource_key; rd_uid : string; rd_version : Z; rd_generation : Z; rd_json : option Document }.
Record ListResponse := mkListResponse {
  ls_revision : Z; ls_resources : list ResourceDocument; ls_token : string }.

Definition resourcePB (d : Document) : ResourceDocument :=
  mkResourceDocument (doc_kind d, m_namespace (doc_meta d), m_name (doc_meta d)) (m_uid (doc_meta d))
    (m_resourceVersion (doc_meta d)) (m_generation (doc_meta d)) (Some d).

(** ** Tokens *)

Definition resourceTokenVersion : Z := 1.
Record resourcePageToken := mkToken {
  tk_version : Z; tk_revision : Z; tk_filterDigest : string; tk_kind : string; tk_namespace : string; tk_name : string }.
Definition zero_token : resourcePageToken := mkToken 0 0 "" "" "" "".

Definition validResourceKind (kind : string) : bool :=
  existsb (String.eqb kind) ["Flow"; "Trigger"; "Repository"; "AgentProfile"; "PluginInstallation"; "SecretRef"].

Definition label_text (kv : string * string) : string := object_text [("key", quoted kv.1); ("value", quoted kv.2)].
(** A nil slice of labels is [null]. *)
Definition filter_text (request : ListRequest) : string :=
  let pairs := sort_by (onc fst str_cmp) (map_to_list (lq_labels request)) in
  object_text [("kind", quoted (lq_kind request)); ("namespace", quoted (lq_namespace request));
               ("labels", match pairs with [] => "null" | _ => array_text (label_text <$> pairs) end)].
Definition token_text (t : resourcePageToken) : string :=
  object_text [("version", itoa (tk_version t)); ("revision", itoa (tk_revision t)); ("filterDigest", quoted (tk_filterDigest t));
               ("kind", quoted (tk_kind t)); ("namespace", quoted (tk_namespace t)); ("name", quoted (tk_name t))].

(** [strconv.ParseUint] of a JSON number. *)
Definition parse_uint (literal : string) : option Z :=
  match explode literal with
  | [] => None
  | l => v ← digits_val l 0; if v <? 2 ^ 64 then Some v else None
  end.

(** One member into the struct; an unknown name is an error. *)
Definition token_member (t : resourcePageToken) (kv : string * json) : option resourcePageToken :=
  let name := fold_name kv.1 in
  if String.eqb name "version" then
    match kv.2 with
    | JNum l => v ← atoi l; Some (mkToken v (tk_revision t) (tk_filterDigest t) (tk_kind t) (tk_namespace t) (tk_name t))
    | JNull => Some t | _ => None end
  else if String.eqb name "revision" then
    match kv.2 with
    | JNum l => v ← parse_uint l; Some (mkToken (tk_version t) v (tk_filterDigest t) (tk_kind t) (tk_namespace t) (tk_name t))
    | JNull => Some t | _ => None end
  else if String.eqb name "filterdigest" then
    match kv.2 with
    | JStr x => Some (mkToken (tk_version t) (tk_revision t) x (tk_kind t) (tk_namespace t) (tk_name t))
    | JNull => Some t | _ => None end
  else if String.eqb name "kind" then
    match kv.2 with
    | JStr x => Some (mkToken (tk_version t) (tk_revision t) (tk_filterDigest t) x (tk_namespace t) (tk_name t))
    | JNull => Some t | _ => None end
  else if String.eqb name "namespace" then
    match kv.2 with
    | JStr x => Some (mkToken (tk_version t) (tk_revision t) (tk_filterDigest t) (tk_kind t) x (tk_name t))
    | JNull => Some t | _ => None end
  else if String.eqb name "name" then
    match kv.2 with
    | JStr x => Some (mkToken (tk_version t) (tk_revision t) (tk_filterDigest t) (tk_kind t) (tk_namespace t) x)
    | JNull => Some t | _ => None end
  else None.
Fixpoint token_members (t : resourcePageToken) (fields : list (string * json)) : option resourcePageToken :=
  match fields with [] => Some t | kv :: fields => t ← token_member t kv; token_members t fields end.

(** The members of the first value of the text, in its order, and the rest. *)
Definition first_members (s : string) : option (list (string * json) * string) :=
  match skip_ws s with
  | String c rest =>
      if Ascii.eqb c (chr 123) then
        match skip_ws rest with
        | String c' r => if Ascii.eqb c' (chr 125) then Some ([], r) else parse_fields (2 * String.length s + 2)%nat rest
        | EmptyString => None
        end
      else '(v, rest) ← decode_stream s; match v with JNull => Some ([], rest) | _ => None end
  | EmptyString => None
  end.
(** [Decode] with [DisallowUnknownFields], then [ensureJSONEOF]. *)
Definition decode_token (data : string) : option resourcePageToken :=
  '(fields, rest) ← first_members data;
  t ← token_members zero_token fields;
  if at_eof rest then Some t else None.

Section Pages.
Context {sha : Sha256}.

Definition resourceFilterDigest (request : ListRequest) : string := FlowCompiler.sha256_hex (filter_text request).

Definition invalid_token : string := "continue_token is invalid".
Definition decodeResourcePageToken (request : ListRequest) : string + resourcePageToken :=
  if String.eqb (lq_token request) "" then inr zero_token
  else if (8192 <? String.length (lq_token request))%nat then inl "continue_token exceeds size limit"
  else match DecodeString (lq_token request) with
  | None => inl invalid_token
  | Some data =>
      match decode_token data with
      | None => inl invalid_token
      | Some token =>
          if negb (tk_version token =? resourceTokenVersion) || (tk_revision token =? 0) || negb (validResourceKind (tk_kind token))
             || String.eqb (tk_namespace token) "" || String.eqb (tk_name token) "" then inl invalid_token
          else if negb (String.eqb (tk_filterDigest token) (resourceFilterDigest request))
          then inl "continue_token does not match list filters"
          else match ValidateMetadata (mkMeta (tk_name token) (tk_namespace token) "" 0 0 ∅) with
               | inl _ => inl invalid_token
               | inr _ => inr token
               end
      end
  end.

Definition page_token (request : ListRequest) (revision : Z) (last : Document) : resourcePageToken :=
  mkToken resourceTokenVersion revision (resourceFilterDigest request) (doc_kind last) (m_namespace (doc_meta last)) (m_name (doc_meta last)).
Definition encodeResourcePageToken (request : ListRequest) (revision : Z) (last : Document) : string :=
  EncodeToString (token_text (page_token request revision last)).

(** ** List *)

Context {cal : Calendar} (projectResource : Document → ResourceDocument).

Definition invalid (message : string) : RpcStatus := mkStatus InvalidArgument message.
Definition List (request : ListRequest) (s : Db) : rpc ListResponse :=
  if negb (String.eqb (lq_kind request) "") && negb (validResourceKind (lq_kind request)) then inl (invalid "kind filter is invalid")
  else if negb (String.eqb (lq_namespace request) "")
          && (if ValidateMetadata (mkMeta "list" (lq_namespace request) "" 0 0 ∅) is inl _ then true else false)
  then inl (invalid "namespace filter is invalid")
  else if 1000 <? lq_limit request then inl (invalid "limit must not exceed 1000")
  else match decodeResourcePageToken request with
  | inl e => inl (invalid e)
  | inr token =>
      match result (ListResourcePage (mkPageOptions (lq_kind request) (lq_namespace request) (lq_labels request)
              (tk_kind token, tk_namespace token, tk_name token) (tk_revision token) (lq_limit request))) s with
      | inl e => inl (rpcError e)
      | inr (docs, revision, more) =>
          inr (mkListResponse revision (projectResource <$> docs)
            (match more, last docs with true, Some last => encodeResourcePageToken request revision last | _, _ => "" end))
      end
  end.

(** A client that follows the tokens to the last page while the store changes:
    the i-th call finds the i-th store. *)
Definition with_token (token : string) (request : ListRequest) : ListRequest :=
  mkListRequest (lq_kind request) (lq_namespace request) (lq_labels request) (lq_limit request) token.
Fixpoint walk (request : ListRequest) (stores : list Db) : option (rpc (list ResourceDocument)) :=
  match stores with
  | [] => None
  | s :: stores =>
      match List request s with
      | inl e => Some (inl e)
      | inr response =>
          if String.eqb (ls_token response) "" then Some (inr (ls_resources response))
          else rest ← walk (with_token (ls_token response) request) stores;
               Some (match rest with inl e => inl e | inr l => inr (ls_resources response ++ l) end)
      end
  end.
End Pages.
