(* ===== verification/StoreStep.v ===== *)
(** The store as a transition system: [store_step s s'] when one committed
    operation of [internal/store] takes the database from [s] to [s'].  A failed
    operation rolls back and is no step.  [reachable] is closed under every
    interleaving of the operations, with arbitrary arguments. *)

From Stdlib Require String.
From S2P Require Import Prelude.
From S2P Require Import Json.
From S2P Require Import GoStd.
From S2P Require Import Resource.
From S2P Require Import Plan.
From S2P Require Import Db.
From S2P Require Import StoreRuns.
From S2P Require Import StoreResources.
From S2P Require Import StoreOutbox.
From S2P Require Import StorePlugins.

Local Open Scope Z_scope.

Section Step.
Context {cal : Calendar} {dig : Digest}.

Inductive store_step (s s' : Db) : Prop :=
  (* resources *)
  | step_apply doc o u rq t a (Hop : Apply doc o u rq t s = inr (a, s'))
  | step_status k ns n g st now a (Hop : UpdateResourceStatus k ns n g st now s = inr (a, s'))
  | step_delete k ns n v rq fr now a (Hop : Delete k ns n v rq fr now s = inr (a, s'))
  | step_trigger_state u g e c now a (Hop : EnsureTriggerState u g e c now s = inr (a, s'))
  | step_advance u c now a (Hop : AdvanceTriggerCursor u c now s = inr (a, s'))
  | step_enable u e now a (Hop : SetTriggerEnabled u e now s = inr (a, s'))
  | step_skip u o r at_ now a (Hop : RecordTriggerSkip u o r at_ now s = inr (a, s'))
  (* acceptance and dispatch *)
  | step_put_plan p now a (Hop : PutPlan p now s = inr (a, s'))
  | step_accept t g o f ns i d pc pe p fr fu now a
      (Hop : acceptTrigger t g o f ns i d pc pe p fr fu now s = inr (a, s'))
  | step_accept_signal t g o f ns r n p c fr now a
      (Hop : AcceptProviderSignal t g o f ns r n p c fr now s = inr (a, s'))
  | step_claim kind now stale a (Hop : claim kind now stale s = inr (a, s'))
  | step_complete id now a (Hop : CompleteOutbox id now s = inr (a, s'))
  | step_complete_cancelled id run now a (Hop : CompleteStartIfRunCancelled id run now s = inr (a, s'))
  | step_retry id c d now a (Hop : RetryOutbox id c d now s = inr (a, s'))
  (* runs *)
  | step_ensure_run p pl now a (Hop : EnsureRun p pl now s = inr (a, s'))
  | step_begin r n i f k inp now a (Hop : BeginNodeAttempt r n i f k inp now s = inr (a, s'))
  | step_complete_attempt r n i at_ ph o e x now a (Hop : CompleteNodeAttempt r n i at_ ph o e x now s = inr (a, s'))
  | step_outcome r n i at_ o a (Hop : SetNodeAttemptOutcome r n i at_ o s = inr (a, s'))
  | step_plugin_event r n i at_ q ty p oc now a (Hop : AppendPluginEvent r n i at_ q ty p oc now s = inr (a, s'))
  | step_artifact x fr now a (Hop : PutArtifact x fr now s = inr (a, s'))
  | step_run_event r n ty ph at_ p now a (Hop : AppendRunEvent r n ty ph at_ p now s = inr (a, s'))
  | step_cancel r re now a (Hop : RequestRunCancellation r re now s = inr (a, s'))
  | step_cancel_delivered r now a (Hop : MarkRunCancellationDelivered r now s = inr (a, s'))
  | step_cancel_impossible r now a (Hop : MarkRunCancellationDeliveredIfStartImpossible r now s = inr (a, s'))
  | step_approval r n e a (Hop : EnsureApproval r n e s = inr (a, s'))
  | step_decide r n st ac re now a (Hop : DecideApproval r n st ac re now s = inr (a, s'))
  | step_signaled r n a (Hop : MarkApprovalSignaled r n s = inr (a, s'))
  (* plugins and retention *)
  | step_put_plugin r i now a (Hop : PutPlugin r i now s = inr (a, s'))
  | step_activate n v now a (Hop : ActivatePlugin n v now s = inr (a, s'))
  | step_disable n a (Hop : DisablePlugin n s = inr (a, s'))
  | step_collect_runs rs now a (Hop : CollectRetainedRuns rs now s = inr (a, s'))
  | step_collect_plugin n v d a (Hop : CollectRetainedPlugin n v d s = inr (a, s')).

Definition reachable (s : Db) : Prop := rtc store_step empty_db s.

(** Rule induction for invariants. *)
Lemma reachable_ind (P : Db → Prop) :
  P empty_db → (∀ s s', reachable s → P s → store_step s s' → P s') → ∀ s, reachable s → P s.
Proof.
  intros H0 HS. apply rtc_ind_r; [done|]. intros s s' Hr Hstep IH. by eapply HS.
Qed.
End Step.

Create HintDb store_ops.
#[export] Hint Unfold Apply UpdateResourceStatus Delete EnsureTriggerState ensureTriggerStateTx AdvanceTriggerCursor
  SetTriggerEnabled RecordTriggerSkip put_resource nextRevision insert_resource_event insert_audit : store_ops.
#[export] Hint Unfold PutPlan put_plan_row acceptTrigger AcceptProviderSignal validateTriggerAcceptanceTx validateFlowPlanTx
  validateSignalTargetTx receiptByOccurrence insert_receipt insert_outbox upsertProviderCursor claim CompleteOutbox
  CompleteStartIfRunCancelled RetryOutbox update_outbox : store_ops.
#[export] Hint Unfold EnsureRun BeginNodeAttempt CompleteNodeAttempt NodeAttempt SetNodeAttemptOutcome AppendPluginEvent PutArtifact
  AppendRunEvent appendRunEventTx appendRunEvidenceTx insert_run_event RequestRunCancellation MarkRunCancellationDelivered
  MarkRunCancellationDeliveredIfStartImpossible EnsureApproval DecideApproval MarkApprovalSignaled : store_ops.
#[export] Hint Unfold PutPlugin ActivatePlugin DisablePlugin CollectRetainedPlugin referencedPluginVersionsTx
  CollectRetainedRuns : store_ops.

(** Decompose the committed operation [Hop] into its path. *)
Ltac run_op Hop := autounfold with store_ops in Hop; cbv beta zeta in Hop; tx_inv.
(** Cases of [store_step] that do not touch the tables of an invariant [H]
    close by conversion. *)
Ltac untouched H := solve [exact H | eapply H; eassumption].
