(* ===== verification/Proc.v ===== *)
(** Code that calls the store several times: between two calls other goroutines
    may commit.  A [Proc] threads the database; an error keeps the commits before
    it.  [call env i t] is the [i]-th store call of the code: the environment [env]
    says what the others committed since the previous one, and which instant and
    UUID the call draws. *)

From Stdlib Require String.
From S2P Require Import Prelude.
From S2P Require Import Json.
From S2P Require Import GoStd.
From S2P Require Import Resource.
From S2P Require Import Plan.
From S2P Require Import Db.
From S2P Require Import StoreRuns.
From S2P Require Import StoreResources.
From S2P Require Import StoreOutbox.
From S2P Require Import StorePlugins.
From S2P Require Import StoreStep.

Local Open Scope Z_scope.

Definition Proc (A : Type) : Type := Db → res A * Db.

#[export] Instance proc_ret : MRet Proc := λ A a s, (ok a, s).
#[export] Instance proc_bind : MBind Proc := λ A B f p s,
  match p s with (inl e, s') => (fail e, s') | (inr a, s') => f a s' end.

Definition proc_fail {A} (e : Err) : Proc A := λ s, (fail e, s).
Definition proc_lift {A} (r : res A) : Proc A := λ s, (r, s).
(** The result as a value: the caller inspects the error. *)
Definition attempt {A} (p : Proc A) : Proc (res A) := λ s, let '(r, s') := p s in (ok r, s').

Definition proc_guard (b : bool) (e : Err) : Proc unit := proc_lift (if b then ok tt else fail e).

Record Env := mkEnv { others : nat → Db → Db; now_at : nat → Z; uuid_at : nat → string }.
Definition stamp (env : Env) (i : nat) : string := rfc3339nano (now_at env i).
Definition call {A} (env : Env) (i : nat) (t : Tx A) : Proc A := λ s,
  let s := others env i s in
  match t s with inl e => (fail e, s) | inr (a, s') => (ok a, s') end.

(** Nobody else writes; the clock stands still. *)
Definition alone (now : Z) (uuid : nat → string) : Env := mkEnv (λ _ s, s) (λ _, now) uuid.

Section Facts.
Context {A B : Type}.
Lemma proc_bind_ok (p : Proc A) (f : A → Proc B) s b s' :
  (p ≫= f) s = (inr b, s') ↔ ∃ a s1, p s = (inr a, s1) ∧ f a s1 = (inr b, s').
Proof.
  unfold mbind, proc_bind. destruct (p s) as [[e|a] s1]; split.
  - done.
  - by intros (?&?&?&?).
  - eauto.
  - by intros (?&?&[= -> ->]&?).
Qed.
Lemma proc_ret_ok (x : A) s a s' : mret (M:=Proc) x s = (inr a, s') ↔ a = x ∧ s' = s.
Proof. unfold mret, proc_ret. split; [by intros [= -> ->]|by intros [-> ->]]. Qed.
Lemma proc_lift_ok (r : res A) s a s' : proc_lift r s = (inr a, s') ↔ r = inr a ∧ s' = s.
Proof. unfold proc_lift. split; [by intros [= -> ->]|by intros [-> ->]]. Qed.
Lemma attempt_ok (p : Proc A) s r s' : attempt p s = (inr r, s') ↔ p s = (r, s').
Proof. unfold attempt. destruct (p s) as [r1 s1]. split; [by intros [= -> ->]|by intros [= -> ->]]. Qed.
Lemma call_ok env i (t : Tx A) s a s' : call env i t s = (inr a, s') ↔ t (others env i s) = inr (a, s').
Proof. unfold call. destruct (t (others env i s)) as [e|[b s1]]; split; [done|done|by intros [= -> ->]|by intros [= -> ->]]. Qed.
Lemma call_fail env i (t : Tx A) s e s' : call env i t s = (inl e, s') ↔ t (others env i s) = inl e ∧ s' = others env i s.
Proof.
  unfold call. destruct (t (others env i s)) as [e1|[b s1]]; split; [by intros [= -> ->]|by intros [[= ->] ->]|done|by intros [? _]].
Qed.
End Facts.

(** [proc_step] decomposes a successful run into the calls it made. *)
Ltac proc_step :=
  match goal with
  | H : (fail _, _) = (inr _, _) |- _ => discriminate H
  | H : proc_fail _ _ = (inr _, _) |- _ => discriminate H
  | H : mret _ _ = (inr _, _) |- _ => apply proc_ret_ok in H as [? ?]; subst
  | H : proc_lift _ _ = (inr _, _) |- _ =>
      let Hr := fresh "Hlift" in apply proc_lift_ok in H as [Hr ?]; subst
  | H : attempt _ _ = (inr _, _) |- _ => apply (proj1 (attempt_ok _ _ _ _)) in H
  | H : call _ _ _ _ = (inr _, _) |- _ => apply call_ok in H
  | H : (_ ≫= _) _ = (inr _, _) |- _ =>
      let H1 := fresh "Hcall" in apply proc_bind_ok in H as (?&?&H1&H)
  | H : (match ?x with _ => _ end) _ = (inr _, _) |- _ => destruct x eqn:?
  end.
Ltac proc_inv := repeat (proc_step; try discriminate).

(** ** What a run does to the store *)

Section Evolution.
Context {cal : Calendar} {dig : Digest}.

(** Every run is a sequence of committed operations, its own and the others'. *)
Definition evolves {A} (p : Proc A) : Prop := ∀ s, rtc store_step s (p s).2.
Definition commits {A} (t : Tx A) : Prop := ∀ s a s', t s = inr (a, s') → rtc store_step s s'.
Definition interference (env : Env) : Prop := ∀ i s, rtc store_step s (others env i s).

Lemma evolves_ret {A} (a : A) : evolves (mret a).
Proof. intros s. apply rtc_refl. Qed.
Lemma evolves_fail {A} e : evolves (proc_fail (A:=A) e).
Proof. intros s. apply rtc_refl. Qed.
Lemma evolves_lift {A} (r : res A) : evolves (proc_lift r).
Proof. intros s. apply rtc_refl. Qed.
Lemma evolves_attempt {A} (p : Proc A) : evolves p → evolves (attempt p).
Proof. intros H s. specialize (H s). unfold attempt. by destruct (p s). Qed.
Lemma evolves_bind {A B} (p : Proc A) (f : A → Proc B) : evolves p → (∀ a, evolves (f a)) → evolves (p ≫= f).
Proof.
  intros Hp Hf s. specialize (Hp s). unfold mbind, proc_bind. destruct (p s) as [[e|a] s1]; simpl in *; [done|].
  etrans; [exact Hp|apply Hf].
Qed.
Lemma evolves_call {A} env i (t : Tx A) : interference env → commits t → evolves (call env i t).
Proof.
  intros He Ht s. unfold call. destruct (t (others env i s)) as [e|[a s']] eqn:E; simpl; [apply He|].
  etrans; [apply He|by eapply Ht].
Qed.

Lemma interference_alone now uuid : interference (alone now uuid).
Proof. intros i s. apply rtc_refl. Qed.

Lemma commits_get {A} (f : Db → A) : commits (tx_get f).
Proof. intros s a s'. intros [_ ->]%tx_get_inv. apply rtc_refl. Qed.
Lemma commits_row {A} (f : Db → option A) : commits (tx_row f).
Proof. intros s a s'. intros [_ ->]%tx_row_inv. apply rtc_refl. Qed.
Lemma commits_lift {A} (r : res A) : commits (tx_lift r).
Proof. intros s a s'. intros [_ ->]%tx_lift_inv. apply rtc_refl. Qed.
Lemma commits_ret {A} (a : A) : commits (mret a).
Proof. intros s x s'. intros [_ ->]%tx_ret_inv. apply rtc_refl. Qed.
Lemma commits_guard b e : commits (tx_guard b e).
Proof. intros s x s'. intros [_ ->]%tx_guard_inv. apply rtc_refl. Qed.
Lemma commits_bind {A B} (t : Tx A) (f : A → Tx B) : commits t → (∀ a, commits (f a)) → commits (t ≫= f).
Proof. intros Ht Hf s b s' (a&s1&H1&H2)%tx_bind_inv. etrans; [by eapply Ht|by eapply Hf]. Qed.
End Evolution.

Create HintDb proc.
#[export] Hint Resolve evolves_ret evolves_fail evolves_lift evolves_attempt evolves_bind evolves_call
  commits_get commits_row commits_lift commits_ret commits_guard commits_bind : proc.

(** ** Store operations of several statements *)

(** These run their statements outside a transaction, so another goroutine may
    commit between two of them: each statement is a call of its own, from number [i]
    on. *)
Section Statements.
Context {cal : Calendar} {dig : Digest}.

Definition List_ (env : Env) (i : nat) (kind namespace : string) (limit : Z) : Proc (list Document * Z) :=
  documents ← call env i (list_rows kind namespace limit);
  revision ← call env (S i) (tx_get db_revision);
  mret (documents, revision).

Fixpoint run_artifacts (env : Env) (i : nat) (l : list (string * string)) : Proc (list RetentionRun) :=
  match l with
  | [] => mret []
  | (uid, completed) :: l =>
      artifacts ← call env i (retention_artifacts uid);
      rest ← run_artifacts env (S i) l;
      mret (mkRetentionRun uid completed (ar_path <$> artifacts) (foldr Z.add 0 (ar_size <$> artifacts)) :: rest)
  end.
(** Calls [i] to [i + n] for [n] Runs. *)
Definition PlanRunRetention (env : Env) (i : nat) (before : Z) (keepRecent limit : Z) : Proc (list RetentionRun) :=
  proc_guard (negb (before =? zero_time)) (ErrMsg "retention cutoff is required") ≫= λ _,
  proc_guard (0 <=? keepRecent) (ErrMsg "retention keepRecent must not be negative") ≫= λ _,
  proc_guard ((1 <=? limit) && (limit <=? 1000)) (ErrMsg "retention limit must be between 1 and 1000") ≫= λ _,
  runs ← call env i (retention_runs before keepRecent limit);
  run_artifacts env (S i) runs.

Definition PlanPluginRetention (env : Env) (i : nat) (installedBefore : Z) (limit : Z) : Proc (list PluginRecord) :=
  proc_guard (negb (installedBefore =? zero_time) && (1 <=? limit) && (limit <=? 1000)) (ErrMsg "plugin retention cutoff and limit are required") ≫= λ _,
  referenced ← call env i referencedPluginVersionsTx;
  records ← call env (S i) ListPlugins;
  mret (take (Z.to_nat limit)
    (filter (λ r, pv_active r = false ∧ pv_installed r < installedBefore ∧ (pv_name r, pv_version r) ∉ referenced) records)).

Lemma commits_list_rows kind namespace limit : commits (list_rows kind namespace limit).
Proof. unfold list_rows. eauto with proc. Qed.
Lemma evolves_List env i kind namespace limit : interference env → evolves (List_ env i kind namespace limit).
Proof. intros He. pose proof (commits_list_rows kind namespace limit). unfold List_. eauto 10 with proc. Qed.
Lemma evolves_run_artifacts env l : interference env → ∀ i, evolves (run_artifacts env i l).
Proof.
  intros He. induction l as [|[uid completed] l IH]; intros i; cbn [run_artifacts]; [auto with proc|].
  unfold retention_artifacts. apply evolves_bind; [auto with proc|]. intros artifacts. apply evolves_bind; [apply IH|auto with proc].
Qed.
Lemma evolves_plan_runs env i before keepRecent limit : interference env → evolves (PlanRunRetention env i before keepRecent limit).
Proof. intros He. unfold PlanRunRetention, proc_guard, retention_runs. eauto 10 using evolves_run_artifacts with proc. Qed.
Lemma evolves_plan_plugins env i before limit : interference env → evolves (PlanPluginRetention env i before limit).
Proof. intros He. unfold PlanPluginRetention, proc_guard, referencedPluginVersionsTx, ListPlugins. eauto 20 with proc. Qed.
End Statements.
#[export] Hint Resolve commits_list_rows evolves_List : proc.
