(* ===== verification/StoreSafety.v ===== *)
(** Invariants of the store under every interleaving of its operations. *)

From Stdlib Require String.
From S2P Require Import Prelude.
From S2P Require Import Json.
From S2P Require Import GoStd.
From S2P Require Import Resource.
From S2P Require Import Plan.
From S2P Require Import Db.
From S2P Require Import StoreRuns.
From S2P Require Import StoreResources.
From S2P Require Import StoreOutbox.
From S2P Require Import StorePlugins.
From S2P Require Import StoreStep.

Local Open Scope Z_scope.

Section Safety.
Context {cal : Calendar} {dig : Digest}.

(** ** The run event log *)

Definition seqs_of (run : string) (l : list RunEventRow) : list Z := ev_seq <$> filter (λ e, ev_run e = run) l.
Definition log_ok (l : list RunEventRow) : Prop :=
  ∀ run, seqs_of run l = seqZ 1 (Z.of_nat (length (seqs_of run l))).

Lemma max_seqZ n : max_z (seqZ 1 (Z.of_nat n)) = Z.of_nat n.
Proof.
  unfold max_z. enough (∀ m, 0 ≤ m → foldr Z.max 0 (seqZ m (Z.of_nat n)) = if decide (n = O) then 0 else m + Z.of_nat n - 1) as E.
  { rewrite E by lia. case_decide; lia. }
  induction n as [|n IH]; intros m Hm; [done|].
  rewrite seqZ_cons by lia. simpl. replace (Z.pred (Z.of_nat (S n))) with (Z.of_nat n) by lia.
  rewrite IH by lia. repeat case_decide; subst; lia.
Qed.

Lemma seqs_of_app run l k : seqs_of run (l ++ k) = seqs_of run l ++ seqs_of run k.
Proof. unfold seqs_of. by rewrite filter_app, fmap_app. Qed.
Lemma seqs_of_one run e : seqs_of run [e] = if decide (ev_run e = run) then [ev_seq e] else [].
Proof. unfold seqs_of. rewrite filter_cons. by case_decide. Qed.

Lemma log_append l e : log_ok l → ev_seq e = max_z (seqs_of (ev_run e) l) + 1 → log_ok (l ++ [e]).
Proof.
  intros H He run. rewrite seqs_of_app, seqs_of_one. case_decide as E.
  - subst run. rewrite length_app. simpl.
    rewrite (H (ev_run e)) in He |- *. rewrite max_seqZ in He. rewrite length_seqZ, Nat2Z.id, He.
    replace (Z.of_nat (length (seqs_of (ev_run e) l) + 1)) with (Z.of_nat (length (seqs_of (ev_run e) l)) + 1) by lia.
    by rewrite seqZ_snoc by lia.
  - rewrite app_nil_r. apply H.
Qed.

Lemma log_first l e :
  log_ok l → existsb (λ e', String.eqb (ev_run e') (ev_run e) && (ev_seq e' =? ev_seq e)) l = false →
  ev_seq e = 1 → log_ok (l ++ [e]).
Proof.
  intros H Hdup He. apply log_append; [done|].
  assert (seqs_of (ev_run e) l = []) as ->; [|done].
  destruct (seqs_of (ev_run e) l) as [|z zs] eqn:E; [done|exfalso].
  pose proof (H (ev_run e)) as Hc. rewrite E in Hc. simpl in Hc. rewrite seqZ_cons in Hc by lia.
  injection Hc as -> _.
  assert (1 ∈ seqs_of (ev_run e) l) as Hin by (rewrite E; left).
  unfold seqs_of in Hin. apply list_elem_of_fmap in Hin as (e'&Heq&Hin).
  apply list_elem_of_filter in Hin as [Hr Hin].
  assert (existsb (λ e', String.eqb (ev_run e') (ev_run e) && (ev_seq e' =? ev_seq e)) l = true); [|congruence].
  apply existsb_exists. exists e'. split; [by apply list_elem_of_In|].
  rewrite Hr, String.eqb_refl. simpl. lia.
Qed.

Lemma log_collect l run : log_ok l → log_ok (filter (λ e, ev_run e ≠ run) l).
Proof.
  intros H run'. assert (seqs_of run' (filter (λ e, ev_run e ≠ run) l) = if decide (run' = run) then [] else seqs_of run' l) as ->.
  { unfold seqs_of. clear H. induction l as [|e l IH]; [by case_decide|].
    rewrite !filter_cons. destruct (decide (ev_run e = run)) as [E|E].
    - rewrite (decide_False (P := ev_run e ≠ run)) by naive_solver. rewrite IH.
      repeat case_decide; congruence.
    - rewrite (decide_True (P := ev_run e ≠ run)) by done. rewrite filter_cons.
      destruct (decide (ev_run e = run')); rewrite ?fmap_cons, IH; repeat case_decide; congruence. }
  case_decide; [done|apply H].
Qed.

(** ** One collected run, table by table *)

Record run_collected (now run : string) (r : RunRow) (s s' : Db) : Prop := mkCollected {
  cr_row : db_runs s !! run = Some r;
  cr_terminal : terminalRunPhase (run_phase r) = true;
  cr_closed : open_dispatch run s = false;
  cr_runs : db_runs s' = delete run (db_runs s);
  cr_events : db_run_events s' = filter (λ e, ev_run e ≠ run) (db_run_events s);
  cr_outbox : db_outbox s' = filter (λ o, ¬ (ob_aggregate o = run ∧ ob_state o = ObCompleted)) (db_outbox s);
  cr_tombstones : db_tombstones s' = add_tombstones run now s;
  cr_receipts : db_receipts s' = filter (λ kr, rc_run kr.2 ≠ run) (db_receipts s);
  cr_attempts : db_attempts s' = delete_where (λ k, String.eqb k.1.1.1 run) (db_attempts s);
  cr_approvals : db_approvals s' = delete_where (λ k, String.eqb k.1 run) (db_approvals s);
  cr_cancellations : db_cancellations s' = delete run (db_cancellations s);
  cr_artifacts : db_artifacts s' = delete_where (λ k, String.eqb k.1.1.1.1 run) (db_artifacts s);
  cr_plugin_events : db_plugin_events s' = delete_where (λ k, String.eqb k.1.1.1.1 run) (db_plugin_events s);
  cr_plans : db_plans s' = if bool_decide (map_Forall (λ _ r', run_plan r' ≠ run_plan r) (delete run (db_runs s)))
                           then delete (run_plan r) (db_plans s) else db_plans s;
  cr_rest : (db_revision s', db_resources s', db_resource_events s', db_audit s', db_outbox_seq s', db_cursors s',
             db_plugins s', db_activations s', db_trigger_states s', db_skips s')
          = (db_revision s, db_resources s, db_resource_events s, db_audit s, db_outbox_seq s, db_cursors s,
             db_plugins s, db_activations s, db_trigger_states s, db_skips s) }.

Lemma collect_run_inv now run s a s' :
  collect_run now run s = inr (a, s') →
  (db_runs s !! run = None ∧ s' = s) ∨ ∃ r, run_collected now run r s s'.
Proof.
  intros Hop. unfold collect_run in Hop. tx_inv; [right|by left].
  apply negb_true_iff in Hguard0. eexists.
  split; try eassumption; cbv beta; simpl; case_bool_decide; reflexivity.
Qed.

Lemma collect_runs_ind (P : Db → Prop) now runs s a s' :
  (∀ run r s s', P s → run_collected now run r s s' → P s') →
  P s → collect_runs now runs s = inr (a, s') → P s'.
Proof.
  intros HP. revert s a. induction runs as [|r runs IH]; intros s a Hs H; simpl in H.
  - tx_inv. done.
  - apply tx_bind_inv in H as (?&s1&H1&H2). eapply IH; [|exact H2].
    apply collect_run_inv in H1 as [[_ ->]|[r' H1]]; [done|]. by eapply HP.
Qed.

(** ** Preservation of the run log *)

Lemma log_next s s' e : log_ok (db_run_events s) → ev_seq e = next_sequence (ev_run e) s →
  db_run_events s' = db_run_events s ++ [e] → log_ok (db_run_events s').
Proof. intros H He ->. by apply log_append. Qed.

Lemma log_new s s' e : log_ok (db_run_events s) →
  existsb (λ e', String.eqb (ev_run e') (ev_run e) && (ev_seq e' =? ev_seq e)) (db_run_events s) = false →
  ev_seq e = 1 → db_run_events s' = db_run_events s ++ [e] → log_ok (db_run_events s').
Proof. intros H Hd He ->. by apply log_first. Qed.

Lemma log_step s s' : log_ok (db_run_events s) → store_step s s' → log_ok (db_run_events s').
Proof.
  intros H Hstep. destruct Hstep; run_op Hop; try untouched H.
  all: try solve [eapply log_next; [exact H| |reflexivity]; reflexivity].
  - (* EnsureRun *)
    eapply log_new; [exact H| | |reflexivity]; [|done]. by apply negb_true_iff in Hguard.
  - (* BeginNodeAttempt after a lost delivery *)
    refine (log_append (_ ++ [_]) _ (log_append _ _ H _) _); reflexivity.
  - (* CollectRetainedRuns *)
    revert Hop. apply (collect_runs_ind (λ s, log_ok (db_run_events s))); [|done].
    intros run r s1 s2 H1 Hc. rewrite (cr_events _ _ _ _ _ Hc). by apply log_collect.
Qed.

Lemma log_reachable s : reachable s → log_ok (db_run_events s).
Proof. apply (reachable_ind (λ s, log_ok (db_run_events s))); [by intros run|]. intros ?? _. apply log_step. Qed.

(** ** Run rows *)

(** The columns fixed when a run is accepted. *)
Definition pinned (r : RunRow) : string * string * string * string * string * string :=
  (run_flow r, run_receipt r, run_plan r, run_interpreter r, run_input r, run_created r).
Definition run_le (r r' : RunRow) : Prop :=
  pinned r' = pinned r ∧
  (terminalRunPhase (run_phase r) = true → run_phase r' = run_phase r) ∧
  (terminalRunPhase (run_phase r) = true → is_Some (run_completed r) → run_completed r' = run_completed r).
(** [completed_at] is set exactly in a terminal phase. *)
Definition run_ok (r : RunRow) : Prop := terminalRunPhase (run_phase r) = true ↔ is_Some (run_completed r).
Definition runs_ok (m : gmap string RunRow) : Prop := map_Forall (λ _, run_ok) m.
Definition runs_kept (m m' : gmap string RunRow) : Prop :=
  ∀ u r, m !! u = Some r → ∃ r', m' !! u = Some r' ∧ run_le r r'.

#[local] Instance run_le_preorder : PreOrder run_le.
Proof.
  split; [by intros r|]. intros r1 r2 r3 (H1&H2&H3) (H4&H5&H6). split_and!.
  - congruence.
  - intros Ht. rewrite H5; [auto|by rewrite H2].
  - intros Ht Hc. rewrite H6; [auto|by rewrite H2|by rewrite H3].
Qed.
#[local] Instance runs_kept_preorder : PreOrder runs_kept.
Proof.
  split; [intros m u r ?; by exists r|]. intros m1 m2 m3 H1 H2 u r Hr.
  apply H1 in Hr as (r1&Hr&?). apply H2 in Hr as (r2&Hr&?). exists r2. split; [done|by etrans].
Qed.

Lemma runs_kept_alter f u m : (∀ r, m !! u = Some r → run_le r (f r)) → runs_kept m (alter f u m).
Proof.
  intros H u' r Hr. destruct (decide (u = u')) as [->|].
  - exists (f r). rewrite lookup_alter_eq, Hr. auto.
  - exists r. rewrite lookup_alter_ne by done. done.
Qed.
Lemma runs_kept_insert u r m : m !! u = None → runs_kept m (<[u := r]> m).
Proof. intros H u' r' Hr. exists r'. rewrite lookup_insert_ne by congruence. done. Qed.
Lemma runs_ok_alter f u m : runs_ok m → (∀ r, m !! u = Some r → run_ok r → run_ok (f r)) → runs_ok (alter f u m).
Proof.
  intros H Hf u' r Hr. destruct (decide (u = u')) as [->|].
  - rewrite lookup_alter_eq in Hr. destruct (m !! u') as [r0|] eqn:E; [|done]. simpl in Hr. injection Hr as <-.
    apply Hf; [done|by apply (H u')].
  - rewrite lookup_alter_ne in Hr by done. by apply (H u').
Qed.

Lemma run_le_set_phase ph now c r : terminalRunPhase (run_phase r) = false → run_le r (set_run_phase ph now c r).
Proof. intros H. split; [done|]. rewrite H. done. Qed.
Lemma run_ok_set_phase ph now r :
  terminalRunPhase (run_phase r) = false → run_ok r →
  run_ok (set_run_phase ph now (if terminalRunPhase ph then Some now else None) r).
Proof.
  unfold run_ok. intros H Hr. rewrite H in Hr. simpl. destruct (terminalRunPhase ph); [by split|].
  destruct (run_completed r); [|done]. exfalso. destruct Hr as [_ Hr]. discriminate Hr. done.
Qed.

(** One write to the run table: rows are kept and stay well formed. *)
Definition runs_evolve (m m' : gmap string RunRow) : Prop := runs_kept m m' ∧ (runs_ok m → runs_ok m').
#[local] Instance runs_evolve_preorder : PreOrder runs_evolve.
Proof.
  split; [by intros m; split|]. intros m1 m2 m3 [H1 H2] [H3 H4]. split; [by etrans|auto].
Qed.
Lemma runs_evolve_alter f u r m : m !! u = Some r → run_le r (f r) → (run_ok r → run_ok (f r)) → runs_evolve m (alter f u m).
Proof.
  intros Hr Hle Hok. split.
  - apply runs_kept_alter. intros r' Hr'. by simplify_eq.
  - intros H. apply runs_ok_alter; [done|]. intros r' Hr'. by simplify_eq.
Qed.
Lemma runs_evolve_phase ph now u r m :
  m !! u = Some r → terminalRunPhase (run_phase r) = false →
  runs_evolve m (alter (set_run_phase ph now (if terminalRunPhase ph then Some now else None)) u m).
Proof.
  intros Hr Ht. eapply runs_evolve_alter; [done| |].
  - by apply run_le_set_phase.
  - by apply run_ok_set_phase.
Qed.
Lemma runs_evolve_insert u r m : m !! u = None → run_ok r → runs_evolve m (<[u := r]> m).
Proof.
  intros Hu Hr. split; [by apply runs_kept_insert|]. intros H. apply map_Forall_insert_2; done.
Qed.

(** A request on an active run, or on one already cancelled. *)
Definition cancel_run (now : string) (r : RunRow) : RunRow :=
  mkRunRow (run_flow r) (run_receipt r) (run_plan r) (run_interpreter r) "cancelled" (run_input r)
    (run_created r) now (match run_completed r with Some c => Some c | None => Some now end).
Lemma runs_evolve_cancel now u r m :
  m !! u = Some r → negb (String.eqb (run_phase r) "cancelled") && terminalRunPhase (run_phase r) = false →
  runs_evolve m (alter (cancel_run now) u m).
Proof.
  intros Hr Hg. eapply runs_evolve_alter; [done| |].
  - split_and!; [done| |].
    + intros Ht. rewrite Ht, andb_true_r in Hg. apply negb_false_iff, String.eqb_eq in Hg. done.
    + intros _ [c Hc]. simpl. by rewrite Hc.
  - intros _. split; [|done]. intros _. simpl. destruct (run_completed r); eauto.
Qed.

(** The run table along one step: kept, or collected. *)
Definition runs_next (m m' : gmap string RunRow) : Prop :=
  ∀ u r, m !! u = Some r →
    (m' !! u = None ∧ terminalRunPhase (run_phase r) = true) ∨ ∃ r', m' !! u = Some r' ∧ run_le r r'.
#[local] Instance runs_next_refl : Reflexive runs_next.
Proof. intros m u r Hr. right. by exists r. Qed.
Lemma runs_next_evolve m m' : runs_ok m → runs_evolve m m' → runs_next m m' ∧ runs_ok m'.
Proof. intros H [Hk Ho]. split; [|auto]. intros u r Hr. right. by apply Hk. Qed.

(** Retention removes terminal rows and touches no other. *)
Definition runs_shrink (m m' : gmap string RunRow) : Prop :=
  m' ⊆ m ∧ ∀ u r, m !! u = Some r → m' !! u = None → terminalRunPhase (run_phase r) = true.
Lemma runs_shrink_delete m1 m2 u r :
  runs_shrink m1 m2 → m2 !! u = Some r → terminalRunPhase (run_phase r) = true → runs_shrink m1 (delete u m2).
Proof.
  intros [Hsub H] Hr Ht. split; [etrans; [apply delete_subseteq|done]|].
  intros u' r' Hr' Hn. destruct (decide (u' = u)) as [->|Hne].
  - pose proof (lookup_weaken _ _ _ _ Hr Hsub). by simplify_eq.
  - rewrite lookup_delete_ne in Hn by done. by eapply H.
Qed.
Lemma runs_next_shrink m m' : runs_ok m → runs_shrink m m' → runs_next m m' ∧ runs_ok m'.
Proof.
  intros H [Hsub Ht]. split.
  - intros u r Hr. destruct (m' !! u) as [r'|] eqn:E; [right|left; eauto].
    pose proof (lookup_weaken _ _ _ _ E Hsub). simplify_eq. by exists r.
  - intros u r Hr. apply (H u). by eapply lookup_weaken.
Qed.

Lemma runs_collected now rs s a s' :
  runs_ok (db_runs s) → collect_runs now rs s = inr (a, s') → runs_next (db_runs s) (db_runs s') ∧ runs_ok (db_runs s').
Proof.
  intros H Hop. apply runs_next_shrink; [done|]. revert Hop.
  apply (collect_runs_ind (λ s1, runs_shrink (db_runs s) (db_runs s1))).
  - intros run r s1 s2 H1 Hc. rewrite (cr_runs _ _ _ _ _ Hc).
    eapply runs_shrink_delete; [done|apply Hc|apply Hc].
  - split; [done|]. intros u r Hr Hn. congruence.
Qed.

Lemma runs_step s s' : runs_ok (db_runs s) → store_step s s' → runs_next (db_runs s) (db_runs s') ∧ runs_ok (db_runs s').
Proof.
  intros H Hstep. destruct Hstep; run_op Hop; try solve [split; [reflexivity|exact H]].
  all: try (eapply runs_collected; eassumption).
  all: apply runs_next_evolve; [exact H|].
  all: try (eapply runs_evolve_phase; eassumption).
  - (* EnsureRun *) apply runs_evolve_insert; [|by split; [|intros []]].
    by apply eq_None_not_Some, (bool_decide_eq_false _).
  - (* BeginNodeAttempt after a lost delivery *) etrans; eapply runs_evolve_phase; eassumption.
  - (* AppendPluginEvent *) eapply runs_evolve_alter; done.
  - (* RequestRunCancellation *) eapply runs_evolve_cancel; eassumption.
Qed.

Lemma runs_ok_reachable s : reachable s → runs_ok (db_runs s).
Proof.
  apply (reachable_ind (λ s, runs_ok (db_runs s))); [by intros u r ?|].
  intros ?? _ H Hstep. by apply (runs_step _ _ H Hstep).
Qed.
End Safety.
