(* ===== verification/StoreWatch.v ===== *)
(** The global revision and the watch log: the log replays to the resource
    table, so a client that lists and then follows the events holds the store's
    current resources.  Compare-and-swap, generations and keyset pagination. *)

From Stdlib Require String.
From S2P Require Import Prelude.
From S2P Require Import Json.
From S2P Require Import GoStd.
From S2P Require Import Resource.
From S2P Require Import Plan.
From S2P Require Import Db.
From S2P Require Import StoreRuns.
From S2P Require Import StoreResources.
From S2P Require Import StoreOutbox.
From S2P Require Import StorePlugins.
From S2P Require Import StoreStep.
From S2P Require Import StoreSafety.

Local Open Scope Z_scope.

(** What a watcher keeps: the documents by key. *)
Definition view := gmap resource_key Document.
Definition docs (s : Db) : view := rr_doc <$> db_resources s.
Definition event_key (e : ResourceEventRow) : resource_key := (re_kind e, re_namespace e, re_name e).
Definition observe (v : view) (e : ResourceEventRow) : view :=
  match re_doc e with Some d => <[event_key e := d]> v | None => delete (event_key e) v end.
Definition replay (v : view) (l : list ResourceEventRow) : view := fold_left observe l v.

(** The part of a view that the filters of a listing or a watch let through. *)
Definition let_through (kind namespace : string) (k : resource_key) : bool := matches kind k.1.1 && matches namespace k.1.2.
Definition within (kind namespace : string) (v : view) : view := filter (λ kd, let_through kind namespace kd.1 = true) v.
Lemma within_observe kind namespace v e : within kind namespace (observe v e) =
  if let_through kind namespace (event_key e) then observe (within kind namespace v) e else within kind namespace v.
Proof.
  unfold view in v. unfold within, observe, view. destruct (re_doc e) as [d|], (let_through kind namespace (event_key e)) eqn:E.
  - by apply map_filter_insert_True.
  - rewrite map_filter_insert_False by (cbn [fst]; congruence). rewrite map_filter_delete, delete_id; [done|].
    apply map_lookup_filter_None_2. right. cbn [fst]. congruence.
  - by rewrite map_filter_delete.
  - rewrite map_filter_delete, delete_id; [done|]. apply map_lookup_filter_None_2. right. cbn [fst]. congruence.
Qed.
Lemma replay_within kind namespace l : ∀ v,
  replay (within kind namespace v) (filter (λ e, let_through kind namespace (event_key e) = true) l) = within kind namespace (replay v l).
Proof.
  induction l as [|e l IH]; intros v; [done|]. unfold replay in *. cbn [fold_left]. rewrite <- IH, within_observe, filter_cons.
  destruct (let_through kind namespace (event_key e)); [by rewrite decide_True|by rewrite decide_False].
Qed.

Section Watch.
Context {cal : Calendar} {dig : Digest}.

(** From [s] to [s'] the log grew by [new], whose revisions are later. *)
Definition grew (s s' : Db) : Prop :=
  db_revision s ≤ db_revision s' ∧
  ∃ new, db_resource_events s' = db_resource_events s ++ new ∧
    Forall (λ e, db_revision s < re_revision e ≤ db_revision s') new ∧
    StronglySorted Z.lt (re_revision <$> new) ∧
    replay (docs s) new = docs s'.

Lemma grew_same s s' :
  db_revision s' = db_revision s → db_resource_events s' = db_resource_events s → db_resources s' = db_resources s → grew s s'.
Proof.
  intros Hr He Hd. split; [lia|]. exists []. rewrite app_nil_r. split_and!; [done|constructor|constructor|].
  unfold docs. by rewrite Hd.
Qed.
Lemma grew_one s s' e :
  db_revision s' = db_revision s + 1 → re_revision e = db_revision s + 1 →
  db_resource_events s' = db_resource_events s ++ [e] → docs s' = observe (docs s) e → grew s s'.
Proof.
  intros Hr He Hl Hd. split; [lia|]. exists [e]. split_and!; [done| |by repeat constructor|done].
  constructor; [lia|done].
Qed.
#[local] Instance grew_trans : Transitive grew.
Proof.
  intros s1 s2 s3 (H1&n1&E1&F1&S1&R1) (H2&n2&E2&F2&S2&R2). split; [lia|]. exists (n1 ++ n2). split_and!.
  - by rewrite E2, E1, app_assoc.
  - apply Forall_app. split; eapply Forall_impl; [exact F1| |exact F2|]; simpl; lia.
  - rewrite fmap_app. apply StronglySorted_app_2; [|done|done].
    intros i j Hi Hj. apply list_elem_of_fmap in Hi as (x&->&Hx). apply list_elem_of_fmap in Hj as (y&->&Hy).
    rewrite Forall_forall in F1, F2. specialize (F1 _ Hx). specialize (F2 _ Hy). simpl in *. lia.
  - unfold replay. rewrite fold_left_app. unfold replay in R1. rewrite R1. exact R2.
Qed.

Lemma docs_insert k r m : rr_doc <$> <[k := r]> m = <[k := rr_doc r]> (rr_doc <$> m : view).
Proof. apply fmap_insert. Qed.

Lemma grew_step s s' : store_step s s' → grew s s'.
Proof.
  intros Hstep. destruct Hstep; run_op Hop.
  all: try (by apply grew_same).
  all: try (eapply grew_one; [reflexivity| |reflexivity|]; [reflexivity|]; unfold docs; simpl).
  all: try (etrans; [apply fmap_insert|reflexivity]).
  all: try (etrans; [apply fmap_delete|reflexivity]).
  revert Hop. apply (collect_runs_ind (grew s)); [|by apply grew_same].
  intros run r s1 s2 H1 Hc. etrans; [done|].
  pose proof (cr_rest _ _ _ _ _ Hc) as Hr. by injection Hr as ??????????; apply grew_same.
Qed.

Lemma grew_rtc s s' : rtc store_step s s' → grew s s'.
Proof. induction 1 as [s|s s1 s2 H ? IH]; [by apply grew_same|]. etrans; [by apply grew_step|done]. Qed.

(** The log of a reachable store. *)
Lemma log_of_reachable s : reachable s →
  0 ≤ db_revision s ∧ Forall (λ e, 0 < re_revision e ≤ db_revision s) (db_resource_events s) ∧
  StronglySorted Z.lt (re_revision <$> db_resource_events s) ∧ replay ∅ (db_resource_events s) = docs s.
Proof.
  intros H. destruct (grew_rtc _ _ H) as (H1&new&H2&H3&H4&H5). simpl in *. subst new.
  split_and!; [lia|done|done|]. unfold docs in H5. simpl in H5. by rewrite fmap_empty in H5.
Qed.

(** A client that listed at [s] and reads the events after that revision in
    [s'], in one page, holds the resources of [s']. *)
Lemma list_then_watch kind namespace s s' limit events :
  reachable s → rtc store_step s s' →
  result (EventsAfter kind namespace (db_revision s) limit) s' = ok events →
  (length events < page_limit limit)%nat →
  replay (within kind namespace (docs s)) events = within kind namespace (docs s').
Proof.
  intros Hr Hs He Hlen. destruct (log_of_reachable _ Hr) as (_&Hold&_&_).
  destruct (grew_rtc _ _ Hs) as (_&new&Hl&Hnew&Hsort&Hrep).
  unfold result, EventsAfter, tx_get in He. injection He as <-.
  set (l := filter _ (db_resource_events s')) in *. set (m := filter (λ e, let_through kind namespace (event_key e) = true) new).
  assert (l = m) as ->.
  { unfold l, m. rewrite Hl, filter_app.
    assert (∀ k, Forall (λ e, re_revision e ≤ db_revision s) k →
      filter (λ e, db_revision s < re_revision e ∧ matches kind (re_kind e) && matches namespace (re_namespace e) = true) k = []) as H1.
    { induction 1 as [|e k Hk _ IH]; [done|]. rewrite filter_cons, IH. case_decide as Hd; [lia|done]. }
    assert (∀ k, Forall (λ e, db_revision s < re_revision e ≤ db_revision s') k →
      filter (λ e, db_revision s < re_revision e ∧ matches kind (re_kind e) && matches namespace (re_namespace e) = true) k =
      filter (λ e, let_through kind namespace (event_key e) = true) k) as H2.
    { induction 1 as [|e k Hk _ IH]; [done|]. rewrite !filter_cons, IH. unfold let_through, event_key. cbn [fst snd].
      repeat case_decide; [done|tauto| |done]. exfalso. unfold let_through in *. tauto || (match goal with H : ¬ _ |- _ => apply H; split; [lia|done] end). }
    rewrite H1, H2 by (eapply Forall_impl; [eassumption|]; simpl; lia). done. }
  assert (sort_by (onc re_revision Z.compare) m = m) as E.
  { apply sort_by_sorted_id; [apply _|]. apply StronglySorted_filter. clear -Hsort. induction new as [|e new IH]; [constructor|]. simpl in Hsort.
    apply StronglySorted_inv in Hsort as [Hs Hf]. constructor; [auto|]. by rewrite Forall_fmap in Hf. }
  rewrite E in *. rewrite length_take in Hlen. rewrite take_ge by lia. unfold m. by rewrite replay_within, Hrep.
Qed.
End Watch.
