(* ===== verification/StoreAttempts.v ===== *)
(** Node attempts and approvals: at most one open attempt per delivery, an
    immutable completion, and decisions that are taken once. *)

From Stdlib Require String.
From S2P Require Import Prelude.
From S2P Require Import Json.
From S2P Require Import GoStd.
From S2P Require Import Resource.
From S2P Require Import Plan.
From S2P Require Import Db.
From S2P Require Import StoreRuns.
From S2P Require Import StoreResources.
From S2P Require Import StoreOutbox.
From S2P Require Import StorePlugins.
From S2P Require Import StoreStep.
From S2P Require Import StoreSafety.

Local Open Scope Z_scope.

Section Attempts.
Context {cal : Calendar} {dig : Digest}.

(** ** Lookup of the latest delivery *)

Lemma max_z_le x l : x ∈ l → x ≤ max_z l.
Proof.
  unfold max_z. induction l as [|y l IH]; intros H; [by apply elem_of_nil in H|].
  simpl. apply elem_of_cons in H as [->|H]; [lia|]. specialize (IH H). lia.
Qed.
Lemma max_z_nonneg l : 0 ≤ max_z l.
Proof. unfold max_z. induction l; simpl; lia. Qed.

Lemma attempt_rows_spec r n i s k a :
  (k, a) ∈ attempt_rows r n i s ↔ db_attempts s !! k = Some a ∧ k.1 = (r, n, i).
Proof. unfold attempt_rows. rewrite list_elem_of_filter, elem_of_map_to_list. simpl. tauto. Qed.

Lemma next_attempt_fresh r n i s : db_attempts s !! (r, n, i, next_attempt r n i s) = None.
Proof.
  destruct (db_attempts s !! _) as [a|] eqn:E; [exfalso|done].
  assert (next_attempt r n i s ∈ (λ ka : attempt_key * AttemptRow, ka.1.2) <$> attempt_rows r n i s) as H.
  { apply list_elem_of_fmap. exists ((r, n, i, next_attempt r n i s), a). split; [done|]. by apply attempt_rows_spec. }
  apply max_z_le in H. unfold next_attempt in H. lia.
Qed.

Lemma latest_some r n i f s k a :
  nodeAttemptForFrameworkTx r n i f s = Some (k, a) →
  db_attempts s !! k = Some a ∧ k.1 = (r, n, i) ∧ at_framework a = f.
Proof.
  unfold nodeAttemptForFrameworkTx. intros H.
  assert ((k, a) ∈ filter (λ ka : attempt_key * AttemptRow, at_framework ka.2 = f) (attempt_rows r n i s)) as Hin.
  { rewrite <- (elem_of_sort_by (revc (onc (λ ka : attempt_key * AttemptRow, ka.1.2) Z.compare))).
    by apply head_Some_elem_of. }
  apply list_elem_of_filter in Hin as [Hf Hin]. apply attempt_rows_spec in Hin as [??]. done.
Qed.
Lemma latest_none r n i f s k a :
  nodeAttemptForFrameworkTx r n i f s = None → db_attempts s !! k = Some a → k.1 = (r, n, i) → at_framework a ≠ f.
Proof.
  unfold nodeAttemptForFrameworkTx. intros H Hk Hn Hf. apply head_None in H.
  assert ((k, a) ∈ filter (λ ka : attempt_key * AttemptRow, at_framework ka.2 = f) (attempt_rows r n i s)) as Hin.
  { apply list_elem_of_filter. split; [done|]. by apply attempt_rows_spec. }
  rewrite <- (elem_of_sort_by (revc (onc (λ ka : attempt_key * AttemptRow, ka.1.2) Z.compare))), H in Hin.
  by apply elem_of_nil in Hin.
Qed.

(** ** At most one open attempt *)

Abbreviation attempts := (gmap attempt_key AttemptRow).
Definition single_open (m : attempts) : Prop :=
  ∀ k1 k2 a1 a2, m !! k1 = Some a1 → m !! k2 = Some a2 → k1.1 = k2.1 → at_framework a1 = at_framework a2 →
    at_completed a1 = None → at_completed a2 = None → k1 = k2.

(** Rows of [m'] that are open come from rows of [m] that are. *)
Definition no_new_open (m m' : attempts) : Prop :=
  ∀ k a', m' !! k = Some a' → at_completed a' = None →
    ∃ a, m !! k = Some a ∧ at_completed a = None ∧ at_framework a = at_framework a'.
Lemma single_open_mono m m' : single_open m → no_new_open m m' → single_open m'.
Proof.
  intros H Hn k1 k2 a1 a2 H1 H2 Hk Hf Ho1 Ho2.
  destruct (Hn _ _ H1 Ho1) as (b1&?&?&?). destruct (Hn _ _ H2 Ho2) as (b2&?&?&?).
  eapply (H k1 k2 b1 b2); congruence.
Qed.
Lemma no_new_open_insert m k a a' :
  m !! k = Some a → (at_completed a' = None → at_completed a = None ∧ at_framework a = at_framework a') →
  no_new_open m (<[k := a']> m).
Proof.
  intros Hk Ha k' b. rewrite lookup_insert_Some. intros [[<- <-]|[_ ?]] Ho; [|eauto].
  exists a. split; [done|]. by apply Ha.
Qed.
Lemma no_new_open_sub m m' : m' ⊆ m → no_new_open m m'.
Proof. intros Hs k a Hk Ho. exists a. split; [by eapply lookup_weaken|done]. Qed.

(** A row opened where no attempt of the delivery is open. *)
Lemma single_open_insert m k a :
  single_open m → (∀ k' a', m !! k' = Some a' → k'.1 = k.1 → at_framework a' = at_framework a → at_completed a' ≠ None) →
  single_open (<[k := a]> m).
Proof.
  intros H Hn k1 k2 a1 a2. rewrite !lookup_insert_Some.
  intros [[<- <-]|[? H1]] [[<- <-]|[? H2]] Hk Hf Ho1 Ho2; [done| | |by eapply (H k1 k2)].
  - exfalso. by eapply (Hn k2).
  - exfalso. by eapply (Hn k1).
Qed.

Lemma alter_outcome_open o k m : no_new_open m (alter (set_outcome o) k m).
Proof.
  intros k' a'. rewrite lookup_alter. case_decide; [subst|eauto].
  intros (a&Ha&->)%fmap_Some. unfold set_outcome. case_match; simpl; eauto.
Qed.

Lemma delete_where_sub {K A} `{Countable K} (P : K → bool) (m : gmap K A) : delete_where P m ⊆ m.
Proof. apply map_filter_subseteq. Qed.

(** [BeginNodeAttempt] opens its row after closing the lost one, if any. *)
Lemma single_open_first r n i f s row :
  single_open (db_attempts s) → nodeAttemptForFrameworkTx r n i f s = None → at_framework row = f →
  single_open (<[(r, n, i, next_attempt r n i s) := row]> (db_attempts s)).
Proof.
  intros H Hl Hf. apply single_open_insert; [done|]. intros k' a' Hk' Hk Hfa. exfalso.
  eapply latest_none; [done|exact Hk'|done|congruence].
Qed.
Lemma single_open_lost r n i f s k a lost row next :
  single_open (db_attempts s) → nodeAttemptForFrameworkTx r n i f s = Some (k, a) →
  at_completed a = None → at_completed lost ≠ None → at_framework row = f → next.1 = (r, n, i) →
  single_open (<[next := row]> (<[k := lost]> (db_attempts s))).
Proof.
  intros H Hl Ha Hlost Hf Hnext. apply latest_some in Hl as (Hk&Hk1&Hfk). apply single_open_insert.
  - eapply single_open_mono; [exact H|]. by eapply no_new_open_insert.
  - intros k' a'. rewrite lookup_insert_Some. intros [[<- <-]|[Hne Hk']] Hkk Hff; [done|].
    intros Ho. apply Hne. eapply (H k k' a a'); congruence.
Qed.

Lemma single_open_step s s' : single_open (db_attempts s) → store_step s s' → single_open (db_attempts s').
Proof.
  intros H Hstep. destruct Hstep; run_op Hop; try untouched H.
  all: try (eapply single_open_mono; [exact H|eapply no_new_open_insert; [eassumption|done]]).
  all: try solve [refine (single_open_first _ _ _ _ s _ H _ _); [eassumption|reflexivity]].
  all: try solve [refine (single_open_lost _ _ _ _ s _ _ _ _ _ H _ _ _ _ _); [eassumption|eassumption|done|reflexivity|reflexivity]].
  - (* SetNodeAttemptOutcome *) eapply single_open_mono; [exact H|apply alter_outcome_open].
  - (* CollectRetainedRuns *) revert Hop. apply (collect_runs_ind (λ s, single_open (db_attempts s))); [|done].
    intros run r s1 s2 H1 Hc. rewrite (cr_attempts _ _ _ _ _ Hc).
    eapply single_open_mono; [exact H1|]. apply no_new_open_sub, delete_where_sub.
Qed.
Lemma single_open_reachable s : reachable s → single_open (db_attempts s).
Proof.
  apply (reachable_ind (λ s, single_open (db_attempts s))); [by intros k1 k2 ??|intros ?? _; apply single_open_step].
Qed.

(** ** A completed attempt is evidence *)

Definition attempt_result (a : AttemptRow) : Z * string * string * string * option string * string * string * option string :=
  (at_framework a, at_phase a, at_key a, at_input a, at_output a, at_error a, at_started a, at_completed a).
(** A completed row keeps its result; the exit outcome is written once. *)
Definition attempt_le (a a' : AttemptRow) : Prop :=
  (is_Some (at_completed a) → attempt_result a' = attempt_result a) ∧
  (at_outcome a ≠ "" → is_Some (at_completed a) → at_outcome a' = at_outcome a).
Definition attempts_kept (m m' : attempts) : Prop :=
  ∀ k a a', m !! k = Some a → m' !! k = Some a' → attempt_le a a'.

Lemma attempts_kept_insert m k a a' : m !! k = Some a → at_completed a = None → attempts_kept m (<[k := a']> m).
Proof.
  intros Hk Ho k' b b' Hb. rewrite lookup_insert_Some. intros [[<- <-]|[_ Hb']].
  - simplify_eq. split; intros; rewrite Ho in *; by destruct (is_Some_None (A:=string)).
  - simplify_eq. by split.
Qed.
Lemma attempts_kept_new m k a : m !! k = None → attempts_kept m (<[k := a]> m).
Proof. intros Hk k' b b' Hb. rewrite lookup_insert_ne by congruence. intros. simplify_eq. by split. Qed.
Lemma attempts_kept_lost m k k' a lost row :
  m !! k = Some a → at_completed a = None → m !! k' = None → attempts_kept m (<[k' := row]> (<[k := lost]> m)).
Proof.
  intros Hk Ho Hn j b b' Hb. rewrite lookup_insert_ne by congruence. by eapply attempts_kept_insert.
Qed.
Lemma attempts_kept_outcome o k m : attempts_kept m (alter (set_outcome o) k m).
Proof.
  intros j a a' Ha. rewrite lookup_alter. case_decide; [subst|intros; simplify_eq; by split].
  rewrite Ha. simpl. intros [= <-]. unfold set_outcome. destruct (String.eqb_spec (at_outcome a) ""); by split.
Qed.
Lemma attempts_kept_sub m m' : m' ⊆ m → attempts_kept m m'.
Proof. intros Hs k a a' Ha Ha'. pose proof (lookup_weaken _ _ _ _ Ha' Hs). simplify_eq. by split. Qed.

Lemma next_attempt_fresh_after r n i s k a lost s1 :
  db_attempts s !! k = Some a → k.1 = (r, n, i) → db_attempts s1 = <[k := lost]> (db_attempts s) →
  db_attempts s !! (r, n, i, next_attempt r n i s1) = None.
Proof.
  intros Hk Hk1 Hs. pose proof (next_attempt_fresh r n i s1) as Hf. rewrite Hs in Hf.
  by apply lookup_insert_None in Hf as [? _].
Qed.

Lemma attempts_step s s' : store_step s s' → attempts_kept (db_attempts s) (db_attempts s').
Proof.
  intros Hstep. destruct Hstep; run_op Hop; try solve [by apply attempts_kept_sub].
  all: try (by eapply attempts_kept_insert).
  all: try solve [refine (attempts_kept_new (db_attempts s) _ _ _); apply next_attempt_fresh].
  all: try solve [match goal with Hl : nodeAttemptForFrameworkTx _ _ _ _ _ = Some _ |- _ =>
      apply latest_some in Hl as (?&?&?);
      refine (attempts_kept_lost (db_attempts s) _ _ _ _ _ _ _ _);
      [eassumption|assumption|eapply next_attempt_fresh_after; [eassumption|eassumption|reflexivity]] end].
  - (* SetNodeAttemptOutcome *) apply attempts_kept_outcome.
  - (* CollectRetainedRuns *) apply attempts_kept_sub. revert Hop.
    apply (collect_runs_ind (λ s1, db_attempts s1 ⊆ db_attempts s)); [|done].
    intros run r s1 s2 H1 Hc. rewrite (cr_attempts _ _ _ _ _ Hc). etrans; [apply delete_where_sub|done].
Qed.

(** ** Approvals *)

Definition decided (a : ApprovalRow) : bool := negb (String.eqb (ap_state a) "pending").
Definition decision (a : ApprovalRow) : string * string * string * option string * option string :=
  (ap_state a, ap_actor a, ap_reason a, ap_expires a, ap_decided a).
Definition approvals_kept (m m' : gmap (string * string) ApprovalRow) : Prop :=
  ∀ k a a', m !! k = Some a → m' !! k = Some a' →
    (decided a = true → decision a' = decision a ∧ (ap_delivered a = true → ap_delivered a' = true)) ∧
    ap_expires a' = ap_expires a.

Lemma approvals_kept_sub m m' : m' ⊆ m → approvals_kept m m'.
Proof. intros Hs k a a' Ha Ha'. pose proof (lookup_weaken _ _ _ _ Ha' Hs). simplify_eq. by split. Qed.

Lemma approvals_step s s' : store_step s s' → approvals_kept (db_approvals s) (db_approvals s').
Proof.
  intros Hstep. destruct Hstep; run_op Hop; try solve [by apply approvals_kept_sub].
  - (* EnsureApproval *) intros k b b' Hb Hb'. simpl in Hb'. rewrite lookup_insert_ne in Hb' by congruence.
    simplify_eq. by split.
  - (* DecideApproval *) intros k b b' Hb. simpl. rewrite lookup_insert_Some. intros [[<- <-]|[_ Hb']]; simplify_eq; [|by split].
    split; [|done]. unfold decided. by rewrite Heqb.
  - (* MarkApprovalSignaled *) intros k b b' Hb. simpl. rewrite lookup_alter.
    case_decide; [subst|intros; simplify_eq; by split]. rewrite Hb. simpl. intros [= <-].
    unfold mark_signaled, decided. by destruct (String.eqb (ap_state b) "pending").
  - (* CollectRetainedRuns *) apply approvals_kept_sub. revert Hop.
    apply (collect_runs_ind (λ s1, db_approvals s1 ⊆ db_approvals s)); [|done].
    intros run r s1 s2 H1 Hc. rewrite (cr_approvals _ _ _ _ _ Hc). etrans; [apply delete_where_sub|done].
Qed.
End Attempts.

(** * Durable deliveries: once the latest attempt of a delivery (run, node,
       iteration, framework attempt) is complete, no operation of the store opens
       another one or changes its result while the run is retained. *)

(** ** The latest attempt is the newest *)

Lemma latest_max r n i f s k a k' a' :
  nodeAttemptForFrameworkTx r n i f s = Some (k, a) →
  db_attempts s !! k' = Some a' → k'.1 = (r, n, i) → at_framework a' = f → k'.2 ≤ k.2.
Proof.
  unfold nodeAttemptForFrameworkTx. set (c := revc (onc (λ ka : attempt_key * AttemptRow, ka.1.2) Z.compare)).
  set (l := filter _ _). intros H Hk Hk1 Hf.
  assert ((k', a') ∈ sort_by c l) as Hin.
  { unfold l, c. rewrite elem_of_sort_by by apply _. rewrite list_elem_of_filter, attempt_rows_spec. done. }
  pose proof (sort_by_sorted c l) as Hs. destruct (sort_by c l) as [|x rest]; [done|]. injection H as ->.
  apply elem_of_cons in Hin as [Hin|Hin]; [by simplify_eq|].
  apply StronglySorted_inv in Hs as [_ Hs]. rewrite Forall_forall in Hs. exact (Hs _ Hin).
Qed.

Lemma latest_is_max r n i f s k a :
  db_attempts s !! k = Some a → k.1 = (r, n, i) → at_framework a = f →
  (∀ k' a', db_attempts s !! k' = Some a' → k'.1 = k.1 → at_framework a' = f → k'.2 ≤ k.2) →
  nodeAttemptForFrameworkTx r n i f s = Some (k, a).
Proof.
  intros Hk Hk1 Hf Hmax. destruct (nodeAttemptForFrameworkTx r n i f s) as [[k' a']|] eqn:E.
  - pose proof (latest_max _ _ _ _ _ _ _ _ _ E Hk Hk1 Hf) as Hle.
    apply latest_some in E as (Hk'&Hk1'&Hf'). pose proof (Hmax _ _ Hk' ltac:(congruence) Hf') as Hge.
    assert (k = k') as ->; [|congruence]. destruct k, k'. simpl in *. f_equal; [congruence|lia].
  - by destruct (latest_none _ _ _ _ _ _ _ E Hk Hk1).
Qed.

Section Deliveries.
Context {cal : Calendar} {dig : Digest}.

(** A row of [s'] is a row of [s], or was opened for a delivery that had no
    complete attempt. *)
Definition opened_properly (s s' : Db) : Prop :=
  ∀ k a', db_attempts s' !! k = Some a' →
    (∃ a, db_attempts s !! k = Some a ∧ at_framework a = at_framework a') ∨
    ∀ x, nodeAttemptForFrameworkTx k.1.1.1 k.1.1.2 k.1.2 (at_framework a') s = Some x → at_completed x.2 = None.

Lemma opened_sub s s' : db_attempts s' ⊆ db_attempts s → opened_properly s s'.
Proof. intros H k a Hk. left. exists a. split; [by eapply lookup_weaken|done]. Qed.
Lemma opened_update s s' k a a' :
  db_attempts s !! k = Some a → at_framework a' = at_framework a → db_attempts s' = <[k := a']> (db_attempts s) →
  opened_properly s s'.
Proof.
  intros Hk Hf E j b. rewrite E, lookup_insert_Some. intros [[<- <-]|[_ Hj]]; left; eauto.
Qed.
Lemma opened_first r n i f s s' row at_ :
  nodeAttemptForFrameworkTx r n i f s = None → at_framework row = f →
  db_attempts s' = <[(r, n, i, at_) := row]> (db_attempts s) → opened_properly s s'.
Proof.
  intros Hl Hf E j b. rewrite E, lookup_insert_Some. intros [[<- <-]|[_ Hj]]; [right|left; eauto].
  simpl. rewrite Hf, Hl. done.
Qed.
Lemma opened_lost r n i f s s' k a lost row at_ :
  nodeAttemptForFrameworkTx r n i f s = Some (k, a) → at_completed a = None →
  at_framework lost = at_framework a → at_framework row = f →
  db_attempts s' = <[(r, n, i, at_) := row]> (<[k := lost]> (db_attempts s)) → opened_properly s s'.
Proof.
  intros Hl Ha Hlf Hf E j b. rewrite E, !lookup_insert_Some.
  intros [[<- <-]|[_ [[<- <-]|[_ Hj]]]]; [right|left|left; eauto].
  - simpl. rewrite Hf, Hl. by intros x [= <-].
  - apply latest_some in Hl as (?&_). eauto.
Qed.
Lemma opened_outcome s s' o k : db_attempts s' = alter (set_outcome o) k (db_attempts s) → opened_properly s s'.
Proof.
  intros E j b. rewrite E, lookup_alter. case_decide; [subst|left; eauto].
  intros (a&Ha&->)%fmap_Some. left. exists a. split; [done|]. unfold set_outcome. by destruct (String.eqb _ _).
Qed.

Lemma opened_step s s' : store_step s s' → opened_properly s s'.
Proof.
  intros Hstep. destruct Hstep; run_op Hop; try solve [by apply opened_sub].
  all: try solve [eapply opened_update; [eassumption| |reflexivity]; reflexivity].
  all: try solve [eapply opened_first; [eassumption| |reflexivity]; reflexivity].
  all: try solve [eapply opened_lost; [eassumption|eassumption| | |reflexivity]; reflexivity].
  - (* SetNodeAttemptOutcome *) by eapply opened_outcome.
  - (* CollectRetainedRuns *) apply opened_sub. revert Hop.
    apply (collect_runs_ind (λ s1, db_attempts s1 ⊆ db_attempts s)); [|done].
    intros run r s1 s2 H1 Hc. rewrite (cr_attempts _ _ _ _ _ Hc). etrans; [apply delete_where_sub|done].
Qed.

(** Attempts go only with their run. *)
Definition attempts_retained (s s' : Db) : Prop :=
  ∀ k, is_Some (db_attempts s !! k) → is_Some (db_runs s' !! k.1.1.1) → is_Some (db_attempts s' !! k).

Lemma retained_insert (m : gmap attempt_key AttemptRow) k a j : is_Some (m !! j) → is_Some (<[k := a]> m !! j).
Proof. intros H. destruct (decide (k = j)) as [->|]; [by rewrite lookup_insert_eq|by rewrite lookup_insert_ne]. Qed.
Lemma retained_step s s' : store_step s s' → attempts_retained s s'.
Proof.
  intros Hstep. destruct Hstep; run_op Hop; intros j Hj Hr; try exact Hj.
  all: try solve [by repeat apply retained_insert].
  - (* SetNodeAttemptOutcome *) simpl. rewrite lookup_alter. case_decide; [subst; by apply fmap_is_Some|done].
  - (* CollectRetainedRuns *)
    enough (is_Some (db_runs s' !! j.1.1.1) → is_Some (db_attempts s' !! j)) by auto. clear Hr.
    revert Hop. apply (collect_runs_ind (λ s1, is_Some (db_runs s1 !! j.1.1.1) → is_Some (db_attempts s1 !! j))); [|done].
    intros run r s1 s2 H1 Hc. rewrite (cr_runs _ _ _ _ _ Hc), (cr_attempts _ _ _ _ _ Hc).
    intros [r' [Hne Hr]%lookup_delete_Some]. destruct (H1 (ex_intro _ r' Hr)) as [row Ha]. exists row.
    unfold delete_where. apply map_lookup_filter_Some. split; [done|]. simpl.
    destruct (String.eqb_spec j.1.1.1 run); [by subst|done].
Qed.

(** ** Stability *)

(** The history of a retained run. *)
Definition retaining (run : string) (s s' : Db) : Prop := store_step s s' ∧ is_Some (db_runs s' !! run).

Lemma delivery_step r n i f s s' k a :
  retaining r s s' → nodeAttemptForFrameworkTx r n i f s = Some (k, a) → is_Some (at_completed a) →
  ∃ a', nodeAttemptForFrameworkTx r n i f s' = Some (k, a') ∧ attempt_result a' = attempt_result a.
Proof.
  intros [Hstep Hrun] Hl Hc. pose proof (latest_some _ _ _ _ _ _ _ Hl) as (Hk&Hk1&Hf).
  destruct (retained_step _ _ Hstep k) as [a' Ha']; [eauto|by rewrite Hk1|].
  destruct (attempts_step _ _ Hstep _ _ _ Hk Ha') as [Hres _]. specialize (Hres Hc).
  exists a'. split; [|done]. apply latest_is_max; [done|done|unfold attempt_result in Hres; congruence|].
  intros j b Hj Hj1 Hb. destruct (opened_step _ _ Hstep _ _ Hj) as [(b0&Hb0&Hf0)|Hopen].
  - eapply latest_max; [exact Hl|exact Hb0|congruence|congruence].
  - rewrite Hj1, Hk1, Hb in Hopen. simpl in Hopen. specialize (Hopen _ Hl). simpl in Hopen.
    rewrite Hopen in Hc. by destruct (is_Some_None (A:=string)).
Qed.

Lemma delivery_stable r n i f s s' k a :
  rtc (retaining r) s s' → nodeAttemptForFrameworkTx r n i f s = Some (k, a) → is_Some (at_completed a) →
  ∃ a', nodeAttemptForFrameworkTx r n i f s' = Some (k, a') ∧ attempt_result a' = attempt_result a.
Proof.
  intros H. revert a. induction H as [s|s s1 s' Hs _ IH]; intros a Hl Hc; [by exists a|].
  destruct (delivery_step _ _ _ _ _ _ _ _ Hs Hl Hc) as (a1&Hl1&E1).
  destruct (IH a1 Hl1) as (a'&Hl'&E'); [by unfold attempt_result in E1; simplify_eq; congruence|].
  exists a'. split; [done|congruence].
Qed.
End Deliveries.
