(* ===== verification/StoreOps.v ===== *)
(** What single operations do: compare-and-swap apply, the status projection,
    artifact path confinement and keyset pagination. *)

From Stdlib Require Import Ascii.
From Stdlib Require String.
From S2P Require Import Prelude.
From S2P Require Import Json.
From S2P Require Import GoStd.
From S2P Require Import JsonPlain.
From S2P Require Import Resource.
From S2P Require Import Plan.
From S2P Require Import Db.
From S2P Require Import StoreRuns.
From S2P Require Import StoreResources.
From S2P Require Import StoreOutbox.
From S2P Require Import StorePlugins.
From S2P Require Import StoreStep.
From S2P Require Import StoreSafety.
From S2P Require Import StoreWatch.

Local Open Scope Z_scope.

Section Resources.
Context {cal : Calendar} {dig : Digest}.

(** ** Compare and swap *)

Definition document_key (d : Document) : resource_key := (doc_kind d, m_namespace (doc_meta d), m_name (doc_meta d)).
Definition expected_version (d : Document) (o : ApplyOptions) : Z :=
  if ao_expected o =? 0 then m_resourceVersion (doc_meta d) else ao_expected o.
Definition current_version (k : resource_key) (s : Db) : Z := from_option rr_version 0 (db_resources s !! k).

Lemma apply_conflict d o u rq t s :
  current_version (document_key d) s ≠ expected_version d o →
  Apply d o u rq t s = inl (ErrConflict (expected_version d o) (current_version (document_key d) s)).
Proof.
  unfold current_version, expected_version. intros H. unfold Apply, mbind, tx_bind, tx_get. simpl.
  change (doc_kind (WithServerStatus [] d), m_namespace (doc_meta d), m_name (doc_meta d)) with (document_key d).
  destruct (db_resources s !! document_key d) as [r|]; simpl in *; unfold tx_guard.
  - by rewrite (proj2 (Z.eqb_neq _ (rr_version r))) by (intros E; apply H; by rewrite <- E).
  - by rewrite (proj2 (Z.eqb_neq _ 0)) by (intros E; apply H; by rewrite <- E).
Qed.

Record applied (d : Document) (o : ApplyOptions) (u : string) (s : Db) (d' : Document) (s' : Db) : Prop := mkApplied {
  ap_expected : current_version (document_key d) s = expected_version d o;
  ap_revision : db_revision s' = db_revision s + 1;
  ap_spec : doc_spec d' = doc_spec d;
  ap_row : ∃ row, db_resources s' = <[document_key d := row]> (db_resources s) ∧
    rr_doc row = d' ∧ rr_version row = db_revision s + 1 ∧ rr_labels row = m_labels (doc_meta d) ∧
    match db_resources s !! document_key d with
    | Some r => rr_uid row = rr_uid r ∧ rr_status row = rr_status r ∧ rr_created row = rr_created r ∧
        ∃ current, DecodeStrict (rr_doc r) = inr current ∧
          rr_generation row = if decide (doc_spec current = doc_spec d) then rr_generation r else u64 (rr_generation r + 1)
    | None => rr_uid row = u ∧ rr_status row = [] ∧ rr_generation row = 1
    end }.

Lemma apply_applied d opts u rq t s d' s' : Apply d opts u rq t s = inr (d', s') → applied d opts u s d' s'.
Proof.
  intros Hop. unfold Apply in Hop. cbv zeta in Hop.
  apply tx_bind_inv in Hop as (c&s1&H1&Hop). apply tx_get_inv in H1 as [Hc ->].
  change (c = db_resources s !! document_key d) in Hc. symmetry in Hc.
  apply tx_bind_inv in Hop as ([]&s1&H1&Hop).
  assert (current_version (document_key d) s = expected_version d opts ∧ s1 = s) as [He ->].
  { unfold current_version, expected_version. rewrite Hc. destruct c; apply tx_guard_inv in H1 as [?%Z.eqb_eq ->]; by split. }
  clear H1. destruct c as [r|]; run_op Hop.
  all: split; [exact He|reflexivity|reflexivity|]; eexists; split; [reflexivity|]; rewrite Hc; split_and!; try reflexivity.
  all: eexists; split; [eassumption|reflexivity].
Qed.

(** ** Versions never exceed the revision *)

Definition versions_ok (s : Db) : Prop := map_Forall (λ _ r, 0 < rr_version r ≤ db_revision s) (db_resources s).

Lemma versions_put s s' k row :
  0 ≤ db_revision s → versions_ok s → db_revision s' = db_revision s + 1 → rr_version row = db_revision s + 1 →
  db_resources s' = <[k := row]> (db_resources s) → versions_ok s'.
Proof.
  intros Hr H E1 E2 E3 k' r'. rewrite E3, E1, lookup_insert_Some. intros [[_ <-]|[_ Hk]]; [lia|].
  specialize (H _ _ Hk). simpl in H. lia.
Qed.

Lemma versions_delete s s' k :
  versions_ok s → db_revision s' = db_revision s + 1 → db_resources s' = delete k (db_resources s) → versions_ok s'.
Proof.
  intros H E1 E2 k' r'. rewrite E1, E2, lookup_delete_Some. intros [_ Hk]. specialize (H _ _ Hk). simpl in H. lia.
Qed.

Lemma versions_step s s' : 0 ≤ db_revision s → versions_ok s → store_step s s' → versions_ok s'.
Proof.
  intros Hr H Hstep. destruct Hstep.
  1: { destruct (ap_row _ _ _ _ _ _ (apply_applied _ _ _ _ _ _ _ _ Hop)) as (row&Hrow&_&Hv&_).
       eapply versions_put; [done|done|apply (apply_applied _ _ _ _ _ _ _ _ Hop)|done|done]. }
  all: run_op Hop; try untouched H.
  - (* UpdateResourceStatus *) eapply (versions_put s); [done|done|reflexivity| |reflexivity]. reflexivity.
  - (* Delete *) eapply (versions_delete s); [exact H|reflexivity|reflexivity].
  - (* Delete *) eapply (versions_delete s); [exact H|reflexivity|reflexivity].
  - (* CollectRetainedRuns *) revert Hop. apply (collect_runs_ind versions_ok); [|done].
    intros run r s1 s2 H1 Hc. pose proof (cr_rest _ _ _ _ _ Hc) as E. injection E as Er Es _ _ _ _ _ _ _ _.
    unfold versions_ok. by rewrite Er, Es.
Qed.

Lemma versions_reachable s : reachable s → 0 ≤ db_revision s ∧ versions_ok s.
Proof.
  apply (reachable_ind (λ s, 0 ≤ db_revision s ∧ versions_ok s)); [by split; [|intros ??]|].
  intros s1 s2 _ [H1 H2] Hs. split; [|by eapply versions_step].
  pose proof (grew_step _ _ Hs) as [Hrev _]. lia.
Qed.

(** Of two writers that read the same version one loses. *)
Lemma apply_race d1 o1 u1 q1 t1 d2 o2 u2 q2 t2 s r s' :
  reachable s → Apply d1 o1 u1 q1 t1 s = inr (r, s') →
  document_key d2 = document_key d1 → expected_version d2 o2 = expected_version d1 o1 →
  Apply d2 o2 u2 q2 t2 s' = inl (ErrConflict (expected_version d2 o2) (db_revision s + 1)).
Proof.
  intros Hr Ha Hk He. destruct (versions_reachable _ Hr) as [Hpos Hv].
  destruct (apply_applied _ _ _ _ _ _ _ _ Ha) as [Hexp _ _ (row&Hrow&_&Hver&_)].
  assert (current_version (document_key d2) s' = db_revision s + 1) as Hc.
  { unfold current_version. rewrite Hk, Hrow, lookup_insert_eq. done. }
  rewrite <- Hc. apply apply_conflict. rewrite Hc, He, <- Hexp. unfold current_version.
  destruct (db_resources s !! document_key d1) as [r0|] eqn:E; simpl; [|lia]. specialize (Hv _ _ E). simpl in Hv. lia.
Qed.
End Resources.

(** ** Artifact paths *)

Section Paths.
Definition no_slash (p : string) : Prop := "/"%char ∉ explode p.
(** A path component that names something below its parent. *)
Definition ordinary (p : string) : Prop := p ≠ "" ∧ p ≠ "." ∧ p ≠ ".." ∧ no_slash p.

Lemma split_on_no_slash p : Forall no_slash (split_on "/"%char p).
Proof.
  unfold no_slash. induction p as [|c p IH]; simpl; [constructor; [apply not_elem_of_nil|done]|].
  destruct (Ascii.eqb_spec c "/"%char).
  - constructor; [apply not_elem_of_nil|done].
  - destruct (split_on _ p) as [|x l]; inversion_clear IH; constructor; try done;
      unfold explode in *; simpl; rewrite not_elem_of_cons; split; try done; apply not_elem_of_nil.
Qed.

(** The stack of [clean_parts]: names over leading ["../"]s. *)
Lemma clean_parts_shape parts : ∀ names n,
  Forall no_slash parts → Forall ordinary names →
  ∃ names' n', clean_parts false parts (names ++ replicate n "..") = replicate n' ".." ++ names' ∧ Forall ordinary names'.
Proof.
  induction parts as [|p parts IH]; intros names n Hp Hn; simpl.
  { exists (rev names), n. rewrite rev_app_distr. split; [|by apply Forall_rev]. f_equal.
    clear. induction n as [|n IH]; [done|]. simpl. rewrite IH. by rewrite <- replicate_cons_app. }
  apply Forall_cons in Hp as [Hp Hparts].
  destruct (String.eqb_spec p ""); simpl; [by apply IH|]. destruct (String.eqb_spec p "."); simpl; [by apply IH|].
  destruct (String.eqb_spec p "..") as [->|].
  - destruct names as [|x names]; simpl.
    + destruct n as [|n]; simpl; [apply (IH [] 1%nat); done|apply (IH [] (S (S n))); done].
    + apply Forall_cons in Hn as [(Hx1&Hx2&Hx3&Hx4) Hn]. destruct (String.eqb_spec x ".."); [done|]. by apply IH.
  - apply (IH (p :: names)); [done|]. by constructor.
Qed.

Lemma join_cons_prefix x l : l ≠ [] → join "/" (x :: l) = x +:+ "/" +:+ join "/" l.
Proof. by destruct l. Qed.
(** A relative cleaned path that does not step out has only ordinary parts. *)
Lemma path_clean_inside p :
  path_is_abs (path_clean p) || String.eqb (path_clean p) "." || String.eqb (path_clean p) ".." || has_prefix (path_clean p) "../" = false →
  ∃ parts, parts ≠ [] ∧ path_clean p = join "/" parts ∧ Forall ordinary parts.
Proof.
  unfold path_clean. intros H. destruct (path_is_abs p); [done|].
  destruct (clean_parts_shape (split_on "/"%char p) [] 0 (split_on_no_slash p) (Forall_nil_2 _)) as (names&n&E&Hn).
  simpl in E. rewrite E in *. destruct n as [|n].
  - simpl in *. destruct names as [|x names]; [done|]. exists (x :: names). done.
  - exfalso. revert H. change (replicate (S n) ".." ++ names) with (".." :: (replicate n ".." ++ names)).
    set (l := replicate n ".." ++ names). cbv match.
    destruct (decide (l = [])) as [->|Hl]; [done|]. rewrite join_cons_prefix by done.
    rewrite !orb_false_iff. intros [_ H]. revert H. unfold has_prefix.
    change (".." +:+ "/" +:+ join "/" l) with ("../" +:+ join "/" l). by rewrite strip_prefix_app.
Qed.

Lemma not_abs_join x l : x ≠ "" → no_slash x → path_is_abs (join "/" (x :: l)) = false.
Proof.
  intros Hx Hs. destruct x as [|c x]; [done|]. unfold no_slash, explode in Hs. simpl in Hs. rewrite not_elem_of_cons in Hs. destruct Hs as [Hc _].
  assert (∀ y, path_is_abs (String c y) = false) as Habs.
  { intros y. unfold path_is_abs, has_prefix. cbn [strip_prefix]. by rewrite (proj2 (Ascii.eqb_neq "/"%char c)). }
  destruct l; apply Habs.
Qed.
Lemma split_join parts : parts ≠ [] → Forall no_slash parts → split_on "/"%char (join "/" parts) = parts.
Proof.
  induction parts as [|x parts IH]; [done|]. intros _ H. apply Forall_cons in H as [Hx Hp].
  assert (∀ rest l, split_on "/"%char rest = l → l ≠ [] → ∀ y, no_slash y → split_on "/"%char (y +:+ rest) = match l with [] => [y] | z :: l => (y +:+ z) :: l end) as Happ.
  { intros rest l Hr Hl. induction y as [|c y IHy]; intros Hy; [change ("" +:+ rest) with rest; rewrite Hr; by destruct l|].
    unfold no_slash, explode in Hy. simpl in Hy. rewrite not_elem_of_cons in Hy. destruct Hy as [Hc Hy]. change (String c y +:+ rest) with (String c (y +:+ rest)).
    cbn [split_on]. destruct (Ascii.eqb_spec c "/"%char); [congruence|]. rewrite IHy by done. by destruct l. }
  destruct parts as [|z parts].
  - simpl. rewrite <- (append_nil x) at 1. erewrite Happ; [|reflexivity|done|done]. simpl. by rewrite append_nil.
  - change (join "/" (x :: z :: parts)) with (x +:+ String "/"%char (join "/" (z :: parts))).
    specialize (IH ltac:(done) Hp). set (j := join "/" (z :: parts)) in *. clearbody j.
    assert (split_on "/"%char (String "/"%char j) = "" :: z :: parts) as Hj by (simpl; by rewrite IH).
    rewrite (Happ _ _ Hj) by done. by rewrite append_nil.
Qed.
Lemma clean_ordinary rooted parts : ∀ stack, Forall ordinary parts → clean_parts rooted parts stack = rev stack ++ parts.
Proof.
  induction parts as [|p parts IH]; intros stack H; simpl; [by rewrite app_nil_r|]. apply Forall_cons in H as [(H1&H2&H3&_) Hp].
  rewrite (proj2 (String.eqb_neq _ _) H1), (proj2 (String.eqb_neq _ _) H2), (proj2 (String.eqb_neq _ _) H3). simpl. rewrite IH by done. simpl. by rewrite <- app_assoc.
Qed.
(** A path of ordinary components is clean, relative and stays inside. *)
Lemma join_inside parts : parts ≠ [] → Forall ordinary parts →
  path_is_abs (join "/" parts) = false ∧ path_clean (join "/" parts) = join "/" parts ∧ String.eqb (join "/" parts) "" = false ∧
  String.eqb (join "/" parts) "." || String.eqb (join "/" parts) ".." || has_prefix (join "/" parts) "../" = false.
Proof.
  intros Hne Ho. destruct parts as [|x parts]; [done|]. pose proof Ho as Ho'. apply Forall_cons in Ho' as [(Hx&Hd&Hdd&Hs) Hp].
  assert (Ha : path_is_abs (join "/" (x :: parts)) = false) by by apply not_abs_join.
  assert (Hc : path_clean (join "/" (x :: parts)) = join "/" (x :: parts)).
  { unfold path_clean. rewrite Ha, split_join; [|done|]. 2: { eapply Forall_impl; [exact Ho|]. by intros y (_&_&_&?). }
    by rewrite clean_ordinary. }
  assert (Hx0 : String.eqb (join "/" (x :: parts)) "" = false). { apply String.eqb_neq. destruct x; [done|]. by destruct parts. }
  split_and!; [done|done|done|].
  destruct parts as [|y parts].
  - cbn [join]. rewrite (proj2 (String.eqb_neq _ _) Hd), (proj2 (String.eqb_neq _ _) Hdd). simpl.
    destruct (has_prefix x "../") eqn:Hpre; [|done]. exfalso. unfold has_prefix in Hpre. destruct (strip_prefix "../" x) as [r|] eqn:Er; [|done].
    apply strip_prefix_some in Er as ->. apply Hs. unfold explode. simpl. set_solver.
  - set (rest := join "/" (y :: parts)). change (join "/" (x :: y :: parts)) with (x +:+ String "/"%char rest).
    assert (∀ z, no_slash z → x ≠ z → x +:+ String "/"%char rest ≠ z) as Hz.
    { intros z Hz _ E. apply Hz. rewrite <- E. clear. unfold explode. induction x as [|c x IH]; simpl; set_solver. }
    rewrite (proj2 (String.eqb_neq (x +:+ String "/"%char rest) ".")) by (apply Hz; [unfold no_slash, explode; simpl; set_solver|done]).
    rewrite (proj2 (String.eqb_neq (x +:+ String "/"%char rest) "..")) by (apply Hz; [unfold no_slash, explode; simpl; set_solver|done]). cbn [orb].
    destruct (has_prefix _ _) eqn:Hpre; [|done]. exfalso. unfold has_prefix in Hpre. destruct (strip_prefix _ _) as [r|] eqn:Er; [|done].
    apply strip_prefix_some in Er. destruct x as [|c1 [|c2 [|c3 x]]]; simpl in Er; [done| | |].
    + injection Er as -> E _. done.
    + injection Er as -> -> _. done.
    + injection Er as -> -> -> _. apply Hs. unfold explode. simpl. set_solver.
Qed.

(** Printed numbers have no slash. *)
Lemma itoa_no_slash n : no_slash (itoa n).
Proof.
  assert (Hd : ∀ k, digit_char (k mod 10) ≠ "/"%char).
  { intros k. pose proof (Z.mod_pos_bound k 10 ltac:(done)) as Hk. remember (k mod 10) as m eqn:Em. clear Em.
    assert (m = 0 ∨ m = 1 ∨ m = 2 ∨ m = 3 ∨ m = 4 ∨ m = 5 ∨ m = 6 ∨ m = 7 ∨ m = 8 ∨ m = 9) as Hm by lia. by repeat destruct Hm as [-> | Hm]; [..|subst]. }
  assert (Hall : ∀ fuel k acc, no_slash acc → no_slash (dec_digits fuel k acc)).
  { unfold no_slash, explode. induction fuel as [|fuel IH]; intros k acc Ha; [done|]. cbn [dec_digits].
    assert (Hs : "/"%char ∉ String.list_ascii_of_string (String (digit_char (k mod 10)) acc)).
    { cbn [String.list_ascii_of_string]. rewrite not_elem_of_cons. split; [|done]. intros E. by apply (Hd k). }
    destruct (k / 10 =? 0); [done|by apply IH]. }
  assert (He : no_slash "") by (unfold no_slash; apply not_elem_of_nil).
  unfold itoa. destruct (n <? 0); [|by apply Hall]. specialize (Hall 40%nat (- n) "" He). unfold no_slash, explode in *.
  change ("/"%char ∉ "-"%char :: String.list_ascii_of_string (dec_digits 40 (- n) "")). rewrite not_elem_of_cons. by split.
Qed.

Lemma artifact_inside a fresh now s row s' :
  PutArtifact a fresh now s = inr (row, s') →
  ∃ parts, parts ≠ [] ∧ ar_path row = join "/" parts ∧ Forall ordinary parts.
Proof.
  intros Hop. unfold PutArtifact in Hop. cbv zeta in Hop. tx_inv.
  all: match goal with H : negb (path_is_abs _ || _ || _ || _) = true |- _ => apply negb_true_iff, path_clean_inside in H end.
  all: try done.
  (* the durable row of a completed attempt has the same path *)
  destruct Hguard1 as (parts&?&Hp&?). exists parts. split_and!; try done. rewrite <- Hp.
  apply andb_true_iff in Hguard2 as [[[_ Heq%String.eqb_eq]%andb_true_iff _]%andb_true_iff _]. done.
Qed.
End Paths.
