(* ===== verification/ServerPagesFacts.v ===== *)
(** Page tokens and page walks: a token is read back as it was made, and a client
    that follows the tokens holds one snapshot of the collection or is told to
    start over. *)

From Stdlib Require Import Ascii.
From Stdlib Require String.
From S2P Require Import Prelude.
From S2P Require Import Json.
From S2P Require Import GoStd.
From S2P Require Import JsonPlain.
From S2P Require Import Resource.
From S2P Require Import Plan.
From S2P Require Import ActionContract.
From S2P Require Import PluginMapping.
From S2P Require Import FlowCompiler.
From S2P Require Import Db.
From S2P Require Import StoreRuns.
From S2P Require Import StoreResources.
From S2P Require Import StoreStep.
From S2P Require Import StoreSafety.
From S2P Require Import StoreWatch.
From S2P Require Import StoreOps.
From S2P Require Import ServerPages.

Local Open Scope Z_scope.

(** ** Tokens *)

(** [hex.EncodeToString] of 32 bytes. *)
Definition hex_digest (sha : Sha256) : Prop := ∀ s, plain (sha s) = true ∧ String.length (sha s) = 64%nat.

Definition token_fields (t : resourcePageToken) : list (string * flat) :=
  [("version", FlatNum (tk_version t)); ("revision", FlatNum (tk_revision t)); ("filterDigest", FlatStr (tk_filterDigest t));
   ("kind", FlatStr (tk_kind t)); ("namespace", FlatStr (tk_namespace t)); ("name", FlatStr (tk_name t))].
Definition token_ok (t : resourcePageToken) : Prop :=
  tk_version t = 1 ∧ 0 < tk_revision t < 2 ^ 64 ∧ plain (tk_filterDigest t) = true ∧ plain (tk_kind t) = true
  ∧ plain (tk_namespace t) = true ∧ plain (tk_name t) = true.

Lemma parse_uint_itoa n : 0 < n < 2 ^ 64 → parse_uint (itoa n) = Some n.
Proof.
  intros H. destruct (itoa_digits n H) as (l&->&[_ _ _ Hv (c&l'&El&_)]&_). unfold parse_uint. rewrite explode_implode.
  specialize (Hv 0). rewrite Z.mul_0_l, Z.add_0_l in Hv. subst l. rewrite Hv. cbn [mbind option_bind].
  by rewrite (proj2 (Z.ltb_lt _ _)) by lia.
Qed.

Lemma first_members_flat fields rest : fields ≠ [] → Forall (λ kv, plain kv.1 = true ∧ flat_ok kv.2) fields →
  first_members ("{" +:+ joinc "," (field_text <$> fields) +:+ "}" +:+ rest) = Some ((λ kv, (kv.1, flat_json kv.2)) <$> fields, rest).
Proof.
  intros Hne Hf. set (text := joinc "," (field_text <$> fields) +:+ "}" +:+ rest).
  change ("{" +:+ ?s) with (String (chr 123) s). unfold first_members. rewrite skip_ws_stop by done.
  rewrite (proj2 (Ascii.eqb_eq _ _) eq_refl).
  assert (∃ r, text = String (chr 34) r) as [r Hr].
  { unfold text. destruct fields as [|[k v] fields]; [done|]. apply Forall_cons in Hf as [[Hk _] _].
    destruct fields; cbn [fmap list_fmap joinc]; unfold field_text at 1; cbn [fst snd]; rewrite !append_assoc, quoted_plain by done; eauto. }
  rewrite Hr. rewrite skip_ws_stop by done. change (Ascii.eqb (chr 34) (chr 125)) with false. cbv iota. rewrite <- Hr.
  unfold text. change ("}" +:+ rest) with (String (chr 125) rest). apply parse_fields_flat; [done|done|].
  enough (length fields ≤ String.length (joinc "," (field_text <$> fields)))%nat.
  { cbn [String.length]. rewrite append_length. lia. }
  clear. induction fields as [|kv fields IH]; [done|]. destruct fields as [|kv2 fields].
  - cbn. unfold field_text, quoted. rewrite !append_length. cbn. lia.
  - rewrite !fmap_cons. cbn [joinc]. rewrite !append_length. rewrite !fmap_cons in IH. simpl in *. lia.
Qed.

Lemma token_member_eqs v r d k ns n :
  (∀ l, token_member (mkToken v r d k ns n) ("version", JNum l) = (x ← atoi l; Some (mkToken x r d k ns n))) ∧
  (∀ l, token_member (mkToken v r d k ns n) ("revision", JNum l) = (x ← parse_uint l; Some (mkToken v x d k ns n))) ∧
  (∀ x, token_member (mkToken v r d k ns n) ("filterDigest", JStr x) = Some (mkToken v r x k ns n)) ∧
  (∀ x, token_member (mkToken v r d k ns n) ("kind", JStr x) = Some (mkToken v r d x ns n)) ∧
  (∀ x, token_member (mkToken v r d k ns n) ("namespace", JStr x) = Some (mkToken v r d k x n)) ∧
  (∀ x, token_member (mkToken v r d k ns n) ("name", JStr x) = Some (mkToken v r d k ns x)).
Proof. split_and!; reflexivity. Qed.

Lemma decode_token_text t : token_ok t → decode_token (token_text t) = Some t.
Proof.
  destruct t as [v r d k ns n]. intros (Hv&Hr&Hd&Hk&Hns&Hn). cbn in *. subst v. unfold decode_token.
  set (t := mkToken 1 r d k ns n).
  assert (token_text t = "{" +:+ joinc "," (field_text <$> token_fields t) +:+ "}" +:+ "") as -> by reflexivity.
  rewrite first_members_flat; [|done|repeat constructor; cbn; try done; lia].
  cbn [mbind option_bind]. unfold token_fields, t, zero_token. cbn [fmap list_fmap fst snd flat_json].
  cbn [tk_version tk_revision tk_filterDigest tk_kind tk_namespace tk_name].
  pose proof token_member_eqs as E. unfold token_members.
  rewrite (proj1 (E _ _ _ _ _ _)). change (atoi (itoa 1)) with (Some 1). cbn [mbind option_bind].
  rewrite (proj1 (proj2 (E _ _ _ _ _ _))), parse_uint_itoa by done. cbn [mbind option_bind].
  rewrite (proj1 (proj2 (proj2 (E _ _ _ _ _ _)))). cbn [mbind option_bind].
  rewrite (proj1 (proj2 (proj2 (proj2 (E _ _ _ _ _ _))))). cbn [mbind option_bind].
  rewrite (proj1 (proj2 (proj2 (proj2 (proj2 (E _ _ _ _ _ _)))))). cbn [mbind option_bind].
  rewrite (proj2 (proj2 (proj2 (proj2 (proj2 (E _ _ _ _ _ _)))))). cbn [mbind option_bind].
  done.
Qed.

Lemma dnsName_plain s : dnsName s = true → plain s = true ∧ s ≠ "".
Proof.
  assert (Hc : ∀ c, implb (dns_char c || (byte c =? 45)) (plain_char c) = true) by (apply all_chars; vm_compute; reflexivity).
  unfold dnsName, plain. destruct s as [|c s]; [done|]. cbn [explode String.list_ascii_of_string forallb].
  intros [[H1 H2]%andb_prop _]%andb_prop. split; [|done].
  pose proof (Hc c) as H. rewrite H1 in H. cbn [orb implb] in H. rewrite H. cbn [andb].
  rewrite forallb_forall in H2. apply forallb_forall. intros x Hx. specialize (Hc x). by rewrite (H2 x Hx) in Hc.
Qed.
Lemma valid_metadata m : ValidateMetadata m = inr tt →
  (dnsName (m_name m) = true ∧ (String.length (m_name m) ≤ 63)%nat) ∧ (dnsName (m_namespace m) = true ∧ (String.length (m_namespace m) ≤ 63)%nat).
Proof.
  unfold ValidateMetadata. intros H. apply res_bind_ok in H as ([]&H1%guard_err_ok&H2%guard_err_ok).
  apply andb_prop in H1 as [? ?%Nat.leb_le], H2 as [? ?%Nat.leb_le]. done.
Qed.
Lemma doc_kind_facts d : validResourceKind (doc_kind d) = true ∧ plain (doc_kind d) = true ∧ doc_kind d ≠ ""
  ∧ (String.length (doc_kind d) ≤ 18)%nat.
Proof. unfold doc_kind. destruct (doc_spec d); (split_and!; [reflexivity|reflexivity|discriminate|simpl; lia]). Qed.

Lemma encode_bytes_length l : (length (encode_bytes l) ≤ 2 * length l)%nat.
Proof.
  induction l as [l IH] using (induction_ltof1 _ (@length ascii)). unfold ltof in IH.
  destruct l as [|a [|b [|c l]]]; [simpl; lia..|]. cbn [encode_bytes length]. specialize (IH l ltac:(simpl; lia)). lia.
Qed.
Lemma EncodeToString_length s : (String.length (EncodeToString s) ≤ 2 * String.length s)%nat.
Proof. unfold EncodeToString. rewrite implode_length, <- explode_length. apply encode_bytes_length. Qed.
Lemma EncodeToString_empty s : EncodeToString s = "" → s = "".
Proof. intros H. pose proof (DecodeString_EncodeToString s) as E. rewrite H in E. by injection E. Qed.

Section Tokens.
Context {sha : Sha256} (Hsha : hex_digest sha) {cal : Calendar}.

Lemma well_formed_names d : well_formed d → ValidateMetadata (doc_meta d) = inr tt.
Proof. intros H. by apply DecodeStrict_ok in H as (_&_&Hm&_). Qed.

Lemma page_token_ok request revision last : well_formed last → 0 < revision < 2 ^ 64 → token_ok (page_token request revision last).
Proof.
  intros Hw Hr. destruct (valid_metadata _ (well_formed_names _ Hw)) as [[Hn _] [Hns _]].
  destruct (dnsName_plain _ Hn) as [Pn _], (dnsName_plain _ Hns) as [Pns _], (doc_kind_facts last) as (_&Pk&_).
  unfold token_ok, page_token. cbn. split_and!; try done; try lia. apply Hsha.
Qed.

Lemma token_text_length t : token_ok t →
  (String.length (token_text t) ≤ 160 + String.length (tk_filterDigest t) + String.length (tk_kind t)
     + String.length (tk_namespace t) + String.length (tk_name t))%nat.
Proof.
  intros (Hv&Hr&Hd&Hk&Hns&Hn). destruct (itoa_digits _ Hr) as (l&El&_&Hl).
  unfold token_text, object_text. cbn [fmap list_fmap joinc fst snd]. rewrite Hv, El.
  unfold quoted. rewrite !escape_plain by done. rewrite !append_length, implode_length.
  change (String.length (itoa 1)) with 1%nat. cbn [String.length]. cbn. lia.
Qed.

Lemma decode_encode_token request revision last : well_formed last → 0 < revision < 2 ^ 64 →
  encodeResourcePageToken request revision last ≠ "" ∧
  decodeResourcePageToken (with_token (encodeResourcePageToken request revision last) request) = inr (page_token request revision last).
Proof.
  intros Hw Hr. pose proof (page_token_ok request revision last Hw Hr) as Hok. set (t := page_token request revision last) in *.
  pose proof (well_formed_names _ Hw) as Hm. destruct (valid_metadata _ Hm) as [[Hn Ln] [Hns Lns]].
  destruct (dnsName_plain _ Hn) as [_ En], (dnsName_plain _ Hns) as [_ Ens], (doc_kind_facts last) as (Vk&_&_&Lk).
  assert (Hlen : (String.length (encodeResourcePageToken request revision last) ≤ 8192)%nat).
  { unfold encodeResourcePageToken. fold t. etrans; [apply EncodeToString_length|]. pose proof (token_text_length t Hok) as H.
    assert (String.length (tk_filterDigest t) = 64%nat) by apply Hsha.
    change (tk_kind t) with (doc_kind last) in H. change (tk_namespace t) with (m_namespace (doc_meta last)) in H.
    change (tk_name t) with (m_name (doc_meta last)) in H. transitivity 800%nat; [lia|]. apply Nat.leb_le. by vm_compute. }
  assert (Hne : encodeResourcePageToken request revision last ≠ "") by (intros H; apply EncodeToString_empty in H; discriminate H).
  split; [exact Hne|]. unfold decodeResourcePageToken. cbn [with_token lq_token].
  rewrite (proj2 (String.eqb_neq _ _) Hne), (proj2 (Nat.ltb_ge _ _) Hlen). unfold encodeResourcePageToken at 1. fold t.
  rewrite DecodeString_EncodeToString, (decode_token_text t Hok).
  unfold t, page_token. cbn [tk_version tk_revision tk_filterDigest tk_kind tk_namespace tk_name].
  rewrite Vk, (proj2 (String.eqb_neq _ _) Ens), (proj2 (String.eqb_neq _ _) En), (proj2 (Z.eqb_neq revision 0)) by lia. cbn [Z.eqb resourceTokenVersion Pos.eqb negb orb].
  change (resourceFilterDigest (with_token ?x request)) with (resourceFilterDigest request). rewrite String.eqb_refl. cbn [negb].
  rewrite (ValidateMetadata_ignores (doc_meta last)), Hm. done.
Qed.

(** A token of other filters is refused. *)
Lemma foreign_token request other revision last : well_formed last → 0 < revision < 2 ^ 64 →
  resourceFilterDigest other ≠ resourceFilterDigest request →
  decodeResourcePageToken (with_token (encodeResourcePageToken request revision last) other) = inl "continue_token does not match list filters".
Proof.
  intros Hw Hr Hne. destruct (decode_encode_token request revision last Hw Hr) as [H1 H2]. revert H2. unfold decodeResourcePageToken.
  cbn [with_token lq_token]. rewrite (proj2 (String.eqb_neq _ _) H1).
  destruct (8192 <? _)%nat; [done|]. destruct (DecodeString _) as [data|]; [|done]. destruct (decode_token data) as [t|]; [|done].
  destruct (_ || _); [done|]. destruct (negb (String.eqb (tk_filterDigest t) _)) eqn:E; [done|].
  apply negb_false_iff, String.eqb_eq in E. intros H2. destruct (ValidateMetadata _); [done|]. injection H2 as ->.
  change (resourceFilterDigest (with_token ?x other)) with (resourceFilterDigest other). cbn [page_token tk_filterDigest].
  by rewrite (proj2 (String.eqb_neq _ _) (not_eq_sym Hne)).
Qed.
End Tokens.

(** ** The catalogue *)

Section Catalogue.
Context {cal : Calendar} {dig : Digest}.

(** Every row holds a document [DecodeStrict] accepts, under its own key and with its labels. *)
Definition filed_row (k : resource_key) (r : ResourceRow) : Prop :=
  document_key (rr_doc r) = k ∧ well_formed (rr_doc r) ∧ rr_labels r = m_labels (doc_meta (rr_doc r)).
Definition filed (s : Db) : Prop := map_Forall filed_row (db_resources s).

(** A step of the daemon: the server applies only what [DecodeStrict] returned;
    the operations other than the three on resources leave the rows alone. *)
Inductive served (s s' : Db) : Prop :=
  | served_apply raw doc o u rq t a (Hraw : DecodeStrict raw = inr doc) (Hop : Apply doc o u rq t s = inr (a, s'))
  | served_status k ns n g st now a (Hop : UpdateResourceStatus k ns n g st now s = inr (a, s'))
  | served_delete k ns n v rq fr now a (Hop : Delete k ns n v rq fr now s = inr (a, s'))
  | served_other (Hstep : store_step s s') (Hsame : db_resources s' = db_resources s).

Lemma well_formed_remeta d m status : well_formed d → m_name m = m_name (doc_meta d) → m_namespace m = m_namespace (doc_meta d) →
  well_formed (mkDocument (doc_apiVersion d) m (doc_spec d) status).
Proof.
  unfold well_formed. rewrite !DecodeStrict_ok. intros (Ha&Hk&Hm&E) En Ens. cbn [doc_apiVersion doc_meta doc_spec doc_status].
  split_and!; try done.
  - revert Hm. unfold ValidateMetadata. by rewrite En, Ens.
  - f_equal. rewrite Ens. destruct (String.eqb_spec (m_namespace (doc_meta d)) "") as [E0|]; [|done]. exfalso.
    apply valid_metadata in Hm as [_ [Hm _]]. rewrite E0 in Hm. done.
Qed.

Lemma filed_insert (m : gmap resource_key ResourceRow) k r : map_Forall filed_row m → filed_row k r → map_Forall filed_row (<[k := r]> m).
Proof. intros H Hr. by apply map_Forall_insert_2. Qed.

Lemma filed_step s s' : served s s' → filed s → filed s'.
Proof.
  intros Hstep H. destruct Hstep.
  - apply DecodeStrict_idem in Hraw.
    run_op Hop; apply filed_insert; try exact H; (split_and!; [done|by apply (well_formed_remeta doc)|done]).
  - run_op Hop; try exact H. apply filed_insert; [exact H|].
    match goal with Hr : db_resources s !! _ = Some ?r, Hd : DecodeStrict (rr_doc ?r) = inr _ |- _ =>
      destruct (H _ _ Hr) as (Hk&Hw&Hl); rewrite Hw in Hd; injection Hd as <-
    end.
    split_and!; [exact Hk|by apply (well_formed_remeta (rr_doc _))|exact Hl].
  - run_op Hop; by apply map_Forall_delete.
  - unfold filed. by rewrite Hsame.
Qed.

Lemma served_step s s' : served s s' → store_step s s'.
Proof. destruct 1; [by eapply step_apply|by eapply step_status|by eapply step_delete|done]. Qed.
Lemma filed_rtc s s' : rtc served s s' → filed s → filed s'.
Proof. induction 1; eauto using filed_step. Qed.
Lemma served_steps s s' : rtc served s s' → rtc store_step s s'.
Proof. induction 1 as [|x y z H _ IH]; [done|]. by eapply rtc_l; [apply served_step|]. Qed.
Lemma served_filed s : rtc served empty_db s → filed s.
Proof. intros H. eapply filed_rtc; [exact H|]. intros k r Hk. simpl in Hk. by rewrite lookup_empty in Hk. Qed.

(** An unchanged revision is an unchanged catalogue. *)
Lemma same_revision_docs s s' : rtc store_step s s' → db_revision s' = db_revision s → docs s' = docs s.
Proof.
  intros H E. destruct (grew_rtc _ _ H) as (_&new&_&Hnew&_&Hr). rewrite E in Hnew.
  destruct new as [|e new]; [by rewrite <- Hr|]. apply Forall_cons in Hnew as [? _]. lia.
Qed.
End Catalogue.

(** ** Keyset order *)

#[export] Instance key_cmp_total : TotalCmp key_cmp.
Proof. unfold key_cmp. apply _. Qed.
Lemma key_cmp_eq a k : key_cmp a k = Eq → a = k.
Proof.
  destruct a as [[a1 a2] a3], k as [[k1 k2] k3]. unfold key_cmp, lexc, onc. cbn [fst snd].
  destruct (str_cmp a1 k1) eqn:E1; [|done|done]. destruct (str_cmp a2 k2) eqn:E2; [|done|done]. intros E3.
  apply str_cmp_eq in E1 as ->, E2 as ->, E3 as ->. done.
Qed.
Lemma eqb_cmp a b : String.eqb b a = match str_cmp a b with Eq => true | _ => false end.
Proof.
  destruct (String.eqb_spec b a) as [->|Hne].
  - by rewrite (proj2 (str_cmp_eq a a) eq_refl).
  - destruct (str_cmp a b) eqn:E; [|done|done]. apply str_cmp_eq in E as ->. done.
Qed.
Lemma key_after_cmp a k : key_after a k = true ↔ cmp_lt key_cmp a k.
Proof.
  unfold key_after, cmp_lt, key_cmp, lexc, onc, str_lt. rewrite !eqb_cmp.
  destruct (str_cmp a.1.1 k.1.1), (str_cmp a.1.2 k.1.2), (str_cmp a.2 k.2); simpl; split; congruence.
Qed.

Lemma strict_order {A} (c : A → A → comparison) `{!TotalCmp c} (l : list A) :
  (∀ x y, x ∈ l → y ∈ l → c x y = Eq → x = y) → NoDup l → StronglySorted (cmp_le c) l → StronglySorted (cmp_lt c) l.
Proof.
  intros Htie Hnd Hs. induction Hs as [|x l Hs IH Hx]; [constructor|]. apply NoDup_cons in Hnd as [Hni Hnd].
  constructor; [apply IH; [|done]; intros y z ??; apply Htie; by right|].
  rewrite Forall_forall in Hx |- *. intros y Hy. specialize (Hx _ Hy). unfold cmp_le, cmp_lt in *.
  destruct (c x y) eqn:E; [|done|done]. exfalso. apply Hni. rewrite (Htie x y); [done|left|by right|done].
Qed.

(** The documents of a watcher's view in key order, each once. *)
Definition in_order (v : view) : list (resource_key * Document) := sort_by (onc fst key_cmp) (map_to_list v).
Lemma map_sorted {A} (m : gmap resource_key A) : StronglySorted (cmp_lt (onc fst key_cmp)) (sort_by (onc fst key_cmp) (map_to_list m)).
Proof.
  apply (strict_order _); [|apply sort_by_nodup, NoDup_map_to_list|apply sort_by_sorted; apply _].
  intros [k1 r1] [k2 r2] H1 H2 E. rewrite sort_by_perm in H1, H2. apply elem_of_map_to_list in H1, H2.
  apply key_cmp_eq in E. cbn in E. subst k2. f_equal. congruence.
Qed.
Lemma in_order_docs s : in_order (docs s) = (λ kr, (kr.1, rr_doc kr.2)) <$> sorted_resources s.
Proof.
  symmetry. apply (sorted_perm_eq (onc fst key_cmp)).
  - pose proof (map_sorted (db_resources s)) as H. unfold sorted_resources.
    induction H as [|x l Hl IH Hx]; [constructor|]. rewrite fmap_cons. constructor; [exact IH|].
    rewrite Forall_fmap. eapply Forall_impl; [exact Hx|]. intros y Hy. exact Hy.
  - apply sort_by_sorted. apply _.
  - unfold in_order, sorted_resources, docs. rewrite !sort_by_perm.
    pose proof (map_to_list_fmap (M:=gmap resource_key) rr_doc (db_resources s)) as E. symmetry. etrans; [|apply Permutation_refl'].
    2: { etrans; [exact E|]. apply list_fmap_ext. by intros ? []. }
    done.
Qed.

Lemma filter_after {A} (l : list (resource_key * A)) n x :
  StronglySorted (cmp_lt (onc fst key_cmp)) l → l !! n = Some x → filter (λ kr, key_after x.1 kr.1 = true) l = drop (S n) l.
Proof.
  intros Hs. revert n. induction Hs as [|y l Hs IH Hy]; intros n Hn; [done|]. rewrite Forall_forall in Hy. rewrite filter_cons.
  destruct n as [|n]; simpl in Hn.
  - injection Hn as ->. rewrite decide_False by (rewrite key_after_cmp; apply (cmp_lt_irrefl key_cmp)). cbn [drop].
    clear IH Hs. induction l as [|z l IH]; [done|]. rewrite filter_cons, decide_True, IH; [done| |].
    + intros w Hw. apply Hy. by right.
    + apply key_after_cmp, (Hy z). left.
  - rewrite decide_False; [by apply IH|]. rewrite key_after_cmp. intros H. apply list_elem_of_lookup_2 in Hn as Hx.
    specialize (Hy x Hx). apply (cmp_lt_irrefl key_cmp y.1). by apply (cmp_lt_transitive key_cmp _ x.1).
Qed.

(** ** One page *)

Section Pages.
Context {cal : Calendar} {dig : Digest} {sha : Sha256} (Hsha : hex_digest sha) (projectResource : Document → ResourceDocument).

Definition selected (request : ListRequest) (k : resource_key) (labels : gmap string string) : bool :=
  matches (lq_kind request) k.1.1 && matches (lq_namespace request) k.1.2 && labelsMatch labels (lq_labels request).
(** What a request asks for, of a view. *)
Definition collection (request : ListRequest) (v : view) : list Document :=
  snd <$> filter (λ kd, selected request kd.1 (m_labels (doc_meta kd.2)) = true) (in_order v).
Definition wanted (request : ListRequest) (s : Db) : list (resource_key * ResourceRow) :=
  filter (λ kr, selected request kr.1 (rr_labels kr.2) = true) (sorted_resources s).

Lemma sorted_elem s kr : kr ∈ sorted_resources s → db_resources s !! kr.1 = Some kr.2.
Proof. unfold sorted_resources. rewrite sort_by_perm. destruct kr. apply elem_of_map_to_list. Qed.
Lemma wanted_filed request s kr : filed s → kr ∈ wanted request s → filed_row kr.1 kr.2.
Proof. intros H [_ Hin]%list_elem_of_filter. apply H, sorted_elem, Hin. Qed.
Lemma wanted_docs request s : filed s → (λ kr, rr_doc kr.2) <$> wanted request s = collection request (docs s).
Proof.
  intros H. unfold collection, wanted. rewrite in_order_docs.
  assert (Hl : Forall (λ kr, filed_row kr.1 kr.2) (sorted_resources s)).
  { apply Forall_forall. intros kr Hin. apply H, sorted_elem, Hin. }
  induction Hl as [|kr l (_&_&Hlab) _ IH]; [done|]. rewrite fmap_cons, !filter_cons. cbn [fst snd]. rewrite Hlab.
  case_decide; rewrite ?fmap_cons; cbn [fst snd]; by rewrite IH.
Qed.
Lemma wanted_sorted request s : StronglySorted (cmp_lt (onc fst key_cmp)) (wanted request s).
Proof. apply StronglySorted_filter, map_sorted. Qed.

Lemma page_rows_filed labels limit rows acc : Forall (λ kr, filed_row kr.1 kr.2) rows → (length acc ≤ limit)%nat →
  page_rows labels limit rows acc =
    let l := filter (λ kr, labelsMatch (rr_labels kr.2) labels = true) rows in
    ok (rev acc ++ ((λ kr, rr_doc kr.2) <$> take (limit - length acc) l), bool_decide (limit - length acc < length l)%nat).
Proof.
  intros Hf. revert acc. induction Hf as [|kr rows (_&Hw&_) _ IH]; intros acc Hacc; cbn [page_rows]; cbv zeta in *.
  { rewrite filter_nil, take_nil. cbn. rewrite app_nil_r, bool_decide_false by lia. done. }
  rewrite filter_cons. destruct (labelsMatch (rr_labels kr.2) labels) eqn:E; cbn [negb].
  - rewrite decide_True by done. destruct (Nat.eqb_spec (length acc) limit) as [->|Hne].
    + rewrite Nat.sub_diag. cbn. rewrite app_nil_r. done.
    + rewrite Hw. unfold mbind, res_bind. rewrite IH by (cbn; lia). cbn [rev length].
      replace (limit - length acc)%nat with (S (limit - S (length acc))) by lia. cbn [take]. rewrite fmap_cons, <- app_assoc.
      f_equal. f_equal. apply bool_decide_ext. cbn. lia.
  - rewrite decide_False by done. by apply IH.
Qed.

Lemma ListResourcePage_filed o s : filed s → po_expectedRevision o = 0 ∨ po_expectedRevision o = db_revision s →
  result (ListResourcePage o) s =
    let l := filter (λ kr, matches (po_kind o) kr.1.1.1 && matches (po_namespace o) kr.1.1.2 && labelsMatch (rr_labels kr.2) (po_labels o)
      && (negb (after_set (po_after o)) || key_after (po_after o) kr.1) = true) (sorted_resources s) in
    inr ((λ kr, rr_doc kr.2) <$> take (page_limit (po_limit o)) l, db_revision s, bool_decide (page_limit (po_limit o) < length l)%nat).
Proof.
  intros Hf Hrev. unfold result, ListResourcePage, mbind, tx_bind, tx_get, tx_guard, tx_lift. cbv zeta.
  assert ((po_expectedRevision o =? 0) || (po_expectedRevision o =? db_revision s) = true) as ->.
  { destruct Hrev as [-> | ->]; [done|]. by rewrite Z.eqb_refl, orb_true_r. }
  cbn [fst snd]. rewrite page_rows_filed; [|apply Forall_forall; intros kr [_ Hin]%list_elem_of_filter; apply Hf, sorted_elem, Hin|cbn; lia].
  cbn [length rev app]. cbv zeta. rewrite Nat.sub_0_r, list_filter_filter.
  rewrite (list_filter_iff _ (λ kr, matches (po_kind o) kr.1.1.1 && matches (po_namespace o) kr.1.1.2 && labelsMatch (rr_labels kr.2) (po_labels o)
      && (negb (after_set (po_after o)) || key_after (po_after o) kr.1) = true)); [done|].
  intros kr. rewrite !andb_true_iff. tauto.
Qed.

(** The filters the handler accepts. *)
Definition filters_ok (request : ListRequest) : Prop :=
  (lq_kind request = "" ∨ validResourceKind (lq_kind request) = true) ∧
  (lq_namespace request = "" ∨ ValidateMetadata (mkMeta "list" (lq_namespace request) "" 0 0 ∅) = inr tt) ∧ lq_limit request ≤ 1000.
(** The token after [n] of the documents [l]. *)
Definition cursor (request : ListRequest) (revision : Z) (l : list Document) (n : nat) : string :=
  match n with
  | O => ""
  | S n => match l !! n with Some d => encodeResourcePageToken request revision d | None => "" end
  end.

Lemma List_filters request s : filters_ok request →
  List projectResource request s =
    match decodeResourcePageToken request with
    | inl e => inl (invalid e)
    | inr token =>
        match result (ListResourcePage (mkPageOptions (lq_kind request) (lq_namespace request) (lq_labels request)
                (tk_kind token, tk_namespace token, tk_name token) (tk_revision token) (lq_limit request))) s with
        | inl e => inl (rpcError e)
        | inr (docs, revision, more) =>
            inr (mkListResponse revision (projectResource <$> docs)
              (match more, last docs with true, Some last => encodeResourcePageToken request revision last | _, _ => "" end))
        end
    end.
Proof.
  intros (Hk&Hns&Hl). unfold List.
  assert (negb (String.eqb (lq_kind request) "") && negb (validResourceKind (lq_kind request)) = false) as ->.
  { destruct Hk as [-> | ->]; [done|]. by rewrite andb_false_r. }
  assert (negb (String.eqb (lq_namespace request) "") && (if ValidateMetadata (mkMeta "list" (lq_namespace request) "" 0 0 ∅) is inl _ then true else false) = false) as ->.
  { destruct Hns as [-> | ->]; [done|]. by rewrite andb_false_r. }
  by rewrite (proj2 (Z.ltb_ge 1000 (lq_limit request))).
Qed.

(** The rows after the [n]-th document. *)
Lemma rows_after request s n token : filed s →
  (n = O ∧ token = zero_token ∨
   ∃ m d, n = S m ∧ collection request (docs s) !! m = Some d ∧ token = page_token request (db_revision s) d) →
  filter (λ kr, matches (lq_kind request) kr.1.1.1 && matches (lq_namespace request) kr.1.1.2 && labelsMatch (rr_labels kr.2) (lq_labels request)
      && (negb (after_set (tk_kind token, tk_namespace token, tk_name token)) || key_after (tk_kind token, tk_namespace token, tk_name token) kr.1) = true)
    (sorted_resources s) = drop n (wanted request s).
Proof.
  intros Hf [[-> ->]|(m&d&->&Hd&->)].
  - change (drop 0 ?l) with l. apply list_filter_iff. intros kr. unfold selected. cbn. by rewrite andb_true_r.
  - rewrite <- wanted_docs, list_lookup_fmap in Hd by done. destruct (wanted request s !! m) as [kr|] eqn:E; [|done]. injection Hd as <-.
    rewrite <- (filter_after _ m kr (wanted_sorted request s) E). unfold wanted. rewrite list_filter_filter. apply list_filter_iff. intros kr'.
    destruct (wanted_filed request s kr Hf (list_elem_of_lookup_2 _ _ _ E)) as (Hk&_). cbn [page_token tk_kind tk_namespace tk_name].
    change (doc_kind (rr_doc kr.2), m_namespace (doc_meta (rr_doc kr.2)), m_name (doc_meta (rr_doc kr.2))) with (document_key (rr_doc kr.2)).
    assert (after_set (document_key (rr_doc kr.2)) = true) as ->.
    { unfold after_set, document_key. cbn [fst snd]. destruct (doc_kind_facts (rr_doc kr.2)) as (_&_&Hne&_).
      by rewrite (proj2 (String.eqb_neq _ _) Hne). }
    rewrite Hk. unfold selected. cbn [negb orb]. rewrite !andb_true_iff. tauto.
Qed.

Lemma page_limit_bounds limit : (1 ≤ page_limit limit ≤ 1000)%nat.
Proof. unfold page_limit. destruct ((limit <=? 0) || (1000 <? limit)) eqn:E; [|apply orb_false_iff in E as [?%Z.leb_gt ?%Z.ltb_ge]]; lia. Qed.

Lemma collection_filed request s d : filed s → d ∈ collection request (docs s) → well_formed d.
Proof.
  intros Hf. rewrite <- wanted_docs by done. intros (kr&->&Hin)%list_elem_of_fmap. by apply (wanted_filed request s kr).
Qed.

(** The token a page was given, decoded. *)
Lemma cursor_decodes request s n : filed s → (n ≠ O → 0 < db_revision s) → db_revision s < 2 ^ 64 →
  let l := collection request (docs s) in (n ≤ length l)%nat →
  ∃ token, decodeResourcePageToken (with_token (cursor request (db_revision s) l n) request) = inr token ∧
    (n = O ∧ token = zero_token ∨ ∃ m d, n = S m ∧ l !! m = Some d ∧ token = page_token request (db_revision s) d).
Proof.
  intros Hf H0 Hrev l Hn. destruct n as [|m]; [exists zero_token; by split; [|left]|].
  destruct (lookup_lt_is_Some_2 l m Hn) as [d Hd]. exists (page_token request (db_revision s) d). cbn [cursor]. rewrite Hd. split.
  - apply (decode_encode_token Hsha); [|by specialize (H0 ltac:(done)); lia].
    apply (collection_filed request s d Hf). by eapply list_elem_of_lookup_2.
  - right. eauto.
Qed.

Lemma List_page request s n : filed s → filters_ok request → (n ≠ O → 0 < db_revision s) → db_revision s < 2 ^ 64 →
  let l := collection request (docs s) in (n ≤ length l)%nat →
  List projectResource (with_token (cursor request (db_revision s) l n) request) s =
    inr (mkListResponse (db_revision s) (projectResource <$> take (page_limit (lq_limit request)) (drop n l))
          (if bool_decide (page_limit (lq_limit request) < length (drop n l))%nat
           then cursor request (db_revision s) l (n + page_limit (lq_limit request)) else "")).
Proof.
  intros Hf Hok H0 Hrev l Hn. destruct (cursor_decodes request s n Hf H0 Hrev Hn) as (token&Hd&Htok). fold l in Hd, Htok.
  rewrite List_filters, Hd by exact Hok. cbn [with_token lq_kind lq_namespace lq_labels lq_limit].
  rewrite ListResourcePage_filed; [|done|].
  2: { cbn [po_expectedRevision]. destruct Htok as [[_ ->]|(m&d&_&_&->)]; [by left|by right]. }
  cbn [po_kind po_namespace po_labels po_after po_limit]. cbv zeta. rewrite (rows_after request s n token Hf Htok).
  assert (Hw : length (wanted request s) = length l) by (unfold l; by rewrite <- wanted_docs, length_fmap).
  rewrite fmap_take, fmap_drop, wanted_docs, !length_drop, Hw by done. fold l.
  set (p := page_limit (lq_limit request)). pose proof (page_limit_bounds (lq_limit request)) as Hp. fold p in Hp.
  f_equal. f_equal. case_bool_decide as Hmore; [|done].
  rewrite last_lookup, length_take, length_drop, Nat.min_l by lia. rewrite lookup_take_lt by lia. rewrite lookup_drop.
  replace (n + p)%nat with (S (n + Nat.pred p)) by lia. reflexivity.
Qed.

(** ** The walk *)

Definition restart : RpcStatus := mkStatus Aborted "resource collection changed; restart pagination".
Lemma List_changed request s s' n : filed s → filters_ok request → 0 < db_revision s < 2 ^ 64 → db_revision s' ≠ db_revision s → n ≠ O →
  let l := collection request (docs s) in (n ≤ length l)%nat →
  List projectResource (with_token (cursor request (db_revision s) l n) request) s' = inl restart.
Proof.
  intros Hf Hok Hr Hne Hn l Hl. destruct (cursor_decodes request s n Hf ltac:(lia) ltac:(lia) Hl) as (token&Hd&[[? _]|(m&d&_&_&->)]); [done|].
  fold l in Hd. rewrite List_filters, Hd by exact Hok. unfold result, ListResourcePage, mbind, tx_bind, tx_get, tx_guard.
  cbn [po_expectedRevision page_token tk_revision fst snd].
  rewrite (proj2 (Z.eqb_neq (db_revision s) 0)), (proj2 (Z.eqb_neq (db_revision s) (db_revision s'))) by lia. done.
Qed.

(** What the walk gives from the [n]-th document on. *)
Lemma walk_from request s stores n : filed s → filters_ok request → db_revision s < 2 ^ 64 → (n ≠ O → 0 < db_revision s) →
  let l := collection request (docs s) in (l ≠ [] → 0 < db_revision s) →
  (n ≤ length l)%nat → (length (drop n l) < length stores)%nat → (n = O → head stores = Some s) →
  Forall (λ s', filed s' ∧ (db_revision s' = db_revision s → docs s' = docs s)) stores →
  walk projectResource (with_token (cursor request (db_revision s) l n) request) stores = Some (inr (projectResource <$> drop n l)) ∨
  walk projectResource (with_token (cursor request (db_revision s) l n) request) stores = Some (inl restart)
    ∧ Exists (λ s', db_revision s' ≠ db_revision s) stores.
Proof.
  intros Hf Hok Hrev Hn0 l Hpos. revert n Hn0. induction stores as [|s1 stores IH]; intros n Hn0 Hn Hlen Hhd Hall; [simpl in Hlen; lia|].
  apply Forall_cons in Hall as [[Hf1 Hsame] Hall]. cbn [walk].
  destruct (decide (db_revision s1 = db_revision s)) as [E|E].
  2: { right. split; [|by left]. assert (n ≠ O) by (intros ->; specialize (Hhd eq_refl); injection Hhd as ->; done).
       rewrite List_changed; try done. specialize (Hn0 ltac:(done)). lia. }
  specialize (Hsame E). pose proof (List_page request s1 n Hf1 Hok) as Hpage. rewrite E, Hsame in Hpage. fold l in Hpage.
  rewrite Hpage by done. cbn [ls_token ls_resources]. set (p := page_limit (lq_limit request)).
  pose proof (page_limit_bounds (lq_limit request)) as Hp. fold p in Hp. rewrite length_drop in Hlen |- *.
  case_bool_decide as Hmore; [|left; rewrite String.eqb_refl, take_ge by (rewrite length_drop; lia); done].
  assert (Hr : 0 < db_revision s) by (apply Hpos; intros E0; rewrite E0 in Hmore; cbn in Hmore; lia).
  assert (Hne : cursor request (db_revision s) l (n + p) ≠ "").
  { replace (n + p)%nat with (S (n + Nat.pred p)) by lia. cbn [cursor]. destruct (lookup_lt_is_Some_2 l (n + Nat.pred p) ltac:(lia)) as [d Hd].
    rewrite Hd. apply (proj1 (decode_encode_token Hsha request (db_revision s) d (collection_filed request s d Hf (list_elem_of_lookup_2 _ _ _ Hd)) ltac:(lia))). }
  rewrite (proj2 (String.eqb_neq _ _) Hne). change (with_token ?t (with_token _ request)) with (with_token t request).
  destruct (IH (n + p)%nat) as [-> |[-> Hex]]; try done; try lia.
  - rewrite length_drop. cbn [length] in Hlen. lia.
  - left. cbn [mbind option_bind]. rewrite <- fmap_app. f_equal. f_equal. f_equal. rewrite <- drop_drop. apply take_drop.
  - right. split; [done|by right].
Qed.

Lemma collection_revision request s : reachable s → collection request (docs s) ≠ [] → 0 < db_revision s.
Proof.
  intros Hr Hne. destruct (versions_reachable s Hr) as [H0 Hv]. destruct (decide (db_resources s = ∅)) as [E|E].
  - exfalso. apply Hne. unfold collection, docs. by rewrite E, fmap_empty.
  - apply map_choose in E as (k&r&Hk). specialize (Hv _ _ Hk). simpl in Hv. lia.
Qed.

Lemma walk_snapshot request s later : rtc served empty_db s → Forall (rtc served s) later →
  lq_token request = "" → filters_ok request → db_revision s < 2 ^ 64 →
  (length (collection request (docs s)) ≤ length later)%nat →
  walk projectResource request (s :: later) = Some (inr (projectResource <$> collection request (docs s))) ∨
  walk projectResource request (s :: later) = Some (inl restart) ∧ Exists (λ s', db_revision s' ≠ db_revision s) later.
Proof.
  intros Hs Hl Ht Hok Hrev Hlen. assert (request = with_token (cursor request (db_revision s) (collection request (docs s)) 0) request) as ->.
  { destruct request. cbn in *. by subst. }
  destruct (walk_from request s (s :: later) 0) as [H|[H Hex]]; try done.
  - by apply served_filed.
  - apply collection_revision. by apply served_steps.
  - lia.
  - apply Nat.lt_succ_r, Hlen.
  - constructor; [by split; [apply served_filed|]|]. eapply Forall_impl; [exact Hl|]. intros s' Hs'. split.
    + eapply filed_rtc; [exact Hs'|]. by apply served_filed.
    + apply same_revision_docs. by apply served_steps.
  - by left.
  - right. split; [exact H|]. by inversion Hex.
Qed.
End Pages.

(** ** A complete listing of the store *)

(** The pages of [ListResourcePage] from the key [after] on, each found by the
    store of its own call; a page that is not the last one is continued after its
    last document, and must find the revision of the first. *)
Section Listing.
Context {cal : Calendar} {dig : Digest} (kind namespace : string) (limit revision : Z).

Definition page_options (after : resource_key) (expected : Z) : ResourcePageOptions :=
  mkPageOptions kind namespace ∅ after expected limit.
Inductive listing : Db → resource_key → Z → list Document → Prop :=
| listing_last s after expected page :
    result (ListResourcePage (page_options after expected)) s = ok (page, revision, false) → listing s after expected page
| listing_more s s' after expected page d rest :
    result (ListResourcePage (page_options after expected)) s = ok (page, revision, true) → last page = Some d →
    rtc served s s' → listing s' (document_key d) revision rest → listing s after expected (page ++ rest).

(** What is left of a view after a key. *)
Definition rest_after (after : resource_key) (v : view) : list (resource_key * Document) :=
  filter (λ kd, let_through kind namespace kd.1 && (negb (after_set after) || key_after after kd.1) = true) (in_order v).
Lemma rest_after_sorted after v : StronglySorted (cmp_lt (onc fst key_cmp)) (rest_after after v).
Proof. apply StronglySorted_filter, map_sorted. Qed.
Lemma after_is_set d : after_set (document_key d) = true.
Proof.
  unfold after_set, document_key. cbn [fst snd]. destruct (doc_kind_facts d) as (_&_&Hne&_). by rewrite (proj2 (String.eqb_neq _ _) Hne).
Qed.
Lemma rest_after_next after v n d : rest_after after v !! n = Some (document_key d, d) →
  rest_after (document_key d) v = drop (S n) (rest_after after v).
Proof.
  intros Hn. rewrite <- (filter_after _ n _ (rest_after_sorted after v) Hn). cbn [fst]. unfold rest_after. rewrite list_filter_filter.
  apply list_filter_iff. intros kd. rewrite after_is_set, !andb_true_iff, !orb_true_iff. cbn [negb].
  apply list_elem_of_lookup_2, list_elem_of_filter in Hn as [Hn _]. cbn [fst] in Hn. apply andb_true_iff in Hn as [_ Hn].
  split; [|tauto]. intros (?&[?|Hk]); [done|]. split_and!; [exact Hk|done|].
  apply orb_true_iff in Hn as [Hn|Hn]; [by left|]. right. rewrite key_after_cmp in *. by eapply (cmp_lt_transitive key_cmp).
Qed.

Lemma page_of_view s after expected page rev more : filed s →
  result (ListResourcePage (page_options after expected)) s = ok (page, rev, more) →
  rev = db_revision s ∧ (expected = 0 ∨ expected = rev) ∧ page = snd <$> take (page_limit limit) (rest_after after (docs s)) ∧
  more = bool_decide (page_limit limit < length (rest_after after (docs s)))%nat.
Proof.
  intros Hf H. assert (He : expected = 0 ∨ expected = db_revision s).
  { unfold result, ListResourcePage, mbind, tx_bind, tx_get, tx_guard in H. cbn [page_options po_expectedRevision] in H.
    destruct (Z.eqb_spec expected 0); [by left|]. destruct (Z.eqb_spec expected (db_revision s)); [by right|done]. }
  rewrite ListResourcePage_filed in H by done. cbv zeta in H. injection H as <- <- <-.
  assert (Hrows : rest_after after (docs s) = (λ kr, (kr.1, rr_doc kr.2)) <$> filter (λ kr, matches kind kr.1.1.1 && matches namespace kr.1.1.2 &&
      labelsMatch (rr_labels kr.2) ∅ && (negb (after_set after) || key_after after kr.1) = true) (sorted_resources s)).
  { unfold rest_after. rewrite in_order_docs. generalize (sorted_resources s). intros l. induction l as [|kr l IH]; [done|].
    rewrite fmap_cons, !filter_cons, IH. unfold let_through. cbn [fst snd]. change (labelsMatch (rr_labels kr.2) ∅) with true. rewrite andb_true_r.
    by case_decide. }
  split_and!; [done|done| |].
  - rewrite Hrows, <- fmap_take, <- list_fmap_compose. by apply list_fmap_ext.
  - by rewrite Hrows, length_fmap.
Qed.
Lemma filed_keys s kd : filed s → kd ∈ in_order (docs s) → kd.1 = document_key kd.2.
Proof.
  intros Hf Hin. rewrite in_order_docs in Hin. apply list_elem_of_fmap in Hin as (kr&->&Hin). apply sorted_elem in Hin.
  destruct (Hf _ _ Hin) as (Hk&_). by symmetry.
Qed.
Lemma listing_rest s after expected documents : listing s after expected documents → filed s →
  documents = snd <$> rest_after after (docs s) ∧ revision = db_revision s.
Proof.
  induction 1 as [s after expected page H|s s' after expected page d rest H Hlast Hs _ IH]; intros Hf.
  - apply page_of_view in H as (->&_&->&Hm); [|done]. symmetry in Hm. apply bool_decide_eq_false in Hm. by rewrite take_ge by lia.
  - apply page_of_view in H as (Hrev&_&->&Hm); [|done]. symmetry in Hm. apply bool_decide_eq_true in Hm.
    destruct (IH ltac:(by eapply filed_rtc)) as [-> Hrev'].
    assert (docs s' = docs s) as -> by (apply same_revision_docs; [by apply served_steps|congruence]).
    split; [|done]. rewrite last_lookup, length_fmap, list_lookup_fmap in Hlast.
    destruct (take _ _ !! _) as [[k d']|] eqn:E; [|done]. injection Hlast as ->. rewrite length_take, Nat.min_l in E by lia.
    pose proof (page_limit_bounds limit) as Hp. rewrite lookup_take_lt in E by lia.
    assert (k = document_key d) as ->.
    { apply (filed_keys s (k, d) Hf). apply list_elem_of_lookup_2, list_elem_of_filter in E. apply E. }
    rewrite (rest_after_next _ _ _ _ E). replace (S (Nat.pred (page_limit limit))) with (page_limit limit) by lia.
    by rewrite <- fmap_app, take_drop.
Qed.
(** The documents of a complete listing, as a watcher keeps them. *)
Definition view_of (documents : list Document) : view := list_to_map ((λ d, (document_key d, d)) <$> documents).
Lemma listing_view s documents : listing s ("", "", "") 0 documents → filed s →
  view_of documents = within kind namespace (docs s) ∧ revision = db_revision s.
Proof.
  intros H Hf. destruct (listing_rest _ _ _ _ H Hf) as [-> Hr]. split; [|done]. unfold view_of, within. etrans; [|symmetry; apply (map_filter_alt (M:=gmap resource_key))].
  assert (E : (λ d, (document_key d, d)) <$> (snd <$> rest_after ("", "", "") (docs s)) = rest_after ("", "", "") (docs s)).
  { assert (Hk : Forall (λ kd : resource_key * Document, kd.1 = document_key kd.2) (rest_after ("", "", "") (docs s))).
    { apply Forall_forall. intros kd [_ Hin]%list_elem_of_filter. by apply (filed_keys s). }
    clear H. induction Hk as [|[k d] l Hk _ IH]; [done|]. cbn in Hk. subst k. rewrite !fmap_cons. cbn [snd]. f_equal. exact IH. }
  rewrite E. unfold rest_after. symmetry. apply list_to_map_proper.
  - apply NoDup_fmap_fst; [|apply NoDup_filter, NoDup_map_to_list]. intros k d1 d2 [_ H1]%list_elem_of_filter [_ H2]%list_elem_of_filter.
    apply elem_of_map_to_list in H1, H2. congruence.
  - unfold in_order. rewrite (list_filter_iff _ (λ kd, let_through kind namespace kd.1 = true) (sort_by _ _)).
    + by rewrite sort_by_perm.
    + intros kd. cbn. by rewrite andb_true_r.
Qed.
End Listing.
