(* ===== verification/StoreHistory.v ===== *)
(** What acceptance promises about the future: an occurrence keeps its Run
    through retries and retention, its command stays in the outbox until it is
    completed, a Run keeps the plan it is pinned to, and an outbox lease excludes
    a second claim. *)

From Stdlib Require String.
From S2P Require Import Prelude.
From S2P Require Import Json.
From S2P Require Import GoStd.
From S2P Require Import Resource.
From S2P Require Import Plan.
From S2P Require Import Db.
From S2P Require Import StoreRuns.
From S2P Require Import StoreResources.
From S2P Require Import StoreOutbox.
From S2P Require Import StorePlugins.
From S2P Require Import StoreStep.
From S2P Require Import StoreSafety.

Local Open Scope Z_scope.

Section History.
Context {cal : Calendar} {dig : Digest}.

(** ** Occurrences *)

Definition occurrences_ok (s : Db) : Prop :=
  ∀ k r, db_receipts s !! k = Some r → db_tombstones s !! k = None.
Definition occurrences_kept (s s' : Db) : Prop :=
  ∀ t o r, lookup_receipt t o s = Some r → lookup_receipt t o s' = Some r.

Lemma occurrences_new s s' t o row :
  occurrences_ok s → lookup_receipt t o s = None →
  db_receipts s' = <[(t, o) := row]> (db_receipts s) → db_tombstones s' = db_tombstones s →
  occurrences_kept s s' ∧ occurrences_ok s'.
Proof.
  intros H Hn Hr Ht. unfold lookup_receipt in Hn.
  destruct (db_receipts s !! (t, o)) eqn:E1; [done|]. destruct (db_tombstones s !! (t, o)) eqn:E2; [done|].
  split.
  - intros t' o' r Hl. unfold lookup_receipt in *. rewrite Hr, Ht.
    rewrite lookup_insert_ne; [done|]. intros [= <- <-]. by rewrite E1, E2 in Hl.
  - intros k r. rewrite Hr, Ht. rewrite lookup_insert_Some. intros [[<- _]|[_ ?]]; [done|by eapply H].
Qed.

Lemma occurrences_collected now run r s s' :
  occurrences_ok s → run_collected now run r s s' → occurrences_kept s s' ∧ occurrences_ok s'.
Proof.
  intros H Hc. pose proof (cr_receipts _ _ _ _ _ Hc) as Hr. pose proof (cr_tombstones _ _ _ _ _ Hc) as Ht.
  unfold add_tombstones in Ht. split.
  - intros t o x Hl. unfold lookup_receipt in *. rewrite Hr, Ht.
    destruct (db_receipts s !! (t, o)) as [row|] eqn:E.
    + rewrite map_lookup_filter, E. simpl. case_guard as Hg; [done|]. simpl.
      rewrite lookup_union_r by (by eapply H).
      rewrite lookup_fmap, map_lookup_filter, E. simpl. case_guard as Hg'; [done|]. by destruct Hg'.
    + rewrite map_lookup_filter, E. simpl. destruct (db_tombstones s !! (t, o)) as [tb|] eqn:E2; [|done].
      by rewrite (lookup_union_Some_l _ _ _ _ E2).
  - intros k row. rewrite Hr, Ht, map_lookup_filter_Some. intros [Hk Hne].
    rewrite lookup_union_None, lookup_fmap, fmap_None, map_lookup_filter_None. split; [by eapply H|].
    right. intros row' Hk' ?. simpl in *. congruence.
Qed.

Lemma occurrences_collect now rs s a s' :
  occurrences_ok s → collect_runs now rs s = inr (a, s') → occurrences_kept s s' ∧ occurrences_ok s'.
Proof.
  intros H. apply (collect_runs_ind (λ s1, occurrences_kept s s1 ∧ occurrences_ok s1)).
  - intros run r s1 s2 [H1 H2] Hc. pose proof (occurrences_collected _ _ _ _ _ H2 Hc) as [H3 H4].
    split; [|done]. intros t o x Hx. by apply H3, H1.
  - split; [|done]. by intros ???.
Qed.

Lemma occurrences_step s s' : occurrences_ok s → store_step s s' → occurrences_kept s s' ∧ occurrences_ok s'.
Proof.
  intros H Hstep. destruct Hstep; run_op Hop; try solve [split; [by intros ??? Hl; exact Hl|exact H]].
  all: try (by eapply occurrences_collect).
  all: eapply occurrences_new; [exact H|eassumption|reflexivity|reflexivity].
Qed.

Lemma occurrences_reachable s : reachable s → occurrences_ok s.
Proof.
  apply (reachable_ind occurrences_ok); [by intros ??|]. intros ?? _ H Hstep. by apply (occurrences_step _ _ H Hstep).
Qed.
Lemma occurrences_forever s s' : reachable s → rtc store_step s s' → occurrences_kept s s'.
Proof.
  intros Hr Hs. revert Hr. induction Hs as [s|s s1 s2 Hstep Hs IH]; intros Hr; [by intros ???|].
  intros t o x Hx. apply IH; [by eapply rtc_r|].
  by apply (occurrences_step _ _ (occurrences_reachable _ Hr) Hstep).
Qed.

(** ** The outbox table *)

Definition command_key (p : OutboxPayload) : string := match p with StartRun p => sp_key p | SignalRun p => sg_key p end.
Definition command_receipt (p : OutboxPayload) : string :=
  match p with StartRun p => sp_receipt p | SignalRun p => sg_receipt p end.
Definition command_run (p : OutboxPayload) : string := match p with StartRun p => sp_run p | SignalRun p => sg_run p end.
(** The row's columns repeat its payload. *)
Definition row_ok (o : OutboxRow) : Prop :=
  ob_key o = command_key (ob_payload o) ∧ ob_aggregate o = command_run (ob_payload o).
Definition outbox_ok (l : list OutboxRow) (seq : Z) : Prop :=
  StronglySorted Z.lt (ob_id <$> l) ∧ Forall (λ o, ob_id o ≤ seq) l ∧ NoDup (ob_key <$> l) ∧ Forall row_ok l.

(** Everything but the delivery columns. *)
Definition command (o : OutboxRow) : Z * string * string * OutboxPayload := (ob_id o, ob_aggregate o, ob_key o, ob_payload o).

Lemma outbox_ok_command l k seq : command <$> k = command <$> l → outbox_ok l seq → outbox_ok k seq.
Proof.
  intros E (H1&H2&H3&H4).
  assert (ob_id <$> k = ob_id <$> l) as Hid.
  { apply (f_equal (fmap (λ c, c.1.1.1))) in E. by rewrite <- !list_fmap_compose in E. }
  assert (ob_key <$> k = ob_key <$> l) as Hkey.
  { apply (f_equal (fmap (λ c, c.1.2))) in E. by rewrite <- !list_fmap_compose in E. }
  split_and!.
  - by rewrite Hid.
  - revert H2. change (λ o, ob_id o ≤ seq) with ((λ i, i ≤ seq) ∘ ob_id). rewrite <- !Forall_fmap. by rewrite Hid.
  - by rewrite Hkey.
  - revert H4. change row_ok with ((λ c : Z * string * string * OutboxPayload, c.1.2 = command_key c.2 ∧ c.1.1.2 = command_run c.2) ∘ command).
    rewrite <- !Forall_fmap. by rewrite E.
Qed.

Lemma outbox_ok_append l seq o :
  outbox_ok l seq → ob_id o = seq + 1 → existsb (λ o', String.eqb (ob_key o') (ob_key o)) l = false → row_ok o →
  outbox_ok (l ++ [o]) (seq + 1).
Proof.
  intros (H1&H2&H3&H4) Hid Hk Ho. split_and!.
  - rewrite fmap_app. apply StronglySorted_app_2; [|done|repeat constructor].
    intros i j Hi Hj. apply list_elem_of_fmap in Hi as (o1&->&Ho1). apply list_elem_of_singleton in Hj as ->.
    rewrite Forall_forall in H2. specialize (H2 _ Ho1). lia.
  - apply Forall_app. split; [|constructor; [lia|done]]. eapply Forall_impl; [exact H2|]. simpl. lia.
  - rewrite fmap_app. apply NoDup_app. split_and!; [done| |apply NoDup_singleton].
    intros k Hin ->%list_elem_of_singleton. apply list_elem_of_fmap in Hin as (o'&E&Hin).
    assert (existsb (λ o', String.eqb (ob_key o') (ob_key o)) l = true); [|congruence].
    apply existsb_exists. exists o'. split; [by apply list_elem_of_In|]. by apply String.eqb_eq.
  - apply Forall_app. split; [done|]. by constructor.
Qed.

Lemma Forall_sublist {A} (P : A → Prop) l k : sublist l k → Forall P k → Forall P l.
Proof. induction 1; rewrite ?Forall_cons; intuition. Qed.
Lemma StronglySorted_sublist {A} (R : A → A → Prop) l k : sublist l k → StronglySorted R k → StronglySorted R l.
Proof.
  induction 1 as [|x l k Hs IH|x l k Hs IH]; intros HS; [done| |].
  - apply StronglySorted_inv in HS as [HS Hx]. constructor; [auto|]. by eapply Forall_sublist.
  - apply StronglySorted_inv in HS as [HS _]. auto.
Qed.
Lemma outbox_ok_sublist l k seq : sublist l k → outbox_ok k seq → outbox_ok l seq.
Proof.
  intros Hs (H1&H2&H3&H4). split_and!; [|by eapply Forall_sublist| |by eapply Forall_sublist].
  - eapply StronglySorted_sublist; [by apply fmap_sublist|done].
  - eapply sublist_NoDup; [done|by apply fmap_sublist].
Qed.

Lemma update_commands id f (l : list OutboxRow) :
  (∀ o, command (f o) = command o) → command <$> ((λ o, if ob_id o =? id then f o else o) <$> l) = command <$> l.
Proof.
  intros Hf. rewrite <- list_fmap_compose. apply list_fmap_ext. intros _ o _. simpl. by destruct (ob_id o =? id).
Qed.

Lemma outbox_step s s' :
  outbox_ok (db_outbox s) (db_outbox_seq s) → store_step s s' → outbox_ok (db_outbox s') (db_outbox_seq s').
Proof.
  intros H Hstep. destruct Hstep; run_op Hop; try untouched H.
  all: try solve [eapply outbox_ok_command; [|exact H]; apply update_commands; done].
  all: try solve [apply (outbox_ok_append (db_outbox s)); [exact H|reflexivity|by apply negb_true_iff|by split]].
  revert Hop. apply (collect_runs_ind (λ s1, outbox_ok (db_outbox s1) (db_outbox_seq s1))); [|done].
  intros run r s1 s2 H1 Hc. rewrite (cr_outbox _ _ _ _ _ Hc).
  pose proof (cr_rest _ _ _ _ _ Hc) as Hrest. injection Hrest as _ _ _ _ -> _ _ _ _ _.
  eapply outbox_ok_sublist; [apply sublist_filter|done].
Qed.

Lemma outbox_reachable s : reachable s → outbox_ok (db_outbox s) (db_outbox_seq s).
Proof.
  apply (reachable_ind (λ s, outbox_ok (db_outbox s) (db_outbox_seq s))); [|intros ?? _; apply outbox_step].
  split_and!; simpl; constructor.
Qed.

(** ** Accepted work stays in the outbox *)

Definition carries (t o : string) (r : ReceiptRow) (c : Z * string * string * OutboxPayload) : Prop :=
  c.1.1.2 = rc_run r ∧ command_receipt c.2 = rc_uid r ∧ (c.1.2 = startKey t o ∨ c.1.2 = signalKey t o).
Definition carried (l : list OutboxRow) (receipts : gmap (string * string) ReceiptRow) : Prop :=
  ∀ t o r, receipts !! (t, o) = Some r → Exists (carries t o r) (command <$> l).

Lemma carried_append l m x : carried l m → carried (l ++ [x]) m.
Proof. intros H t o r Hr. rewrite fmap_app. apply Exists_app. left. by apply H. Qed.
Lemma carried_command l k m : command <$> k = command <$> l → carried l m → carried k m.
Proof. intros E H t o r Hr. rewrite E. by apply H. Qed.
Lemma carried_insert l m t o r x :
  carried l m → carries t o r (command x) → carried (l ++ [x]) (<[(t, o) := r]> m).
Proof.
  intros H Hx t' o' r'. rewrite lookup_insert_Some, fmap_app, Exists_app. intros [[[= <- <-] <-]|[_ Hr]].
  - right. by constructor.
  - left. by apply H.
Qed.
Lemma carried_collected now run r s s' :
  carried (db_outbox s) (db_receipts s) → run_collected now run r s s' → carried (db_outbox s') (db_receipts s').
Proof.
  intros H Hc t o row. rewrite (cr_receipts _ _ _ _ _ Hc), (cr_outbox _ _ _ _ _ Hc), map_lookup_filter_Some.
  intros [Hrow Hne]. apply H in Hrow. apply Exists_exists in Hrow as (c&Hin&Hcar).
  apply Exists_exists. exists c. split; [|done]. apply list_elem_of_fmap in Hin as (ob&->&Hin).
  apply list_elem_of_fmap. exists ob. split; [done|]. apply list_elem_of_filter. split; [|done].
  intros [Ha _]. destruct Hcar as [Hcar _]. simpl in Hcar, Hne. congruence.
Qed.

Lemma carried_step s s' :
  carried (db_outbox s) (db_receipts s) → store_step s s' → carried (db_outbox s') (db_receipts s').
Proof.
  intros H Hstep. destruct Hstep; run_op Hop; try untouched H.
  all: try solve [eapply carried_command; [|exact H]; apply update_commands; done].
  all: try solve [apply (carried_insert (db_outbox s) (db_receipts s)); [exact H|split_and!; auto]].
  revert Hop. apply (collect_runs_ind (λ s1, carried (db_outbox s1) (db_receipts s1))); [|done].
  intros run r s1 s2 H1 Hc. by eapply carried_collected.
Qed.
Lemma carried_reachable s : reachable s → carried (db_outbox s) (db_receipts s).
Proof.
  apply (reachable_ind (λ s, carried (db_outbox s) (db_receipts s))); [by intros ???|intros ?? _; apply carried_step].
Qed.

(** ** Plans *)

Definition plans_ok (s : Db) : Prop :=
  map_Forall (λ h p, pl_planHash (pr_plan p) = h) (db_plans s) ∧
  map_Forall (λ _ r, is_Some (db_plans s !! run_plan r)) (db_runs s).

Definition with_plan (plan : ExecutionPlan) (now : string) (m : gmap string PlanRow) : gmap string PlanRow :=
  match m !! pl_planHash plan with Some _ => m | None => <[pl_planHash plan := mkPlanRow plan now]> m end.
Lemma with_plan_mono plan now m : m ⊆ with_plan plan now m.
Proof. unfold with_plan. destruct (m !! _) eqn:E; [done|by apply insert_subseteq]. Qed.
Lemma with_plan_some plan now m : is_Some (with_plan plan now m !! pl_planHash plan).
Proof. unfold with_plan. destruct (m !! _) eqn:E; [by rewrite E|rewrite lookup_insert_eq; eauto]. Qed.

(** New plans and updates of run rows keep every reference. *)
Lemma plans_ok_grow s s' :
  plans_ok s → (db_plans s' = db_plans s ∨ ∃ plan now, db_plans s' = with_plan plan now (db_plans s)) →
  (∀ u r, db_runs s' !! u = Some r → is_Some (db_plans s' !! run_plan r) ∨
          ∃ r0, db_runs s !! u = Some r0 ∧ run_plan r0 = run_plan r) → plans_ok s'.
Proof.
  intros [H1 H2] Hp Hr.
  assert (db_plans s ⊆ db_plans s') as Hsub.
  { destruct Hp as [->|(?&?&->)]; [done|apply with_plan_mono]. }
  split.
  - destruct Hp as [->|(plan&now&->)]; [done|]. unfold with_plan. destruct (_ !! _); [done|].
    by apply map_Forall_insert_2.
  - intros u r Hu. destruct (Hr u r Hu) as [?|(r0&Hu0&<-)]; [done|].
    destruct (H2 _ _ Hu0) as [p Hpl]. exists p. by eapply lookup_weaken.
Qed.
Lemma run_plan_alter f u0 (m : gmap string RunRow) : (∀ r, run_plan (f r) = run_plan r) →
  ∀ u r, alter f u0 m !! u = Some r → ∃ r0, m !! u = Some r0 ∧ run_plan r0 = run_plan r.
Proof.
  intros Hf u r. rewrite lookup_alter. case_decide; [subst|eauto].
  intros (r0&?&->)%fmap_Some. eauto.
Qed.

Lemma plans_collected now run r s s' : plans_ok s → run_collected now run r s s' → plans_ok s'.
Proof.
  intros [H1 H2] Hc. unfold plans_ok. rewrite (cr_plans _ _ _ _ _ Hc), (cr_runs _ _ _ _ _ Hc).
  case_bool_decide as Hd.
  - split; [by apply map_Forall_delete|]. intros u r' Hr'.
    rewrite lookup_delete_ne by (by apply not_eq_sym, (Hd u)).
    apply lookup_delete_Some in Hr' as [_ Hr']. by apply (H2 u).
  - split; [done|]. by apply map_Forall_delete.
Qed.

Lemma plans_step s s' : plans_ok s → store_step s s' → plans_ok s'.
Proof.
  intros H Hstep. destruct Hstep; run_op Hop; try untouched H.
  all: try solve [eapply plans_ok_grow; [exact H|right; do 2 eexists; reflexivity|]; intros ???; right; eauto].
  all: try solve [eapply plans_ok_grow; [exact H|by left|]; intros u0 r0 Hu; simpl in Hu; right;
    repeat (apply run_plan_alter in Hu as (?&Hu&<-); [|done]); eauto].
  - (* EnsureRun *)
    eapply plans_ok_grow; [exact H|right; exists pl, now; reflexivity|]. intros u r Hu. simpl in Hu.
    apply lookup_insert_Some in Hu as [[_ <-]|[_ Hu]]; [left; apply with_plan_some|right; eauto].
  - (* CollectRetainedRuns *)
    revert Hop. apply (collect_runs_ind plans_ok); [|done]. intros run r s1 s2 H1 Hc. by eapply plans_collected.
Qed.
Lemma plans_reachable s : reachable s → plans_ok s.
Proof. apply (reachable_ind plans_ok); [by split; intros ??|intros ?? _; apply plans_step]. Qed.

(** ** Claims *)

(** An inflight command whose lease has not expired is not handed out. *)
Definition leased (stale : string) (o : OutboxRow) : Prop :=
  ob_state o = ObInflight ∧ ∃ c, ob_claimed o = Some c ∧ str_lt c stale = false.
Lemma leased_not_claimable kind stale now o : leased stale o → claimable kind stale now o = false.
Proof. intros (Hs&c&Hc&Hl). unfold claimable. by rewrite Hs, Hc, Hl, andb_false_r. Qed.

Lemma next_claim_spec kind stale now s o :
  StronglySorted Z.lt (ob_id <$> db_outbox s) →
  next_claim kind stale now s = Some o ↔
  o ∈ db_outbox s ∧ claimable kind stale now o = true ∧
  ∀ o', o' ∈ db_outbox s → claimable kind stale now o' = true → ob_id o ≤ ob_id o'.
Proof.
  intros Hs. unfold next_claim.
  set (l := filter _ _).
  assert (∀ x, x ∈ l ↔ x ∈ db_outbox s ∧ claimable kind stale now x = true) as Hl.
  { intros x. unfold l. rewrite list_elem_of_filter. tauto. }
  pose proof (sort_by_sorted (onc ob_id Z.compare) l) as Hsort.
  assert (∀ x, x ∈ sort_by (onc ob_id Z.compare) l ↔ x ∈ l) as He by (intros; apply elem_of_sort_by; apply _).
  destruct (sort_by (onc ob_id Z.compare) l) as [|x k] eqn:E; simpl.
  - split; [done|]. intros (H1&H2&_). assert (o ∈ l) as Ho by (by apply Hl). apply He in Ho. by apply elem_of_nil in Ho.
  - assert (∀ y, y ∈ l → ob_id x ≤ ob_id y) as Hmin.
    { intros y Hy. apply He, elem_of_cons in Hy as [->|Hy]; [done|].
      apply StronglySorted_inv in Hsort as [_ Hx]. rewrite Forall_forall in Hx. specialize (Hx _ Hy). exact Hx. }
    assert (x ∈ l) as Hx by (apply He; left).
    split.
    + intros [= <-]. apply Hl in Hx as [? ?]. split_and!; [done|done|]. intros y ??. apply Hmin, Hl. done.
    + intros (H1&H2&H3). f_equal. apply Hl in Hx as [Hx1 Hx2].
      assert (ob_id x = ob_id o) as Hid by (apply Z.le_antisymm; [apply Hmin, Hl; done|by apply H3]).
      clear -Hs Hx1 H1 Hid. induction (db_outbox s) as [|y l IH]; [by apply elem_of_nil in H1|].
      simpl in Hs. apply StronglySorted_inv in Hs as [Hs Hy]. rewrite Forall_fmap, Forall_forall in Hy.
      apply elem_of_cons in H1 as [->|H1]; apply elem_of_cons in Hx1 as [->|Hx1]; [done| | |by apply IH].
      * specialize (Hy _ Hx1). simpl in Hy. lia.
      * specialize (Hy _ H1). simpl in Hy. lia.
Qed.
End History.

(** * Claims of the outbox and collection of old runs: what is handed out, and
       what retention may remove. *)

(** ** Claims *)

(** [claim] hands out the oldest command that may be claimed. *)
Definition claim_result (kind : OutboxPayload → bool) (t staleAfter : Z) (s : Db) (r : res (OutboxRow * Db)) : Prop :=
  let free o := claimable kind (rfc3339nano (t - staleAfter)) (rfc3339nano t) o = true in
  match r with
  | inr (o', s') => ∃ o, o ∈ db_outbox s ∧ free o ∧ (∀ x, x ∈ db_outbox s → free x → ob_id o ≤ ob_id x) ∧
      o' = claimed (rfc3339nano t) o ∧
      db_outbox s' = (λ x, if ob_id x =? ob_id o then claimed (rfc3339nano t) x else x) <$> db_outbox s
  | inl e => e = ErrNotFound ∧ ∀ o, o ∈ db_outbox s → ¬ free o
  end.

Lemma claim_spec kind t staleAfter s :
  StronglySorted Z.lt (ob_id <$> db_outbox s) → claim_result kind t staleAfter s (claim kind t staleAfter s).
Proof.
  intros Hs. unfold claim_result. destruct (claim kind t staleAfter s) as [e|[o' s']] eqn:E.
  - unfold claim, mbind, tx_bind, tx_row in E. destruct (next_claim _ _ _ _) as [o|] eqn:En; [done|]. injection E as <-. split; [done|].
    intros o Ho Hf. unfold next_claim in En. apply head_None in En.
    assert (o ∈ sort_by (onc ob_id Z.compare) (filter (λ o, claimable kind (rfc3339nano (t - staleAfter)) (rfc3339nano t) o = true) (db_outbox s))) as Hin.
    { rewrite elem_of_sort_by, list_elem_of_filter. done. }
    rewrite En in Hin. by apply elem_of_nil in Hin.
  - run_op E; simplify_eq. match goal with H : next_claim _ _ _ _ = Some ?x |- _ => exists x; apply next_claim_spec in H as (?&?&?); [|done] end.
    done.
Qed.

Lemma lease_excludes kind t1 d1 kind2 t2 d2 s o1 s1 o2 s2 :
  StronglySorted Z.lt (ob_id <$> db_outbox s) →
  claim kind t1 d1 s = inr (o1, s1) → str_lt (rfc3339nano t1) (rfc3339nano (t2 - d2)) = false →
  claim kind2 t2 d2 s1 = inr (o2, s2) → ob_id o2 ≠ ob_id o1.
Proof.
  intros Hs H1 Hl H2.
  pose proof (claim_spec kind t1 d1 s Hs) as C1. rewrite H1 in C1. destruct C1 as (o&Ho&_&_&->&Hs1).
  assert (ob_id <$> db_outbox s1 = ob_id <$> db_outbox s) as Hid.
  { rewrite Hs1, <- list_fmap_compose. apply list_fmap_ext. intros _ x _. simpl. by destruct (_ =? _). }
  pose proof (claim_spec kind2 t2 d2 s1 ltac:(by rewrite Hid)) as C2. rewrite H2 in C2. destruct C2 as (x&Hx&Hf&_&->&_).
  simpl. intros E. rewrite Hs1 in Hx. apply list_elem_of_fmap in Hx as (y&->&Hy).
  destruct (Z.eqb_spec (ob_id y) (ob_id o)) as [E'|E']; [|done].
  rewrite leased_not_claimable in Hf; [done|]. split; [done|]. by exists (rfc3339nano t1).
Qed.

(** ** Collection *)

Definition completed_removed (run : string) (l : list OutboxRow) : list OutboxRow :=
  filter (λ o, ¬ (ob_aggregate o = run ∧ ob_state o = ObCompleted)) l.
Lemma open_dispatch_removed u run s s' :
  db_outbox s' = completed_removed run (db_outbox s) → open_dispatch u s' = open_dispatch u s.
Proof.
  unfold open_dispatch. intros ->. unfold completed_removed. induction (db_outbox s) as [|o l IH]; [done|].
  rewrite filter_cons. case_decide as Hd; simpl; rewrite IH; [done|].
  destruct (String.eqb_spec (ob_aggregate o) u) as [Ha|]; simpl; [|done].
  destruct Hd as [_ ->]. done.
Qed.

(** Every run that disappears was asked for, terminal, and had nothing left to
    dispatch. *)
Lemma collect_runs_selects now runs : ∀ s a s', collect_runs now runs s = inr (a, s') →
  ∀ u r, db_runs s !! u = Some r → db_runs s' !! u = None →
    u ∈ runs ∧ terminalRunPhase (run_phase r) = true ∧ open_dispatch u s = false.
Proof.
  induction runs as [|run runs IH]; intros s a s' H u r Hu Hn; simpl in H.
  - tx_inv. congruence.
  - apply tx_bind_inv in H as (?&s1&H1&H2).
    apply collect_run_inv in H1 as [[_ ->]|[r0 Hc]].
    + destruct (IH _ _ _ H2 _ _ Hu Hn) as (?&?&?). split_and!; [by right|done|done].
    + destruct (decide (u = run)) as [->|Hne].
      * pose proof (cr_row _ _ _ _ _ Hc) as Hr. simplify_eq. split_and!; [left|apply Hc|apply Hc].
      * assert (db_runs s1 !! u = Some r) as Hu1 by (rewrite (cr_runs _ _ _ _ _ Hc); by rewrite lookup_delete_ne).
        destruct (IH _ _ _ H2 _ _ Hu1 Hn) as (?&?&Ho). split_and!; [by right|done|].
        by rewrite <- (open_dispatch_removed u run s s1 (cr_outbox _ _ _ _ _ Hc)).
Qed.
