(* ===== verification/EngineModel.v ===== *)
(** [internal/engine/engine.go], the component model: [buildComponentModel]
    turns a plan into components with their incoming edges and predecessors and
    orders them topologically; [nextReady] and [componentActive] read it.

    The order is a topological permutation of the components for every plan the
    function accepts, and the loop that computes it ends.

    [nodes[0]] of a component is read as [""] when the component is empty (the
    compiler never emits one; Go would panic). *)

From Stdlib Require String.
From S2P Require Import Prelude.
From S2P Require Import Json.
From S2P Require Import Plan.

Local Open Scope nat_scope.

Record planComponent := mkComponent {
  pc_nodes : list string; pc_incoming : list nat; pc_predecessors : list nat;
  pc_cyclic : bool; pc_maxIterations : Z }.
Record componentModel := mkModel {
  cm_nodes : gmap string PlanNode; cm_outgoing : gmap string (list nat);
  cm_componentByNode : gmap string nat; cm_components : list planComponent; cm_order : list nat }.

(** ** Components *)

Definition plan_nodes (plan : ExecutionPlan) : gmap string PlanNode :=
  fold_left (λ m n, <[pn_id n := n]> m) (pl_nodes plan) ∅.
(** The plan's components, then a singleton for each node they leave out. *)
Definition component_lists (plan : ExecutionPlan) : list (list string) :=
  let covered := mjoin (pl_components plan) in
  pl_components plan ++ ((λ n, [pn_id n]) <$> filter (λ n, pn_id n ∉ covered) (pl_nodes plan)).

Definition unknown_component_node (id : string) : Err := ErrMsg ("plan component references unknown node " +:+ id).
Definition unknown_edge_node (e : PlanEdge) : Err :=
  ErrMsg ("plan edge references unknown node " +:+ pe_from e +:+ " -> " +:+ pe_to e).

(** One component: every node is known, the loop bound is their maximum. *)
Fixpoint index_nodes (nodes : gmap string PlanNode) (index : nat) (ids : list string)
    (byNode : gmap string nat) (maxIterations : Z) : res (gmap string nat * Z) :=
  match ids with
  | [] => ok (byNode, maxIterations)
  | id :: ids =>
      match nodes !! id with
      | None => fail (unknown_component_node id)
      | Some node => index_nodes nodes index ids (<[id := index]> byNode) (Z.max maxIterations (pn_loopMaxIterations node))
      end
  end.
Fixpoint index_components (nodes : gmap string PlanNode) (index : nat) (lists : list (list string))
    (byNode : gmap string nat) (components : list planComponent) : res (gmap string nat * list planComponent) :=
  match lists with
  | [] => ok (byNode, components)
  | ids :: lists =>
      let ids := sort_strings ids in
      r ← index_nodes nodes index ids byNode 1;
      index_components nodes (S index) lists r.1 (components ++ [mkComponent ids [] [] false r.2])
  end.

(** ** Edges *)

Record edgeState := mkEdgeState {
  es_components : list planComponent; es_outgoing : gmap string (list nat);
  es_adjacency : gmap nat (list nat); es_indegree : list Z; es_seen : gset (nat * nat) }.

Definition mark_cyclic (self : bool) (c : planComponent) : planComponent :=
  mkComponent (pc_nodes c) (pc_incoming c) (pc_predecessors c)
    (pc_cyclic c || (1 <? length (pc_nodes c)) || self) (pc_maxIterations c).
Definition add_incoming (edge : nat) (c : planComponent) : planComponent :=
  mkComponent (pc_nodes c) (pc_incoming c ++ [edge]) (pc_predecessors c) (pc_cyclic c) (pc_maxIterations c).
Definition add_predecessor (from : nat) (c : planComponent) : planComponent :=
  mkComponent (pc_nodes c) (pc_incoming c) (pc_predecessors c ++ [from]) (pc_cyclic c) (pc_maxIterations c).
Definition push {K} `{Countable K} (k : K) (x : nat) (m : gmap K (list nat)) : gmap K (list nat) :=
  <[k := default [] (m !! k) ++ [x]]> m.

Definition add_edge (byNode : gmap string nat) (index : nat) (edge : PlanEdge) (st : edgeState) : res edgeState :=
  match byNode !! pe_from edge, byNode !! pe_to edge with
  | Some from, Some to =>
      let outgoing := push (pe_from edge) index (es_outgoing st) in
      if from =? to then
        ok (mkEdgeState (alter (mark_cyclic (String.eqb (pe_from edge) (pe_to edge))) from (es_components st))
              outgoing (es_adjacency st) (es_indegree st) (es_seen st))
      else
        let components := alter (add_incoming index) to (es_components st) in
        if decide ((from, to) ∈ es_seen st) then
          ok (mkEdgeState components outgoing (es_adjacency st) (es_indegree st) (es_seen st))
        else
          ok (mkEdgeState (alter (add_predecessor from) to components) outgoing (push from to (es_adjacency st))
                (alter (λ d, d + 1)%Z to (es_indegree st)) ({[(from, to)]} ∪ es_seen st))
  | _, _ => fail (unknown_edge_node edge)
  end.
Fixpoint add_edges (byNode : gmap string nat) (index : nat) (edges : list PlanEdge) (st : edgeState) : res edgeState :=
  match edges with
  | [] => ok st
  | e :: edges => st ← add_edge byNode index e st; add_edges byNode (S index) edges st
  end.

(** ** Order *)

Definition first_node (components : list planComponent) (i : nat) : string :=
  default "" (c ← components !! i; head (pc_nodes c)).
Definition by_first_node (components : list planComponent) : nat → nat → comparison := onc (first_node components) str_cmp.

Definition sort_predecessors (components : list planComponent) : list planComponent :=
  (λ c, mkComponent (pc_nodes c) (pc_incoming c) (sort_by (by_first_node components) (pc_predecessors c))
          (pc_cyclic c) (pc_maxIterations c)) <$> components.
Definition edge_key (edges : list PlanEdge) (i : nat) : string * string :=
  match edges !! i with Some e => (pe_to e, pe_condition e) | None => ("", "") end.
Definition sort_outgoing (edges : list PlanEdge) : list nat → list nat :=
  sort_by (lexc (onc (fst ∘ edge_key edges) str_cmp) (onc (snd ∘ edge_key edges) str_cmp)).

(** [for _, next := range adjacency[current]]: a component whose last
    predecessor was ordered becomes ready. *)
Fixpoint relax (cmp : nat → nat → comparison) (adjacent : list nat) (ready : list nat) (indegree : list Z) : list nat * list Z :=
  match adjacent with
  | [] => (ready, indegree)
  | next :: adjacent =>
      let indegree := alter (λ d, d - 1)%Z next indegree in
      if bool_decide (indegree !! next = Some 0%Z)
      then relax cmp adjacent (sort_by cmp (ready ++ [next])) indegree
      else relax cmp adjacent ready indegree
  end.
(** [None]: the fuel ran out before [ready] was empty. *)
Fixpoint order_components (fuel : nat) (cmp : nat → nat → comparison) (adjacency : nat → list nat)
    (ready : list nat) (indegree : list Z) (order : list nat) : option (list nat) :=
  match ready with
  | [] => Some order
  | current :: ready =>
      match fuel with
      | O => None
      | S fuel =>
          let '(ready, indegree) := relax cmp (adjacency current) ready indegree in
          order_components fuel cmp adjacency ready indegree (order ++ [current])
      end
  end.

Definition initial_ready (cmp : nat → nat → comparison) (indegree : list Z) : list nat :=
  sort_by cmp (filter (λ i, indegree !! i = Some 0%Z) (seq 0 (length indegree))).

Definition buildComponentModel (plan : ExecutionPlan) : res componentModel :=
  let nodes := plan_nodes plan in
  r ← index_components nodes 0 (component_lists plan) ∅ [];
  let '(byNode, components) := r in
  st ← add_edges byNode 0 (pl_edges plan) (mkEdgeState components ∅ ∅ (replicate (length components) 0%Z) ∅);
  let cmp := by_first_node (es_components st) in
  let components := sort_predecessors (es_components st) in
  match order_components (length components) cmp (λ i, default [] (es_adjacency st !! i))
          (initial_ready cmp (es_indegree st)) (es_indegree st) [] with
  | Some order =>
      if (length order =? length components) then
        ok (mkModel nodes (sort_outgoing (pl_edges plan) <$> es_outgoing st) byNode components order)
      else fail (ErrMsg "plan component graph is cyclic")
  | None => fail (ErrMsg "fuel")
  end.

(** ** Reads of the model *)

Fixpoint nextReady_from (components : list planComponent) (pending : list nat) (completed : list bool) (position : nat) : option nat :=
  match pending with
  | [] => None
  | i :: pending =>
      if forallb (λ p, default false (completed !! p)) (default [] (pc_predecessors <$> components !! i))
      then Some position
      else nextReady_from components pending completed (S position)
  end.
(** The position in [pending]; Go's [-1] is [None]. *)
Definition nextReady (m : componentModel) (pending : list nat) (completed : list bool) : option nat :=
  nextReady_from (cm_components m) pending completed 0.

Definition incoming (m : componentModel) (i : nat) : list nat := default [] (pc_incoming <$> cm_components m !! i).
Definition predecessors (m : componentModel) (i : nat) : list nat := default [] (pc_predecessors <$> cm_components m !! i).
Definition componentActive (m : componentModel) (i : nat) (edgeActive : list bool) : bool :=
  match incoming m i with
  | [] => true
  | l => existsb (λ e, default false (edgeActive !! e)) l
  end.

Definition outgoing (m : componentModel) (nodeID : string) : list nat := default [] (cm_outgoing m !! nodeID).
Definition outgoingEdges (m : componentModel) (nodeID : string) (plan : ExecutionPlan) : list PlanEdge :=
  omap (λ i, pl_edges plan !! i) (outgoing m nodeID).
