(* ===== verification/EngineOrder.v ===== *)
(** The order of [buildComponentModel]: Kahn's algorithm with a sorted ready
    list ends and lists every component after its predecessors. *)

From Stdlib Require String.
From S2P Require Import Prelude.
From S2P Require Import Plan.
From S2P Require Import EngineModel.

Local Open Scope nat_scope.

(** [order] lists every predecessor of a member before it. *)
Definition topological (preds : nat → list nat) (order : list nat) : Prop :=
  ∀ l1 d l2, order = l1 ++ d :: l2 → ∀ p, p ∈ preds d → p ∈ l1.

Lemma topological_snoc preds order d :
  topological preds order → (∀ p, p ∈ preds d → p ∈ order) → topological preds (order ++ [d]).
Proof.
  intros H Hd l1 x l2 E p Hp. destruct l2 as [|y l2 _] using rev_ind.
  - apply app_inj_tail in E as [<- <-]. by apply Hd.
  - rewrite app_comm_cons, app_assoc in E. apply app_inj_tail in E as [E _]. by eapply H.
Qed.

Lemma filter_not_nil (l : list nat) : filter (λ p, p ∉ @nil nat) l = l.
Proof.
  induction l as [|p l IH]; [done|]. rewrite filter_cons_True by apply not_elem_of_nil. by rewrite IH.
Qed.

Section Kahn.
Context (cmp : nat → nat → comparison) `{!TotalCmp cmp} (n : nat) (adjacency preds : nat → list nat).
Hypothesis adjacency_preds : ∀ c d, d ∈ adjacency c ↔ c ∈ preds d.
Hypothesis adjacency_nodup : ∀ c, NoDup (adjacency c).
Hypothesis preds_nodup : ∀ d, NoDup (preds d).
Hypothesis adjacency_bound : ∀ c d, d ∈ adjacency c → d < n.

(** Predecessors still to be ordered. *)
Definition waiting (order : list nat) (d : nat) : nat := length (filter (λ p, p ∉ order) (preds d)).

Lemma waiting_zero order d : waiting order d = 0 ↔ ∀ p, p ∈ preds d → p ∈ order.
Proof.
  unfold waiting. rewrite length_zero_iff_nil. split.
  - intros E p Hp. destruct (decide (p ∈ order)); [done|].
    assert (p ∈ filter (λ p, p ∉ order) (preds d)) as Hin by (by apply list_elem_of_filter).
    rewrite E in Hin. by apply elem_of_nil in Hin.
  - intros H. destruct (filter _ _) as [|p l] eqn:E; [done|].
    assert (p ∈ filter (λ p, p ∉ order) (preds d)) as [Hn Hin]%list_elem_of_filter by (rewrite E; left).
    by apply H in Hin.
Qed.

Lemma waiting_snoc order c d : c ∉ order →
  waiting order d = waiting (order ++ [c]) d + (if decide (d ∈ adjacency c) then 1 else 0).
Proof.
  intros Hc. unfold waiting.
  assert (∀ l, NoDup l → length (filter (λ p, p ∉ order) l) =
    length (filter (λ p, p ∉ order ++ [c]) l) + (if decide (c ∈ l) then 1 else 0)) as Hl.
  { induction 1 as [|x l Hx Hl IH]; [by rewrite decide_False by apply not_elem_of_nil|]. rewrite !filter_cons.
    destruct (decide (x = c)) as [->|Hne].
    - rewrite (decide_True (P := c ∉ order)) by done.
      rewrite (decide_False (P := c ∉ order ++ [c])) by (rewrite elem_of_app, list_elem_of_singleton; intuition congruence).
      simpl. rewrite IH, (decide_False (P := c ∈ l)), (decide_True (P := c ∈ c :: l)) by (done || left). lia.
    - rewrite (decide_ext (c ∈ x :: l) (c ∈ l)) by (rewrite elem_of_cons; intuition congruence).
      assert (x ∉ order ++ [c] ↔ x ∉ order) as Heq by (rewrite elem_of_app, list_elem_of_singleton; intuition congruence).
      destruct (decide (x ∉ order)) as [Ho|Ho].
      + rewrite (decide_True (P := x ∉ order ++ [c])) by tauto. simpl. by rewrite IH.
      + rewrite (decide_False (P := x ∉ order ++ [c])) by tauto. by rewrite IH. }
  rewrite Hl by done. f_equal. pose proof (adjacency_preds c d). repeat case_decide; tauto.
Qed.

(** The state while [rest] of the current component's successors remain. *)
Record kahn (order ready rest : list nat) (indegree : list Z) : Prop := mkKahn {
  k_length : length indegree = n;
  k_nodup : NoDup (order ++ ready);
  k_bound : ∀ d, d ∈ order ++ ready → d < n;
  k_indegree : ∀ d, d < n → indegree !! d = Some (Z.of_nat (waiting order d + if decide (d ∈ rest) then 1 else 0));
  k_ready : ∀ d, d < n → d ∈ order ++ ready ↔ indegree !! d = Some 0%Z;
  k_topological : topological preds order }.

Lemma kahn_relax order rest : ∀ ready indegree,
  NoDup rest → (∀ d, d ∈ rest → d < n) → kahn order ready rest indegree →
  kahn order (relax cmp rest ready indegree).1 [] (relax cmp rest ready indegree).2.
Proof.
  induction rest as [|x rest IH]; intros ready indegree Hnd Hb H; [done|].
  apply NoDup_cons in Hnd as [Hx Hnd].
  assert (x < n) as Hxn by (apply Hb; left). assert (∀ d, d ∈ rest → d < n) as Hb' by (intros; apply Hb; by right).
  destruct H as [Hlen Hdup Hbd Hin Hrd Htop].
  assert (indegree !! x = Some (Z.of_nat (waiting order x + 1))) as Ex.
  { rewrite Hin by done. by rewrite decide_True by left. }
  set (indegree' := alter (λ d, d - 1)%Z x indegree).
  assert (indegree' !! x = Some (Z.of_nat (waiting order x))) as Ex'.
  { unfold indegree'. rewrite list_lookup_alter_eq, Ex. simpl. f_equal. lia. }
  assert (∀ d, d ≠ x → indegree' !! d = indegree !! d) as Hne.
  { intros d Hd. unfold indegree'. by rewrite list_lookup_alter_ne. }
  assert (x ∉ order ++ ready) as Hnot.
  { rewrite Hrd, Ex by done. intros [=]. lia. }
  assert (∀ d, d < n → indegree' !! d = Some (Z.of_nat (waiting order d + if decide (d ∈ rest) then 1 else 0))) as Hin'.
  { intros d Hd. destruct (decide (d = x)) as [->|Hdx].
    - rewrite Ex', decide_False by done. f_equal. lia.
    - rewrite Hne, Hin by done. by rewrite (decide_ext (d ∈ x :: rest) (d ∈ rest)) by (rewrite elem_of_cons; intuition congruence). }
  simpl. fold indegree'. case_bool_decide as Hz.
  - apply IH; [done|done|].
    assert (order ++ sort_by cmp (ready ++ [x]) ≡ₚ order ++ ready ++ [x]) as Hperm by (by rewrite sort_by_perm).
    split.
    + by unfold indegree'; rewrite length_alter.
    + rewrite Hperm, app_assoc. apply NoDup_app. split_and!; [done| |apply NoDup_singleton].
      intros y Hy ->%list_elem_of_singleton. done.
    + intros d. rewrite Hperm, app_assoc, elem_of_app, list_elem_of_singleton. intros [?| ->]; [by apply Hbd|done].
    + done.
    + intros d Hd. rewrite Hperm, app_assoc, elem_of_app, list_elem_of_singleton, Hrd by done.
      destruct (decide (d = x)) as [->|Hdx]; [tauto|]. rewrite (Hne d) by done. tauto.
    + done.
  - apply IH; [done|done|]. split; [|done|done|done| |done].
    + by unfold indegree'; rewrite length_alter.
    + intros d Hd. rewrite Hrd by done. destruct (decide (d = x)) as [->|Hdx]; [|by rewrite (Hne d)].
      rewrite Ex. split; [intros [=]; lia|done].
Qed.

Lemma kahn_next order current ready indegree :
  kahn order (current :: ready) [] indegree →
  kahn (order ++ [current]) (relax cmp (adjacency current) ready indegree).1 []
    (relax cmp (adjacency current) ready indegree).2.
Proof.
  intros [Hlen Hdup Hbd Hin Hrd Htop].
  assert (current < n) as Hc by (apply Hbd; rewrite elem_of_app; right; left).
  assert (current ∉ order) as Hco.
  { apply NoDup_app in Hdup as (_&Hd&_). intros Hin'. apply (Hd _ Hin'). left. }
  assert (∀ p, p ∈ preds current → p ∈ order) as Hp.
  { apply waiting_zero. assert (indegree !! current = Some 0%Z) as E by (apply Hrd; [done|]; rewrite elem_of_app; right; left).
    rewrite Hin in E by done. injection E as E. lia. }
  apply kahn_relax; [done|intros d; apply adjacency_bound|].
  assert (order ++ current :: ready = (order ++ [current]) ++ ready) as Eq by (by rewrite <- app_assoc).
  rewrite Eq in *. split; [done|done|done| |done|by apply topological_snoc].
  intros d Hd. rewrite Hin by done. rewrite (waiting_snoc order current d) by done. f_equal.
  rewrite (decide_False (P := d ∈ [])) by apply not_elem_of_nil. lia.
Qed.

Lemma kahn_length order ready rest indegree : kahn order ready rest indegree → length (order ++ ready) ≤ n.
Proof.
  intros H. rewrite <- (length_seq n 0). apply submseteq_length, NoDup_submseteq; [apply H|].
  intros d Hd. apply elem_of_seq. pose proof (k_bound _ _ _ _ H _ Hd). lia.
Qed.

(** The loop ends with nothing ready. *)
Lemma order_components_final fuel : ∀ ready indegree order,
  kahn order ready [] indegree → n ≤ fuel + length order →
  ∃ result indegree', order_components fuel cmp adjacency ready indegree order = Some result ∧ kahn result [] [] indegree'.
Proof.
  induction fuel as [|fuel IH]; intros ready indegree order H Hf.
  - destruct ready as [|c ready]; [by exists order, indegree|].
    pose proof (kahn_length _ _ _ _ H) as Hl. rewrite length_app in Hl. simpl in *. lia.
  - destruct ready as [|c ready]; [by exists order, indegree|].
    simpl. pose proof (kahn_next _ _ _ _ H) as Hn. destruct (relax _ _ _ _) as [ready' indegree'].
    apply IH; [done|]. rewrite length_app. simpl. lia.
Qed.

(** Its result is a topological list of the components. *)
Lemma order_components_total fuel ready indegree order :
  kahn order ready [] indegree → n ≤ fuel + length order →
  ∃ result, order_components fuel cmp adjacency ready indegree order = Some result ∧
    NoDup result ∧ (∀ d, d ∈ result → d < n) ∧ topological preds result.
Proof.
  intros H Hf. destruct (order_components_final fuel ready indegree order H Hf) as (result&indegree'&E&[? Hd Hb ? ? ?]).
  exists result. rewrite app_nil_r in *. done.
Qed.

(** What the loop leaves out has a predecessor it leaves out. *)
Lemma kahn_final order indegree d : kahn order [] [] indegree → d < n → (∀ p, p ∈ preds d → p ∈ order) → d ∈ order.
Proof.
  intros [_ _ _ Hin Hrd _] Hd Hp. rewrite <- (app_nil_r order). apply Hrd; [done|].
  rewrite Hin by done. rewrite decide_False by apply not_elem_of_nil. by rewrite (proj2 (waiting_zero order d) Hp).
Qed.

Lemma kahn_initial indegree :
  length indegree = n → (∀ d, d < n → indegree !! d = Some (Z.of_nat (length (preds d)))) →
  kahn [] (initial_ready cmp indegree) [] indegree.
Proof.
  intros Hlen Hin. unfold initial_ready.
  assert (∀ d, d ∈ sort_by cmp (filter (λ i, indegree !! i = Some 0%Z) (seq 0 (length indegree))) ↔
    d < n ∧ indegree !! d = Some 0%Z) as Hrd.
  { intros d. rewrite elem_of_sort_by by done. rewrite list_elem_of_filter, elem_of_seq. rewrite Hlen.
    split; [intros [? ?]|intros [? ?]]; split; done || lia. }
  split; rewrite ?app_nil_l.
  - done.
  - apply sort_by_nodup, NoDup_filter, NoDup_seq; done.
  - intros d Hd. by apply Hrd.
  - intros d Hd. rewrite Hin by done. unfold waiting. rewrite decide_False by apply not_elem_of_nil.
    by rewrite filter_not_nil, Nat.add_0_r.
  - intros d Hd. rewrite Hrd. tauto.
  - intros l1 d l2 E. by destruct l1.
Qed.
End Kahn.

(** ** The state [add_edges] builds *)

Definition adjacent_of (st : edgeState) (c : nat) : list nat := default [] (es_adjacency st !! c).
Definition predecessors_of (st : edgeState) (d : nat) : list nat := default [] (pc_predecessors <$> es_components st !! d).

Record edges_ok (n : nat) (st : edgeState) : Prop := mkEdgesOk {
  eo_components : length (es_components st) = n;
  eo_indegree_length : length (es_indegree st) = n;
  eo_bound : ∀ c d, (c, d) ∈ es_seen st → d < n;
  eo_adjacency : ∀ c d, d ∈ adjacent_of st c ↔ (c, d) ∈ es_seen st;
  eo_predecessors : ∀ c d, c ∈ predecessors_of st d ↔ (c, d) ∈ es_seen st;
  eo_adjacency_nodup : ∀ c, NoDup (adjacent_of st c);
  eo_predecessors_nodup : ∀ d, NoDup (predecessors_of st d);
  eo_indegree : ∀ d, d < n → es_indegree st !! d = Some (Z.of_nat (length (predecessors_of st d))) }.

Lemma predecessors_alter f i st l :
  (∀ c, pc_predecessors (f c) = pc_predecessors c) → es_components st = alter f i l →
  ∀ d, predecessors_of st d = default [] (pc_predecessors <$> l !! d).
Proof.
  intros Hf E d. unfold predecessors_of. rewrite E, list_lookup_alter. case_decide; [subst|done].
  destruct (l !! d); simpl; by rewrite ?Hf.
Qed.

(** Changing only what the order does not read. *)
Lemma edges_ok_same n st st' f i :
  (∀ c, pc_predecessors (f c) = pc_predecessors c) → es_components st' = alter f i (es_components st) →
  es_adjacency st' = es_adjacency st → es_indegree st' = es_indegree st → es_seen st' = es_seen st →
  edges_ok n st → edges_ok n st'.
Proof.
  intros Hf Ec Ea Ei Es [H1 H2 H3 H4 H5 H6 H7 H8].
  assert (∀ d, predecessors_of st' d = predecessors_of st d) as Ep.
  { intros d. by rewrite (predecessors_alter _ _ _ _ Hf Ec). }
  assert (∀ c, adjacent_of st' c = adjacent_of st c) as Ead by (intros c; unfold adjacent_of; by rewrite Ea).
  split; rewrite ?Ei, ?Es; intros; rewrite ?Ep, ?Ead; eauto.
  by rewrite Ec, length_alter.
Qed.

Lemma edges_ok_new n st from to g :
  to < n → (from, to) ∉ es_seen st → (∀ c, pc_predecessors (g c) = pc_predecessors c) →
  edges_ok n st →
  edges_ok n (mkEdgeState (alter (add_predecessor from) to (alter g to (es_components st))) (es_outgoing st)
    (push from to (es_adjacency st)) (alter (λ d, d + 1)%Z to (es_indegree st)) ({[(from, to)]} ∪ es_seen st)).
Proof.
  intros Hto Hnew Hg [H1 H2 H3 H4 H5 H6 H7 H8]. set (st' := mkEdgeState _ _ _ _ _).
  assert (∀ c, adjacent_of st' c = if decide (c = from) then adjacent_of st c ++ [to] else adjacent_of st c) as Ea.
  { intros c. unfold adjacent_of, st', push. simpl. case_decide; [subst; by rewrite lookup_insert_eq|].
    by rewrite lookup_insert_ne. }
  assert (∀ d, predecessors_of st' d = if decide (d = to) then predecessors_of st d ++ [from] else predecessors_of st d) as Ep.
  { intros d. unfold predecessors_of, st'. simpl. rewrite list_lookup_alter. case_decide as E1; case_decide; try congruence; subst.
    - rewrite list_lookup_alter_eq. destruct (lookup_lt_is_Some_2 (es_components st) d) as [c Hc]; [lia|].
      rewrite Hc. simpl. by rewrite Hg.
    - by rewrite list_lookup_alter_ne. }
  split; simpl.
  - by rewrite !length_alter.
  - by rewrite length_alter.
  - intros c d. rewrite elem_of_union, elem_of_singleton. intros [[= -> ->]|?]; [done|by eapply H3].
  - intros c d. rewrite Ea, elem_of_union, elem_of_singleton. case_decide; subst.
    + rewrite elem_of_app, list_elem_of_singleton, H4. intuition congruence.
    + rewrite H4. intuition congruence.
  - intros c d. rewrite Ep, elem_of_union, elem_of_singleton. case_decide; subst.
    + rewrite elem_of_app, list_elem_of_singleton, H5. intuition congruence.
    + rewrite H5. intuition congruence.
  - intros c. rewrite Ea. case_decide; [subst|done]. apply NoDup_app. split_and!; [done| |apply NoDup_singleton].
    intros x Hx ->%list_elem_of_singleton. by apply Hnew, H4.
  - intros d. rewrite Ep. case_decide; [subst|done]. apply NoDup_app. split_and!; [done| |apply NoDup_singleton].
    intros x Hx ->%list_elem_of_singleton. by apply Hnew, H5.
  - intros d Hd. rewrite Ep, list_lookup_alter. case_decide as E1; case_decide; try congruence; subst; [|by apply H8].
    rewrite H8 by done. simpl. rewrite length_app. simpl. f_equal. lia.
Qed.

Lemma edges_ok_outgoing n st o : edges_ok n st →
  edges_ok n (mkEdgeState (es_components st) o (es_adjacency st) (es_indegree st) (es_seen st)).
Proof. intros H. destruct H. by split. Qed.

Lemma add_edge_ok n byNode index e st st' :
  (∀ id i, byNode !! id = Some i → i < n) → edges_ok n st → add_edge byNode index e st = inr st' →
  edges_ok n st' ∧ es_seen st ⊆ es_seen st' ∧
  ∃ i j, byNode !! pe_from e = Some i ∧ byNode !! pe_to e = Some j ∧ (i = j ∨ (i, j) ∈ es_seen st').
Proof.
  intros Hb H Hadd. unfold add_edge in Hadd.
  destruct (byNode !! pe_from e) as [from|] eqn:Ef; [|done]. destruct (byNode !! pe_to e) as [to|] eqn:Et; [|done].
  destruct (Nat.eqb_spec from to) as [->|Hne].
  - injection Hadd as <-. split_and!; [|done|by exists to, to; auto].
    eapply edges_ok_same; [|reflexivity|reflexivity|reflexivity|reflexivity|exact H]. done.
  - case_decide as Hs; injection Hadd as <-.
    + split_and!; [|done|by exists from, to; auto].
      eapply edges_ok_same; [|reflexivity|reflexivity|reflexivity|reflexivity|exact H]. done.
    + split_and!.
      * apply (edges_ok_outgoing n (mkEdgeState _ (es_outgoing st) _ _ _)).
        apply edges_ok_new; [by eapply Hb|done|done|done].
      * simpl. set_solver.
      * exists from, to. split_and!; [done|done|right; simpl; set_solver].
Qed.

Lemma add_edges_ok n byNode edges : ∀ index st st',
  (∀ id i, byNode !! id = Some i → i < n) → edges_ok n st → add_edges byNode index edges st = inr st' →
  edges_ok n st' ∧ es_seen st ⊆ es_seen st' ∧
  ∀ e, e ∈ edges → ∃ i j, byNode !! pe_from e = Some i ∧ byNode !! pe_to e = Some j ∧ (i = j ∨ (i, j) ∈ es_seen st').
Proof.
  induction edges as [|e edges IH]; intros index st st' Hb H Hadd; simpl in Hadd.
  - injection Hadd as <-. split_and!; [done|done|]. intros e Hin. by apply elem_of_nil in Hin.
  - apply res_bind_ok in Hadd as (st1&H1&H2). destruct (add_edge_ok _ _ _ _ _ _ Hb H H1) as (Hok&Hsub&Hedge).
    destruct (IH _ _ _ Hb Hok H2) as (Hok'&Hsub'&Hedges). split_and!; [done|by etrans|].
    intros e' [->|Hin]%elem_of_cons; [|by apply Hedges].
    destruct Hedge as (i&j&?&?&[?|?]); exists i, j; (split_and!; [done|done|]); [by left|right; by apply Hsub'].
Qed.

Lemma index_nodes_bound nodes index n ids : ∀ byNode m r,
  index < n → (∀ id i, byNode !! id = Some i → i < n) → index_nodes nodes index ids byNode m = inr r →
  ∀ id i, r.1 !! id = Some i → i < n.
Proof.
  induction ids as [|x ids IH]; intros byNode m r Hi Hb H; simpl in H; [by injection H as <-|].
  destruct (nodes !! x); [|done]. eapply IH; [done| |exact H].
  intros id i. rewrite lookup_insert_Some. intros [[_ <-]|[_ ?]]; [done|by eapply Hb].
Qed.
Lemma index_components_bound nodes lists : ∀ index byNode components r n,
  index + length lists = n → length components = index → Forall (λ c, pc_predecessors c = []) components →
  (∀ id i, byNode !! id = Some i → i < n) → index_components nodes index lists byNode components = inr r →
  length r.2 = n ∧ Forall (λ c, pc_predecessors c = []) r.2 ∧ ∀ id i, r.1 !! id = Some i → i < n.
Proof.
  induction lists as [|ids lists IH]; intros index byNode components r n Hn Hl Hp Hb H; simpl in *.
  - injection H as <-. split_and!; [simpl; lia|done|done].
  - apply res_bind_ok in H as (x&H1&H2). eapply (IH (S index)); [| | | |exact H2].
    + lia.
    + rewrite length_app. simpl. lia.
    + apply Forall_app. split; [done|]. by repeat constructor.
    + eapply index_nodes_bound; [|exact Hb|exact H1]. lia.
Qed.

Lemma edges_ok_initial components n :
  length components = n → Forall (λ c, pc_predecessors c = []) components →
  edges_ok n (mkEdgeState components ∅ ∅ (replicate n 0%Z) ∅).
Proof.
  intros Hn Hp.
  assert (∀ d, predecessors_of (mkEdgeState components ∅ ∅ (replicate n 0%Z) ∅) d = []) as E.
  { intros d. unfold predecessors_of. simpl. destruct (components !! d) eqn:E; [|done]. simpl.
    by eapply (Forall_lookup_1 _ _ _ _ Hp). }
  split; simpl.
  - done.
  - by rewrite length_replicate.
  - set_solver.
  - intros c d. unfold adjacent_of. simpl. rewrite lookup_empty. simpl. set_solver.
  - intros c d. rewrite E. set_solver.
  - intros c. unfold adjacent_of. simpl. rewrite lookup_empty. apply NoDup_nil_2.
  - intros d. rewrite E. apply NoDup_nil_2.
  - intros d Hd. rewrite E. simpl. by apply lookup_replicate_2.
Qed.

(** ** The model of a plan *)

Lemma sorted_predecessors st d :
  default [] (pc_predecessors <$> sort_predecessors (es_components st) !! d) ≡ₚ predecessors_of st d.
Proof.
  unfold sort_predecessors, predecessors_of. rewrite list_lookup_fmap.
  destruct (es_components st !! d); simpl; [|done]. apply sort_by_perm.
Qed.

(** Every component once, after its predecessors; along every edge of the plan
    the source's component is the same or a predecessor. *)
Record model_ok (plan : ExecutionPlan) (m : componentModel) : Prop := mkModelOk {
  mo_nodes : cm_nodes m = plan_nodes plan;
  mo_permutation : cm_order m ≡ₚ seq 0 (length (cm_components m));
  mo_topological : topological (predecessors m) (cm_order m);
  mo_edges : ∀ e, e ∈ pl_edges plan → ∃ i j, cm_componentByNode m !! pe_from e = Some i ∧
    cm_componentByNode m !! pe_to e = Some j ∧ (i = j ∨ i ∈ predecessors m j) }.

(** What the edge loop leaves. *)
Lemma build_edges plan r st :
  index_components (plan_nodes plan) 0 (component_lists plan) ∅ [] = inr r →
  add_edges r.1 0 (pl_edges plan) (mkEdgeState r.2 ∅ ∅ (replicate (length r.2) 0%Z) ∅) = inr st →
  edges_ok (length r.2) st ∧
  ∀ e, e ∈ pl_edges plan → ∃ i j, r.1 !! pe_from e = Some i ∧ r.1 !! pe_to e = Some j ∧ (i = j ∨ (i, j) ∈ es_seen st).
Proof.
  intros Hr Hst.
  destruct (index_components_bound (plan_nodes plan) (component_lists plan) 0 ∅ [] r _ eq_refl eq_refl (Forall_nil_2 _)) as (Hlen&Hp&Hb); [|done|].
  { intros id i. by rewrite lookup_empty. }
  rewrite <- Hlen in Hb.
  destruct (add_edges_ok _ _ _ _ _ _ Hb (edges_ok_initial _ _ eq_refl Hp) Hst) as (Hok&_&Hedges). done.
Qed.

(** Kahn's loop then ends with nothing ready. *)
Lemma build_final plan r st :
  index_components (plan_nodes plan) 0 (component_lists plan) ∅ [] = inr r →
  add_edges r.1 0 (pl_edges plan) (mkEdgeState r.2 ∅ ∅ (replicate (length r.2) 0%Z) ∅) = inr st →
  edges_ok (length r.2) st ∧
  ∃ order indegree, order_components (length (es_components st)) (by_first_node (es_components st)) (adjacent_of st)
      (initial_ready (by_first_node (es_components st)) (es_indegree st)) (es_indegree st) [] = Some order ∧
    kahn (length r.2) (predecessors_of st) order [] [] indegree.
Proof.
  intros Hr Hst. destruct (build_edges _ _ _ Hr Hst) as [Hok _]. split; [done|].
  assert (kahn (length r.2) (predecessors_of st) [] (initial_ready (by_first_node (es_components st)) (es_indegree st)) [] (es_indegree st)) as Hk.
  { apply kahn_initial; apply Hok. }
  eapply order_components_final; [| | | |exact Hk|]; try solve [apply Hok].
  - intros c d. by rewrite (eo_adjacency _ _ Hok), (eo_predecessors _ _ Hok).
  - intros c d. rewrite (eo_adjacency _ _ Hok). apply (eo_bound _ _ Hok).
  - rewrite (eo_components _ _ Hok). simpl. lia.
Qed.

Lemma build_stages plan r st :
  index_components (plan_nodes plan) 0 (component_lists plan) ∅ [] = inr r →
  add_edges r.1 0 (pl_edges plan) (mkEdgeState r.2 ∅ ∅ (replicate (length r.2) 0%Z) ∅) = inr st →
  edges_ok (length r.2) st ∧
  (∀ e, e ∈ pl_edges plan → ∃ i j, r.1 !! pe_from e = Some i ∧ r.1 !! pe_to e = Some j ∧ (i = j ∨ (i, j) ∈ es_seen st)) ∧
  ∃ order, order_components (length (es_components st)) (by_first_node (es_components st)) (adjacent_of st)
      (initial_ready (by_first_node (es_components st)) (es_indegree st)) (es_indegree st) [] = Some order ∧
    NoDup order ∧ (∀ d, d ∈ order → d < length r.2) ∧ topological (predecessors_of st) order.
Proof.
  intros Hr Hst. destruct (build_edges _ _ _ Hr Hst) as [Hok Hedges].
  destruct (build_final _ _ _ Hr Hst) as (_&order&indegree&Eo&[? Hd Hb ? ? ?]).
  split_and!; [done|done|]. exists order. rewrite app_nil_r in *. done.
Qed.

Lemma buildComponentModel_ok plan m : buildComponentModel plan = inr m → model_ok plan m.
Proof.
  unfold buildComponentModel. intros H. apply res_bind_ok in H as ([byNode components]&Hr&H).
  apply res_bind_ok in H as (st&Hst&H).
  destruct (build_stages plan (byNode, components) st Hr Hst) as (Hok&Hedges&order&Eo&Hnd&Hb&Htop). simpl in *.
  assert (length (sort_predecessors (es_components st)) = length (es_components st)) as El by apply length_fmap.
  rewrite El in H. change (λ i, default [] (es_adjacency st !! i)) with (adjacent_of st) in H. rewrite Eo in H.
  destruct (Nat.eqb_spec (length order) (length (es_components st))) as [E|]; [|done]. injection H as <-.
  split; simpl.
  - done.
  - rewrite El. apply submseteq_length_Permutation.
    + apply NoDup_submseteq; [done|]. intros d Hd. apply elem_of_seq. rewrite (eo_components _ _ Hok). apply Hb in Hd. lia.
    + rewrite length_seq. lia.
  - intros l1 d l2 Eq p Hp. eapply (Htop l1 d l2); [done|]. unfold predecessors in Hp. simpl in Hp.
    by rewrite sorted_predecessors in Hp.
  - intros e He. destruct (Hedges e He) as (i&j&Hi&Hj&Hij). exists i, j. split_and!; [done|done|].
    destruct Hij as [->|Hs]; [by left|right]. unfold predecessors. simpl.
    by rewrite sorted_predecessors, (eo_predecessors _ _ Hok).
Qed.

(** The fuel is enough: an error is one of the code's. *)
Lemma index_components_error nodes lists : ∀ index byNode components e,
  index_components nodes index lists byNode components = inl e → ∃ id, e = unknown_component_node id.
Proof.
  induction lists as [|ids lists IH]; intros index byNode components e H; simpl in H; [done|].
  destruct (index_nodes _ _ _ _ _) as [e'|r] eqn:E; simpl in H; [|by eapply IH].
  injection H as <-. clear IH. revert E. generalize (1%Z), byNode.
  induction (sort_strings ids) as [|id l IH]; intros z byNode' E; simpl in E; [done|].
  destruct (nodes !! id); [by eapply IH|]. injection E as <-. eauto.
Qed.
Lemma add_edges_error byNode edges : ∀ index st e, add_edges byNode index edges st = inl e → ∃ x, e = unknown_edge_node x.
Proof.
  induction edges as [|x edges IH]; intros index st e H; simpl in H; [done|].
  destruct (add_edge byNode index x st) as [e'|st'] eqn:E; simpl in H; [|by eapply IH].
  injection H as <-. unfold add_edge in E. repeat case_match; try done; injection E as <-; eauto.
Qed.
Lemma buildComponentModel_error plan e : buildComponentModel plan = inl e →
  (∃ id, e = unknown_component_node id) ∨ (∃ x, e = unknown_edge_node x) ∨ e = ErrMsg "plan component graph is cyclic".
Proof.
  unfold buildComponentModel. destruct (index_components _ _ _ _ _) as [e'|[byNode components]] eqn:Hr; simpl.
  { intros [= <-]. left. by eapply index_components_error. }
  destruct (add_edges _ _ _ _) as [e'|st] eqn:Hst; simpl.
  { intros [= <-]. right; left. by eapply add_edges_error. }
  destruct (build_stages plan (byNode, components) st Hr Hst) as (Hok&_&order&Eo&_).
  unfold sort_predecessors. rewrite length_fmap.
  change (λ i, default [] (es_adjacency st !! i)) with (adjacent_of st). rewrite Eo.
  destruct (_ =? _); [done|]. intros [= <-]. auto.
Qed.

(** * The plans [buildComponentModel] accepts: when the components are the classes
       of mutually reachable nodes and the edges join known nodes, no error occurs;
       in particular the graph of the components is acyclic, so Kahn's algorithm
       orders all of them. *)

Local Open Scope nat_scope.

Definition plan_edge (plan : ExecutionPlan) (u v : string) : Prop :=
  ∃ e, e ∈ pl_edges plan ∧ pe_from e = u ∧ pe_to e = v.

(** The components partition the nodes into the strongly connected ones. *)
Record condensed (plan : ExecutionPlan) : Prop := mkCondensed {
  cd_known : ∀ id, id ∈ mjoin (pl_components plan) ↔ ∃ n, n ∈ pl_nodes plan ∧ pn_id n = id;
  cd_edges : ∀ u v, plan_edge plan u v → u ∈ mjoin (pl_components plan) ∧ v ∈ mjoin (pl_components plan);
  cd_nodup : NoDup (mjoin (pl_components plan));
  cd_classes : ∀ c u v, c ∈ pl_components plan → u ∈ c →
    v ∈ c ↔ rtc (plan_edge plan) u v ∧ rtc (plan_edge plan) v u
}.

(** ** Components *)

Lemma plan_nodes_known plan n : n ∈ pl_nodes plan → is_Some (plan_nodes plan !! pn_id n).
Proof.
  unfold plan_nodes. rewrite <- fold_left_rev_right. intros Hn.
  assert (Hin : n ∈ rev (pl_nodes plan)) by (by apply list_elem_of_In, (proj1 (in_rev _ _)), list_elem_of_In).
  induction (rev (pl_nodes plan)) as [|m l IH]; [by apply elem_of_nil in Hin|]. simpl.
  destruct (decide (pn_id m = pn_id n)) as [E|E]; [rewrite E, lookup_insert_eq; eauto|].
  rewrite lookup_insert_ne by done. apply IH. by apply elem_of_cons in Hin as [->|].
Qed.

Lemma component_lists_covered plan : condensed plan → component_lists plan = pl_components plan.
Proof.
  intros H. unfold component_lists. destruct (filter _ (pl_nodes plan)) as [|n l] eqn:E; [by rewrite app_nil_r|].
  assert (Hn : n ∈ filter (λ n, pn_id n ∉ mjoin (pl_components plan)) (pl_nodes plan)) by (rewrite E; left).
  apply list_elem_of_filter in Hn as [Hno Hn]. destruct Hno. apply (cd_known _ H). eauto.
Qed.

Lemma index_nodes_total nodes index : ∀ ids byNode m, (∀ id, id ∈ ids → is_Some (nodes !! id)) →
  ∃ r, index_nodes nodes index ids byNode m = inr r ∧
    ∀ id i, r.1 !! id = Some i ↔ (id ∈ ids ∧ i = index) ∨ ((id ∉ ids) ∧ byNode !! id = Some i).
Proof.
  induction ids as [|x ids IH]; intros byNode m Hk; simpl.
  { eexists. split; [done|]. intros id i. simpl. set_solver. }
  destruct (Hk x) as [n ->]; [left|].
  destruct (IH (<[x:=index]> byNode) (Z.max m (pn_loopMaxIterations n))) as (r&->&Hr); [intros id ?; apply Hk; by right|].
  exists r. split; [done|]. intros id i. rewrite Hr, elem_of_cons.
  destruct (decide (id = x)) as [->|Hne].
  - rewrite lookup_insert_eq. destruct (decide (x ∈ ids)); naive_solver.
  - rewrite lookup_insert_ne by done. naive_solver.
Qed.

(** Every list has its own index, and a node the index of its list. *)
Lemma index_components_total nodes : ∀ lists index byNode components,
  (∀ id, id ∈ mjoin lists → is_Some (nodes !! id)) → NoDup (mjoin lists) →
  ∃ r, index_components nodes index lists byNode components = inr r ∧ length r.2 = length components + length lists ∧
    ∀ id i, r.1 !! id = Some i ↔
      (∃ k ids, lists !! k = Some ids ∧ id ∈ ids ∧ i = index + k) ∨ ((id ∉ mjoin lists) ∧ byNode !! id = Some i).
Proof.
  induction lists as [|ids lists IH]; intros index byNode components Hk Hn; simpl.
  { eexists. split; [done|]. split; [simpl; lia|]. intros id i. simpl. split; [intros ?; right; split; [apply not_elem_of_nil|done]|].
    intros [(k&ids&E&_)|[_ ?]]; [by rewrite lookup_nil in E|done]. }
  simpl in Hk, Hn. apply NoDup_app in Hn as (_&Hdis&Hn).
  assert (Hin : ∀ id, id ∈ sort_strings ids ↔ id ∈ ids) by (intros id; by apply elem_of_sort_by).
  destruct (index_nodes_total nodes index (sort_strings ids) byNode 1%Z) as (r&->&Hr).
  { intros id Hid. apply Hk, elem_of_app. left. by apply Hin. }
  simpl. destruct (IH (S index) r.1 (components ++ [mkComponent (sort_strings ids) [] [] false r.2])) as (r'&->&Hl&Hr').
  { intros id Hid. apply Hk, elem_of_app. by right. }
  { done. }
  exists r'. split; [done|]. split; [rewrite Hl, length_app; simpl; lia|].
  intros id i. rewrite Hr', Hr, Hin, not_elem_of_app. split.
  - intros [(k&l&El&Hid&->)|[Hno [[Hid ->]|[Hni Hb]]]].
    + left. exists (S k), l. split; [done|]. split; [done|]. lia.
    + left. exists 0, ids. split; [done|]. split; [done|]. lia.
    + by right.
  - intros [([|k]&l&El&Hid&->)|[[Hni Hno] Hb]]; simpl in *.
    + injection El as <-. right. split; [by apply Hdis|]. left. split; [done|]. lia.
    + left. exists k, l. split; [done|]. split; [done|]. lia.
    + right. auto.
Qed.

(** ** Edges *)

Lemma add_edge_total byNode index e st : is_Some (byNode !! pe_from e) → is_Some (byNode !! pe_to e) →
  ∃ st', add_edge byNode index e st = inr st' ∧
    ∀ i j, (i, j) ∈ es_seen st' → (i, j) ∈ es_seen st ∨ (i ≠ j ∧ byNode !! pe_from e = Some i ∧ byNode !! pe_to e = Some j).
Proof.
  intros [i Hi] [j Hj]. unfold add_edge. rewrite Hi, Hj. destruct (Nat.eqb_spec i j) as [->|Hne]; [eexists; split; [done|auto]|].
  case_decide; (eexists; split; [done|]); intros a b; simpl; [auto|].
  rewrite elem_of_union, elem_of_singleton. intros [[= -> ->]|?]; auto.
Qed.

Lemma add_edges_total byNode edges : ∀ index st,
  (∀ e, e ∈ edges → is_Some (byNode !! pe_from e) ∧ is_Some (byNode !! pe_to e)) →
  ∃ st', add_edges byNode index edges st = inr st' ∧
    ∀ i j, (i, j) ∈ es_seen st' → (i, j) ∈ es_seen st ∨
      ∃ e, e ∈ edges ∧ i ≠ j ∧ byNode !! pe_from e = Some i ∧ byNode !! pe_to e = Some j.
Proof.
  induction edges as [|e edges IH]; intros index st Hk; simpl; [eexists; split; [done|auto]|].
  destruct (Hk e) as [Hf Ht]; [left|]. destruct (add_edge_total byNode index e st Hf Ht) as (st1&->&H1). simpl.
  destruct (IH (S index) st1) as (st2&->&H2); [intros x ?; apply Hk; by right|].
  exists st2. split; [done|]. intros i j [H|(x&Hx&?)]%H2.
  - destruct (H1 i j H) as [?|?]; [by left|right]. exists e. split; [left|done].
  - right. exists x. split; [by right|done].
Qed.

(** ** The graph of the components is acyclic *)

Section Acyclic.
Context (plan : ExecutionPlan) (byNode : gmap string nat).
Hypothesis cond : condensed plan.
Hypothesis byNode_spec : ∀ id i, byNode !! id = Some i ↔ ∃ ids, pl_components plan !! i = Some ids ∧ id ∈ ids.

(** [j] is before [i]: an edge leads from [j] to [i]. *)
Definition before (i j : nat) : Prop :=
  i ≠ j ∧ ∃ u v, plan_edge plan u v ∧ byNode !! u = Some j ∧ byNode !! v = Some i.

Lemma same_component i u v : byNode !! u = Some i → byNode !! v = Some i → rtc (plan_edge plan) u v.
Proof.
  intros (ids&Hi&Hu)%byNode_spec (ids'&Hi'&Hv)%byNode_spec. rewrite Hi in Hi'. injection Hi' as <-.
  by apply (cd_classes _ cond ids u v); [eapply list_elem_of_lookup_2| |].
Qed.

Lemma before_path i j : tc before i j → ∀ u v, byNode !! u = Some j → byNode !! v = Some i → rtc (plan_edge plan) u v.
Proof.
  induction 1 as [i j (_&u'&v'&He&Hu'&Hv')|i k j (_&u'&v'&He&Hu'&Hv') _ IH]; intros u v Hu Hv.
  - etrans; [by apply (same_component j u u')|]. eapply rtc_l; [exact He|]. by apply (same_component i v' v).
  - etrans; [by apply (IH u u')|]. eapply rtc_l; [exact He|]. by apply (same_component i v' v).
Qed.

Lemma index_unique id i j : byNode !! id = Some i → byNode !! id = Some j → i = j.
Proof. congruence. Qed.

Lemma before_irreflexive : Irreflexive (tc before).
Proof.
  intros i Hi.
  assert (∃ k, before i k ∧ (k = i ∨ tc before k i)) as (k&(Hne&u&v&He&Hu&Hv)&Hk).
  { inversion Hi; subst; eauto. }
  destruct Hk as [->|Hk]; [done|].
  assert (Hvu : rtc (plan_edge plan) v u) by (by eapply before_path).
  destruct (proj1 (byNode_spec u k) Hu) as (ids&Hids&Huin).
  assert (v ∈ ids) as Hvin.
  { apply (cd_classes _ cond ids u v); [by eapply list_elem_of_lookup_2|done|]. split; [by apply rtc_once|done]. }
  apply Hne. assert (byNode !! v = Some k) by (apply byNode_spec; eauto). congruence.
Qed.

Lemma before_sn i : sn before i.
Proof.
  apply tc_finite_sn; [apply before_irreflexive|].
  exists (seq 0 (length (pl_components plan))). intros j Hj. apply elem_of_seq.
  assert (∃ u, byNode !! u = Some j) as (u&(ids&Hids&_)%byNode_spec).
  { induction Hj as [i j (_&u&v&_&Hu&_)|]; eauto. }
  apply lookup_lt_Some in Hids. lia.
Qed.
End Acyclic.

Lemma buildComponentModel_total plan : condensed plan → ∃ m, buildComponentModel plan = inr m.
Proof.
  intros H. unfold buildComponentModel. rewrite component_lists_covered by done.
  destruct (index_components_total (plan_nodes plan) (pl_components plan) 0 ∅ []) as (r&Hr&Hlen&Hby); [|apply H|].
  { intros id (n&Hn&<-)%(cd_known _ H). by apply plan_nodes_known. }
  assert (Hspec : ∀ id i, r.1 !! id = Some i ↔ ∃ ids, pl_components plan !! i = Some ids ∧ id ∈ ids).
  { intros id i. rewrite Hby, lookup_empty. split; [by intros [(k&ids&?&?&->)|[_ ?]]; eauto|].
    intros (ids&?&?). left. by exists i, ids. }
  assert (Hcov : ∀ id, id ∈ mjoin (pl_components plan) → is_Some (r.1 !! id)).
  { intros id (ids&Hid&(i&Hi)%list_elem_of_lookup)%list_elem_of_join. exists i. apply Hspec. eauto. }
  destruct (add_edges_total r.1 (pl_edges plan) 0 (mkEdgeState r.2 ∅ ∅ (replicate (length r.2) 0%Z) ∅)) as (st&Hst&Hseen).
  { intros e He. destruct (cd_edges _ H (pe_from e) (pe_to e)); [by exists e|]. auto. }
  rewrite Hr. simpl. destruct r as [byNode components]. simpl in *. rewrite Hst. simpl.
  rewrite <- (component_lists_covered plan H) in Hr.
  destruct (build_final plan (byNode, components) st Hr Hst) as (Hok&order&indegree&Eo&Hk). simpl in *.
  unfold sort_predecessors. rewrite length_fmap. change (λ i, default [] (es_adjacency st !! i)) with (adjacent_of st).
  rewrite Eo. assert (length order = length (es_components st)) as ->; [|rewrite Nat.eqb_refl; eauto].
  rewrite (eo_components _ _ Hok). apply Nat.le_antisymm.
  { pose proof (kahn_length _ _ _ _ _ _ Hk). by rewrite app_nil_r in *. }
  rewrite <- (length_seq (length components) 0). apply submseteq_length, NoDup_submseteq; [apply NoDup_seq|].
  intros d Hd%elem_of_seq. destruct Hd as [_ Hd]. simpl in Hd.
  induction (before_sn plan byNode H Hspec d) as [d _ IH]. apply (kahn_final _ _ _ _ _ Hk); [done|].
  intros p Hp%(eo_predecessors _ _ Hok). destruct (Hseen _ _ Hp) as [?%elem_of_empty|(e&He&Hne&Hf&Ht)]; [done|].
  apply IH.
  - split; [done|]. exists (pe_from e), (pe_to e). split; [by exists e|done].
  - apply Hspec in Hf as (ids&Hids&_). apply lookup_lt_Some in Hids. lia.
Qed.
