(* ===== verification/FlowCompilerFacts.v ===== *)
(** What [Compile] establishes: a plan without error diagnostics is well formed
    ([plan_ok]), its components are the strongly connected ones and the
    interpreter accepts it; it does not depend on the order in which the document
    lists nodes and edges. *)

From Stdlib Require String.
From S2P Require Import Prelude.
From S2P Require Import Json.
From S2P Require Import GoStd.
From S2P Require Import Resource.
From S2P Require Import Plan.
From S2P Require Import ActionContract.
From S2P Require Import ActionContractFacts.
From S2P Require Import FlowGraph.
From S2P Require Import FlowTarjan.
From S2P Require Import FlowCompiler.
From S2P Require Import EngineModel.
From S2P Require Import EngineOrder.

Local Open Scope Z_scope.

Lemma HasErrors_app_false l k : HasErrors (l ++ k) = false ↔ HasErrors l = false ∧ HasErrors k = false.
Proof. rewrite HasErrors_app. apply orb_false_iff. Qed.

(** An error branch cannot be the one taken. *)
Ltac no_error :=
  repeat match goal with
  | H : HasErrors (_ ++ _) = false |- _ => apply HasErrors_app_false in H as [? ?]
  | H : HasErrors [diag _ _ _] = false |- _ => discriminate H
  | H : HasErrors (if ?b then _ else _) = false |- _ => destruct b eqn:?; [try discriminate H|try discriminate H]
  end.

(** Sorted by a key without repetition is strictly sorted. *)
Lemma sorted_keys_strict {A} (f : A → string) (l : list A) :
  StronglySorted (cmp_le (onc f str_cmp)) l → NoDup (f <$> l) → StronglySorted (cmp_lt (onc f str_cmp)) l.
Proof.
  induction 1 as [|x l Hl IH Hx]; intros Hn; [constructor|]. simpl in Hn. apply NoDup_cons in Hn as [Hxl Hn].
  constructor; [by apply IH|]. rewrite Forall_forall in Hx |- *. intros y Hy. specialize (Hx y Hy).
  unfold cmp_le, cmp_lt, onc in *. destruct (str_cmp (f x) (f y)) eqn:E; [|done|done].
  apply str_cmp_eq in E. destruct Hxl. rewrite E. by apply list_elem_of_fmap_2.
Qed.

Section Facts.
Context {js : JsonSchema} {cap : CapabilityResolver} {cel : CelChecker} {sha : Sha256}.

(** ** Nodes *)

Definition node_binding (namespace : string) (node : FlowNode) : option ActionBinding := (bind_node namespace "" node).1.
Definition node_plan (namespace : string) (timeout : Z) (node : FlowNode) : PlanNode :=
  plan_node namespace node (node_binding namespace node) (duration_or "" (n_timeout node) timeout).1
    (node_retry "" node).1.1 (node_loop "" node).1 (node_retry "" node).1.2.
Definition node_contract (namespace : string) (node : FlowNode) (m : gmap string ActionContract) : gmap string ActionContract :=
  match node_binding namespace node with
  | Some b => <[n_id node := ab_contract b]> m
  | None => if is_core (n_uses node) then <[n_id node := coreActionContract node]> m else m
  end.

Lemma bind_node_path namespace path node : (bind_node namespace path node).1 = node_binding namespace node.
Proof.
  unfold node_binding, bind_node. destruct (validAction _); simpl; [|done]. destruct (is_core _); [done|].
  destruct capabilities as [c|]; [|done]. destruct (HasAction c _); simpl; [|done].
  destruct (BindAction c) as [b|]; [by destruct (b _ _ _)|by destruct (ValidateAction c)].
Qed.
Lemma duration_or_path path value fallback : (duration_or path value fallback).1 = (duration_or "" value fallback).1.
Proof. unfold duration_or. by destruct (ParseDuration _ _). Qed.
Lemma node_retry_path path node : (node_retry path node).1 = (node_retry "" node).1.
Proof.
  unfold node_retry. destruct (n_retry node) as [r|]; [|done]. destruct (String.eqb _ _); [done|].
  by destruct (ParseDuration _ _).
Qed.
Lemma node_loop_path path node : (node_loop path node).1 = (node_loop "" node).1.
Proof. unfold node_loop. by destruct (n_loop node). Qed.

(** What the checks of one node establish. *)
Record node_ok (n : PlanNode) : Prop := {
  no_id : nodeIDName (pn_id n) = true;
  no_action : validAction (pn_uses n) = true;
  no_retry : 0 ≤ pn_retryLimit n ≤ 100;
  no_loop : 0 ≤ pn_loopMaxIterations n ≤ 1000;
  no_timeout : ∃ d, 0 < d ∧ pn_timeout n = duration_string d
}.

Lemma duration_or_positive path value fallback : 0 < fallback → HasErrors (duration_or path value fallback).2 = false →
  0 < (duration_or path value fallback).1.
Proof.
  unfold duration_or. intros Hf. destruct (ParseDuration value fallback) as [e|d] eqn:E; [done|]. intros _. simpl.
  unfold ParseDuration, ok, fail in E. repeat case_match; simplify_eq; [done|]. by apply Z.ltb_lt.
Qed.
Lemma node_retry_range path node : HasErrors (node_retry path node).2 = false → 0 ≤ (node_retry path node).1.1 ≤ 100.
Proof.
  unfold node_retry. destruct (n_retry node) as [r|]; [|simpl; lia]. cbv zeta.
  destruct (String.eqb _ _); [|destruct (ParseDuration _ _)]; simpl; intros H; no_error;
    match goal with E : _ || _ = false |- _ => apply orb_false_iff in E as [?%Z.ltb_ge ?%Z.ltb_ge] end; lia.
Qed.
Lemma node_loop_range path node : HasErrors (node_loop path node).2 = false → 0 ≤ (node_loop path node).1 ≤ 1000.
Proof.
  unfold node_loop. destruct (n_loop node) as [l|]; [|simpl; lia]. simpl. intros H. no_error.
  match goal with E : _ || _ = false |- _ => apply orb_false_iff in E as [?%Z.ltb_ge ?%Z.ltb_ge] end. lia.
Qed.
Lemma bind_node_action namespace path node : HasErrors (bind_node namespace path node).2 = false → validAction (n_uses node) = true.
Proof. unfold bind_node. by destruct (validAction _). Qed.

Lemma compile_node_ok namespace timeout ci i node st st' :
  compile_node namespace timeout ci i node st = Some st' → HasErrors (ns_diagnostics st') = false → 0 < timeout →
  HasErrors (ns_diagnostics st) = false ∧ ns_nodes st !! n_id node = None ∧ node_ok (node_plan namespace timeout node) ∧
  ns_planNodes st' = ns_planNodes st ++ [node_plan namespace timeout node] ∧
  ns_nodes st' = <[n_id node := node]> (ns_nodes st) ∧
  ns_contracts st' = node_contract namespace node (ns_contracts st) ∧
  ns_configs st' = <[n_id node := pn_with (node_plan namespace timeout node)]> (ns_configs st).
Proof.
  unfold compile_node. intros H He Ht. destruct (ns_nodes st !! n_id node) eqn:En.
  { injection H as <-. simpl in He. by no_error. }
  cbv zeta in H. pose proof (bind_node_path namespace (node_path i) node) as Hb.
  pose proof (bind_node_action namespace (node_path i) node) as Ha.
  destruct (bind_node namespace (node_path i) node) as [binding bind_ds]. simpl in Hb, Ha. subst binding.
  pose proof (duration_or_path (node_path i +:+ ".timeout") (n_timeout node) timeout) as Hd.
  pose proof (duration_or_positive (node_path i +:+ ".timeout") (n_timeout node) timeout Ht) as Hdp.
  destruct (duration_or (node_path i +:+ ".timeout") (n_timeout node) timeout) as [nt timeout_ds]. simpl in Hd, Hdp.
  pose proof (node_retry_path (node_path i) node) as Hr. pose proof (node_retry_range (node_path i) node) as Hrr.
  destruct (node_retry (node_path i) node) as [[limit backoff] retry_ds]. simpl in Hr, Hrr.
  pose proof (node_loop_path (node_path i) node) as Hl. pose proof (node_loop_range (node_path i) node) as Hlr.
  destruct (node_loop (node_path i) node) as [loop loop_ds]. simpl in Hl, Hlr.
  apply bind_Some in H as (input_ds&_&H). injection H as <-. simpl in *.
  apply HasErrors_app_false in He as [He0 He]. destruct (nodeIDName (n_id node)) eqn:Eid; [|done].
  do 5 (apply HasErrors_app_false in He as [? He]).
  assert (Hp : plan_node namespace node (node_binding namespace node) nt limit loop backoff = node_plan namespace timeout node).
  { unfold node_plan. rewrite <- Hr, <- Hd, <- Hl. done. }
  rewrite <- Hp. split; [done|]. split; [done|]. split; [|done].
  assert (Hplan : ∀ b, pn_id (plan_node namespace node b nt limit loop backoff) = n_id node ∧
    pn_uses (plan_node namespace node b nt limit loop backoff) = n_uses node ∧
    pn_retryLimit (plan_node namespace node b nt limit loop backoff) = limit ∧
    pn_loopMaxIterations (plan_node namespace node b nt limit loop backoff) = loop ∧
    pn_timeout (plan_node namespace node b nt limit loop backoff) = duration_string nt) by by destruct b.
  destruct (Hplan (node_binding namespace node)) as (E1&E2&E3&E4&E5).
  split; rewrite ?E1, ?E2, ?E3, ?E4; auto. exists nt. auto.
Qed.

Lemma node_plan_id namespace timeout node : pn_id (node_plan namespace timeout node) = n_id node.
Proof. unfold node_plan. by destruct (node_binding namespace node). Qed.
Lemma node_plan_loop namespace timeout node :
  pn_loopMaxIterations (node_plan namespace timeout node) = match n_loop node with Some l => l_maxIterations l | None => 0 end.
Proof. unfold node_plan, node_loop. destruct (node_binding namespace node); by destruct (n_loop node). Qed.

Definition insert_node (m : gmap string FlowNode) (n : FlowNode) : gmap string FlowNode := <[n_id n := n]> m.

Lemma compile_nodes_ok namespace timeout ci : 0 < timeout → ∀ nodes i st st',
  compile_nodes namespace timeout ci i nodes st = Some st' → HasErrors (ns_diagnostics st') = false →
  HasErrors (ns_diagnostics st) = false ∧ NoDup (n_id <$> nodes) ∧
  (∀ node, node ∈ nodes → ns_nodes st !! n_id node = None ∧ node_ok (node_plan namespace timeout node)) ∧
  ns_planNodes st' = ns_planNodes st ++ (node_plan namespace timeout <$> nodes) ∧
  ns_nodes st' = fold_left insert_node nodes (ns_nodes st).
Proof.
  intros Ht. induction nodes as [|node nodes IH]; intros i st st' H He; simpl in H.
  { injection H as <-. split; [done|]. split; [constructor|]. split; [by intros ? ?%elem_of_nil|]. by rewrite app_nil_r. }
  apply bind_Some in H as (st1&H1&H). destruct (IH _ _ _ H He) as (He1&Hn&Hnodes&Hp&Hm).
  destruct (compile_node_ok _ _ _ _ _ _ _ H1 He1 Ht) as (He0&Hfresh&Hok&Hp1&Hm1&_).
  split; [done|]. split.
  { simpl. constructor; [|done]. intros (n'&Hid&Hn')%list_elem_of_fmap. destruct (Hnodes n' Hn') as [Hf _].
    rewrite Hm1, <- Hid, lookup_insert_eq in Hf. done. }
  split; [|split].
  - intros n [->|Hin]%elem_of_cons; [done|]. destruct (Hnodes n Hin) as [Hf ?]. split; [|done].
    rewrite Hm1 in Hf. by apply lookup_insert_None in Hf as [? _].
  - rewrite Hp, Hp1. simpl. by rewrite <- (assoc_L (++)).
  - simpl. rewrite Hm, Hm1. done.
Qed.

(** The node map has the nodes under their ids. *)
Lemma fold_insert_node nodes : NoDup (n_id <$> nodes) → ∀ m id n,
  fold_left insert_node nodes m !! id = Some n ↔ (n ∈ nodes ∧ n_id n = id) ∨ (id ∉ (n_id <$> nodes)) ∧ m !! id = Some n.
Proof.
  induction nodes as [|x nodes IH]; intros Hn m id n; simpl.
  { split; [intros; right; split; [apply not_elem_of_nil|done]|]. by intros [[?%elem_of_nil _]|[_ ?]]. }
  simpl in Hn. apply NoDup_cons in Hn as [Hx Hn]. rewrite (IH Hn). unfold insert_node.
  destruct (decide (n_id x = id)) as [<-|Hne].
  - rewrite lookup_insert_eq. split.
    + intros [[Hin E]|[_ [= ->]]]; [left; split; [by right|done]|left; split; [left|done]].
    + intros [[[->|Hin]%elem_of_cons E]|[Hno _]].
      * right. done.
      * destruct Hx. apply list_elem_of_fmap. by exists n.
      * destruct Hno. left.
  - rewrite lookup_insert_ne by done. rewrite elem_of_cons, not_elem_of_cons. naive_solver.
Qed.

(** ** Edges *)

Definition plan_edge_of (e : FlowEdge) : PlanEdge := mkPlanEdge (e_from e) (e_to e) (e_when e).
(** The targets of [x] in the order of the document. *)
Definition targets_of (nodes : gmap string FlowNode) (edges : list FlowEdge) (x : string) : list string :=
  e_to <$> filter (λ e, e_from e = x ∧ is_Some (nodes !! e_from e) ∧ is_Some (nodes !! e_to e)) edges.

Lemma compile_edges_ok nodes ci contracts : ∀ edges i st st',
  compile_edges nodes ci contracts i edges st = Some st' →
  eg_edges st' = eg_edges st ++ (plan_edge_of <$> edges) ∧
  (∀ x, succs (eg_adjacency st') x = succs (eg_adjacency st) x ++ targets_of nodes edges x) ∧
  (∀ x, eg_adjacency st' !! x = None ↔ eg_adjacency st !! x = None ∧ targets_of nodes edges x = []) ∧
  (HasErrors (eg_diagnostics st') = false → HasErrors (eg_diagnostics st) = false ∧
    ∀ e, e ∈ edges → is_Some (nodes !! e_from e) ∧ is_Some (nodes !! e_to e)).
Proof.
  induction edges as [|e edges IH]; intros i st st' H; simpl in H.
  { injection H as <-. rewrite app_nil_r. unfold targets_of. simpl. setoid_rewrite app_nil_r. repeat (split; [done|]).
    split; [split; [done|tauto]|]. intros He. split; [done|]. by intros e ?%elem_of_nil. }
  apply bind_Some in H as (st1&H1&H). destruct (IH _ _ _ H) as (Hed&Hsu&Hno&Hdi).
  unfold compile_edge in H1. apply bind_Some in H1 as (condition&_&[= <-]). simpl in *.
  split; [rewrite Hed; simpl; by rewrite <- (assoc_L (++))|].
  assert (Hknown : ∀ id path, HasErrors (known nodes path id) = false → is_Some (nodes !! id)).
  { intros id path. unfold known. destruct (nodes !! id); [eauto|done]. }
  split; [|split].
  - intros x. rewrite Hsu. unfold targets_of. rewrite filter_cons.
    destruct (nodes !! e_from e) as [a|] eqn:Ea, (nodes !! e_to e) as [b|] eqn:Eb;
      try (rewrite decide_False; [done|]; intros (_&[? ?]&[? ?]); congruence).
    unfold succs at 1. destruct (decide (e_from e = x)) as [<-|Hne].
    + rewrite lookup_insert_eq, decide_True by eauto. simpl. by rewrite <- (assoc_L (++)).
    + rewrite lookup_insert_ne, decide_False by (done || tauto). done.
  - intros x. rewrite Hno. unfold targets_of. rewrite filter_cons.
    destruct (nodes !! e_from e) as [a|] eqn:Ea, (nodes !! e_to e) as [b|] eqn:Eb;
      try (rewrite decide_False; [done|]; intros (_&[? ?]&[? ?]); congruence).
    destruct (decide (e_from e = x)) as [<-|Hne].
    + rewrite lookup_insert_eq, decide_True by eauto. simpl. split; [by intros [? ?]|by intros [? ?]].
    + rewrite lookup_insert_ne, decide_False by (done || tauto). done.
  - intros He. destruct (Hdi He) as [He1 Hall]. no_error. split; [done|].
    intros e' [->|Hin]%elem_of_cons; [|by apply Hall]. split; by eapply Hknown.
Qed.

(** ** The plan *)

(** A well-formed plan. *)
Record plan_ok (plan : ExecutionPlan) : Prop := {
  po_ids : NoDup (pn_id <$> pl_nodes plan);
  po_sorted : StronglySorted (cmp_lt by_id) (pl_nodes plan);
  po_nodes : ∀ n, n ∈ pl_nodes plan → node_ok n;
  po_edges_sorted : StronglySorted (cmp_le by_edge) (pl_edges plan);
  po_parallel : 1 ≤ pl_maxParallel plan ≤ 128;
  po_timeout : ∃ d, 0 < d ∧ pl_timeout plan = duration_string d;
  po_condensed : condensed plan;
  po_cycles : ∀ c, c ∈ pl_components plan → (∃ id, id ∈ c ∧ tc (plan_edge plan) id id) →
    ∃ n, n ∈ pl_nodes plan ∧ pn_id n ∈ c ∧ 1 ≤ pn_loopMaxIterations n
}.

Definition plan_timeout (spec : FlowSpec) : Z := (duration_or "spec.policies.timeout" (p_timeout (f_policies spec)) defaultTimeout).1.
Definition built_adjacency (es : edgesState) : Adjacency := sort_strings <$> eg_adjacency es.

(** The stages of a compilation without errors. *)
Record compiled (meta : ObjectMeta) (spec : FlowSpec) (plan : ExecutionPlan) (ns : nodeState) (es : edgesState) : Prop := {
  cp_timeout : 0 < plan_timeout spec;
  cp_nodes : compile_nodes (m_namespace meta) (plan_timeout spec) (input_schema spec).1.2 0 (f_nodes spec) no_nodes = Some ns;
  cp_node_errors : HasErrors (ns_diagnostics ns) = false;
  cp_edges : compile_edges (ns_nodes ns) (input_schema spec).1.2 (ns_contracts ns) 0 (f_edges spec) (mkEdgesState [] ∅ []) = Some es;
  cp_edge_errors : HasErrors (eg_diagnostics es) = false;
  cp_components : stronglyConnected (sortedKeys (ns_nodes ns)) (built_adjacency es) = Some (pl_components plan);
  cp_cycles : HasErrors (cycle_diagnostics (ns_nodes ns) (built_adjacency es) (pl_components plan)) = false;
  cp_parallel : 1 ≤ (max_parallel spec).1 ≤ 128;
  cp_plan : plan = let p := mkPlan APIVersion (m_uid meta) (m_generation meta) InterpreterVersion
      (duration_string (plan_timeout spec)) (max_parallel spec).1 (input_schema spec).1.1
      (sort_by by_id (ns_planNodes ns)) (sort_by by_edge (eg_edges es)) (pl_components plan) "" in
    set_hash (sha256_hex (plan_text p)) p
}.

Lemma max_parallel_range spec : HasErrors (max_parallel spec).2 = false → 1 ≤ (max_parallel spec).1 ≤ 128.
Proof.
  unfold max_parallel. simpl. intros H. no_error.
  match goal with E : _ || _ = false |- _ => apply orb_false_iff in E as [?%Z.ltb_ge ?%Z.ltb_ge] end. lia.
Qed.

Lemma Compile_stages meta spec plan ds :
  Compile meta spec = Some (plan, ds) → HasErrors ds = false → ∃ ns es, compiled meta spec plan ns es.
Proof.
  unfold Compile. intros H He. destruct (input_schema spec) as [[text ci] input_ds] eqn:Ein.
  pose proof (duration_or_positive "spec.policies.timeout" (p_timeout (f_policies spec)) defaultTimeout ltac:(done)) as Ht.
  destruct (duration_or _ _ _) as [timeout timeout_ds] eqn:Et.
  pose proof (max_parallel_range spec) as Hp. destruct (max_parallel spec) as [parallel parallel_ds] eqn:Ep.
  apply bind_Some in H as (ns&Hns&H). apply bind_Some in H as (es&Hes&H). apply bind_Some in H as (mapping_ds&_&H).
  apply bind_Some in H as (components&Hc&H). injection H as Hplan <-.
  do 6 (apply HasErrors_app_false in He as [? He]).
  exists ns, es. assert (pl_components plan = components) as Hcomp by (rewrite <- Hplan; by case_match).
  assert (plan_timeout spec = timeout) as Htime by (unfold plan_timeout; by rewrite Et).
  split; rewrite ?Htime, ?Ein, ?Ep, ?Hcomp; simpl; auto.
  rewrite <- Hplan at 1. rewrite !HasErrors_app.
  repeat match goal with E : HasErrors _ = false |- _ => rewrite E; clear E end. done.
Qed.

Section Compiled.
Context (meta : ObjectMeta) (spec : FlowSpec) (plan : ExecutionPlan) (ns : nodeState) (es : edgesState).
Hypothesis C : compiled meta spec plan ns es.

Lemma compiled_nodes :
  NoDup (n_id <$> f_nodes spec) ∧ (∀ node, node ∈ f_nodes spec → node_ok (node_plan (m_namespace meta) (plan_timeout spec) node)) ∧
  ns_planNodes ns = node_plan (m_namespace meta) (plan_timeout spec) <$> f_nodes spec ∧
  ns_nodes ns = fold_left insert_node (f_nodes spec) ∅.
Proof.
  destruct (compile_nodes_ok _ _ _ (cp_timeout _ _ _ _ _ C) _ _ _ _ (cp_nodes _ _ _ _ _ C) (cp_node_errors _ _ _ _ _ C)) as (_&?&Hn&?&?).
  split; [done|]. split; [|done]. intros node Hnode. by apply Hn.
Qed.

Lemma compiled_lookup id n : ns_nodes ns !! id = Some n ↔ n ∈ f_nodes spec ∧ n_id n = id.
Proof.
  destruct compiled_nodes as (Hn&_&_&->). rewrite fold_insert_node by done. rewrite lookup_empty. naive_solver.
Qed.

Lemma compiled_known id : is_Some (ns_nodes ns !! id) ↔ id ∈ n_id <$> f_nodes spec.
Proof.
  rewrite list_elem_of_fmap. split.
  - intros [n [Hn <-]%compiled_lookup]. eauto.
  - intros (n&->&Hn). exists n. by apply compiled_lookup.
Qed.

Lemma elem_of_sortedKeys {A} (m : gmap string A) id : id ∈ sortedKeys m ↔ is_Some (m !! id).
Proof.
  unfold sortedKeys, sort_strings. rewrite elem_of_sort_by by apply _. rewrite list_elem_of_fmap. split.
  - intros ([k x]&->&Hk%elem_of_map_to_list). simpl. eauto.
  - intros [x Hx]. exists (id, x). split; [done|]. by apply elem_of_map_to_list.
Qed.
Lemma sortedKeys_nodup {A} (m : gmap string A) : NoDup (sortedKeys m).
Proof. unfold sortedKeys, sort_strings. rewrite sort_by_nodup by apply _. apply NoDup_fst_map_to_list. Qed.

Lemma compiled_edges : ∀ e, e ∈ f_edges spec → is_Some (ns_nodes ns !! e_from e) ∧ is_Some (ns_nodes ns !! e_to e).
Proof. by apply (compile_edges_ok _ _ _ _ _ _ _ (cp_edges _ _ _ _ _ C)), (cp_edge_errors _ _ _ _ _ C). Qed.

Lemma succs_sorted adjacency x : succs (sort_strings <$> adjacency) x = sort_strings (succs adjacency x).
Proof. unfold succs. rewrite lookup_fmap. by destruct (adjacency !! x). Qed.

Lemma plan_edge_spec u v : plan_edge plan u v ↔ ∃ e, e ∈ f_edges spec ∧ e_from e = u ∧ e_to e = v.
Proof.
  unfold plan_edge. rewrite (cp_plan _ _ _ _ _ C). simpl.
  destruct (compile_edges_ok _ _ _ _ _ _ _ (cp_edges _ _ _ _ _ C)) as (->&_&_&_). simpl. split.
  - intros (e&He&<-&<-). rewrite elem_of_sort_by in He by apply _. apply list_elem_of_fmap in He as (x&->&Hx). eauto.
  - intros (e&He&<-&<-). exists (plan_edge_of e). split; [|done]. rewrite elem_of_sort_by by apply _. by apply list_elem_of_fmap_2.
Qed.

Lemma built_edge u v : edge (built_adjacency es) u v ↔ plan_edge plan u v.
Proof.
  rewrite plan_edge_spec. unfold edge, built_adjacency. rewrite succs_sorted. unfold sort_strings. rewrite elem_of_sort_by by apply _.
  destruct (compile_edges_ok _ _ _ _ _ _ _ (cp_edges _ _ _ _ _ C)) as (_&Hs&_&_). rewrite Hs. simpl.
  unfold succs. rewrite lookup_empty. simpl. unfold targets_of. rewrite list_elem_of_fmap. split.
  - intros (e&->&[(<-&_&_) He]%list_elem_of_filter). eauto.
  - intros (e&He&<-&<-). exists e. split; [done|]. apply list_elem_of_filter. split; [|done].
    split; [done|]. by apply compiled_edges.
Qed.

Lemma built_rtc u v : rtc (edge (built_adjacency es)) u v ↔ rtc (plan_edge plan) u v.
Proof. split; apply rtc_subrel; intros x y; by rewrite built_edge. Qed.

Lemma built_closed x y : x ∈ sortedKeys (ns_nodes ns) → edge (built_adjacency es) x y → y ∈ sortedKeys (ns_nodes ns).
Proof.
  rewrite elem_of_sortedKeys. intros _ (e&He&_&<-)%built_edge%plan_edge_spec. apply elem_of_sortedKeys. by apply compiled_edges.
Qed.

Lemma compiled_components : pl_components plan = mutual_classes (sortedKeys (ns_nodes ns)) (built_adjacency es).
Proof.
  pose proof (cp_components _ _ _ _ _ C) as H. rewrite stronglyConnected_spec in H; [by injection H|apply sortedKeys_nodup|apply built_closed].
Qed.

Lemma compiled_condensed : condensed plan.
Proof.
  assert (Hc : ∀ c, c ∈ pl_components plan ↔ ∃ v, v ∈ sortedKeys (ns_nodes ns) ∧ c = class_of (sortedKeys (ns_nodes ns)) (built_adjacency es) v).
  { intros c. rewrite compiled_components. apply elem_of_mutual_classes; [apply sortedKeys_nodup|apply built_closed]. }
  assert (Hin : ∀ v w, v ∈ sortedKeys (ns_nodes ns) → w ∈ class_of (sortedKeys (ns_nodes ns)) (built_adjacency es) v ↔ mutual (built_adjacency es) v w).
  { intros v w. apply elem_of_class; [apply built_closed]. }
  assert (Hj : ∀ id, id ∈ mjoin (pl_components plan) ↔ id ∈ sortedKeys (ns_nodes ns)).
  { intros id. rewrite list_elem_of_join. split.
    - intros (c&Hid&(v&Hv&->)%Hc). unfold class_of in Hid. apply list_elem_of_filter in Hid as [_ Hid]. exact (proj1 (elem_of_ids _ _) Hid).
    - intros Hid. exists (class_of (sortedKeys (ns_nodes ns)) (built_adjacency es) id). split; [by apply Hin|]. apply Hc. eauto. }
  split.
  - intros id. rewrite Hj, elem_of_sortedKeys, compiled_known. rewrite (cp_plan _ _ _ _ _ C). simpl.
    destruct compiled_nodes as (_&_&->&_). split.
    + intros (n&->&Hn)%list_elem_of_fmap. exists (node_plan (m_namespace meta) (plan_timeout spec) n).
      rewrite elem_of_sort_by by apply _. split; [by apply list_elem_of_fmap_2|apply node_plan_id].
    + intros (n&Hn&<-). rewrite elem_of_sort_by in Hn by apply _. apply list_elem_of_fmap in Hn as (x&->&Hx).
      rewrite node_plan_id. by apply list_elem_of_fmap_2.
  - intros u v (e&He&<-&<-)%plan_edge_spec. rewrite !Hj, !elem_of_sortedKeys. by apply compiled_edges.
  - rewrite compiled_components. apply mutual_classes_nodup; [apply sortedKeys_nodup|apply built_closed].
  - intros c u v (w&Hw&->)%Hc Hu. apply Hin in Hu; [|done]. rewrite (Hin w v Hw), <- !built_rtc.
    destruct Hu as [H1 H2]. split; intros [H3 H4]; split; by etrans.
Qed.

Lemma compiled_cycle c id : c ∈ pl_components plan → id ∈ c → tc (plan_edge plan) id id → cyclic (built_adjacency es) c = true.
Proof.
  intros Hc Hid Ht. pose proof (cd_classes _ compiled_condensed c) as Hcl. unfold cyclic.
  assert (∃ k, plan_edge plan id k ∧ rtc (plan_edge plan) k id) as (k&He&Hr).
  { inversion Ht; subst; eauto using tc_rtc. }
  assert (Hk : k ∈ c) by (apply (Hcl id); [done|done|split; [by apply rtc_once|done]]).
  destruct c as [|a [|b c]]; [by apply elem_of_nil in Hid| |done].
  apply list_elem_of_singleton in Hid as ->. apply list_elem_of_singleton in Hk as ->.
  apply existsb_exists. exists a. split; [|apply String.eqb_refl]. apply list_elem_of_In. by apply built_edge in He.
Qed.

Lemma compiled_ok : plan_ok plan.
Proof.
  destruct compiled_nodes as (Hn&Hok&Hp&_).
  assert (Hids : NoDup (pn_id <$> ns_planNodes ns)).
  { rewrite Hp, <- list_fmap_compose. erewrite list_fmap_ext; [exact Hn|]. intros _ x _. apply node_plan_id. }
  assert (Hnd : NoDup (pn_id <$> pl_nodes plan)).
  { rewrite (cp_plan _ _ _ _ _ C). simpl. by rewrite (sort_by_perm by_id). }
  assert (Hin : ∀ n, n ∈ pl_nodes plan ↔ ∃ x, x ∈ f_nodes spec ∧ n = node_plan (m_namespace meta) (plan_timeout spec) x).
  { intros n. rewrite (cp_plan _ _ _ _ _ C). simpl. rewrite elem_of_sort_by, Hp, list_elem_of_fmap by apply _. naive_solver. }
  split; [done| | | | | |apply compiled_condensed|].
  - apply sorted_keys_strict; [|done]. rewrite (cp_plan _ _ _ _ _ C). simpl. apply sort_by_sorted. apply _.
  - intros n (x&Hx&->)%Hin. by apply Hok.
  - rewrite (cp_plan _ _ _ _ _ C). simpl. apply sort_by_sorted. apply _.
  - rewrite (cp_plan _ _ _ _ _ C). apply C.
  - exists (plan_timeout spec). split; [apply C|]. by rewrite (cp_plan _ _ _ _ _ C).
  - intros c Hc (id&Hid&Ht). pose proof (compiled_cycle c id Hc Hid Ht) as Hcy.
    destruct (finite (ns_nodes ns) c) eqn:Ef.
    + unfold finite in Ef. apply existsb_exists in Ef as (k&Hk&Hl).
      destruct (ns_nodes ns !! k) as [x|] eqn:Ex; simpl in Hl; [|done].
      destruct (n_loop x) as [l|] eqn:El; [|done]. apply compiled_lookup in Ex as [Hx <-].
      exists (node_plan (m_namespace meta) (plan_timeout spec) x). split; [apply Hin; eauto|].
      rewrite node_plan_id, node_plan_loop, El. apply Z.ltb_lt in Hl. split; [by apply list_elem_of_In|lia].
    + exfalso. pose proof (cp_cycles _ _ _ _ _ C) as He. unfold cycle_diagnostics in He.
      assert (Hf : c ∈ filter (λ component, cyclic (built_adjacency es) component && negb (finite (ns_nodes ns) component) = true) (pl_components plan)).
      { apply list_elem_of_filter. by rewrite Hcy, Ef. }
      destruct (filter _ _) as [|? ?]; [by apply elem_of_nil in Hf|done].
Qed.
End Compiled.

(** ** The order of the document does not matter *)

Lemma by_edge_eq x y : by_edge x y = Eq → x = y.
Proof.
  unfold by_edge, lexc, onc. intros H.
  destruct (str_cmp (pe_from x) (pe_from y)) eqn:E1; [|done|done]. destruct (str_cmp (pe_to x) (pe_to y)) eqn:E2; [|done|done].
  apply str_cmp_eq in E1, E2, H. destruct x, y; simpl in *. by subst.
Qed.

Lemma sort_strings_perm l k : l ≡ₚ k → sort_strings l = sort_strings k.
Proof.
  intros Hp. apply (sorted_unique str_cmp).
  - intros x y _ _. by apply str_cmp_eq.
  - apply sort_by_sorted. apply _.
  - apply sort_by_sorted. apply _.
  - unfold sort_strings. by rewrite !sort_by_perm.
Qed.

Section Permuted.
Context (meta : ObjectMeta) (spec spec' : FlowSpec) (plan plan' : ExecutionPlan) (ns ns' : nodeState) (es es' : edgesState).
Hypothesis C : compiled meta spec plan ns es.
Hypothesis C' : compiled meta spec' plan' ns' es'.
Hypothesis same_nodes : f_nodes spec ≡ₚ f_nodes spec'.
Hypothesis same_edges : f_edges spec ≡ₚ f_edges spec'.
Hypothesis same_schema : f_inputSchema spec = f_inputSchema spec'.
Hypothesis same_policies : f_policies spec = f_policies spec'.

Lemma permuted_nodes : ns_nodes ns = ns_nodes ns'.
Proof.
  apply map_eq. intros id. apply option_eq. intros n.
  by rewrite (compiled_lookup _ _ _ _ _ C), (compiled_lookup _ _ _ _ _ C'), same_nodes.
Qed.

Lemma permuted_adjacency : built_adjacency es = built_adjacency es'.
Proof.
  destruct (compile_edges_ok _ _ _ _ _ _ _ (cp_edges _ _ _ _ _ C)) as (_&Hs&Hno&_).
  destruct (compile_edges_ok _ _ _ _ _ _ _ (cp_edges _ _ _ _ _ C')) as (_&Hs'&Hno'&_).
  assert (Ht : ∀ x, targets_of (ns_nodes ns) (f_edges spec) x ≡ₚ targets_of (ns_nodes ns') (f_edges spec') x).
  { intros x. unfold targets_of. rewrite permuted_nodes. by rewrite same_edges. }
  apply map_eq. intros x. unfold built_adjacency. rewrite !lookup_fmap.
  specialize (Hs x). specialize (Hs' x). specialize (Hno x). specialize (Hno' x). specialize (Ht x). simpl in *.
  unfold succs in Hs, Hs'. rewrite lookup_empty in *. simpl in *.
  destruct (eg_adjacency es !! x) as [l|] eqn:E, (eg_adjacency es' !! x) as [l'|] eqn:E'; simpl in *.
  - subst l l'. f_equal. by apply sort_strings_perm.
  - destruct (proj1 Hno' eq_refl) as [_ E0]. rewrite E0 in Ht. apply Permutation_nil_r in Ht.
    discriminate (proj2 Hno (conj eq_refl Ht)).
  - destruct (proj1 Hno eq_refl) as [_ E0]. rewrite E0 in Ht. symmetry in Ht. apply Permutation_nil_r in Ht.
    discriminate (proj2 Hno' (conj eq_refl Ht)).
  - done.
Qed.

Lemma permuted_plan : plan = plan'.
Proof.
  assert (Hc : pl_components plan = pl_components plan').
  { pose proof (cp_components _ _ _ _ _ C) as H. rewrite permuted_nodes, permuted_adjacency, (cp_components _ _ _ _ _ C') in H. by injection H. }
  assert (Ht : plan_timeout spec = plan_timeout spec') by (unfold plan_timeout; by rewrite same_policies).
  assert (Hi : input_schema spec = input_schema spec') by (unfold input_schema; by rewrite same_schema).
  assert (Hm : max_parallel spec = max_parallel spec') by (unfold max_parallel; by rewrite same_policies).
  assert (Hn : sort_by by_id (ns_planNodes ns) = sort_by by_id (ns_planNodes ns')).
  { apply (sorted_perm_eq by_id).
    - pose proof (po_sorted _ (compiled_ok _ _ _ _ _ C)) as Hs. by rewrite (cp_plan _ _ _ _ _ C) in Hs.
    - apply sort_by_sorted. apply _.
    - rewrite !(sort_by_perm by_id). destruct (compiled_nodes _ _ _ _ _ C) as (_&_&->&_).
      destruct (compiled_nodes _ _ _ _ _ C') as (_&_&->&_). by rewrite Ht, same_nodes. }
  assert (He : sort_by by_edge (eg_edges es) = sort_by by_edge (eg_edges es')).
  { apply (sorted_unique by_edge); try (apply sort_by_sorted; apply _).
    - intros x y _ _. apply by_edge_eq.
    - rewrite !(sort_by_perm by_edge). destruct (compile_edges_ok _ _ _ _ _ _ _ (cp_edges _ _ _ _ _ C)) as (->&_).
      destruct (compile_edges_ok _ _ _ _ _ _ _ (cp_edges _ _ _ _ _ C')) as (->&_). simpl. by rewrite same_edges. }
  rewrite (cp_plan _ _ _ _ _ C), (cp_plan _ _ _ _ _ C'), Ht, Hi, Hm, Hn, He, Hc. done.
Qed.
End Permuted.

(** ** Compilation returns *)

(** The nested induction principle. *)
Section ExprInd.
Context (P : Expr → Prop).
Context (HIdent : ∀ n, P (EIdent n)) (HSelect : ∀ e f t, P e → P (ESelect e f t)) (HConst : ∀ c, P (EConst c)) (HOther : P EOther).
Context (HCall : ∀ f t l, (∀ e, t = Some e → P e) → Forall P l → P (ECall f t l)).

Fixpoint expr_ind' (e : Expr) : P e :=
  match e with
  | EIdent n => HIdent n
  | ESelect e f t => HSelect e f t (expr_ind' e)
  | EConst c => HConst c
  | EOther => HOther
  | ECall f t l =>
      HCall f t l
        (match t return ∀ e, t = Some e → P e with
         | Some x => λ e E, eq_ind x P (expr_ind' x) e (f_equal (default x) E)
         | None => λ e E, False_ind _ (eq_ind None (λ o, if o is Some _ then False else True) I _ E)
         end)
        ((fix go l := match l return Forall P l with
           | [] => Forall_nil_2 _ | x :: l => Forall_cons_2 _ _ _ (expr_ind' x) (go l) end) l)
  end.
End ExprInd.

Section Total.
Hypothesis contracts_end : ∀ raw s, ActionContract.Compile raw = inr s → references_end s.

Lemma input_schema_ends spec : references_end (input_schema spec).1.2.
Proof.
  unfold input_schema. destruct (ActionContract.Compile _) as [e|s] eqn:E; [|by eapply contracts_end].
  simpl. destruct (ActionContract.Compile open_object_schema) as [e'|s] eqn:E'; [|by eapply contracts_end].
  intros i Hi. simpl in Hi. assert (∃ o, (@nil schemaObject) !! i = Some o) as [o Ho] by (inversion Hi as [? ? (o&Ho&_)|? ? ? (o&Ho&_)]; eauto).
  by rewrite lookup_nil in Ho.
Qed.

Lemma outputSchema_ends c s : outputSchema c = Some s → references_end s.
Proof. unfold outputSchema. intros H. repeat case_match; simplify_eq. by eapply contracts_end. Qed.

Section Input.
Context (ci : Schema).
Hypothesis ci_ends : references_end ci.

Lemma path_type_total root parts node contracts : ∃ r, path_type root parts node ci contracts = Some r.
Proof.
  unfold path_type. cbv zeta.
  assert (Hres : ∀ s l, references_end s → ∃ r, (r ← ResolveDot s l; Some (rs_type r, rs_exists r, rs_dynamic r)) = Some r).
  { intros s l Hs. destruct (ResolveDot_total s Hs l) as [r ->]. simpl. eauto. }
  assert (Hout : ∀ (o : option ActionContract) s, (c ← o; outputSchema c) = Some s → references_end s).
  { intros o s Hs. apply bind_Some in Hs as (c&_&Hs). by eapply outputSchema_ends. }
  destruct (String.eqb root "input"); [by apply Hres|].
  destruct (String.eqb root "result"); [destruct (_ ≫= _) as [s|] eqn:Es; [by eapply Hres, Hout|eauto]|].
  destruct (String.eqb root "nodes"); [|eauto]. destruct parts as [|n parts]; [eauto|].
  destruct (_ ≫= _) as [s|] eqn:Es; [by eapply Hres, Hout|eauto].
Qed.

Lemma inferCELType_total node contracts : ∀ e, ∃ r, inferCELType e node ci contracts = Some r.
Proof.
  induction e as [n|e f t IH|c| |f t l Ht Hl] using expr_ind'; simpl.
  - apply path_type_total.
  - destruct (celSelectPath e) as [[root parts]|]; simpl; [apply path_type_total|eauto].
  - destruct (constant_type c); eauto.
  - eauto.
  - case_decide.
    + match goal with |- ∃ r, (?loop l false ≫= _) = _ => enough (∀ d, ∃ r, loop l d = Some r) as Hloop end.
      { destruct (Hloop false) as [r ->]. simpl. eauto. }
      induction Hl as [|x l [[[? e] ?] Hx] _ IHl]; intros d.
      * destruct t as [t|]; [|eauto]. destruct (Ht t eq_refl) as [[[? ?] ?] ->]. simpl. eauto.
      * rewrite Hx. simpl. destruct e; simpl; eauto.
    + destruct (String.eqb f "_?_:_"); [|eauto].
      destruct Hl as [|? l _ Hl]; [eauto|]. destruct Hl as [|? l Ha Hl]; [eauto|]. destruct Hl as [|? l Hb Hl]; [eauto|].
      destruct Hl; [|eauto]. destruct Ha as [[[? ?] ?] ->]. simpl. destruct Hb as [[[? ?] ?] ->]. simpl. eauto.
Qed.

Lemma mappingSource_total path from dest nodes adjacency contracts : ∃ r, mappingSource path from dest nodes adjacency ci contracts = Some r.
Proof.
  unfold mappingSource. cbv zeta. destruct (_ || negb _); [eauto|]. destruct (_ || _).
  { match goal with |- context [ResolveDot ci ?l] => destruct (ResolveDot_total ci ci_ends l) as [r ->] end. simpl. eauto. }
  destruct (split_on _ _) as [|a [|b l]]; [eauto|eauto|]. destruct (String.eqb a ""); [eauto|]. destruct (nodes !! a); [|eauto].
  destruct (reaches_spec adjacency a dest) as (before_&->&_). simpl. destruct (negb before_); [eauto|]. destruct (String.eqb _ ""); [eauto|].
  destruct (ActionContract.Compile _) as [e|s] eqn:E; [eauto|].
  match goal with |- context [ResolveDot s ?l] => destruct (ResolveDot_total s (contracts_end _ _ E) l) as [r ->] end. simpl. eauto.
Qed.

Lemma validateItems_total node nodes adjacency contracts path cs : references_end cs → ∀ items i st,
  ∃ r, validateItems node nodes adjacency ci contracts path cs i items st = Some r.
Proof.
  intros Hcs. induction items as [|item items IH]; intros i [projected ds]; cbn [validateItems]; [eauto|].
  enough (∃ r, validateMapping node nodes adjacency ci contracts path cs i item (projected, ds) = Some r) as [r ->] by (simpl; eauto).
  unfold validateMapping. destruct item as [| | | | |mapping]; try eauto. cbv zeta.
  match goal with |- context [mappingSource ?p ?f ?d ?n ?a ci ?c] => destruct (mappingSource_total p f d n a c) as [[[source usable] ds'] ->] end.
  simpl. destruct (negb _); [eauto|].
  match goal with |- context [ResolvePointer cs ?p] => destruct (ResolvePointer_total cs Hcs p) as [r ->] end. simpl. eauto.
Qed.

Lemma validateMappings_total node nodes adjacency contracts i c : ∃ r, validateMappings node nodes adjacency ci contracts i c = Some r.
Proof.
  unfold validateMappings. cbv zeta. destruct (String.eqb _ ""); [eauto|].
  destruct (ActionContract.Compile _) as [e|cs] eqn:E; [eauto|]. apply contracts_end in E as Hcs.
  destruct (cloneMap c) as [projected|]; [|eauto]. destruct (obj_get "mappings" _) as [[| | | |items|]|]; try eauto.
  - match goal with |- context [validateItems _ _ _ _ _ ?p _ ?k _ ?st] =>
      destruct (validateItems_total node nodes adjacency contracts p cs Hcs items k st) as [[projected' ds] ->] end. simpl.
    match goal with |- context [Validate cs ?v] => destruct (Validate_total cs Hcs v) as [l ->] end. simpl. eauto.
  - match goal with |- context [Validate cs ?v] => destruct (Validate_total cs Hcs v) as [l ->] end. simpl. eauto.
Qed.

Lemma mappings_diagnostics_total nodes adjacency contracts configs : ∀ l i,
  ∃ r, mappings_diagnostics i l nodes adjacency ci contracts configs = Some r.
Proof.
  induction l as [|node l IH]; intros i; cbn [mappings_diagnostics]; [eauto|].
  destruct (validateMappings_total node nodes adjacency contracts i (default [] (configs !! n_id node))) as [r ->].
  simpl. destruct (IH (S i)) as [r' ->]. simpl. eauto.
Qed.

Lemma compile_nodes_total namespace timeout : ∀ nodes i st, ∃ st', compile_nodes namespace timeout ci i nodes st = Some st'.
Proof.
  induction nodes as [|node nodes IH]; intros i st; cbn [compile_nodes]; [eauto|].
  enough (∃ r, compile_node namespace timeout ci i node st = Some r) as [r ->] by (simpl; eauto).
  unfold compile_node. destruct (ns_nodes st !! n_id node); [eauto|]. cbv zeta.
  destruct (bind_node _ _ _) as [binding ?]. destruct (duration_or _ _ _). destruct (node_retry _ _) as [[??]?]. destruct (node_loop _ _).
  destruct binding as [b|]; [|simpl; eauto]. unfold action_input. destruct (String.eqb _ ""); [simpl; eauto|].
  destruct (ActionContract.Compile _) as [e|sch] eqn:E; [simpl; eauto|].
  destruct (ResolveDot_total ci ci_ends []) as [r1 ->]. destruct (ResolveDot_total sch (contracts_end _ _ E) []) as [r2 ->]. simpl. eauto.
Qed.

Lemma compile_edges_total nodes contracts : ∀ edges i st, ∃ st', compile_edges nodes ci contracts i edges st = Some st'.
Proof.
  induction edges as [|e edges IH]; intros i st; cbn [compile_edges]; [eauto|]. unfold compile_edge. cbv zeta.
  enough (∃ r, condition_diagnostics (edge_path i +:+ ".when") (e_from e) (e_when e) ci contracts = Some r) as [r ->] by (simpl; eauto).
  unfold condition_diagnostics. destruct (String.eqb _ ""); [eauto|].
  destruct (cel_compile _) as [?|[] [x|]]; try eauto; unfold typedCELDiagnostics;
    (destruct (inferCELType_total (e_from e) contracts x) as [[[? ?] ?] ->]; simpl; eauto).
Qed.
End Input.

(** Successors are nodes, whatever the diagnostics say. *)
Lemma adjacency_closed nodes ci contracts edges es x y :
  compile_edges nodes ci contracts 0 edges (mkEdgesState [] ∅ []) = Some es →
  edge (built_adjacency es) x y → y ∈ sortedKeys nodes.
Proof.
  intros H. destruct (compile_edges_ok _ _ _ _ _ _ _ H) as (_&Hs&_&_). unfold edge, built_adjacency.
  rewrite succs_sorted. unfold sort_strings. rewrite elem_of_sort_by by apply _. rewrite Hs. simpl. unfold succs. rewrite lookup_empty. simpl.
  unfold targets_of. intros (e&->&[(_&_&Hk) _]%list_elem_of_filter)%list_elem_of_fmap. by apply elem_of_sortedKeys.
Qed.

Lemma Compile_total meta spec : ∃ r, Compile meta spec = Some r.
Proof.
  unfold Compile. pose proof (input_schema_ends spec) as Hci.
  destruct (input_schema spec) as [[text ci] ?]. simpl in Hci. destruct (duration_or _ _ _). destruct (max_parallel spec).
  match goal with |- context [compile_nodes ?n ?t ci ?i ?l ?st] => destruct (compile_nodes_total ci Hci n t l i st) as [ns ->] end. simpl.
  match goal with |- context [compile_edges ?n ci ?c ?i ?l ?st] => destruct (compile_edges_total ci Hci n c l i st) as [es Hes] end.
  rewrite Hes. simpl.
  match goal with |- context [mappings_diagnostics ?i ?l ?n ?a ci ?c ?k] => destruct (mappings_diagnostics_total ci Hci n a c k l i) as [ds ->] end. simpl.
  change (sort_strings <$> eg_adjacency es) with (built_adjacency es).
  rewrite stronglyConnected_spec; [simpl; eauto|apply sortedKeys_nodup|].
  intros x y _. by eapply adjacency_closed.
Qed.
End Total.
End Facts.

(** ** Presence tests

    [has(input.field)] is a selection with its test flag set, of type bool.
    [celSelectPath] takes it for the value of the field: the condition is refused
    unless the field itself may be a boolean. *)
Lemma has_condition_is_rejected {js : JsonSchema} {cel : CelChecker} path from condition field inputSchema contracts r :
  condition ≠ "" →
  cel_compile condition = CelAst_ CelOutBool (Some (ESelect (EIdent "input") field true)) →
  ResolveDot inputSchema [field] = Some r → rs_exists r = true → rs_type r ≠ TypeUnknown → overlaps (rs_type r) TypeBoolean = false →
  condition_diagnostics path from condition inputSchema contracts =
    Some [diag path "cel_not_boolean" "condition resolves to a non-boolean schema type"].
Proof.
  intros Hc Hcel Hr He Ht Ho. unfold condition_diagnostics. rewrite (proj2 (String.eqb_neq _ _) Hc), Hcel.
  unfold typedCELDiagnostics. simpl. unfold path_type. simpl. rewrite Hr. simpl. rewrite He, Ho. simpl.
  by rewrite (proj2 (Z.eqb_neq _ _) Ht).
Qed.
