(* ===== verification/EngineNode.v ===== *)
(** [internal/engine/engine.go], activities: what one activity delivery does to
    the store, and [EvaluateEdges] of [internal/flow/compiler.go].

    CEL ([cel-go]) and the task executor (the plugin runtime) are the parameters
    [Cel] and [TaskExecutor].  An activity is a function of the database it finds:
    each store call commits on its own, and an error after a commit leaves the
    commit.  The activity's context is [ctxErr] (true when it was cancelled). *)

From Stdlib Require String.
From S2P Require Import Prelude.
From S2P Require Import Json.
From S2P Require Import GoStd.
From S2P Require Import Plan.
From S2P Require Import Db.
From S2P Require Import StoreRuns.

Local Open Scope Z_scope.

(** ** Edges *)

Inductive CelResult :=
  | CelCompileError (text : string) | CelProgramError (text : string) | CelEvalError (text : string)
  | CelNotBool | CelBool (b : bool).
(** Compile, plan and evaluate a condition over [input], [result], [nodes]. *)
Class Cel := cel_eval : string → list (string * json) → list (string * json) → gmap string json → CelResult.

Record NodeRequest := mkRequest {
  nq_run : string; nq_node : PlanNode; nq_iteration : Z; nq_outgoing : list PlanEdge;
  nq_input : string; nq_nodes : gmap string json }.
Record NodeResult := mkResult { nr_output : string; nr_activated : list bool; nr_rejected : bool }.
Record ApprovalSignal := mkApproval { as_state : string; as_reason : string }.
Record EventSignal := mkEvent { es_providerEventID : string; es_payload : string }.

Section Evaluate.
Context {cel : Cel}.

Definition edge_name (e : PlanEdge) : string := pe_from e +:+ " -> " +:+ pe_to e.
Fixpoint EvaluateEdges (edges : list PlanEdge) (input result : list (string * json)) (nodes : gmap string json) : res (list bool) :=
  match edges with
  | [] => ok []
  | edge :: edges =>
      b ← (if String.eqb (pe_condition edge) "" then ok true else
           match cel_eval (pe_condition edge) input result nodes with
           | CelCompileError t => fail (ErrMsg ("compile edge " +:+ edge_name edge +:+ ": " +:+ t))
           | CelProgramError t => fail (ErrMsg t)
           | CelEvalError t => fail (ErrMsg ("evaluate edge " +:+ edge_name edge +:+ ": " +:+ t))
           | CelNotBool => fail (ErrMsg ("edge " +:+ edge_name edge +:+ " did not evaluate to bool"))
           | CelBool b => ok b
           end);
      bs ← EvaluateEdges edges input result nodes;
      ok (b :: bs)
  end.

(** [json.Unmarshal] into a [map[string]any]: [null] leaves a nil map. *)
Definition unmarshal_map (what raw : string) : res (list (string * json)) :=
  if String.eqb raw "" then ok [] else
  match parse_object raw with
  | Some (Some m) => ok m
  | Some None => ok []
  | None => fail (ErrMsg ("decode " +:+ what))
  end.
Definition evaluate (request : NodeRequest) (output : string) : res (list bool) :=
  input ← unmarshal_map "run input" (nq_input request);
  result ← unmarshal_map "node output" output;
  EvaluateEdges (nq_outgoing request) input result (nq_nodes request).
End Evaluate.

(** ** Errors *)

(** An executor error with the two identities [errors.Is] asks for. *)
Record ExecError := mkExecError { ee_text : string; ee_canceled : bool; ee_deadline : bool }.
Record TaskIdentity := mkIdentity { ti_iteration : Z; ti_attempt : Z; ti_framework : Z }.
(** The plugin runtime: it may record evidence in the store while it runs. *)
Class TaskExecutor := Execute :
  TaskIdentity → string → PlanNode → string → gmap string json → string → Db → (ExecError + string) * Db.
(** What the activity returns to the framework; [permanent] stops its retries. *)
Record NodeError := mkNodeError { nerr_text : string; nerr_permanent : bool }.

Section Activities.
Context {cel : Cel} (executor : option TaskExecutor).

Definition executeKey (request : NodeRequest) : string :=
  "run/" +:+ nq_run request +:+ "/node/" +:+ pn_id (nq_node request) +:+ "/iteration/" +:+ itoa (nq_iteration request)
    +:+ "/operation/execute".
Definition retryable (e : Err) : NodeError := mkNodeError (error_text e) false.

(** The switch on [request.Node.Uses]: output or error, and exit outcome. *)
Definition invoke (request : NodeRequest) (attempt framework : Z) (s : Db) : (ExecError + string) * string * Db :=
  let node := nq_node request in
  if String.eqb (pn_uses node) "core.noop" then
    (inr (match obj_get "result" (pn_with node) with Some v => marshal v | None => marshal (mkobj [("ok", JBool true)]) end),
     "completed", s)
  else if String.eqb (pn_uses node) "core.fail" then (inl (mkExecError "core.fail requested" false false), "core-error", s)
  else match executor with
       | None => (inl (mkExecError ("no task executor for " +:+ quoted (pn_uses node)) false false), "executor-unavailable", s)
       | Some exec =>
           let '(r, s') := exec (mkIdentity (nq_iteration request) attempt framework) (nq_run request) node
                             (nq_input request) (nq_nodes request) (executeKey request) s in
           (r, "plugin-completed", s')
       end.

(** Exit outcome and returned error of a failed invocation. *)
Definition failure (request : NodeRequest) (ctxErr : bool) (e : ExecError) (outcome : string) (s : Db) : string * NodeError :=
  if ee_canceled e then
    if ctxErr then
      match db_runs s !! nq_run request with
      | Some r => if String.eqb (run_phase r) "cancelled" then ("cancelled", mkNodeError (ee_text e) false)
                  else ("delivery-lost", mkNodeError "activity delivery was interrupted before durable completion" false)
      | None => ("cancelled", mkNodeError (ee_text e) false)
      end
    else ("cancelled", mkNodeError (ee_text e) true)
  else if ee_deadline e then ("deadline-exceeded", mkNodeError (ee_text e) false)
  else if String.eqb outcome "plugin-completed" then ("plugin-failed", mkNodeError (ee_text e) false)
  else (outcome, mkNodeError (ee_text e) false).

(** [frameworkAttempt] is [workflowActivity.Attempt(ctx) + 1]; the three
    instants are those of the store calls. *)
Definition ExecuteNode (request : NodeRequest) (frameworkAttempt : Z) (ctxErr : bool) (now1 now2 : string) (s : Db)
    : (NodeError + NodeResult) * Db :=
  let node := nq_node request in
  if (nq_iteration request <? 0) || (1000 <=? nq_iteration request)
  then (inl (mkNodeError "node iteration is outside the compiled limit" false), s) else
  if (frameworkAttempt <? 1) || (pn_retryLimit node + 1 <? frameworkAttempt)
  then (inl (mkNodeError ("framework attempt " +:+ itoa frameworkAttempt +:+ " is outside retry policy") false), s) else
  match BeginNodeAttempt (nq_run request) (pn_id node) (nq_iteration request) frameworkAttempt (executeKey request) (nq_input request) now1 s with
  | inl e => (inl (retryable e), s)
  | inr (((k, record), created), s1) =>
      if negb created && bool_decide (is_Some (at_completed record)) then
        if negb (String.eqb (at_phase record) "succeeded") then (inl (mkNodeError (at_error record) false), s1) else
        let output := default "" (at_output record) in
        match evaluate request output with
        | inl e => (inl (retryable e), s1)
        | inr activated => (inr (mkResult output activated false), s1)
        end
      else
        let '(r, outcome, s2) := invoke request k.2 frameworkAttempt s1 in
        let complete phase output text exitOutcome :=
          CompleteNodeAttempt (nq_run request) (pn_id node) (nq_iteration request) k.2 phase output text exitOutcome now2 in
        match r with
        | inl e =>
            let '(exitOutcome, err) := failure request ctxErr e outcome s2 in
            (inl err, commit (complete "failed" "" (nerr_text err) exitOutcome) s2)
        | inr output =>
            match evaluate request output with
            | inl e => (inl (retryable e), commit (complete "failed" "" (error_text e) "evaluation-failed") s2)
            | inr activated =>
                match complete "succeeded" output "" outcome s2 with
                | inl e => (inl (retryable e), s2)
                | inr (_, s3) => (inr (mkResult output activated false), s3)
                end
            end
        end
  end.

(** *** Approvals *)

(** [expiresAt] is the text of [time.Now().Add(timeout)]. *)
Definition BeginApproval (request : NodeRequest) (nowTime : Z) (now : string) (s : Db) : res unit * Db :=
  match time_ParseDuration (pn_timeout (nq_node request)) with
  | None => (fail (ErrMsg "invalid duration"), s)
  | Some timeout =>
      match EnsureApproval (nq_run request) (pn_id (nq_node request)) (Some (rfc3339nano (nowTime + timeout))) s with
      | inl e => (fail e, s)
      | inr (_, s1) =>
          match AppendRunEvent (nq_run request) (pn_id (nq_node request)) "approval.waiting" "waiting" 1 "" now s1 with
          | inl e => (fail e, s1)
          | inr (_, s2) => (ok tt, s2)
          end
      end
  end.

Definition approval_output (state reason : string) : string :=
  marshal (mkobj [("approved", JBool (String.eqb state "approved")); ("state", JStr state); ("reason", JStr reason)]).
Definition EndApproval (request : NodeRequest) (signal : ApprovalSignal) (now : string) (s : Db) : res NodeResult * Db :=
  let run := nq_run request in
  let node := pn_id (nq_node request) in
  match ApprovalState run node s with
  | inl e => (fail e, s)
  | inr (state, _) =>
      let decided :=
        if String.eqb state "pending" then
          match DecideApproval run node (as_state signal) "system" (as_reason signal) now s with
          | inl e => inl e | inr (_, s1) => inr (as_state signal, s1) end
        else inr (state, s) in
      match decided with
      | inl e => (fail e, s)
      | inr (state, s1) =>
          let output := approval_output state (as_reason signal) in
          match evaluate request output with
          | inl e => (fail e, s1)
          | inr activated =>
              let approved := String.eqb state "approved" in
              match AppendRunEvent run node (if approved then "approval.approved" else "approval.rejected") "running" 1 output now s1 with
              | inl e => (fail e, s1)
              | inr (_, s2) => (ok (mkResult output activated (negb approved)), s2)
              end
          end
      end
  end.

(** *** Events and the run's end *)

Definition append (run node type phase : string) (attempt : Z) (payload now : string) (s : Db) : res unit * Db :=
  match AppendRunEvent run node type phase attempt payload now s with
  | inl e => (fail e, s) | inr (_, s') => (ok tt, s') end.

Definition BeginEvent (request : NodeRequest) (now : string) (s : Db) : res unit * Db :=
  append (nq_run request) (pn_id (nq_node request)) "event.waiting" "waiting" (nq_iteration request + 1) "" now s.
Definition EndEvent (request : NodeRequest) (signal : EventSignal) (now : string) (s : Db) : res NodeResult * Db :=
  match evaluate request (es_payload signal) with
  | inl e => (fail e, s)
  | inr activated =>
      match parse (es_payload signal) with
      | None => (fail (ErrMsg "invalid payload"), s)
      | Some payload =>
          let evidence := marshal (mkobj [("providerEventID", JStr (es_providerEventID signal)); ("payload", payload)]) in
          match append (nq_run request) (pn_id (nq_node request)) "event.received" "running" (nq_iteration request + 1) evidence now s with
          | (inl e, s1) => (fail e, s1)
          | (inr _, s1) => (ok (mkResult (es_payload signal) activated false), s1)
          end
      end
  end.
Definition IgnoreEvent (request : NodeRequest) (signal : EventSignal) (now : string) (s : Db) : res unit * Db :=
  append (nq_run request) (pn_id (nq_node request)) "event.duplicate" "waiting" (nq_iteration request + 1)
    (marshal (mkobj [("providerEventID", JStr (es_providerEventID signal))])) now s.
Definition SkipNode (run node now : string) (s : Db) : res unit * Db := append run node "node.skipped" "running" 0 "" now s.
Definition CompleteRun (run phase now : string) (s : Db) : res unit * Db := append run "" ("run." +:+ phase) phase 0 "" now s.
Definition FailRun (run message now : string) (s : Db) : res unit * Db :=
  append run "" "run.failed" "failed" 0 (marshal (mkobj [("error", JStr message)])) now s.
End Activities.
