(* ===== verification/ManagerRun.v ===== *)
(** [internal/pluginmanager/manager.go], the execution of a node: the resolution of
    its secrets, its configuration and input checked against the pinned contract,
    the call of the plugin, and the event stream it answers with, of which the
    evidence is stored.

    The plugin process is the class [PluginHost]: a started call is the list of the
    events it will send and how the stream ends.  Environment variables and secret
    files are the class [Host].  The raw log of an attempt is the text the attempt's
    file already holds followed by what the call appends; file errors are not
    modelled, nor are the call limiters and the table of running processes, which
    delay a call but do not change its result.  Secrets are taken to be valid
    UTF-8. *)

From Stdlib Require Import Ascii.
From Stdlib Require String.
From S2P Require Import Prelude.
From S2P Require Import Json.
From S2P Require Import GoStd.
From S2P Require Import Resource.
From S2P Require Import Plan.
From S2P Require Import ActionContract.
From S2P Require Import PluginMapping.
From S2P Require Import ResourceJson.
From S2P Require Import PluginContract.
From S2P Require Import References.
From S2P Require Import FlowCompiler.
From S2P Require Import Db.
From S2P Require Import StoreRuns.
From S2P Require Import StoreResources.
From S2P Require Import StorePlugins.
From S2P Require Import EngineNode.
From S2P Require Import ManagerBind.
From S2P Require Import Redact.

Local Open Scope Z_scope.

(** ** Secrets *)

(** [ReadSecret path]: [None] cannot be opened, [Some None] cannot be read. *)
Class Host := { LookupEnv : string → option string; ReadSecret : string → option (option string) }.
Definition maxSecretSize : Z := Z.shiftl 1 20.

Section Secrets.
Context {cal : Calendar} {host : Host} (s : Db).

Definition not_configured (name : string) : string := "SecretRef " +:+ quoted name +:+ " is not configured".
Definition resolveSecretSpec (name : string) (spec : SecretRefSpec) : string + string :=
  let backend := sr_backend spec in
  if String.eqb backend "environment" || String.eqb backend "env" then
    match LookupEnv (sr_key spec) with Some value => inr value | None => inl (not_configured name) end
  else if String.eqb backend "file" then
    match ReadSecret (path_clean (sr_key spec)) with
    | None => inl (not_configured name)
    | Some (Some data) => if Z.of_nat (String.length data) <=? maxSecretSize then inr data
                          else inl ("SecretRef " +:+ quoted name +:+ " could not be read within the size limit")
    | Some None => inl ("SecretRef " +:+ quoted name +:+ " could not be read within the size limit")
    end
  else inl ("SecretRef " +:+ quoted name +:+ " uses unsupported backend " +:+ quoted backend).
Definition resolveSecret (namespace name : string) : string + string :=
  match lookup s "SecretRef" (normalizedNamespace namespace) name with
  | inl e => inl ("resolve SecretRef " +:+ quoted name +:+ ": " +:+ error_text e)
  | inr document =>
      match DecodeSecretRef document with
      | inl e => inl (error_text e)
      | inr reference => resolveSecretSpec name reference.2
      end
  end.

Definition legacy_plan : string := "legacy plan does not pin a resource namespace".
Definition bound_resource (kind namespace name : string) (b : ResourceBinding) : bool :=
  String.eqb (rb_kind b) kind && String.eqb (rb_name b) name && (String.eqb namespace "" || String.eqb (rb_namespace b) namespace).
Definition resolveBoundSecret (namespace name : string) (bound : list ResourceBinding) : string + string :=
  match List.find (bound_resource "SecretRef" namespace name) bound with
  | Some b =>
      match decode_secret_spec (rb_spec b) with
      | None => inl ("decode pinned SecretRef " +:+ quoted name +:+ ": " +:+ decode_error)
      | Some spec => resolveSecretSpec name spec
      end
  | None =>
      match bound with
      | _ :: _ => inl ("pinned SecretRef " +:+ quoted name +:+ " is missing from the execution plan")
      | [] => if String.eqb namespace "" then inl legacy_plan else resolveSecret namespace name
      end
  end.
Abbreviation secrets := (gmap string string).

Fixpoint resolve_references (namespace : string) (bound : list ResourceBinding) (references : config) (result : secrets)
    : string + secrets :=
  match references with
  | [] => inr result
  | (target, untyped) :: references =>
      match untyped with
      | JStr name =>
          if String.eqb name "" then inl (secret_name_error target)
          else
            match (match bound with
                   | _ :: _ => resolveBoundSecret namespace name bound
                   | [] => if String.eqb namespace "" then inl legacy_plan else resolveSecret namespace name
                   end) with
            | inl e => inl e
            | inr secret => resolve_references namespace bound references (<[target := secret]> result)
            end
      | _ => inl (secret_name_error target)
      end
  end.
(** The secrets and the configuration without [secretRefs]. *)
Definition resolveNodeSecretsInNamespace (namespace : string) (c : config) (bound : list ResourceBinding) : string + (secrets * config) :=
  match obj_get "secretRefs" c with
  | None => inr (∅, c)
  | Some (JObj references) =>
      match resolve_references namespace bound references ∅ with
      | inl e => inl e
      | inr result => inr (result, obj_delete "secretRefs" c)
      end
  | Some _ => inl secret_map_error
  end.

(** Resource names are ASCII. *)
Definition upper (c : ascii) : ascii := if is_lower c then ascii_of_N (N_of_ascii c - 32) else c.
Definition secretEnvironmentName (name : string) : string :=
  implode (List.map (λ c, if is_lower c || is_upper c || is_digit c then upper c else "_"%char) (explode name)).
Fixpoint resolve_profile (namespace : string) (references : list string) (bound : list ResourceBinding) (result : secrets)
    : string + secrets :=
  match references with
  | [] => inr result
  | binding :: references =>
      let '(target, name) := splitSecretBinding binding in
      let target := if String.eqb target "" then secretEnvironmentName name else target in
      match resolveBoundSecret namespace name bound with
      | inl e => inl e
      | inr secret => resolve_profile namespace references bound (<[target := secret]> result)
      end
  end.
Definition resolveProfileSecrets (namespace : string) (references : list string) (bound : list ResourceBinding) : string + secrets :=
  resolve_profile namespace references bound ∅.

Definition boundAgentProfile (namespace : string) (bound : list ResourceBinding) (name : string) : string + AgentProfileSpec :=
  match List.find (bound_resource "AgentProfile" namespace name) bound with
  | Some b =>
      match decode_profile_spec (rb_spec b) with
      | None => inl ("decode pinned AgentProfile " +:+ quoted name +:+ ": " +:+ decode_error)
      | Some spec => inr spec
      end
  | None =>
      match bound with
      | _ :: _ => inl ("pinned AgentProfile " +:+ quoted name +:+ " is missing from the execution plan")
      | [] =>
          if String.eqb namespace "" then inl legacy_plan else
          match lookup s "AgentProfile" namespace name with
          | inl e => inl (error_text e)
          | inr document => match DecodeAgentProfile document with inl e => inl (error_text e) | inr profile => inr profile.2 end
          end
      end
  end.

Definition expandRepositoryConfig (namespace : string) (c : config) : string + config :=
  if String.eqb namespace "" then inl legacy_plan else
  let name := get_string "repositoryRef" c in
  if String.eqb name "" then inl "repositoryRef is required" else
  match lookup s "Repository" namespace name with
  | inl e => inl ("resolve Repository " +:+ quoted name +:+ ": " +:+ error_text e)
  | inr document =>
      match DecodeRepository document with
      | inl e => inl (error_text e)
      | inr repository =>
          let spec := repository.2 in
          let c := obj_set "defaultBranch" (JStr (rp_defaultBranch spec))
                     (obj_set "cloneURL" (JStr (rp_cloneURL spec)) (obj_delete "repositoryRef" c)) in
          if String.eqb (rp_authSecretRef spec) "" then inr c else
          match bindSecretConfig c "token" (rp_authSecretRef spec) with
          | inl e => inl e
          | inr c => inr (if obj_get "tokenSecret" c is Some _ then c else obj_set "tokenSecret" (JStr "token") c)
          end
      end
  end.
End Secrets.
Definition secretValues (secrets : gmap string string) : list string :=
  filter (λ v, v ≠ "") (snd <$> sort_by (onc fst str_cmp) (map_to_list secrets)).
