(* ===== verification/ManagerBindFacts.v ===== *)
(** A binding is self-contained: every resource a bound node resolves at run time
    is pinned in the binding, so its secrets and its profile do not depend on the
    store the node runs against. *)

From Stdlib Require Import Ascii.
From Stdlib Require String.
From S2P Require Import Prelude.
From S2P Require Import Json.
From S2P Require Import GoStd.
From S2P Require Import JsonPlain.
From S2P Require Import JsonRound.
From S2P Require Import Resource.
From S2P Require Import Plan.
From S2P Require Import ActionContract.
From S2P Require Import PluginMapping.
From S2P Require Import ResourceJson.
From S2P Require Import PluginContract.
From S2P Require Import FlowCompiler.
From S2P Require Import Db.
From S2P Require Import StoreRuns.
From S2P Require Import StoreResources.
From S2P Require Import StorePlugins.
From S2P Require Import StoreOps.
From S2P Require Import ServerPagesFacts.
From S2P Require Import ManagerBind.
From S2P Require Import ManagerRun.

Local Open Scope Z_scope.

Lemma append_inj a b c : a +:+ b = a +:+ c → b = c.
Proof. induction a as [|x a IH]; [done|]. intros [= H]. auto. Qed.

(** The namespaced kinds a binding pins. *)
Definition bound_kind (kind : string) : Prop := kind = "AgentProfile" ∨ kind = "Repository" ∨ kind = "SecretRef".
Lemma binding_path_inj kind kind' namespace name name' : bound_kind kind → bound_kind kind' →
  binding_path kind namespace name = binding_path kind' namespace name' → kind = kind' ∧ name = name'.
Proof.
  unfold binding_path. intros [-> |[-> | ->]] [-> |[-> | ->]] H; try discriminate H; (split; [done|]);
    apply append_inj, append_inj, append_inj, append_inj in H; exact H.
Qed.

Section Binding.
Context {cal : Calendar} (workspaces : string) (s : Db) (Hs : filed s) (namespace : string) (Hns : namespace ≠ "").

Lemma lookup_document kind name document : lookup s kind namespace name = inr document →
  document_key document = (kind, namespace, name) ∧ well_formed document.
Proof.
  unfold lookup, result, Get. destruct (_ ≫= _) as [e|[d s']] eqn:E; [done|]. intros [= <-].
  apply tx_bind_inv in E as (r&s1&E&E1). apply tx_row_inv in E as [E ->]. apply tx_lift_inv in E1 as [E1 ->].
  unfold default_namespace in E. rewrite (proj2 (String.eqb_neq _ _) Hns) in E. destruct (Hs _ _ E) as (Hk&Hw&_).
  unfold well_formed in Hw. rewrite Hw in E1. injection E1 as <-. done.
Qed.

(** What a map of bindings may hold: resources of the store under their paths. *)
Definition pins (kind name : string) (b : bindings) : Prop := ∃ document, lookup s kind namespace name = inr document ∧
  b !! binding_path kind namespace name = Some (resource_binding kind document).
Definition pinned (b : bindings) : Prop := map_Forall (λ k rb, bound_kind (rb_kind rb) ∧ k = binding_path (rb_kind rb) namespace (rb_name rb) ∧
  rb_namespace rb = namespace ∧ ∃ document, lookup s (rb_kind rb) namespace (rb_name rb) = inr document ∧ rb = resource_binding (rb_kind rb) document) b.

Lemma bindResource_ok kind name b document b' : bound_kind kind → pinned b → bindResource s namespace kind name b = inr (document, b') →
  lookup s kind namespace name = inr document ∧ pinned b' ∧ pins kind name b' ∧ ∀ k n, bound_kind k → pins k n b → pins k n b'.
Proof.
  intros Hk Hb H. unfold bindResource in H. apply res_bind_ok in H as (d&Hd&[= <- <-]).
  destruct (lookup_document _ _ _ Hd) as [Hkey _]. injection Hkey as Ekind Ens Ename. rewrite Ens, Ename.
  assert (Hrb : rb_kind (resource_binding kind d) = kind ∧ rb_name (resource_binding kind d) = name ∧ rb_namespace (resource_binding kind d) = namespace) by done.
  destruct Hrb as (R1&R2&R3). split_and!; [done| |exists d; by rewrite lookup_insert_eq|].
  - intros k rb. rewrite lookup_insert_Some. intros [[<- <-]|[_ Hrb]]; [|by apply Hb].
    rewrite R1, R2, R3. split_and!; [done|done|done|]. by exists d.
  - intros k n Hkn (d'&Hd'&Hl). exists d'. split; [done|]. rewrite lookup_insert_Some.
    destruct (decide (binding_path kind namespace name = binding_path k namespace n)) as [E|E]; [left|by right].
    split; [done|]. apply binding_path_inj in E as [-> ->]; [|done|done]. congruence.
Qed.
Lemma bindSecret_ok name b b' : pinned b → bindSecret s namespace name b = inr b' →
  name ≠ "" ∧ pinned b' ∧ pins "SecretRef" name b' ∧ ∀ k n, bound_kind k → pins k n b → pins k n b'.
Proof.
  intros Hb H. unfold bindSecret in H. destruct (String.eqb_spec name "") as [->|Hn]; [done|].
  apply res_bind_ok in H as ([d b1]&H&[= <-]). apply bindResource_ok in H as (_&H1&H2&H3); [|by right; right|done]. done.
Qed.
Lemma bindSecrets_ok names b b' : pinned b → bindSecrets s namespace names b = inr b' →
  pinned b' ∧ Forall (λ name, pins "SecretRef" name b') names ∧ ∀ k n, bound_kind k → pins k n b → pins k n b'.
Proof.
  revert b. induction names as [|name names IH]; intros b Hb H; cbn [bindSecrets] in H; [by injection H as <-|].
  apply res_bind_ok in H as (b1&H1&H). apply bindSecret_ok in H1 as (_&Hb1&Hp&Hm); [|done].
  destruct (IH b1 Hb1 H) as (Hb'&Hf&Hm'). split_and!; [done|constructor; [|done]|eauto].
  apply Hm'; [by right; right|done].
Qed.

Lemma secretRefs_kept key v c : key ≠ "secretRefs" → secretReferenceNames (obj_set key v c) = secretReferenceNames c.
Proof. intros H. unfold secretReferenceNames. by rewrite obj_get_set_ne. Qed.

(** The references of a bound action are pinned. *)
Lemma bind_references_ok action c c' b : bind_references workspaces s namespace action c = inr (c', b) →
  pinned b ∧ ∃ names, secretReferenceNames c' = inr names ∧ Forall (λ name, pins "SecretRef" name b) names.
Proof.
  unfold bind_references. intros H.
  destruct (if String.eqb action "github.workspace.checkout" then bind_checkout s namespace c else inr (c, ∅)) as [d|[c1 b1]] eqn:E1; [done|].
  assert (Hb1 : pinned b1).
  { destruct (String.eqb action "github.workspace.checkout"); [|injection E1 as _ <-; apply map_Forall_empty].
    unfold bind_checkout in E1. destruct (String.eqb (get_string "repositoryRef" c) ""); [done|].
    destruct (bindResource s namespace "Repository" _ ∅) as [e|[d b2]] eqn:E2; [done|].
    apply bindResource_ok in E2 as (_&Hb2&_); [|by right; left|apply map_Forall_empty].
    destruct (DecodeRepository d) as [e|[m spec]]; [done|]. destruct (String.eqb (rp_authSecretRef _) ""); [by injection E1 as _ <-|].
    destruct (bindSecret s namespace _ b2) as [e|b3] eqn:E3; [done|]. apply bindSecret_ok in E3 as (_&Hb3&_); [|done].
    destruct (bindSecretConfig _ _ _); [done|]. by injection E1 as _ <-. }
  destruct (secretReferenceNames c1) as [e|names] eqn:En; [done|]. destruct (bindSecrets s namespace names b1) as [e|b2] eqn:E2; [done|].
  injection H as <- <-. apply bindSecrets_ok in E2 as (Hb2&Hf&_); [|done]. split; [done|]. exists names.
  destruct (has_prefix action "github.workspace."); [rewrite secretRefs_kept by done|]; done.
Qed.
Lemma bind_agent_ok c c' b : bind_agent s namespace c = inr (c', b) →
  c' = c ∧ pinned b ∧ ∃ document spec, lookup s "AgentProfile" namespace (get_string "profile" c) = inr document ∧
    doc_spec document = SpecAgentProfile spec ∧ pins "AgentProfile" (get_string "profile" c) b ∧
    Forall (λ r, pins "SecretRef" (splitSecretBinding r).2 b) (a_secretRefs spec).
Proof.
  unfold bind_agent. intros H. destruct (String.eqb (get_string "profile" c) ""); [done|].
  destruct (bindResource s namespace "AgentProfile" _ ∅) as [e|[d b1]] eqn:E1; [done|].
  apply bindResource_ok in E1 as (Hd&Hb1&Hp&_); [|by left|apply map_Forall_empty].
  destruct (DecodeAgentProfile d) as [e|[m spec]] eqn:Ed; [done|].
  destruct (bindSecrets s namespace _ b1) as [e|b2] eqn:E2; [done|]. injection H as <- <-.
  apply bindSecrets_ok in E2 as (Hb2&Hf&Hm); [|done]. split_and!; [done|done|]. exists d, spec.
  assert (doc_spec d = SpecAgentProfile spec) as Hspec.
  { unfold DecodeAgentProfile in Ed. destruct (lookup_document _ _ _ Hd) as [_ Hw]. unfold well_formed in Hw. rewrite Hw in Ed.
    cbn [mbind res_bind] in Ed. unfold ok in Ed. destruct (doc_spec d); try discriminate Ed. by injection Ed as _ ->. }
  split_and!; [done|done|apply Hm; [by left|done]|]. cbn [snd] in Hf. by rewrite Forall_fmap in Hf.
Qed.
End Binding.

(** ** Resolution from a binding *)

Section Resolution.
Context {cal : Calendar} {host : Host} (s : Db) (Hs : filed s) (namespace : string) (Hns : namespace ≠ "").

Definition listed (b : bindings) : list ResourceBinding := sort_by (onc binding_key str_cmp) (snd <$> map_to_list b).

Lemma bound_resource_kind kind name rb : bound_resource kind namespace name rb = true →
  rb_kind rb = kind ∧ rb_name rb = name.
Proof. unfold bound_resource. rewrite !andb_true_iff, !String.eqb_eq. tauto. Qed.
Lemma find_listed kind name b document : pinned s namespace b → lookup s kind namespace name = inr document →
  b !! binding_path kind namespace name = Some (resource_binding kind document) →
  List.find (bound_resource kind namespace name) (listed b) = Some (resource_binding kind document).
Proof.
  intros Hb Hd Hl. destruct (lookup_document s Hs namespace Hns _ _ _ Hd) as [Hkey _]. injection Hkey as _ Ens Ename.
  destruct (List.find _ (listed b)) as [rb|] eqn:E.
  - apply List.find_some in E as [Hin Hm]. apply bound_resource_kind in Hm as [<- <-].
    apply list_elem_of_In in Hin. unfold listed in Hin. rewrite elem_of_sort_by in Hin by apply _.
    apply list_elem_of_fmap in Hin as ([k rb']&->&Hin). cbn [snd] in *. apply elem_of_map_to_list in Hin.
    destruct (Hb _ _ Hin) as (_&_&_&d'&Hd'&E). congruence.
  - exfalso. assert (Hin : resource_binding kind document ∈ listed b).
    { unfold listed. rewrite elem_of_sort_by by apply _. apply list_elem_of_fmap.
      exists (binding_path kind namespace name, resource_binding kind document). split; [done|]. by apply elem_of_map_to_list. }
    apply list_elem_of_In in Hin. pose proof (List.find_none _ _ E _ Hin) as Hf. unfold bound_resource in Hf. cbn in Hf.
    by rewrite Ens, Ename, !String.eqb_refl, orb_true_r in Hf.
Qed.

(** A pinned secret is resolved as the store of the binding would. *)
Lemma resolve_pinned s1 name b : pinned s namespace b → pins s namespace "SecretRef" name b →
  resolveBoundSecret s1 namespace name (listed b) = resolveSecret s namespace name.
Proof.
  intros Hb (document&Hd&Hl). unfold resolveBoundSecret, resolveSecret.
  replace (normalizedNamespace namespace) with namespace by (unfold normalizedNamespace, default_namespace; by rewrite (proj2 (String.eqb_neq _ _) Hns)).
  rewrite (find_listed _ _ _ _ Hb Hd Hl), Hd.
  destruct (lookup_document s Hs namespace Hns _ _ _ Hd) as [Hkey Hw]. injection Hkey as Ek _ _.
  unfold DecodeSecretRef. unfold well_formed in Hw. rewrite Hw. cbn [mbind res_bind resource_binding rb_spec].
  unfold doc_kind in Ek. destruct (doc_spec document) as [| | | | |spec]; try discriminate Ek. unfold ok. cbn [snd].
  by rewrite decode_secret_spec_text.
Qed.
Lemma listed_not_empty kind name b : pins s namespace kind name b → ∃ rb l, listed b = rb :: l.
Proof.
  intros (document&_&Hl). destruct (listed b) as [|rb l] eqn:E; [|eauto]. exfalso.
  assert (resource_binding kind document ∈ listed b) as Hin.
  { unfold listed. rewrite elem_of_sort_by by apply _. apply list_elem_of_fmap.
    exists (binding_path kind namespace name, resource_binding kind document). split; [done|]. by apply elem_of_map_to_list. }
  rewrite E in Hin. by apply elem_of_nil in Hin.
Qed.
Lemma resolve_references_pinned s1 b references names result : pinned s namespace b → secret_names references = inr names →
  Forall (λ name, pins s namespace "SecretRef" name b) names →
  resolve_references s1 namespace (listed b) references result = resolve_references s namespace [] references result.
Proof.
  intros Hb. revert names result. induction references as [|[target value] references IH]; intros names result Hn Hf; [done|].
  cbn [secret_names resolve_references] in *. destruct value as [| | |name| |]; try done. destruct (String.eqb name "") eqn:En; [done|].
  destruct (secret_names references) as [e|l]; [done|]. injection Hn as <-. apply Forall_cons in Hf as [Hp Hf].
  destruct (listed_not_empty _ _ _ Hp) as (rb&k&E). rewrite E. rewrite <- E. rewrite (proj2 (String.eqb_neq _ _) Hns).
  rewrite (resolve_pinned s1 name b Hb Hp). destruct (resolveSecret s namespace name); [done|]. by apply (IH l).
Qed.
Lemma resolve_node_pinned s1 b c names : pinned s namespace b → secretReferenceNames c = inr names →
  Forall (λ name, pins s namespace "SecretRef" name b) names →
  resolveNodeSecretsInNamespace s1 namespace c (listed b) = resolveNodeSecretsInNamespace s namespace c [].
Proof.
  intros Hb Hn Hf. unfold resolveNodeSecretsInNamespace, secretReferenceNames in *. destruct (obj_get "secretRefs" c) as [[| | | | |references]|]; try done.
  destruct (secret_names references) as [e|l] eqn:E; [done|]. injection Hn as <-.
  rewrite (resolve_references_pinned s1 b references l ∅ Hb E); [done|]. revert Hf. unfold sort_strings. by rewrite sort_by_perm.
Qed.
Lemma resolve_profile_pinned s1 b references : pinned s namespace b →
  Forall (λ r, pins s namespace "SecretRef" (splitSecretBinding r).2 b) references →
  resolveProfileSecrets s1 namespace references (listed b) = resolveProfileSecrets s namespace references [].
Proof.
  intros Hb Hf. unfold resolveProfileSecrets. generalize (∅ : gmap string string). induction Hf as [|r references Hp Hf IH]; intros result; [done|].
  cbn [resolve_profile]. destruct (splitSecretBinding r) as [target name]. cbn [snd] in Hp. rewrite (resolve_pinned s1 name b Hb Hp).
  change (resolveBoundSecret s namespace name []) with (if String.eqb namespace "" then inl legacy_plan else resolveSecret s namespace name).
  rewrite (proj2 (String.eqb_neq _ _) Hns). destruct (resolveSecret s namespace name); [done|]. apply IH.
Qed.
Lemma bound_profile_pinned s1 b name document spec : pinned s namespace b → lookup s "AgentProfile" namespace name = inr document →
  doc_spec document = SpecAgentProfile spec → pins s namespace "AgentProfile" name b →
  boundAgentProfile s1 namespace (listed b) name = inr spec ∧ boundAgentProfile s namespace [] name = inr spec.
Proof.
  intros Hb Hd Hspec (d'&Hd'&Hl). rewrite Hd in Hd'. injection Hd' as <-. unfold boundAgentProfile.
  rewrite (find_listed _ _ _ _ Hb Hd Hl). cbn [resource_binding rb_spec]. rewrite Hspec, decode_profile_spec_text. split; [done|].
  cbn [List.find]. rewrite (proj2 (String.eqb_neq _ _) Hns), Hd. destruct (lookup_document s Hs namespace Hns _ _ _ Hd) as [_ Hw].
  unfold DecodeAgentProfile. unfold well_formed in Hw. rewrite Hw. cbn [mbind res_bind]. by rewrite Hspec.
Qed.
End Resolution.

(** ** [BindAction] *)

Section BindAction.
Context {cal : Calendar} {host : Host} (workspaces : string) (s : Db) (Hs : filed s).

Lemma BindAction_ok namespace action c b : namespace ≠ "" → BindAction workspaces s namespace action c = (b, []) →
  ∃ record manifest contract descriptor bound c' resources,
    active_plugin s (plugin_of action) = inr record ∧ decode_manifest (pv_manifest record) = Some manifest ∧
    DecodeContract (pv_contract record) = Some contract ∧ actionDescriptor contract action = Some descriptor ∧ cloneConfig c = Some bound ∧
    (if String.eqb (plugin_of action) "agent-command" then bind_agent s namespace bound else bind_references workspaces s namespace action bound)
      = inr (c', resources) ∧
    b = actionBinding record manifest descriptor c' resources.
Proof.
  intros Hns H. unfold BindAction in H. cbv zeta in H. unfold default_namespace in H. rewrite (proj2 (String.eqb_neq _ _) Hns) in H.
  destruct (active_plugin s (plugin_of action)) as [e|record]; [done|].
  destruct (decode_manifest (pv_manifest record)) as [manifest|] eqn:Em; [|done].
  destruct (DecodeContract (pv_contract record)) as [contract|] eqn:Ec; [|done].
  destruct (actionDescriptor contract action) as [descriptor|] eqn:Ed; [|done]. destruct (cloneConfig c) as [bound|]; [|done].
  destruct (if String.eqb (plugin_of action) "agent-command" then _ else _) as [d|[c' resources]] eqn:Eb; [done|].
  injection H as <-. exists record, manifest, contract, descriptor, bound, c', resources. done.
Qed.

Lemma node_secrets_pinned namespace action c b s1 : namespace ≠ "" → plugin_of action ≠ "agent-command" →
  BindAction workspaces s namespace action c = (b, []) →
  resolveNodeSecretsInNamespace s1 namespace (ab_config b) (ab_resources b) = resolveNodeSecretsInNamespace s namespace (ab_config b) [].
Proof.
  intros Hns Hp H. destruct (BindAction_ok _ _ _ _ Hns H) as (record&manifest&contract&descriptor&bound&c'&resources&_&_&_&_&_&Hb&->).
  rewrite (proj2 (String.eqb_neq _ _) Hp) in Hb. destruct (bind_references_ok workspaces s Hs namespace Hns _ _ _ _ Hb) as (Hpin&names&Hn&Hf).
  by apply (resolve_node_pinned s Hs namespace Hns s1 resources c' names).
Qed.
Lemma agent_secrets_pinned namespace action c b s1 : namespace ≠ "" → plugin_of action = "agent-command" →
  BindAction workspaces s namespace action c = (b, []) →
  ∃ spec, boundAgentProfile s1 namespace (ab_resources b) (get_string "profile" (ab_config b)) = inr spec ∧
    boundAgentProfile s namespace [] (get_string "profile" (ab_config b)) = inr spec ∧
    resolveProfileSecrets s1 namespace (a_secretRefs spec) (ab_resources b) = resolveProfileSecrets s namespace (a_secretRefs spec) [].
Proof.
  intros Hns Hp H. destruct (BindAction_ok _ _ _ _ Hns H) as (record&manifest&contract&descriptor&bound&c'&resources&_&_&_&_&_&Hb&->).
  rewrite Hp in Hb. cbn [String.eqb] in Hb. destruct (bind_agent_ok s Hs namespace Hns _ _ _ Hb) as (->&Hpin&document&spec&Hd&Hspec&Hprof&Hf).
  exists spec. destruct (bound_profile_pinned s Hs namespace Hns s1 resources _ _ _ Hpin Hd Hspec Hprof) as [H1 H2].
  split_and!; [exact H1|exact H2|]. by apply resolve_profile_pinned.
Qed.
End BindAction.
