(* ===== verification/ManagerStream.v ===== *)
(** [internal/pluginmanager/manager.go], the event stream of a plugin call
    ([consume]) and the execution of a node over it ([executeTask],
    [executeAgent], [Execute]).

    The plugin process is the class [PluginHost]; a started call is the events it
    sends and the way the stream ends. *)

From Stdlib Require Import Ascii.
From Stdlib Require String.
From S2P Require Import Prelude.
From S2P Require Import Json.
From S2P Require Import GoStd.
From S2P Require Import Resource.
From S2P Require Import Plan.
From S2P Require Import ActionContract.
From S2P Require Import PluginMapping.
From S2P Require Import ResourceJson.
From S2P Require Import PluginContract.
From S2P Require Import FlowCompiler.
From S2P Require Import Db.
From S2P Require Import StoreRuns.
From S2P Require Import StoreResources.
From S2P Require Import StorePlugins.
From S2P Require Import EngineNode.
From S2P Require Import ManagerBind.
From S2P Require Import Redact.
From S2P Require Import ManagerRun.

Local Open Scope Z_scope.

(** ** Streams *)

(** [ev_occurredAt] is [None] when the timestamp is missing or invalid. *)
Record ExecuteEvent := mkExecuteEvent {
  xe_sequence : Z; xe_type : string; xe_occurredAt : option string; xe_payload : string; xe_rawLog : string }.
(** The gRPC status of a broken stream and [ctx.Err()] at that time. *)
Inductive StreamEnd := EndOfStream | StreamError (code message : string) (ctxErr : option ExecError).
Record Stream := mkStream { sm_events : list ExecuteEvent; sm_end : StreamEnd }.

Definition plain (text : string) : ExecError := mkExecError text false false.
Definition status_text (code message : string) : string := "rpc error: code = " +:+ code +:+ " desc = " +:+ message.
Definition has_suffix (s suffix : string) : bool :=
  (String.length suffix <=? String.length s)%nat &&
  String.eqb (String.substring (String.length s - String.length suffix) (String.length suffix) s) suffix.
Definition failed_type (type : string) : bool := has_suffix type ".failed".
Definition terminal_type (type : string) : bool := failed_type type || has_suffix type ".completed".

(** A string member of a decoded struct, [""] when decoding fails. *)
Definition payload_member (key payload : string) : string :=
  match decode_fields payload with Some m => default "" (str_member key m) | None => "" end.
Definition pluginEventOutcome (type payload : string) : string :=
  let outcome := payload_member "outcome" payload in
  if negb (String.eqb outcome "") then outcome else if terminal_type type then type else "".
Definition terminalFailureDiagnostic (payload : string) : string := trim_space (payload_member "error" payload).

Record runArtifact := mkRunArtifact {
  ra_run : string; ra_node : string; ra_iteration : Z; ra_attempt : Z; ra_redactions : list string; ra_persist : bool }.

(** The raw log file of an attempt, at the event of a sequence number: the error of
    creating its directory, of opening, writing, syncing or closing it, with the
    number of bytes that had reached the file; and the error of reading it back.
    Any of them may fail, for an attempt that is not stored too. *)
Class RawLogFiles := {
  append_fault : runArtifact → Z → option (nat * string);
  read_fault : runArtifact → Z → option string }.

Section Consume.
Context {sha : Sha256} {files : RawLogFiles} (now fresh : Z → string).

Definition artifact_path (a : runArtifact) : string :=
  "artifacts/" +:+ ra_run a +:+ "/" +:+ ra_node a +:+ "/iteration-" +:+ itoa (ra_iteration a) +:+ "/attempt-" +:+ itoa (ra_attempt a) +:+ "/raw.log".
Definition registerArtifact (a : runArtifact) (log : string) (sequence : Z) : Tx ArtifactRow :=
  tx_lift (match read_fault a sequence with Some error => fail (ErrMsg error) | None => ok tt end) ≫= λ _,
  PutArtifact (mkArtifactArg "" (ra_run a) (ra_node a) (ra_iteration a) (ra_attempt a) "raw.log" "text/plain; charset=utf-8"
    (artifact_path a) (Z.of_nat (String.length log)) (FlowCompiler.sha256_hex log)) (fresh sequence) (now sequence).
(** The error, the file [log] afterwards and the store. *)
Definition appendArtifact (a : runArtifact) (sequence : Z) (data log : string) (s : Db) : option string * string * Db :=
  match append_fault a sequence with
  | Some (written, error) => (Some error, log +:+ String.substring 0 written data, s)
  | None =>
      let log := log +:+ data in
      if negb (ra_persist a) then (None, log, s) else
      match registerArtifact a log sequence s with
      | inl err => (Some (error_text err), log, s)
      | inr (_, s) => (None, log, s)
      end
  end.

(** The raw log and the store; the writes before an error stay. *)
Definition persistPluginEvidence (a : runArtifact) (e : ExecuteEvent) (occurredAt payload log : string) (s : Db) : option string * string * Db :=
  let '(err, log, s) := if String.eqb (xe_rawLog e) "" then (None, log, s)
                        else appendArtifact a (xe_sequence e) (redact (xe_rawLog e) (ra_redactions a)) log s in
  match err with
  | Some error => (Some ("persist plugin raw artifact: " +:+ error), log, s)
  | None =>
      if negb (ra_persist a) then (None, log, s) else
      match AppendPluginEvent (ra_run a) (ra_node a) (ra_iteration a) (ra_attempt a) (xe_sequence e) (xe_type e) payload occurredAt
              (now (xe_sequence e)) s with
      | inl err => (Some ("persist plugin event: " +:+ error_text err), log, s)
      | inr (_, s) =>
          let outcome := pluginEventOutcome (xe_type e) payload in
          if String.eqb outcome "" then (None, log, s)
          else match SetNodeAttemptOutcome (ra_run a) (ra_node a) (ra_iteration a) (ra_attempt a) outcome s with
               | inl err => (Some ("persist plugin outcome: " +:+ error_text err), log, s)
               | inr (_, s) => (None, log, s)
               end
      end
  end.

Definition finish (redactions : list string) (terminal output : string) (e : StreamEnd) : ExecError + string :=
  match e with
  | EndOfStream =>
      if String.eqb terminal "" then inl (plain "plugin stream ended without a completion event")
      else if failed_type terminal then
        let diagnostic := terminalFailureDiagnostic output in
        inl (plain ("plugin reported " +:+ terminal +:+ (if String.eqb diagnostic "" then "" else ": " +:+ diagnostic)))
      else inr output
  | StreamError code message ctxErr =>
      let sanitized := status_text code (redact message redactions) in
      if negb (String.eqb terminal "") then
        inl (plain (if failed_type terminal then "plugin reported " +:+ terminal +:+ ": " +:+ sanitized
                    else "plugin stream did not end immediately after its terminal event: " +:+ sanitized))
      else match ctxErr with
           | Some e => inl e
           | None =>
               if String.eqb code "Canceled" then inl (mkExecError "context canceled" true false)
               else if String.eqb code "DeadlineExceeded" then inl (mkExecError "context deadline exceeded" false true)
               else inl (plain sanitized)
           end
  end.
(** [expected] is a uint64 that a stream cannot exhaust. *)
Fixpoint consume_from (a : runArtifact) (expected : Z) (terminal output : string) (events : list ExecuteEvent) (e : StreamEnd)
    (log : string) (s : Db) : (ExecError + string) * string * Db :=
  match events with
  | [] => (finish (ra_redactions a) terminal output e, log, s)
  | event :: events =>
      if negb (String.eqb terminal "") then (inl (plain "plugin emitted an event after its terminal event"), log, s) else
      match xe_occurredAt event with
      | Some occurredAt =>
          if negb (xe_sequence event =? expected) || String.eqb (trim_space (xe_type event)) ""
          then (inl (plain ("malformed plugin stream at sequence " +:+ itoa expected)), log, s) else
          let payload := redact (xe_payload event) (ra_redactions a) in
          if negb (valid payload) then (inl (plain ("plugin event " +:+ itoa (xe_sequence event) +:+ " contains invalid JSON")), log, s) else
          match persistPluginEvidence a event occurredAt payload log s with
          | (Some error, log, s) => (inl (plain error), log, s)
          | (None, log, s) =>
              if terminal_type (xe_type event) then consume_from a (expected + 1) (xe_type event) payload events e log s
              else consume_from a (expected + 1) terminal output events e log s
          end
      | None => (inl (plain ("malformed plugin stream at sequence " +:+ itoa expected)), log, s)
      end
  end.
Definition consume (a : runArtifact) (stream : Stream) (log : string) (s : Db) : (ExecError + string) * string * Db :=
  consume_from a 1 "" "" (sm_events stream) (sm_end stream) log s.
End Consume.

(** ** Execution *)

Record ExecuteRequest := mkExecuteRequest {
  xr_action : string; xr_profileType : string; xr_profile : string; xr_input : string; xr_config : string; xr_secrets : gmap string string }.
(** [StartTask], [StartAgent]: the error or the stream of a call; [Launch] the
    error of starting the process of an installation. *)
Class PluginHost := {
  Launch : PluginRecord → option ExecError;
  StartTask : PluginRecord → ExecuteRequest → ExecError + Stream;
  StartAgent : PluginRecord → ExecuteRequest → ExecError + Stream
}.

Section Execute.
Context {cal : Calendar} {host : Host} {js : JsonSchema} {sha : Sha256} {plugins : PluginHost} {files : RawLogFiles}.
(** The raw log an attempt's file holds before the call. *)
Context (workspaces : string) (now fresh : Z → string) (log_of : TaskIdentity → string → string → string).

Definition run_artifact (identity : TaskIdentity) (run node : string) (secrets : list string) (s : Db) : runArtifact :=
  mkRunArtifact run node (ti_iteration identity) (ti_attempt identity) secrets
    (if NodeAttempt run node (ti_iteration identity) (ti_attempt identity) s is inr _ then true else false).

Definition processFor (name version digest : string) (s : Db) : ExecError + PluginRecord :=
  match result (Plugin name version) s with
  | inl e => inl (plain ("pinned plugin " +:+ name +:+ "@" +:+ version +:+ ": " +:+ error_text e))
  | inr record =>
      if negb (String.eqb (pv_digest record) digest) then inl (plain ("pinned plugin " +:+ name +:+ "@" +:+ version +:+ " digest mismatch"))
      else match Launch record with Some e => inl e | None => inr record end
  end.
Definition activeProcess (name : string) (s : Db) : ExecError + PluginRecord :=
  match active_plugin s name with
  | inl e => inl (plain ("active plugin " +:+ quoted name +:+ ": " +:+ error_text e))
  | inr record => match Launch record with Some e => inl e | None => inr record end
  end.

(** The rendered and mapped configuration of a node. *)
Definition render (node : PlanNode) (input : string) (nodes : gmap string json) : string + config :=
  match renderConfigTemplates (pn_with node) input nodes with
  | inl e => inl e
  | inr c => applyMappings c input nodes
  end.
(** The contract of the configuration and of the input; [None] does not return. *)
Definition check_request (node : PlanNode) (c : config) (input : string) : option (option string) :=
  r ← validatePinnedValue node PartConfig (JObj c);
  match r with
  | inl e => Some (Some e)
  | inr _ => r ← validatePinnedJSON node PartInput input; Some match r with inl e => Some e | inr _ => None end
  end.
Definition check_output (node : PlanNode) (r : (ExecError + string) * string * Db) : option ((ExecError + string) * Db) :=
  let '(result, _, s) := r in
  match result with
  | inl e => Some (inl e, s)
  | inr output => v ← validatePinnedJSON node PartOutput output; Some (match v with inl e => inl (plain e) | inr _ => inr output end, s)
  end.
(** Start the call and consume its stream. *)
Definition call_plugin (node : PlanNode) (identity : TaskIdentity) (run : string) (secrets : gmap string string)
    (started : ExecError + Stream) (s : Db) : option ((ExecError + string) * Db) :=
  match started with
  | inl e => Some (inl e, s)
  | inr stream =>
      check_output node (consume now fresh (run_artifact identity run (pn_id node) (secretValues secrets) s) stream
        (log_of identity run (pn_id node)) s)
  end.

Definition task_config (node : PlanNode) (input : string) (nodes : gmap string json) (s : Db) : string + config :=
  match render node input nodes with
  | inl e => inl e
  | inr c =>
      match (if String.eqb (pn_uses node) "github.workspace.checkout" && (if obj_get "repositoryRef" c is Some _ then true else false)
             then expandRepositoryConfig s (pn_namespace node) c else inr c) with
      | inl e => inl e
      | inr c => inr (if has_prefix (pn_uses node) "github.workspace." then obj_set "workspaceRoot" (JStr workspaces) c else c)
      end
  end.
Definition executeTask (record : PluginRecord) (node : PlanNode) (identity : TaskIdentity) (run input : string) (nodes : gmap string json) (s : Db)
    : option ((ExecError + string) * Db) :=
  match task_config node input nodes s with
  | inl e => Some (inl (plain e), s)
  | inr c =>
      match resolveNodeSecretsInNamespace s (pn_namespace node) c (pn_resources node) with
      | inl e => Some (inl (plain e), s)
      | inr (secrets, c) =>
          error ← check_request node c input;
          match error with
          | Some e => Some (inl (plain e), s)
          | None => call_plugin node identity run secrets
              (StartTask record (mkExecuteRequest (pn_uses node) "" "" input (marshal (JObj c)) secrets)) s
          end
      end
  end.

(** The invocation of an agent: the input and the two fields a profile takes. *)
Definition agent_invocation (input : string) (c : config) : config * config :=
  let invocation := if String.eqb input "" then [] else match parse input with Some v => [("input", v)] | None => [] end in
  fold_left (λ ic key,
    match obj_get key ic.2 with Some value => (obj_set key value ic.1, obj_delete key ic.2) | None => ic end)
    ["prompt"; "workspace"] (invocation, c).
Definition executeAgent (record : PluginRecord) (node : PlanNode) (identity : TaskIdentity) (run input : string) (nodes : gmap string json) (s : Db)
    : option ((ExecError + string) * Db) :=
  let profileName := get_string "profile" (pn_with node) in
  if String.eqb profileName "" then Some (inl (plain "agent-command node requires with.profile"), s) else
  match boundAgentProfile s (pn_namespace node) (pn_resources node) profileName with
  | inl e => Some (inl (plain e), s)
  | inr spec =>
      match resolveProfileSecrets s (pn_namespace node) (a_secretRefs spec) (pn_resources node) with
      | inl e => Some (inl (plain e), s)
      | inr secrets =>
          match render node input nodes with
          | inl e => Some (inl (plain e), s)
          | inr c =>
              let c := obj_delete "secretRefs" c in
              error ← check_request node c input;
              match error with
              | Some e => Some (inl (plain e), s)
              | None =>
                  let '(invocation, c) := agent_invocation input (obj_delete "profile" c) in
                  match c with
                  | _ :: _ => Some (inl (plain ("unsupported agent-command configuration fields: [" +:+ join " " (sort_strings c.*1) +:+ "]")), s)
                  | [] => call_plugin node identity run secrets
                      (StartAgent record (mkExecuteRequest "" (a_type spec) (spec_text (SpecAgentProfile spec)) (marshal (JObj invocation)) "" secrets)) s
                  end
              end
          end
      end
  end.

Definition Execute (identity : TaskIdentity) (run : string) (node : PlanNode) (input : string) (nodes : gmap string json) (s : Db)
    : option ((ExecError + string) * Db) :=
  let pluginName := plugin_of (pn_uses node) in
  let process :=
    match pn_plugin node with
    | Some p =>
        if negb (String.eqb (pb_name p) pluginName)
        then inl (plain ("plan plugin binding " +:+ quoted (pb_name p) +:+ " does not provide action " +:+ quoted (pn_uses node)))
        else processFor (pb_name p) (pb_version p) (pb_digest p) s
    | None => activeProcess pluginName s
    end in
  match process with
  | inl e => Some (inl e, s)
  | inr record =>
      if String.eqb pluginName "agent-command" then executeAgent record node identity run input nodes s
      else executeTask record node identity run input nodes s
  end.
End Execute.
