(* ===== verification/EngineReplay.v ===== *)
(** Redelivery of an activity: a node whose success is durable is not executed
    again, and an approval that is decided keeps its decision. *)

From Stdlib Require String.
From S2P Require Import Prelude.
From S2P Require Import Json.
From S2P Require Import GoStd.
From S2P Require Import Resource.
From S2P Require Import Plan.
From S2P Require Import Db.
From S2P Require Import StoreRuns.
From S2P Require Import StoreResources.
From S2P Require Import StoreOutbox.
From S2P Require Import StorePlugins.
From S2P Require Import StoreStep.
From S2P Require Import StoreSafety.
From S2P Require Import StoreAttempts.
From S2P Require Import EngineNode.

Local Open Scope Z_scope.

(** ** Begin *)

(** A delivery that is admitted runs under a fresh row, the newest of its node
    and iteration. *)
Record opened (r n : string) (i f : Z) (key : string) (input : string) (s : Db) (k : attempt_key) (s1 : Db) : Prop := mkOpened {
  op_key : k.1 = (r, n, i);
  op_row : ∃ row, db_attempts s1 !! k = Some row ∧ at_framework row = f ∧ at_completed row = None ∧ at_outcome row = "";
  op_newest : ∀ k' a', db_attempts s1 !! k' = Some a' → k'.1 = (r, n, i) → k'.2 ≤ k.2 }.

Lemma next_attempt_max r n i s k a : db_attempts s !! k = Some a → k.1 = (r, n, i) → k.2 < next_attempt r n i s.
Proof.
  intros Hk Hk1. unfold next_attempt.
  enough (k.2 ≤ max_z ((λ ka : attempt_key * AttemptRow, ka.1.2) <$> attempt_rows r n i s)) by lia.
  apply max_z_le, list_elem_of_fmap. exists (k, a). split; [done|]. by apply attempt_rows_spec.
Qed.

Lemma opened_insert r n i f key input s s0 s1 row :
  at_framework row = f → at_completed row = None → at_outcome row = "" →
  db_attempts s1 = <[(r, n, i, next_attempt r n i s0) := row]> (db_attempts s0) →
  opened r n i f key input s (r, n, i, next_attempt r n i s0) s1.
Proof.
  intros Hf Hc Ho E. split.
  - done.
  - exists row. rewrite E, lookup_insert_eq. done.
  - intros k' a'. rewrite E, lookup_insert_Some. intros [[<- _]|[_ Hk]] Hk1; [done|].
    pose proof (next_attempt_max _ _ _ _ _ _ Hk Hk1). simpl. lia.
Qed.

Lemma begin_opened r n i f key input now s k a s1 :
  BeginNodeAttempt r n i f key input now s = inr ((k, a), true, s1) → opened r n i f key input s k s1.
Proof.
  intros Hop. run_op Hop; simplify_eq.
  all: eapply opened_insert; [| | |reflexivity]; reflexivity.
Qed.

(** ** Complete *)

Lemma complete_open r n i at_ ph o e x now s a :
  ph = "succeeded" ∨ ph = "failed" ∨ ph = "cancelled" →
  db_attempts s !! (r, n, i, at_) = Some a → at_completed a = None →
  ∀ a' s', CompleteNodeAttempt r n i at_ ph o e x now s = inr (a', s') →
  ∃ x', a' = complete_row ph (Some (nonempty o)) e x' now a ∧ db_attempts s' = <[(r, n, i, at_) := a']> (db_attempts s).
Proof.
  intros Hph Ha Hc a' s' Hop. run_op Hop; simplify_eq.
  all: match goal with H : db_attempts _ !! _ = Some ?x |- _ =>
    constr_eq x a'; simpl in H; rewrite lookup_insert_eq in H; injection H as <- end.
  all: eexists; split; reflexivity.
Qed.

(** ** Redelivery *)

(** The executor records evidence but leaves the results of attempts alone (the
    plugin runtime writes plugin events, artifacts and exit outcomes). *)
Definition keeps_results (exec : TaskExecutor) : Prop :=
  ∀ id run node input nodes key s k,
    attempt_result <$> db_attempts (exec id run node input nodes key s).2 !! k = attempt_result <$> db_attempts s !! k.

Definition begin_guard (i f : Z) (key : string) : bool := negb ((i <? 0) || (f =? 0) || String.eqb key "").
Lemma begin_guarded r n i f key input now s x :
  BeginNodeAttempt r n i f key input now s = inr x → begin_guard i f key = true.
Proof.
  unfold BeginNodeAttempt, mbind, tx_bind, tx_guard. fold (begin_guard i f key). by destruct (begin_guard i f key).
Qed.
Lemma begin_replay r n i f key input now s k a :
  begin_guard i f key = true → nodeAttemptForFrameworkTx r n i f s = Some (k, a) → is_Some (at_completed a) →
  BeginNodeAttempt r n i f key input now s = inr ((k, a), false, s).
Proof.
  intros Hg Hl [c Hc]. unfold BeginNodeAttempt, mbind, tx_bind, tx_guard, tx_get. fold (begin_guard i f key).
  by rewrite Hg, Hl, Hc.
Qed.
Lemma begin_existing r n i f key input now s k a s1 :
  BeginNodeAttempt r n i f key input now s = inr ((k, a), false, s1) →
  s1 = s ∧ nodeAttemptForFrameworkTx r n i f s = Some (k, a) ∧ is_Some (at_completed a).
Proof. intros Hop. run_op Hop; simplify_eq; eauto. Qed.

Section Replay.
Context {cel : Cel} (executor : option TaskExecutor).
Hypothesis executor_keeps : ∀ exec, executor = Some exec → keeps_results exec.

Lemma invoke_keeps request attempt framework s k :
  attempt_result <$> db_attempts (invoke executor request attempt framework s).2 !! k = attempt_result <$> db_attempts s !! k.
Proof.
  unfold invoke. destruct (String.eqb _ _); [done|]. destruct (String.eqb _ _); [done|].
  destruct executor as [exec|] eqn:E; [|done].
  pose proof (executor_keeps exec eq_refl (mkIdentity (nq_iteration request) attempt framework) (nq_run request)
    (nq_node request) (nq_input request) (nq_nodes request) (executeKey request) s k) as H.
  destruct (exec _ _ _ _ _ _ _) as [r s']. exact H.
Qed.

Lemma result_some m k a (b : attempt_key → option AttemptRow) :
  attempt_result <$> b k = attempt_result <$> m → m = Some a →
  ∃ a', b k = Some a' ∧ attempt_result a' = attempt_result a.
Proof. intros E ->. destruct (b k) as [a'|]; [|done]. injection E as E. eexists. split; [done|]. unfold attempt_result. congruence. Qed.

(** The durable success of a delivery. *)
Definition succeeded (request : NodeRequest) (framework : Z) (output : string) (s : Db) : Prop :=
  begin_guard (nq_iteration request) framework (executeKey request) = true ∧
  ∃ k a, nodeAttemptForFrameworkTx (nq_run request) (pn_id (nq_node request)) (nq_iteration request) framework s = Some (k, a) ∧
    is_Some (at_completed a) ∧ at_phase a = "succeeded" ∧ nonempty (default "" (at_output a)) = nonempty output.

Lemma completed_latest r n i f key input s k s1 s2 a2 a' s3 x :
  opened r n i f key input s k s1 →
  (∀ k, attempt_result <$> db_attempts s2 !! k = attempt_result <$> db_attempts s1 !! k) →
  db_attempts s2 !! k = Some a2 → db_attempts s3 = <[k := a']> (db_attempts s2) →
  a' = complete_row "succeeded" (Some x) "" (at_outcome a') (default "" (at_completed a')) a2 → at_framework a2 = f →
  nodeAttemptForFrameworkTx r n i f s3 = Some (k, a').
Proof.
  intros [Hk1 _ Hnew] Hkeep Ha2 Es3 Ea' Hf. apply latest_is_max.
  - by rewrite Es3, lookup_insert_eq.
  - done.
  - by rewrite Ea'.
  - intros k' b. rewrite Es3, lookup_insert_Some. intros [[<- _]|[_ Hk']] Hkk _; [done|].
    specialize (Hkeep k'). rewrite Hk' in Hkeep. destruct (db_attempts s1 !! k') as [b1|] eqn:E; [|done].
    eapply Hnew; [exact E|]. by rewrite Hkk.
Qed.

Lemma succeeded_fresh request f now1 now2 s k a s1 r outcome s2 output a' s3 :
  BeginNodeAttempt (nq_run request) (pn_id (nq_node request)) (nq_iteration request) f (executeKey request) (nq_input request) now1 s
    = inr ((k, a), true, s1) →
  invoke executor request k.2 f s1 = (r, outcome, s2) →
  CompleteNodeAttempt (nq_run request) (pn_id (nq_node request)) (nq_iteration request) k.2 "succeeded" output "" outcome now2 s2
    = inr (a', s3) →
  succeeded request f output s3.
Proof.
  intros Hb Hi Hc. pose proof (begin_guarded _ _ _ _ _ _ _ _ _ Hb) as Hg. pose proof (begin_opened _ _ _ _ _ _ _ _ _ _ _ Hb) as Ho.
  assert (∀ k, attempt_result <$> db_attempts s2 !! k = attempt_result <$> db_attempts s1 !! k) as Hkeep.
  { intros k'. pose proof (invoke_keeps request k.2 f s1 k') as H. by rewrite Hi in H. }
  pose proof Ho as [Hk1 (row&Hrow&Hf&Hopen&_) Hnew].
  destruct (db_attempts s2 !! k) as [a2|] eqn:Ha2; [|specialize (Hkeep k); by rewrite Ha2, Hrow in Hkeep].
  assert (at_completed a2 = None ∧ at_framework a2 = f) as [Hopen2 Hf2].
  { specialize (Hkeep k). rewrite Ha2, Hrow in Hkeep. unfold attempt_result in Hkeep. simpl in Hkeep. split; congruence. }
  assert ((nq_run request, pn_id (nq_node request), nq_iteration request, k.2) = k) as Ek by (rewrite <- Hk1; by destruct k).
  destruct (complete_open _ _ _ _ _ _ _ _ _ s2 a2 (or_introl eq_refl) ltac:(by rewrite Ek) Hopen2 _ _ Hc) as (x&Ea'&Es3).
  rewrite Ek in Es3. split; [done|]. exists k, a'. split_and!.
  - eapply (completed_latest _ _ _ _ _ _ s k s1 s2 a2 a' s3 (nonempty output)); try done. by rewrite Ea'.
  - by rewrite Ea'.
  - by rewrite Ea'.
  - rewrite Ea'. simpl. unfold nonempty. destruct (String.eqb_spec output ""); [done|].
    by destruct (String.eqb_spec output "").
Qed.

Lemma execute_succeeded request f ctxErr now1 now2 s result s' :
  ExecuteNode executor request f ctxErr now1 now2 s = (inr result, s') →
  succeeded request f (nr_output result) s' ∧ evaluate request (nr_output result) = inr (nr_activated result) ∧
  nr_rejected result = false ∧ (nq_iteration request <? 0) || (1000 <=? nq_iteration request) = false ∧
  (f <? 1) || (pn_retryLimit (nq_node request) + 1 <? f) = false.
Proof.
  unfold ExecuteNode. destruct ((nq_iteration request <? 0) || _) eqn:E1; [done|]. destruct ((f <? 1) || _) eqn:E2; [done|].
  destruct (BeginNodeAttempt _ _ _ _ _ _ _ _) as [e|[[[k a] created] s1]] eqn:Hb; [done|].
  destruct created; simpl.
  - destruct (invoke _ _ _ _ _) as [[r outcome] s2] eqn:Hi. destruct r as [e|output].
    { by destruct (failure _ _ _ _ _). }
    destruct (evaluate request output) as [e|activated] eqn:He; [done|].
    destruct (CompleteNodeAttempt _ _ _ _ _ _ _ _ _ _) as [e|[a' s3]] eqn:Hc; [done|].
    intros [= <- <-]. simpl. split_and!; try done. by eapply succeeded_fresh.
  - destruct (begin_existing _ _ _ _ _ _ _ _ _ _ _ Hb) as (->&Hl&Hc). rewrite bool_decide_eq_true_2 by done.
    destruct (String.eqb_spec (at_phase a) "succeeded") as [Hp|]; simpl; [|done].
    destruct (evaluate request _) as [e|activated] eqn:He; [done|].
    intros [= <- <-]. simpl. split_and!; try done. split; [by eapply begin_guarded|].
    exists k, a. done.
Qed.
End Replay.

Section Redelivery.
Context {cel : Cel} {cal : Calendar} {dig : Digest}.

(** The success stays while the run is retained. *)
Lemma succeeded_stable request f output s s' :
  rtc (retaining (nq_run request)) s s' → succeeded request f output s → succeeded request f output s'.
Proof.
  intros Hr (Hg&k&a&Hl&Hc&Hp&Ho). destruct (delivery_stable _ _ _ _ _ _ _ _ Hr Hl Hc) as (a'&Hl'&E).
  unfold attempt_result in E. split; [done|]. exists k, a'. split_and!; [done| | |]; by simplify_eq; congruence.
Qed.

Lemma evaluate_nonempty request o o' : nonempty o = nonempty o' → evaluate request o = evaluate request o'.
Proof.
  intros H. assert (∀ x, evaluate request x = evaluate request (nonempty x)) as Hn.
  { intros x. unfold nonempty. by destruct (String.eqb_spec x "") as [->|]. }
  by rewrite (Hn o), (Hn o'), H.
Qed.

(** Any later delivery finds the durable success: the executor does not run,
    nothing is written and the result is the same. *)
Lemma succeeded_replays executor request f ctxErr now1 now2 s output activated :
  succeeded request f output s → evaluate request output = inr activated →
  (nq_iteration request <? 0) || (1000 <=? nq_iteration request) = false →
  (f <? 1) || (pn_retryLimit (nq_node request) + 1 <? f) = false →
  ∃ output', nonempty output' = nonempty output ∧
    ExecuteNode executor request f ctxErr now1 now2 s = (inr (mkResult output' activated false), s).
Proof.
  intros (Hg&k&a&Hl&Hc&Hp&Ho) He E1 E2. exists (default "" (at_output a)). split; [done|].
  unfold ExecuteNode. rewrite E1, E2, (begin_replay _ _ _ _ _ _ _ _ _ _ Hg Hl Hc). simpl.
  rewrite bool_decide_eq_true_2 by done. rewrite Hp. simpl.
  by rewrite (evaluate_nonempty _ _ output), He.
Qed.
End Redelivery.

(** ** Approvals *)

Section Approvals.
Context {cel : Cel}.

(** A decided approval answers every later wait of its node: whatever signal
    ends the wait, a timeout included, the first decision is reported. *)
Lemma end_approval_reuses request signal now s a r s' :
  db_approvals s !! (nq_run request, pn_id (nq_node request)) = Some a → ap_state a ≠ "pending" →
  EndApproval request signal now s = (inr r, s') →
  nr_output r = approval_output (ap_state a) (as_reason signal) ∧
  nr_rejected r = negb (String.eqb (ap_state a) "approved").
Proof.
  intros Ha Hd. unfold EndApproval.
  assert (ApprovalState (nq_run request) (pn_id (nq_node request)) s = inr (ap_state a, s)) as ->.
  { unfold ApprovalState, tx_row. by rewrite Ha. }
  rewrite (proj2 (String.eqb_neq _ _) Hd).
  destruct (evaluate _ _); [done|]. destruct (AppendRunEvent _ _ _ _ _ _ _ _) as [|[? ?]]; [done|]. by intros [= <- _].
Qed.

Lemma begin_approval_keeps request nowTime now s a :
  db_approvals s !! (nq_run request, pn_id (nq_node request)) = Some a →
  db_approvals (BeginApproval request nowTime now s).2 !! (nq_run request, pn_id (nq_node request)) = Some a.
Proof.
  intros Ha. unfold BeginApproval. destruct (time_ParseDuration _) as [d|]; [|done].
  assert (∀ x, EnsureApproval (nq_run request) (pn_id (nq_node request)) x s = inr (tt, s)) as He.
  { intros x. unfold EnsureApproval, mbind, tx_bind, tx_get. by rewrite Ha. }
  rewrite He. destruct (AppendRunEvent _ _ _ _ _ _ _ s) as [e|[u s1]] eqn:Ea; [done|].
  run_op Ea; done.
Qed.

(** The operator cannot decide it again. *)
Lemma decide_decided run node st actor reason now s a :
  db_approvals s !! (run, node) = Some a → ap_state a ≠ "pending" → ∃ e, DecideApproval run node st actor reason now s = inl e.
Proof.
  intros Ha Hd. unfold DecideApproval, mbind, tx_bind, tx_get, tx_guard. destruct (_ || _); [|eauto].
  rewrite Ha, (proj2 (String.eqb_neq _ _) Hd). eauto.
Qed.
End Approvals.
