(* ===== verification/ManagerFacts.v ===== *)
(** What the plugin manager keeps of a call: the event stream protocol, the
    evidence in the store, redaction, and the interface the engine relies on. *)

From Stdlib Require Import Ascii.
From Stdlib Require String.
From S2P Require Import Prelude.
From S2P Require Import Json.
From S2P Require Import GoStd.
From S2P Require Import JsonPlain.
From S2P Require Import Resource.
From S2P Require Import Plan.
From S2P Require Import ActionContract.
From S2P Require Import PluginMapping.
From S2P Require Import FlowCompiler.
From S2P Require Import Db.
From S2P Require Import StoreRuns.
From S2P Require Import StoreResources.
From S2P Require Import StoreOutbox.
From S2P Require Import StorePlugins.
From S2P Require Import StoreStep.
From S2P Require Import StoreAttempts.
From S2P Require Import StoreOps.
From S2P Require Import ServerPagesFacts.
From S2P Require Import EngineNode.
From S2P Require Import EngineReplay.
From S2P Require Import ManagerBind.
From S2P Require Import Redact.
From S2P Require Import ManagerRun.
From S2P Require Import ManagerStream.

Local Open Scope Z_scope.

Section Stream.
Context {cal : Calendar} {dig : Digest} {sha : Sha256} {files : RawLogFiles} (now fresh : Z → string) (a : runArtifact).

Definition attempt_of : attempt_key := (ra_run a, ra_node a, ra_iteration a, ra_attempt a).

(** ** Evidence of one event *)

(** What the evidence of the attempt [key] may change. *)
Record evidence (key : attempt_key) (payloads : string → Prop) (s s' : Db) : Prop := mkEvidence {
  ev_steps : rtc store_step s s';
  ev_own : ∀ k, k ≠ key → db_attempts s' !! k = db_attempts s !! k;
  ev_results : ∀ k, attempt_result <$> db_attempts s' !! k = attempt_result <$> db_attempts s !! k;
  ev_kept : ∀ k row, db_plugin_events s !! k = Some row → db_plugin_events s' !! k = Some row;
  ev_new : ∀ k row, db_plugin_events s' !! k = Some row → db_plugin_events s !! k = Some row ∨ k.1 = key ∧ payloads (pe_payload row) }.

Lemma evidence_refl key P s : evidence key P s s.
Proof. split; [done|done|done|done|by left]. Qed.
Lemma evidence_trans key P s1 s2 s3 : evidence key P s1 s2 → evidence key P s2 s3 → evidence key P s1 s3.
Proof.
  intros [A1 A5 A2 A3 A4] [B1 B5 B2 B3 B4]. split; [by etrans|by intros k Hk; rewrite B5, A5|by intros k; rewrite B2|eauto|].
  intros k row H. apply B4 in H as [H|H]; [|by right]. by apply A4.
Qed.
Lemma evidence_same key P s s' : store_step s s' → db_attempts s' = db_attempts s → db_plugin_events s' = db_plugin_events s →
  evidence key P s s'.
Proof. intros H E1 E2. split; [by apply rtc_once|by rewrite E1|by rewrite E1|by rewrite E2|rewrite E2; by left]. Qed.
Lemma evidence_weaken key (P Q : string → Prop) s s' : (∀ p, P p → Q p) → evidence key P s s' → evidence key Q s s'.
Proof. intros H [E1 E5 E2 E3 E4]. split; [done..|]. intros k row Hk. destruct (E4 k row Hk) as [?|[? ?]]; [by left|right; auto]. Qed.

Lemma append_event_evidence (P : string → Prop) r n i at_ q ty p oc t s x s' : P p →
  AppendPluginEvent r n i at_ q ty p oc t s = inr (x, s') →
  evidence (r, n, i, at_) P s s' ∧ ∃ row, db_plugin_events s' !! (r, n, i, at_, q) = Some row ∧ pe_type row = ty ∧ pe_payload row = p.
Proof.
  intros HP Hop. pose proof (step_plugin_event s s' _ _ _ _ _ _ _ _ _ _ Hop) as Hstep.
  assert (E : (db_plugin_events s' = db_plugin_events s ∧ ∃ row, db_plugin_events s !! (r, n, i, at_, q) = Some row ∧ pe_type row = ty ∧ pe_payload row = p)
    ∨ db_plugin_events s !! (r, n, i, at_, q) = None ∧ db_plugin_events s' = <[(r, n, i, at_, q) := mkPluginEventRow ty p oc]> (db_plugin_events s)).
  { clear Hstep. run_op Hop; first [right; split; [done|reflexivity]|left; split; [done|]].
    eexists. split; [first [reflexivity|eassumption]|].
    match goal with H : _ && _ && _ = true |- _ => apply andb_true_iff in H as [[H1%String.eqb_eq _]%andb_true_iff H2%String.eqb_eq] end. done. }
  assert (Ea : db_attempts s' = db_attempts s) by (clear -Hop; run_op Hop; done).
  destruct E as [[E (row&Hrow&Ht&Hp)]|[Hnone E]].
  - split; [by apply evidence_same|]. exists row. by rewrite E.
  - split; [|eexists; rewrite E, lookup_insert_eq; done]. split; [by apply rtc_once|by rewrite Ea|by rewrite Ea| |].
    + intros k row Hk. rewrite E. rewrite lookup_insert_ne; [done|]. intros <-. congruence.
    + intros k row. rewrite E. rewrite lookup_insert_Some. intros [[<- <-]|[_ Hk]]; [by right|by left].
Qed.
Lemma outcome_evidence P r n i at_ o s x s' : SetNodeAttemptOutcome r n i at_ o s = inr (x, s') → evidence (r, n, i, at_) P s s'.
Proof.
  intros Hop. pose proof (step_outcome s s' _ _ _ _ _ _ Hop) as Hstep. split; [by apply rtc_once| | | |].
  - intros k Hk. run_op Hop; [done|]. simpl. by rewrite lookup_alter_ne.
  - intros k. run_op Hop; [done|]. simpl. destruct (decide (k = (r, n, i, at_))) as [->|Hne].
    + rewrite lookup_alter_eq. destruct (db_attempts s !! (r, n, i, at_)) as [b|]; [|done]. cbn. f_equal. unfold set_outcome. by destruct (String.eqb (at_outcome b) "").
    + by rewrite lookup_alter_ne.
  - run_op Hop; auto.
  - run_op Hop; auto.
Qed.
Lemma artifact_evidence key P x f t s r s' : PutArtifact x f t s = inr (r, s') → evidence key P s s'.
Proof.
  intros Hop. pose proof (step_artifact s s' _ _ _ _ Hop) as Hstep.
  apply evidence_same; [done| |]; clear Hstep; run_op Hop; done.
Qed.

(** What an event adds to the raw log when nothing fails. *)
Definition chunk (e : ExecuteEvent) : string := if String.eqb (xe_rawLog e) "" then "" else redact (xe_rawLog e) (ra_redactions a).
Definition prefix_of (p text : string) : Prop := ∃ k, p = String.substring 0 k text.
Lemma prefix_nothing text : prefix_of "" text.
Proof. exists O. by destruct text. Qed.
Lemma prefix_rest p text : prefix_of p text → ∃ rest, text = p +:+ rest.
Proof.
  intros [k ->]. revert k. induction text as [|c text IH]; intros k; [by exists ""; destruct k|].
  destruct k as [|k]; [by exists (String c text)|]. destruct (IH k) as [rest E]. exists rest. cbn [String.substring]. by rewrite E at 1.
Qed.
Lemma prefix_all text : prefix_of text text.
Proof. exists (String.length text). induction text as [|c text IH]; [done|]. cbn [String.length String.substring]. by f_equal. Qed.

Lemma append_evidence (P : string → Prop) q data log s err log' s' : appendArtifact now fresh a q data log s = (err, log', s') →
  evidence attempt_of P s s' ∧ (∃ p, log' = log +:+ p ∧ prefix_of p data ∧ (err = None → p = data)) ∧ (ra_persist a = false → s' = s).
Proof.
  unfold appendArtifact. destruct (append_fault a q) as [[written error]|].
  { intros [= <- <- <-]. split_and!; [apply evidence_refl| |done]. eexists. split_and!; [done|by eexists|done]. }
  destruct (negb (ra_persist a)) eqn:Ep.
  { intros [= <- <- <-]. split_and!; [apply evidence_refl| |done]. exists data. split_and!; [done|apply prefix_all|done]. }
  apply negb_false_iff in Ep. destruct (registerArtifact _ _ a _ q s) as [e|[row s1]] eqn:E; intros [= <- <- <-].
  - split_and!; [apply evidence_refl| |by rewrite Ep]. exists data. split_and!; [done|apply prefix_all|done].
  - split_and!; [| |by rewrite Ep].
    + apply tx_bind_inv in E as ([]&s2&[_ ->]%tx_lift_inv&E). by eapply artifact_evidence.
    + exists data. split_and!; [done|apply prefix_all|done].
Qed.

Lemma persist_evidence e occurredAt payload log s err log' s' :
  persistPluginEvidence now fresh a e occurredAt payload log s = (err, log', s') →
  evidence attempt_of (eq payload) s s' ∧
  (∃ p, log' = log +:+ p ∧ prefix_of p (chunk e) ∧ (err = None → p = chunk e)) ∧
  (ra_persist a = false → s' = s) ∧
  (ra_persist a = true → err = None →
    ∃ row, db_plugin_events s' !! (attempt_of, xe_sequence e) = Some row ∧ pe_type row = xe_type e ∧ pe_payload row = payload).
Proof.
  unfold persistPluginEvidence, chunk. intros H.
  destruct (if String.eqb (xe_rawLog e) "" then _ else _) as [[err1 log1] s1] eqn:E1.
  assert (H1 : evidence attempt_of (eq payload) s s1 ∧
    (∃ p, log1 = log +:+ p ∧ prefix_of p (if String.eqb (xe_rawLog e) "" then "" else redact (xe_rawLog e) (ra_redactions a)) ∧
      (err1 = None → p = if String.eqb (xe_rawLog e) "" then "" else redact (xe_rawLog e) (ra_redactions a))) ∧ (ra_persist a = false → s1 = s)).
  { destruct (String.eqb (xe_rawLog e) ""); [|by apply (append_evidence (eq payload)) in E1]. injection E1 as <- <- <-. split_and!; [apply evidence_refl| |done].
    exists "". split_and!; [by rewrite append_nil|apply prefix_all|done]. }
  destruct H1 as (Hev&(p&->&Hp&Hall)&Hsame). destruct err1 as [error|].
  { injection H as <- <- <-. split_and!; [done| |done|done]. exists p. by split_and!. }
  destruct (ra_persist a); cbn [negb] in H.
  2: { injection H as <- <- <-. split_and!; [done| |done|done]. exists p. split_and!; auto. }
  assert (Hlog : ∀ err', ∃ p', log +:+ p = log +:+ p' ∧
    prefix_of p' (if String.eqb (xe_rawLog e) "" then "" else redact (xe_rawLog e) (ra_redactions a)) ∧
    ((err' : option string) = None → p' = if String.eqb (xe_rawLog e) "" then "" else redact (xe_rawLog e) (ra_redactions a))).
  { intros err'. exists p. split_and!; auto. }
  destruct (AppendPluginEvent _ _ _ _ _ _ _ _ _ s1) as [?|[[] s2]] eqn:E2; [injection H as <- <- <-; by split_and!|].
  destruct (append_event_evidence (eq payload) _ _ _ _ _ _ _ _ _ _ _ _ eq_refl E2) as [H2 (row&Hrow&Ht&Hpl)].
  assert (H3 : evidence attempt_of (eq payload) s s2) by by eapply evidence_trans.
  destruct (String.eqb (pluginEventOutcome _ _) ""); [injection H as <- <- <-; split_and!; [done|done|done|eauto]|].
  destruct (SetNodeAttemptOutcome _ _ _ _ _ s2) as [?|[[] s3]] eqn:E3; injection H as <- <- <-; [by split_and!|].
  pose proof (outcome_evidence (eq payload) _ _ _ _ _ _ _ _ E3) as H4. split_and!; [by eapply evidence_trans|done|done|]. intros _ _.
  exists row. split_and!; [|done|done]. by apply (ev_kept _ _ _ _ H4).
Qed.

(** ** The protocol *)

(** An event the host accepts at position [n]. *)
Definition accepted (n : Z) (e : ExecuteEvent) : Prop :=
  xe_sequence e = n ∧ trim_space (xe_type e) ≠ "" ∧ is_Some (xe_occurredAt e) ∧ valid (redact (xe_payload e) (ra_redactions a)) = true.
(** Events numbered from [n] of which only the last is terminal, and is a
    completion with the payload [output]. *)
Inductive completes : Z → list ExecuteEvent → string → Prop :=
  | completes_last n e (Ha : accepted n e) (Ht : terminal_type (xe_type e) = true) (Hf : failed_type (xe_type e) = false) :
      completes n [e] (redact (xe_payload e) (ra_redactions a))
  | completes_next n e events output (Ha : accepted n e) (Ht : terminal_type (xe_type e) = false)
      (Hn : completes (n + 1) events output) : completes n (e :: events) output.

Definition clean (text : string) : Prop := ∀ secret, secret ∈ ra_redactions a →
  (redactable secret → ¬ occurs secret text) ∧ (redactable (escape secret) → ¬ occurs (escape secret) text).
Lemma redact_clean data : clean (redact data (ra_redactions a)).
Proof. intros secret Hin. by apply redact_gone. Qed.

Lemma completes_clean n events output : completes n events output → clean output.
Proof. induction 1; [apply redact_clean|done]. Qed.

(** The chunks of a text, one after the other. *)
Definition concat (l : list string) : string := foldr (λ x y, x +:+ y) "" l.
(** The redacted raw logs of the first events of a stream, the last of them
    perhaps cut short by a failed write. *)
Definition logged (events : list ExecuteEvent) (n : nat) (rest text : string) : Prop :=
  text = concat (chunk <$> take n events) +:+ rest ∧ prefix_of rest (default "" (chunk <$> events !! n)).
Lemma logged_nothing events : logged events 0 "" "".
Proof. split; [done|apply prefix_nothing]. Qed.
Lemma logged_next e events n rest text : logged events n rest text → logged (e :: events) (S n) rest (chunk e +:+ text).
Proof. intros [-> Hr]. split; [|exact Hr]. cbn. by rewrite append_assoc. Qed.

Lemma clean_prefix p text : prefix_of p text → clean text → clean p.
Proof.
  intros (rest&->)%prefix_rest Hc secret Hin. destruct (Hc secret Hin) as [H1 H2].
  split; intros Hr (x&y&->); [apply H1|apply H2]; try done; exists x, (y +:+ rest); by rewrite !append_assoc.
Qed.
Lemma clean_nothing : clean "".
Proof. intros secret Hin. split; intros [Hne _] ?%occurs_empty; done. Qed.
Lemma chunk_clean e : clean (chunk e).
Proof. unfold chunk. destruct (String.eqb _ _); [apply clean_nothing|apply redact_clean]. Qed.

Lemma consume_from_evidence n terminal output events e log s r log' s' :
  consume_from now fresh a n terminal output events e log s = (r, log', s') →
  evidence attempt_of (λ p, ∃ event, event ∈ events ∧ p = redact (xe_payload event) (ra_redactions a)) s s' ∧
  ∃ k rest text, log' = log +:+ text ∧ logged events k rest text ∧ (∀ out, r = inr out → k = length events ∧ rest = "").
Proof.
  revert n terminal output log s. induction events as [|event events IH]; intros n terminal output log s H; cbn [consume_from] in H.
  { injection H as _ <- <-. split; [apply evidence_refl|]. exists O, "", "". split_and!; [by rewrite append_nil|apply logged_nothing|done]. }
  assert (Hstop : ∀ x, (inl x, log, s) = (r, log', s') → evidence attempt_of (λ p, ∃ event', event' ∈ event :: events ∧ p = redact (xe_payload event') (ra_redactions a)) s s' ∧
    ∃ k rest text, log' = log +:+ text ∧ logged (event :: events) k rest text ∧ (∀ out, r = inr out → k = length (event :: events) ∧ rest = "")).
  { intros x [= <- <- <-]. split; [apply evidence_refl|]. exists O, "", "". split_and!; [by rewrite append_nil|apply logged_nothing|done]. }
  destruct (negb _); [by eapply Hstop|]. destruct (xe_occurredAt event) as [occurredAt|]; [|by eapply Hstop].
  destruct (_ || _); [by eapply Hstop|]. set (payload := redact (xe_payload event) (ra_redactions a)) in *.
  destruct (negb (valid payload)); [by eapply Hstop|]. clear Hstop.
  destruct (persistPluginEvidence now fresh a event occurredAt payload log s) as [[err log1] s1] eqn:Ep.
  destruct (persist_evidence _ _ _ _ _ _ _ _ Ep) as (Hev&(p&->&Hp&Hall)&_).
  assert (Hev' : evidence attempt_of (λ p, ∃ event', event' ∈ event :: events ∧ p = redact (xe_payload event') (ra_redactions a)) s s1).
  { revert Hev. apply evidence_weaken. intros x <-. exists event. split; [left|done]. }
  destruct err as [error|].
  { injection H as <- <- <-. split; [done|]. exists O, p, p. split_and!; [done|by split|done]. }
  rewrite (Hall eq_refl) in H.
  assert (Hgo : ∀ n terminal output, consume_from now fresh a n terminal output events e (log +:+ chunk event) s1 = (r, log', s') →
    evidence attempt_of (λ p, ∃ event', event' ∈ event :: events ∧ p = redact (xe_payload event') (ra_redactions a)) s s' ∧
    ∃ k rest text, log' = log +:+ text ∧ logged (event :: events) k rest text ∧ (∀ out, r = inr out → k = length (event :: events) ∧ rest = "")).
  { intros n1 t1 o1 H1. destruct (IH _ _ _ _ _ H1) as (Hrest&k&rest&text&->&Hl&Hend). split.
    - eapply evidence_trans; [exact Hev'|]. revert Hrest. apply evidence_weaken. intros x (ev&Hin&Hx). exists ev. split; [by right|done].
    - exists (S k), rest, (chunk event +:+ text). rewrite append_assoc. split_and!; [done|by apply logged_next|].
      intros out Ho. destruct (Hend out Ho) as [-> ->]. done. }
  destruct (terminal_type (xe_type event)); by eapply Hgo.
Qed.

Lemma type_not_empty t : trim_space t ≠ "" → t ≠ "".
Proof. by intros H ->. Qed.
Lemma consume_terminated n terminal output events e log s : terminal ≠ "" →
  ∀ out log' s', consume_from now fresh a n terminal output events e log s = (inr out, log', s') ↔
    events = [] ∧ e = EndOfStream ∧ failed_type terminal = false ∧ output = out ∧ log' = log ∧ s' = s.
Proof.
  intros Ht out log' s'. destruct events as [|event events]; cbn [consume_from].
  - unfold finish. rewrite (proj2 (String.eqb_neq _ _) Ht). destruct e as [|code message ctx]; cbn [negb].
    + destruct (failed_type terminal); split; try (intros [=]; by subst); by intros (_&_&?&->&->&->).
    + split; [by intros [=]|by intros (_&?&_)].
  - rewrite (proj2 (String.eqb_neq _ _) Ht). cbn [negb]. split; [by intros [=]|by intros (?&_)].
Qed.
Lemma consume_from_completes n events e log s out log' s' :
  consume_from now fresh a n "" "" events e log s = (inr out, log', s') →
  e = EndOfStream ∧ completes n events out ∧
  (ra_persist a = true → ∀ event, event ∈ events → ∃ row, db_plugin_events s' !! (attempt_of, xe_sequence event) = Some row ∧
    pe_type row = xe_type event ∧ pe_payload row = redact (xe_payload event) (ra_redactions a)).
Proof.
  revert n log s. induction events as [|event events IH]; intros n log s H; cbn [consume_from] in H.
  { unfold finish in H. cbn [String.eqb negb] in H. destruct e as [|code message [ctx|]]; try discriminate H.
    destruct (String.eqb code "Canceled"); [discriminate H|]. destruct (String.eqb code "DeadlineExceeded"); discriminate H. }
  cbn [String.eqb negb] in H. destruct (xe_occurredAt event) as [occurredAt|] eqn:Eo; [|discriminate H].
  destruct (_ || _) eqn:E1; [discriminate H|]. apply orb_false_iff in E1 as [E1%negb_false_iff%Z.eqb_eq E2%String.eqb_neq].
  destruct (negb (valid _)) eqn:Ev; [discriminate H|]. apply negb_false_iff in Ev.
  destruct (persistPluginEvidence _ _ _ _ _ _ _ _) as [[[error|] log1] s1] eqn:Ep; [discriminate H|].
  destruct (persist_evidence _ _ _ _ _ _ _ _ Ep) as (_&_&_&Hrow).
  assert (Hacc : accepted n event) by (split_and!; [done|done|by rewrite Eo|done]).
  destruct (terminal_type (xe_type event)) eqn:Et.
  - apply consume_terminated in H as (->&->&Hf&<-&->&->); [|by apply type_not_empty]. split_and!; [done|by constructor|].
    intros Hp event' Hin. apply list_elem_of_singleton in Hin as ->. by apply Hrow.
  - pose proof (consume_from_evidence _ _ _ _ _ _ _ _ _ _ H) as [Hev _]. destruct (IH _ _ _ H) as (->&Hc&Hrows).
    split_and!; [done|by constructor|]. intros Hp event' Hin. apply elem_of_cons in Hin as [->|Hin]; [|by apply Hrows].
    destruct (Hrow Hp eq_refl) as (row&Hr&Hx). exists row. split; [|done]. by apply (ev_kept _ _ _ _ Hev).
Qed.

(** ** Calls that nothing stops *)

(** Events numbered from [n] of which only the last, [x], is terminal. *)
Inductive closes : Z → list ExecuteEvent → ExecuteEvent → Prop :=
  | closes_last n x (Ha : accepted n x) (Ht : terminal_type (xe_type x) = true) : closes n [x] x
  | closes_next n e events x (Ha : accepted n e) (Ht : terminal_type (xe_type e) = false) (Hn : closes (n + 1) events x) :
      closes n (e :: events) x.
Lemma completes_closes n events output : completes n events output →
  ∃ x, closes n events x ∧ failed_type (xe_type x) = false ∧ output = redact (xe_payload x) (ra_redactions a).
Proof.
  induction 1 as [n e Ha Ht Hf|n e events output Ha Ht _ (x&Hx&Hf&E)]; [by exists e; split; [constructor|]|].
  exists x. split; [by constructor|done].
Qed.

(** The files of the attempt work. *)
Definition files_work : Prop := ∀ q, append_fault a q = None ∧ read_fault a q = None.
(** The store takes the evidence of the attempt, from event [n] on: its row is
    open and its Run exists; its names are file names; no event is recorded under
    the numbers to come; and no other artifact has the UID of its raw log. *)
Definition raw_log : attempt_key * string := (attempt_of, "raw.log").
Record recordable (n : Z) (s : Db) : Prop := {
  rc_open : ∃ row, db_attempts s !! attempt_of = Some row ∧ at_completed row = None;
  rc_run : is_Some (db_runs s !! ra_run a);
  rc_identity : ordinary (ra_run a) ∧ ordinary (ra_node a) ∧ 0 ≤ ra_iteration a ∧ ra_attempt a ≠ 0;
  rc_events : ∀ q, n ≤ q → db_plugin_events s !! (attempt_of, q) = None;
  rc_uids : ∀ k row, k ≠ raw_log → db_artifacts s !! k = Some row →
    (∀ q, ar_uid row ≠ fresh q) ∧ (∀ own, db_artifacts s !! raw_log = Some own → ar_uid row ≠ ar_uid own);
  rc_digest : ∀ text, StoreRuns.sha256_hex (FlowCompiler.sha256_hex text) = true }.

Lemma artifact_path_inside : ordinary (ra_run a) → ordinary (ra_node a) →
  path_is_abs (artifact_path a) = false ∧ path_clean (artifact_path a) = artifact_path a ∧ String.eqb (artifact_path a) "" = false ∧
  String.eqb (artifact_path a) "." || String.eqb (artifact_path a) ".." || has_prefix (artifact_path a) "../" = false.
Proof.
  intros Hr Hn.
  assert (Hlit : ∀ x, x ∈ ["artifacts"; "raw.log"] → ordinary x).
  { intros x Hx. assert (E : x = "artifacts" ∨ x = "raw.log") by set_solver. destruct E as [-> | ->]; (split_and!; [done..|]); unfold no_slash, explode; simpl; set_solver. }
  assert (Hnum : ∀ p n, p = "iteration-" ∨ p = "attempt-" → ordinary (p +:+ itoa n)).
  { intros p n Hp. pose proof (itoa_no_slash n) as Hi. split_and!; try (by destruct Hp as [-> | ->]). unfold no_slash in *. rewrite explode_app, elem_of_app.
    intros [Hin|Hin]; [|done]. revert Hin. destruct Hp as [-> | ->]; unfold explode; simpl; set_solver. }
  apply (join_inside ["artifacts"; ra_run a; ra_node a; "iteration-" +:+ itoa (ra_iteration a); "attempt-" +:+ itoa (ra_attempt a); "raw.log"]); [done|].
  repeat (apply Forall_cons; split); [apply Hlit; set_solver|done|done|apply Hnum; auto|apply Hnum; auto|apply Hlit; set_solver|by apply Forall_nil].
Qed.

Lemma max_z_bound x l : x ∈ l → x ≤ max_z l.
Proof. unfold max_z. induction l as [|y l IH]; [by intros ?%elem_of_nil|]. intros [->|H]%elem_of_cons; simpl; [lia|]. specialize (IH H). lia. Qed.
Lemma tx_bind_run {A B} (m : Tx A) (f : A → Tx B) s x s1 : m s = inr (x, s1) → (m ≫= f) s = f x s1.
Proof. unfold mbind, tx_bind. by intros ->. Qed.
(** Each of the three writes of an event succeeds and leaves the store ready for the next. *)
Lemma register_recordable n q log s : files_work → 0 ≤ n → recordable n s → ∃ row s', registerArtifact now fresh a log q s = inr (row, s') ∧ recordable n s'.
Proof.
  intros Hf H0 [(own&Hown&Hopen) Hrun (Hr&Hn&Hi&Hat) Hev Huid Hdig].
  destruct (artifact_path_inside Hr Hn) as (Habs&Hclean&Hne&Hin). destruct (Hf q) as [_ Hread].
  assert (Hguard : negb (String.eqb (ra_run a) "" || String.eqb (ra_node a) "" || (ra_iteration a <? 0) || (ra_attempt a =? 0)
                  || String.eqb "raw.log" "" || String.eqb (artifact_path a) "" || (Z.of_nat (String.length log) <? 0)) = true).
  { destruct Hr as (Hr&_), Hn as (Hn&_). rewrite (proj2 (String.eqb_neq _ _) Hr), (proj2 (String.eqb_neq _ _) Hn), Hne.
    rewrite (proj2 (Z.ltb_ge _ _) Hi), (proj2 (Z.eqb_neq _ _) Hat), (proj2 (Z.ltb_ge (Z.of_nat (String.length log)) 0)) by lia. done. }
  set (uid := if db_artifacts s !! raw_log is Some e then ar_uid e else fresh q).
  assert (Hclash : existsb (λ kr, String.eqb (ar_uid kr.2) uid && negb (bool_decide (kr.1 = raw_log))) (map_to_list (db_artifacts s)) = false).
  { apply not_true_iff_false. rewrite existsb_exists. intros ([k row]&Hin'&Hb). apply list_elem_of_In, elem_of_map_to_list in Hin'. cbn [fst snd] in Hb.
    apply andb_true_iff in Hb as [Hu%String.eqb_eq Hk%negb_true_iff%bool_decide_eq_false]. destruct (Huid k row Hk Hin') as [Hu1 Hu2]. subst uid.
    destruct (db_artifacts s !! raw_log) as [e|]; [by apply (Hu2 e)|by apply (Hu1 q)]. }
  unfold registerArtifact. rewrite (tx_bind_run _ _ s tt s) by (unfold tx_lift; by rewrite Hread).
  unfold PutArtifact. cbv zeta. cbn [aa_run aa_node aa_iteration aa_attempt aa_name aa_path aa_size aa_sha256 aa_uid aa_mediaType].
  rewrite (tx_bind_run _ _ s tt s) by (unfold tx_guard; by rewrite Hguard). rewrite (tx_bind_run _ _ s tt s) by (unfold tx_guard; by rewrite Hdig).
  rewrite (tx_bind_run _ _ s tt s) by (unfold tx_guard; rewrite Hclean, Habs; cbn [orb]; by rewrite Hin).
  rewrite (tx_bind_run _ _ s own s) by (unfold tx_row; fold attempt_of; by rewrite Hown). rewrite (tx_bind_run _ _ s (db_artifacts s !! raw_log) s) by done.
  rewrite Hopen, Hclean. change (if String.eqb "" "" then fresh q else "") with (fresh q).
  assert (Hcont : ∀ created, ∃ row s',
    ((clash ← tx_get (λ s, existsb (λ kr, String.eqb (ar_uid kr.2) uid && negb (bool_decide (kr.1 = raw_log))) (map_to_list (db_artifacts s)));
      tx_guard (negb clash) (ErrConstraint "artifacts") ≫= λ _,
      tx_mod (set_artifacts (λ m, <[raw_log := mkArtifactRow uid "text/plain; charset=utf-8" (artifact_path a) (Z.of_nat (String.length log)) (FlowCompiler.sha256_hex log) created (now q)]> m)) ≫= λ _,
      mret (mkArtifactRow uid "text/plain; charset=utf-8" (artifact_path a) (Z.of_nat (String.length log)) (FlowCompiler.sha256_hex log) created (now q))) : Tx ArtifactRow) s = inr (row, s') ∧ recordable n s').
  { intros created. rewrite (tx_bind_run _ _ s false s) by (unfold tx_get; by rewrite Hclash). eexists _, _. split; [reflexivity|].
    split; cbn [set_artifacts db_attempts db_runs db_artifacts db_plugin_events]; [by exists own|done|done|done| |done].
    intros k row Hk. rewrite lookup_insert_ne by done. intros Hrow. destruct (Huid k row Hk Hrow) as [Hu1 Hu2]. split; [done|].
    intros own'. rewrite lookup_insert_eq. intros [= <-]. cbn [ar_uid]. subst uid. destruct (db_artifacts s !! raw_log) as [e|]; [by apply Hu2|done]. }
  subst uid. destruct (db_artifacts s !! raw_log) as [e|]; apply Hcont.
Qed.
Lemma append_recordable n x occurredAt payload t s : recordable n s → xe_sequence x = n → 0 < n → xe_type x ≠ "" → valid payload = true →
  ∃ s', AppendPluginEvent (ra_run a) (ra_node a) (ra_iteration a) (ra_attempt a) n (xe_type x) payload occurredAt t s = inr (tt, s') ∧ recordable (n + 1) s'.
Proof.
  intros [(own&Hown&Hopen) [run Hrun] Hid Hev Huid Hdig] Hq H0 Ht Hv. unfold AppendPluginEvent. cbv zeta.
  rewrite (tx_bind_run _ _ s tt s) by (unfold tx_guard; by rewrite (proj2 (Z.eqb_neq n 0)), (proj2 (String.eqb_neq _ _) Ht), Hv by lia).
  rewrite (tx_bind_run _ _ s None s) by (unfold tx_get; fold attempt_of; by rewrite (Hev n ltac:(lia))). cbv iota.
  rewrite (tx_bind_run _ _ s true s) by (unfold tx_get; fold attempt_of; rewrite bool_decide_true; [done|rewrite Hown; by eexists]).
  rewrite (tx_bind_run _ _ s tt s) by done. erewrite tx_bind_run by reflexivity. unfold appendRunEvidenceTx.
  set (s1 := set_plugin_events _ s). rewrite (tx_bind_run _ _ s1 run s1) by (unfold tx_row; subst s1; cbn; by rewrite Hrun).
  assert (Hrows : ∀ f g s2, s2 = set_runs g (set_run_events f s1) → is_Some (g (db_runs s) !! ra_run a) → recordable (n + 1) s2).
  { intros f g s2 -> Hg. split; cbn [set_runs set_run_events set_plugin_events db_attempts db_runs db_artifacts db_plugin_events s1]; [by exists own|done|done| |done|done].
    intros q Hge. rewrite lookup_insert_ne by (intros [= E]; lia). apply Hev. lia. }
  assert (Hnew : existsb (λ e', String.eqb (ev_run e') (ra_run a) && (ev_seq e' =? next_sequence (ra_run a) s1)) (db_run_events s1) = false).
  { apply not_true_iff_false. rewrite existsb_exists. intros (e'&Hin&Hb). apply andb_true_iff in Hb as [Hr%String.eqb_eq Hs%Z.eqb_eq].
    assert (Hle : ev_seq e' ≤ max_z (ev_seq <$> events_of (ra_run a) s1)); [|unfold next_sequence in Hs; lia].
    apply max_z_bound, list_elem_of_fmap. exists e'. split; [done|]. apply list_elem_of_filter. split; [done|by apply list_elem_of_In]. }
  rewrite (tx_bind_run _ _ s1 (next_sequence (ra_run a) s1) s1) by done. unfold insert_run_event. cbn [ev_run ev_seq].
  erewrite (tx_bind_run _ _ s1 tt).
  2: { rewrite (tx_bind_run _ _ s1 false s1) by (unfold tx_get; by rewrite Hnew). rewrite (tx_bind_run _ _ s1 tt s1) by done.
    rewrite (tx_bind_run _ _ s1 true s1) by (unfold tx_get; rewrite bool_decide_true; [done|subst s1; cbn; rewrite Hrun; by eexists]).
    rewrite (tx_bind_run _ _ s1 tt s1) by done. reflexivity. }
  destruct (terminalRunPhase (run_phase run)); (eexists; split; [reflexivity|]).
  - eapply (Hrows _ id); [reflexivity|]. subst s1. cbn. rewrite Hrun. by eexists.
  - eapply Hrows; [reflexivity|]. subst s1. cbn. rewrite lookup_alter_eq, Hrun. by eexists.
Qed.
Lemma outcome_recordable n o s : recordable n s →
  ∃ s', SetNodeAttemptOutcome (ra_run a) (ra_node a) (ra_iteration a) (ra_attempt a) o s = inr (tt, s') ∧ recordable n s'.
Proof.
  intros Hrec. unfold SetNodeAttemptOutcome. destruct (String.eqb o ""); (eexists; split; [reflexivity|]); [done|].
  destruct Hrec as [(own&Hown&Hopen) Hrun Hid Hev Huid Hdig]. split; cbn; try done.
  exists (set_outcome o own). split; [|unfold set_outcome; by destruct (String.eqb _ _)]. fold attempt_of. by rewrite lookup_alter_eq, Hown.
Qed.

(** The evidence of an accepted event is recorded. *)
Lemma persist_recordable n x oc s log : files_work → (ra_persist a = true → recordable n s) → 0 < n → accepted n x →
  ∃ s', persistPluginEvidence now fresh a x oc (redact (xe_payload x) (ra_redactions a)) log s = (None, log +:+ chunk x, s') ∧
    (ra_persist a = true → recordable (n + 1) s').
Proof.
  intros Hf Hrec H0 (Hq&Hty&_&Hv). destruct (Hf (xe_sequence x)) as [Happ _]. unfold persistPluginEvidence.
  assert (H1 : ∃ s1, (if String.eqb (xe_rawLog x) "" then (None, log, s)
      else appendArtifact now fresh a (xe_sequence x) (redact (xe_rawLog x) (ra_redactions a)) log s) = (None, log +:+ chunk x, s1) ∧ (ra_persist a = true → recordable n s1)).
  { unfold chunk. destruct (String.eqb (xe_rawLog x) ""); [exists s; by rewrite append_nil|]. unfold appendArtifact. rewrite Happ.
    destruct (ra_persist a); cbn [negb]; [|by exists s].
    destruct (register_recordable n (xe_sequence x) (log +:+ redact (xe_rawLog x) (ra_redactions a)) s Hf ltac:(lia) (Hrec eq_refl)) as (row&s1&->&H1). by exists s1. }
  destruct H1 as (s1&->&H1). destruct (ra_persist a); cbn [negb]; [|by exists s1]. rewrite Hq.
  destruct (append_recordable n x oc (redact (xe_payload x) (ra_redactions a)) (now n) s1 (H1 eq_refl) Hq H0 (type_not_empty _ Hty) Hv) as (s2&->&H2).
  destruct (String.eqb _ ""); [by exists s2|].
  match goal with |- context [SetNodeAttemptOutcome _ _ _ _ ?o s2] => destruct (outcome_recordable (n + 1) o s2 H2) as (s3&->&H3) end. by exists s3.
Qed.
Ltac read_event Hf Hrec H0 Ha :=
  match goal with |- context [persistPluginEvidence _ _ _ ?y ?oc _ ?l ?st] =>
    destruct (persist_recordable _ y oc st l Hf Hrec H0 Ha) as (?&->&?) end.
(** A closed stream is read to its end, and its last event decides. *)
Lemma consume_closed n events x : closes n events x → files_work → 0 < n → ∀ log s, (ra_persist a = true → recordable n s) →
  ∃ s', consume_from now fresh a n "" "" events EndOfStream log s =
    (finish (ra_redactions a) (xe_type x) (redact (xe_payload x) (ra_redactions a)) EndOfStream, log +:+ concat (chunk <$> events), s').
Proof.
  intros Hc Hf. induction Hc as [n x Ha Ht|n e events x Ha Ht Hn IH]; intros H0 log s Hrec.
  all: pose proof Ha as (Hs&Hty&[t Hoc]&Hv); cbn [consume_from String.eqb negb]; rewrite Hoc, Hs, Z.eqb_refl, (proj2 (String.eqb_neq _ _) Hty), Hv; cbn [negb orb].
  - read_event Hf Hrec H0 Ha. rewrite Ht. eexists. cbn. by rewrite append_nil.
  - read_event Hf Hrec H0 Ha. rewrite Ht. match goal with |- context [consume_from _ _ a (n + 1) _ _ events _ ?l ?st] =>
      destruct (IH ltac:(lia) l st ltac:(assumption)) as (s2&->) end. exists s2. cbn. by rewrite append_assoc.
Qed.
Lemma completes_consume events out log s : files_work → (ra_persist a = true → recordable 1 s) → completes 1 events out →
  ∃ s', consume_from now fresh a 1 "" "" events EndOfStream log s = (inr out, log +:+ concat (chunk <$> events), s').
Proof.
  intros Hf Hrec (x&Hx&Hfail&->)%completes_closes. destruct (consume_closed 1 events x Hx Hf ltac:(lia) log s Hrec) as (s'&->). exists s'.
  unfold finish. assert (Hne : xe_type x ≠ "").
  { clear -Hx. induction Hx as [n x (_&Ht&_)|]; [by apply type_not_empty|done]. }
  by rewrite (proj2 (String.eqb_neq _ _) Hne), Hfail.
Qed.
End Stream.

(** ** The executor *)

Section Executor.
Context {cal : Calendar} {dig : Digest} {host : Host} {js : JsonSchema} {sha : Sha256} {plugins : PluginHost} {files : RawLogFiles}.
Context (workspaces : string) (now fresh : Z → string) (log_of : TaskIdentity → string → string → string).

Lemma call_evidence node identity run secrets started s r s' :
  call_plugin now fresh log_of node identity run secrets started s = Some (r, s') → evidence (run, pn_id node, ti_iteration identity, ti_attempt identity) (λ _, True) s s'.
Proof.
  unfold call_plugin. destruct started as [e|stream]; [intros [= _ <-]; apply evidence_refl|]. unfold check_output, consume.
  destruct (consume_from _ _ _ _ _ _ _ _ _ _) as [[result log'] s1] eqn:E. intros H.
  assert (s' = s1) as ->.
  { destruct result as [e|output]; [by injection H as _ <-|]. destruct (validatePinnedJSON node PartOutput output); [|done]. by injection H as _ <-. }
  destruct (consume_from_evidence (dig:=dig) now fresh _ _ _ _ _ _ _ _ _ _ _ E) as [Hev _]. revert Hev. by apply evidence_weaken.
Qed.

Lemma execute_evidence identity run node input nodes s r s' :
  Execute workspaces now fresh log_of identity run node input nodes s = Some (r, s') → evidence (run, pn_id node, ti_iteration identity, ti_attempt identity) (λ _, True) s s'.
Proof.
  unfold Execute. destruct (match pn_plugin node with Some _ => _ | None => _ end) as [e|record]; [intros [= _ <-]; apply evidence_refl|].
  destruct (String.eqb _ _).
  - unfold executeAgent. destruct (String.eqb _ ""); [intros [= _ <-]; apply evidence_refl|].
    destruct (boundAgentProfile _ _ _ _) as [e|spec]; [intros [= _ <-]; apply evidence_refl|].
    destruct (resolveProfileSecrets _ _ _ _) as [e|secrets]; [intros [= _ <-]; apply evidence_refl|].
    destruct (render _ _ _) as [e|c]; [intros [= _ <-]; apply evidence_refl|].
    destruct (check_request _ _ _) as [[e|]|]; [intros [= _ <-]; apply evidence_refl| |done]. cbn [mbind option_bind].
    destruct (agent_invocation _ _) as [invocation [|kv rest]]; [apply call_evidence|intros [= _ <-]; apply evidence_refl].
  - unfold executeTask. destruct (task_config _ _ _ _ _) as [e|c]; [intros [= _ <-]; apply evidence_refl|].
    destruct (resolveNodeSecretsInNamespace _ _ _ _) as [e|[secrets c1]]; [intros [= _ <-]; apply evidence_refl|].
    destruct (check_request _ _ _) as [[e|]|]; [intros [= _ <-]; apply evidence_refl| |done]. cbn [mbind option_bind]. apply call_evidence.
Qed.

(** An executor that gives the results of [Execute] meets the engine's interface. *)
Definition implements (exec : TaskExecutor) : Prop := ∀ identity run node input nodes key s,
  Execute workspaces now fresh log_of identity run node input nodes s = Some (exec identity run node input nodes key s).
Lemma implements_keeps_results exec : implements exec → keeps_results exec.
Proof.
  intros H identity run node input nodes key s k. specialize (H identity run node input nodes key s).
  destruct (exec identity run node input nodes key s) as [r s'] eqn:E. cbn [snd]. by apply (ev_results _ _ _ _ (execute_evidence _ _ _ _ _ _ _ _ H)).
Qed.
Lemma implements_steps exec : implements exec → ∀ identity run node input nodes key s,
  rtc store_step s (exec identity run node input nodes key s).2.
Proof.
  intros H identity run node input nodes key s. specialize (H identity run node input nodes key s).
  destruct (exec identity run node input nodes key s) as [r s'] eqn:E. cbn [snd]. by apply (ev_steps _ _ _ _ (execute_evidence _ _ _ _ _ _ _ _ H)).
Qed.

(** The executor of a program in which no call can run forever. *)
Definition manager_executor : TaskExecutor := λ identity run node input nodes _ s,
  default (inl (plain ""), s) (Execute workspaces now fresh log_of identity run node input nodes s).
Lemma manager_implements :
  (∀ identity run node input nodes s, is_Some (Execute workspaces now fresh log_of identity run node input nodes s)) → implements manager_executor.
Proof. intros H identity run node input nodes key s. unfold manager_executor. by destruct (H identity run node input nodes s) as [x ->]. Qed.

Lemma commit_steps {A} (op : Tx A) s : (∀ a s', op s = inr (a, s') → store_step s s') → rtc store_step s (commit op s).
Proof. intros H. unfold commit. destruct (op s) as [e|[a s']] eqn:E; [apply rtc_refl|]. eapply rtc_once, H, eq_refl. Qed.
(** An activity over the manager moves the store by its own operations only. *)
Lemma node_steps {cel : Cel} exec request f ctxErr now1 now2 s : implements exec →
  rtc store_step s (ExecuteNode (Some exec) request f ctxErr now1 now2 s).2.
Proof.
  intros Hexec. unfold ExecuteNode. destruct (_ || _); [apply rtc_refl|]. destruct (_ || _); [apply rtc_refl|].
  destruct (BeginNodeAttempt _ _ _ _ _ _ _ s) as [e|[[[k record] created] s1]] eqn:Eb; [apply rtc_refl|].
  eapply rtc_l; [by eapply step_begin|]. destruct (_ && _).
  { destruct (negb _); [apply rtc_refl|]. destruct (evaluate _ _); apply rtc_refl. }
  assert (Hi : ∀ r o s2, invoke (Some exec) request k.2 f s1 = (r, o, s2) → rtc store_step s1 s2).
  { intros r o s2. unfold invoke. destruct (String.eqb _ _); [by intros [= _ _ <-]|]. destruct (String.eqb _ _); [by intros [= _ _ <-]|].
    destruct (exec _ _ _ _ _ _ _) as [r' s'] eqn:Ee. intros [= _ _ <-]. change s' with (r', s').2. rewrite <- Ee. by apply implements_steps. }
  destruct (invoke _ _ _ _ _) as [[r outcome] s2]. etrans; [by eapply Hi|]. clear Hi.
  assert (Hc : ∀ r n i a p o e x t, rtc store_step s2 (commit (CompleteNodeAttempt r n i a p o e x t) s2)).
  { intros. apply commit_steps. intros ? ? H. by eapply step_complete_attempt. }
  destruct r as [e|output].
  - destruct (failure _ _ _ _ _). apply Hc.
  - destruct (evaluate _ _); [apply Hc|]. destruct (CompleteNodeAttempt _ _ _ _ _ _ _ _ _ s2) as [e|[a s3]] eqn:E; [apply rtc_refl|].
    by eapply rtc_once, step_complete_attempt.
Qed.
End Executor.
