(* ===== verification/EngineInterp.v ===== *)
(** [internal/engine/engine.go], one component: [executePlanNode] runs a node
    through the workflow runtime, [executePlanComponent] runs the nodes of an
    acyclic component once and those of a cyclic one as a bounded queue.

    go-workflows is the parameter [Runtime]: it executes an activity, and it
    selects between a signal channel and a timer.  The boolean that most
    activities return is discarded by the code, so every activity returns a
    [NodeResult].  A wait for events receives finitely many signals before its
    timer fires: [signals] bounds them, and when they are used up the timer
    fires. *)

From Stdlib Require String.
From S2P Require Import Prelude.
From S2P Require Import Json.
From S2P Require Import GoStd.
From S2P Require Import Plan.
From S2P Require Import EngineModel.
From S2P Require Import EngineNode.

Local Open Scope Z_scope.

(** ** The runtime *)

Inductive Activity :=
  | ActExecuteNode (request : NodeRequest) (maxAttempts firstRetryInterval retryTimeout : Z)
  | ActBeginApproval (request : NodeRequest)
  | ActEndApproval (request : NodeRequest) (signal : ApprovalSignal)
  | ActBeginEvent (request : NodeRequest)
  | ActEndEvent (request : NodeRequest) (signal : EventSignal)
  | ActIgnoreEvent (request : NodeRequest) (signal : EventSignal)
  | ActSkipNode (run node : string)
  | ActCancelCalls (run reason : string)
  | ActCompleteRun (run phase : string)
  | ActFailRun (run message : string).

(** [Select] on a channel and a timer: a value, a receive that is not [ok], or
    the timer. *)
Inductive Selected (A : Type) := Received (a : A) | NotOk | Expired.
#[global] Arguments Received {A} a.
#[global] Arguments NotOk {A}.
#[global] Arguments Expired {A}.

Class Runtime (W : Type) := mkRuntime {
  ExecuteActivity : Activity → W → res NodeResult * W;
  (** channel, timer name and timeout *)
  SelectApproval : string → string → Z → W → Selected ApprovalSignal * W;
  SelectEvent : string → string → Z → W → Selected EventSignal * W }.

Definition approvalSignalName (nodeID : string) : string := "approval:" +:+ nodeID.
Definition eventSignalName (nodeID : string) : string := "event:" +:+ nodeID.
Definition parse_or_zero (d : string) : Z := default 0 (time_ParseDuration d).
Definition invalid_duration : Err := ErrMsg "invalid duration".

Section Node.
Context {W : Type} {rt : Runtime W} (signals : nat).

Definition skipPlanNode (run node : string) (w : W) : res unit * W :=
  let '(r, w) := ExecuteActivity (ActSkipNode run node) w in (_ ← r; ok tt, w).

Definition event_error (request : NodeRequest) (what : string) : Err :=
  ErrMsg ("external event node " +:+ pn_id (nq_node request) +:+ what).
Definition eventTimer (request : NodeRequest) : string :=
  "event-timeout-" +:+ pn_id (nq_node request) +:+ "-" +:+ itoa (nq_iteration request).

(** The receive loop: duplicates are recorded and skipped. *)
Fixpoint await_event (fuel : nat) (request : NodeRequest) (timeout : Z) (seen : list string) (w : W)
    : (res NodeResult * list string) * W :=
  match fuel with
  | O => (fail (event_error request " timed out"), seen, w)
  | S fuel =>
      let '(selected, w) := SelectEvent (eventSignalName (pn_id (nq_node request))) (eventTimer request) timeout w in
      match selected with
      | Expired => (fail (event_error request " timed out"), seen, w)
      | NotOk => (fail (event_error request " received an invalid signal"), seen, w)
      | Received signal =>
          if String.eqb (es_providerEventID signal) "" || negb (valid (es_payload signal))
          then (fail (event_error request " received an invalid signal"), seen, w)
          else match parse_object (es_payload signal) with
          | Some (Some _) =>
              if decide (es_providerEventID signal ∈ seen) then
                let '(r, w) := ExecuteActivity (ActIgnoreEvent request signal) w in
                match r with
                | inl e => (fail e, seen, w)
                | inr _ => await_event fuel request timeout seen w
                end
              else
                let '(r, w) := ExecuteActivity (ActEndEvent request signal) w in
                (r, es_providerEventID signal :: seen, w)
          | _ => (fail (event_error request " requires a JSON object payload"), seen, w)
          end
      end
  end.

Definition executeEventNode (request : NodeRequest) (seen : list string) (w : W) : (res NodeResult * list string) * W :=
  let '(r, w) := ExecuteActivity (ActBeginEvent request) w in
  match r with
  | inl e => (fail e, seen, w)
  | inr _ =>
      match time_ParseDuration (pn_timeout (nq_node request)) with
      | None => (fail invalid_duration, seen, w)
      | Some timeout => await_event signals request timeout seen w
      end
  end.

Definition approvalTimer (request : NodeRequest) : string :=
  "approval-timeout-" +:+ pn_id (nq_node request) +:+ "-" +:+ itoa (nq_iteration request).
Definition timed_out : ApprovalSignal := mkApproval "rejected" "approval timed out".

Definition executePlanNode (request : NodeRequest) (seen : list string) (w : W) : (res NodeResult * list string) * W :=
  let node := nq_node request in
  if negb (String.eqb (pn_uses node) "core.approval") && negb (String.eqb (pn_uses node) "core.event") then
    let '(r, w) := ExecuteActivity (ActExecuteNode request (pn_retryLimit node + 1) (parse_or_zero (pn_retryBackoff node))
                                      (parse_or_zero (pn_timeout node))) w in
    (r, seen, w)
  else if String.eqb (pn_uses node) "core.event" then executeEventNode request seen w
  else
    let '(r, w) := ExecuteActivity (ActBeginApproval request) w in
    match r with
    | inl e => (fail e, seen, w)
    | inr _ =>
        match time_ParseDuration (pn_timeout node) with
        | None => (fail invalid_duration, seen, w)
        | Some timeout =>
            let '(selected, w) := SelectApproval (approvalSignalName (pn_id node)) (approvalTimer request) timeout w in
            let signal := match selected with Received s => s | _ => timed_out end in
            let '(r, w) := ExecuteActivity (ActEndApproval request signal) w in
            (r, seen, w)
        end
    end.
End Node.

(** ** Components *)

Record componentResult := mkComponentResult {
  co_edgeActive : list bool; co_outputs : gmap string json; co_rejected : bool; co_errorText : string }.

Definition zero_node : PlanNode := mkPlanNode "" "" "" "" [] 0 "" "" 0 None None [].
Definition model_node (m : componentModel) (id : string) : PlanNode := default zero_node (cm_nodes m !! id).

(** [json.Unmarshal] into an [any] that stays nil on an error. *)
Definition decoded (output : string) : json := default JNull (parse output).

(** Mark the edges whose position was activated. *)
Fixpoint mark_edges (positions : list nat) (activated : list bool) (edgeActive : list bool) : list bool :=
  match positions, activated with
  | e :: positions, a :: activated =>
      mark_edges positions activated (if a : bool then <[e := true]> edgeActive else edgeActive)
  | _, _ => edgeActive
  end.

(** The variables of [executePlanComponent]: what it has recorded, and for a
    cyclic component its queue and visit counts. *)
Record loopState := mkLoop {
  ls_queue : list string; ls_queued : gset string; ls_counts : gmap string Z;
  ls_edgeActive : list bool; ls_outputs : gmap string json; ls_local : gmap string json; ls_seen : list string }.
Inductive loopEnd := LoopDone | LoopRejected | LoopError (text : string).

Section Component.
Context {W : Type} (execute : NodeRequest → list string → W → (res NodeResult * list string) * W)
  (skip : string → string → W → res unit * W).
Context (runUID : string) (plan : ExecutionPlan) (input : string) (m : componentModel).

Definition request_of (id : string) (iteration : Z) (nodes : gmap string json) : NodeRequest :=
  mkRequest runUID (model_node m id) iteration (outgoingEdges m (pn_id (model_node m id)) plan) input nodes.
(** [record]: the output, and the edges the node activated. *)
Definition record_result (id : string) (r : NodeResult) (st : loopState) : loopState :=
  mkLoop (ls_queue st) (ls_queued st) (ls_counts st)
    (mark_edges (outgoing m id) (nr_activated r) (ls_edgeActive st))
    (<[id := decoded (nr_output r)]> (ls_outputs st)) (<[id := decoded (nr_output r)]> (ls_local st)) (ls_seen st).

Fixpoint skip_nodes (ids : list string) (w : W) : res unit * W :=
  match ids with
  | [] => (ok tt, w)
  | id :: ids =>
      let '(r, w) := skip runUID id w in
      match r with inl e => (fail e, w) | inr _ => skip_nodes ids w end
  end.

Definition count (id : string) (st : loopState) : Z := default 0 (ls_counts st !! id).
Definition enqueue (id : string) (st : loopState) : loopState :=
  mkLoop (ls_queue st ++ [id]) ({[id]} ∪ ls_queued st) (ls_counts st) (ls_edgeActive st) (ls_outputs st) (ls_local st) (ls_seen st).

(** The targets inside the component that an execution activated. *)
Fixpoint enqueue_targets (index : nat) (maxIterations : Z) (positions : list nat) (activated : list bool) (st : loopState) : loopState :=
  match positions with
  | [] => st
  | e :: positions =>
      let '(a, activated) := match activated with a :: l => (a, l) | [] => (false, []) end in
      let target := match pl_edges plan !! e with Some edge => pe_to edge | None => "" end in
      let st :=
        if (a : bool) && bool_decide (cm_componentByNode m !! target = Some index)
           && (count target st <? maxIterations) && negb (bool_decide (target ∈ ls_queued st))
        then enqueue target st else st in
      enqueue_targets index maxIterations positions activated st
  end.

(** One iteration per unit of fuel; [None] when it runs out first. *)
Fixpoint component_loop (fuel : nat) (index : nat) (maxIterations : Z) (st : loopState) (w : W) : option (loopState * loopEnd * W) :=
  match ls_queue st with
  | [] => Some (st, LoopDone, w)
  | id :: queue =>
      match fuel with
      | O => None
      | S fuel =>
          let st := mkLoop queue (ls_queued st ∖ {[id]}) (ls_counts st) (ls_edgeActive st) (ls_outputs st) (ls_local st) (ls_seen st) in
          if maxIterations <=? count id st then component_loop fuel index maxIterations st w else
          let iteration := count id st in
          let '(r, seen, w) := execute (request_of id iteration (ls_local st)) (ls_seen st) w in
          let st := mkLoop (ls_queue st) (ls_queued st) (<[id := iteration + 1]> (ls_counts st))
                      (ls_edgeActive st) (ls_outputs st) (ls_local st) seen in
          match r with
          | inl e => Some (st, LoopError (error_text e), w)
          | inr r =>
              let st := record_result id r st in
              if nr_rejected r then Some (st, LoopRejected, w)
              else component_loop fuel index maxIterations (enqueue_targets index maxIterations (outgoing m id) (nr_activated r) st) w
          end
      end
  end.

(** Entry nodes: the targets of the active incoming edges. *)
Fixpoint enqueue_entries (incoming : list nat) (inputEdges : list bool) (st : loopState) : loopState :=
  match incoming with
  | [] => st
  | e :: incoming =>
      let target := match pl_edges plan !! e with Some edge => pe_to edge | None => "" end in
      let st := if default false (inputEdges !! e) && negb (bool_decide (target ∈ ls_queued st)) then enqueue target st else st in
      enqueue_entries incoming inputEdges st
  end.

(** Enough iterations for every node of the component ([component_loop_total]). *)
Definition loop_fuel (c : planComponent) : nat :=
  let n := length (pc_nodes c) in S (n + n * Z.to_nat (pc_maxIterations c) * S n).

Definition empty_result : componentResult :=
  mkComponentResult (replicate (length (pl_edges plan)) false) ∅ false "".
Definition with_error (e : Err) (r : componentResult) : componentResult :=
  mkComponentResult (co_edgeActive r) (co_outputs r) (co_rejected r) (error_text e).

Definition executePlanComponent (index : nat) (active : bool) (inputEdges : list bool) (inputNodes : gmap string json) (w : W)
    : option (componentResult * W) :=
  let c := default (mkComponent [] [] [] false 1) (cm_components m !! index) in
  if negb active then
    let '(r, w) := skip_nodes (pc_nodes c) w in
    Some (match r with inl e => with_error e empty_result | inr _ => empty_result end, w)
  else
  let st := mkLoop [] ∅ ∅ (replicate (length (pl_edges plan)) false) ∅ inputNodes [] in
  if negb (pc_cyclic c) then
    let id := default "" (head (pc_nodes c)) in
    let '(r, _, w) := execute (request_of id 0 inputNodes) [] w in
    Some (match r with
          | inl e => with_error e empty_result
          | inr r => let st := record_result (pn_id (model_node m id)) r st in
                     mkComponentResult (ls_edgeActive st) (ls_outputs st) (nr_rejected r) ""
          end, w)
  else
    let st := enqueue_entries (pc_incoming c) inputEdges st in
    let st := if (length (ls_queue st) =? 0)%nat && (length (pc_incoming c) =? 0)%nat
              then enqueue (default "" (head (pc_nodes c))) st else st in
    '(st, stop, w) ← component_loop (loop_fuel c) index (pc_maxIterations c) st w;
    let result := mkComponentResult (ls_edgeActive st) (ls_outputs st) false "" in
    match stop with
    | LoopError text => Some (mkComponentResult (co_edgeActive result) (co_outputs result) false text, w)
    | LoopRejected => Some (mkComponentResult (co_edgeActive result) (co_outputs result) true "", w)
    | LoopDone =>
        let '(r, w) := skip_nodes (filter (λ id, count id st = 0) (pc_nodes c)) w in
        Some (match r with inl e => with_error e result | inr _ => result end, w)
    end.
End Component.
