(* ===== verification/EngineLoop.v ===== *)
(** The queue of a cyclic component ends, executes each node at most
    [maxIterations] times, and never the same iteration of a node twice. *)

From Stdlib Require String.
From S2P Require Import Prelude.
From S2P Require Import Json.
From S2P Require Import GoStd.
From S2P Require Import Plan.
From S2P Require Import EngineModel.
From S2P Require Import EngineOrder.
From S2P Require Import EngineNode.
From S2P Require Import EngineInterp.

Local Open Scope Z_scope.

(** ** The shape of a built model *)

Definition component_nodes (m : componentModel) (i : nat) : list string := default [] (pc_nodes <$> cm_components m !! i).

Record shape (byNode : gmap string nat) (edges : list PlanEdge) (components : list planComponent) : Prop := mkShape {
  sh_member : ∀ id i, byNode !! id = Some i → ∃ c, components !! i = Some c ∧ id ∈ pc_nodes c;
  sh_incoming : ∀ i c e, components !! i = Some c → e ∈ pc_incoming c →
    ∃ edge, edges !! e = Some edge ∧ byNode !! pe_to edge = Some i;
  sh_cyclic : ∀ i c, components !! i = Some c → pc_cyclic c = true → pc_nodes c ≠ [];
  sh_bound : ∀ i c, components !! i = Some c → 1 ≤ pc_maxIterations c }.

(** A change of one component that keeps its nodes and bound. *)
Lemma shape_alter byNode edges components f i :
  shape byNode edges components →
  (∀ c, pc_nodes (f c) = pc_nodes c ∧ pc_maxIterations (f c) = pc_maxIterations c) →
  (∀ c e, components !! i = Some c → e ∈ pc_incoming (f c) →
     e ∈ pc_incoming c ∨ ∃ edge, edges !! e = Some edge ∧ byNode !! pe_to edge = Some i) →
  (∀ c, components !! i = Some c → pc_cyclic (f c) = true → pc_nodes c ≠ []) →
  shape byNode edges (alter f i components).
Proof.
  intros [H1 H2 H3 H4] Hf Hin Hcy.
  assert (∀ j c', alter f i components !! j = Some c' → ∃ c, components !! j = Some c ∧ pc_nodes c' = pc_nodes c ∧
    pc_maxIterations c' = pc_maxIterations c ∧ (c' = c ∨ j = i ∧ c' = f c)) as Hl.
  { intros j c'. rewrite list_lookup_alter. case_decide; [subst|eauto 10].
    intros (c&Hc&->)%fmap_Some. exists c. destruct (Hf c). eauto 10. }
  split.
  - intros id j Hid. destruct (H1 _ _ Hid) as (c&Hc&Hn). rewrite list_lookup_alter. case_decide; [subst|eauto].
    rewrite Hc. exists (f c). split; [done|]. by rewrite (proj1 (Hf c)).
  - intros j c' e Hc' He. destruct (Hl _ _ Hc') as (c&Hc&_&_&[->|[-> ->]]); [by eapply H2|].
    destruct (Hin _ _ Hc He); [by eapply H2|done].
  - intros j c' Hc' Hcy'. destruct (Hl _ _ Hc') as (c&Hc&->&_&[->|[-> ->]]); [by eapply H3|by eapply Hcy].
  - intros j c' Hc'. destruct (Hl _ _ Hc') as (c&Hc&_&->&_). by eapply H4.
Qed.

Lemma shape_add_edge byNode edges index e st st' :
  edges !! index = Some e → shape byNode edges (es_components st) → add_edge byNode index e st = inr st' →
  shape byNode edges (es_components st').
Proof.
  intros He H Hadd. unfold add_edge in Hadd.
  destruct (byNode !! pe_from e) as [from|] eqn:Ef; [|done]. destruct (byNode !! pe_to e) as [to|] eqn:Et; [|done].
  assert (shape byNode edges (alter (add_incoming index) to (es_components st))) as Hinc.
  { apply shape_alter; [done|done| |].
    - intros c x Hc. simpl. rewrite elem_of_app, list_elem_of_singleton. intros [?| ->]; [by left|right; eauto].
    - intros c Hc. simpl. by apply (sh_cyclic _ _ _ H to). }
  destruct (Nat.eqb_spec from to) as [->|Hne].
  - injection Hadd as <-. simpl. apply shape_alter; [done|done|auto|].
    intros c Hc _. destruct (sh_member _ _ _ H _ _ Et) as (c'&Hc'&Hin). simplify_eq. intros E. rewrite E in Hin. by apply elem_of_nil in Hin.
  - case_decide; injection Hadd as <-; simpl; [done|].
    apply shape_alter; [done|done|auto|]. intros c Hc. simpl. by apply (sh_cyclic _ _ _ Hinc to).
Qed.
Lemma shape_add_edges byNode all : ∀ edges index st st',
  drop index all = edges → shape byNode all (es_components st) → add_edges byNode index edges st = inr st' →
  shape byNode all (es_components st').
Proof.
  induction edges as [|e edges IH]; intros index st st' Hd H Hadd; simpl in Hadd; [by injection Hadd as <-|].
  apply res_bind_ok in Hadd as (st1&H1&H2).
  assert (all !! index = Some e) as He by (rewrite <- (Nat.add_0_r index), <- lookup_drop, Hd; done).
  eapply (IH (S index)); [|eapply shape_add_edge; [exact He|exact H|exact H1]|exact H2].
  rewrite <- (Nat.add_1_r index), <- drop_drop, Hd. done.
Qed.

Lemma index_nodes_shape nodes index ids : ∀ byNode maxi r,
  index_nodes nodes index ids byNode maxi = inr r →
  (∀ id i, r.1 !! id = Some i → (i = index ∧ id ∈ ids) ∨ byNode !! id = Some i) ∧ maxi ≤ r.2.
Proof.
  induction ids as [|x ids IH]; intros byNode maxi r H; simpl in H.
  - injection H as <-. split; [auto|simpl; lia].
  - destruct (nodes !! x) as [n|]; [|done]. apply IH in H as [H1 H2]. split; [|lia].
    intros id i Hi. destruct (H1 _ _ Hi) as [[-> Hin]|Hb]; [left; split; [done|by right]|].
    apply lookup_insert_Some in Hb as [[<- <-]|[_ ?]]; [left; split; [done|left]|by right].
Qed.
Lemma index_components_shape nodes lists : ∀ index byNode components r edges,
  length components = index → shape byNode edges components →
  (∀ c, c ∈ components → pc_incoming c = [] ∧ pc_cyclic c = false) →
  index_components nodes index lists byNode components = inr r → shape r.1 edges r.2.
Proof.
  induction lists as [|ids lists IH]; intros index byNode components r edges Hl [H1 H2 H3 H4] Hn H; simpl in H.
  { injection H as <-. by split. }
  apply res_bind_ok in H as (x&Hx&H). apply index_nodes_shape in Hx as [Hx1 Hx2].
  eapply (IH (S index) _ _ r edges); [| | |exact H].
  - rewrite length_app. simpl. lia.
  - assert (∀ i c, (components ++ [mkComponent (sort_strings ids) [] [] false x.2]) !! i = Some c →
      components !! i = Some c ∨ c = mkComponent (sort_strings ids) [] [] false x.2) as Hc.
    { intros i c Hc. apply lookup_app_Some in Hc as [?|[_ Hc]]; [by left|right].
      apply list_lookup_singleton_Some in Hc as [_ <-]. done. }
    split.
    + intros id i Hi. destruct (Hx1 _ _ Hi) as [[-> Hin]|Hb].
      * eexists. split; [rewrite lookup_app_r by lia; rewrite Hl, Nat.sub_diag; reflexivity|done].
      * destruct (H1 _ _ Hb) as (c&Hci&?). exists c. split; [by apply lookup_app_l_Some|done].
    + intros i c e Hci He. destruct (Hc _ _ Hci) as [?| ->]; [|by apply elem_of_nil in He].
      exfalso. destruct (Hn c) as [E _]; [by eapply list_elem_of_lookup_2|]. rewrite E in He. by apply elem_of_nil in He.
    + intros i c Hci Hcy. destruct (Hc _ _ Hci) as [?| ->]; [by eapply H3|done].
    + intros i c Hci. destruct (Hc _ _ Hci) as [?| ->]; [by eapply H4|done].
  - intros c [?|Hc]%elem_of_app; [by apply Hn|]. apply list_elem_of_singleton in Hc as ->. done.
Qed.

Lemma shape_sorted byNode edges components : shape byNode edges components → shape byNode edges (sort_predecessors components).
Proof.
  intros [H1 H2 H3 H4].
  assert (∀ i c', sort_predecessors components !! i = Some c' → ∃ c, components !! i = Some c ∧ pc_nodes c' = pc_nodes c ∧
    pc_incoming c' = pc_incoming c ∧ pc_cyclic c' = pc_cyclic c ∧ pc_maxIterations c' = pc_maxIterations c) as Hs.
  { intros i c'. unfold sort_predecessors. rewrite list_lookup_fmap. intros (c&Hc&->)%fmap_Some. by exists c. }
  split.
  - intros id i Hi. destruct (H1 _ _ Hi) as (c&Hc&?). unfold sort_predecessors. rewrite list_lookup_fmap, Hc. eexists. by split.
  - intros i c' e Hc' He. destruct (Hs _ _ Hc') as (c&Hc&_&Ei&_). rewrite Ei in He. by eapply H2.
  - intros i c' Hc' He. destruct (Hs _ _ Hc') as (c&Hc&->&_&Ec&_). rewrite Ec in He. by eapply H3.
  - intros i c' Hc'. destruct (Hs _ _ Hc') as (c&Hc&_&_&_&->). by eapply H4.
Qed.

Lemma buildComponentModel_shape plan m :
  buildComponentModel plan = inr m → shape (cm_componentByNode m) (pl_edges plan) (cm_components m).
Proof.
  unfold buildComponentModel. intros H. apply res_bind_ok in H as ([byNode components]&Hr&H).
  apply res_bind_ok in H as (st&Hst&H).
  assert (shape byNode (pl_edges plan) components) as Hs.
  { apply (index_components_shape (plan_nodes plan) (component_lists plan) 0 ∅ [] (byNode, components)); [done| |set_solver|done].
    split; [intros id i; by rewrite lookup_empty|..]; intros i c; rewrite lookup_nil; done. }
  eapply shape_add_edges in Hst; [|done|exact Hs].
  destruct (order_components _ _ _ _ _ _) as [order|]; [|done]. destruct (_ =? _)%nat; [|done].
  injection H as <-. by apply shape_sorted.
Qed.

(** ** The queue *)

Section Loop.
Context (plan : ExecutionPlan) (m : componentModel) (index : nat) (c : planComponent).
Hypothesis members : ∀ id, cm_componentByNode m !! id = Some index → id ∈ pc_nodes c.
Hypothesis bound : 1 ≤ pc_maxIterations c.

Record loop_ok (st : loopState) : Prop := mkLoopOk {
  lo_nodup : NoDup (ls_queue st);
  lo_queued : ∀ id, id ∈ ls_queued st ↔ id ∈ ls_queue st;
  lo_nodes : ∀ id, id ∈ ls_queue st → id ∈ pc_nodes c;
  lo_counts : ∀ id, 0 ≤ count id st ≤ pc_maxIterations c }.

(** Executions the component has left. *)
Definition remaining (st : loopState) : nat :=
  sum_list_with (λ id, Z.to_nat (pc_maxIterations c - count id st)) (pc_nodes c).
Definition loop_measure (st : loopState) : nat := (remaining st * S (length (pc_nodes c)) + length (ls_queue st))%nat.

Lemma enqueue_ok id st : loop_ok st → id ∈ pc_nodes c → id ∉ ls_queued st → loop_ok (enqueue id st).
Proof.
  intros [H1 H2 H3 H4] Hid Hq. split; simpl.
  - apply NoDup_app. split_and!; [done| |apply NoDup_singleton]. intros x Hx ->%list_elem_of_singleton. by apply Hq, H2.
  - intros x. rewrite elem_of_union, elem_of_singleton, elem_of_app, list_elem_of_singleton, H2. tauto.
  - intros x. rewrite elem_of_app, list_elem_of_singleton. intros [?| ->]; [by apply H3|done].
  - done.
Qed.

Lemma enqueue_targets_ok positions : ∀ activated st, loop_ok st →
  loop_ok (enqueue_targets plan m index (pc_maxIterations c) positions activated st) ∧
  ls_counts (enqueue_targets plan m index (pc_maxIterations c) positions activated st) = ls_counts st.
Proof.
  induction positions as [|e positions IH]; intros activated st H; simpl; [done|].
  set (target := match pl_edges plan !! e with Some edge => pe_to edge | None => "" end).
  destruct (match activated with a :: l => (a, l) | [] => (false, []) end) as [a rest].
  destruct (a && _ && _ && _) eqn:E; [|by apply IH].
  rewrite !andb_true_iff, negb_true_iff, bool_decide_eq_true, bool_decide_eq_false in E.
  destruct E as [[[_ Hm] _] Hq]. destruct (IH rest (enqueue target st)) as [H1 H2].
  { apply enqueue_ok; [done|by apply members|done]. }
  split; [done|]. by rewrite H2.
Qed.

Lemma enqueue_entries_ok incoming inputEdges : ∀ st,
  (∀ e, e ∈ incoming → ∃ edge, pl_edges plan !! e = Some edge ∧ cm_componentByNode m !! pe_to edge = Some index) →
  loop_ok st → loop_ok (enqueue_entries plan incoming inputEdges st) ∧
  ls_counts (enqueue_entries plan incoming inputEdges st) = ls_counts st.
Proof.
  induction incoming as [|e incoming IH]; intros st He H; simpl; [done|].
  destruct (He e) as (edge&Ee&Hm); [left|]. rewrite Ee.
  assert (∀ e, e ∈ incoming → ∃ edge, pl_edges plan !! e = Some edge ∧ cm_componentByNode m !! pe_to edge = Some index) as He'
    by (intros; apply He; by right).
  destruct (default false _ && _) eqn:E; [|by apply IH].
  rewrite andb_true_iff, negb_true_iff, bool_decide_eq_false in E. destruct E as [_ Hq].
  destruct (IH (enqueue (pe_to edge) st)) as [H1 H2]; [done|apply enqueue_ok; [done|by apply members|done]|].
  split; [done|]. by rewrite H2.
Qed.

Lemma queue_length st : loop_ok st → (length (ls_queue st) ≤ length (pc_nodes c))%nat.
Proof. intros H. apply submseteq_length, NoDup_submseteq; [apply H|apply H]. Qed.

Lemma remaining_le st : loop_ok st → (remaining st ≤ length (pc_nodes c) * Z.to_nat (pc_maxIterations c))%nat.
Proof.
  intros H. unfold remaining. pose proof (lo_counts _ H) as Hc. revert Hc. generalize (pc_maxIterations c). clear. intros k Hc.
  induction (pc_nodes c) as [|x l IH]; simpl; [lia|]. specialize (Hc x).
  assert (Z.to_nat (k - count x st) ≤ Z.to_nat k)%nat by lia. lia.
Qed.

Lemma remaining_counts st st' : ls_counts st' = ls_counts st → remaining st' = remaining st.
Proof. intros E. unfold remaining, count. by rewrite E. Qed.

Lemma remaining_visit st st' id :
  id ∈ pc_nodes c → count id st < pc_maxIterations c → ls_counts st' = <[id := count id st + 1]> (ls_counts st) →
  (remaining st' < remaining st)%nat.
Proof.
  intros Hid Hc E. unfold remaining.
  assert (∀ x, count x st' = if decide (x = id) then count id st + 1 else count x st) as Hx.
  { intros x. unfold count at 1. rewrite E. case_decide; [subst; by rewrite lookup_insert_eq|by rewrite lookup_insert_ne]. }
  assert (∀ l, (sum_list_with (λ x, Z.to_nat (pc_maxIterations c - count x st')) l ≤
                sum_list_with (λ x, Z.to_nat (pc_maxIterations c - count x st)) l)%nat) as Hle.
  { induction l as [|x l IH]; simpl; [done|]. rewrite Hx. case_decide; subst; lia. }
  clear -Hid Hc Hx Hle. induction (pc_nodes c) as [|x l IH]; [by apply elem_of_nil in Hid|]. simpl.
  apply elem_of_cons in Hid as [<-|Hid].
  - specialize (Hle l). rewrite (Hx id), decide_True by done. lia.
  - specialize (IH Hid). rewrite Hx. case_decide; subst; lia.
Qed.

(** One queue entry leaves the queue. *)
Definition dequeued (id : string) (queue : list string) (st : loopState) : loopState :=
  mkLoop queue (ls_queued st ∖ {[id]}) (ls_counts st) (ls_edgeActive st) (ls_outputs st) (ls_local st) (ls_seen st).
Lemma dequeued_ok id queue st : loop_ok st → ls_queue st = id :: queue → loop_ok (dequeued id queue st).
Proof.
  intros [H1 H2 H3 H4] E. rewrite E in *. apply NoDup_cons in H1 as [Hni H1]. split; simpl.
  - done.
  - intros x. rewrite elem_of_difference, elem_of_singleton, H2, elem_of_cons.
    split; [intros [[->|?] ?]; done|]. intros Hx. split; [by right|]. by intros ->.
  - intros x Hx. apply H3. by right.
  - done.
Qed.
(** ... and is executed. *)
Definition visited (id : string) (seen : list string) (st : loopState) : loopState :=
  mkLoop (ls_queue st) (ls_queued st) (<[id := count id st + 1]> (ls_counts st)) (ls_edgeActive st) (ls_outputs st) (ls_local st) seen.
Lemma visited_ok id seen st : loop_ok st → count id st < pc_maxIterations c → loop_ok (visited id seen st).
Proof.
  intros [H1 H2 H3 H4] Hc. split; simpl; [done|done|done|]. intros x. unfold count at 1 2. simpl.
  destruct (decide (x = id)) as [->|]; [rewrite lookup_insert_eq; simpl; specialize (H4 id); lia|].
  rewrite lookup_insert_ne by done. apply H4.
Qed.
Lemma record_ok id r st : loop_ok st → loop_ok (record_result m id r st).
Proof. intros [H1 H2 H3 H4]. by split. Qed.

Context {W : Type} (execute : NodeRequest → list string → W → (res NodeResult * list string) * W).
Context (runUID : string) (input : string).

Lemma component_loop_total fuel : ∀ st w,
  loop_ok st → (loop_measure st ≤ fuel)%nat →
  is_Some (component_loop execute runUID plan input m fuel index (pc_maxIterations c) st w).
Proof.
  induction fuel as [|fuel IH]; intros st w H Hm.
  - unfold loop_measure in Hm. simpl. destruct (ls_queue st) eqn:E; [done|]. simpl in Hm. lia.
  - simpl. destruct (ls_queue st) as [|id queue] eqn:E; [done|]. fold (dequeued id queue st).
    pose proof (dequeued_ok _ _ _ H E) as Hd.
    assert (id ∈ pc_nodes c) as Hid by (apply (lo_nodes _ H); rewrite E; left).
    unfold loop_measure in Hm. rewrite E in Hm. simpl in Hm.
    assert (remaining (dequeued id queue st) = remaining st) as Er by (by apply remaining_counts).
    destruct (pc_maxIterations c <=? count id (dequeued id queue st)) eqn:Ec.
    + apply IH; [done|]. unfold loop_measure. rewrite Er. simpl. lia.
    + destruct (execute _ _ _) as [[r seen] w']. destruct r as [e|r]; [done|].
      destruct (nr_rejected r); [done|].
      assert (count id (dequeued id queue st) < pc_maxIterations c) as Hc by lia.
      pose proof (visited_ok id seen _ Hd Hc) as Hv.
      set (st' := record_result m id r (visited id seen (dequeued id queue st))).
      destruct (enqueue_targets_ok (outgoing m id) (nr_activated r) st') as [Ho Hk]; [by apply record_ok|].
      change (is_Some (component_loop execute runUID plan input m fuel index (pc_maxIterations c)
        (enqueue_targets plan m index (pc_maxIterations c) (outgoing m id) (nr_activated r) st') w')).
      apply IH; [exact Ho|]. unfold loop_measure. rewrite (remaining_counts _ _ Hk).
      assert (remaining st' < remaining st)%nat as Hlt.
      { rewrite <- Er. by eapply remaining_visit. }
      pose proof (queue_length _ Ho). nia.
Qed.
End Loop.

#[local] Arguments component_loop : simpl never.

(** The start of a cyclic component: its queue holds members only. *)
Lemma loop_start plan m index c inputEdges inputNodes :
  buildComponentModel plan = inr m → cm_components m !! index = Some c → pc_cyclic c = true →
  let st := enqueue_entries plan (pc_incoming c) inputEdges
              (mkLoop [] ∅ ∅ (replicate (length (pl_edges plan)) false) ∅ inputNodes []) in
  let st := if ((length (ls_queue st) =? 0)%nat && (length (pc_incoming c) =? 0)%nat) : bool
            then enqueue (default "" (head (pc_nodes c))) st else st in
  loop_ok c st ∧ ls_counts st = ∅.
Proof.
  intros Hm Ec Ecy st1 st2. pose proof (buildComponentModel_shape _ _ Hm) as Hs.
  assert (∀ id, cm_componentByNode m !! id = Some index → id ∈ pc_nodes c) as Hmem.
  { intros id Hid. destruct (sh_member _ _ _ Hs _ _ Hid) as (c'&?&?). by simplify_eq. }
  pose proof (sh_bound _ _ _ Hs _ _ Ec) as Hb.
  destruct (enqueue_entries_ok plan m index c Hmem (pc_incoming c) inputEdges
    (mkLoop [] ∅ ∅ (replicate (length (pl_edges plan)) false) ∅ inputNodes [])) as [H1 H2].
  { intros e He. destruct (sh_incoming _ _ _ Hs _ _ _ Ec He) as (edge&?&?). eauto. }
  { split; simpl; [apply NoDup_nil_2|set_solver|set_solver|]. intros id. unfold count. simpl. rewrite lookup_empty. simpl. lia. }
  fold st1 in H1, H2. unfold st2. destruct (_ && _) eqn:E; [|done].
  apply andb_true_iff in E as [E _]. apply Nat.eqb_eq, length_zero_iff_nil in E. split; [|done].
  apply enqueue_ok; [done| |].
  - pose proof (sh_cyclic _ _ _ Hs _ _ Ec Ecy) as Hne. destruct (pc_nodes c); [done|left].
  - rewrite (lo_queued _ _ H1), E. apply not_elem_of_nil.
Qed.

(** A component of a built model always produces a result. *)
Lemma executePlanComponent_total {W} execute skip run plan input m index active inputEdges inputNodes (w : W) :
  buildComponentModel plan = inr m →
  is_Some (executePlanComponent execute skip run plan input m index active inputEdges inputNodes w).
Proof.
  intros Hm. pose proof (buildComponentModel_shape _ _ Hm) as Hs. unfold executePlanComponent.
  destruct active; simpl; [|destruct (skip_nodes _ _ _ _) as [[|] ?]; done].
  destruct (cm_components m !! index) as [c|] eqn:Ec; simpl; [|destruct (execute _ _ _) as [[[|] ?] ?]; done].
  destruct (pc_cyclic c) eqn:Ecy; simpl; [|destruct (execute _ _ _) as [[[|] ?] ?]; done].
  assert (∀ id, cm_componentByNode m !! id = Some index → id ∈ pc_nodes c) as Hmem.
  { intros id Hid. destruct (sh_member _ _ _ Hs _ _ Hid) as (c'&?&?). by simplify_eq. }
  destruct (loop_start plan m index c inputEdges inputNodes Hm Ec Ecy) as [H0 _]. cbv zeta in *.
  match goal with |- context [component_loop _ _ _ _ _ _ _ _ ?x _] => set (st := x) in * end.
  destruct (component_loop_total plan m index c Hmem execute run input (loop_fuel c) st w H0) as [[[st' stop] w'] E].
  { unfold loop_measure, loop_fuel. pose proof (queue_length _ _ H0). pose proof (remaining_le _ _ H0) as Hr.
    apply (Nat.mul_le_mono_r _ _ (S (length (pc_nodes c)))) in Hr. lia. }
  rewrite E. simpl. destruct stop; [destruct (skip_nodes _ _ _ _) as [[|] ?]; done|done|done].
Qed.

(** ** Executions of a component *)

(** Component nodes are nodes of the plan, filed under their own id. *)
Lemma plan_nodes_id plan id n : plan_nodes plan !! id = Some n → pn_id n = id.
Proof.
  unfold plan_nodes. assert (∀ l (m : gmap string PlanNode), (∀ id n, m !! id = Some n → pn_id n = id) →
    ∀ id n, fold_left (λ m n, <[pn_id n := n]> m) l m !! id = Some n → pn_id n = id) as H.
  { induction l as [|x l IH]; intros m Hm; simpl; [done|]. apply IH. intros i y.
    rewrite lookup_insert_Some. intros [[<- <-]|[_ ?]]; [done|by apply Hm]. }
  apply H. intros i y. by rewrite lookup_empty.
Qed.
Lemma index_nodes_known nodes index ids : ∀ byNode maxi r,
  index_nodes nodes index ids byNode maxi = inr r → ∀ id, id ∈ ids → is_Some (nodes !! id).
Proof.
  induction ids as [|x ids IH]; intros byNode maxi r H id Hid; simpl in H; [by apply elem_of_nil in Hid|].
  destruct (nodes !! x) as [n|] eqn:E; [|done]. apply elem_of_cons in Hid as [->|Hid]; [by rewrite E|by eapply IH].
Qed.
Lemma index_components_known nodes lists : ∀ index byNode components r,
  (∀ c id, c ∈ components → id ∈ pc_nodes c → is_Some (nodes !! id)) →
  index_components nodes index lists byNode components = inr r →
  ∀ c id, c ∈ r.2 → id ∈ pc_nodes c → is_Some (nodes !! id).
Proof.
  induction lists as [|ids lists IH]; intros index byNode components r Hc H; simpl in H; [by injection H as <-|].
  apply res_bind_ok in H as (x&Hx&H). eapply IH; [|exact H].
  intros c id [Hin|Hin]%elem_of_app; [by eapply Hc|]. apply list_elem_of_singleton in Hin as ->. simpl. by eapply index_nodes_known.
Qed.
Lemma add_edge_nodes byNode index e st st' : add_edge byNode index e st = inr st' →
  pc_nodes <$> es_components st' = pc_nodes <$> es_components st.
Proof.
  assert (∀ f i (l : list planComponent), (∀ c, pc_nodes (f c) = pc_nodes c) → pc_nodes <$> alter f i l = pc_nodes <$> l) as Ha.
  { intros f i l Hf. revert i. induction l as [|c l IH]; intros [|i]; simpl; [done|done|by rewrite Hf|]. f_equal. apply IH. }
  unfold add_edge. intros H. repeat case_match; try done; injection H as <-; simpl; by rewrite ?Ha.
Qed.
Lemma add_edges_nodes byNode edges : ∀ index st st', add_edges byNode index edges st = inr st' →
  pc_nodes <$> es_components st' = pc_nodes <$> es_components st.
Proof.
  induction edges as [|e edges IH]; intros index st st' H; simpl in H; [by injection H as <-|].
  apply res_bind_ok in H as (st1&H1&H2). rewrite (IH _ _ _ H2). by eapply add_edge_nodes.
Qed.

Lemma buildComponentModel_known plan m i id :
  buildComponentModel plan = inr m → id ∈ component_nodes m i → pn_id (model_node m id) = id.
Proof.
  unfold buildComponentModel. intros H. apply res_bind_ok in H as ([byNode components]&Hr&H).
  apply res_bind_ok in H as (st&Hst&H). apply add_edges_nodes in Hst. simpl in Hst.
  assert (∀ c id, c ∈ components → id ∈ pc_nodes c → is_Some (plan_nodes plan !! id)) as Hk.
  { intros c x. apply (index_components_known (plan_nodes plan) (component_lists plan) 0 ∅ [] (byNode, components)); [|done]. intros y ? Hy. by apply elem_of_nil in Hy. }
  destruct (order_components _ _ _ _ _ _) as [order|]; [|done]. destruct (_ =? _)%nat; [|done].
  injection H as <-. unfold component_nodes, model_node, sort_predecessors. simpl. rewrite list_lookup_fmap.
  destruct (es_components st !! i) as [c|] eqn:Ec; simpl; [|intros Hid; by apply elem_of_nil in Hid]. intros Hid.
  assert ((pc_nodes <$> es_components st) !! i = Some (pc_nodes c)) as E by (by rewrite list_lookup_fmap, Ec).
  rewrite Hst, list_lookup_fmap in E. apply fmap_Some in E as (c'&Hc'&E). rewrite E in Hid.
  destruct (Hk c' id) as [n Hn]; [by eapply list_elem_of_lookup_2|done|]. rewrite Hn. simpl. by eapply plan_nodes_id.
Qed.

Section Trace.
Context {W : Type} (execute : NodeRequest → list string → W → (res NodeResult * list string) * W)
  (skip : string → string → W → res unit * W).
Abbreviation log := (list (string * Z)).

(** The runtime, recording the node and iteration of every execution. *)
Definition logged (request : NodeRequest) (seen : list string) (w : W * log) : (res NodeResult * list string) * (W * log) :=
  let '(r, w') := execute request seen w.1 in (r, (w', w.2 ++ [(pn_id (nq_node request), nq_iteration request)])).
Definition logged_skip (run node : string) (w : W * log) : res unit * (W * log) :=
  let '(r, w') := skip run node w.1 in (r, (w', w.2)).

(** The log has exactly the iterations counted so far. *)
Definition log_ok (c : planComponent) (log0 : log) (st : loopState) (w : W * log) : Prop :=
  ∃ new, w.2 = log0 ++ new ∧ NoDup new ∧ (∀ id i, (id, i) ∈ new ↔ 0 ≤ i < count id st) ∧
    ∀ id i, (id, i) ∈ new → id ∈ pc_nodes c.

Context (run : string) (plan : ExecutionPlan) (input : string) (m : componentModel) (index : nat) (c : planComponent).
Hypothesis members : ∀ id, cm_componentByNode m !! id = Some index → id ∈ pc_nodes c.
Hypothesis names : ∀ id, id ∈ pc_nodes c → pn_id (model_node m id) = id.

Lemma log_visit log0 st st' w id r w' :
  log_ok c log0 st w → 0 ≤ count id st → id ∈ pc_nodes c → ls_counts st' = <[id := count id st + 1]> (ls_counts st) →
  logged (request_of run plan input m id (count id st) (ls_local st)) (ls_seen st) w = (r, w') → log_ok c log0 st' w'.
Proof.
  intros (new&Ew&Hnd&Hin&Hmem) Hpos Hid Es Hl. unfold logged in Hl. destruct (execute _ _ _) as [r' w1]. injection Hl as _ <-.
  exists (new ++ [(id, count id st)]). simpl. rewrite names, Ew, <- app_assoc by done. split_and!.
  - done.
  - apply NoDup_app. split_and!; [done| |apply NoDup_singleton]. intros x Hx ->%list_elem_of_singleton. apply Hin in Hx. lia.
  - intros x i. rewrite elem_of_app, list_elem_of_singleton, Hin.
    assert (count x st' = if decide (x = id) then count id st + 1 else count x st) as ->.
    { unfold count at 1. rewrite Es. case_decide; [subst; by rewrite lookup_insert_eq|by rewrite lookup_insert_ne]. }
    case_decide as Hx; [subst x|].
    + split; [intros [?|[= ->]]; lia|]. intros Hi. destruct (decide (i = count id st)) as [->|]; [by right|left; lia].
    + split; [intros [?|[= -> _]]; done|by left].
  - intros x i. rewrite elem_of_app, list_elem_of_singleton. intros [?|[= -> _]]; [by eapply Hmem|done].
Qed.
Lemma log_counts log0 st st' w : ls_counts st' = ls_counts st → log_ok c log0 st w → log_ok c log0 st' w.
Proof. intros E (new&?&?&Hin&?). exists new. split_and!; try done. intros id i. rewrite Hin. unfold count. by rewrite E. Qed.

Lemma component_loop_trace log0 fuel : ∀ st w st' stop w',
  loop_ok c st → log_ok c log0 st w →
  component_loop logged run plan input m fuel index (pc_maxIterations c) st w = Some (st', stop, w') →
  log_ok c log0 st' w' ∧ ∀ id, count id st' ≤ pc_maxIterations c.
Proof.
  induction fuel as [|fuel IH]; intros st w st' stop w' H Hlog Hr; unfold component_loop in Hr; fold (@component_loop (W * log)) in Hr;
    destruct (ls_queue st) as [|id queue] eqn:E; try done.
  1-2: injection Hr as <- _ <-; split; [done|intros; apply (lo_counts _ _ H)].
  fold (dequeued id queue st) in Hr. pose proof (dequeued_ok _ _ _ _ H E) as Hd.
  assert (id ∈ pc_nodes c) as Hid by (apply (lo_nodes _ _ H); rewrite E; left).
  destruct (pc_maxIterations c <=? count id (dequeued id queue st)) eqn:Ec.
  { eapply IH; [exact Hd| |exact Hr]. by eapply log_counts. }
  destruct (logged _ _ w) as [[r seen] w1] eqn:Hl.
  assert (count id (dequeued id queue st) < pc_maxIterations c) as Hc by lia.
  pose proof (visited_ok _ id seen _ Hd Hc) as Hv.
  assert (log_ok c log0 (visited id seen (dequeued id queue st)) w1) as Hlv.
  { eapply (log_visit log0 (dequeued id queue st)); [by eapply log_counts|apply (lo_counts _ _ Hd)|done|reflexivity|exact Hl]. }
  fold (visited id seen (dequeued id queue st)) in Hr.
  destruct r as [e|r]; [injection Hr as <- _ <-; split; [done|intros; apply (lo_counts _ _ Hv)]|].
  pose proof (record_ok m c id r _ Hv) as Hrec.
  destruct (nr_rejected r).
  { injection Hr as <- _ <-. split; [by eapply log_counts|intros; apply (lo_counts _ _ Hrec)]. }
  destruct (enqueue_targets_ok plan m index c members (outgoing m id) (nr_activated r) _ Hrec) as [Ho Hk].
  eapply IH; [exact Ho| |exact Hr]. eapply log_counts; [exact Hk|]. eapply log_counts; [|exact Hlv]. reflexivity.
Qed.
End Trace.

Section ComponentTrace.
Context {W : Type} (execute : NodeRequest → list string → W → (res NodeResult * list string) * W)
  (skip : string → string → W → res unit * W).
Context (run : string) (plan : ExecutionPlan) (input : string) (m : componentModel).

Lemma skip_nodes_log ids : ∀ w, (skip_nodes (logged_skip skip) run ids w).2.2 = w.2.
Proof.
  induction ids as [|id ids IH]; intros w; simpl; [done|].
  destruct (logged_skip skip run id w) as [r w'] eqn:E. unfold logged_skip in E.
  destruct (skip run id w.1) as [r' w1]. injection E as <- <-. destruct r'; simpl; [done|by rewrite IH].
Qed.

(** Whatever the activities return, a component executes nodes of its own, each
    iteration of a node at most once and below the loop bound. *)
Lemma component_executions index c active inputEdges inputNodes w log0 r w' log' :
  buildComponentModel plan = inr m → cm_components m !! index = Some c → pc_nodes c ≠ [] →
  executePlanComponent (logged execute) (logged_skip skip) run plan input m index active inputEdges inputNodes (w, log0)
    = Some (r, (w', log')) →
  ∃ new, log' = log0 ++ new ∧ NoDup new ∧
    ∀ id i, (id, i) ∈ new → id ∈ pc_nodes c ∧ 0 ≤ i < pc_maxIterations c.
Proof.
  intros Hm Ec Hne Hr. pose proof (buildComponentModel_shape _ _ Hm) as Hs.
  pose proof (sh_bound _ _ _ Hs _ _ Ec) as Hb.
  assert (∀ id, cm_componentByNode m !! id = Some index → id ∈ pc_nodes c) as Hmem.
  { intros id Hid. destruct (sh_member _ _ _ Hs _ _ Hid) as (c'&?&?). by simplify_eq. }
  assert (∀ id, id ∈ pc_nodes c → pn_id (model_node m id) = id) as Hnames.
  { intros id Hid. eapply buildComponentModel_known; [done|]. unfold component_nodes. by rewrite Ec. }
  unfold executePlanComponent in Hr. rewrite Ec in Hr. simpl in Hr. cbv zeta in Hr. destruct active; simpl in Hr.
  2:{ pose proof (skip_nodes_log (pc_nodes c) (w, log0)) as Hl. destruct (skip_nodes _ _ _ _) as [? [w1 l1]].
      injection Hr as _ _ <-. simpl in Hl. exists []. rewrite app_nil_r. split_and!; [done|apply NoDup_nil_2|].
      intros id i Hin. by apply elem_of_nil in Hin. }
  destruct (pc_cyclic c) eqn:Ecy; simpl in Hr.
  - destruct (loop_start plan m index c inputEdges inputNodes Hm Ec Ecy) as [H0 Hz].
    match type of Hr with context [component_loop _ _ _ _ _ _ _ _ ?x _] => set (st0 := x) in * end.
    change (loop_ok c st0) in H0. change (ls_counts st0 = ∅) in Hz.
    destruct (component_loop _ _ _ _ _ _ _ _ _ _) as [[[st stop] w1]|] eqn:El; [|done].
    apply (component_loop_trace _ _ _ _ _ _ _ Hmem Hnames log0) in El as [(new&Ew&Hnd&Hin&Hin') Hc]; [|done|].
    2:{ exists []. rewrite app_nil_r. split_and!; [done|apply NoDup_nil_2| |].
        - intros id i. unfold count. rewrite Hz, lookup_empty. simpl. split; [intros Hx; by apply elem_of_nil in Hx|lia].
        - intros id i Hx. by apply elem_of_nil in Hx. }
    exists new. assert (log' = w1.2) as ->.
    { simpl in Hr. destruct stop; [|by injection Hr as _ ->|by injection Hr as _ ->].
      pose proof (skip_nodes_log (filter (λ id, count id st = 0) (pc_nodes c)) w1) as Hl.
      destruct (skip_nodes _ _ _ _) as [? w2]. simpl in Hl. injection Hr as _ ->. done. }
    split_and!; [done|done|]. intros id i Hx. split; [by eapply Hin'|]. apply Hin in Hx. specialize (Hc id). lia.
  - assert (log' = log0 ++ [(pn_id (model_node m (default "" (head (pc_nodes c)))), 0)]) as ->.
    { unfold logged in Hr. simpl in Hr. destruct (execute _ _ _) as [[[e|nr] seen] w1]; simpl in Hr; congruence. }
    exists [(pn_id (model_node m (default "" (head (pc_nodes c)))), 0)].
    destruct (pc_nodes c) as [|x l]; [done|]. simpl. rewrite Hnames by left.
    split_and!; [done|apply NoDup_singleton|]. intros id i Hx. apply list_elem_of_singleton in Hx. simplify_eq. split; [left|lia].
Qed.
End ComponentTrace.
