(* ===== verification/EngineSched.v ===== *)
(** [InterpreterWorkflow] of [internal/engine/engine.go]: the scheduler that
    admits ready components up to [MaxParallel], receives their completions and
    ends the run.

    Components run concurrently, so the scheduler is a step relation: a running
    component may finish at any time and put its completion in the buffered
    channel, and the workflow receives completions in channel order.  Between two
    receives the workflow is sequential and its code is a function. *)

From Stdlib Require String.
From S2P Require Import Prelude.
From S2P Require Import Json.
From S2P Require Import GoStd.
From S2P Require Import Plan.
From S2P Require Import EngineModel.
From S2P Require Import EngineOrder.
From S2P Require Import EngineNode.
From S2P Require Import EngineInterp.

Local Open Scope nat_scope.

(** The arguments a component was started with. *)
Record admitted := mkAdmitted { ad_index : nat; ad_active : bool; ad_edges : list bool; ad_nodes : gmap string json }.

Record scheduler := mkScheduler {
  sc_pending : list nat; sc_completed : list bool;
  sc_executing : list admitted; sc_completions : list (nat * componentResult); sc_active : nat;
  sc_edgeActive : list bool; sc_outputs : gmap string json;
  sc_stopAdmission : bool; sc_firstError : string; sc_rejected : bool;
  (** activities the workflow itself has run, newest last *)
  sc_activities : list Activity }.

Inductive outcome := RunSucceeded | RunRejected | RunFailed (text : string).
Inductive status :=
  | Waiting (st : scheduler)
  | Finished (o : outcome) (st : scheduler)
  | Deadlocked (st : scheduler)
  | Panicked.

Section Scheduler.
Context (runUID : string) (plan : ExecutionPlan) (m : componentModel).

Definition maxParallel : nat := if (pl_maxParallel plan <=? 0)%Z then 1 else Z.to_nat (pl_maxParallel plan).

Definition initial_scheduler : scheduler :=
  mkScheduler (cm_order m) (replicate (length (cm_components m)) false) [] [] 0
    (replicate (length (pl_edges plan)) false) ∅ false "" false [].

(** [for active < maxParallel]: every round takes one pending component. *)
Definition admit_one (position : nat) (st : scheduler) : scheduler :=
  let index := default 0 (sc_pending st !! position) in
  mkScheduler (take position (sc_pending st) ++ drop (S position) (sc_pending st)) (sc_completed st)
    (sc_executing st ++ [mkAdmitted index (componentActive m index (sc_edgeActive st)) (sc_edgeActive st) (sc_outputs st)])
    (sc_completions st) (S (sc_active st)) (sc_edgeActive st) (sc_outputs st)
    (sc_stopAdmission st) (sc_firstError st) (sc_rejected st) (sc_activities st).
Fixpoint admit_ready (fuel : nat) (st : scheduler) : scheduler :=
  match fuel with
  | O => st
  | S fuel =>
      if sc_active st <? maxParallel then
        match nextReady m (sc_pending st) (sc_completed st) with
        | None => st
        | Some position => admit_ready fuel (admit_one position st)
        end
      else st
  end.

Definition conclude (st : scheduler) : status :=
  if negb (String.eqb (sc_firstError st) "") then Finished (RunFailed (sc_firstError st)) st
  else if sc_rejected st then Finished RunRejected st
  else Finished RunSucceeded st.

(** The loop condition, the admissions and the deadlock check. *)
Definition loop_head (st : scheduler) : status :=
  if (length (sc_pending st) =? 0) && (sc_active st =? 0) then conclude st else
  let st := if sc_stopAdmission st then st else admit_ready (length (sc_pending st)) st in
  if sc_active st =? 0 then (if sc_stopAdmission st then conclude st else Deadlocked st)
  else Waiting st.

(** [edgeActive[i] = true] for every edge the component activated. *)
Definition merge_edges (activated edgeActive : list bool) : list bool :=
  imap (λ i b, b || default false (activated !! i)) edgeActive.

(** The loop body after [Receive]. *)
Definition receive (index : nat) (r : componentResult) (st : scheduler) : scheduler :=
  let completed := <[index := true]> (sc_completed st) in
  let active := sc_active st - 1 in
  if negb (String.eqb (co_errorText r) "") then
    if String.eqb (sc_firstError st) "" then
      mkScheduler (sc_pending st) completed (sc_executing st) (sc_completions st) active (sc_edgeActive st) (sc_outputs st)
        true (co_errorText r) (sc_rejected st) (sc_activities st ++ [ActCancelCalls runUID "parallel component failed"])
    else
      mkScheduler (sc_pending st) completed (sc_executing st) (sc_completions st) active (sc_edgeActive st) (sc_outputs st)
        (sc_stopAdmission st) (sc_firstError st) (sc_rejected st) (sc_activities st)
  else
    let edges := merge_edges (co_edgeActive r) (sc_edgeActive st) in
    let outputs := co_outputs r ∪ sc_outputs st in
    if co_rejected r && negb (sc_rejected st) then
      mkScheduler (sc_pending st) completed (sc_executing st) (sc_completions st) active edges outputs
        true (sc_firstError st) true (sc_activities st ++ [ActCancelCalls runUID "parallel approval rejected"])
    else
      mkScheduler (sc_pending st) completed (sc_executing st) (sc_completions st) active edges outputs
        (sc_stopAdmission st) (sc_firstError st) (sc_rejected st) (sc_activities st).

(** The activity that ends the run. *)
Definition final_activity (o : outcome) : Activity :=
  match o with
  | RunFailed text => ActFailRun runUID text
  | RunRejected => ActCompleteRun runUID "rejected"
  | RunSucceeded => ActCompleteRun runUID "succeeded"
  end.

Definition with_completions (executing : list admitted) (completions : list (nat * componentResult)) (st : scheduler) : scheduler :=
  mkScheduler (sc_pending st) (sc_completed st) executing completions (sc_active st) (sc_edgeActive st) (sc_outputs st)
    (sc_stopAdmission st) (sc_firstError st) (sc_rejected st) (sc_activities st).

(** [component_result a r]: started as [a], the component can produce [r]. *)
Context (component_result : admitted → componentResult → Prop).

(** The label lists the completions received. *)
Inductive sched_step : status → list nat → status → Prop :=
  | sched_finish st l1 a l2 r :
      sc_executing st = l1 ++ a :: l2 → component_result a r → length (sc_completions st) < maxParallel →
      sched_step (Waiting st) []
        (Waiting (with_completions (l1 ++ l2) (sc_completions st ++ [(ad_index a, r)]) st))
  | sched_panic st l1 a l2 r :
      sc_executing st = l1 ++ a :: l2 → component_result a r → maxParallel ≤ length (sc_completions st) →
      sched_step (Waiting st) [] Panicked
  | sched_receive st index r rest :
      sc_completions st = (index, r) :: rest →
      sched_step (Waiting st) [index] (loop_head (receive index r (with_completions (sc_executing st) rest st))).

Inductive sched_run : status → list nat → status → Prop :=
  | run_nil s : sched_run s [] s
  | run_snoc s t1 s1 t2 s2 : sched_run s t1 s1 → sched_step s1 t2 s2 → sched_run s (t1 ++ t2) s2.

Definition sched_start : status := loop_head initial_scheduler.
End Scheduler.

(** [InterpreterWorkflow] up to its first wait: a plan without a component model
    fails the run. *)
Definition InterpreterWorkflow (runUID : string) (plan : ExecutionPlan) : Activity + status :=
  match buildComponentModel plan with
  | inl e => inl (ActFailRun runUID (error_text e))
  | inr m => inr (sched_start plan m)
  end.

(** * The scheduler of [InterpreterWorkflow]: it never deadlocks, never overfills
       its completion channel, starts a component only after its predecessors and
       at most once, and ends. *)

Local Open Scope nat_scope.

Lemma sublist_before {A} (i : A) rest l1 l2 p :
  sublist (i :: rest) (l1 ++ i :: l2) → NoDup (l1 ++ i :: l2) → p ∈ l1 → p ∉ i :: rest.
Proof.
  induction l1 as [|x l1 IH]; intros Hs Hnd Hp; [by apply elem_of_nil in Hp|]. simpl in *.
  apply NoDup_cons in Hnd as [Hx Hnd].
  assert (x ≠ i) as Hne by (intros ->; apply Hx; rewrite elem_of_app; right; left).
  assert (sublist (i :: rest) (l1 ++ i :: l2)) as Hs'.
  { inversion Hs as [|? ? ? Hs'|? ? ? Hs']; subst; [by destruct Hne|done]. }
  apply elem_of_cons in Hp as [->|Hp]; [|by apply IH].
  intros Hin. apply Hx. by eapply elem_of_sublist.
Qed.

Lemma nextReady_from_some components pending completed : ∀ position k,
  nextReady_from components pending completed position = Some k →
  ∃ j i, k = position + j ∧ pending !! j = Some i ∧
    ∀ p, p ∈ default [] (pc_predecessors <$> components !! i) → completed !! p = Some true.
Proof.
  induction pending as [|x pending IH]; intros position k H; simpl in H; [done|].
  destruct (forallb _ _) eqn:E.
  - injection H as <-. exists 0, x. split_and!; [lia|done|]. intros p Hp.
    rewrite forallb_forall in E. specialize (E p (proj1 (list_elem_of_In _ _) Hp)).
    destruct (completed !! p) as [[]|]; done.
  - apply IH in H as (j&i&->&?&?). exists (S j), i. split_and!; [lia|done|done].
Qed.
Lemma nextReady_from_none components pending completed position i :
  nextReady_from components pending completed position = None → i ∈ pending →
  ¬ ∀ p, p ∈ default [] (pc_predecessors <$> components !! i) → completed !! p = Some true.
Proof.
  revert position. induction pending as [|x pending IH]; intros position H Hi Hp; simpl in H; [by apply elem_of_nil in Hi|].
  destruct (forallb _ _) eqn:E; [done|]. apply elem_of_cons in Hi as [->|Hi]; [|by eapply IH].
  assert (forallb (λ p, default false (completed !! p)) (default [] (pc_predecessors <$> components !! x)) = true); [|congruence].
  apply forallb_forall. intros p Hin. rewrite (Hp p) by (by apply list_elem_of_In). done.
Qed.

Section Safety.
Context (runUID : string) (plan : ExecutionPlan) (m : componentModel).
Hypothesis built : buildComponentModel plan = inr m.

Abbreviation order := (cm_order m).
Abbreviation indices st := ((ad_index <$> sc_executing st) ++ (fst <$> sc_completions st)).

(** The invariant: [received] are the completions so far, in order. *)
Record sched_ok (received : list nat) (st : scheduler) : Prop := mkSchedOk {
  so_partition : sc_pending st ++ indices st ++ received ≡ₚ order;
  so_completed_length : length (sc_completed st) = length (cm_components m);
  so_completed : ∀ i, sc_completed st !! i = Some true ↔ i ∈ received;
  so_active : sc_active st = length (sc_executing st) + length (sc_completions st);
  so_max : sc_active st ≤ maxParallel plan;
  so_pending : sublist (sc_pending st) order;
  so_started : ∀ i p, i ∈ indices st → p ∈ predecessors m i → p ∈ received;
  so_topological : topological (predecessors m) received;
  so_stop : sc_stopAdmission st = true ↔ sc_firstError st ≠ "" ∨ sc_rejected st = true }.

Lemma order_nodup : NoDup order.
Proof. rewrite (mo_permutation _ _ (buildComponentModel_ok _ _ built)). apply NoDup_seq. Qed.
Lemma order_bound i : i ∈ order ↔ i < length (cm_components m).
Proof. rewrite (mo_permutation _ _ (buildComponentModel_ok _ _ built)), elem_of_seq. lia. Qed.
Lemma maxParallel_pos : 1 ≤ maxParallel plan.
Proof. unfold maxParallel. destruct (Z.leb_spec (pl_maxParallel plan) 0); lia. Qed.

Lemma initial_ok : sched_ok [] (initial_scheduler plan m).
Proof.
  split; simpl.
  - by rewrite app_nil_r.
  - by rewrite length_replicate.
  - intros i. rewrite lookup_replicate. split; [by intros [[=] _]|intros Hi; by apply elem_of_nil in Hi].
  - done.
  - lia.
  - done.
  - intros i p Hi. by apply elem_of_nil in Hi.
  - intros l1 d l2 E. by destruct l1.
  - split; [done|by intros [?|?]].
Qed.

Lemma admit_one_ok received position i st :
  sched_ok received st → sc_active st < maxParallel plan → sc_pending st !! position = Some i →
  (∀ p, p ∈ predecessors m i → sc_completed st !! p = Some true) → sched_ok received (admit_one m position st).
Proof.
  intros [H1 H2 H3 H4 H5 H6 H7 H8 H9] Ha Hi Hp. unfold admit_one. rewrite Hi. simpl.
  pose proof (take_drop_middle _ _ _ Hi) as Hd.
  split; simpl; rewrite ?length_app; simpl; [|done|done|lia|lia| | |done|done].
  - rewrite <- H1. rewrite <- Hd at 3. rewrite fmap_app. simpl. solve_Permutation.
  - etrans; [|exact H6]. rewrite <- Hd at 3. apply sublist_app; [done|]. by apply sublist_cons.
  - intros j p. rewrite fmap_app, !elem_of_app. simpl. rewrite list_elem_of_singleton.
    intros [[Hj| ->]|Hj] Hpj; [|by apply H3, Hp|]; eapply H7; try done; rewrite elem_of_app; auto.
Qed.

Lemma admit_ok received fuel : ∀ st, sched_ok received st → sched_ok received (admit_ready plan m fuel st).
Proof.
  induction fuel as [|fuel IH]; intros st H; simpl; [done|]. destruct (Nat.ltb_spec (sc_active st) (maxParallel plan)); [|done].
  destruct (nextReady _ _ _) as [k|] eqn:E; [|done]. apply IH. unfold nextReady in E.
  apply nextReady_from_some in E as (j&i&->&Hj&Hp). simpl. by eapply admit_one_ok.
Qed.

(** With nothing running, the first pending component is ready. *)
Lemma ready_exists received st :
  sched_ok received st → sc_active st = 0 → sc_pending st ≠ [] → nextReady m (sc_pending st) (sc_completed st) ≠ None.
Proof.
  intros [H1 H2 H3 H4 H5 H6 H7 H8 H9] Ha Hne E. destruct (sc_pending st) as [|i rest] eqn:Ep; [done|].
  rewrite Ha in H4. assert (sc_executing st = [] ∧ sc_completions st = []) as [He Hc].
  { destruct (sc_executing st), (sc_completions st); simpl in H4; (done || lia). }
  rewrite He, Hc in H1. simpl in H1.
  apply (nextReady_from_none _ _ _ _ i) in E; [|left]. apply E. intros p Hp. apply H3.
  assert (i ∈ order) as Hi by (rewrite <- H1; left).
  apply list_elem_of_split in Hi as (l1&l2&Eo).
  pose proof (mo_topological _ _ (buildComponentModel_ok _ _ built) _ _ _ Eo p Hp) as Hl1.
  assert (p ∈ order) as Hpo by (rewrite Eo, elem_of_app; by left).
  rewrite <- H1 in Hpo. change (p ∈ (i :: rest) ++ received) in Hpo. apply elem_of_app in Hpo as [Hpo|?]; [|done].
  exfalso. rewrite Eo in H6. pose proof order_nodup as Hnd. rewrite Eo in Hnd. by eapply sublist_before.
Qed.

Lemma admit_active fuel : ∀ st, sc_active st ≤ sc_active (admit_ready plan m fuel st).
Proof.
  induction fuel as [|fuel IH]; intros st; simpl; [done|]. destruct (_ <? _); [|done].
  destruct (nextReady _ _ _) as [k|]; [|done]. specialize (IH (admit_one m k st)). simpl in IH. lia.
Qed.
Lemma admit_progress received st :
  sched_ok received st → sc_active st = 0 → sc_pending st ≠ [] → 1 ≤ sc_active (admit_ready plan m (length (sc_pending st)) st).
Proof.
  intros H Ha Hne. pose proof (ready_exists _ _ H Ha Hne) as Hr.
  destruct (length (sc_pending st)) as [|fuel] eqn:El; [by apply length_zero_iff_nil in El|]. simpl.
  pose proof maxParallel_pos. destruct (Nat.ltb_spec (sc_active st) (maxParallel plan)); [|lia].
  destruct (nextReady _ _ _) as [k|]; [|done]. pose proof (admit_active fuel (admit_one m k st)) as Hl. simpl in Hl. lia.
Qed.

(** What a status promises. *)
Definition status_ok (received : list nat) (s : status) : Prop :=
  match s with
  | Waiting st => sched_ok received st ∧ 1 ≤ sc_active st
  | Finished o st => sched_ok received st ∧ sc_executing st = [] ∧ sc_completions st = [] ∧
      match o with
      | RunSucceeded => received ≡ₚ order ∧ sc_firstError st = "" ∧ sc_rejected st = false
      | RunRejected => sc_rejected st = true ∧ sc_firstError st = ""
      | RunFailed text => text = sc_firstError st ∧ text ≠ ""
      end
  | Deadlocked _ | Panicked => False
  end.

Lemma inactive_empty received st : sched_ok received st → sc_active st = 0 → sc_executing st = [] ∧ sc_completions st = [].
Proof.
  intros H Ha. pose proof (so_active _ _ H) as E. rewrite Ha in E.
  destruct (sc_executing st), (sc_completions st); simpl in E; (done || lia).
Qed.

Lemma conclude_ok received st :
  sched_ok received st → sc_active st = 0 → (sc_stopAdmission st = true ∨ sc_pending st = []) → status_ok received (conclude st).
Proof.
  intros H Ha Hor. destruct (inactive_empty _ _ H Ha) as [He Hc]. unfold conclude.
  destruct (String.eqb_spec (sc_firstError st) "") as [Ef|Ef]; simpl; [|done].
  destruct (sc_rejected st) eqn:Er; simpl; [done|]. split_and!; try done.
  assert (sc_pending st = []) as Hp.
  { destruct Hor as [Hs|?]; [|done]. apply (so_stop _ _ H) in Hs as [?|?]; congruence. }
  pose proof (so_partition _ _ H) as Hperm. by rewrite Hp, He, Hc in Hperm.
Qed.

Lemma loop_head_ok received st : sched_ok received st → status_ok received (loop_head plan m st).
Proof.
  intros H. unfold loop_head.
  destruct (Nat.eqb_spec (length (sc_pending st)) 0) as [E1|E1]; destruct (Nat.eqb_spec (sc_active st) 0) as [E2|E2]; simpl.
  1: { apply conclude_ok; [done|done|right]. by apply length_zero_iff_nil. }
  all: destruct (sc_stopAdmission st) eqn:Es.
  all: try (destruct (Nat.eqb_spec (sc_active st) 0); [lia|]; split; [done|lia]).
  - pose proof (admit_active (length (sc_pending st)) st). destruct (Nat.eqb_spec (sc_active (admit_ready plan m (length (sc_pending st)) st)) 0); [lia|].
    split; [by apply admit_ok|lia].
  - rewrite E2, Es. simpl. apply conclude_ok; auto.
  - assert (sc_pending st ≠ []) as Hne by (intros Hn; by rewrite Hn in E1).
    pose proof (admit_progress _ _ H E2 Hne). destruct (Nat.eqb_spec (sc_active (admit_ready plan m (length (sc_pending st)) st)) 0); [lia|].
    split; [by apply admit_ok|lia].
  - pose proof (admit_active (length (sc_pending st)) st). destruct (Nat.eqb_spec (sc_active (admit_ready plan m (length (sc_pending st)) st)) 0); [lia|].
    split; [by apply admit_ok|lia].
Qed.

(** *** Steps *)

Lemma finish_ok received st l1 a l2 r :
  sched_ok received st → sc_executing st = l1 ++ a :: l2 →
  sched_ok received (with_completions (l1 ++ l2) (sc_completions st ++ [(ad_index a, r)]) st).
Proof.
  intros [H1 H2 H3 H4 H5 H6 H7 H8 H9] E. rewrite E in *.
  assert ((ad_index <$> l1 ++ l2) ++ (fst <$> sc_completions st ++ [(ad_index a, r)])
    ≡ₚ (ad_index <$> l1 ++ a :: l2) ++ (fst <$> sc_completions st)) as Hp.
  { rewrite !fmap_app, !fmap_cons. simpl. solve_Permutation. }
  split; simpl; [|done|done| |done|done| |done|done].
  - by rewrite Hp.
  - rewrite H4, !length_app. simpl. lia.
  - intros i p. rewrite Hp. apply H7.
Qed.

(** The parts of [receive] that depend on the result. *)
Definition receive_rest (r : componentResult) (st st' : scheduler) : Prop :=
  sc_pending st' = sc_pending st ∧ sc_executing st' = sc_executing st ∧ sc_completions st' = sc_completions st ∧
  sc_active st' = sc_active st - 1 ∧
  (sc_stopAdmission st' = true ↔ sc_firstError st' ≠ "" ∨ sc_rejected st' = true) ∧
  (sc_stopAdmission st = true → sc_stopAdmission st' = true).
Lemma receive_fields index r st :
  (sc_stopAdmission st = true ↔ sc_firstError st ≠ "" ∨ sc_rejected st = true) →
  receive_rest r st (receive runUID index r st) ∧ sc_completed (receive runUID index r st) = <[index := true]> (sc_completed st).
Proof.
  intros Hs. unfold receive_rest, receive.
  destruct (String.eqb_spec (co_errorText r) ""); simpl.
  - destruct (co_rejected r && negb (sc_rejected st)) eqn:E; simpl; split_and!; try done; tauto.
  - destruct (String.eqb_spec (sc_firstError st) ""); simpl; split_and!; try done; tauto.
Qed.

Lemma receive_ok received st index r rest :
  sched_ok received st → sc_completions st = (index, r) :: rest →
  sched_ok (received ++ [index]) (receive runUID index r (with_completions (sc_executing st) rest st)).
Proof.
  intros [H1 H2 H3 H4 H5 H6 H7 H8 H9] E. rewrite E in *.
  destruct (receive_fields index r (with_completions (sc_executing st) rest st) H9) as [(F1&F2&F3&F4&F5&_) F7]. simpl in *.
  assert (index ∈ order) as Hin.
  { rewrite <- H1, !elem_of_app, elem_of_cons. auto. }
  split; rewrite ?F1, ?F2, ?F3, ?F4, ?F7; [| | | | |done| | |exact F5].
  - rewrite <- H1. solve_Permutation.
  - by rewrite length_insert.
  - intros i. rewrite elem_of_app, list_elem_of_singleton. destruct (decide (i = index)) as [->|Hne].
    + rewrite list_lookup_insert_eq by (rewrite H2; by apply order_bound). split; [by right|done].
    + rewrite list_lookup_insert_ne by done. rewrite H3. split; [by left|]. by intros [?| ->].
  - rewrite H4. simpl. lia.
  - lia.
  - intros i p Hi Hp. rewrite elem_of_app. left. eapply H7; [|exact Hp]. rewrite elem_of_app in *. rewrite elem_of_cons. tauto.
  - apply topological_snoc; [done|]. intros p Hp. eapply H7; [|exact Hp]. rewrite elem_of_app, elem_of_cons. auto.
Qed.

Context (component_result : admitted → componentResult → Prop).
Abbreviation step := (sched_step runUID plan m component_result).
Abbreviation run := (sched_run runUID plan m component_result).

Lemma step_ok received s t s' : status_ok received s → step s t s' → status_ok (received ++ t) s'.
Proof.
  intros H Hs. destruct Hs as [st l1 a l2 r E Hr Hc|st l1 a l2 r E Hr Hc|st index r rest E]; destruct H as [H Ha].
  - rewrite app_nil_r. split; [by apply finish_ok|done].
  - pose proof (so_active _ _ H) as Hact. pose proof (so_max _ _ H). rewrite E, length_app in Hact. simpl in Hact. lia.
  - by apply loop_head_ok, receive_ok.
Qed.
Lemma run_ok t s : run (sched_start plan m) t s → status_ok t s.
Proof.
  assert (∀ s0 t s, run s0 t s → s0 = sched_start plan m → status_ok t s) as H; [|intros; by eapply H].
  induction 1 as [s0|s0 t1 s1 t2 s2 H IH Hs]; intros ->.
  - apply loop_head_ok, initial_ok.
  - eapply step_ok; [by apply IH|done].
Qed.

(** *** Termination *)

Definition sched_measure (st : scheduler) : nat :=
  3 * length (sc_pending st) + 2 * length (sc_executing st) + length (sc_completions st).
Definition status_measure (s : status) : nat := match s with Waiting st => S (sched_measure st) | _ => 0 end.

Lemma nextReady_position pending completed k : nextReady m pending completed = Some k → k < length pending.
Proof.
  unfold nextReady. intros H. apply nextReady_from_some in H as (j&i&->&Hj&_). simpl. by eapply lookup_lt_Some.
Qed.
Lemma admit_measure fuel : ∀ st, sched_measure (admit_ready plan m fuel st) ≤ sched_measure st.
Proof.
  induction fuel as [|fuel IH]; intros st; simpl; [done|]. destruct (_ <? _); [|done].
  destruct (nextReady _ _ _) as [k|] eqn:E; [|done]. apply nextReady_position in E.
  etrans; [apply IH|]. unfold sched_measure. simpl. rewrite !length_app, length_take, length_drop. simpl. lia.
Qed.
Lemma loop_head_measure st : status_measure (loop_head plan m st) ≤ S (sched_measure st).
Proof.
  assert (∀ st, status_measure (conclude st) = 0) as Hc.
  { intros st'. unfold conclude. repeat case_match; done. }
  unfold loop_head. pose proof (admit_measure (length (sc_pending st)) st).
  repeat case_match; rewrite ?Hc; simpl in *; lia.
Qed.
Lemma receive_measure index r st : sched_measure (receive runUID index r st) = sched_measure st.
Proof. unfold receive, sched_measure. by repeat case_match. Qed.

Lemma step_measure s t s' : step s t s' → status_measure s' < status_measure s.
Proof.
  destruct 1 as [st l1 a l2 r E Hr Hc|st l1 a l2 r E Hr Hc|st index r rest E].
  - simpl. unfold sched_measure. simpl. rewrite E, !length_app. simpl. lia.
  - simpl. lia.
  - eapply Nat.le_lt_trans; [apply loop_head_measure|]. rewrite receive_measure.
    unfold status_measure, sched_measure. rewrite E. simpl. lia.
Qed.
Lemma step_acc s : Acc (λ s' s, ∃ t, step s t s') s.
Proof.
  apply (Wf_nat.well_founded_lt_compat _ status_measure). intros x y [t Hs]. by eapply step_measure.
Qed.

(** A run that waits can go on. *)
Lemma waiting_steps received st :
  (∀ a, ∃ r, component_result a r) → status_ok received (Waiting st) → ∃ t s', step (Waiting st) t s'.
Proof.
  intros Hr [H Ha]. pose proof (so_active _ _ H) as Hact.
  destruct (sc_completions st) as [|[index r] rest] eqn:Ec.
  - destruct (sc_executing st) as [|a l] eqn:Ee; [simpl in Hact; lia|]. destruct (Hr a) as [r Hra].
    exists [], (Waiting (with_completions l [(ad_index a, r)] st)).
    pose proof (sched_finish runUID plan m component_result st [] a l r Ee Hra) as Hf. rewrite Ec in Hf. apply Hf.
    simpl. pose proof maxParallel_pos. lia.
  - exists [index]. eexists. by apply sched_receive with (rest := rest).
Qed.

(** After a failure or a rejection nothing is admitted. *)
Lemma stopped_admits_nothing st t st' :
  sc_stopAdmission st = true → (sc_stopAdmission st = true ↔ sc_firstError st ≠ "" ∨ sc_rejected st = true) →
  step (Waiting st) t (Waiting st') → sc_pending st' = sc_pending st ∧ sc_stopAdmission st' = true.
Proof.
  intros Hs Hiff H. inversion H as [? l1 a l2 r E Hr Hc|?|? index r rest E]; subst; [done|].
  destruct (receive_fields index r (with_completions (sc_executing st) rest st) Hiff) as [(F1&F2&F3&F4&F5&F6) _].
  specialize (F6 Hs). match goal with Hl : loop_head _ _ _ = Waiting st' |- _ => revert Hl end. unfold loop_head. rewrite F6.
  destruct (_ && _); [unfold conclude; repeat case_match; done|].
  destruct (_ =? _); [rewrite F6; unfold conclude; repeat case_match; done|]. intros [= <-]. done.
Qed.
End Safety.
