(* ===== verification/EngineAdapter.v ===== *)
(** [internal/engine/engine.go], the [Adapter]: idempotent start, signals,
    cancellation and the redelivery of durable decisions, over the go-workflows
    client ([WorkflowClient], a parameter).

    Wrapping an error with [%w] keeps what [errors.Is] finds: [wrap] and
    [join_errors] keep [ErrNotFound].  [Start] reads the store before and after
    it creates the instance; other goroutines may write in between, so the two
    reads have their own database. *)

From Stdlib Require String.
From S2P Require Import Prelude.
From S2P Require Import Json.
From S2P Require Import GoStd.
From S2P Require Import Plan.
From S2P Require Import Db.
From S2P Require Import StoreRuns.
From S2P Require Import EngineNode.
From S2P Require Import EngineInterp.

Local Open Scope Z_scope.

Definition wrap (prefix : string) (e : Err) : Err :=
  match e with ErrNotFound => ErrNotFound | _ => ErrMsg (prefix +:+ error_text e) end.
(** [errors.Join]: nil when every error is. *)
Definition join_errors (a b : option Err) : res unit :=
  match a, b with
  | None, None => ok tt
  | Some e, None | None, Some e => fail e
  | Some ErrNotFound, Some _ | Some _, Some ErrNotFound => fail ErrNotFound
  | Some e1, Some e2 => fail (ErrMsg (error_text e1 +:+ String (Ascii.ascii_of_nat 10) (error_text e2)))
  end.
Definition res_error {A} (r : res A) : option Err := match r with inl e => Some e | inr _ => None end.

Inductive Signal := SigApproval (s : ApprovalSignal) | SigEvent (s : EventSignal).

(** The go-workflows client and diagnostics backend over a state [E]. *)
Class WorkflowClient (E : Type) := mkClient {
  GetWorkflowInstances : nat → E → res (list string);
  CreateWorkflowInstance : string → ExecutionPlan → string → E → res unit * E;
  CancelWorkflowInstance : string → E → res unit * E;
  SignalWorkflow : string → string → Signal → E → res unit * E;
  (** the executor's [CancelRun], when it has one *)
  CancelRun : option (string → string → E → res unit * E) }.

Section Adapter.
Context {E : Type} {client : WorkflowClient E}.

(** The first 1000 instances are searched. *)
Definition findInstance (run : string) (e : E) : res unit :=
  instances ← GetWorkflowInstances 1000 e;
  if existsb (String.eqb run) instances then ok tt else fail ErrNotFound.

Definition cancelCreatedRunIfRequested (run : string) (s : Db) (e : E) : res unit * E :=
  match result (GetRun run) s with
  | inl err => (fail err, e)
  | inr r =>
      if negb (String.eqb (run_phase r) "cancelled") then (ok tt, e) else
      match findInstance run e with
      | inl err => (fail err, e)
      | inr _ => CancelWorkflowInstance run e
      end
  end.

(** [s] is read before the instance is created and [s'] after. *)
Definition Start (run : string) (plan : ExecutionPlan) (input : string) (s s' : Db) (e : E) : res unit * E :=
  match result (GetRun run) s with
  | inl err => (fail err, e)
  | inr r =>
      if String.eqb (run_phase r) "cancelled" then (ok tt, e) else
      match findInstance run e with
      | inr _ => (ok tt, e)
      | inl ErrNotFound =>
          let '(created, e) := CreateWorkflowInstance run plan input e in
          match created with
          | inr _ => cancelCreatedRunIfRequested run s' e
          | inl err =>
              match findInstance run e with
              | inr _ => (ok tt, e)
              | inl _ => (fail (wrap "create interpreter instance: " err), e)
              end
          end
      | inl err => (fail err, e)
      end
  end.

Definition SignalApproval (run node : string) (signal : ApprovalSignal) (e : E) : res unit * E :=
  SignalWorkflow run (approvalSignalName node) (SigApproval signal) e.
Definition SignalEvent (run node : string) (signal : EventSignal) (e : E) : res unit * E :=
  SignalWorkflow run (eventSignalName node) (SigEvent signal) e.

Definition Cancel (run reason : string) (e : E) : res unit * E :=
  let '(provider, e) := match CancelRun with None => (ok tt, e) | Some f => f run reason e end in
  match findInstance run e with
  | inl err => (fail (match res_error provider with Some p => wrap "cancel provider calls: " p | None => err end), e)
  | inr _ =>
      let '(cancelled, e) := CancelWorkflowInstance run e in
      (join_errors (res_error provider) (res_error cancelled), e)
  end.

(** *** Reconcile *)

Fixpoint redeliver_approvals (signals : list (string * string * string * string)) (s : Db) (e : E) : res unit * (Db * E) :=
  match signals with
  | [] => (ok tt, (s, e))
  | (run, node, state, reason) :: signals =>
      let '(sent, e) := SignalApproval run node (mkApproval state reason) e in
      match sent with
      | inl err => (fail (wrap ("redeliver approval " +:+ run +:+ "/" +:+ node +:+ ": ") err), (s, e))
      | inr _ =>
          match MarkApprovalSignaled run node s with
          | inl err => (fail err, (s, e))
          | inr (_, s) => redeliver_approvals signals s e
          end
      end
  end.

Fixpoint redeliver_cancellations (cancellations : list (string * string)) (now : string) (s : Db) (e : E) : res unit * (Db * E) :=
  match cancellations with
  | [] => (ok tt, (s, e))
  | (run, reason) :: cancellations =>
      let '(cancelled, e) := Cancel run reason e in
      match cancelled with
      | inl ErrNotFound =>
          match MarkRunCancellationDeliveredIfStartImpossible run now s with
          | inl err => (fail err, (s, e))
          | inr (_, s) => redeliver_cancellations cancellations now s e
          end
      | inl err => (fail (wrap ("redeliver cancellation " +:+ run +:+ ": ") err), (s, e))
      | inr _ =>
          match MarkRunCancellationDelivered run now s with
          | inl err => (fail err, (s, e))
          | inr (_, s) => redeliver_cancellations cancellations now s e
          end
      end
  end.

Definition Reconcile (now : string) (s : Db) (e : E) : res unit * (Db * E) :=
  match result (UndeliveredApprovalSignals 100) s with
  | inl err => (fail err, (s, e))
  | inr signals =>
      let '(r, (s, e)) := redeliver_approvals signals s e in
      match r with
      | inl err => (fail err, (s, e))
      | inr _ =>
          match result (UndeliveredRunCancellations 100) s with
          | inl err => (fail err, (s, e))
          | inr cancellations => redeliver_cancellations cancellations now s e
          end
      end
  end.
End Adapter.
