(* ===== verification/Orchestrator.v ===== *)
(** [internal/orchestrator/orchestrator.go] and [internal/health/health.go]: the
    control loop that accepts occurrences with a compiled plan, dispatches the
    durable outbox and keeps the health diagnostics.

    The compiler, the input validation and the durable engine are the interfaces
    [FlowCompiler] and [DurableEngine]; [internal/engine]'s [Adapter] is the
    instance [adapter_engine].  [fault] is the crash-test hook: an error there
    leaves the loop as a crash at that boundary would. *)

From Stdlib Require String.
From S2P Require Import Prelude.
From S2P Require Import Json.
From S2P Require Import GoStd.
From S2P Require Import Resource.
From S2P Require Import Plan.
From S2P Require Import Db.
From S2P Require Import StoreRuns.
From S2P Require Import StoreResources.
From S2P Require Import StoreOutbox.
From S2P Require Import EngineNode.
From S2P Require Import EngineAdapter.

Local Open Scope Z_scope.

(** ** Health *)

Record HealthDiagnostic := mkHealth { hd_path : string; hd_code : string; hd_message : string }.
Definition Tracker := gmap string HealthDiagnostic.
Definition Set_ (component : string) (d : HealthDiagnostic) (t : Tracker) : Tracker := <[component := d]> t.
Definition Clear (component : string) (t : Tracker) : Tracker := delete component t.
Definition Has (component : string) (t : Tracker) : bool := bool_decide (is_Some (t !! component)).
Definition Snapshot (t : Tracker) : list HealthDiagnostic :=
  omap (λ c, t !! c) (sort_strings (fst <$> map_to_list t)).

Definition health (component code message : string) (path : string) (t : Tracker) : Tracker :=
  Set_ component (mkHealth path code message) t.
Definition saturated : Tracker → Tracker :=
  health "capacity" "saturated" "configured active Run capacity is saturated; accepted work remains queued" "capacity/runs".
Definition starting : Tracker :=
  health "outbox" "starting" "outbox reconciliation has not completed" "outbox"
    (health "engine" "starting" "durable engine reconciliation has not completed" "engine" ∅).

(** ** Interfaces *)

(** [flow.Compiler.Compile] and [flow.ValidateRunInput]. *)
Class FlowCompiler := mkCompiler {
  Compile : ObjectMeta * FlowSpec → ExecutionPlan * list Diagnostic;
  ValidateRunInput : ExecutionPlan → string → res unit }.

(** [engine.DurableEngine]: the store it reads before and after its own effect. *)
Class DurableEngine (E : Type) := mkEngine {
  engine_Start : string → ExecutionPlan → string → Db → Db → E → res unit * E;
  engine_SignalEvent : string → string → EventSignal → E → res unit * E;
  engine_Reconcile : string → Db → E → res unit * (Db * E) }.

#[export] Instance adapter_engine {E} `{!WorkflowClient E} : DurableEngine E :=
  { engine_Start := Start; engine_SignalEvent := SignalEvent; engine_Reconcile := Reconcile }.

Inductive Boundary := AfterReceipt | AfterRun | AfterEngine.

Section Orchestrator.
Context {cal : Calendar} {compiler : FlowCompiler} {E : Type} {engine : DurableEngine E}.
Context (fault : Boundary → option Err) (maxActiveRuns : Z).

(** [o.hit]. *)
Definition hit (b : Boundary) : res unit := match fault b with Some e => fail e | None => ok tt end.

(** *** Acceptance *)

Definition compileCurrentFlow (flowName namespace : string) (s : Db) : res ExecutionPlan :=
  doc ← match result (Get "Flow" namespace flowName) s with
        | inl e => fail (wrap "resolve flow: " e) | inr d => ok d end;
  flow ← DecodeFlow doc;
  let '(plan, diagnostics) := Compile flow in
  match List.find IsError diagnostics with
  | Some d => fail (ErrMsg ("flow compile failed: " +:+ dg_message d +:+ " at " +:+ dg_path d))
  | None => ok plan
  end.

Definition plan_and_input (flowName namespace input : string) (s : Db) : res ExecutionPlan :=
  plan ← compileCurrentFlow flowName namespace s;
  _ ← ValidateRunInput plan input;
  ok plan.

(** [s] is read for the lookup and the compilation, [s'] is the database of the
    acceptance transaction. *)
Definition AcceptTrigger (trigger : string) (generation : Z) (occurrence flowName namespace input : string)
    (deduplicated : bool) (fr fu now : string) (s s' : Db) : res (Receipt * Db) :=
  match lookup_receipt trigger occurrence s with
  | Some r => ok (mark_existing r, s')
  | None =>
      plan ← plan_and_input flowName namespace input s;
      AcceptTriggerWithPlan trigger generation occurrence flowName namespace input deduplicated plan fr fu now s'
  end.
Definition AcceptProviderTrigger (trigger : string) (generation : Z) (occurrence flowName namespace input cursor : string)
    (fr fu now : string) (s s' : Db) : res (Receipt * Db) :=
  match lookup_receipt trigger occurrence s with
  | Some _ => StoreOutbox.AcceptProviderTrigger trigger generation occurrence flowName namespace input cursor fr fu now s'
  | None =>
      plan ← plan_and_input flowName namespace input s;
      AcceptProviderTriggerWithPlan trigger generation occurrence flowName namespace input cursor plan fr fu now s'
  end.
Definition StartManual (flowName namespace input key : string) (freshKey fr fu now : string) (s s' : Db) : res Receipt * Db :=
  let deduplicated := negb (String.eqb key "") in
  let key := valueOr key freshKey in
  match AcceptTrigger ("manual:" +:+ namespace +:+ ":" +:+ flowName) 0 key flowName namespace input deduplicated fr fu now s s' with
  | inl e => (fail e, s')
  | inr (receipt, s) => (_ ← hit AfterReceipt; ok receipt, s)
  end.
Definition AcceptProviderSignal : string → Z → string → string → string → string → string → string → string → string → string → Tx Receipt :=
  StoreOutbox.AcceptProviderSignal.

(** *** Dispatch *)

Record world := mkWorld { w_db : Db; w_engine : E; w_health : Tracker }.
Definition with_db (s : Db) (w : world) : world := mkWorld s (w_engine w) (w_health w).
Definition with_health (f : Tracker → Tracker) (w : world) : world := mkWorld (w_db w) (w_engine w) (f (w_health w)).

(** [_ = o.store.RetryOutbox(...)] and return the cause. *)
Definition retry (id : Z) (cause : Err) (delay nowTime : Z) (w : world) : res unit * world :=
  (fail cause, with_db (commit (RetryOutbox id (error_text cause) delay nowTime) (w_db w)) w).
Definition complete (id nowTime : Z) (w : world) : res unit * world :=
  match CompleteOutbox id (rfc3339nano nowTime) (w_db w) with
  | inl e => (fail e, w) | inr (_, s) => (ok tt, with_db s w) end.

Definition capacityRetryAfter : Z := second.

(** The plan of the command: pinned, or compiled for a command without one. *)
Definition command_plan (p : StartPayload) (s : Db) : res ExecutionPlan :=
  if negb (String.eqb (sp_planHash p) "") then result (GetPlan (sp_planHash p)) s
  else compileCurrentFlow (sp_flowName p) (sp_namespace p) s.

(** A run that does not exist yet needs a free slot. *)
Definition has_capacity (p : StartPayload) (s : Db) : bool :=
  match db_runs s !! sp_run p with
  | Some _ => true
  | None => match result (CountActiveRunsExcluding (sp_run p)) s with
            | inr active => negb (maxActiveRuns <=? active) | inl _ => true end
  end.

Definition start_engine (id : Z) (p : StartPayload) (plan : ExecutionPlan) (after : Db → Db) (nowTime : Z) (w : world) : res unit * world :=
  match hit AfterRun with
  | inl e => (fail e, w)
  | inr _ =>
      match CompleteStartIfRunCancelled id (sp_run p) (rfc3339nano nowTime) (w_db w) with
      | inl e => retry id e second nowTime w
      | inr (true, s) => (ok tt, with_db s w)
      | inr (false, s) =>
          let w := with_db s w in
          let '(r, e) := engine_Start (sp_run p) plan (sp_input p) s (after s) (w_engine w) in
          let w := mkWorld (after s) e (w_health w) in
          match r with
          | inl err => retry id err second nowTime w
          | inr _ =>
              match hit AfterEngine with
              | inl err => (fail err, w)
              | inr _ => complete id nowTime w
              end
          end
      end
  end.

(** [after] is what other goroutines did to the store while the engine started
    the run. *)
Definition reconcileStart (id : Z) (p : StartPayload) (after : Db → Db) (nowTime : Z) (w : world) : res unit * world :=
  let now := rfc3339nano nowTime in
  match command_plan p (w_db w) with
  | inl e => retry id e second nowTime w
  | inr plan =>
      if negb (has_capacity p (w_db w)) then retry id ErrRunCapacity capacityRetryAfter nowTime (with_health saturated w) else
      let w := with_health (Clear "capacity") w in
      match EnsureRun p plan now (w_db w) with
      | inl e => retry id e second nowTime w
      | inr (created, s) =>
          let w := with_db s w in
          if created then start_engine id p plan after nowTime w else
          match result (GetRun (sp_run p)) s with
          | inl e => retry id e second nowTime w
          | inr r =>
              match result (GetPlan (run_plan r)) s with
              | inl e => retry id e second nowTime w
              | inr plan => start_engine id p plan after nowTime w
              end
          end
      end
  end.

Definition reconcileSignal (id : Z) (p : SignalPayload) (nowTime : Z) (w : world) : res unit * world :=
  let '(r, e) := engine_SignalEvent (sg_run p) (sg_node p) (mkEvent (sg_providerEventID p) (sg_payload p)) (w_engine w) in
  let w := mkWorld (w_db w) e (w_health w) in
  match r with
  | inl err => retry id err second nowTime w
  | inr _ => match hit AfterEngine with inl err => (fail err, w) | inr _ => complete id nowTime w end
  end.

Definition claimStaleAfter : Z := 5 * second.
Definition ReconcileOne (after : Db → Db) (nowTime : Z) (w : world) : res unit * world :=
  match ClaimNext nowTime claimStaleAfter (w_db w) with
  | inl e => (fail e, w)
  | inr (command, s) =>
      match ob_payload command with
      | StartRun p => reconcileStart (ob_id command) p after nowTime (with_db s w)
      | SignalRun p => reconcileSignal (ob_id command) p nowTime (with_db s w)
      end
  end.

(** *** The loop *)

Definition observeOutbox (r : res unit) (w : world) : world :=
  match r with
  | inr _ => with_health (Clear "outbox") w
  | inl ErrRunCapacity => w
  | inl ErrNotFound =>
      match result InspectOutboxStatus (w_db w) with
      | inl _ => with_health (health "outbox" "state_unavailable" "outbox state is unavailable; inspect daemon logs" "outbox") w
      | inr st =>
          if 0 <? os_failed st
          then with_health (health "outbox" "retry_pending" "one or more outbox commands are waiting after a failed delivery" "outbox") w
          else if (os_active st =? 0) || negb (Has "outbox" (w_health w)) then with_health (Clear "outbox") w else w
      end
  | inl _ => with_health (health "outbox" "reconcile_failed" "outbox reconciliation failed; inspect daemon logs" "outbox") w
  end.

(** One turn of [loop], for a context that is not cancelled. *)
Definition loop_turn (after : Db → Db) (nowTime : Z) (w : world) : world :=
  let '(r, w) := ReconcileOne after nowTime w in
  let w := observeOutbox r w in
  let '(r, (s, e)) := engine_Reconcile (rfc3339nano nowTime) (w_db w) (w_engine w) in
  let w := mkWorld s e (w_health w) in
  match r with
  | inr _ => with_health (Clear "engine") w
  | inl _ => with_health (health "engine" "reconcile_failed" "durable engine reconciliation failed; inspect daemon logs" "engine") w
  end.
End Orchestrator.
