(* ===== verification/OrchestratorSafety.v ===== *)
(** The dispatch of the outbox: the engine is started with the plan the run is
    pinned to, a command is completed only when its effect happened, active runs
    stay within the configured bound, and starts do not duplicate instances. *)

From Stdlib Require String.
From S2P Require Import Prelude.
From S2P Require Import Json.
From S2P Require Import GoStd.
From S2P Require Import Resource.
From S2P Require Import Plan.
From S2P Require Import Db.
From S2P Require Import StoreRuns.
From S2P Require Import StoreResources.
From S2P Require Import StoreOutbox.
From S2P Require Import StorePlugins.
From S2P Require Import StoreStep.
From S2P Require Import StoreSafety.
From S2P Require Import StoreHistory.
From S2P Require Import EngineNode.
From S2P Require Import EngineInterp.
From S2P Require Import EngineAdapter.
From S2P Require Import Orchestrator.

Local Open Scope Z_scope.

Section Dispatch.
Context {cal : Calendar} {compiler : FlowCompiler} {E : Type} {engine : DurableEngine E}.
Context (fault : Boundary → option Err) (maxActiveRuns : Z).

(** ** Shapes of the steps *)

(** Writes to the outbox alone. *)
Definition same_but_outbox (s s' : Db) : Prop :=
  db_runs s' = db_runs s ∧ db_plans s' = db_plans s ∧ db_cancellations s' = db_cancellations s ∧
  command <$> db_outbox s' = command <$> db_outbox s.
#[local] Instance same_but_outbox_preorder : PreOrder same_but_outbox.
Proof. split; [by intros s|]. intros s1 s2 s3 (?&?&?&?) (?&?&?&?). split_and!; congruence. Qed.

Lemma retry_db id cause d t s : same_but_outbox s (commit (RetryOutbox id cause d t) s).
Proof. split_and!; [done|done|done|]. apply update_commands. done. Qed.

Lemma complete_db id t s a s' : CompleteOutbox id t s = inr (a, s') →
  same_but_outbox s s' ∧ db_outbox s' = (λ o, if ob_id o =? id then completed_row t o else o) <$> db_outbox s.
Proof. intros H. run_op H. split; [|done]. split_and!; [done|done|done|]. by apply update_commands. Qed.
Lemma complete_cancelled_db id run t s b s' : CompleteStartIfRunCancelled id run t s = inr (b, s') →
  same_but_outbox s s' ∧ (b = false → s' = s) ∧
  (b = true → is_Some (db_cancellations s !! run) ∧ db_outbox s' = (λ o, if ob_id o =? id then completed_row t o else o) <$> db_outbox s).
Proof.
  intros H. run_op H; [|by split_and!]. apply andb_true_iff in Heqb0 as [Hc _]. apply bool_decide_eq_true in Hc.
  split_and!; [|done|done]. split_and!; [done|done|done|]. by apply update_commands.
Qed.

(** What [EnsureRun] leaves: the run exists and is pinned. *)
Lemma ensure_run_db p plan t s created s' : EnsureRun p plan t s = inr (created, s') →
  (created = true ∧ db_runs s !! sp_run p = None ∧
    (∃ r, db_runs s' = <[sp_run p := r]> (db_runs s) ∧ run_plan r = pl_planHash plan ∧ run_phase r = "pending") ∧
    db_plans s' = with_plan plan t (db_plans s) ∧ db_outbox s' = db_outbox s ∧ db_cancellations s' = db_cancellations s) ∨
  (created = false ∧ s' = s ∧ is_Some (db_runs s !! sp_run p)).
Proof.
  intros H. run_op H; simplify_eq.
  - right. split_and!; try done. by apply bool_decide_eq_true in Heqb.
  - left. apply bool_decide_eq_false in Heqb. split_and!; try done; [by apply eq_None_not_Some|by eexists].
Qed.

(** ** Completion *)

(** The command [id] is done. *)
Definition is_completed (id : Z) (s : Db) : Prop := ∀ o, o ∈ db_outbox s → ob_id o = id → ob_state o = ObCompleted.
Lemma completed_after id t (l : list OutboxRow) o : o ∈ ((λ o, if ob_id o =? id then completed_row t o else o) <$> l) → ob_id o = id → ob_state o = ObCompleted.
Proof.
  intros (x&->&_)%list_elem_of_fmap. destruct (Z.eqb_spec (ob_id x) id); simpl; [done|]. by intros.
Qed.

(** A start that is acknowledged reached the engine, or its run was cancelled. *)
Lemma start_engine_ok id p plan after t (w w' : world) :
  start_engine fault id p plan after t w = (ok tt, w') →
  is_completed id (w_db w') ∧
  (is_Some (db_cancellations (w_db w) !! sp_run p) ∨
   ∃ s e, same_but_outbox (w_db w) s ∧ engine_Start (sp_run p) plan (sp_input p) s (after s) (w_engine w) = (ok tt, e) ∧ w_engine w' = e).
Proof.
  unfold start_engine. destruct (hit fault AfterRun); [done|].
  destruct (CompleteStartIfRunCancelled _ _ _ _) as [err|[[] s]] eqn:Ec; [done| |].
  - intros [= <-]. destruct (complete_cancelled_db _ _ _ _ _ _ Ec) as (_&_&H). destruct (H eq_refl) as [Hc Ho].
    split; [|by left]. intros o. simpl. rewrite Ho. apply completed_after.
  - destruct (complete_cancelled_db _ _ _ _ _ _ Ec) as (Hs&_&_). simpl.
    destruct (engine_Start _ _ _ _ _ _) as [[err|[]] e] eqn:Ee; [done|].
    destruct (hit fault AfterEngine); [done|]. unfold complete. cbn [w_db].
    destruct (CompleteOutbox id (rfc3339nano t) (after s)) as [err|[[] s']] eqn:Eo; [done|]. intros [= <-].
    destruct (complete_db _ _ _ _ _ Eo) as [_ Ho]. split; [intros o; simpl; rewrite Ho; apply completed_after|].
    right. by exists s, e.
Qed.

(** ** The pinned plan *)

(** Any start of the engine by [reconcileStart] is for the run of the command
    with the plan the run row names. *)
Definition started_pinned (p : StartPayload) (plan : ExecutionPlan) (s : Db) : Prop :=
  ∃ r, db_runs s !! sp_run p = Some r ∧ run_plan r = pl_planHash plan ∧ pr_plan <$> db_plans s !! run_plan r = Some plan.

(** ** Capacity *)

Definition active_runs (s : Db) : Z :=
  Z.of_nat (length (filter (λ kr : string * RunRow, terminalRunPhase (run_phase kr.2) = false) (map_to_list (db_runs s)))).

Lemma active_insert u r (m : gmap string RunRow) :
  m !! u = None → terminalRunPhase (run_phase r) = false →
  length (filter (λ kr : string * RunRow, terminalRunPhase (run_phase kr.2) = false) (map_to_list (<[u := r]> m)))
  = S (length (filter (λ kr : string * RunRow, terminalRunPhase (run_phase kr.2) = false) (map_to_list m))).
Proof.
  intros Hu Hr. rewrite map_to_list_insert by done. rewrite filter_cons_True by done. done.
Qed.
Lemma count_excluding_absent u s : db_runs s !! u = None → result (CountActiveRunsExcluding u) s = inr (active_runs s).
Proof.
  intros Hu. unfold CountActiveRunsExcluding, result, tx_get, active_runs. do 3 f_equal.
  assert (∀ kr : string * RunRow, kr ∈ map_to_list (db_runs s) → kr.1 ≠ u) as Hne.
  { intros [k r] Hin E1. apply elem_of_map_to_list in Hin. simpl in *. congruence. }
  induction (map_to_list (db_runs s)) as [|kr l IH]; [done|]. rewrite !filter_cons.
  rewrite IH by (intros; apply Hne; by right).
  assert (kr.1 ≠ u) as Hk by (apply Hne; left). repeat case_decide; tauto.
Qed.

Lemma retry_active id err d t (w : world (E := E)) : active_runs (w_db (retry id err d t w).2) = active_runs (w_db w).
Proof. done. Qed.
(** What other goroutines do meanwhile creates no run. *)
Context (after : Db → Db).
Hypothesis after_keeps : ∀ s, active_runs (after s) ≤ active_runs s.

Lemma start_engine_active id p plan t (w : world (E := E)) :
  active_runs (w_db (start_engine fault id p plan after t w).2) ≤ active_runs (w_db w).
Proof.
  unfold start_engine. destruct (hit fault AfterRun); [done|].
  destruct (CompleteStartIfRunCancelled _ _ _ _) as [err|[b s]] eqn:Ec; [done|].
  destruct (complete_cancelled_db _ _ _ _ _ _ Ec) as [(Hr&_) _].
  assert (active_runs s = active_runs (w_db w)) as E1 by (unfold active_runs; by rewrite Hr).
  rewrite <- E1. pose proof (after_keeps s) as Ha.
  destruct b; [done|]. destruct (engine_Start _ _ _ _ _ _) as [[err|?] e]; [done|].
  destruct (hit fault AfterEngine); [done|]. unfold complete. cbn [w_db].
  destruct (CompleteOutbox id (rfc3339nano t) (after s)) as [err|[[] s']] eqn:Eo; [done|]. simpl.
  destruct (complete_db _ _ _ _ _ Eo) as [(Hr'&_) _]. unfold active_runs in *. by rewrite Hr'.
Qed.

Lemma reconcileStart_capacity id p t w :
  active_runs (w_db (reconcileStart fault maxActiveRuns id p after t w).2) ≤ Z.max maxActiveRuns (active_runs (w_db w)).
Proof.
  unfold reconcileStart. destruct (command_plan p (w_db w)) as [e|plan]; [rewrite retry_active; lia|].
  destruct (has_capacity _ _ _) eqn:Ecap; cbn [negb]; [|rewrite retry_active; simpl; lia].
  destruct (EnsureRun _ _ _ _) as [e|[created s]] eqn:Ee; [rewrite retry_active; simpl; lia|].
  destruct (ensure_run_db _ _ _ _ _ _ Ee) as [(->&Hn&(r&Hr&_&Hph)&_)|(->&->&_)].
  - etrans; [apply start_engine_active|]. simpl in *. unfold has_capacity in Ecap. rewrite Hn, count_excluding_absent in Ecap by done.
    unfold active_runs in *. rewrite Hr, active_insert by (done || by rewrite Hph). lia.
  - destruct (result (GetRun _) _) as [e|r]; [rewrite retry_active; simpl; lia|].
    destruct (result (GetPlan _) _) as [e|plan']; [rewrite retry_active; simpl; lia|].
    etrans; [apply start_engine_active|]. simpl. lia.
Qed.

Lemma ReconcileOne_capacity t w :
  active_runs (w_db (ReconcileOne fault maxActiveRuns after t w).2) ≤ Z.max maxActiveRuns (active_runs (w_db w)).
Proof.
  unfold ReconcileOne. destruct (ClaimNext _ _ _) as [e|[c s]] eqn:Ec; [simpl; lia|].
  assert (active_runs s = active_runs (w_db w)) as E1.
  { unfold ClaimNext in Ec. run_op Ec; simplify_eq. done. }
  rewrite <- E1. destruct (ob_payload c); [apply reconcileStart_capacity|].
  unfold reconcileSignal. destruct (engine_SignalEvent _ _ _ _) as [[err|[]] e]; [rewrite retry_active; simpl; lia|].
  destruct (hit fault AfterEngine); [simpl; lia|]. unfold complete. cbn [w_db with_db].
  destruct (CompleteOutbox _ _ s) as [err|[[] s']] eqn:Eo; [simpl; lia|]. simpl.
  destruct (complete_db _ _ _ _ _ Eo) as [(Hr'&_) _]. unfold active_runs in *. rewrite Hr'. lia.
Qed.
End Dispatch.

Section Acknowledged.
Context {cal : Calendar} {compiler : FlowCompiler} {E : Type} {engine : DurableEngine E}.
Context (fault : Boundary → option Err) (maxActiveRuns : Z).

(** ** Acknowledged commands *)

(** A row of the command is still to be delivered. *)
Definition open_command (id : Z) (s : Db) : Prop := ∃ o, o ∈ db_outbox s ∧ ob_id o = id ∧ ob_state o ≠ ObCompleted.
Lemma open_not_completed id s : open_command id s → ¬ is_completed id s.
Proof. intros (o&Ho&Hid&Hst) H. by apply Hst, H. Qed.
Lemma open_update id id' f s : (∀ o, ob_id (f o) = ob_id o) → (∀ o, ob_state (f o) ≠ ObCompleted) →
  open_command id s → open_command id (set_outbox (fmap (λ o, if ob_id o =? id' then f o else o)) s).
Proof.
  intros Hf Hs (o&Ho&Hid&Hst). exists (if ob_id o =? id' then f o else o). split.
  - simpl. apply list_elem_of_fmap. by exists o.
  - destruct (ob_id o =? id'); [by rewrite Hf|done].
Qed.
Lemma retry_open id id' cause d t (w : world (E := E)) r w' : open_command id (w_db w) → retry id' cause d t w = (r, w') →
  r ≠ ok tt ∧ open_command id (w_db w').
Proof. intros Ho [= <- <-]. split; [done|]. by apply open_update. Qed.

(** A command that is not acknowledged stays open, as long as nobody else completes it. *)
Context (after : Db → Db).
Definition others_leave_open : Prop := ∀ id s, open_command id s → open_command id (after s).
Hypothesis Hafter : others_leave_open.

Lemma complete_leaves_open id t (w w' : world (E := E)) r : open_command id (w_db w) → complete id t w = (r, w') → r = ok tt ∨ open_command id (w_db w').
Proof. intros Ho. unfold complete. destruct (CompleteOutbox _ _ _) as [e|[[] s]]; intros [= <- <-]; [by right|by left]. Qed.
Lemma start_engine_open id p plan t w r w' : open_command id (w_db w) → start_engine fault id p plan after t w = (r, w') →
  r = ok tt ∨ open_command id (w_db w').
Proof.
  intros Ho. unfold start_engine. destruct (hit fault AfterRun); [intros [= <- <-]; by right|].
  destruct (CompleteStartIfRunCancelled _ _ _ _) as [err|[[] s]] eqn:Ec.
  - intros H. right. by eapply retry_open.
  - intros [= <- <-]. by left.
  - destruct (complete_cancelled_db _ _ _ _ _ _ Ec) as (_&Hs&_). rewrite (Hs eq_refl). cbn [w_db w_engine with_db].
    destruct (engine_Start _ _ _ _ _ _) as [[err|[]] e].
    + intros H. right. eapply retry_open; [|exact H]. by apply Hafter.
    + destruct (hit fault AfterEngine); [intros [= <- <-]; right; by apply Hafter|]. apply complete_leaves_open. by apply Hafter.
Qed.

(** [reconcileStart] is a retry, or [start_engine] for the Run of the command. *)
Lemma reconcileStart_cases id p t w : plans_ok (w_db w) →
  (∃ err d w1, reconcileStart fault maxActiveRuns id p after t w = retry id err d t w1 ∧ w_db w1 = w_db w) ∨
  ∃ plan w1, reconcileStart fault maxActiveRuns id p after t w = start_engine fault id p plan after t w1 ∧
    w_engine w1 = w_engine w ∧ (sp_planHash p ≠ "" → started_pinned p plan (w_db w1)) ∧
    db_outbox (w_db w1) = db_outbox (w_db w) ∧ db_cancellations (w_db w1) = db_cancellations (w_db w).
Proof.
  intros [Hp1 Hp2]. unfold reconcileStart. destruct (command_plan p (w_db w)) as [e|plan] eqn:Eg; [left; do 3 eexists; split; [reflexivity|done]|].
  assert (Hhash : sp_planHash p ≠ "" → ∃ row, db_plans (w_db w) !! sp_planHash p = Some row ∧ pr_plan row = plan ∧ pl_planHash plan = sp_planHash p).
  { intros Hh. unfold command_plan in Eg. rewrite (proj2 (String.eqb_neq _ _) Hh) in Eg. cbn [negb] in Eg. unfold result, GetPlan, tx_row in Eg.
    destruct (db_plans (w_db w) !! sp_planHash p) as [row|] eqn:Er; [|done]. simpl in Eg. injection Eg as <-. exists row. split_and!; [done|done|]. by apply (Hp1 _ _ Er). }
  destruct (has_capacity _ _ _); simpl; [|left; do 3 eexists; split; [reflexivity|done]].
  destruct (EnsureRun _ _ _ _) as [e|[created s]] eqn:Ee; [left; do 3 eexists; split; [reflexivity|done]|].
  destruct (ensure_run_db _ _ _ _ _ _ Ee) as [(->&Hn&(r&Hr&Hrp&_)&Hpl&Ho&Hc)|(->&->&[r Hr])].
  - right. exists plan. eexists. split; [reflexivity|]. split_and!; try done. intros Hh. destruct (Hhash Hh) as (row&Hrow&Hpr&Heq). exists r. simpl.
    rewrite Hr, lookup_insert_eq, Hpl, Hrp. split_and!; [done|done|]. subst plan. unfold with_plan. rewrite Heq, Hrow. simpl. by rewrite Hrow.
  - assert (result (GetRun (sp_run p)) (w_db w) = inr r) as -> by (unfold result, GetRun, tx_row; by rewrite Hr).
    destruct (result (GetPlan (run_plan r)) (w_db w)) as [e|plan'] eqn:Eg'; [left; do 3 eexists; split; [reflexivity|done]|].
    right. exists plan'. eexists. split; [reflexivity|]. split_and!; try done. intros _. exists r. simpl.
    unfold result, GetPlan, tx_row in Eg'. destruct (db_plans (w_db w) !! run_plan r) as [row'|] eqn:Er; [|done].
    simpl in *. injection Eg' as <-. split_and!; [done|by symmetry; apply (Hp1 _ _ Er)|done].
Qed.

(** What an acknowledged command did between [w] and [w']. *)
Definition effected (payload : OutboxPayload) (w w' : world (E := E)) : Prop :=
  match payload with
  | StartRun p =>
      is_Some (db_cancellations (w_db w) !! sp_run p) ∨
      ∃ plan s, (sp_planHash p ≠ "" → started_pinned p plan s) ∧
        engine_Start (sp_run p) plan (sp_input p) s (after s) (w_engine w) = (ok tt, w_engine w')
  | SignalRun p => engine_SignalEvent (sg_run p) (sg_node p) (mkEvent (sg_providerEventID p) (sg_payload p)) (w_engine w) = (ok tt, w_engine w')
  end.
Lemma reconcileStart_delivers id p t w r w' : plans_ok (w_db w) → open_command id (w_db w) →
  reconcileStart fault maxActiveRuns id p after t w = (r, w') →
  (r = ok tt ↔ is_completed id (w_db w')) ∧ (r = ok tt → effected (StartRun p) w w').
Proof.
  intros Hp Hopen H. destruct (reconcileStart_cases id p t w Hp) as [(err&d&w1&Eq&Hw)|(plan&w1&Eq&He&Hpin&Ho&Hc)]; rewrite Eq in H.
  { eapply (retry_open id) in H as [Hr Hop]; [|by rewrite Hw]. split; [|done]. split; [done|]. by intros ?%open_not_completed. }
  assert (Hop1 : open_command id (w_db w1)) by (unfold open_command; by rewrite Ho).
  destruct (start_engine_open _ _ _ _ _ _ _ Hop1 H) as [->|Hop].
  - destruct (start_engine_ok _ _ _ _ _ _ _ _ H) as [Hdone Heff]. split; [done|]. intros _. destruct Heff as [Hcan|(s&e&Hs&Hst&Hw)].
    + left. by rewrite <- Hc.
    + right. exists plan, s. rewrite <- He, Hw. split; [|done]. intros Hh. destruct (Hpin Hh) as (r&Hr&Hrp&Hpl). destruct Hs as (E1&E2&_). exists r. by rewrite E1, E2.
  - assert (r ≠ ok tt); [|split; [split; [done|by intros ?%open_not_completed]|done]].
    intros ->. destruct (start_engine_ok _ _ _ _ _ _ _ _ H) as [Hdone _]. by eapply open_not_completed.
Qed.
Lemma reconcileSignal_delivers id p t w r w' : open_command id (w_db w) → reconcileSignal fault id p t w = (r, w') →
  (r = ok tt ↔ is_completed id (w_db w')) ∧ (r = ok tt → effected (SignalRun p) w w').
Proof.
  intros Hopen. unfold reconcileSignal, effected. destruct (engine_SignalEvent _ _ _ _) as [[err|[]] e].
  { intros H. eapply (retry_open id) in H as [Hr Hop]; [|done]. split; [|done]. split; [done|]. by intros ?%open_not_completed. }
  destruct (hit fault AfterEngine); [intros [= <- <-]; split; [|done]; split; [done|by intros ?%open_not_completed]|].
  unfold complete. cbn [w_db w_engine w_health]. destruct (CompleteOutbox id (rfc3339nano t) (w_db w)) as [err|[[] s']] eqn:Eo; intros [= <- <-].
  - split; [|done]. split; [done|by intros ?%open_not_completed].
  - split; [|done]. split; [|done]. intros _ o. destruct (complete_db _ _ _ _ _ Eo) as [_ Hs]. cbn [w_db with_db]. rewrite Hs. apply completed_after.
Qed.

(** The claimed command is one of the outbox, now in flight. *)
Lemma claim_next_db t stale s c s' : ClaimNext t stale s = inr (c, s') →
  (∃ o, o ∈ db_outbox s ∧ ob_state o ≠ ObCompleted ∧ command c = command o) ∧ open_command (ob_id c) s' ∧
  db_runs s' = db_runs s ∧ db_plans s' = db_plans s ∧ db_cancellations s' = db_cancellations s.
Proof.
  unfold ClaimNext, claim. intros (o&s1&Ho&H)%tx_bind_inv. apply tx_row_inv in Ho as [Ho ->]. apply tx_bind_inv in H as ([]&s2&H2&H).
  apply tx_ret_inv in H as [-> ->]. apply head_Some_elem_of, elem_of_sort_by, list_elem_of_filter in Ho as [Hc Ho].
  assert (Hst : ob_state o ≠ ObCompleted). { unfold claimable in Hc. intros E1. rewrite E1, andb_false_r in Hc. done. }
  run_op H2. split; [by exists o|]. split; [|done]. exists (claimed (rfc3339nano t) o). split; [|done]. simpl. apply list_elem_of_fmap. exists o.
  by rewrite Z.eqb_refl.
Qed.
Lemma ReconcileOne_delivers t w r w' : plans_ok (w_db w) → ReconcileOne fault maxActiveRuns after t w = (r, w') →
  (∃ e, ClaimNext t claimStaleAfter (w_db w) = inl e ∧ r = fail e ∧ w' = w) ∨
  ∃ c s, ClaimNext t claimStaleAfter (w_db w) = inr (c, s) ∧
    (∃ o, o ∈ db_outbox (w_db w) ∧ ob_state o ≠ ObCompleted ∧ command c = command o) ∧
    (r = ok tt ↔ is_completed (ob_id c) (w_db w')) ∧ (r = ok tt → effected (ob_payload c) w w').
Proof.
  intros Hp. unfold ReconcileOne. destruct (ClaimNext t claimStaleAfter (w_db w)) as [e|[c s]] eqn:Hc; [intros [= <- <-]; left; eauto|].
  destruct (claim_next_db _ _ _ _ _ Hc) as (Hrow&Hopen&Hr&Hpl&Hcan). intros H. right. exists c, s. split; [done|]. split; [done|].
  assert (Hp' : plans_ok (w_db (with_db s w))) by (destruct Hp; split; simpl; by rewrite ?Hr, ?Hpl).
  destruct (ob_payload c) as [p|p].
  - destruct (reconcileStart_delivers _ _ _ _ _ _ Hp' Hopen H) as [H1 H2]. split; [exact H1|]. intros Hok. specialize (H2 Hok). simpl in *. by rewrite Hcan in H2.
  - exact (reconcileSignal_delivers _ _ _ (with_db s w) _ _ Hopen H).
Qed.
End Acknowledged.

(** ** Acceptance *)

Section Accept.
Context {cal : Calendar} {dig : Digest} {compiler : FlowCompiler}.

Lemma accept_fresh trigger generation occurrence flowName namespace input deduplicated fr fu now s s1 r s2 :
  Orchestrator.AcceptTrigger trigger generation occurrence flowName namespace input deduplicated fr fu now s s1 = ok (r, s2) →
  rt_existing r = false →
  ∃ plan, compileCurrentFlow flowName namespace s = ok plan ∧ ValidateRunInput plan input = ok tt ∧
    is_Some (db_plans s2 !! pl_planHash plan) ∧ rt_run r = fu ∧
    db_receipts s2 !! (trigger, occurrence) = Some (mkReceiptRow fr "" (nonempty input) deduplicated fu now) ∧
    ∃ o p, o ∈ db_outbox s2 ∧ ob_payload o = StartRun p ∧ ob_state o = ObPending ∧
      sp_run p = fu ∧ sp_receipt p = fr ∧ sp_planHash p = pl_planHash plan.
Proof.
  unfold Orchestrator.AcceptTrigger. destruct (lookup_receipt trigger occurrence s) as [x|]; [by intros [= <- _]|].
  unfold plan_and_input. destruct (compileCurrentFlow flowName namespace s) as [e|plan]; [done|]. simpl.
  destruct (ValidateRunInput plan input) as [e|[]] eqn:Ev; [done|]. simpl. intros H Hfresh. exists plan.
  split; [done|]. split; [done|]. unfold AcceptTriggerWithPlan, ok in H. run_op H; simplify_eq; simpl in *.
  all: split_and!; [|done|by rewrite lookup_insert_eq|].
  all: try (eexists _, _; split_and!; [apply elem_of_app; right; left|done|done|done|done|done]).
  all: match goal with |- context [match ?x with _ => _ end] => destruct x eqn:Ep end; [by rewrite Ep|by rewrite lookup_insert_eq].
Qed.
End Accept.

(** ** The adapter *)

(** What is used of the go-workflows client: it lists the instances it has,
    newest or not, up to the limit; creating adds the instance or, when it
    fails, may or may not have added it; no other call adds one. *)
Class ClientLaws (E : Type) (client : WorkflowClient E) (instances : E → list string) : Prop := {
  law_list : ∀ n e l, GetWorkflowInstances n e = inr l → (length l ≤ n)%nat ∧ (∀ x, x ∈ l → x ∈ instances e) ∧
               ((length (instances e) ≤ n)%nat → ∀ x, x ∈ instances e → x ∈ l);
  law_create : ∀ run plan input e, (CreateWorkflowInstance run plan input e).1 = ok tt →
    instances (CreateWorkflowInstance run plan input e).2 ≡ₚ run :: instances e;
  law_create_error : ∀ run plan input e err, (CreateWorkflowInstance run plan input e).1 = inl err →
    instances (CreateWorkflowInstance run plan input e).2 ≡ₚ run :: instances e ∨
    instances (CreateWorkflowInstance run plan input e).2 ≡ₚ instances e;
  law_cancel : ∀ run e, instances (CancelWorkflowInstance run e).2 ≡ₚ instances e }.

Section AdapterSafety.
Context {E : Type} {client : WorkflowClient E} (instances : E → list string) `{!ClientLaws E client instances}.

Lemma findInstance_absent run e : (length (instances e) ≤ 1000)%nat → findInstance run e = inl ErrNotFound → run ∉ instances e ∨ ∃ err, GetWorkflowInstances 1000 e = inl err.
Proof.
  unfold findInstance. intros Hl H. destruct (GetWorkflowInstances 1000 e) as [err|l] eqn:Eg; [right; eauto|left].
  simpl in H. destruct (existsb _ l) eqn:Ex; [done|]. intros Hin.
  destruct (law_list _ _ _ Eg) as (_&_&Hall). specialize (Hall Hl _ Hin).
  assert (existsb (String.eqb run) l = true); [|congruence].
  apply existsb_exists. exists run. split; [by apply list_elem_of_In|apply String.eqb_refl].
Qed.

Lemma cancel_created_instances run s e : instances (cancelCreatedRunIfRequested run s e).2 ≡ₚ instances e.
Proof.
  unfold cancelCreatedRunIfRequested. destruct (result _ _) as [err|r]; [done|]. destruct (negb _); [done|].
  destruct (findInstance run e); [done|]. apply law_cancel.
Qed.

(** Starting a run, however often and through whichever failures, leaves at
    most one instance of it. *)
Lemma Start_no_duplicate run plan input s s' e :
  (∀ err, GetWorkflowInstances 1000 e ≠ inl err) → (length (instances e) ≤ 1000)%nat → NoDup (instances e) →
  NoDup (instances (Start run plan input s s' e).2) ∧
  ∀ x, x ∈ instances (Start run plan input s s' e).2 → x = run ∨ x ∈ instances e.
Proof.
  intros Hg Hl Hnd. unfold Start. destruct (result (GetRun run) s) as [err|r]; [by split; [|auto]|].
  destruct (String.eqb _ _); [by split; [|auto]|]. destruct (findInstance run e) as [err|u] eqn:Ef; [|by split; [|auto]].
  destruct err; try (by split; [|auto]).
  destruct (findInstance_absent _ _ Hl Ef) as [Hni|[err He]]; [|by destruct (Hg err)].
  assert (∀ l, l ≡ₚ run :: instances e → NoDup l ∧ ∀ x, x ∈ l → x = run ∨ x ∈ instances e) as Hadd.
  { intros l Hp. split; [rewrite Hp; by constructor|]. intros x. rewrite Hp, elem_of_cons. done. }
  destruct (CreateWorkflowInstance run plan input e) as [[err|[]] e'] eqn:Ec.
  - pose proof (law_create_error run plan input e err) as Hc. rewrite Ec in Hc. simpl in Hc.
    destruct (findInstance run e'); simpl; (destruct (Hc eq_refl) as [Hp|Hp]; [by apply Hadd|]).
    all: split; [by rewrite Hp|]; intros x Hx; rewrite Hp in Hx; auto.
  - pose proof (law_create run plan input e) as Hc. rewrite Ec in Hc. simpl in Hc.
    apply Hadd. rewrite cancel_created_instances. by apply Hc.
Qed.
End AdapterSafety.

(** ** A cancellation the adapter gives up *)

(** When the diagnostics listing omits a live instance (it is limited to 1000),
    [Cancel] reports that the run does not exist; once the start command is
    completed the cancellation is recorded as delivered, and the instance was
    never asked to stop. *)
Lemma Reconcile_drops_cancellation {E} `{client : WorkflowClient E} run reason now s e :
  CancelRun = None → findInstance run e = inl ErrNotFound →
  result (UndeliveredApprovalSignals 100) s = inr [] →
  result (UndeliveredRunCancellations 100) s = inr [(run, reason)] →
  result (MarkRunCancellationDeliveredIfStartImpossible run now) s = inr true →
  ∃ s', Reconcile now s e = (ok tt, (s', e)) ∧ (ca_delivered <$> db_cancellations s' !! run = Some true).
Proof.
  intros Hc Hf Ha Hr Hm. unfold Reconcile. rewrite Ha. cbn [redeliver_approvals]. rewrite Hr. cbn [redeliver_cancellations].
  unfold Cancel. rewrite Hc, Hf. simpl.
  destruct (MarkRunCancellationDeliveredIfStartImpossible run now s) as [err|[b s']] eqn:Em; unfold result in Hm; rewrite Em in Hm; [done|].
  injection Hm as ->. exists s'. split; [done|]. run_op Em; simplify_eq. simpl. rewrite lookup_alter_eq, Heqo. done.
Qed.
