(* ===== verification/Trigger.v ===== *)
(** [internal/trigger/controller.go]: schedules and provider subscriptions on top
    of the acceptance operations.

    The cron library and the time zone database are the interface [CronLibrary],
    the acceptor (the store itself or the orchestrator) is [Acceptor], the plugin
    manager [Provider].  Store calls are [call]s of [Proc]; [reconcileSchedule] of
    several triggers and the goroutines of the providers run between them. *)

From Stdlib Require String.
From S2P Require Import Prelude.
From S2P Require Import Json.
From S2P Require Import GoStd.
From S2P Require Import Resource.
From S2P Require Import Plan.
From S2P Require Import Db.
From S2P Require Import StoreRuns.
From S2P Require Import StoreResources.
From S2P Require Import StoreOutbox.
From S2P Require Import Proc.
From S2P Require Import EngineAdapter.
From S2P Require Import Orchestrator.

Local Open Scope Z_scope.

(** [cron.Schedule.Next] of an instant in a location, and the two parsers with
    their error texts.  [Next] is the zero time when nothing comes within years. *)
Abbreviation Schedule := (string → Z → Z).
Class CronLibrary := {
  cron_schedule : string → string + Schedule;
  load_location : string → option string }.

(** [Acceptor]: compilation and the durable receipt, plan and outbox boundary. *)
Class Acceptor := mkAcceptor {
  accept_trigger : string → Z → string → string → string → string → bool → Proc Receipt;
  accept_provider_trigger : string → Z → string → string → string → string → string → Proc Receipt;
  accept_provider_signal : string → Z → string → string → string → string → string → string → string → Proc Receipt }.

Record TriggerEvent := mkTriggerEvent {
  te_providerEventId : string; te_cursor : string; te_payload : string; te_targetRun : string }.
(** [Provider.WatchTrigger]: plugin, source, trigger, namespace, config, cursor,
    activation and the callback. *)
Class Provider := WatchTrigger :
  string → string → string → string → list (string * json) → string → Z → (TriggerEvent → Proc unit) → Proc unit.

(** The store accepts without a plan; the orchestrator compiles one first, with
    other goroutines' commits in between. *)
Definition store_acceptor {cal : Calendar} (env : Env) : Acceptor := {|
  accept_trigger t g o f ns input d := call env 0 (StoreOutbox.AcceptTrigger t g o f ns input d (uuid_at env 0) (uuid_at env 1) (stamp env 0));
  accept_provider_trigger t g o f ns input c :=
    call env 0 (StoreOutbox.AcceptProviderTrigger t g o f ns input c (uuid_at env 0) (uuid_at env 1) (stamp env 0));
  accept_provider_signal t g o f ns r n p c := call env 0 (StoreOutbox.AcceptProviderSignal t g o f ns r n p c (uuid_at env 0) (stamp env 0)) |}.
Definition orchestrator_acceptor {cal : Calendar} {compiler : FlowCompiler} (env : Env) : Acceptor :=
  let accept (f : Db → Db → res (Receipt * Db)) : Proc Receipt := λ s0,
    let s := others env 0 s0 in let s' := others env 1 s in
    match f s s' with inl e => (fail e, s') | inr (r, s'') => (ok r, s'') end in {|
  accept_trigger t g o f ns input d :=
    accept (Orchestrator.AcceptTrigger t g o f ns input d (uuid_at env 0) (uuid_at env 1) (stamp env 0));
  accept_provider_trigger t g o f ns input c :=
    accept (Orchestrator.AcceptProviderTrigger t g o f ns input c (uuid_at env 0) (uuid_at env 1) (stamp env 0));
  accept_provider_signal t g o f ns r n p c :=
    call env 0 (Orchestrator.AcceptProviderSignal t g o f ns r n p c (uuid_at env 0) (stamp env 0)) |}.

Definition maxCatchupScan : nat := N.to_nat 10000.

Section Controller.
Context {cal : Calendar} {cron : CronLibrary} {acceptor : Acceptor}.

(** ** Schedules *)

Definition parseSchedule (spec : ScheduleTrigger) : res (Schedule * string) :=
  guard_err (length (fields (s_cron spec)) =? 5)%nat (ErrMsg "schedule cron must contain exactly five fields") ≫= λ _,
  let timezone := if String.eqb (s_timezone spec) "" then "UTC" else s_timezone spec in
  match load_location timezone with
  | Some e => fail (ErrMsg ("load timezone " +:+ quoted timezone +:+ ": " +:+ e))
  | None =>
      match cron_schedule (s_cron spec) with
      | inl e => fail (ErrMsg ("parse cron: " +:+ e))
      | inr schedule =>
          guard_err (String.eqb (s_misfirePolicy spec) "" || String.eqb (s_misfirePolicy spec) "fireOnce")
            (ErrMsg ("unsupported misfirePolicy " +:+ quoted (s_misfirePolicy spec))) ≫= λ _,
          guard_err (String.eqb (s_concurrencyPolicy spec) "" || String.eqb (s_concurrencyPolicy spec) "forbid")
            (ErrMsg ("unsupported concurrencyPolicy " +:+ quoted (s_concurrencyPolicy spec))) ≫= λ _,
          ok (schedule, timezone)
      end
  end.

Definition OccurrenceIdentity (m : ObjectMeta) (scheduled : Z) : string :=
  m_uid m +:+ ":" +:+ itoa (m_generation m) +:+ ":" +:+ rfc3339nano scheduled.

(** [for range count]: the next occurrences after [from]. *)
Fixpoint occurrences (n : nat) (next : Z → Z) (cursor : Z) : list Z :=
  match n with O => [] | S n => next cursor :: occurrences n next (next cursor) end.
Definition NextOccurrences (trigger : ObjectMeta * TriggerSpec) (from count : Z) : res (list Z) :=
  match t_schedule trigger.2 with
  | None => fail (ErrMsg "trigger is not a schedule")
  | Some spec =>
      let count := if (count <=? 0) || (100 <? count) then 5 else count in
      '(schedule, location) ← parseSchedule spec;
      ok (occurrences (Z.to_nat count) (schedule location) from)
  end.

(** The catch-up scan: the occurrences after [cursor] up to [now]. *)
Fixpoint due_scan (n : nat) (next : Z → Z) (now cursor : Z) : list Z :=
  match n with
  | O => []
  | S n => let t := next cursor in if now <? t then [] else t :: due_scan n next now t
  end.
Definition overflow_error : Err := ErrMsg "schedule catch-up scan exceeded 10000 occurrences".
Definition scheduled_payload (selected : Z) (identity : string) : string :=
  marshal (mkobj [("trigger", mkobj [("type", JStr "schedule"); ("scheduledAt", JStr (rfc3339nano selected));
                                     ("occurrenceId", JStr identity)])]).
Definition trigger_enabled (spec : TriggerSpec) : bool := match t_enabled spec with Some b => b | None => true end.

(** Record the skip of the selected occurrence. *)
Definition skip (env : Env) (i : nat) (uid identity reason : string) (selected : Z) : Proc unit :=
  call env i (RecordTriggerSkip uid identity reason (rfc3339nano selected) (stamp env i)).

(** The selected occurrence: it has a receipt, is skipped, or is accepted. *)
Definition settle (env : Env) (trigger : ObjectMeta * TriggerSpec) (scheduleSpec : ScheduleTrigger) (now selected : Z) : Proc unit :=
  let uid := m_uid trigger.1 in
  deadline ← proc_lift (ParseDuration (s_startingDeadline scheduleSpec) hour);
  let identity := OccurrenceIdentity trigger.1 selected in
  if deadline <? Z.min max_int64 (now - selected) then skip env 1 uid identity "misfire-deadline" selected else
  receipt ← attempt (call env 2 (ReceiptByOccurrence uid identity));
  match receipt with
  | inr _ => mret tt
  | inl ErrNotFound =>
      active ← (if String.eqb (s_concurrencyPolicy scheduleSpec) "" || String.eqb (s_concurrencyPolicy scheduleSpec) "forbid"
                then call env 3 (HasActiveRunForTrigger uid) else mret false);
      if (active : bool) then skip env 4 uid identity "concurrency-forbid" selected else
      accept_trigger uid (m_generation trigger.1) identity (t_flow trigger.2) (m_namespace trigger.1)
        (scheduled_payload selected identity) true ≫= λ _, mret tt
  | inl e => proc_fail e
  end.

Definition reconcileSchedule (env : Env) (trigger : ObjectMeta * TriggerSpec) (scheduleSpec : ScheduleTrigger) (now : Z) : Proc unit :=
  let uid := m_uid trigger.1 in
  '(schedule, location) ← proc_lift (parseSchedule scheduleSpec);
  state ← call env 0 (EnsureTriggerState uid (m_generation trigger.1) (trigger_enabled trigger.2) now (stamp env 0));
  if negb (st_enabled state) then mret tt else
  let next := schedule location in
  let due := due_scan maxCatchupScan next now (st_cursor state) in
  if (length due =? maxCatchupScan)%nat && negb (now <? next (default (st_cursor state) (last due)))
  then proc_fail overflow_error else
  match last due with
  | None => mret tt
  | Some selected =>
      settle env trigger scheduleSpec now selected ≫= λ _,
      call env 5 (AdvanceTriggerCursor uid selected (stamp env 5))
  end.

(** One pass over the Triggers of the default namespace; the first error ends it.
    [envs i] is the environment of the [i]-th document. *)
Fixpoint reconcile_all (envs : nat → Env) (i : nat) (documents : list Document) (now : Z) : Proc unit :=
  match documents with
  | [] => mret tt
  | document :: documents =>
      trigger ← proc_lift (DecodeTrigger document);
      match t_schedule trigger.2 with
      | None => mret tt
      | Some spec => λ s,
          match reconcileSchedule (envs i) trigger spec now s with
          | (inl e, s) => (fail (wrap ("reconcile Trigger " +:+ m_name trigger.1 +:+ ": ") e), s)
          | r => r
          end
      end ≫= λ _ : unit, reconcile_all envs (S i) documents now
  end.
Definition ReconcileSchedules (env : Env) (envs : nat → Env) (now : Z) : Proc unit :=
  documents ← List_ env 0 "Trigger" DefaultNamespace 1000;
  reconcile_all envs 0 documents.1 now.

(** ** Health *)

Definition NewController : Tracker :=
  health "schedules" "starting" "schedule reconciliation has not completed" "controllers/schedules"
    (health "providers" "starting" "provider reconciliation has not completed" "controllers/providers" ∅).
(** The two observers, for a context that is not cancelled. *)
Definition observeSchedule (r : res unit) (t : Tracker) : Tracker :=
  match r with
  | inr _ => Clear "schedules" t
  | inl _ => health "schedules" "reconcile_failed" "schedule reconciliation failed; inspect daemon logs" "controllers/schedules" t
  end.
Definition observeProviders (r : res unit) (t : Tracker) : Tracker :=
  match r with
  | inr _ => Clear "providers" t
  | inl _ => health "providers" "reconcile_failed" "provider reconciliation failed; inspect daemon logs" "controllers/providers" t
  end.
Definition ReconcileSchedulesNow (env : Env) (envs : nat → Env) (now : Z) (s : Db) (t : Tracker) : res unit * Db * Tracker :=
  let '(r, s) := ReconcileSchedules env envs now s in (r, s, observeSchedule r t).
Definition providerHealthKey (uid : string) : string := "provider/" +:+ uid.

(** ** Provider subscriptions *)

(** The enabled provider Triggers, by uid. *)
Fixpoint wanted_triggers (env : Env) (i : nat) (documents : list Document) : Proc (gmap string (ObjectMeta * TriggerSpec)) :=
  match documents with
  | [] => mret ∅
  | document :: documents =>
      trigger ← proc_lift (DecodeTrigger document);
      match t_provider trigger.2 with
      | None => wanted_triggers env (S i) documents
      | Some _ =>
          state ← call env i (EnsureTriggerState (m_uid trigger.1) (m_generation trigger.1) (trigger_enabled trigger.2)
                                (now_at env i) (stamp env i));
          wanted ← wanted_triggers env (S i) documents;
          mret (if st_enabled state
                then match (wanted : gmap string (ObjectMeta * TriggerSpec)) !! m_uid trigger.1 with
                     | Some _ => wanted (* a later document of the list overwrites *)
                     | None => <[m_uid trigger.1 := trigger]> wanted
                     end
                else wanted)
      end
  end.

(** The running subscriptions (uid to generation) and the health tracker. *)
Record controller := mkController { ct_subscriptions : gmap string Z; ct_health : Tracker }.

Definition outdated (wanted : gmap string (ObjectMeta * TriggerSpec)) (kv : string * Z) : bool :=
  match wanted !! kv.1 with Some trigger => negb (m_generation trigger.1 =? kv.2) | None => true end.
Definition clear_all (uids : list string) (t : Tracker) : Tracker :=
  fold_left (λ t uid, Clear (providerHealthKey uid) t) uids t.

(** The critical section: the state with the cancelled and the started watches. *)
Definition resubscribe (wanted : gmap string (ObjectMeta * TriggerSpec)) (c : controller) : controller * list string * list string :=
  let stopped := (map_to_list (filter (λ kv, outdated wanted kv = true) (ct_subscriptions c))).*1 in
  let kept := filter (λ kv, outdated wanted kv = false) (ct_subscriptions c) in
  let started := filter (λ kv : string * (ObjectMeta * TriggerSpec), kept !! kv.1 = None) wanted in
  (mkController (kept ∪ ((λ trigger, m_generation trigger.1) <$> started)) (clear_all stopped (ct_health c)),
   stopped, (map_to_list started).*1).

Definition syncProviders (has_provider : bool) (env : Env) (s : Db) (c : controller) : res unit * Db * controller :=
  if negb has_provider then (ok tt, s, c) else
  match (List_ env 0 "Trigger" DefaultNamespace 1000 ≫= λ documents, wanted_triggers env 2 documents.1) s with
  | (inl e, s) => (fail e, s, c)
  | (inr wanted, s) => (ok tt, s, (resubscribe wanted c).1.1)
  end.

Definition stopProviders (c : controller) : controller :=
  mkController ∅ (clear_all (map_to_list (ct_subscriptions c)).*1 (ct_health c)).

(** The callback of a watch: the event is acknowledged when it returns nil. *)
Definition accept_event (trigger : ObjectMeta * TriggerSpec) (event : TriggerEvent) : Proc unit :=
  if String.eqb (te_providerEventId event) "" || String.eqb (te_cursor event) "" || negb (valid (te_payload event))
  then proc_fail (ErrMsg "provider event identity, cursor, and JSON payload are required") else
  let start :=
    accept_provider_trigger (m_uid trigger.1) (m_generation trigger.1) (te_providerEventId event) (t_flow trigger.2)
      (m_namespace trigger.1) (te_payload event) (te_cursor event) ≫= λ _, mret tt in
  match t_delivery trigger.2 with
  | Some delivery =>
      if String.eqb (d_mode delivery) "signal" then
        if String.eqb (te_targetRun event) "" then proc_fail (ErrMsg "signal delivery requires a provider target Run UID") else
        accept_provider_signal (m_uid trigger.1) (m_generation trigger.1) (te_providerEventId event) (t_flow trigger.2)
          (m_namespace trigger.1) (te_targetRun event) (d_node delivery) (te_payload event) (te_cursor event) ≫= λ _, mret tt
      else start
  | None => start
  end.

Definition maxBackoff : Z := 30 * second.
Definition next_backoff (backoff : Z) : Z := if backoff <? maxBackoff then backoff * 2 else backoff.

Context {provider : Provider}.

(** One turn of [watchProvider]: the store, the tracker, the next backoff and
    whether the loop goes on.  [cancelled] is [ctx.Err() != nil] after the watch. *)
Definition watch_turn (env : Env) (trigger : ObjectMeta * TriggerSpec) (spec : ProviderTrigger) (cancelled : bool)
    (backoff : Z) (s : Db) (t : Tracker) : Db * Tracker * option Z :=
  let uid := m_uid trigger.1 in
  let '(state, s) := call env 0 (EnsureTriggerState uid (m_generation trigger.1) true (now_at env 0) (stamp env 0)) s in
  let '(cursor, s) := call env 1 (ProviderCursor uid) s in
  let '(code, message, s, t) :=
    match state, cursor with
    | inr state, inr cursor =>
        let '(r, s) := WatchTrigger (pr_plugin spec) (pr_source spec) uid (m_namespace trigger.1) (pr_config spec) cursor.1
                         (st_cursor state) (accept_event trigger) s in
        let t := Clear (providerHealthKey uid) t in
        match r with
        | inr _ => ("watch_ended", "provider subscription ended unexpectedly and is waiting to restart", s, t)
        | inl _ => ("watch_failed", "provider subscription failed and is waiting to retry", s, t)
        end
    | _, _ => ("watch_failed", "provider subscription failed and is waiting to retry", s, t)
    end in
  if cancelled then (s, t, None)
  else (s, health (providerHealthKey uid) code message ("controllers/providers/" +:+ uid) t, Some (next_backoff backoff)).
End Controller.
