(* ===== verification/TriggerFacts.v ===== *)
(** The trigger controller: the catch-up scan finds the latest due occurrence, a
    pass settles it once, and the subscriptions follow the enabled Triggers. *)

From Stdlib Require String.
From S2P Require Import Prelude.
From S2P Require Import Json.
From S2P Require Import GoStd.
From S2P Require Import Resource.
From S2P Require Import Plan.
From S2P Require Import Db.
From S2P Require Import StoreRuns.
From S2P Require Import StoreResources.
From S2P Require Import StoreOutbox.
From S2P Require Import StorePlugins.
From S2P Require Import StoreStep.
From S2P Require Import StoreSafety.
From S2P Require Import StoreHistory.
From S2P Require Import Proc.
From S2P Require Import EngineAdapter.
From S2P Require Import Orchestrator.
From S2P Require Import Trigger.

Local Open Scope Z_scope.

(** ** The catch-up scan *)

(** [selected] is the latest occurrence after [cursor] that is not in the future. *)
Definition latest_due (next : Z → Z) (cursor now selected : Z) : Prop :=
  ∃ n, selected = Nat.iter (S n) next cursor ∧ (∀ k, (k ≤ n)%nat → Nat.iter (S k) next cursor ≤ now) ∧ now < next selected.

Section Scan.
Context (next : Z → Z) (now : Z).

Lemma iter_shift n cursor : Nat.iter n next (next cursor) = Nat.iter (S n) next cursor.
Proof. induction n as [|n IH]; [done|]. simpl. by rewrite IH. Qed.

Lemma last_cons_default (d x : Z) l : default d (last (x :: l)) = default x (last l).
Proof.
  destruct l as [|y l]; [done|]. change (last (x :: y :: l)) with (last (y :: l)).
  destruct (proj2 (last_is_Some (y :: l)) ltac:(done)) as [z ->]. done.
Qed.

Lemma due_scan_length n cursor : (length (due_scan n next now cursor) ≤ n)%nat.
Proof. revert cursor. induction n as [|n IH]; intros cursor; simpl; [lia|]. case_match; simpl; [lia|]. specialize (IH (next cursor)). lia. Qed.
Lemma due_scan_lookup n cursor k t :
  due_scan n next now cursor !! k = Some t → t = Nat.iter (S k) next cursor ∧ t ≤ now.
Proof.
  revert cursor k. induction n as [|n IH]; intros cursor k; [done|]. simpl.
  destruct (now <? next cursor) eqn:E; [done|]. apply Z.ltb_ge in E. destruct k as [|k]; simpl; [intros [= <-]; split; [done|lia]|].
  intros H. destruct (IH _ _ H) as [-> ?]. split; [exact (iter_shift (S k) cursor)|done].
Qed.
(** The scan stops before its bound only at an occurrence in the future. *)
Lemma due_scan_stops n cursor :
  (length (due_scan n next now cursor) < n)%nat → now < next (default cursor (last (due_scan n next now cursor))).
Proof.
  revert cursor. induction n as [|n IH]; intros cursor; simpl; [lia|].
  destruct (now <? next cursor) eqn:E; [intros _; by apply Z.ltb_lt in E|]. simpl length. intros H.
  rewrite last_cons_default. apply IH. lia.
Qed.
Lemma due_scan_latest n cursor selected :
  last (due_scan n next now cursor) = Some selected → now < next selected → latest_due next cursor now selected.
Proof.
  intros Hl Hn. assert (Hlen : (length (due_scan n next now cursor) ≠ 0)%nat) by (by destruct (due_scan n next now cursor)).
  rewrite last_lookup in Hl. apply due_scan_lookup in Hl as Hs. destruct Hs as [Hs _].
  exists (pred (length (due_scan n next now cursor))). split; [exact Hs|]. split; [|done]. intros k Hk.
  destruct (lookup_lt_is_Some_2 (due_scan n next now cursor) k ltac:(lia)) as [t Ht].
  apply due_scan_lookup in Ht as Ht'. destruct Ht' as [<- ?]. done.
Qed.
(** As many occurrences as the bound allows are not in the future. *)
Lemma due_scan_full n cursor :
  (∀ k, (k < n)%nat → Nat.iter (S k) next cursor ≤ now) → length (due_scan n next now cursor) = n ∧
  default cursor (last (due_scan n next now cursor)) = Nat.iter n next cursor.
Proof.
  revert cursor. induction n as [|n IH]; intros cursor H; [done|]. simpl.
  pose proof (H 0%nat ltac:(lia)) as H0. simpl in H0. rewrite (proj2 (Z.ltb_ge _ _) H0).
  destruct (IH (next cursor)) as [Hl Hd].
  { intros k Hk. rewrite iter_shift. apply H. lia. }
  split; [simpl; by rewrite Hl|]. rewrite last_cons_default, Hd. apply iter_shift.
Qed.
Lemma due_scan_none n cursor : now < next cursor → due_scan n next now cursor = [].
Proof. intros H. destruct n; [done|]. simpl. by rewrite (proj2 (Z.ltb_lt _ _) H). Qed.
End Scan.

(** ** The acceptor *)

Section Acceptance.
Context {cal : Calendar} {dig : Digest}.

(** What the controller relies on: an acceptance is committed store operations,
    it leaves a receipt of the occurrence, and by itself it only adds the receipt
    of its occurrence and leaves the trigger states alone. *)
Class AcceptorLaws (acceptor : Acceptor) : Prop := {
  accept_evolves t g o f ns i d : evolves (accept_trigger t g o f ns i d);
  accept_receipt t g o f ns i d s r s' : reachable s →
    accept_trigger t g o f ns i d s = (inr r, s') → is_Some (lookup_receipt t o s') }.
Class SoloLaws (acceptor : Acceptor) : Prop := {
  accept_only t g o f ns i d s r s' : accept_trigger t g o f ns i d s = (r, s') →
    (∀ k, k ≠ (t, o) → db_receipts s' !! k = db_receipts s !! k) ∧ db_trigger_states s' = db_trigger_states s ∧
    (is_Some (lookup_receipt t o s) → db_receipts s' = db_receipts s) }.

Lemma commits_step {A} (t : Tx A) : (∀ s a s', t s = inr (a, s') → store_step s s') → commits t.
Proof. intros H s a s' Ht. by eapply rtc_once, H. Qed.
Lemma commits_accept t g o f ns i d pc pe p fr fu now : commits (acceptTrigger t g o f ns i d pc pe p fr fu now).
Proof. apply commits_step. intros s a s'. apply step_accept. Qed.
Lemma commits_signal t g o f ns r n p c fr now : commits (StoreOutbox.AcceptProviderSignal t g o f ns r n p c fr now).
Proof. apply commits_step. intros s a s'. apply step_accept_signal. Qed.
Lemma commits_trigger_state u g e c now : commits (EnsureTriggerState u g e c now).
Proof. apply commits_step. intros s a s'. apply step_trigger_state. Qed.
Lemma commits_advance u c now : commits (AdvanceTriggerCursor u c now).
Proof. apply commits_step. intros s a s'. apply step_advance. Qed.
Lemma commits_skip u o r t now : commits (RecordTriggerSkip u o r t now).
Proof. apply commits_step. intros s a s'. apply step_skip. Qed.

(** An accepted occurrence has a receipt; nothing else of the table changes. *)
Lemma acceptTrigger_receipts t g o f ns i d pc pe p fr fu now s r s' :
  acceptTrigger t g o f ns i d pc pe p fr fu now s = inr (r, s') →
  is_Some (lookup_receipt t o s') ∧ (∀ k, k ≠ (t, o) → db_receipts s' !! k = db_receipts s !! k) ∧
  db_trigger_states s' = db_trigger_states s ∧ (is_Some (lookup_receipt t o s) → db_receipts s' = db_receipts s).
Proof.
  intros H. unfold acceptTrigger in H. run_op H; simplify_eq; simpl in *.
  all: first [ by split_and!; eauto
             | split_and!; [unfold lookup_receipt; simpl; rewrite lookup_insert_eq; eauto
                           | intros k Hk; by rewrite lookup_insert_ne
                           | done | congruence || by intros [? ?]; congruence] ].
Qed.

#[local] Hint Resolve commits_accept commits_signal commits_trigger_state commits_advance commits_skip : proc.

#[export] Instance store_acceptor_laws env : interference env → AcceptorLaws (store_acceptor env).
Proof.
  intros He. split.
  - intros. simpl. apply evolves_call; [done|apply commits_accept].
  - intros * _ H. simpl in H. apply call_ok in H. by eapply acceptTrigger_receipts.
Qed.
#[export] Instance store_acceptor_solo now uuid : SoloLaws (store_acceptor (alone now uuid)).
Proof.
  split. intros * H. simpl in H. unfold call in H. simpl in H.
  destruct (StoreOutbox.AcceptTrigger _ _ _ _ _ _ _ _ _ _ _) as [e|[x s1]] eqn:E; injection H as _ <-; [done|].
  by eapply acceptTrigger_receipts.
Qed.
#[export] Instance orchestrator_acceptor_laws {compiler : FlowCompiler} env :
  interference env → AcceptorLaws (orchestrator_acceptor env).
Proof.
  intros He. split.
  - intros t g o f ns i d s. simpl. assert (H01 : rtc store_step s (others env 1 (others env 0 s))) by (etrans; apply He).
    unfold Orchestrator.AcceptTrigger. destruct (lookup_receipt t o _) as [r|]; [exact H01|].
    unfold mbind, res_bind. destruct (plan_and_input _ _ _ _) as [e|plan]; [exact H01|].
    destruct (AcceptTriggerWithPlan _ _ _ _ _ _ _ _ _ _ _ _) as [e|[r s']] eqn:E; [exact H01|].
    simpl. etrans; [exact H01|]. by eapply commits_accept.
  - intros t g o f ns i d s r s' Hr H. simpl in H.
    destruct (Orchestrator.AcceptTrigger _ _ _ _ _ _ _ _ _ _ _ _) as [e|[r1 s1]] eqn:E; [discriminate H|]. injection H as -> ->.
    unfold Orchestrator.AcceptTrigger in E. destruct (lookup_receipt t o _) as [x|] eqn:Ex.
    + injection E as _ <-. exists x. eapply occurrences_forever; [|apply He|exact Ex].
      unfold reachable in *. etrans; [exact Hr|apply He].
    + unfold mbind, res_bind in E. destruct (plan_and_input _ _ _ _) as [e|plan]; [discriminate E|].
      by eapply acceptTrigger_receipts.
Qed.

(** ** A pass over one schedule *)

#[local] Opaque maxCatchupScan.

Context {cron : CronLibrary} {acceptor : Acceptor}.

Lemma settle_evolves {laws : AcceptorLaws acceptor} env trigger spec now selected :
  interference env → evolves (settle env trigger spec now selected).
Proof.
  intros He. unfold settle, skip. eapply evolves_bind; [apply evolves_lift|]. intros deadline.
  case_match; [apply evolves_call; [done|apply commits_skip]|].
  eapply evolves_bind; [apply evolves_attempt, evolves_call; [done|apply commits_row]|]. intros [e|r]; [|apply evolves_ret].
  destruct e; try apply evolves_fail.
  eapply evolves_bind; [case_match; [apply evolves_call; [done|apply commits_get]|apply evolves_ret]|]. intros active.
  case_match; [apply evolves_call; [done|apply commits_skip]|].
  eapply evolves_bind; [apply accept_evolves|]. intros r. apply evolves_ret.
Qed.
Lemma reconcileSchedule_evolves {laws : AcceptorLaws acceptor} env trigger spec now :
  interference env → evolves (reconcileSchedule env trigger spec now).
Proof.
  intros He. unfold reconcileSchedule. eapply evolves_bind; [apply evolves_lift|]. intros [schedule location].
  eapply evolves_bind; [apply evolves_call; [done|apply commits_trigger_state]|]. intros state.
  repeat case_match; try apply evolves_ret; try apply evolves_fail.
  eapply evolves_bind; [by apply settle_evolves|]. intros r. apply evolves_call; [done|apply commits_advance].
Qed.

(** Skips are never deleted. *)
Lemma skips_kept s s' k : rtc store_step s s' → is_Some (db_skips s !! k) → is_Some (db_skips s' !! k).
Proof.
  intros H. induction H as [|s s1 s2 Hstep _ IH]; [done|]. intros Hk. apply IH. clear IH.
  destruct Hstep; run_op Hop; try exact Hk.
  - simpl. case_match; [done|]. destruct (decide (k = (u, o))) as [->|Hne]; [by rewrite lookup_insert_eq|].
    by rewrite lookup_insert_ne.
  - revert Hop. apply (collect_runs_ind (λ s1, is_Some (db_skips s1 !! k))); [|done].
    intros run r s3 s4 H3 Hc. pose proof (cr_rest _ _ _ _ _ Hc) as Hrest. injection Hrest as _ _ _ _ _ _ _ _ _ ->. done.
Qed.

(** The occurrence was accepted or skipped, and the store remembers it. *)
Definition settled (uid identity : string) (s : Db) : Prop :=
  is_Some (lookup_receipt uid identity s) ∨ is_Some (db_skips s !! (uid, identity)).
Lemma settled_kept uid identity s s' : reachable s → rtc store_step s s' → settled uid identity s → settled uid identity s'.
Proof.
  intros Hr Hs [[x Hx]|Hk]; [left|right].
  - exists x. by eapply occurrences_forever.
  - by eapply skips_kept.
Qed.
Lemma skip_settles env i uid identity reason selected s a s' :
  skip env i uid identity reason selected s = (inr a, s') → settled uid identity s'.
Proof.
  unfold skip. rewrite call_ok. intros H. unfold RecordTriggerSkip in H. apply tx_mod_inv in H as ->. right. simpl.
  destruct (db_skips (others env i s) !! (uid, identity)) eqn:E; [by rewrite E|by rewrite lookup_insert_eq].
Qed.

Lemma settle_ok {laws : AcceptorLaws acceptor} env trigger spec now selected s a s' :
  reachable s → interference env → settle env trigger spec now selected s = (inr a, s') →
  settled (m_uid trigger.1) (OccurrenceIdentity trigger.1 selected) s'.
Proof.
  intros Hr He H. unfold settle in H. apply proc_bind_ok in H as (deadline&s1&Hd&H). apply proc_lift_ok in Hd as [_ ->].
  case_match; [by eapply skip_settles|]. apply proc_bind_ok in H as (receipt&s2&Hreceipt&H). apply (proj1 (attempt_ok _ _ _ _)) in Hreceipt.
  destruct receipt as [e|r].
  - apply call_fail in Hreceipt as [_ ->]. destruct e; try discriminate H.
    apply proc_bind_ok in H as (active&s3&Hactive&H). case_match; [by eapply skip_settles|].
    apply proc_bind_ok in H as (receipt&s4&Haccept&H). apply proc_ret_ok in H as [_ ->].
    left. eapply accept_receipt; [|exact Haccept].
    assert (Hs1 : reachable (others env 2 s)) by (unfold reachable in *; etrans; [exact Hr|apply He]).
    case_match.
    + apply call_ok, tx_get_inv in Hactive as [_ ->]. unfold reachable in *. etrans; [exact Hs1|apply He].
    + by apply proc_ret_ok in Hactive as [_ ->].
  - apply proc_ret_ok in H as [_ ->]. apply call_ok, tx_row_inv in Hreceipt as [Hx ->]. left. eauto.
Qed.

(** A successful pass over an enabled trigger: either nothing is due and nothing
    is written, or the latest due occurrence is settled and is the new cursor. *)
Lemma reconcileSchedule_ok {laws : AcceptorLaws acceptor} env trigger spec schedule location now s s' :
  reachable s → interference env → parseSchedule spec = inr (schedule, location) →
  reconcileSchedule env trigger spec now s = (inr tt, s') →
  ∃ state s1,
    EnsureTriggerState (m_uid trigger.1) (m_generation trigger.1) (trigger_enabled trigger.2) now (stamp env 0) (others env 0 s) = inr (state, s1) ∧
    if st_enabled state then
      (now < schedule location (st_cursor state) ∧ s' = s1) ∨
      ∃ selected, latest_due (schedule location) (st_cursor state) now selected ∧
        settled (m_uid trigger.1) (OccurrenceIdentity trigger.1 selected) s' ∧
        ts_cursor <$> db_trigger_states s' !! m_uid trigger.1 = Some selected
    else s' = s1.
Proof.
  intros Hr He Hp H. unfold reconcileSchedule in H. rewrite Hp in H.
  apply proc_bind_ok in H as ([]&sp&Hl&H). apply proc_lift_ok in Hl as [[= <- <-] ->].
  apply proc_bind_ok in H as (state&s1&Hs1&H). apply call_ok in Hs1 as Hs. exists state, s1. split; [exact Hs|].
  destruct (st_enabled state); simpl in H; [|by apply proc_ret_ok in H as [_ ->]].
  set (due := due_scan maxCatchupScan (schedule location) now (st_cursor state)) in *.
  assert (Hn : (length due =? maxCatchupScan)%nat && negb (now <? schedule location (default (st_cursor state) (last due))) = false)
    by (by destruct (_ && _)).
  rewrite Hn in H. assert (Hnext : now < schedule location (default (st_cursor state) (last due))).
  { apply andb_false_iff in Hn as [Hn|Hn]; [|by apply negb_false_iff, Z.ltb_lt in Hn].
    apply due_scan_stops. apply Nat.eqb_neq in Hn. unfold due in *.
    pose proof (due_scan_length (schedule location) now maxCatchupScan (st_cursor state)). lia. }
  destruct (last due) as [selected|] eqn:Hlast; simpl in Hnext.
  - right. exists selected. split; [eapply due_scan_latest; [exact Hlast|exact Hnext]|].
    apply proc_bind_ok in H as ([]&s2&Hsettle&H). apply call_ok in H.
    assert (Hr1 : reachable s1).
    { unfold reachable in *. etrans; [exact Hr|]. etrans; [apply (He 0%nat)|]. by eapply commits_trigger_state. }
    assert (Hr2 : reachable s2).
    { unfold reachable in *. etrans; [exact Hr1|]. pose proof (settle_evolves (laws:=laws) env trigger spec now selected He s1) as Hev.
      by rewrite Hsettle in Hev. }
    pose proof (settle_ok _ _ _ _ _ _ _ _ Hr1 He Hsettle) as Hset.
    assert (Hst : rtc store_step s2 s') by (etrans; [apply (He 5%nat)|]; by eapply commits_advance).
    split; [by eapply settled_kept|]. unfold AdvanceTriggerCursor in H. tx_inv. simpl. by rewrite lookup_insert_eq.
  - left. apply proc_ret_ok in H as [_ ->]. done.
Qed.

(** ** Replay and overflow

    A pass that nobody disturbs. *)

Section Solo.
Context {solo : SoloLaws acceptor} (time : Z) (uuid : nat → string).
Abbreviation quiet := (alone time uuid).

Lemma EnsureTriggerState_current uid g enabled now u s r :
  db_trigger_states s !! uid = Some r → ts_generation r = g →
  EnsureTriggerState uid g enabled now u s = inr (trigger_state uid r, s).
Proof.
  intros Hr <-. unfold EnsureTriggerState, ensureTriggerStateTx, mbind, tx_bind, tx_get. rewrite Hr. by rewrite Z.eqb_refl.
Qed.
Lemma EnsureTriggerState_after uid g enabled now u s state s' :
  EnsureTriggerState uid g enabled now u s = inr (state, s') →
  ∃ r, db_trigger_states s' !! uid = Some r ∧ ts_generation r = g ∧ state = trigger_state uid r ∧
    db_receipts s' = db_receipts s ∧ db_tombstones s' = db_tombstones s ∧ db_runs s' = db_runs s.
Proof.
  intros H. unfold EnsureTriggerState, ensureTriggerStateTx in H. tx_inv.
  - apply Z.eqb_eq in Heqb. eauto 10.
  - exists (mkTriggerStateRow g enabled now u). simpl. by rewrite lookup_insert_eq.
  - exists (mkTriggerStateRow g enabled now u). simpl. by rewrite lookup_insert_eq.
Qed.

(** What settling may do to the receipts and the trigger's state. *)
Lemma settle_only trigger spec now selected s r s' :
  settle quiet trigger spec now selected s = (r, s') →
  db_trigger_states s' = db_trigger_states s ∧
  (∀ k, k ≠ (m_uid trigger.1, OccurrenceIdentity trigger.1 selected) → db_receipts s' !! k = db_receipts s !! k) ∧
  (db_receipts s' ≠ db_receipts s →
    lookup_receipt (m_uid trigger.1) (OccurrenceIdentity trigger.1 selected) s = None ∧
    ∃ deadline, ParseDuration (s_startingDeadline spec) hour = inr deadline ∧ Z.min max_int64 (now - selected) ≤ deadline ∧
    (String.eqb (s_concurrencyPolicy spec) "" || String.eqb (s_concurrencyPolicy spec) "forbid" = true →
     result (HasActiveRunForTrigger (m_uid trigger.1)) s = inr false)).
Proof.
  intros H. unfold settle, mbind, proc_bind, proc_lift, attempt, skip in H.
  destruct (ParseDuration (s_startingDeadline spec) hour) as [e|deadline] eqn:Hd; [by injection H as _ <-|].
  destruct (deadline <? Z.min max_int64 (now - selected)) eqn:Hdl.
  { unfold call in H. simpl in H. by injection H as _ <-. }
  apply Z.ltb_ge in Hdl. unfold call at 1 in H. simpl in H. unfold ReceiptByOccurrence, tx_row in H.
  destruct (lookup_receipt (m_uid trigger.1) (OccurrenceIdentity trigger.1 selected) s) as [x|] eqn:Hx; simpl in H.
  { by injection H as _ <-. }
  assert (Hpolicy : ∀ active, (if String.eqb (s_concurrencyPolicy spec) "" || String.eqb (s_concurrencyPolicy spec) "forbid"
            then call quiet 3 (HasActiveRunForTrigger (m_uid trigger.1)) else mret false) s = (ok active, s) →
          String.eqb (s_concurrencyPolicy spec) "" || String.eqb (s_concurrencyPolicy spec) "forbid" = true →
          result (HasActiveRunForTrigger (m_uid trigger.1)) s = inr active).
  { intros active Ha Hp. rewrite Hp in Ha. by injection Ha as <-. }
  assert (Hq : ∃ active, (if String.eqb (s_concurrencyPolicy spec) "" || String.eqb (s_concurrencyPolicy spec) "forbid"
            then call quiet 3 (HasActiveRunForTrigger (m_uid trigger.1)) else mret false) s = (ok active, s)).
  { case_match; eexists; reflexivity. }
  destruct Hq as [active Hq]. rewrite Hq in H. specialize (Hpolicy active Hq). destruct active.
  { unfold call in H. simpl in H. by injection H as _ <-. }
  cbn [ok] in H. unfold ok in H. cbv beta iota in H.
  destruct (accept_trigger _ _ _ _ _ _ _ s) as [[e|receipt] s1] eqn:Ha; injection H as _ <-.
  all: pose proof (accept_only _ _ _ _ _ _ _ _ _ _ Ha) as (H1&H2&H3); split_and!; [exact H2|exact H1|].
  all: intros _; eauto 10.
Qed.

Lemma call_quiet {A} i (t : Tx A) s a s' : t s = inr (a, s') → call quiet i t s = (ok a, s').
Proof. intros H. unfold call. simpl. by rewrite H. Qed.

(** The receipts a pass adds, and when. *)
Lemma reconcileSchedule_only trigger spec schedule location now s r s' :
  parseSchedule spec = inr (schedule, location) → reconcileSchedule quiet trigger spec now s = (r, s') →
  db_receipts s' ≠ db_receipts s →
  ∃ state selected deadline,
    result (EnsureTriggerState (m_uid trigger.1) (m_generation trigger.1) (trigger_enabled trigger.2) now (stamp quiet 0)) s = inr state ∧
    st_enabled state = true ∧ latest_due (schedule location) (st_cursor state) now selected ∧
    (∀ k, k ≠ (m_uid trigger.1, OccurrenceIdentity trigger.1 selected) → db_receipts s' !! k = db_receipts s !! k) ∧
    lookup_receipt (m_uid trigger.1) (OccurrenceIdentity trigger.1 selected) s = None ∧
    ParseDuration (s_startingDeadline spec) hour = inr deadline ∧ Z.min max_int64 (now - selected) ≤ deadline ∧
    result (HasActiveRunForTrigger (m_uid trigger.1)) s = inr false.
Proof.
  intros Hp H Hne. unfold reconcileSchedule, mbind, proc_bind, proc_lift, mret, proc_ret, proc_fail in H. rewrite Hp in H. unfold call at 1 in H. simpl in H.
  destruct (EnsureTriggerState _ _ _ _ _ s) as [e|[state s1]] eqn:He; [by injection H as _ <-|].
  apply EnsureTriggerState_after in He as Hs. destruct Hs as (row&Hrow&Hg&->&Hrc&Htb&Hruns). unfold ok in H. cbv beta iota in H.
  destruct (st_enabled (trigger_state (m_uid trigger.1) row)) eqn:Hen; cbn [negb] in H; [|injection H as _ <-; congruence].
  set (due := due_scan maxCatchupScan (schedule location) now (st_cursor (trigger_state (m_uid trigger.1) row))) in *.
  destruct ((length due =? maxCatchupScan)%nat && negb (now <? schedule location (default (st_cursor (trigger_state (m_uid trigger.1) row)) (last due)))) eqn:Hn;
    [injection H as _ <-; congruence|].
  assert (Hnext : now < schedule location (default (st_cursor (trigger_state (m_uid trigger.1) row)) (last due))).
  { apply andb_false_iff in Hn as [Hn|Hn]; [|by apply negb_false_iff, Z.ltb_lt in Hn].
    apply due_scan_stops. apply Nat.eqb_neq in Hn. unfold due in *.
    pose proof (due_scan_length (schedule location) now maxCatchupScan (st_cursor (trigger_state (m_uid trigger.1) row))). lia. }
  destruct (last due) as [selected|] eqn:Hlast; [|injection H as _ <-; congruence]. simpl in Hnext.
  destruct (settle quiet trigger spec now selected s1) as [rs s2] eqn:Hset.
  pose proof (settle_only _ _ _ _ _ _ _ Hset) as (_&Honly&Hwhy).
  assert (Hrec : db_receipts s' = db_receipts s2).
  { destruct rs as [e|[]]; [by injection H as _ <-|]. unfold call in H. simpl in H.
    destruct (AdvanceTriggerCursor _ _ _ s2) as [e|[u s3]] eqn:Hadv; injection H as _ <-; [done|].
    unfold AdvanceTriggerCursor in Hadv. by tx_inv. }
  destruct Hwhy as (Hnone&deadline&Hdl&Hle&Hforbid); [congruence|].
  assert (Hpolicy : String.eqb (s_concurrencyPolicy spec) "" || String.eqb (s_concurrencyPolicy spec) "forbid" = true).
  { unfold parseSchedule in Hp. repeat case_match; try done; apply res_bind_ok in Hp as ([]&_&Hp); try discriminate Hp;
    apply res_bind_ok in Hp as ([]&_&Hp); apply res_bind_ok in Hp as ([]&Hg1&_); by apply guard_err_ok in Hg1. }
  exists (trigger_state (m_uid trigger.1) row), selected, deadline. split_and!; try done.
  - unfold result. by rewrite He.
  - eapply due_scan_latest; [exact Hlast|exact Hnext].
  - intros k Hk. rewrite Hrec, <- Hrc. by apply Honly.
  - unfold lookup_receipt in *. by rewrite <- Hrc, <- Htb.
  - specialize (Hforbid Hpolicy). unfold result, HasActiveRunForTrigger, tx_get in *. by rewrite Hrc, Hruns in Hforbid.
Qed.

(** A second pass at the same instant finds nothing to do. *)
Lemma reconcileSchedule_again trigger spec now s s' :
  reconcileSchedule quiet trigger spec now s = (inr tt, s') → reconcileSchedule quiet trigger spec now s' = (ok tt, s').
Proof.
  intros H. unfold reconcileSchedule in *. destruct (parseSchedule spec) as [e|[schedule location]]; [discriminate H|].
  unfold mbind, proc_bind, proc_lift in *. unfold ok in *. cbv beta iota in *.
  destruct (call quiet 0 _ s) as [[e|state] s1] eqn:Hc; [discriminate H|]. apply call_ok in Hc. simpl in Hc.
  apply EnsureTriggerState_after in Hc as (row&Hrow&Hg&->&_).
  assert (Hagain : ∀ r s2, db_trigger_states s2 !! m_uid trigger.1 = Some r → ts_generation r = m_generation trigger.1 →
    call quiet 0 (EnsureTriggerState (m_uid trigger.1) (m_generation trigger.1) (trigger_enabled trigger.2) now (stamp quiet 0)) s2
    = (inr (trigger_state (m_uid trigger.1) r), s2)).
  { intros r s2 Hr Hgr. by apply call_quiet, EnsureTriggerState_current. }
  destruct (st_enabled (trigger_state (m_uid trigger.1) row)) eqn:Hen; cbn [negb] in H.
  2: { injection H as <-. rewrite (Hagain row) by done. by rewrite Hen. }
  match type of H with context [if ?b then proc_fail _ else _] => destruct b eqn:Hn; [discriminate H|] end.
  destruct (last (due_scan maxCatchupScan (schedule location) now (st_cursor (trigger_state (m_uid trigger.1) row)))) as [selected|] eqn:Hlast.
  2: { injection H as <-. rewrite (Hagain row) by done. rewrite Hen. cbn [negb]. by rewrite Hlast, Hn. }
  destruct (settle quiet trigger spec now selected s1) as [[e|[]] s2] eqn:Hset; [discriminate H|].
  apply settle_only in Hset as (Hst&_&_). apply call_ok in H. simpl in H. unfold AdvanceTriggerCursor in H. tx_inv.
  rewrite Hst, Hrow in Hrow0. injection Hrow0 as <-.
  rewrite (Hagain (mkTriggerStateRow (ts_generation row) (ts_enabled row) selected (stamp quiet 5))) by (simpl; by rewrite ?lookup_insert_eq).
  unfold trigger_state in *. simpl in *. rewrite Hen. cbn [negb].
  assert (Hnext : now < schedule location selected).
  { apply andb_false_iff in Hn as [Hn|Hn]; [|by apply negb_false_iff, Z.ltb_lt in Hn].
    pose proof (due_scan_stops (schedule location) now maxCatchupScan (ts_cursor row)) as Hs. rewrite Hlast in Hs. apply Hs.
    apply Nat.eqb_neq in Hn. pose proof (due_scan_length (schedule location) now maxCatchupScan (ts_cursor row)). lia. }
  rewrite (due_scan_none _ _ _ _ Hnext). simpl. by rewrite (proj2 (Z.ltb_lt _ _) Hnext), andb_false_r.
Qed.
End Solo.

(** More occurrences than a scan admits: the pass fails and leaves the cursor. *)
Lemma reconcileSchedule_overflow env trigger spec schedule location row now s :
  parseSchedule spec = inr (schedule, location) →
  db_trigger_states (others env 0 s) !! m_uid trigger.1 = Some row →
  ts_generation row = m_generation trigger.1 → ts_enabled row = true →
  (∀ k, (k ≤ maxCatchupScan)%nat → Nat.iter (S k) (schedule location) (ts_cursor row) ≤ now) →
  reconcileSchedule env trigger spec now s = (fail overflow_error, others env 0 s).
Proof.
  intros Hp Hrow Hg Hen Hmany. unfold reconcileSchedule, mbind, proc_bind, proc_lift. rewrite Hp. cbv beta iota.
  unfold call at 1. cbv zeta. rewrite (EnsureTriggerState_current _ _ _ _ _ _ row Hrow Hg). unfold ok. cbv beta iota.
  unfold trigger_state. simpl st_enabled. rewrite Hen. cbn [negb st_cursor].
  destruct (due_scan_full (schedule location) now maxCatchupScan (ts_cursor row)) as [Hl Hd].
  { intros k Hk. apply Hmany. lia. }
  rewrite Hl, Nat.eqb_refl, Hd.
  pose proof (Hmany maxCatchupScan ltac:(lia)) as Hlast. simpl in Hlast. by rewrite (proj2 (Z.ltb_ge _ _) Hlast).
Qed.

(** ** Subscriptions *)

(** After a synchronisation exactly the wanted Triggers run, each at its
    generation. *)
Lemma resubscribe_subscriptions wanted c :
  ct_subscriptions (resubscribe wanted c).1.1 = (λ trigger, m_generation trigger.1) <$> wanted.
Proof.
  apply map_eq. intros uid. unfold resubscribe. simpl. set (kept := filter _ (ct_subscriptions c)).
  assert (Hk : ∀ g, kept !! uid = Some g ↔ ct_subscriptions c !! uid = Some g ∧ outdated wanted (uid, g) = false).
  { intros g. unfold kept. by rewrite map_lookup_filter_Some. }
  rewrite lookup_fmap. destruct (kept !! uid) as [g|] eqn:E.
  - rewrite (lookup_union_Some_l _ _ _ _ E). destruct (proj1 (Hk g) eq_refl) as [_ Ho]. unfold outdated in Ho. simpl in Ho.
    destruct (wanted !! uid) as [trigger|]; [|done]. simpl. apply negb_false_iff, Z.eqb_eq in Ho. by subst.
  - rewrite lookup_union_r by done. rewrite lookup_fmap, map_lookup_filter. destruct (wanted !! uid) as [trigger|]; [|done].
    simpl. case_guard as Hg; [done|]. by destruct Hg.
Qed.

(** The backoff between two watches never exceeds a minute. *)
Lemma next_backoff_bounded b : second ≤ b ≤ 60 * second → second ≤ next_backoff b ≤ 60 * second.
Proof. unfold next_backoff, maxBackoff, second. intros H. destruct (b <? 30 * 1000000000) eqn:E; [apply Z.ltb_lt in E|]; lia. Qed.
End Acceptance.
