(* ===== verification/Samples.v ===== *)
(** A concrete flow, its plan and a short history of the store: the inputs of
    the witnesses. *)

From Stdlib Require String.
From S2P Require Import Prelude.
From S2P Require Import Json.
From S2P Require Import GoStd.
From S2P Require Import Resource.
From S2P Require Import Plan.
From S2P Require Import Db.
From S2P Require Import StoreRuns.
From S2P Require Import StoreResources.
From S2P Require Import StoreOutbox.
From S2P Require Import StorePlugins.
From S2P Require Import StoreStep.
From S2P Require Import EngineModel.
From S2P Require Import EngineNode.
From S2P Require Import EngineInterp.
From S2P Require Import EngineSched.
From S2P Require Import EngineAdapter.
From S2P Require Import Orchestrator.

Local Open Scope Z_scope.

#[export] Instance sample_calendar : Calendar := {| cron_parses _ := true; location_loads _ := true |}.
#[export] Instance sample_digest : Digest := {| document_digest d := m_name (doc_meta d); object_digest _ := "" |}.
(** Every condition holds. *)
#[export] Instance sample_cel : Cel := λ _ _ _ _, CelBool true.

(** A program whose result is known. *)
Lemma triple {A B C} (p : A * B * C) a : p.1.1 = a → p = (a, p.1.2, p.2).
Proof. destruct p as [[? ?] ?]. by intros <-. Qed.
Lemma pair_fst {A B} (p : A * B) a : p.1 = a → p = (a, p.2).
Proof. destruct p. by intros <-. Qed.

Definition t0 : Z := 1700000000 * second.
Definition now0 : string := rfc3339nano t0.

Definition sample_flow : FlowSpec :=
  mkFlowSpec [] [] (mkPolicies "1h" 2)
    [mkNode "a" "" "core.noop" [] None "" None; mkNode "b" "" "core.noop" [] None "" (Some (Resource.mkLoop 3));
     mkNode "c" "" "core.noop" [] None "" (Some (Resource.mkLoop 3)); mkNode "gate" "" "core.approval" [] None "1h" None]
    [mkEdge "a" "b" ""; mkEdge "b" "c" ""; mkEdge "c" "b" "result.again"; mkEdge "c" "gate" ""].
Definition sample_document : Document :=
  mkDocument APIVersion (mkMeta "deploy" "default" "" 0 0 ∅) (SpecFlow sample_flow) [].

Definition sample_node (id uses timeout : string) (loop : Z) : PlanNode :=
  mkPlanNode id id "default" uses [] 2 "1s" timeout loop None None [].
Definition sample_plan : ExecutionPlan :=
  mkPlan APIVersion "flow-uid" 1 InterpreterVersion "1h" 2 "{}"
    [sample_node "a" "core.noop" "1m" 0; sample_node "b" "core.noop" "1m" 3; sample_node "c" "core.noop" "1m" 3;
     sample_node "gate" "core.approval" "1h" 0]
    [mkPlanEdge "a" "b" ""; mkPlanEdge "b" "c" ""; mkPlanEdge "c" "b" "result.again"; mkPlanEdge "c" "gate" ""]
    [["a"]; ["b"; "c"]; ["gate"]] "plan-hash".

Definition no_options : ApplyOptions := mkApplyOptions 0 "" "" "".
Definition apply_sample : Tx Document := Apply sample_document no_options "flow-uid" "request-1" t0.
Definition accept_sample (occurrence receipt run : string) : Tx Receipt :=
  acceptTrigger "manual:default:deploy" 0 occurrence "deploy" "default" "{}" true "" "" (Some sample_plan) receipt run now0.
Definition start_payload (occurrence receipt run : string) : StartPayload :=
  mkStartPayload run receipt "deploy" "default" "plan-hash" "{}" (startKey "manual:default:deploy" occurrence).

Definition s1 : Db := commit apply_sample empty_db.
Definition s2 : Db := commit (accept_sample "occ-1" "receipt-1" "run-1") s1.
Definition s3 : Db := commit (accept_sample "occ-2" "receipt-2" "run-2") s2.
Definition s4 : Db := commit (claim (λ _, true) t0 (5 * second)) s3.
Definition s5 : Db := commit (EnsureRun (start_payload "occ-1" "receipt-1" "run-1") sample_plan now0) s4.
Definition s6 : Db := commit (BeginNodeAttempt "run-1" "a" 0 1 "key" "{}" now0) s5.
Definition s7 : Db := commit (CompleteNodeAttempt "run-1" "a" 0 1 "succeeded" "{}" "" "completed" now0) s6.
Definition s8 : Db := commit (EnsureApproval "run-1" "gate" (Some now0)) s7.
Definition s9 : Db := commit (DecideApproval "run-1" "gate" "approved" "alice" "" now0) s8.
Definition s10 : Db := commit (AppendRunEvent "run-1" "" "run.succeeded" "succeeded" 0 "" now0) s9.
Definition s11 : Db := commit (CompleteOutbox 1 now0) s10.
Definition s12 : Db := commit (CollectRetainedRuns ["run-1"] now0) s11.

(** A committed operation is one step. *)
Lemma commit_inr {A} (op : Tx A) s a : result op s = inr a → op s = inr (a, commit op s).
Proof. unfold result, commit. destruct (op s) as [e|[b s']]; [done|]. by intros [= ->]. Qed.

Lemma step_s1 : store_step empty_db s1.
Proof. eapply step_apply, commit_inr. vm_compute. reflexivity. Qed.
Lemma step_s2 : store_step s1 s2.
Proof. eapply step_accept, commit_inr. vm_compute. reflexivity. Qed.
Lemma step_s3 : store_step s2 s3.
Proof. eapply step_accept, commit_inr. vm_compute. reflexivity. Qed.
Lemma step_s4 : store_step s3 s4.
Proof. eapply step_claim, commit_inr. vm_compute. reflexivity. Qed.
Lemma step_s5 : store_step s4 s5.
Proof. eapply step_ensure_run, commit_inr. vm_compute. reflexivity. Qed.
Lemma step_s6 : store_step s5 s6.
Proof. eapply step_begin, commit_inr. vm_compute. reflexivity. Qed.
Lemma step_s7 : store_step s6 s7.
Proof. eapply step_complete_attempt, commit_inr. vm_compute. reflexivity. Qed.
Lemma step_s8 : store_step s7 s8.
Proof. eapply step_approval, commit_inr. vm_compute. reflexivity. Qed.
Lemma step_s9 : store_step s8 s9.
Proof. eapply step_decide, commit_inr. vm_compute. reflexivity. Qed.
Lemma step_s10 : store_step s9 s10.
Proof. eapply step_run_event, commit_inr. vm_compute. reflexivity. Qed.
Lemma step_s11 : store_step s10 s11.
Proof. eapply step_complete, commit_inr. vm_compute. reflexivity. Qed.
Lemma step_s12 : store_step s11 s12.
Proof. eapply step_collect_runs, commit_inr. vm_compute. reflexivity. Qed.

Lemma reach_1 : reachable s1.
Proof. eapply rtc_r; [apply rtc_refl|apply step_s1]. Qed.
Lemma reach_2 : reachable s2.
Proof. eapply rtc_r; [apply reach_1|apply step_s2]. Qed.
Lemma reach_3 : reachable s3.
Proof. eapply rtc_r; [apply reach_2|apply step_s3]. Qed.
Lemma reach_5 : reachable s5.
Proof. do 2 (eapply rtc_r; [|first [apply step_s5|apply step_s4]]). apply reach_3. Qed.
Lemma reach_6 : reachable s6.
Proof. eapply rtc_r; [apply reach_5|apply step_s6]. Qed.
Lemma reach_7 : reachable s7.
Proof. eapply rtc_r; [apply reach_6|apply step_s7]. Qed.
Lemma run_9_12 : rtc store_step s9 s12.
Proof. eapply rtc_l; [apply step_s10|]. eapply rtc_l; [apply step_s11|]. eapply rtc_l; [apply step_s12|]. apply rtc_refl. Qed.
Lemma reach_9 : reachable s9.
Proof. eapply rtc_r; [|apply step_s9]. eapply rtc_r; [apply reach_7|apply step_s8]. Qed.
Lemma reach_12 : reachable s12.
Proof. unfold reachable; etrans; [apply reach_9|apply run_9_12]. Qed.
