(* ===== verification/Properties.v ===== *)
(** The properties of the store, each with a witness at the sample history of
    [Samples].  The lemmas they rest on are in the file of the component they
    speak of. *)

From Stdlib Require String.
From S2P Require Import Prelude.
From S2P Require Import Json.
From S2P Require Import GoStd.
From S2P Require Import Resource.
From S2P Require Import Plan.
From S2P Require Import Db.
From S2P Require Import StoreRuns.
From S2P Require Import StoreResources.
From S2P Require Import StoreOutbox.
From S2P Require Import StorePlugins.
From S2P Require Import StoreStep.
From S2P Require Import StoreSafety.
From S2P Require Import StoreHistory.
From S2P Require Import StoreWatch.
From S2P Require Import StoreAttempts.
From S2P Require Import StoreOps.
From S2P Require Import ServerPages.
From S2P Require Import ServerPagesFacts.
From S2P Require Import Proc.
From S2P Require Import Samples.

Local Open Scope Z_scope.

(** ** Acceptance *)

(** C1. An accepted occurrence keeps its receipt and its Run UID for ever: under
    any later operations, retention of the Run included, looking the occurrence
    up gives the same receipt, so a redelivered trigger never starts a second
    Run. *)
Theorem occurrence_is_permanent {cal : Calendar} {dig : Digest} s s' trigger occurrence r :
  reachable s → rtc store_step s s' → lookup_receipt trigger occurrence s = Some r →
  lookup_receipt trigger occurrence s' = Some r.
Proof. intros Hr Hs. apply (occurrences_forever _ _ Hr Hs). Qed.

Lemma occurrence_is_permanent_witness :
  lookup_receipt "manual:default:deploy" "occ-1" s12
  = Some (mkReceipt "receipt-1" "manual:default:deploy" "occ-1" "run-1" true now0 false).
Proof. apply (occurrence_is_permanent s9 s12); [exact reach_9|exact run_9_12|vm_compute; reflexivity]. Defined.

(** C2. No accepted work is lost: as long as an occurrence has its receipt row,
    the outbox holds a command for its Run that names that receipt, under the
    idempotency key of the occurrence. *)
Theorem accepted_work_is_kept {cal : Calendar} {dig : Digest} s trigger occurrence r :
  reachable s → db_receipts s !! (trigger, occurrence) = Some r →
  ∃ o, o ∈ db_outbox s ∧ ob_aggregate o = rc_run r ∧ command_receipt (ob_payload o) = rc_uid r ∧
    (ob_key o = startKey trigger occurrence ∨ ob_key o = signalKey trigger occurrence).
Proof.
  intros Hs Hr. apply carried_reachable in Hs. specialize (Hs _ _ _ Hr). apply Exists_exists in Hs as (c&Hc&H).
  apply list_elem_of_fmap in Hc as (o&->&Ho). destruct H as (?&?&?). eauto 10.
Qed.

Lemma accepted_work_is_kept_witness :
  ∃ o, o ∈ db_outbox s12 ∧ ob_aggregate o = "run-2" ∧ command_receipt (ob_payload o) = "receipt-2" ∧
    (ob_key o = startKey "manual:default:deploy" "occ-2" ∨ ob_key o = signalKey "manual:default:deploy" "occ-2").
Proof.
  apply (accepted_work_is_kept s12 "manual:default:deploy" "occ-2" (mkReceiptRow "receipt-2" "" "{}" true "run-2" now0));
    [exact reach_12|vm_compute; reflexivity].
Defined.

(** Commands have distinct idempotency keys, their ids grow with insertion,
    and each row's key and aggregate are those of its payload. *)
Theorem outbox_is_well_formed {cal : Calendar} {dig : Digest} s :
  reachable s → outbox_ok (db_outbox s) (db_outbox_seq s).
Proof. apply outbox_reachable. Qed.

Lemma outbox_is_well_formed_witness : outbox_ok (db_outbox s12) (db_outbox_seq s12).
Proof. apply outbox_is_well_formed. exact reach_12. Defined.

(** [claim] hands out the oldest command that is due and not leased, marks
    it inflight, and reports [ErrNotFound] exactly when there is none. *)
Theorem claim_is_fifo {cal : Calendar} {dig : Digest} s kind t staleAfter :
  reachable s → claim_result kind t staleAfter s (claim kind t staleAfter s).
Proof. intros Hs. apply claim_spec. apply (outbox_reachable _ Hs). Qed.

Lemma claim_is_fifo_witness : claim_result (λ _, true) t0 (5 * second) s3 (claim (λ _, true) t0 (5 * second) s3).
Proof. apply claim_is_fifo. exact reach_3. Defined.

(** A claim is a lease: until its timestamp text is below the stale bound of
    a later claim, that claim returns another command. *)
Theorem claim_is_exclusive {cal : Calendar} {dig : Digest} s kind t d o s' kind' t' d' o' s'' :
  reachable s → claim kind t d s = inr (o, s') → str_lt (rfc3339nano t) (rfc3339nano (t' - d')) = false →
  claim kind' t' d' s' = inr (o', s'') → ob_id o' ≠ ob_id o.
Proof. intros Hs. apply lease_excludes. apply (outbox_reachable _ Hs). Qed.

Lemma claim_is_exclusive_witness :
  ∃ o o' s'', claim (λ _, true) t0 (5 * second) s3 = inr (o, s4) ∧ claim (λ _, true) t0 (5 * second) s4 = inr (o', s'') ∧
    ob_id o' ≠ ob_id o.
Proof.
  eexists _, _, _. split; [apply commit_inr; vm_compute; reflexivity|]. split; [apply commit_inr; vm_compute; reflexivity|].
  eapply (claim_is_exclusive s3 (λ _, true) t0 (5 * second) _ s4 (λ _, true) t0 (5 * second)); [exact reach_3| | |];
    [apply commit_inr; vm_compute; reflexivity|vm_compute; reflexivity|apply commit_inr; vm_compute; reflexivity].
Defined.

(** ** Runs *)

(** C3. A Run row keeps the columns fixed at acceptance (flow, receipt, plan,
    interpreter, input, creation); once its phase is terminal the phase and the
    completion time never change, and only a terminal row can disappear. *)
Theorem terminal_run_is_final {cal : Calendar} {dig : Digest} s s' run r :
  reachable s → store_step s s' → db_runs s !! run = Some r →
  (db_runs s' !! run = None ∧ terminalRunPhase (run_phase r) = true) ∨
  ∃ r', db_runs s' !! run = Some r' ∧ pinned r' = pinned r ∧
    (terminalRunPhase (run_phase r) = true → run_phase r' = run_phase r ∧ run_completed r' = run_completed r).
Proof.
  intros Hr Hs Hu. pose proof (runs_ok_reachable _ Hr) as Hok.
  destruct (proj1 (runs_step _ _ Hok Hs) _ _ Hu) as [?|(r'&?&Hp&Hph&Hc)]; [by left|right].
  exists r'. split_and!; [done|done|]. intros Ht. split; [auto|]. apply Hc; [done|]. by apply (Hok _ _ Hu).
Qed.

Lemma terminal_run_is_final_witness :
  ∃ r, db_runs s10 !! "run-1" = Some r ∧ terminalRunPhase (run_phase r) = true ∧
  ((db_runs s11 !! "run-1" = None ∧ terminalRunPhase (run_phase r) = true) ∨
   ∃ r', db_runs s11 !! "run-1" = Some r' ∧ pinned r' = pinned r ∧
    (terminalRunPhase (run_phase r) = true → run_phase r' = run_phase r ∧ run_completed r' = run_completed r)).
Proof.
  eexists. split; [vm_compute; reflexivity|]. split; [vm_compute; reflexivity|].
  apply (terminal_run_is_final s10 s11 "run-1"); [|exact step_s11|vm_compute; reflexivity].
  eapply rtc_r; [exact reach_9|exact step_s10].
Defined.

(** The plan a Run is pinned to can always be read back, and it is the plan
    with that hash: no operation, retention included, removes or replaces it
    while the Run exists. *)
Theorem run_plan_is_available {cal : Calendar} {dig : Digest} s run r :
  reachable s → db_runs s !! run = Some r →
  ∃ plan, result (GetPlan (run_plan r)) s = inr plan ∧ pl_planHash plan = run_plan r.
Proof.
  intros Hs Hr. destruct (plans_reachable _ Hs) as [H1 H2]. destruct (H2 _ _ Hr) as [p Hp].
  exists (pr_plan p). split; [|by apply (H1 _ _ Hp)]. unfold result, GetPlan, tx_row. by rewrite Hp.
Qed.

Lemma run_plan_is_available_witness :
  ∃ r, db_runs s9 !! "run-1" = Some r ∧ ∃ plan, result (GetPlan (run_plan r)) s9 = inr plan ∧ pl_planHash plan = run_plan r.
Proof.
  eexists. split; [vm_compute; reflexivity|]. eapply (run_plan_is_available s9 "run-1"); [exact reach_9|vm_compute; reflexivity].
Defined.

(** C4. The event log of every Run is numbered 1, 2, 3, ... without gaps or
    repetitions, in the order the events were written. *)
Theorem run_events_are_contiguous {cal : Calendar} {dig : Digest} s run :
  reachable s → seqs_of run (db_run_events s) = seqZ 1 (Z.of_nat (length (seqs_of run (db_run_events s)))).
Proof. intros Hs. apply (log_reachable _ Hs). Qed.

Lemma run_events_are_contiguous_witness :
  seqs_of "run-1" (db_run_events s9) = seqZ 1 (Z.of_nat (length (seqs_of "run-1" (db_run_events s9)))) ∧
  (1 < length (seqs_of "run-1" (db_run_events s9)))%nat.
Proof. split; [apply run_events_are_contiguous; exact reach_9|vm_compute; lia]. Defined.

(** At most one attempt of a delivery (run, node, iteration, framework
    attempt) is open. *)
Theorem one_open_attempt {cal : Calendar} {dig : Digest} s k1 k2 a1 a2 :
  reachable s → db_attempts s !! k1 = Some a1 → db_attempts s !! k2 = Some a2 → k1.1 = k2.1 →
  at_framework a1 = at_framework a2 → at_completed a1 = None → at_completed a2 = None → k1 = k2.
Proof. intros Hs. apply (single_open_reachable _ Hs). Qed.

Lemma one_open_attempt_witness :
  ∃ a, db_attempts s6 !! ("run-1", "a", 0, 1) = Some a ∧ at_completed a = None ∧
    (("run-1", "a", 0, 1) : attempt_key) = ("run-1", "a", 0, 1).
Proof.
  eexists. split; [vm_compute; reflexivity|]. split; [vm_compute; reflexivity|].
  eapply (one_open_attempt s6 ("run-1", "a", 0, 1) ("run-1", "a", 0, 1)); [exact reach_6|vm_compute; reflexivity|vm_compute; reflexivity|reflexivity..].
Defined.

(** C5. A completed attempt is evidence: its phase, output, error and times
    never change, and a recorded exit outcome is never overwritten. *)
Theorem attempt_evidence_is_immutable {cal : Calendar} {dig : Digest} s s' k a a' :
  store_step s s' → db_attempts s !! k = Some a → db_attempts s' !! k = Some a' → is_Some (at_completed a) →
  attempt_result a' = attempt_result a ∧ (at_outcome a ≠ "" → at_outcome a' = at_outcome a).
Proof. intros Hs Ha Ha' Hc. destruct (attempts_step _ _ Hs _ _ _ Ha Ha') as [H1 H2]. split; [by apply H1|intros; by apply H2]. Qed.

Lemma attempt_evidence_is_immutable_witness :
  ∃ a a', db_attempts s7 !! ("run-1", "a", 0, 1) = Some a ∧ db_attempts s8 !! ("run-1", "a", 0, 1) = Some a' ∧
    attempt_result a' = attempt_result a ∧ (at_outcome a ≠ "" → at_outcome a' = at_outcome a).
Proof.
  eexists _, _. split; [vm_compute; reflexivity|]. split; [vm_compute; reflexivity|].
  eapply (attempt_evidence_is_immutable s7 s8 ("run-1", "a", 0, 1)); [exact step_s8|vm_compute; reflexivity|vm_compute; reflexivity|vm_compute; eauto].
Defined.

(** An approval is decided once: a decision, its actor and its time never
    change, and a delivered decision stays delivered. *)
Theorem approval_is_decided_once {cal : Calendar} {dig : Digest} s s' k a a' :
  store_step s s' → db_approvals s !! k = Some a → db_approvals s' !! k = Some a' → ap_state a ≠ "pending" →
  decision a' = decision a ∧ (ap_delivered a = true → ap_delivered a' = true).
Proof.
  intros Hs Ha Ha' Hd. apply (proj1 (approvals_step _ _ Hs _ _ _ Ha Ha')). unfold decided. by rewrite (proj2 (String.eqb_neq _ _) Hd).
Qed.

Lemma approval_is_decided_once_witness :
  ∃ a a', db_approvals s9 !! ("run-1", "gate") = Some a ∧ db_approvals s10 !! ("run-1", "gate") = Some a' ∧
    decision a' = decision a ∧ (ap_delivered a = true → ap_delivered a' = true).
Proof.
  eexists _, _. split; [vm_compute; reflexivity|]. split; [vm_compute; reflexivity|].
  eapply (approval_is_decided_once s9 s10 ("run-1", "gate")); [exact step_s10|vm_compute; reflexivity|vm_compute; reflexivity|vm_compute; discriminate].
Defined.

(** ** Resources *)




(** [List] is not such a listing: its revision is read by a second statement, so a
    write in between is in neither the rows nor the events after the revision. *)
Definition write_between : Env := mkEnv (λ i s, match i with 1%nat => s1 | _ => s end) (λ _, t0) (λ _, "").
Lemma List_can_miss_a_write :
  ∃ documents revision s', List_ write_between 0 "" "" 10 empty_db = (inr (documents, revision), s') ∧
    rtc store_step empty_db s' ∧ result (EventsAfter "" "" revision 10) s' = ok [] ∧ view_of documents ≠ docs s'.
Proof.
  exists [], 1, s1. split_and!; [vm_compute; reflexivity|apply rtc_once, step_s1|vm_compute; reflexivity|].
  intros H. assert (H' : docs s1 !! ("Flow", "default", "deploy") = None) by (rewrite <- H; reflexivity). vm_compute in H'. discriminate H'.
Qed.

(** The whole watch log replays to the resource table, and its revisions
    are positive, strictly increasing and never above the global revision. *)
Theorem watch_log_replays {cal : Calendar} {dig : Digest} s :
  reachable s →
  Forall (λ e, 0 < re_revision e ≤ db_revision s) (db_resource_events s) ∧
  StronglySorted Z.lt (re_revision <$> db_resource_events s) ∧ replay ∅ (db_resource_events s) = docs s.
Proof. intros Hs. apply (log_of_reachable _ Hs). Qed.

Lemma watch_log_replays_witness :
  Forall (λ e, 0 < re_revision e ≤ db_revision s12) (db_resource_events s12) ∧
  StronglySorted Z.lt (re_revision <$> db_resource_events s12) ∧ replay ∅ (db_resource_events s12) = docs s12.
Proof. apply watch_log_replays. exact reach_12. Defined.

(** Apply is compare-and-swap: it succeeds only on the expected version,
    stores the document under a new revision, keeps UID, status and creation
    time, and raises the generation exactly when the spec changed. *)
Theorem apply_swaps {cal : Calendar} {dig : Digest} d o uid request t s d' s' :
  Apply d o uid request t s = inr (d', s') → applied d o uid s d' s'.
Proof. apply apply_applied. Qed.

Lemma apply_swaps_witness : ∃ d', applied sample_document no_options "flow-uid" empty_db d' s1.
Proof. eexists. eapply (apply_swaps sample_document no_options "flow-uid" "request-1" t0), commit_inr. vm_compute. reflexivity. Defined.

(** Of two writers that read the same version, the second is refused with
    the version the first one wrote: no update is lost. *)
Theorem concurrent_apply_conflicts {cal : Calendar} {dig : Digest} d1 o1 u1 q1 t1 d2 o2 u2 q2 t2 s r s' :
  reachable s → Apply d1 o1 u1 q1 t1 s = inr (r, s') →
  document_key d2 = document_key d1 → expected_version d2 o2 = expected_version d1 o1 →
  Apply d2 o2 u2 q2 t2 s' = inl (ErrConflict (expected_version d2 o2) (db_revision s + 1)).
Proof. intros Hs Ha. by apply (apply_race d1 o1 u1 q1 t1 _ _ _ _ _ _ r). Qed.

Lemma concurrent_apply_conflicts_witness :
  Apply sample_document no_options "uid-2" "request-2" t0 s1 = inl (ErrConflict 0 1).
Proof.
  eapply (concurrent_apply_conflicts sample_document no_options "flow-uid" "request-1" t0 sample_document no_options "uid-2" "request-2" t0 empty_db);
    [apply rtc_refl|apply commit_inr; vm_compute; reflexivity|reflexivity|reflexivity].
Defined.

(** Decoding is idempotent: a document that [DecodeStrict] returns, default
    namespace filled in, is accepted again unchanged. *)
Theorem decode_is_idempotent {cal : Calendar} d d' : DecodeStrict d = inr d' → DecodeStrict d' = inr d'.
Proof. apply DecodeStrict_idem. Qed.

Lemma decode_is_idempotent_witness :
  let d := mkDocument APIVersion (mkMeta "deploy" "" "" 0 0 ∅) (SpecFlow sample_flow) [] in
  ∃ d', DecodeStrict d = inr d' ∧ m_namespace (doc_meta d') = "default" ∧ DecodeStrict d' = inr d'.
Proof.
  eexists. split; [vm_compute; reflexivity|]. split; [reflexivity|].
  apply (decode_is_idempotent (mkDocument APIVersion (mkMeta "deploy" "" "" 0 0 ∅) (SpecFlow sample_flow) [])).
  vm_compute. reflexivity.
Defined.

(** ** Artifacts and retention *)

(** The path of a stored artifact stays below the state directory: it is a
    non-empty relative path whose components are neither empty, ["."] nor [".."]
    and hold no slash. *)
Theorem artifact_path_is_confined a fresh now s row s' :
  PutArtifact a fresh now s = inr (row, s') →
  ∃ parts, parts ≠ [] ∧ ar_path row = join "/" parts ∧ Forall ordinary parts.
Proof. apply artifact_inside. Qed.

Definition sample_artifact : ArtifactArg :=
  mkArtifactArg "" "run-1" "a" 0 1 "report" "" "runs/./x/../run-1/report.txt" 5
    "e3b0c44298fc1c149afbf4c8996fb92427ae41e4649b934ca495991b7852b855".
Lemma artifact_path_is_confined_witness :
  ∃ row s', PutArtifact sample_artifact "artifact-1" now0 s7 = inr (row, s') ∧ ar_path row = "runs/run-1/report.txt" ∧
    ∃ parts, parts ≠ [] ∧ ar_path row = join "/" parts ∧ Forall ordinary parts.
Proof.
  eexists _, _. split; [apply commit_inr; vm_compute; reflexivity|]. split; [reflexivity|].
  eapply (artifact_path_is_confined sample_artifact "artifact-1" now0 s7). apply commit_inr. vm_compute. reflexivity.
Defined.

(** Retention removes only what was selected and is finished: a Run that
    disappears was in the list, terminal, and had no undelivered command. *)
Theorem retention_removes_finished_runs runs now s a s' run r :
  CollectRetainedRuns runs now s = inr (a, s') → db_runs s !! run = Some r → db_runs s' !! run = None →
  run ∈ runs ∧ terminalRunPhase (run_phase r) = true ∧ open_dispatch run s = false.
Proof.
  unfold CollectRetainedRuns. intros H Hr Hn. apply tx_bind_inv in H as (x&s1&Hg&H). apply tx_guard_inv in Hg as [_ ->].
  by eapply collect_runs_selects.
Qed.

Lemma retention_removes_finished_runs_witness :
  ∃ r, db_runs s11 !! "run-1" = Some r ∧ db_runs s12 !! "run-1" = None ∧
    "run-1" ∈ ["run-1"] ∧ terminalRunPhase (run_phase r) = true ∧ open_dispatch "run-1" s11 = false.
Proof.
  eexists. split; [vm_compute; reflexivity|]. split; [vm_compute; reflexivity|].
  eapply (retention_removes_finished_runs ["run-1"] now0 s11); [apply commit_inr; vm_compute; reflexivity|vm_compute; reflexivity|vm_compute; reflexivity].
Defined.
