(* ===== verification/PropertiesEngine.v ===== *)
(** The properties of the interpreter, the activities, the adapter and the
    dispatch loop, each with a witness. *)

From Stdlib Require String.
From S2P Require Import Prelude.
From S2P Require Import Json.
From S2P Require Import GoStd.
From S2P Require Import Resource.
From S2P Require Import Plan.
From S2P Require Import Db.
From S2P Require Import StoreRuns.
From S2P Require Import StoreResources.
From S2P Require Import StoreOutbox.
From S2P Require Import StorePlugins.
From S2P Require Import StoreStep.
From S2P Require Import StoreSafety.
From S2P Require Import StoreHistory.
From S2P Require Import StoreWatch.
From S2P Require Import StoreAttempts.
From S2P Require Import StoreOps.
From S2P Require Import EngineModel.
From S2P Require Import EngineOrder.
From S2P Require Import EngineNode.
From S2P Require Import EngineReplay.
From S2P Require Import EngineInterp.
From S2P Require Import EngineLoop.
From S2P Require Import EngineSched.
From S2P Require Import EngineAdapter.
From S2P Require Import Orchestrator.
From S2P Require Import OrchestratorSafety.
From S2P Require Import Samples.

Local Open Scope Z_scope.

(** ** The interpreter *)

(** The component model of a plan orders every component exactly once and
    after all its predecessors, and every edge stays inside a component or comes
    from a predecessor. *)
Theorem components_are_topologically_ordered plan m : buildComponentModel plan = inr m → model_ok plan m.
Proof. apply buildComponentModel_ok. Qed.

Definition sample_model : componentModel :=
  match buildComponentModel sample_plan with inr m => m | inl _ => mkModel ∅ ∅ ∅ [] [] end.
Lemma components_are_topologically_ordered_witness : model_ok sample_plan sample_model ∧ cm_order sample_model = [0; 1; 2]%nat.
Proof. split; [apply components_are_topologically_ordered|]; vm_compute; reflexivity. Defined.

(** Building the model ends: it returns a model or one of the three errors
    of the code (the fuel of Kahn's loop never runs out). *)
Theorem building_the_model_terminates plan e : buildComponentModel plan = inl e →
  (∃ id, e = unknown_component_node id) ∨ (∃ edge, e = unknown_edge_node edge) ∨ e = ErrMsg "plan component graph is cyclic".
Proof. apply buildComponentModel_error. Qed.

Definition cyclic_plan : ExecutionPlan :=
  mkPlan APIVersion "flow-uid" 1 InterpreterVersion "1h" 2 "{}" [sample_node "a" "core.noop" "1m" 0; sample_node "b" "core.noop" "1m" 0]
    [mkPlanEdge "a" "b" ""; mkPlanEdge "b" "a" ""] [["a"]; ["b"]] "plan-hash".
Lemma building_the_model_terminates_witness :
  (∃ id, ErrMsg "plan component graph is cyclic" = unknown_component_node id) ∨
  (∃ edge, ErrMsg "plan component graph is cyclic" = unknown_edge_node edge) ∨
  ErrMsg "plan component graph is cyclic" = ErrMsg "plan component graph is cyclic".
Proof. apply (building_the_model_terminates cyclic_plan). vm_compute. reflexivity. Defined.

(** C7. The scheduler is safe: whatever the components return and in whatever
    order they finish, it never deadlocks or overfills the completion channel,
    never runs more than [MaxParallel] components, starts a component at most
    once and after its predecessors; a successful run has completed every
    component, in dependency order, and a run ends with nothing still running. *)
Theorem scheduler_is_safe run plan m component_result received s :
  buildComponentModel plan = inr m →
  sched_run run plan m component_result (sched_start plan m) received s → status_ok plan m received s.
Proof. intros Hm. by apply run_ok. Qed.

Definition trivial_result : componentResult := mkComponentResult [] ∅ false "".
(** The first component of [sample_plan] runs, finishes and is received. *)
Definition finish_first (r : componentResult) (s : status) : status :=
  match s with
  | Waiting st => match sc_executing st with a :: l => Waiting (with_completions l (sc_completions st ++ [(ad_index a, r)]) st) | [] => s end
  | _ => s
  end.
Definition receive_first (run : string) (plan : ExecutionPlan) (m : componentModel) (s : status) : status :=
  match s with
  | Waiting st => match sc_completions st with
      | (index, r) :: rest => loop_head plan m (receive run index r (with_completions (sc_executing st) rest st)) | [] => s end
  | _ => s
  end.
Definition sched_status1 : status := finish_first trivial_result (sched_start sample_plan sample_model).
Definition sched_status2 : status := receive_first "run-1" sample_plan sample_model sched_status1.
Lemma sample_sched_run :
  sched_run "run-1" sample_plan sample_model (λ _ r, r = trivial_result) (sched_start sample_plan sample_model) [0]%nat sched_status2.
Proof.
  change [0]%nat with (([] ++ []) ++ [0])%nat. eapply run_snoc; [eapply run_snoc; [apply run_nil|]|].
  - eapply (sched_finish _ _ _ _ _ [] _ []); [reflexivity|reflexivity|vm_compute; lia].
  - eapply sched_receive. reflexivity.
Qed.
Lemma scheduler_is_safe_witness : status_ok sample_plan sample_model [0]%nat sched_status2.
Proof. eapply scheduler_is_safe; [vm_compute; reflexivity|apply sample_sched_run]. Defined.

(** C8. The scheduler ends: from any status every chain of steps is finite,
    and a run that has not finished can take a step, so that it finishes as
    succeeded, rejected or failed. *)
Theorem scheduler_terminates run plan m component_result received s :
  buildComponentModel plan = inr m → (∀ a, ∃ r, component_result a r) →
  sched_run run plan m component_result (sched_start plan m) received s →
  Acc (λ s' s, ∃ t, sched_step run plan m component_result s t s') s ∧
  ((∃ o st, s = Finished o st) ∨ ∃ t s', sched_step run plan m component_result s t s').
Proof.
  intros Hm Hr H. split; [apply step_acc|]. apply run_ok in H; [|done].
  destruct s as [st|o st|st|]; [right; by eapply waiting_steps|left; eauto|done|done].
Qed.

Lemma scheduler_terminates_witness :
  let step := sched_step "run-1" sample_plan sample_model (λ _ r, r = trivial_result) in
  let s := sched_start sample_plan sample_model in
  Acc (λ s' s, ∃ t, step s t s') s ∧ ((∃ o st, s = Finished o st) ∨ ∃ t s', step s t s').
Proof.
  apply (scheduler_terminates "run-1" sample_plan sample_model (λ _ r, r = trivial_result) []); [vm_compute; reflexivity|by eexists|apply run_nil].
Defined.

(** After a component failed or an approval was rejected, no further
    component is admitted. *)
Theorem stopped_run_admits_nothing run plan m component_result received st t st' :
  buildComponentModel plan = inr m →
  sched_run run plan m component_result (sched_start plan m) received (Waiting st) → sc_stopAdmission st = true →
  sched_step run plan m component_result (Waiting st) t (Waiting st') →
  sc_pending st' = sc_pending st ∧ sc_stopAdmission st' = true.
Proof.
  intros Hm Hrun Hs Hstep. apply run_ok in Hrun as [Hok _]; [|done].
  by eapply stopped_admits_nothing; [exact Hs|apply (so_stop _ _ _ _ Hok)|].
Qed.

(** Two independent components and one behind the second: the first one fails
    while the second is still running. *)
Definition parallel_plan : ExecutionPlan :=
  mkPlan APIVersion "flow-uid" 1 InterpreterVersion "1h" 2 "{}"
    [sample_node "a" "core.noop" "1m" 0; sample_node "b" "core.noop" "1m" 0; sample_node "c" "core.noop" "1m" 0]
    [mkPlanEdge "b" "c" ""] [["a"]; ["b"]; ["c"]] "plan-hash".
Definition parallel_model : componentModel :=
  match buildComponentModel parallel_plan with inr m => m | inl _ => mkModel ∅ ∅ ∅ [] [] end.
Definition failed_result : componentResult := mkComponentResult [] ∅ false "boom".
Definition stopped0 : status := sched_start parallel_plan parallel_model.
Definition stopped1 : status := finish_first failed_result stopped0.
Definition stopped2 : status := receive_first "run-1" parallel_plan parallel_model stopped1.
Definition waiting_of (s : status) : scheduler := match s with Waiting st => st | _ => initial_scheduler parallel_plan parallel_model end.
Lemma stopped_run : sched_run "run-1" parallel_plan parallel_model (λ _ r, r = failed_result) stopped0 [0]%nat stopped2.
Proof.
  change [0]%nat with (([] ++ []) ++ [0])%nat. eapply run_snoc; [eapply run_snoc; [apply run_nil|]|].
  - eapply (sched_finish _ _ _ _ _ [] _ [_]); [reflexivity|reflexivity|vm_compute; lia].
  - eapply sched_receive. reflexivity.
Qed.
Lemma stopped_statuses :
  stopped2 = Waiting (waiting_of stopped2) ∧
  sched_step "run-1" parallel_plan parallel_model (λ _ r, r = failed_result) (Waiting (waiting_of stopped2)) []
    (Waiting (waiting_of (finish_first failed_result stopped2))).
Proof.
  split; [vm_compute; reflexivity|].
  assert (∃ a, sc_executing (waiting_of stopped2) = [a] ∧
    finish_first failed_result stopped2 = Waiting (with_completions [] [(ad_index a, failed_result)] (waiting_of stopped2)) ∧
    sc_completions (waiting_of stopped2) = []) as (a&Ha&->&Hc) by (vm_compute; eauto).
  pose proof (sched_finish "run-1" parallel_plan parallel_model (λ _ r, r = failed_result) (waiting_of stopped2) [] a [] failed_result
    Ha eq_refl) as H.
  rewrite Hc in H. apply H. vm_compute. lia.
Qed.
Lemma stopped_run_admits_nothing_witness :
  sc_pending (waiting_of stopped2) = [2]%nat ∧
  sc_pending (waiting_of (finish_first failed_result stopped2)) = sc_pending (waiting_of stopped2) ∧
  sc_stopAdmission (waiting_of (finish_first failed_result stopped2)) = true.
Proof.
  split; [vm_compute; reflexivity|].
  apply (stopped_run_admits_nothing "run-1" parallel_plan parallel_model (λ _ r, r = failed_result) [0]%nat (waiting_of stopped2) []
    (waiting_of (finish_first failed_result stopped2))).
  - vm_compute. reflexivity.
  - rewrite <- (proj1 stopped_statuses). apply stopped_run.
  - vm_compute. reflexivity.
  - apply stopped_statuses.
Defined.

(** Whatever its activities return, a component executes only nodes of its
    own, each iteration of a node at most once (its durable attempt key is never
    reused) and below the loop bound. *)
Theorem component_executions_are_bounded {W} execute skip run plan input m index c active inputEdges inputNodes (w : W) log0 r w' log :
  buildComponentModel plan = inr m → cm_components m !! index = Some c → pc_nodes c ≠ [] →
  executePlanComponent (logged execute) (logged_skip skip) run plan input m index active inputEdges inputNodes (w, log0)
    = Some (r, (w', log)) →
  ∃ new, log = log0 ++ new ∧ NoDup new ∧ ∀ id i, (id, i) ∈ new → id ∈ pc_nodes c ∧ 0 ≤ i < pc_maxIterations c.
Proof. apply component_executions. Qed.

(** A node that activates all its edges, and a skip that succeeds. *)
Definition sample_execute (request : NodeRequest) (seen : list string) (w : unit) : (res NodeResult * list string) * unit :=
  (ok (mkResult "{}" (replicate (length (nq_outgoing request)) true) false), seen, w).
Definition sample_skip (run node : string) (w : unit) : res unit * unit := (ok tt, w).
Lemma component_executions_are_bounded_witness :
  ∃ r log, executePlanComponent (logged sample_execute) (logged_skip sample_skip) "run-1" sample_plan "{}" sample_model 1 true
      [true; false; false; false] ∅ (tt, []) = Some (r, (tt, log)) ∧
    log = [("b", 0); ("c", 0); ("b", 1); ("c", 1); ("b", 2); ("c", 2)] ∧
    ∃ new, log = [] ++ new ∧ NoDup new ∧ ∀ id i, (id, i) ∈ new → id ∈ ["b"; "c"] ∧ 0 ≤ i < 3.
Proof.
  eexists _, _. split; [vm_compute; reflexivity|]. split; [reflexivity|].
  eapply (component_executions_are_bounded sample_execute sample_skip "run-1" sample_plan "{}" sample_model 1
    (mkComponent ["b"; "c"] [0%nat] [0%nat] true 3) true [true; false; false; false] ∅ tt [] _ tt); [vm_compute; reflexivity|vm_compute; reflexivity|discriminate|vm_compute; reflexivity].
Defined.

(** A component always ends with a result: the queue of a cyclic component
    is exhausted within the loop bounds. *)
Theorem component_terminates {W} execute skip run plan input m index active inputEdges inputNodes (w : W) :
  buildComponentModel plan = inr m →
  is_Some (executePlanComponent execute skip run plan input m index active inputEdges inputNodes w).
Proof. apply executePlanComponent_total. Qed.

Lemma component_terminates_witness :
  is_Some (executePlanComponent sample_execute sample_skip "run-1" sample_plan "{}" sample_model 1 true [true; false; false; false] ∅ tt).
Proof. apply component_terminates. vm_compute. reflexivity. Defined.

(** ** Activities *)

(** C9. A durable success is replayed: after an [ExecuteNode] succeeded, and
    whatever the store does while the Run is retained, every redelivery of the
    same framework attempt returns the recorded result, with any executor (it is
    not called) and without writing. *)
Theorem node_redelivery_replays {cel : Cel} {cal : Calendar} {dig : Digest} executor request f ctxErr now1 now2 s result s1 s2 :
  (∀ exec, executor = Some exec → keeps_results exec) →
  ExecuteNode executor request f ctxErr now1 now2 s = (inr result, s1) → rtc (retaining (nq_run request)) s1 s2 →
  ∀ executor' ctxErr' now1' now2', ∃ output, nonempty output = nonempty (nr_output result) ∧
    ExecuteNode executor' request f ctxErr' now1' now2' s2 = (inr (mkResult output (nr_activated result) false), s2).
Proof.
  intros Hk He Hr executor' ctxErr' now1' now2'.
  destruct (execute_succeeded executor Hk _ _ _ _ _ _ _ _ He) as (Hs&Hev&_&E1&E2).
  eapply succeeded_replays; [by eapply succeeded_stable|done|done|done].
Qed.

Definition sample_request : NodeRequest := mkRequest "run-1" (sample_node "b" "plugin.run" "1m" 3) 0 [mkPlanEdge "b" "c" ""] "{}" ∅.
(** An executor that returns a result and records nothing. *)
Definition sample_executor : TaskExecutor := λ _ _ _ _ _ _ s, (inr "{}", s).
Definition executed : Db := (ExecuteNode (Some sample_executor) sample_request 1 false now0 now0 s7).2.
Definition executed_later : Db := commit (EnsureApproval "run-1" "gate" (Some now0)) executed.
Lemma executed_retaining : rtc (retaining "run-1") executed executed_later.
Proof.
  eapply rtc_l; [|apply rtc_refl]. split; [|vm_compute; eauto].
  eapply step_approval, commit_inr. vm_compute. reflexivity.
Qed.
Lemma node_redelivery_replays_witness :
  ∃ output, nonempty output = nonempty "{}" ∧
    ExecuteNode None sample_request 1 true now0 now0 executed_later = (inr (mkResult output [true] false), executed_later).
Proof.
  refine (node_redelivery_replays (Some sample_executor) sample_request 1 false now0 now0 s7 (mkResult "{}" [true] false) executed
    executed_later _ _ executed_retaining None true now0 now0).
  - by intros exec [= <-] id run node input nodes key s k.
  - vm_compute. reflexivity.
Defined.

(** ** Dispatch *)

(** C10. A command of the outbox is acknowledged exactly when it was delivered.  One
    turn of the dispatcher claims an open command or changes nothing.  When the turn
    succeeds, the command is completed and its effect happened: the engine accepted
    the start of its Run, with the plan the Run row is pinned to when the command
    names one, or the Run was cancelled before; for a signal, the engine accepted
    that event for that node.  When the turn fails, wherever it fails and whatever
    the engine answered, the command is still open and will be claimed again.  The
    other goroutines may change the store in any way while the engine starts the
    Run, except complete a command. *)
Theorem dispatch_is_acknowledged {cal : Calendar} {dig : Digest} {compiler : FlowCompiler} {E} {engine : DurableEngine E}
    fault maxActiveRuns after t (w w' : world) r :
  reachable (w_db w) → others_leave_open after →
  ReconcileOne fault maxActiveRuns after t w = (r, w') →
  (∃ e, ClaimNext t claimStaleAfter (w_db w) = inl e ∧ r = fail e ∧ w' = w) ∨
  ∃ c s, ClaimNext t claimStaleAfter (w_db w) = inr (c, s) ∧
    (∃ o, o ∈ db_outbox (w_db w) ∧ ob_state o ≠ ObCompleted ∧ command c = command o) ∧
    (r = ok tt ↔ is_completed (ob_id c) (w_db w')) ∧ (r = ok tt → effected after (ob_payload c) w w').
Proof. intros Hr Ha. apply ReconcileOne_delivers; [done|]. by apply plans_reachable. Qed.

(** A client that keeps a list of instances. *)
#[export] Instance sample_client : WorkflowClient (list string) :=
  { GetWorkflowInstances n e := inr (take n e); CreateWorkflowInstance run _ _ e := (ok tt, run :: e);
    CancelWorkflowInstance _ e := (ok tt, e); SignalWorkflow _ _ _ e := (ok tt, e); CancelRun := None }.
Definition listed (e : list string) : list string := e.
#[export] Instance sample_client_laws : ClientLaws (list string) sample_client listed.
Proof.
  split; try done. intros n e l [= <-]. split_and!.
  - rewrite length_take. lia.
  - intros x Hx. apply elem_of_take in Hx as (i&Hi&_). by eapply list_elem_of_lookup_2.
  - intros Hl x Hx. by rewrite take_ge.
Qed.
#[export] Instance sample_compiler : FlowCompiler := {| Compile _ := (sample_plan, []); ValidateRunInput _ _ := ok tt |}.
Definition no_fault (b : Boundary) : option Err := None.
Lemma undisturbed : others_leave_open (λ s, s).
Proof. by intros id s. Qed.
(** An engine that refuses everything. *)
Definition refusing : DurableEngine (list string) :=
  mkEngine _ (λ _ _ _ _ _ e, (fail (ErrMsg "engine stopped"), e)) (λ _ _ _ e, (fail (ErrMsg "engine stopped"), e)) (λ _ s e, (ok tt, (s, e))).
Definition dispatched : res unit * world := ReconcileOne no_fault 2 (λ s, s) t0 (mkWorld s3 ([] : list string) ∅).
Definition refused : res unit * world := ReconcileOne (engine := refusing) no_fault 2 (λ s, s) t0 (mkWorld s3 ([] : list string) ∅).
(** A turn that starts a Run, and one whose engine refuses. *)
Lemma dispatch_is_acknowledged_witness :
  (is_completed 1 (w_db dispatched.2) ∧ w_engine dispatched.2 = ["run-1"]) ∧ ¬ is_completed 1 (w_db refused.2).
Proof.
  split.
  - destruct (dispatch_is_acknowledged no_fault 2 (λ s, s) t0 (mkWorld s3 ([] : list string) ∅) dispatched.2 dispatched.1)
      as [(e&H&_)|(c&s&Hc&_&H&_)]; [exact reach_3|exact undisturbed|apply surjective_pairing|vm_compute in H; discriminate H|].
    assert (Hid : ob_id c = 1) by (vm_compute in Hc; by injection Hc as <- _). rewrite Hid in H.
    split; [apply H; vm_compute; reflexivity|vm_compute; reflexivity].
  - destruct (dispatch_is_acknowledged (engine := refusing) no_fault 2 (λ s, s) t0 (mkWorld s3 ([] : list string) ∅) refused.2 refused.1)
      as [(e&H&_)|(c&s&Hc&_&H&_)]; [exact reach_3|exact undisturbed|apply surjective_pairing|vm_compute in H; discriminate H|].
    assert (Hid : ob_id c = 1) by (vm_compute in Hc; by injection Hc as <- _). rewrite Hid in H. intros Hd. apply H in Hd. vm_compute in Hd. discriminate Hd.
Defined.

(** Admission control: one turn of the dispatcher never takes the number of
    active Runs above [maxActiveRuns] (or above what it already was), as long as
    nobody else creates Runs while the engine starts one. *)
Theorem active_runs_are_bounded {cal : Calendar} {compiler : FlowCompiler} {E} {engine : DurableEngine E}
    fault maxActiveRuns after t (w : world) :
  (∀ s, active_runs (after s) ≤ active_runs s) →
  active_runs (w_db (ReconcileOne fault maxActiveRuns after t w).2) ≤ Z.max maxActiveRuns (active_runs (w_db w)).
Proof. intros H. by apply ReconcileOne_capacity. Qed.

Lemma active_runs_are_bounded_witness :
  active_runs (w_db (ReconcileOne no_fault 1 (λ s, s) t0 (mkWorld s3 ([] : list string) ∅)).2) ≤ Z.max 1 (active_runs s3).
Proof. apply (active_runs_are_bounded no_fault 1 (λ s, s) t0 (mkWorld s3 ([] : list string) ∅)). done. Defined.

(** Starting is idempotent: however often a Run is started, through failures
    of the creation included, its workflow has at most one instance and no other
    instance appears (for up to the 1000 instances the adapter lists). *)
Theorem start_is_idempotent {E} {client : WorkflowClient E} (instances : E → list string) {laws : ClientLaws E client instances}
    run plan input s s' e :
  (∀ err, GetWorkflowInstances 1000 e ≠ inl err) → (length (instances e) ≤ 1000)%nat → NoDup (instances e) →
  NoDup (instances (Start run plan input s s' e).2) ∧
  ∀ x, x ∈ instances (Start run plan input s s' e).2 → x = run ∨ x ∈ instances e.
Proof. intros. by apply (Start_no_duplicate instances). Qed.

Lemma start_is_idempotent_witness :
  (Start "run-1" sample_plan "{}" s5 s5 ["run-2"]).2 = ["run-1"; "run-2"] ∧
  NoDup (listed (Start "run-1" sample_plan "{}" s5 s5 ["run-1"; "run-2"]).2) ∧
  ∀ x, x ∈ listed (Start "run-1" sample_plan "{}" s5 s5 ["run-1"; "run-2"]).2 → x = "run-1" ∨ x ∈ listed ["run-1"; "run-2"].
Proof.
  split; [vm_compute; reflexivity|].
  refine (start_is_idempotent listed "run-1" sample_plan "{}" s5 s5 ["run-1"; "run-2"] _ _ _).
  - discriminate.
  - unfold listed. simpl. lia.
  - apply (bool_decide_unpack _). vm_compute. exact I.
Defined.

(** A redelivered occurrence is acknowledged with its receipt: once an
    occurrence is accepted, accepting it again in any later state, whatever its
    payload, returns the recorded receipt and changes nothing. *)
Theorem redelivered_occurrence_is_acknowledged {cal : Calendar} {dig : Digest} {compiler : FlowCompiler}
    trigger generation occurrence flowName namespace input deduplicated fr fu now s0 s s' r :
  reachable s0 → rtc store_step s0 s → lookup_receipt trigger occurrence s0 = Some r →
  Orchestrator.AcceptTrigger trigger generation occurrence flowName namespace input deduplicated fr fu now s s'
    = ok (mark_existing r, s').
Proof. intros Hr Hs Hl. unfold Orchestrator.AcceptTrigger. by rewrite (occurrences_forever _ _ Hr Hs _ _ _ Hl). Qed.

Lemma redelivered_occurrence_is_acknowledged_witness :
  Orchestrator.AcceptTrigger "manual:default:deploy" 0 "occ-1" "deploy" "default" "{}" true "receipt-9" "run-9" now0 s12 s12
    = ok (mark_existing (mkReceipt "receipt-1" "manual:default:deploy" "occ-1" "run-1" true now0 false), s12).
Proof. apply (redelivered_occurrence_is_acknowledged _ _ _ _ _ _ _ _ _ _ s9); [exact reach_9|exact run_9_12|vm_compute; reflexivity]. Defined.

(** A fresh acceptance pins the compiled plan: when the orchestrator accepts
    a new occurrence, the flow compiled without errors, its input validated, and
    the same transaction stored the plan and a start command that names it. *)
Theorem fresh_acceptance_pins_the_plan {cal : Calendar} {dig : Digest} {compiler : FlowCompiler}
    trigger generation occurrence flowName namespace input deduplicated fr fu now s s1 r s2 :
  Orchestrator.AcceptTrigger trigger generation occurrence flowName namespace input deduplicated fr fu now s s1 = ok (r, s2) →
  rt_existing r = false →
  ∃ plan, compileCurrentFlow flowName namespace s = ok plan ∧ ValidateRunInput plan input = ok tt ∧
    is_Some (db_plans s2 !! pl_planHash plan) ∧ rt_run r = fu ∧
    db_receipts s2 !! (trigger, occurrence) = Some (mkReceiptRow fr "" (nonempty input) deduplicated fu now) ∧
    ∃ o p, o ∈ db_outbox s2 ∧ ob_payload o = StartRun p ∧ ob_state o = ObPending ∧
      sp_run p = fu ∧ sp_receipt p = fr ∧ sp_planHash p = pl_planHash plan.
Proof. apply accept_fresh. Qed.

Definition accepted_manual : res (Receipt * Db) :=
  Orchestrator.AcceptTrigger "manual:default:deploy" 0 "occ-3" "deploy" "default" "{}" true "receipt-3" "run-3" now0 s3 s3.
Definition accepted_db : Db := match accepted_manual with inr (_, s) => s | inl _ => s3 end.
Lemma fresh_acceptance_pins_the_plan_witness :
  ∃ r, accepted_manual = ok (r, accepted_db) ∧
  ∃ plan, compileCurrentFlow "deploy" "default" s3 = ok plan ∧ ValidateRunInput plan "{}" = ok tt ∧
    is_Some (db_plans accepted_db !! pl_planHash plan) ∧ rt_run r = "run-3" ∧
    db_receipts accepted_db !! ("manual:default:deploy", "occ-3") = Some (mkReceiptRow "receipt-3" "" (nonempty "{}") true "run-3" now0) ∧
    ∃ o p, o ∈ db_outbox accepted_db ∧ ob_payload o = StartRun p ∧ ob_state o = ObPending ∧
      sp_run p = "run-3" ∧ sp_receipt p = "receipt-3" ∧ sp_planHash p = pl_planHash plan.
Proof.
  exists (mkReceipt "receipt-3" "manual:default:deploy" "occ-3" "run-3" true now0 false). split; [vm_compute; reflexivity|].
  apply (fresh_acceptance_pins_the_plan "manual:default:deploy" 0 "occ-3" "deploy" "default" "{}" true "receipt-3" "run-3" now0 s3 s3);
    [vm_compute; reflexivity|reflexivity].
Defined.

(** ** What the model shows *)

(** C11. Retention can strand accepted work: a reachable store holds an undelivered
    start command whose pinned plan was deleted (retention drops the plan of a
    collected Run when no other Run row names it, and the Run of an undelivered
    command has no row yet), so that every dispatch of it fails as not found. *)
Theorem retention_strands_accepted_work :
  reachable s12 ∧
  ∃ o p, o ∈ db_outbox s12 ∧ ob_payload o = StartRun p ∧ ob_state o = ObPending ∧ sp_planHash p ≠ "" ∧
    is_Some (db_plans s11 !! sp_planHash p) ∧
    ∀ E (engine : DurableEngine E) fault maxActiveRuns id after t (w : world),
      w_db w = s12 → (reconcileStart fault maxActiveRuns id p after t w).1 = fail ErrNotFound.
Proof.
  split; [exact reach_12|].
  assert (∃ o, db_outbox s12 = [o] ∧ ob_payload o = StartRun (start_payload "occ-2" "receipt-2" "run-2") ∧ ob_state o = ObPending)
    as (o&Ho&Hp&Hs) by (vm_compute; eauto).
  exists o, (start_payload "occ-2" "receipt-2" "run-2"). split_and!; [rewrite Ho; left|done|done|done|vm_compute; eauto|].
  intros E engine fault maxActiveRuns id after t w Hw. unfold reconcileStart, command_plan. rewrite Hw.
  assert (result (GetPlan (sp_planHash (start_payload "occ-2" "receipt-2" "run-2"))) s12 = inl ErrNotFound) as Hg by (vm_compute; done).
  rewrite Hg. done.
Qed.

(** A decided approval answers every later wait of its node in the same Run:
    in a loop, the second iteration's wait reports the first decision, a timeout
    included, and the operator can no longer decide it. *)
Theorem decided_approval_answers_later_waits {cel : Cel} request signal nowTime now now' s a r s' :
  db_approvals s !! (nq_run request, pn_id (nq_node request)) = Some a → ap_state a ≠ "pending" →
  EndApproval request signal now' (BeginApproval request nowTime now s).2 = (inr r, s') →
  nr_output r = approval_output (ap_state a) (as_reason signal) ∧ nr_rejected r = negb (String.eqb (ap_state a) "approved") ∧
  ∀ state actor reason, ∃ e,
    DecideApproval (nq_run request) (pn_id (nq_node request)) state actor reason now' (BeginApproval request nowTime now s).2 = inl e.
Proof.
  intros Ha Hd He. pose proof (begin_approval_keeps request nowTime now s a Ha) as Hb.
  destruct (end_approval_reuses _ _ _ _ _ _ _ Hb Hd He) as [??]. split_and!; [done|done|].
  intros. by eapply decide_decided.
Qed.

(** The gate inside a loop: iteration 1 times out, after iteration 0 was approved. *)
Definition second_wait : NodeRequest := mkRequest "run-1" (sample_node "gate" "core.approval" "1h" 3) 1 [mkPlanEdge "gate" "b" ""] "{}" ∅.
Definition timed_out : ApprovalSignal := mkApproval "rejected" "approval timed out".
Lemma decided_approval_answers_later_waits_witness :
  ∃ r s', EndApproval second_wait timed_out now0 (BeginApproval second_wait t0 now0 s9).2 = (inr r, s') ∧
    nr_activated r = [true] ∧
    nr_output r = approval_output "approved" "approval timed out" ∧ nr_rejected r = negb (String.eqb "approved" "approved") ∧
    ∀ state actor reason, ∃ e,
      DecideApproval "run-1" "gate" state actor reason now0 (BeginApproval second_wait t0 now0 s9).2 = inl e.
Proof.
  eexists _, _. split; [vm_compute; reflexivity|]. split; [reflexivity|].
  eapply (decided_approval_answers_later_waits second_wait timed_out t0 now0 now0 s9
    (mkApprovalRow "approved" "alice" "" (Some now0) (Some now0) false)); [vm_compute; reflexivity|done|vm_compute; reflexivity].
Defined.

(** A cancellation can be dropped: when the listing of instances (limited to
    1000) omits a live instance, the adapter takes its Run for absent and, the
    start command being completed, records the cancellation as delivered without
    asking the instance to stop. *)
Theorem unlisted_instance_is_never_cancelled {E} {client : WorkflowClient E} run reason now s e :
  CancelRun = None → findInstance run e = inl ErrNotFound →
  result (UndeliveredApprovalSignals 100) s = inr [] →
  result (UndeliveredRunCancellations 100) s = inr [(run, reason)] →
  result (MarkRunCancellationDeliveredIfStartImpossible run now) s = inr true →
  ∃ s', Reconcile now s e = (ok tt, (s', e)) ∧ (ca_delivered <$> db_cancellations s' !! run = Some true).
Proof. apply Reconcile_drops_cancellation. Qed.

Definition crowded : list string := replicate 1000 "other" ++ ["run-1"].
Definition cancelling : Db := commit (RequestRunCancellation "run-1" "stop" now0) (commit (CompleteOutbox 1 now0) s7).
Lemma unlisted_instance_is_never_cancelled_witness :
  "run-1" ∈ crowded ∧
  ∃ s', Reconcile now0 cancelling crowded = (ok tt, (s', crowded)) ∧ (ca_delivered <$> db_cancellations s' !! "run-1" = Some true).
Proof.
  split; [apply elem_of_app; right; left|].
  apply (unlisted_instance_is_never_cancelled "run-1" "stop" now0 cancelling crowded); vm_compute; reflexivity.
Defined.

(** Leases compare timestamps as text, and RFC3339Nano text drops trailing
    zeros: a command claimed at [t] with a stale bound of 5 seconds can be claimed
    again less than 5 seconds later. *)
Theorem lease_can_expire_early :
  ∃ t t' s' o o' s'', reachable s3 ∧ t < t' < t + 5 * second ∧
    ClaimNext t (5 * second) s3 = inr (o, s') ∧ ClaimNext t' (5 * second) s' = inr (o', s'') ∧ ob_id o' = ob_id o.
Proof.
  exists (t0 + 1500000000), (t0 + 6 * second), (commit (ClaimNext (t0 + 1500000000) (5 * second)) s3).
  eexists _, _, _. split; [exact reach_3|]. split; [vm_compute; done|].
  split; [apply commit_inr; vm_compute; reflexivity|]. split; [apply commit_inr; vm_compute; reflexivity|]. vm_compute. done.
Qed.
