(* ===== verification/PropertiesFlow.v ===== *)
(** The properties of the flow compiler and of the action contracts, each with a
    witness at a concrete flow. *)

From Stdlib Require String.
From S2P Require Import Prelude.
From S2P Require Import Json.
From S2P Require Import GoStd.
From S2P Require Import Resource.
From S2P Require Import Plan.
From S2P Require Import ActionContract.
From S2P Require Import PluginMapping.
From S2P Require Import ActionContractFacts.
From S2P Require Import FlowGraph.
From S2P Require Import FlowTarjan.
From S2P Require Import FlowCompiler.
From S2P Require Import EngineModel.
From S2P Require Import EngineOrder.
From S2P Require Import FlowCompilerFacts.

Local Open Scope Z_scope.

(** ** A concrete environment *)

Definition string_items (j : option json) : list string :=
  match j with Some (JArr l) => omap (λ x, if x is JStr s then Some s else None) l | Some (JStr s) => [s] | _ => [] end.
(** A builder for schemas without references: every schema object after its
    children, the root last. *)
Fixpoint build_schema (v : json) (acc : list schemaObject) : nat * list schemaObject :=
  match v with
  | JObj m =>
      let '(props, acc) :=
        (fix find (m : list (string * json)) acc : gmap string nat * list schemaObject :=
          match m with
          | [] => (∅, acc)
          | (k, c) :: m =>
              if String.eqb k "properties" then
                match c with
                | JObj o =>
                    (fix go (o : list (string * json)) acc : gmap string nat * list schemaObject :=
                      match o with
                      | [] => (∅, acc)
                      | (key, child) :: o =>
                          let '(i, acc) := build_schema child acc in
                          let '(props, acc) := go o acc in (<[key := i]> props, acc)
                      end) o acc
                | _ => (∅, acc)
                end
              else find m acc
          end) m acc in
      let '(items, acc) :=
        (fix find (m : list (string * json)) acc : option nat * list schemaObject :=
          match m with
          | [] => (None, acc)
          | (k, c) :: m => if String.eqb k "items" then let '(i, acc) := build_schema c acc in (Some i, acc) else find m acc
          end) m acc in
      let additional :=
        match obj_get "additionalProperties" m with Some (JBool b) => AdditionalBool b | _ => AdditionalUnset end in
      (length acc, acc ++ [mkSchemaObject None (string_items (obj_get "type" m)) props additional items None (string_items (obj_get "required" m))])
  | _ => (length acc, acc ++ [mkSchemaObject None [] ∅ AdditionalUnset None None []])
  end.
#[local] Instance demo_schemas : JsonSchema :=
  {| js_build v := let '(root, objects) := build_schema v [] in inr (mkSchema objects root); js_validate _ _ := None |}.

Definition string_schema : string := object_text [("type", quoted "string")].
Definition demo_contract : ActionContract :=
  mkContract "d"
    (object_text [("type", quoted "object");
                  ("properties", object_text [("image", string_schema); ("count", object_text [("type", quoted "integer")])]);
                  ("required", array_text [quoted "image"]); ("additionalProperties", "false")])
    "" (object_text [("type", quoted "object"); ("properties", object_text [("url", string_schema)])]).
#[local] Instance demo_capabilities : CapabilityResolver :=
  Some (mkCapabilities (String.eqb "docker.run")
    (Some (λ _ _ c, (mkActionBinding (mkPluginBinding "docker" "1.0.0" "sha256:0" 1) demo_contract c [], []))) None).
(** Every condition reads [result.ok == true]. *)
#[local] Instance demo_cel : CelChecker :=
  λ _, CelAst_ CelOutBool (Some (ECall "_==_" None [ESelect (EIdent "result") "ok" false; EConst CBool])).
#[local] Instance demo_sha : Sha256 := λ s, itoa (Z.of_nat (String.length s)).

Definition demo_meta : ObjectMeta := mkMeta "deploy" "default" "flow-uid" 1 1 ∅.
Definition build_node : FlowNode := mkNode "build" "" "core.noop" [("result", mkobj [("image", JStr "app:1"); ("count", JNum "3")])] None "" None.
Definition run_node : FlowNode :=
  mkNode "run" "Run it" "docker.run" [("mappings", JArr [mkobj [("from", JStr "nodes.build.image"); ("to", JStr "/image")]])]
    (Some (mkRetry 2 "5s")) "1m" None.
Definition check_node : FlowNode := mkNode "check" "" "core.noop" [] None "" (Some (Resource.mkLoop 5)).
Definition demo_spec : FlowSpec :=
  mkFlowSpec [] [] (mkPolicies "" 4) [run_node; check_node; build_node]
    [mkEdge "run" "check" ""; mkEdge "build" "run" ""; mkEdge "check" "run" "result.ok == true"].
(** The same flow, listed in another order. *)
Definition demo_spec' : FlowSpec :=
  mkFlowSpec [] [] (mkPolicies "" 4) [build_node; run_node; check_node]
    [mkEdge "check" "run" "result.ok == true"; mkEdge "build" "run" ""; mkEdge "run" "check" ""].

Definition demo_result : ExecutionPlan * list Diagnostic := default (mkPlan "" "" 0 "" "" 0 "" [] [] [] "", []) (FlowCompiler.Compile demo_meta demo_spec).
Definition demo_result' : ExecutionPlan * list Diagnostic := default (mkPlan "" "" 0 "" "" 0 "" [] [] [] "", []) (FlowCompiler.Compile demo_meta demo_spec').

Example demo_compiles :
  demo_result.2 = [] ∧ pl_components demo_result.1 = [["build"]; ["check"; "run"]] ∧ pn_id <$> pl_nodes demo_result.1 = ["build"; "check"; "run"].
Proof. vm_compute. done. Qed.

(** ** Properties *)

(** C12. A Flow that compiles without error diagnostics yields a well-formed
    plan: the node ids are distinct, valid and sorted, every limit is in its
    range, every edge joins nodes of the plan, the components are the strongly
    connected ones and every one with a cycle has a node with a finite loop bound.
    The interpreter accepts it: the component model is built without an error. *)
Theorem compiled_plan_is_well_formed {js : JsonSchema} {cap : CapabilityResolver} {cel : CelChecker} {sha : Sha256}
    meta spec plan diagnostics :
  FlowCompiler.Compile meta spec = Some (plan, diagnostics) → HasErrors diagnostics = false →
  plan_ok plan ∧ ∃ m, buildComponentModel plan = inr m.
Proof.
  intros H He. destruct (Compile_stages _ _ _ _ H He) as (ns&es&C). pose proof (compiled_ok _ _ _ _ _ C) as Hok.
  split; [done|]. apply buildComponentModel_total, Hok.
Qed.

Lemma compiled_plan_is_well_formed_witness :
  FlowCompiler.Compile demo_meta demo_spec = Some (demo_result.1, demo_result.2) ∧ HasErrors demo_result.2 = false ∧
  plan_ok demo_result.1 ∧ ∃ m, buildComponentModel demo_result.1 = inr m.
Proof.
  assert (H : FlowCompiler.Compile demo_meta demo_spec = Some (demo_result.1, demo_result.2)) by (vm_compute; reflexivity).
  assert (He : HasErrors demo_result.2 = false) by (vm_compute; reflexivity).
  split; [exact H|]. split; [exact He|].
  exact (compiled_plan_is_well_formed demo_meta demo_spec demo_result.1 demo_result.2 H He).
Defined.

(** C13. Tarjan's algorithm equals the reference: on a graph whose edges stay
    among [ids] it returns the classes of mutually reachable vertices, each
    sorted, ordered by their first member; the reference is computed with
    [reaches], which decides the existence of a path. *)
Theorem stronglyConnected_is_mutual_reachability ids adjacency :
  NoDup ids → (∀ x y, x ∈ ids → edge adjacency x y → y ∈ ids) →
  stronglyConnected ids adjacency = Some (mutual_classes ids adjacency) ∧
  ∀ x y, ∃ b, reaches x y adjacency = Some b ∧ (b = true ↔ tc (edge adjacency) x y).
Proof. intros Hn Hc. split; [by apply stronglyConnected_spec|]. intros x y. apply reaches_spec. Qed.

Lemma demo_graph_closed x y : x ∈ ["e"; "d"; "c"; "b"; "a"] → edge demo_graph x y → y ∈ ["e"; "d"; "c"; "b"; "a"].
Proof.
  intros Hx He. assert (Hall : forallb (λ x, forallb (λ y, bool_decide (y ∈ ["e"; "d"; "c"; "b"; "a"])) (succs demo_graph x)) ["e"; "d"; "c"; "b"; "a"] = true)
    by (vm_compute; reflexivity).
  rewrite forallb_forall in Hall. specialize (Hall x (proj1 (list_elem_of_In _ _) Hx)).
  rewrite forallb_forall in Hall. specialize (Hall y (proj1 (list_elem_of_In _ _) He)). by apply bool_decide_eq_true in Hall.
Qed.

Lemma stronglyConnected_is_mutual_reachability_witness :
  stronglyConnected ["e"; "d"; "c"; "b"; "a"] demo_graph = Some [["a"; "b"; "c"]; ["d"]; ["e"]] ∧
  stronglyConnected ["e"; "d"; "c"; "b"; "a"] demo_graph = Some (mutual_classes ["e"; "d"; "c"; "b"; "a"] demo_graph).
Proof.
  split; [vm_compute; reflexivity|].
  refine (proj1 (stronglyConnected_is_mutual_reachability ["e"; "d"; "c"; "b"; "a"] demo_graph _ demo_graph_closed)).
  apply (bool_decide_unpack _). vm_compute. exact I.
Defined.




(** C15. Compilation ends when no contract has a cyclic chain of references,
    which is exactly when the static inspection of a contract ends: with a cyclic
    [$ref] the loop of [dereference] does not. *)
Theorem compilation_terminates {js : JsonSchema} {cap : CapabilityResolver} {cel : CelChecker} {sha : Sha256} :
  (∀ s, (∀ p, ∃ r, dereference s p = Some r) ↔ references_end s) ∧
  ((∀ raw s, ActionContract.Compile raw = inr s → references_end s) →
   ∀ meta spec, ∃ plan diagnostics, FlowCompiler.Compile meta spec = Some (plan, diagnostics)).
Proof.
  split; [exact dereference_ends|]. intros Hends meta spec.
  destruct (Compile_total Hends meta spec) as [[plan ds] H]. eauto.
Qed.

(** The builder makes no references. *)
Abbreviation plain := (Forall (λ o, so_ref o = None)).
Lemma build_schema_plain v :
  (∀ acc, plain acc → plain (build_schema v acc).2) ∧
  match v with JObj o => Forall (λ kv, ∀ acc, plain acc → plain (build_schema kv.2 acc).2) o | _ => True end.
Proof.
  induction v as [| | | |l IH|m IH] using json_ind'.
  1-5: split; [|done]; intros acc Hacc; simpl; apply Forall_app; split; [done|]; by repeat constructor.
  split; [|by eapply Forall_impl; [exact IH|]; intros kv []]. intros acc Hacc. cbn [build_schema].
  match goal with |- context [(let '(p, a) := ?f m acc in _)] => assert (H1 : plain (f m acc).2); [|destruct (f m acc) as [props acc1]] end.
  { induction IH as [|[k c] m [_ Hc] _ IHm]; [done|]. simpl in *. destruct (String.eqb k "properties"); [|done].
    destruct c as [| | | | |o]; try done. clear IHm. revert acc Hacc. induction Hc as [|[key child] o Hch _ IHo]; intros acc Hacc; [done|].
    simpl in *. specialize (Hch acc Hacc). destruct (build_schema child acc) as [i acc']. simpl in Hch.
    specialize (IHo acc' Hch). match goal with |- context [(let '(p, a) := ?f o acc' in _)] => destruct (f o acc') end. done. }
  simpl in H1.
  match goal with |- context [(let '(p, a) := ?f m acc1 in _)] => assert (H2 : plain (f m acc1).2); [|destruct (f m acc1) as [items acc2]] end.
  { induction IH as [|[k c] m [Hc _] _ IHm]; [done|]. simpl in *. destruct (String.eqb k "items"); [|done].
    specialize (Hc acc1 H1). by destruct (build_schema c acc1). }
  simpl in *. apply Forall_app. split; [done|]. by repeat constructor.
Qed.

Lemma demo_references_end raw s : ActionContract.Compile raw = inr s → references_end s.
Proof.
  unfold ActionContract.Compile. intros H. repeat case_match; simplify_eq. simpl in H.
  destruct (build_schema _ []) as [root objects] eqn:E. injection H as <-. intros i Hi. simpl in Hi.
  match type of E with build_schema ?v [] = _ => pose proof (proj1 (build_schema_plain v) [] (Forall_nil_2 _)) as Hp end.
  rewrite E in Hp. simpl in Hp.
  assert (∃ j, refers objects i j) as (k&o&Ho&Hr) by (inversion Hi; subst; eauto).
  rewrite (Forall_lookup_1 _ _ _ _ Hp Ho) in Hr. done.
Qed.

Lemma compilation_terminates_witness :
  (∀ raw s, ActionContract.Compile raw = inr s → references_end s) ∧
  ∃ plan diagnostics, FlowCompiler.Compile demo_meta demo_spec = Some (plan, diagnostics).
Proof. split; [exact demo_references_end|]. exact (proj2 compilation_terminates demo_references_end demo_meta demo_spec). Defined.

(** The plan does not depend on the order in which the document lists its
    nodes and edges: two listings of one Flow that compile without errors give the
    same plan, with the same hash. *)
Theorem compilation_is_canonical {js : JsonSchema} {cap : CapabilityResolver} {cel : CelChecker} {sha : Sha256}
    meta spec spec' plan plan' diagnostics diagnostics' :
  f_nodes spec ≡ₚ f_nodes spec' → f_edges spec ≡ₚ f_edges spec' →
  f_inputSchema spec = f_inputSchema spec' → f_policies spec = f_policies spec' →
  FlowCompiler.Compile meta spec = Some (plan, diagnostics) → HasErrors diagnostics = false →
  FlowCompiler.Compile meta spec' = Some (plan', diagnostics') → HasErrors diagnostics' = false →
  plan = plan'.
Proof.
  intros Hn He Hs Hp H1 E1 H2 E2. destruct (Compile_stages _ _ _ _ H1 E1) as (ns&es&C).
  destruct (Compile_stages _ _ _ _ H2 E2) as (ns'&es'&C'). exact (permuted_plan _ _ _ _ _ _ _ _ _ C C' Hn He Hs Hp).
Qed.

Lemma compilation_is_canonical_witness :
  f_nodes demo_spec ≠ f_nodes demo_spec' ∧ demo_result.1 = demo_result'.1.
Proof.
  split; [vm_compute; discriminate|].
  refine (compilation_is_canonical demo_meta demo_spec demo_spec' demo_result.1 demo_result'.1 demo_result.2 demo_result'.2
    _ _ _ _ _ _ _ _).
  - change ([run_node; check_node; build_node] ≡ₚ [build_node; run_node; check_node]). solve_Permutation.
  - unfold demo_spec, demo_spec'. cbn [f_edges]. solve_Permutation.
  - reflexivity.
  - reflexivity.
  - vm_compute. reflexivity.
  - vm_compute. reflexivity.
  - vm_compute. reflexivity.
  - vm_compute. reflexivity.
Defined.
