(* ===== verification/HttpIngress.v ===== *)
(** [internal/httpingress/server.go]: the generic webhook listener.

    A request is its method, path, the two headers the handler reads and its body
    ([None] when reading it fails); a response is its status code and JSON value.
    The secret is resolved by the plugin manager's [ResolveSecret].  Sockets and
    shutdown are left out. *)

From Stdlib Require Import Ascii.
From Stdlib Require String.
From S2P Require Import Prelude.
From S2P Require Import Json.
From S2P Require Import GoStd.
From S2P Require Import Resource.
From S2P Require Import Plan.
From S2P Require Import Db.
From S2P Require Import StoreRuns.
From S2P Require Import StoreOutbox.
From S2P Require Import StoreResources.
From S2P Require Import StoreStep.
From S2P Require Import StoreSafety.
From S2P Require Import StoreHistory.
From S2P Require Import Proc.
From S2P Require Import ManagerRun.
From S2P Require Import Orchestrator.
From S2P Require Import Trigger.
From S2P Require Import TriggerFacts.

Local Open Scope Z_scope.

Definition maxBody : Z := 1048576.
Record HttpRequest := mkHttpRequest {
  hq_method : string; hq_path : string; hq_authorization : string; hq_idempotencyKey : string; hq_body : option string }.
Record HttpResponse := mkHttpResponse { hp_status : Z; hp_body : json }.
Definition writeError (statusCode : Z) (code : string) : HttpResponse := mkHttpResponse statusCode (mkobj [("error", JStr code)]).
Definition hook_not_found : HttpResponse := writeError 404 "hook_not_found".

Definition unavailableTrigger (e : Err) : bool :=
  match e with
  | ErrNotFound | ErrTriggerDisabled | ErrStaleFlowPlan _ _ _ _ | ErrStaleTriggerGeneration _ _ | ErrTriggerReferenceChanged => true
  | _ => false
  end.

Section Ingress.
Context {cal : Calendar} {host : Host} {acceptor : Acceptor}.

(** The UID the path names. *)
Definition hook_uid (path : string) : option string :=
  let uid := trim_prefix path "/v1/hooks/" in
  if String.eqb uid path || String.eqb uid "" || existsb (Ascii.eqb "/"%char) (explode uid) then None else Some uid.
(** The Trigger behind a hook: one with a webhook whose document enables it. *)
Definition hook_of (document : Document) : option (ObjectMeta * TriggerSpec * WebhookTrigger) :=
  match DecodeTrigger document with
  | inl _ => None
  | inr (meta, spec) =>
      match t_webhook spec with
      | Some hook => if trigger_enabled spec then Some (meta, spec, hook) else None
      | None => None
      end
  end.
Definition authorized (authorization secret : string) : bool :=
  let provided := trim_prefix authorization "Bearer " in
  negb (String.eqb provided "") && String.eqb provided secret.
Definition accepted_response (receipt : Receipt) : HttpResponse :=
  mkHttpResponse 202 (mkobj [("receiptUID", JStr (rt_uid receipt)); ("runUID", JStr (rt_run receipt));
    ("duplicate", JBool (rt_existing receipt)); ("deduplicated", JBool (rt_deduplicated receipt))]).

(** The body and the key, then the acceptance; [fresh] is the generated key. *)
Definition accept_hook (fresh : string) (meta : ObjectMeta) (spec : TriggerSpec) (request : HttpRequest) (s : Db) : HttpResponse * Db :=
  match hq_body request with
  | None => (writeError 400 "body_unreadable", s)
  | Some body =>
      if maxBody <? Z.of_nat (String.length body) then (writeError 413 "body_too_large", s)
      else if negb (valid body) then (writeError 400 "invalid_json", s) else
      let idempotencyKey := trim_space (hq_idempotencyKey request) in
      let deduplicated := negb (String.eqb idempotencyKey "") in
      if 256 <? Z.of_nat (String.length idempotencyKey) then (writeError 400 "idempotency_key_too_long", s) else
      let idempotencyKey := valueOr idempotencyKey fresh in
      let '(receipt, s) := accept_trigger (m_uid meta) (m_generation meta) ("webhook:" +:+ idempotencyKey) (t_flow spec) (m_namespace meta) body deduplicated s in
      match receipt with
      | inl err => (if unavailableTrigger err then hook_not_found else writeError 500 "persistence_failed", s)
      | inr receipt => (accepted_response receipt, s)
      end
  end.
Definition ServeHTTP (env : Env) (fresh : string) (request : HttpRequest) (s : Db) : HttpResponse * Db :=
  if negb (String.eqb (hq_method request) "POST") then (writeError 405 "method_not_allowed", s) else
  match hook_uid (hq_path request) with
  | None => (hook_not_found, s)
  | Some uid =>
      let '(document, s) := call env 0 (ResourceByUID "Trigger" uid) s in
      match document with
      | inl _ => (hook_not_found, s)
      | inr document =>
          match hook_of document with
          | None => (hook_not_found, s)
          | Some (meta, spec, hook) =>
              let '(state, s) := call env 1 (EnsureTriggerState (m_uid meta) (m_generation meta) (trigger_enabled spec) (now_at env 1) (stamp env 1)) s in
              match state with
              | inl _ => (writeError 503 "hook_state_unavailable", s)
              | inr state =>
                  if negb (st_enabled state) then (hook_not_found, s) else
                  let '(seen, s) := call env 2 (tx_get (λ s, s)) s in
                  match seen with
                  | inl _ => (writeError 503 "hook_secret_unavailable", s)
                  | inr seen =>
                      match resolveSecret seen (m_namespace meta) (w_bearerSecretRef hook) with
                      | inl _ => (writeError 503 "hook_secret_unavailable", s)
                      | inr secret =>
                          if negb (authorized (hq_authorization request) secret) then (writeError 401 "unauthorized", s)
                          else accept_hook fresh meta spec request s
                      end
                  end
              end
          end
      end
  end.
End Ingress.

(** ** What a request does to the store *)

Section Facts.
Context {cal : Calendar} {dig : Digest} {host : Host}.

(** The stored document of a resource carries the resource's UID. *)
Definition identified (s : Db) : Prop := map_Forall (λ _ r, m_uid (doc_meta (rr_doc r)) = rr_uid r) (db_resources s).
Lemma decode_uid d d' : DecodeStrict d = inr d' → m_uid (doc_meta d') = m_uid (doc_meta d).
Proof.
  unfold DecodeStrict. destruct (negb _); [done|]. cbv zeta. unfold mbind, res_bind. destruct (ValidateMetadata _); [done|]. destruct (validateKind _); [done|].
  intros [= <-]. cbn [doc_meta]. by case_match.
Qed.
Lemma identified_step s s' : store_step s s' → identified s → identified s'.
Proof.
  intros Hstep H. destruct Hstep; run_op Hop; try exact H.
  all: try (by apply map_Forall_delete).
  all: try (apply map_Forall_insert_2; [|exact H]); try done.
  all: try (match goal with Hd : DecodeStrict (rr_doc ?r) = inr _, Hr : db_resources _ !! _ = Some ?r |- _ =>
    apply decode_uid in Hd; cbn in *; rewrite ?Hd; exact (H _ _ Hr) end).
  revert Hop. apply (collect_runs_ind identified); [|done].
  intros run r s1 s2 H1 Hc. pose proof (cr_rest _ _ _ _ _ Hc) as Hrest. injection Hrest as _ Hres _ _ _ _ _ _ _ _.
  unfold identified. by rewrite Hres.
Qed.
Lemma identified_reachable s : reachable s → identified s.
Proof. apply (reachable_ind identified); [by intros ??|]. intros ?? _ H Hstep. by apply (identified_step _ _ Hstep). Qed.

(** A stored resource: its row, of a kind and under a UID. *)
Definition stored (s : Db) (kind uid : string) (row : ResourceRow) : Prop :=
  ∃ k, db_resources s !! k = Some row ∧ k.1.1 = kind ∧ rr_uid row = uid.
Lemma ResourceByUID_stored kind uid s d s' : ResourceByUID kind uid s = inr (d, s') →
  s' = s ∧ ∃ row, stored s kind uid row ∧ DecodeStrict (rr_doc row) = inr d.
Proof.
  intros H. unfold ResourceByUID in H. tx_inv. split; [done|].
  match goal with Hh : head _ = Some ?x |- _ => apply head_Some_elem_of, list_elem_of_filter in Hh as [[? ?] Hin]; destruct x as [key row]; apply elem_of_map_to_list in Hin end.
  exists row. split; [|done]. by exists key.
Qed.
Lemma stored_uid s kind uid row d : reachable s → stored s kind uid row → DecodeStrict (rr_doc row) = inr d → m_uid (doc_meta d) = uid.
Proof. intros Hr (k&Hk&_&<-) Hd. apply decode_uid in Hd. rewrite Hd. exact (identified_reachable _ Hr _ _ Hk). Qed.
Lemma hook_of_trigger d meta spec hook : hook_of d = Some (meta, spec, hook) →
  DecodeTrigger d = inr (meta, spec) ∧ t_webhook spec = Some hook ∧ trigger_enabled spec = true.
Proof.
  unfold hook_of. destruct (DecodeTrigger d) as [e|[m t]] eqn:Hd; [done|]. destruct (t_webhook _) eqn:Hw; [|done]. destruct (trigger_enabled _) eqn:He; [|done].
  by intros [= <- <- <-].
Qed.
Lemma decode_trigger_meta d d' t : DecodeStrict d = inr d' → DecodeTrigger d' = inr t → DecodeTrigger d = inr t ∧ t.1 = doc_meta d'.
Proof.
  intros Hd. pose proof (DecodeStrict_idem _ _ Hd) as Hi. unfold DecodeTrigger, mbind, res_bind. rewrite Hi, Hd.
  destruct (doc_spec d'); try done. by intros [= <-].
Qed.
(** The state an [EnsureTriggerState] answers with is the stored one. *)
Lemma ensured_state uid generation enabled cursor now s st s' : EnsureTriggerState uid generation enabled cursor now s = inr (st, s') →
  ∃ row, db_trigger_states s' !! uid = Some row ∧ ts_enabled row = st_enabled st.
Proof.
  intros H. run_op H; simplify_eq; cbn [db_trigger_states set_trigger_states].
  all: first [ eexists; split; [eassumption|reflexivity] | eexists; split; [apply lookup_insert_eq|reflexivity] ].
Qed.

(** What an accepted request is.  It is a POST to the hook of a Trigger that is
    stored and enabled in the store [s1] of the lookup, and enabled in its state row
    of [s2]; it carries the value that the Trigger's SecretRef has in [s3], and a
    JSON body within the bounds. *)
Definition request_key (fresh : string) (request : HttpRequest) : string :=
  "webhook:" +:+ valueOr (trim_space (hq_idempotencyKey request)) fresh.
Record admissible (request : HttpRequest) (s1 s2 s3 : Db) (uid : string) (trigger : ObjectMeta * TriggerSpec) (body : string) : Prop := {
  ad_post : hq_method request = "POST";
  ad_path : hook_uid (hq_path request) = Some uid;
  ad_trigger : ∃ row, stored s1 "Trigger" uid row ∧ DecodeTrigger (rr_doc row) = inr trigger;
  ad_enabled : trigger_enabled trigger.2 = true;
  ad_state : ∃ row, db_trigger_states s2 !! uid = Some row ∧ ts_enabled row = true;
  ad_secret : ∃ hook, t_webhook trigger.2 = Some hook ∧
    resolveSecret s3 (m_namespace trigger.1) (w_bearerSecretRef hook) = inr (trim_prefix (hq_authorization request) "Bearer ") ∧
    trim_prefix (hq_authorization request) "Bearer " ≠ "";
  ad_body : hq_body request = Some body ∧ Z.of_nat (String.length body) ≤ maxBody ∧ valid body = true;
  ad_key : Z.of_nat (String.length (trim_space (hq_idempotencyKey request))) ≤ 256 }.

Lemma authorized_ok a secret : authorized a secret = true → trim_prefix a "Bearer " = secret ∧ secret ≠ "".
Proof. unfold authorized. intros [H1 H2%String.eqb_eq]%andb_true_iff. split; [done|]. intros Heq. by rewrite H2, Heq in H1. Qed.

Context {acceptor : Acceptor}.

(** The requests the store never sees change nothing but what others committed;
    every answer is the store's evolution. *)
Lemma accept_hook_evolves {laws : AcceptorLaws acceptor} fresh meta spec request s :
  rtc store_step s (accept_hook fresh meta spec request s).2.
Proof.
  unfold accept_hook. destruct (hq_body request) as [body|]; [|reflexivity].
  destruct (maxBody <? _); [reflexivity|]. destruct (valid body); [|reflexivity]. simpl negb. cbv iota zeta.
  destruct (256 <? _); [reflexivity|].
  match goal with |- context [accept_trigger ?t ?g ?o ?f ?ns ?i ?d s] => pose proof (accept_evolves t g o f ns i d s) as Hev end.
  destruct (accept_trigger _ _ _ _ _ _ _ s) as [[e|receipt] s1]; [by destruct (unavailableTrigger e)|done].
Qed.
Lemma call_commits {A} env i (t : Tx A) s r s1 : interference env → commits t → call env i t s = (r, s1) → rtc store_step s s1.
Proof. intros He Ht H. pose proof (evolves_call env i t He Ht s) as Hev. by rewrite H in Hev. Qed.
Lemma commits_by_uid kind uid : commits (ResourceByUID kind uid).
Proof. apply commits_bind; [apply commits_row|intros r; apply commits_lift]. Qed.

Lemma ServeHTTP_evolves {laws : AcceptorLaws acceptor} env fresh request s :
  interference env → rtc store_step s (ServeHTTP env fresh request s).2.
Proof.
  intros He. unfold ServeHTTP. destruct (negb _); [reflexivity|]. destruct (hook_uid _) as [uid|]; [|done].
  destruct (call env 0 _ s) as [document s1] eqn:E0. apply (call_commits env 0 _ _ _ _ He (commits_by_uid _ _)) in E0.
  destruct document as [e|document]; [exact E0|]. destruct (hook_of document) as [[[meta spec] hook]|]; [|done].
  destruct (call env 1 _ s1) as [state s2] eqn:E1. apply (call_commits env 1 _ _ _ _ He (commits_trigger_state _ _ _ _ _)) in E1.
  assert (H2 : rtc store_step s s2) by (by etrans). clear E0 E1.
  destruct state as [e|state]; [exact H2|]. destruct (negb _); [exact H2|].
  destruct (call env 2 _ s2) as [seen s3] eqn:E2. apply (call_commits env 2 _ _ _ _ He (commits_get _)) in E2.
  assert (H3 : rtc store_step s s3) by (by etrans). clear E2.
  destruct seen as [e|seen]; [exact H3|]. destruct (resolveSecret _ _ _) as [e|secret]; [exact H3|]. destruct (negb _); [exact H3|].
  etrans; [exact H3|apply accept_hook_evolves].
Qed.

(** A request answered 202 was admissible, and its answer is the receipt of its
    occurrence. *)
Lemma accept_hook_accepted fresh meta spec request s response s' :
  accept_hook fresh meta spec request s = (response, s') → hp_status response = 202 →
  ∃ body receipt deduplicated, hq_body request = Some body ∧ Z.of_nat (String.length body) ≤ maxBody ∧ valid body = true ∧
    Z.of_nat (String.length (trim_space (hq_idempotencyKey request))) ≤ 256 ∧
    accept_trigger (m_uid meta) (m_generation meta) (request_key fresh request) (t_flow spec) (m_namespace meta) body deduplicated s
      = (inr receipt, s') ∧ response = accepted_response receipt.
Proof.
  unfold accept_hook. intros H Hs. destruct (hq_body request) as [body|]; [|by injection H as <- _].
  destruct (maxBody <? _) eqn:Hb; [by injection H as <- _|]. destruct (valid body) eqn:Hv; [|by injection H as <- _]. simpl negb in H. cbv iota in H.
  cbv zeta in H. destruct (256 <? _) eqn:Hk; [by injection H as <- _|].
  destruct (accept_trigger _ _ _ _ _ _ _ s) as [[e|receipt] s1] eqn:Ha.
  - destruct (unavailableTrigger e); by injection H as <- _.
  - injection H as <- <-. apply Z.ltb_ge in Hb, Hk. by eexists body, receipt, _.
Qed.
Lemma ServeHTTP_accepted env fresh request s response s' :
  interference env → reachable s → ServeHTTP env fresh request s = (response, s') → hp_status response = 202 →
  ∃ s1 s2 s3 uid trigger body receipt deduplicated,
    rtc store_step s s1 ∧ rtc store_step s1 s2 ∧ rtc store_step s2 s3 ∧ admissible request s1 s2 s3 uid trigger body ∧
    accept_trigger uid (m_generation trigger.1) (request_key fresh request) (t_flow trigger.2) (m_namespace trigger.1) body deduplicated s3
      = (inr receipt, s') ∧ response = accepted_response receipt.
Proof.
  intros He Hr H Hs. unfold ServeHTTP in H. destruct (String.eqb _ _) eqn:Hp; [|by injection H as <- _]. simpl negb in H. cbv iota in H.
  destruct (hook_uid _) as [uid|] eqn:Hu; [|by injection H as <- _].
  destruct (call env 0 _ s) as [document s1] eqn:E0. destruct document as [e|document]; [by injection H as <- _|].
  destruct (hook_of document) as [[[meta spec] hook]|] eqn:Hh; [|by injection H as <- _].
  pose proof (call_commits env 0 _ _ _ _ He (commits_by_uid _ _) E0) as H1. apply call_ok in E0.
  apply ResourceByUID_stored in E0 as (->&row&Hrow&Hd).
  apply hook_of_trigger in Hh as (Hm&Hw&Hen). destruct (decode_trigger_meta _ _ _ Hd Hm) as [Hdt Hmeta]. cbn [fst] in Hmeta.
  assert (Huid : m_uid meta = uid) by (rewrite Hmeta; eapply stored_uid; [unfold reachable in *; etrans; [exact Hr|apply He]|exact Hrow|exact Hd]).
  set (s1 := others env 0 s) in *.
  destruct (call env 1 _ s1) as [state s2] eqn:E1. pose proof (call_commits env 1 _ _ _ _ He (commits_trigger_state _ _ _ _ _) E1) as H2.
  destruct state as [e|state]; [by injection H as <- _|]. apply call_ok in E1. destruct (st_enabled state) eqn:Hst; [|by injection H as <- _]. simpl negb in H. cbv iota in H.
  apply ensured_state in E1 as (row2&Hrow2&Hen2).
  destruct (call env 2 _ s2) as [seen s3] eqn:E2. pose proof (call_commits env 2 _ _ _ _ He (commits_get _) E2) as H3.
  destruct seen as [e|seen]; [by injection H as <- _|]. apply call_ok, tx_get_inv in E2 as [-> ->].
  destruct (resolveSecret _ _ _) as [e|secret] eqn:Hsec; [by injection H as <- _|].
  destruct (authorized _ _) eqn:Ha; [|by injection H as <- _]. simpl negb in H. cbv iota in H.
  apply accept_hook_accepted in H as (body&receipt&d&Hb&Hl&Hv&Hk&Hacc&->); [|done]. apply authorized_ok in Ha as [Hauth Hne]. subst secret uid.
  exists s1, s2, (others env 2 s2), (m_uid meta), (meta, spec), body, receipt, d.
  split_and!; [done|done|done| |exact Hacc|done]. apply String.eqb_eq in Hp. split; simpl; [done|done|by exists row|done| | |done|done].
  - exists row2. by rewrite Hen2.
  - by exists hook.
Qed.

(** The receipt an acceptance returns is the recorded one, marked when it was
    there before; an occurrence accepted before is answered with its receipt. *)
Lemma acceptTrigger_answers t g o f ns i d pc pe p fr fu now s r s' :
  acceptTrigger t g o f ns i d pc pe p fr fu now s = inr (r, s') →
  ∃ x, lookup_receipt t o s' = Some x ∧ (r = x ∨ r = mark_existing x).
Proof.
  intros H. unfold acceptTrigger in H. run_op H; simplify_eq.
  all: first [ eexists; split; [eassumption|by right]
             | unfold lookup_receipt; simpl; rewrite lookup_insert_eq; eexists; split; [reflexivity|by left] ].
Qed.
(** A fresh receipt is recorded with the payload, and the command to start its Run
    waits in the outbox. *)
Definition recorded (t o f ns i : string) (receipt : Receipt) (s : Db) : Prop :=
  ∃ row c p, db_receipts s !! (t, o) = Some row ∧ rc_uid row = rt_uid receipt ∧ rc_run row = rt_run receipt ∧ rc_payload row = nonempty i ∧
    c ∈ db_outbox s ∧ ob_state c = ObPending ∧ ob_payload c = StartRun p ∧ sp_run p = rt_run receipt ∧ sp_receipt p = rt_uid receipt ∧
    sp_flowName p = f ∧ sp_namespace p = default_namespace ns ∧ sp_input p = nonempty i.
Lemma acceptTrigger_recorded t g o f ns i d pc pe p fr fu now s r s' :
  acceptTrigger t g o f ns i d pc pe p fr fu now s = inr (r, s') → rt_existing r = false → recorded t o f ns i r s'.
Proof.
  intros H Hfresh. unfold acceptTrigger in H. run_op H; simplify_eq; simpl in Hfresh; try done.
  all: unfold recorded; simpl; rewrite lookup_insert_eq; eexists _, _, _; split_and!;
    [reflexivity|reflexivity|reflexivity|reflexivity|apply elem_of_app; right; left|reflexivity..].
Qed.
Lemma orchestrator_answers {compiler : FlowCompiler} env t g o f ns i d s receipt s' :
  interference env → reachable s →
  accept_trigger (Acceptor := orchestrator_acceptor env) t g o f ns i d s = (inr receipt, s') →
  (∃ x, lookup_receipt t o s' = Some x ∧ (receipt = x ∨ receipt = mark_existing x)) ∧
  (rt_existing receipt = false → recorded t o f ns i receipt s') ∧
  (∀ s0 x, reachable s0 → rtc store_step s0 s → lookup_receipt t o s0 = Some x → receipt = mark_existing x).
Proof.
  intros He Hr H. simpl in H.
  destruct (Orchestrator.AcceptTrigger _ _ _ _ _ _ _ _ _ _ _ _) as [e|[r1 s1]] eqn:E; [discriminate H|]. injection H as -> ->.
  unfold Orchestrator.AcceptTrigger in E. split; [|split].
  - destruct (lookup_receipt t o _) as [x|] eqn:Ex.
    + injection E as <- <-. exists x. split; [|by right]. eapply occurrences_forever; [|apply He|exact Ex].
      unfold reachable in *. etrans; [exact Hr|apply He].
    + unfold mbind, res_bind in E. destruct (plan_and_input _ _ _ _) as [e|plan]; [discriminate E|]. by eapply acceptTrigger_answers.
  - intros Hfresh. destruct (lookup_receipt t o _) as [x|]; [by injection E as <- _|].
    unfold mbind, res_bind in E. destruct (plan_and_input _ _ _ _) as [e|plan]; [discriminate E|]. by eapply acceptTrigger_recorded.
  - intros s0 x Hr0 Hs Hl. rewrite (occurrences_forever s0 (others env 0 s) Hr0 ltac:(by etrans) _ _ _ Hl) in E. by injection E as <- _.
Qed.
End Facts.
