(* ===== verification/PropertiesServer.v ===== *)
(** The properties of the reference resolver and of the server's resource
    listing, each with a witness. *)

From Stdlib Require Import Ascii.
From Stdlib Require String.
From S2P Require Import Prelude.
From S2P Require Import Json.
From S2P Require Import GoStd.
From S2P Require Import Resource.
From S2P Require Import Plan.
From S2P Require Import ActionContract.
From S2P Require Import PluginMapping.
From S2P Require Import References.
From S2P Require Import FlowCompiler.
From S2P Require Import Db.
From S2P Require Import StoreRuns.
From S2P Require Import StoreResources.
From S2P Require Import StoreStep.
From S2P Require Import StoreWatch.
From S2P Require Import StoreOps.
From S2P Require Import ServerPages.
From S2P Require Import ServerPagesFacts.
From S2P Require Import Samples.

Local Open Scope Z_scope.

(** ** References *)

Definition signal_trigger (node : string) : Document :=
  mkDocument APIVersion (mkMeta "button" "default" "" 0 0 ∅)
    (SpecTrigger (mkTriggerSpec "deploy" None None None (Some (mkProvider "github" "issues" [])) (Some (mkDelivery "signal" node)))) [].
Definition store_lookup (s : Db) : Lookup := λ kind namespace name, result (Get kind namespace name) s.
Definition any_provider : ProviderValidator := λ _ _ _ _, [].

(** C17. Reference resolution.  A decoded resource has no diagnostics exactly when
    everything it names resolves — the Flow, the [core.event] node a signal is
    delivered to, the secrets and the provider configuration — and the Ready
    condition says so: it is [True/ReferencesResolved] in exactly that case, and
    [False] exactly when a diagnostic is an error. *)
Theorem ready_iff_references_resolve {cal : Calendar} get validate document :
  well_formed document →
  let diagnostics := Diagnostics (mkResolver (Some get) (Some validate)) document in
  (diagnostics = [] ↔ resolves get validate (m_namespace (doc_meta document)) (doc_spec document)) ∧
  ((readiness diagnostics).1 = ("True", "ReferencesResolved") ↔
     resolves get validate (m_namespace (doc_meta document)) (doc_spec document)) ∧
  ((readiness diagnostics).1.1 = "False" ↔ HasErrors diagnostics = true).
Proof.
  intros Hw diagnostics. pose proof (Diagnostics_nil get validate document Hw) as H. fold diagnostics in H.
  split_and!; [done|rewrite <- H; apply readiness_resolved|apply readiness_false].
Qed.

(** A signal Trigger of a stored Flow, with and without its event node. *)
Definition event_flow : Document :=
  mkDocument APIVersion (mkMeta "deploy" "default" "" 0 0 ∅)
    (SpecFlow (mkFlowSpec [] [] (mkPolicies "" 0) [mkNode "pressed" "" "core.event" [] None "" None] [])) [].
Definition with_flow : Db := commit (Apply event_flow no_options "flow-uid" "request-1" t0) empty_db.

Lemma ready_iff_references_resolve_witness :
  resolves (store_lookup with_flow) any_provider "default" (doc_spec (signal_trigger "pressed")) ∧
  ¬ resolves (store_lookup with_flow) any_provider "default" (doc_spec (signal_trigger "released")).
Proof.
  split.
  - apply (ready_iff_references_resolve (store_lookup with_flow) any_provider (signal_trigger "pressed")); vm_compute; reflexivity.
  - intros H. apply (ready_iff_references_resolve (store_lookup with_flow) any_provider (signal_trigger "released") eq_refl) in H.
    vm_compute in H. discriminate H.
Defined.

(** ** Pages *)

(** A digest of the right shape. *)
#[local] Instance constant_sha : Sha256 := λ _, implode (replicate 64 "0"%char).
Lemma constant_sha_hex : hex_digest constant_sha.
Proof. intros s. by vm_compute. Qed.

Definition secret (name : string) : Document :=
  mkDocument APIVersion (mkMeta name "default" "" 0 0 ∅) (SpecSecretRef (mkSecretRef "env" "TOKEN")) [].
Definition put (name : string) (s : Db) : Db := commit (Apply (secret name) no_options (name +:+ "-uid") (name +:+ "-request") t0) s.
Definition three_secrets : Db := put "b" (put "a" (put "c" empty_db)).
Definition secrets_request : ListRequest := mkListRequest "SecretRef" "" ∅ 1 "".

Lemma served_put name s a : DecodeStrict (secret name) = inr (secret name) →
  result (Apply (secret name) no_options (name +:+ "-uid") (name +:+ "-request") t0) s = inr a → served s (put name s).
Proof. intros Hd H. exact (served_apply _ _ _ _ _ _ _ _ _ Hd (commit_inr _ _ _ H)). Qed.
Lemma served_three : rtc served empty_db three_secrets.
Proof.
  apply (rtc_l _ _ (put "c" empty_db)); [eapply (served_put "c"); vm_compute; reflexivity|].
  apply (rtc_l _ _ (put "a" (put "c" empty_db))); [eapply (served_put "a"); vm_compute; reflexivity|].
  apply rtc_once. eapply (served_put "b"); vm_compute; reflexivity.
Qed.

(** C18. The catalogue is well formed.  While the daemon applies only what
    [DecodeStrict] returned, every stored document is one [DecodeStrict] accepts
    unchanged, is filed under its own kind, namespace and name, and its row carries
    its labels, through every operation of the store. *)
Theorem stored_documents_are_well_formed {cal : Calendar} {dig : Digest} s :
  rtc served empty_db s → filed s.
Proof. apply served_filed. Qed.

Lemma stored_documents_are_well_formed_witness : filed three_secrets.
Proof. apply stored_documents_are_well_formed. exact served_three. Defined.

(** Page tokens.  The token of a page is read back as the revision and the key
    it was made from when it is presented with the same filters, and is refused
    with any filters of another digest. *)
Theorem page_token_roundtrips {cal : Calendar} {sha : Sha256} request revision last :
  hex_digest sha → well_formed last → 0 < revision < 2 ^ 64 →
  let token := encodeResourcePageToken request revision last in
  decodeResourcePageToken (with_token token request) = inr (page_token request revision last) ∧
  ∀ other, resourceFilterDigest other ≠ resourceFilterDigest request →
    decodeResourcePageToken (with_token token other) = inl "continue_token does not match list filters".
Proof.
  intros Hsha Hw Hr token. split; [exact (proj2 (decode_encode_token Hsha request revision last Hw Hr))|].
  intros other Hne. exact (foreign_token Hsha request other revision last Hw Hr Hne).
Qed.

Lemma page_token_roundtrips_witness :
  decodeResourcePageToken (with_token (encodeResourcePageToken secrets_request 3 (secret "a")) secrets_request)
    = inr (mkToken 1 3 (implode (replicate 64 "0"%char)) "SecretRef" "default" "a").
Proof.
  assert (H : 0 < 3 < 2 ^ 64) by lia. assert (Hw : well_formed (secret "a")) by (vm_compute; reflexivity).
  exact (proj1 (page_token_roundtrips secrets_request 3 (secret "a") constant_sha_hex Hw H)).
Defined.

(** C19. Listing page by page.  A client that follows the tokens while the store
    moves on from [s] to the stores [later] either receives the documents of [s]
    that match the filters, each exactly once and in key order, or is told to
    restart because a resource changed in between; it always ends. *)
Theorem page_walk_is_a_snapshot {cal : Calendar} {dig : Digest} {sha : Sha256} project request s later :
  hex_digest sha → rtc served empty_db s → Forall (rtc served s) later →
  lq_token request = "" → filters_ok request → db_revision s < 2 ^ 64 →
  (length (collection request (docs s)) ≤ length later)%nat →
  walk project request (s :: later) = Some (inr (project <$> collection request (docs s))) ∨
  walk project request (s :: later) = Some (inl restart) ∧ Exists (λ s', db_revision s' ≠ db_revision s) later.
Proof. intros Hsha. by apply walk_snapshot. Qed.

Lemma page_walk_is_a_snapshot_witness :
  walk resourcePB secrets_request (three_secrets :: replicate 3 three_secrets)
    = Some (inr (resourcePB <$> collection secrets_request (docs three_secrets))).
Proof.
  destruct (page_walk_is_a_snapshot resourcePB secrets_request three_secrets (replicate 3 three_secrets)) as [H|[_ H]]; [..|exact H|].
  - exact constant_sha_hex.
  - exact served_three.
  - repeat constructor.
  - reflexivity.
  - split_and!; [right; by vm_compute|by left|vm_compute; discriminate].
  - by vm_compute.
  - apply Nat.leb_le. by vm_compute.
  - exfalso. apply Exists_exists in H as (s'&Hin&Hne). apply elem_of_replicate in Hin as [-> _]. done.
Defined.

(** * The properties of the trigger controller, each with a witness at an hourly
       Trigger. *)

From S2P Require Import StoreOutbox.
From S2P Require Import StorePlugins.
From S2P Require Import StoreHistory.
From S2P Require Import Proc.
From S2P Require Import EngineAdapter.
From S2P Require Import Orchestrator.
From S2P Require Import Trigger.
From S2P Require Import TriggerFacts.
From S2P Require Import ManagerRun.
From S2P Require Import HttpIngress.

(** ** A concrete Trigger *)

(** Every schedule fires on the hour. *)
#[local] Instance hourly_cron : CronLibrary := {|
  cron_schedule _ := inr (λ _ t, (t / hour + 1) * hour); load_location _ := None |}.
Definition hourly : ScheduleTrigger := mkSchedule "0 * * * *" "" "fireOnce" "2h" "forbid".
Definition hourly_spec : TriggerSpec := mkTriggerSpec "deploy" None (Some hourly) None None None.
Definition hourly_document : Document :=
  mkDocument APIVersion (mkMeta "hourly" "default" "" 0 0 ∅) (SpecTrigger hourly_spec) [].
Definition trigger_meta : ObjectMeta := mkMeta "hourly" "default" "trigger-uid" 2 1 ∅.
Definition hourly_trigger : ObjectMeta * TriggerSpec := (trigger_meta, hourly_spec).

(** The flow of the samples and the Trigger, applied at [t0]. *)
Definition ready : Db := commit (Apply hourly_document no_options "trigger-uid" "request-2" t0) s1.
Lemma step_ready : store_step s1 ready.
Proof. eapply step_apply, commit_inr. vm_compute. reflexivity. Qed.
Lemma reach_ready : reachable ready.
Proof. eapply rtc_r; [apply reach_1|apply step_ready]. Qed.

Definition pass_uuid (i : nat) : string := match i with O => "receipt-9" | _ => "run-9" end.
(** Three and a half hours later. *)
Definition pass_time : Z := t0 + 210 * minute.
Definition pass_env : Env := alone pass_time pass_uuid.
#[local] Instance pass_acceptor : Acceptor := store_acceptor pass_env.
#[local] Instance pass_laws : AcceptorLaws pass_acceptor := store_acceptor_laws _ (interference_alone _ _).
#[local] Instance pass_solo : SoloLaws pass_acceptor := store_acceptor_solo _ _.

Definition after_pass : Db := (reconcileSchedule pass_env hourly_trigger hourly pass_time ready).2.
Definition hourly_next (t : Z) : Z := (t / hour + 1) * hour.
Lemma hourly_parses : parseSchedule hourly = inr ((λ _, hourly_next), "UTC").
Proof. reflexivity. Qed.

(** ** Properties *)

(** C16. Catch-up of a schedule.  A successful pass over an enabled Trigger either
    finds nothing due and writes nothing, or it settles the latest occurrence that
    is not in the future — the receipt or the skip record is in the store, also
    against the commits of other goroutines — and moves the cursor to it; earlier
    missed occurrences are dropped. *)
Theorem schedule_settles_latest_occurrence {cal : Calendar} {dig : Digest} {cron : CronLibrary} {acceptor : Acceptor}
    {laws : AcceptorLaws acceptor} env trigger spec schedule location now s s' :
  reachable s → interference env → parseSchedule spec = inr (schedule, location) →
  reconcileSchedule env trigger spec now s = (inr tt, s') →
  ∃ state s1,
    EnsureTriggerState (m_uid trigger.1) (m_generation trigger.1) (trigger_enabled trigger.2) now (stamp env 0) (others env 0 s) = inr (state, s1) ∧
    if st_enabled state then
      (now < schedule location (st_cursor state) ∧ s' = s1) ∨
      ∃ selected, latest_due (schedule location) (st_cursor state) now selected ∧
        settled (m_uid trigger.1) (OccurrenceIdentity trigger.1 selected) s' ∧
        ts_cursor <$> db_trigger_states s' !! m_uid trigger.1 = Some selected
    else s' = s1.
Proof. apply reconcileSchedule_ok. Qed.

Lemma schedule_settles_latest_occurrence_witness :
  ts_cursor <$> db_trigger_states after_pass !! "trigger-uid" = Some (t0 / hour * hour + 3 * hour) ∧
  ∃ state s1,
    EnsureTriggerState "trigger-uid" 1 true pass_time (stamp pass_env 0) ready = inr (state, s1) ∧
    if st_enabled state then
      (pass_time < hourly_next (st_cursor state) ∧ after_pass = s1) ∨
      ∃ selected, latest_due hourly_next (st_cursor state) pass_time selected ∧
        settled "trigger-uid" (OccurrenceIdentity trigger_meta selected) after_pass ∧
        ts_cursor <$> db_trigger_states after_pass !! "trigger-uid" = Some selected
    else after_pass = s1.
Proof.
  split; [vm_compute; reflexivity|].
  apply (schedule_settles_latest_occurrence pass_env hourly_trigger hourly (λ _, hourly_next) "UTC" pass_time ready after_pass);
    [exact reach_ready|apply interference_alone|exact hourly_parses|vm_compute; reflexivity].
Defined.

(** A pass accepts at most one occurrence, and only when it may: a receipt
    appears only for the latest due occurrence of an enabled Trigger, which had
    neither receipt nor tombstone (so a pass repeated after a crash accepts nothing
    new), is within its starting deadline, while no Run of the Trigger is active.
    Repeating a successful pass at the same instant changes nothing. *)
Theorem schedule_accepts_at_most_once {cal : Calendar} {dig : Digest} {cron : CronLibrary} {acceptor : Acceptor}
    {solo : SoloLaws acceptor} time uuid trigger spec schedule location now s r s' :
  parseSchedule spec = inr (schedule, location) → reconcileSchedule (alone time uuid) trigger spec now s = (r, s') →
  (r = ok tt → reconcileSchedule (alone time uuid) trigger spec now s' = (ok tt, s')) ∧
  (db_receipts s' ≠ db_receipts s →
   ∃ state selected deadline,
    result (EnsureTriggerState (m_uid trigger.1) (m_generation trigger.1) (trigger_enabled trigger.2) now (rfc3339nano time)) s = inr state ∧
    st_enabled state = true ∧ latest_due (schedule location) (st_cursor state) now selected ∧
    (∀ k, k ≠ (m_uid trigger.1, OccurrenceIdentity trigger.1 selected) → db_receipts s' !! k = db_receipts s !! k) ∧
    lookup_receipt (m_uid trigger.1) (OccurrenceIdentity trigger.1 selected) s = None ∧
    ParseDuration (s_startingDeadline spec) hour = inr deadline ∧ Z.min max_int64 (now - selected) ≤ deadline ∧
    result (HasActiveRunForTrigger (m_uid trigger.1)) s = inr false).
Proof.
  intros Hp H. split; [intros ->; exact (reconcileSchedule_again time uuid trigger spec now s s' H)|]. intros Hne.
  exact (reconcileSchedule_only time uuid trigger spec schedule location now s r s' Hp H Hne).
Qed.

Lemma schedule_accepts_at_most_once_witness :
  db_receipts after_pass ≠ db_receipts ready ∧ reconcileSchedule pass_env hourly_trigger hourly pass_time after_pass = (ok tt, after_pass).
Proof.
  split; [apply (bool_decide_unpack _); vm_compute; exact I|].
  refine (proj1 (schedule_accepts_at_most_once pass_time pass_uuid hourly_trigger hourly (λ _, hourly_next) "UTC" pass_time ready (ok tt) after_pass
    hourly_parses _) eq_refl). vm_compute. reflexivity.
Defined.

(** A schedule that has fallen more than 10000 occurrences behind never
    recovers: every later pass fails without moving the cursor, and, since the
    first error ends the pass, no Trigger listed after it is evaluated either. *)
Theorem catch_up_overflow_is_permanent {cal : Calendar} {cron : CronLibrary} {acceptor : Acceptor}
    trigger spec schedule location row now :
  parseSchedule spec = inr (schedule, location) → ts_generation row = m_generation trigger.1 → ts_enabled row = true →
  (∀ k, (k ≤ maxCatchupScan)%nat → Nat.iter (S k) (schedule location) (ts_cursor row) ≤ now) →
  ∀ env s now', now ≤ now' → db_trigger_states (others env 0 s) !! m_uid trigger.1 = Some row →
    reconcileSchedule env trigger spec now' s = (fail overflow_error, others env 0 s) ∧
    ∀ document later, DecodeTrigger document = inr trigger → t_schedule trigger.2 = Some spec →
      reconcile_all (λ _, env) 0 (document :: later) now' s
      = (fail (wrap ("reconcile Trigger " +:+ m_name trigger.1 +:+ ": ") overflow_error), others env 0 s).
Proof.
  intros Hp Hg Hen Hmany env s now' Hle Hrow.
  assert (Hr : reconcileSchedule env trigger spec now' s = (fail overflow_error, others env 0 s)).
  { eapply reconcileSchedule_overflow; [exact Hp|exact Hrow|exact Hg|exact Hen|]. intros k Hk. specialize (Hmany k Hk). lia. }
  split; [exact Hr|]. intros document later Hd Hs. cbn [reconcile_all]. unfold mbind, proc_bind, proc_lift. rewrite Hd. cbv beta iota.
  rewrite Hs. cbv beta. rewrite Hr. reflexivity.
Qed.

(** The hourly Trigger, 10001 hours after its cursor. *)
Definition overdue : Z := t0 + 10001 * hour.
Lemma hourly_iter k : Nat.iter (S k) hourly_next t0 = (t0 / hour + 1 + Z.of_nat k) * hour.
Proof.
  induction k as [|k IH]; [simpl; unfold hourly_next; lia|].
  change (Nat.iter (S (S k)) hourly_next t0) with (hourly_next (Nat.iter (S k) hourly_next t0)). rewrite IH.
  unfold hourly_next. rewrite Z.div_mul by (by vm_compute). rewrite Nat2Z.inj_succ. ring.
Qed.
Lemma catch_up_overflow_is_permanent_witness :
  reconcileSchedule (alone overdue pass_uuid) hourly_trigger hourly (overdue + hour) ready = (fail overflow_error, ready).
Proof.
  refine (proj1 (catch_up_overflow_is_permanent hourly_trigger hourly (λ _, hourly_next) "UTC" (mkTriggerStateRow 1 true t0 now0) overdue
    hourly_parses eq_refl eq_refl _ (alone overdue pass_uuid) ready (overdue + hour) _ _)).
  - intros k Hk. rewrite hourly_iter. simpl ts_cursor.
    assert (Z.of_nat k ≤ 10000) by (apply inj_le in Hk; unfold maxCatchupScan in Hk; rewrite N_nat_Z in Hk; exact Hk).
    pose proof (Z.mul_div_le t0 hour eq_refl).
    assert ((1 + Z.of_nat k) * hour ≤ 10001 * hour) by (apply Z.mul_le_mono_nonneg_r; [vm_compute; discriminate|lia]).
    unfold overdue. lia.
  - vm_compute. discriminate.
  - vm_compute. reflexivity.
Defined.

(** ** The webhook listener *)

(** C34. A request that is answered 202 was a POST to the hook of a Trigger that
    was stored and enabled at its lookup ([s1]) and enabled in its state row just
    after ([s2]); its bearer token was the value of that Trigger's SecretRef when
    the secret was resolved ([s3]), and its body JSON of at most 1 MiB.  The answer is
    the receipt the store keeps of its occurrence.  A receipt that is new is recorded
    with the body, and the command that starts a Run of the Trigger's Flow with it is
    pending in the outbox.  A retry with the same key, in any later state, is
    answered with the first receipt.  Every other answer leaves the store to the
    committed operations of the listener and the others. *)
Theorem accepted_webhook_is_durable {cal : Calendar} {dig : Digest} {host : Host} {compiler : FlowCompiler} env fresh request s response s' :
  interference env → reachable s →
  ServeHTTP (acceptor := orchestrator_acceptor env) env fresh request s = (response, s') →
  rtc store_step s s' ∧
  (hp_status response = 202 → ∃ s1 s2 s3 uid trigger body receipt x,
    rtc store_step s s1 ∧ rtc store_step s1 s2 ∧ rtc store_step s2 s3 ∧ rtc store_step s3 s' ∧
    admissible request s1 s2 s3 uid trigger body ∧ response = accepted_response receipt ∧
    lookup_receipt uid (request_key fresh request) s' = Some x ∧ (receipt = x ∨ receipt = mark_existing x) ∧
    (rt_existing receipt = false →
       recorded uid (request_key fresh request) (t_flow trigger.2) (m_namespace trigger.1) body receipt s') ∧
    ∀ s0 first, reachable s0 → rtc store_step s0 s → lookup_receipt uid (request_key fresh request) s0 = Some first →
      receipt = mark_existing first).
Proof.
  intros He Hr H. pose proof (orchestrator_acceptor_laws env He) as laws. split.
  { pose proof (ServeHTTP_evolves (acceptor := orchestrator_acceptor env) env fresh request s He) as Hev. by rewrite H in Hev. }
  intros Hs. destruct (ServeHTTP_accepted env fresh request s response s' He Hr H Hs) as (s1&s2&s3&uid&trigger&body&receipt&d&H1&H2&H3&Ha&Hacc&->).
  assert (Hs3 : rtc store_step s s3) by (etrans; [exact H1|]; by etrans).
  pose proof (accept_evolves (AcceptorLaws := laws) uid (m_generation trigger.1) (request_key fresh request) (t_flow trigger.2) (m_namespace trigger.1) body d s3) as H4. rewrite Hacc in H4.
  apply orchestrator_answers in Hacc as [(x&Hx&Hrx) [Hrec Hfirst]]; [|done|unfold reachable in *; by etrans].
  exists s1, s2, s3, uid, trigger, body, receipt, x. split_and!; try done. intros s0 first Hr0 Hs0. apply (Hfirst s0); [done|by etrans].
Qed.

Definition hook_token : Document :=
  mkDocument APIVersion (mkMeta "hook-token" "default" "" 0 0 ∅) (SpecSecretRef (mkSecretRef "env" "HOOK_TOKEN")) [].
Definition hook_document : Document :=
  mkDocument APIVersion (mkMeta "hook" "default" "" 0 0 ∅)
    (SpecTrigger (mkTriggerSpec "deploy" None None (Some (mkWebhook "hook-token")) None None)) [].
Definition with_hook_token : Db := commit (Apply hook_token no_options "token-uid" "request-2" t0) s1.
Definition with_hook : Db := commit (Apply hook_document no_options "hook-uid" "request-3" t0) with_hook_token.
Lemma reach_hook : reachable with_hook.
Proof.
  eapply rtc_r; [eapply rtc_r; [apply reach_1|]|].
  - eapply (step_apply _ with_hook_token), commit_inr. vm_compute. reflexivity.
  - eapply (step_apply _ with_hook), commit_inr. vm_compute. reflexivity.
Qed.
#[local] Instance hook_host : Host := {| LookupEnv key := if String.eqb key "HOOK_TOKEN" then Some "s3cr3t" else None; ReadSecret _ := None |}.
#[local] Instance hook_compiler : FlowCompiler := {| Compile _ := (sample_plan, []); ValidateRunInput _ _ := ok tt |}.
Definition post (authorization : string) : HttpRequest := mkHttpRequest "POST" "/v1/hooks/hook-uid" authorization "build-7" (Some "{}").
Definition serve (request : HttpRequest) (env : Env) (s : Db) : HttpResponse * Db :=
  ServeHTTP (acceptor := orchestrator_acceptor env) env "fresh" request s.
Definition hooked : Db := (serve (post "Bearer s3cr3t") pass_env with_hook).2.
Definition retry_env : Env := alone (pass_time + hour) (λ i, match i with O => "receipt-10" | _ => "run-10" end).

Lemma accepted_webhook_is_durable_witness :
  hp_status (serve (post "Bearer s3cr3t") pass_env with_hook).1 = 202 ∧
  hp_status (serve (post "Bearer wrong") pass_env with_hook).1 = 401 ∧
  ∃ first, lookup_receipt "hook-uid" "webhook:build-7" hooked = Some first ∧ rt_run first = "run-9" ∧
    (serve (post "Bearer s3cr3t") retry_env hooked).1 = accepted_response (mark_existing first).
Proof.
  split; [vm_compute; reflexivity|]. split; [vm_compute; reflexivity|].
  assert (Hs : serve (post "Bearer s3cr3t") pass_env with_hook = ((serve (post "Bearer s3cr3t") pass_env with_hook).1, hooked)) by apply surjective_pairing.
  destruct (accepted_webhook_is_durable pass_env "fresh" (post "Bearer s3cr3t") with_hook _ hooked (interference_alone _ _) reach_hook Hs) as [Hev _].
  eexists. split; [vm_compute; reflexivity|]. split; [reflexivity|].
  destruct (accepted_webhook_is_durable retry_env "fresh" (post "Bearer s3cr3t") hooked
    (serve (post "Bearer s3cr3t") retry_env hooked).1 (serve (post "Bearer s3cr3t") retry_env hooked).2) as [_ H].
  - apply interference_alone.
  - unfold reachable. etrans; [exact reach_hook|exact Hev].
  - apply surjective_pairing.
  - destruct H as (?&?&?&uid&trigger&body&receipt&x&_&_&_&_&Ha&Hresp&Hx&_&_&Hfirst); [vm_compute; reflexivity|].
    pose proof (ad_path _ _ _ _ _ _ _ Ha) as Hpath. vm_compute in Hpath. injection Hpath as <-.
    rewrite Hresp. f_equal. apply (Hfirst hooked); [unfold reachable; etrans; [exact reach_hook|exact Hev]|apply rtc_refl|vm_compute; reflexivity].
Defined.
