(* ===== verification/PropertiesManager.v ===== *)
(** The properties of the plugin manager and of the engine over it, each with a
    witness. *)

From Stdlib Require Import Ascii.
From Stdlib Require String.
From S2P Require Import Prelude.
From S2P Require Import Json.
From S2P Require Import GoStd.
From S2P Require Import JsonPlain.
From S2P Require Import Resource.
From S2P Require Import Plan.
From S2P Require Import ActionContract.
From S2P Require Import PluginMapping.
From S2P Require Import ResourceJson.
From S2P Require Import PluginContract.
From S2P Require Import FlowCompiler.
From S2P Require Import Db.
From S2P Require Import StoreRuns.
From S2P Require Import StoreResources.
From S2P Require Import StorePlugins.
From S2P Require Import StoreStep.
From S2P Require Import StoreAttempts.
From S2P Require Import StoreOps.
From S2P Require Import ServerPagesFacts.
From S2P Require Import EngineNode.
From S2P Require Import EngineReplay.
From S2P Require Import ManagerBind.
From S2P Require Import Redact.
From S2P Require Import ManagerRun.
From S2P Require Import ManagerStream.
From S2P Require Import ManagerBindFacts.
From S2P Require Import ManagerFacts.
From S2P Require Import Samples.

Local Open Scope Z_scope.

(** ** A plugin, a secret and a node *)

Definition demo_manifest : string := marshal (mkobj [
  ("apiVersion", JStr "orchigram.io/plugin/v1alpha1"); ("name", JStr "demo"); ("version", JStr "1.0.0");
  ("protocol", mkobj [("minimum", JNum "1"); ("maximum", JNum "1")]); ("capabilities", JArr [JStr "task.demo.run"])]).
Definition demo_contract : string := marshal (mkobj [("actions", JArr [mkobj [
  ("action", JStr "demo.run"); ("configSchema", mkobj []); ("inputSchema", mkobj []); ("outputSchema", mkobj [])]])]).
Definition demo_plugin : PluginRecord := mkPluginRecord "demo" "1.0.0" "sha256:demo" demo_manifest demo_contract "sha256:contract" "" 0 false.
Definition deploy_token : Document :=
  mkDocument APIVersion (mkMeta "deploy-token" "default" "" 0 0 ∅) (SpecSecretRef (mkSecretRef "env" "DEPLOY_TOKEN")) [].

Definition with_token : Db := commit (Apply deploy_token no_options "token-uid" "request-1" t0) empty_db.
Definition with_plugin : Db := commit (PutPlugin demo_plugin None t0) with_token.
Definition catalogue : Db := commit (ActivatePlugin "demo" "1.0.0" now0) with_plugin.
(** An operation that leaves the resources alone, committed. *)
Lemma demo_commit {A} (op : Tx A) s a : (∀ a s', op s = inr (a, s') → store_step s s') →
  (∀ a s', op s = inr (a, s') → db_resources s' = db_resources s) → result op s = inr a → served s (commit op s).
Proof. intros Hstep Hsame H. apply (commit_inr op s a) in H. apply served_other; [by eapply Hstep|by eapply Hsame]. Qed.
Lemma served_catalogue : rtc served empty_db catalogue.
Proof.
  apply (rtc_l _ _ with_token).
  { eapply (served_apply _ _ deploy_token deploy_token), (commit_inr (Apply deploy_token no_options "token-uid" "request-1" t0));
      vm_compute; reflexivity. }
  apply (rtc_l _ _ with_plugin); [apply (demo_commit (PutPlugin demo_plugin None t0) with_token tt)|
    apply rtc_once, (demo_commit (ActivatePlugin "demo" "1.0.0" now0) with_plugin tt)].
  3, 6: vm_compute; reflexivity.
  1: intros a s'; by eapply step_put_plugin.
  2: intros a s'; by eapply step_activate.
  all: intros a s' Hop; run_op Hop; done.
Qed.

#[local] Instance demo_host : Host :=
  {| LookupEnv key := if String.eqb key "DEPLOY_TOKEN" then Some "s3cr3t" else None; ReadSecret _ := None |}.
#[local] Instance constant_sha : Sha256 := λ _, implode (replicate 64 "0"%char).
(** A library that compiles no schema; the nodes below have no contract. *)
#[local] Instance no_schema : JsonSchema := {| js_build _ := inl "unsupported"; js_validate _ _ := None |}.

(** Files that work. *)
#[local] Instance working_files : RawLogFiles := {| append_fault _ _ := None; read_fault _ _ := None |}.
Definition moment (n : Z) : string := rfc3339nano (t0 + n * second).
Definition artifact_uid (n : Z) : string := "artifact-" +:+ itoa n.
Definition said (text : string) : string := marshal (mkobj [("text", JStr text)]).
Definition progress : ExecuteEvent := mkExecuteEvent 1 "demo.progress" (Some (moment 1)) (said "token s3cr3t") "using s3cr3t".
Definition completed : ExecuteEvent := mkExecuteEvent 2 "demo.completed" (Some (moment 2)) (said "done with s3cr3t") "".
Definition demo_stream : Stream := mkStream [progress; completed] EndOfStream.
(** The attempt of [s6] that is open. *)
Definition demo_attempt : runArtifact := mkRunArtifact "run-1" "a" 0 1 ["s3cr3t"] true.
Definition consumed : (ExecError + string) * string * Db := consume moment artifact_uid demo_attempt demo_stream "" s6.
Lemma consumed_result : consumed = (inr (said "done with [REDACTED]"), consumed.1.2, consumed.2).
Proof. apply triple. vm_compute. reflexivity. Qed.

(** ** The event stream *)

(** C20. The protocol of a plugin call.  A call returns an output only when its
    stream ended regularly after events numbered 1, 2, 3, …, each with a type, a
    valid time and (redacted) JSON, exactly the last of which is terminal and a
    completion with this output; when the call belongs to a stored attempt, every
    event is then durable with its type and redacted payload.  Conversely such a
    stream does return its output, and leaves the whole redacted raw log, when
    recording it cannot fail: the raw log files of the attempt work and, for a
    stored attempt, its row is open, its Run is stored, its Run and node are file
    names, none of its events is recorded yet and no other artifact has the UID of
    its raw log. *)
Theorem plugin_calls_follow_the_protocol {cal : Calendar} {dig : Digest} {sha : Sha256} {files : RawLogFiles} now fresh a stream log s :
  (∀ output log' s', consume now fresh a stream log s = (inr output, log', s') →
     sm_end stream = EndOfStream ∧ completes a 1 (sm_events stream) output ∧
     (ra_persist a = true → ∀ event, event ∈ sm_events stream → ∃ row,
        db_plugin_events s' !! (attempt_of a, xe_sequence event) = Some row ∧ pe_type row = xe_type event ∧
        pe_payload row = redact (xe_payload event) (ra_redactions a))) ∧
  (∀ output, files_work a → (ra_persist a = true → recordable fresh a 1 s) →
     sm_end stream = EndOfStream → completes a 1 (sm_events stream) output →
     ∃ s', consume now fresh a stream log s = (inr output, log +:+ concat (chunk a <$> sm_events stream), s')).
Proof.
  unfold consume. split.
  - intros output log' s'. apply consume_from_completes.
  - intros output Hf Hr -> Hc. by apply completes_consume.
Qed.

Lemma demo_recordable : recordable artifact_uid demo_attempt 1 s6.
Proof.
  split.
  - eexists. split; [vm_compute; reflexivity|reflexivity].
  - eexists. vm_compute. reflexivity.
  - unfold ordinary; split_and!; try done; unfold no_slash, explode; simpl; set_solver.
  - intros q _. change (db_plugin_events s6) with (∅ : gmap (attempt_key * Z) PluginEventRow). apply lookup_empty.
  - intros k row _. change (db_artifacts s6) with (∅ : gmap (attempt_key * string) ArtifactRow). by rewrite lookup_empty.
  - intros text. vm_compute. reflexivity.
Qed.
(** The open attempt of [s6], from the protocol to the output and back. *)
Lemma plugin_calls_follow_the_protocol_witness :
  (∃ s', consume moment artifact_uid demo_attempt demo_stream "" s6 = (inr (said "done with [REDACTED]"), "using [REDACTED]", s')) ∧
  ∃ row, db_plugin_events consumed.2 !! (("run-1", "a", 0, 1), 1) = Some row ∧ pe_payload row = said "token [REDACTED]".
Proof.
  destruct (plugin_calls_follow_the_protocol moment artifact_uid demo_attempt demo_stream "" s6) as [H Hback].
  destruct (H _ _ _ consumed_result) as (_&Hc&Hrows). split.
  - destruct (Hback (said "done with [REDACTED]")) as (s'&E); [by intros q|intros _; exact demo_recordable|reflexivity|exact Hc|].
    exists s'. exact E.
  - destruct (Hrows eq_refl progress (list_elem_of_here _ _)) as (row&Hrow&_&Hp). exists row. split; [exact Hrow|].
    rewrite Hp. vm_compute. reflexivity.
Defined.

(** C21. Redaction.  Whatever a plugin sends, no secret of the call, and no secret
    as JSON text, occurs in a payload it adds to the store or in the output of the
    call.  What a call adds to the raw log is exactly the redacted raw logs of the
    first events of its stream, in their order, all of them when it returns an
    output, the last of them cut short when writing it failed; no secret occurs in
    one of these pieces.  (A secret with a bracket, or one that is part of
    [REDACTED], may occur in the replacement itself; a secret split over the raw
    logs of two events is not seen.) *)
Theorem stored_evidence_is_redacted {cal : Calendar} {dig : Digest} {sha : Sha256} {files : RawLogFiles} now fresh a stream log s result log' s' :
  consume now fresh a stream log s = (result, log', s') →
  (∀ k row, db_plugin_events s' !! k = Some row → db_plugin_events s !! k = Some row ∨ clean a (pe_payload row)) ∧
  (∃ n rest, log' = log +:+ (concat (chunk a <$> take n (sm_events stream)) +:+ rest) ∧
     prefix_of rest (default "" (chunk a <$> sm_events stream !! n)) ∧
     Forall (clean a) (rest :: (chunk a <$> take n (sm_events stream))) ∧
     ∀ output, result = inr output → n = length (sm_events stream) ∧ rest = "") ∧
  (∀ output, result = inr output → clean a output).
Proof.
  unfold consume. intros H. destruct (consume_from_evidence (dig:=dig) now fresh _ _ _ _ _ _ _ _ _ _ _ H) as (Hev&n&rest&text&->&[-> Hrest]&Hend). split_and!.
  - intros k row Hk. destruct (ev_new _ _ _ _ Hev k row Hk) as [?|(_&event&_&->)]; [by left|right; apply redact_clean].
  - exists n, rest. split_and!; [done|done| |exact Hend]. constructor.
    + eapply clean_prefix; [exact Hrest|]. destruct (sm_events stream !! n); [apply chunk_clean|]. apply clean_nothing.
    + apply Forall_fmap, Forall_forall. intros e _. apply chunk_clean.
  - intros output ->. apply consume_from_completes in H as (_&Hc&_). by apply completes_clean in Hc.
Qed.

Lemma stored_evidence_is_redacted_witness :
  consumed.1.2 = "using [REDACTED]" ∧ clean demo_attempt (said "done with [REDACTED]") ∧ redactable "s3cr3t" ∧
  ¬ occurs "s3cr3t" (said "done with [REDACTED]").
Proof.
  destruct (stored_evidence_is_redacted moment artifact_uid demo_attempt demo_stream "" s6 _ _ _ consumed_result) as (_&_&H).
  assert (Hr : redactable "s3cr3t").
  { split_and!; [done|reflexivity|]. intros (x&y&Exy). do 9 (destruct x as [|? x]; [discriminate Exy|injection Exy as _ Exy || discriminate Exy]). }
  split_and!; [vm_compute; reflexivity|exact (H _ eq_refl)|exact Hr|].
  exact (proj1 (H _ eq_refl "s3cr3t" (list_elem_of_here _ _)) Hr).
Defined.

(** ** Bound resources *)

(** C22. A plan keeps its resources.  What a node bound without diagnostics finds
    in its binding when it runs, against any later store (its resources changed or
    deleted), is what the catalogue it was bound against gives: the same secrets
    or the same error for an action, and the same profile and secrets for an
    agent. *)
Theorem bound_resources_are_pinned {cal : Calendar} {dig : Digest} {host : Host} workspaces s namespace action c b :
  rtc served empty_db s → namespace ≠ "" → BindAction workspaces s namespace action c = (b, []) → ∀ later,
  (plugin_of action ≠ "agent-command" →
     resolveNodeSecretsInNamespace later namespace (ab_config b) (ab_resources b) =
     resolveNodeSecretsInNamespace s namespace (ab_config b) []) ∧
  (plugin_of action = "agent-command" → ∃ spec,
     boundAgentProfile later namespace (ab_resources b) (get_string "profile" (ab_config b)) = inr spec ∧
     boundAgentProfile s namespace [] (get_string "profile" (ab_config b)) = inr spec ∧
     resolveProfileSecrets later namespace (a_secretRefs spec) (ab_resources b) = resolveProfileSecrets s namespace (a_secretRefs spec) []).
Proof.
  intros Hs%served_filed Hns H later. split; intros Hp.
  - by eapply node_secrets_pinned.
  - by eapply agent_secrets_pinned.
Qed.

Definition token_config : config := [("secretRefs", mkobj [("token", JStr "deploy-token")])].
Definition bound_demo : ActionBinding := (BindAction "/workspaces" catalogue "default" "demo.run" token_config).1.
Lemma bound_resources_are_pinned_witness :
  length (ab_resources bound_demo) = 1%nat ∧
  resolveNodeSecretsInNamespace empty_db "default" (ab_config bound_demo) (ab_resources bound_demo) = inr ({["token" := "s3cr3t"]}, []).
Proof.
  split; [vm_compute; reflexivity|].
  assert (Hb : BindAction "/workspaces" catalogue "default" "demo.run" token_config = (bound_demo, [])) by (vm_compute; reflexivity).
  assert (Hn : "default" ≠ "") by discriminate. assert (Hp : plugin_of "demo.run" ≠ "agent-command") by (vm_compute; discriminate).
  rewrite (proj1 (bound_resources_are_pinned "/workspaces" catalogue "default" "demo.run" token_config bound_demo served_catalogue Hn Hb empty_db) Hp).
  vm_compute. reflexivity.
Defined.

(** ** The engine over the manager *)

(** A node that runs as a plugin call.  When the engine's executor gives the
    results of the manager's [Execute], the activity of a node moves the store by
    its own operations only, and a success is exactly once: whatever happens to
    the store while the Run is retained (plugins upgraded, resources deleted), a
    redelivery of the attempt returns the recorded output, without calling a
    plugin and without writing. *)
Theorem plugin_nodes_replay {cel : Cel} {cal : Calendar} {dig : Digest} {host : Host} {js : JsonSchema} {sha : Sha256} {plugins : PluginHost} {files : RawLogFiles}
    workspaces now fresh log_of exec request f ctxErr now1 now2 s result s1 :
  implements workspaces now fresh log_of exec →
  ExecuteNode (Some exec) request f ctxErr now1 now2 s = (inr result, s1) →
  rtc store_step s s1 ∧
  ∀ s2, rtc (retaining (nq_run request)) s1 s2 → ∀ executor' ctxErr' now1' now2', ∃ output, nonempty output = nonempty (nr_output result) ∧
    ExecuteNode executor' request f ctxErr' now1' now2' s2 = (inr (mkResult output (nr_activated result) false), s2).
Proof.
  intros Hexec He. split.
  - pose proof (node_steps workspaces now fresh log_of exec request f ctxErr now1 now2 s Hexec) as H. by rewrite He in H.
  - intros s2 Hr executor' ctxErr' now1' now2'.
    assert (Hk : ∀ e, Some exec = Some e → keeps_results e) by (intros e [= <-]; by eapply implements_keeps_results).
    destruct (execute_succeeded (Some exec) Hk _ _ _ _ _ _ _ _ He) as (Hs&Hev&_&E1&E2).
    eapply succeeded_replays; [by eapply succeeded_stable|done|done|done].
Qed.

(** Every call answers with [demo_stream]; no schema compiles, so every check ends. *)
#[local] Instance demo_plugins : PluginHost :=
  {| Launch _ := None; StartTask _ _ := inr demo_stream; StartAgent _ _ := inr demo_stream |}.
Definition no_log (identity : TaskIdentity) (run node : string) : string := "".
Lemma check_total node part value : is_Some (validatePinnedValue node part value).
Proof.
  unfold validatePinnedValue. destruct (pn_contract node) as [contract|]; [|done]. unfold ActionContract.Compile.
  destruct (decode_stream _) as [[document rest]|]; [|done]. destruct (negb _); [done|]. by destruct (rejectExternalReferences _).
Qed.
Lemma check_json_total node part raw : is_Some (validatePinnedJSON node part raw).
Proof. unfold validatePinnedJSON. destruct (parse _); [apply check_total|done]. Qed.
Lemma check_request_total node c input : is_Some (check_request node c input).
Proof.
  unfold check_request. destruct (check_total node PartConfig (JObj c)) as [[e|u] ->]; [done|].
  by destruct (check_json_total node PartInput input) as [[e|u'] E]; cbn; rewrite E.
Qed.
Lemma call_total node identity run secrets started s : is_Some (call_plugin moment artifact_uid no_log node identity run secrets started s).
Proof.
  unfold call_plugin. destruct started as [e|stream]; [done|]. destruct (consume _ _ _ _ _ _) as [[[e|output] log] s']; [done|].
  cbn. by destruct (check_json_total node PartOutput output) as [v ->].
Qed.
Lemma demo_implements : implements "/workspaces" moment artifact_uid no_log (manager_executor "/workspaces" moment artifact_uid no_log).
Proof.
  apply manager_implements. intros identity run node input nodes s. unfold Execute.
  destruct (match pn_plugin node with Some _ => _ | None => _ end) as [e|record]; [done|]. destruct (String.eqb _ _).
  - unfold executeAgent. destruct (String.eqb _ ""); [done|]. destruct (boundAgentProfile _ _ _ _) as [e|spec]; [done|].
    destruct (resolveProfileSecrets _ _ _ _) as [e|secrets]; [done|]. destruct (render _ _ _) as [e|c]; [done|].
    cbv zeta. destruct (check_request_total node (obj_delete "secretRefs" c) input) as [[e|] ->]; [done|]. cbn [mbind option_bind].
    destruct (agent_invocation _ _) as [invocation [|kv rest]]; [apply call_total|done].
  - unfold executeTask. destruct (task_config _ _ _ _ _) as [e|c]; [done|].
    destruct (resolveNodeSecretsInNamespace _ _ _ _) as [e|[secrets c1]]; [done|].
    destruct (check_request_total node c1 input) as [[e|] ->]; [done|]. cbn [mbind option_bind]. apply call_total.
Qed.

(** Run [run-1] of [s7] with the plugin and the secret installed, and a node that
    calls it with its pinned secret. *)
Definition running : Db := commit (ActivatePlugin "demo" "1.0.0" now0) (commit (PutPlugin demo_plugin None t0) s7).
Definition demo_node : PlanNode :=
  mkPlanNode "b" "b" "default" "demo.run" (ab_config bound_demo) 2 "1s" "1m" 0 (Some (ab_plugin bound_demo)) None (ab_resources bound_demo).
Definition demo_request : NodeRequest := mkRequest "run-1" demo_node 0 [mkPlanEdge "b" "c" ""] "{}" ∅.
Definition demo_run : (NodeError + NodeResult) * Db :=
  ExecuteNode (Some (manager_executor "/workspaces" moment artifact_uid no_log)) demo_request 1 false now0 now0 running.
(** The plugin is disabled afterwards. *)
Definition disabled : Db := commit (DisablePlugin "demo") demo_run.2.

Lemma retaining_disable run name s : result (DisablePlugin name) s = inr tt → is_Some (db_runs (commit (DisablePlugin name) s) !! run) →
  rtc (retaining run) s (commit (DisablePlugin name) s).
Proof. intros H Hr. apply rtc_once. split; [|done]. exact (step_disable _ _ name tt (commit_inr _ _ _ H)). Qed.
Lemma disabled_retaining : rtc (retaining "run-1") demo_run.2 disabled.
Proof. apply retaining_disable; vm_compute; [reflexivity|eexists; reflexivity]. Qed.
Lemma demo_run_result :
  ExecuteNode (Some (manager_executor "/workspaces" moment artifact_uid no_log)) demo_request 1 false now0 now0 running
  = (inr (mkResult (said "done with [REDACTED]") [true] false), demo_run.2).
Proof. apply (pair_fst demo_run). vm_compute. reflexivity. Qed.

Lemma plugin_nodes_replay_witness :
  rtc store_step running demo_run.2 ∧
  (∃ row, db_plugin_events demo_run.2 !! (("run-1", "b", 0, 1), 1) = Some row ∧ pe_payload row = said "token [REDACTED]") ∧
  ∃ output, nonempty output = nonempty (said "done with [REDACTED]") ∧
    ExecuteNode None demo_request 1 true now0 now0 disabled = (inr (mkResult output [true] false), disabled).
Proof.
  destruct (plugin_nodes_replay "/workspaces" moment artifact_uid no_log (manager_executor "/workspaces" moment artifact_uid no_log)
    demo_request 1 false now0 now0 running _ _ demo_implements demo_run_result) as [Hsteps Hreplay].
  split_and!; [exact Hsteps|eexists; split; vm_compute; reflexivity|].
  exact (Hreplay disabled disabled_retaining None true now0 now0).
Defined.

(** A node whose plan pins no resource takes its secret references from the run
    input when a mapping says so, and resolves them in the live store. *)
Definition chooser : PlanNode :=
  mkPlanNode "b" "b" "default" "demo.run" [("mappings", JArr [mkobj [("from", JStr "input.secret"); ("to", JStr "/secretRefs")]])]
    2 "1s" "1m" 0 None None [].
Definition choice : string := marshal (mkobj [("secret", mkobj [("token", JStr "deploy-token")])]).
Example input_chooses_secret :
  task_config "/workspaces" chooser choice ∅ catalogue = inr token_config ∧
  resolveNodeSecretsInNamespace catalogue "default" token_config [] = inr ({["token" := "s3cr3t"]}, []).
Proof. split; vm_compute; reflexivity. Qed.
