(* ===== verification/JsonCanonical.v ===== *)
(** What the decoder yields is canonical: number literals of the grammar and
    objects with their keys in order; and a canonical text is its own compaction.
    A canonical value is therefore written, read and embedded without change. *)

From Stdlib Require Import Ascii.
From Stdlib Require String.
From S2P Require Import Prelude.
From S2P Require Import Json.
From S2P Require Import GoStd.
From S2P Require Import JsonPlain.
From S2P Require Import JsonRound.

Local Open Scope Z_scope.

(** ** Numbers *)

Definition no_digit (s : string) : bool := match s with String c _ => negb (Json.is_digit c) | EmptyString => true end.
Definition all_digits (s : string) : bool := forallb Json.is_digit (explode s).
Lemma take_digits_spec s d r : take_digits s = (d, r) → all_digits d = true ∧ no_digit r = true.
Proof.
  revert d r. induction s as [|c s IH]; intros d r H; cbn [take_digits] in H; [by injection H as <- <-|].
  destruct (Json.is_digit c) eqn:E; [|injection H as <- <-; split; [done|cbn; by rewrite E]].
  destruct (take_digits s) as [d' r']. injection H as <- <-. destruct (IH d' r' eq_refl) as [Hd Hr]. split; [|done].
  unfold all_digits in *. cbn. by rewrite E.
Qed.
Lemma take_digits_back d r : all_digits d = true → no_digit r = true → take_digits (d +:+ r) = (d, r).
Proof.
  induction d as [|c d IH]; intros Hd Hr.
  - change ("" +:+ r) with r. destruct r as [|c r]; [done|]. cbn in Hr |- *. by destruct (Json.is_digit c).
  - change (String c d +:+ r) with (String c (d +:+ r)). unfold all_digits in Hd. cbn in Hd. apply andb_prop in Hd as [Hc Hd].
    cbn [take_digits]. by rewrite Hc, IH.
Qed.
Lemma digit_code c : Json.is_digit c = true → (code c =? 45)%N = false ∧ (code c =? 43)%N = false ∧ (code c =? 46)%N = false ∧
  (code c =? 101)%N = false ∧ (code c =? 69)%N = false.
Proof. unfold Json.is_digit. rewrite !N.eqb_neq. intros [H1%N.leb_le H2%N.leb_le]%andb_prop. lia. Qed.

(** The fraction and the exponent are read back from themselves. *)
Lemma num_frac_back s f r x : num_frac s = Some (f, r) → num_frac x = Some ("", x) → no_digit x = true → num_frac (f +:+ x) = Some (f, x) ∧ no_digit (f +:+ x) = true.
Proof.
  destruct s as [|c s]; cbn [num_frac]; [by intros [= <- <-]|]. destruct (code c =? 46)%N; [|by intros [= <- <-]].
  destruct (take_digits s) as [d t] eqn:E. destruct (String.eqb d "") eqn:Ed; [done|]. intros [= <- <-] _ Hx.
  apply take_digits_spec in E as [Hd _]. change (("." +:+ d) +:+ x) with (String "." (d +:+ x)). split; [|done].
  cbn [num_frac]. change (code "." =? 46)%N with true. cbv iota. by rewrite take_digits_back, Ed.
Qed.
Lemma num_expo_back s x r : num_expo s = Some (x, r) → num_expo x = Some (x, "") ∧ num_frac x = Some ("", x) ∧ no_digit x = true.
Proof.
  destruct s as [|e s]; cbn [num_expo]; [by intros [= <- <-]|]. destruct ((code e =? 101)%N || (code e =? 69)%N) eqn:Ee; [|by intros [= <- <-]].
  assert (He : (code e =? 46)%N = false ∧ Json.is_digit e = false).
  { unfold Json.is_digit. apply orb_true_iff in Ee as [->%code_chr| ->%code_chr]; done. }
  destruct He as [He1 He2].
  assert (Hback : ∀ sg d, (sg = "" ∨ ∃ c, sg = String c "" ∧ (code c =? 43)%N || (code c =? 45)%N = true) → all_digits d = true → String.eqb d "" = false →
    num_expo (String e (sg +:+ d)) = Some (String e (sg +:+ d), "") ∧ num_frac (String e (sg +:+ d)) = Some ("", String e (sg +:+ d)) ∧ no_digit (String e (sg +:+ d)) = true).
  { intros sg d Hsg Hd Hne. split; [|cbn [num_frac no_digit]; by rewrite He1, He2]. cbn [num_expo]. rewrite Ee.
    destruct Hsg as [->|(c&->&Hc)].
    - change ("" +:+ d) with d. destruct d as [|c d]; [done|]. assert (Hc : Json.is_digit c = true).
      { unfold all_digits in Hd. cbn in Hd. by apply andb_prop in Hd as [? _]. }
      destruct (digit_code c Hc) as (->&->&_). cbn [orb]. cbv iota beta.
      rewrite <- (append_nil (String c d)) at 1. rewrite take_digits_back by done. by rewrite Hne.
    - change (String c "" +:+ d) with (String c d). cbv iota beta. rewrite Hc. cbv iota beta.
      rewrite <- (append_nil d) at 1. rewrite take_digits_back by done. by rewrite Hne. }
  destruct s as [|c s]; [done|]. destruct ((code c =? 43)%N || (code c =? 45)%N) eqn:Ec; cbv iota beta.
  - destruct (take_digits s) as [d t] eqn:E. destruct (String.eqb d "") eqn:Ed; [done|]. intros [= <- <-].
    apply take_digits_spec in E as [Hd _]. apply Hback; [right; by exists c|done|done].
  - destruct (take_digits (String c s)) as [d t] eqn:E. destruct (String.eqb d "") eqn:Ed; [done|]. intros [= <- <-].
    apply take_digits_spec in E as [Hd _]. apply Hback; [by left|done|done].
Qed.
Lemma parse_num_number s x r : parse_num s = Some (x, r) → number x = true.
Proof.
  rewrite parse_num_parts. destruct (num_sign s) as [sign s1] eqn:Es. destruct (take_digits s1) as [[|c int] s2] eqn:Et; [done|].
  destruct (_ && _) eqn:Ez; [done|]. destruct (num_frac s2) as [[f s3]|] eqn:Ef; [|done]. cbn [mbind option_bind].
  destruct (num_expo s3) as [[e s4]|] eqn:Ee; [|done]. cbn [mbind option_bind]. intros [= <- <-].
  destruct (num_expo_back _ _ _ Ee) as (He&Hfe&Hde). destruct (num_frac_back _ _ _ e Ef Hfe Hde) as [Hf Hdf].
  apply take_digits_spec in Et as [Hint _]. unfold number. rewrite parse_num_parts.
  assert (Hc : Json.is_digit c = true) by (unfold all_digits in Hint; cbn in Hint; by apply andb_prop in Hint as [? _]).
  assert (num_sign (sign +:+ String c int +:+ f +:+ e) = (sign, String c int +:+ f +:+ e)) as ->.
  { assert (sign = "" ∨ sign = "-") as [-> | ->].
    { unfold num_sign in Es. destruct s as [|d s]; [injection Es as <- _; by left|]. destruct (code d =? 45)%N; injection Es as <- _; auto. }
    - change ("" +:+ ?t) with t. change (String c int +:+ f +:+ e) with (String c (int +:+ f +:+ e)). destruct (digit_code c Hc) as (E45&_). unfold num_sign. cbv beta iota. by rewrite E45.
    - reflexivity. }
  rewrite take_digits_back by done. rewrite Ez, Hf. cbn [mbind option_bind]. rewrite He. cbn [mbind option_bind]. apply String.eqb_refl.
Qed.

(** ** Values *)

Lemma str_lt_trans a b c : str_lt a b = true → str_lt b c = true → str_lt a c = true.
Proof. rewrite !str_lt_spec. intros H1 H2. eapply cmp_lt_le_trans; [apply _|exact H1|by apply cmp_lt_le]. Qed.
Lemma obj_set_increasing k v m : increasing m = true → increasing (obj_set k v m) = true ∧
  (∀ k0, forallb (λ kv, str_lt k0 kv.1) m = true → str_lt k0 k = true → forallb (λ kv, str_lt k0 kv.1) (obj_set k v m) = true).
Proof.
  induction m as [|[k' v'] m IH]; [intros _; split; [done|intros k0 _ H; cbn; by rewrite H]|].
  cbn [increasing fst]. intros [Hk Hm]%andb_prop. specialize (IH Hm) as [IH1 IH2]. cbn [obj_set].
  destruct (str_cmp k k') eqn:E.
  - apply str_cmp_eq in E as ->. split; [cbn [increasing fst]; by rewrite Hk, Hm|]. intros k0 H Hk0. cbn [forallb fst] in *. by apply andb_prop in H as [_ ->]; rewrite Hk0.
  - assert (Hlt : str_lt k k' = true) by by apply str_lt_spec. split.
    + cbn [increasing forallb fst]. rewrite Hlt, Hk, Hm. cbn [andb]. rewrite !andb_true_r. rewrite forallb_forall in Hk |- *. intros kv Hin.
      eapply str_lt_trans; [exact Hlt|by apply Hk].
    + intros k0 H Hk0. cbn [forallb fst] in *. by rewrite Hk0.
  - assert (Hlt : str_lt k' k = true) by (apply str_lt_spec; unfold cmp_lt; by rewrite (cmp_sym str_cmp k k'), E). split.
    + cbn [increasing fst]. by rewrite IH1, IH2.
    + intros k0 H Hk0. cbn [forallb fst] in *. apply andb_prop in H as [-> H]. by rewrite IH2.
Qed.

Lemma mkobj_canonical m : forallb (λ kv, canonical kv.2) m = true → canonical (mkobj m) = true.
Proof.
  intros H. unfold mkobj. cbn [canonical].
  enough (∀ acc, increasing acc = true → forallb (λ kv, canonical kv.2) acc = true →
    increasing (fold_left (λ o kv, obj_set kv.1 kv.2 o) m acc) = true ∧
    forallb (λ kv, canonical kv.2) (fold_left (λ o kv, obj_set kv.1 kv.2 o) m acc) = true) as E by (by destruct (E [] eq_refl eq_refl) as [-> ->]).
  induction m as [|[k v] m IH]; intros acc Hi Hc; [done|]. cbn [forallb snd] in H. apply andb_prop in H as [Hv Hm]. cbn [fold_left fst snd].
  apply IH; [done|by apply obj_set_increasing|]. clear -Hv Hc. induction acc as [|[k' v'] acc IH]; cbn [obj_set forallb snd] in *; [by rewrite Hv|].
  apply andb_prop in Hc as [Hv' Hc]. destruct (str_cmp k k'); cbn [forallb snd]; by rewrite ?Hv, ?Hv', ?Hc, ?IH.
Qed.
Lemma parse_value_canonical fuel :
  (∀ s v r, parse_value fuel s = Some (v, r) → canonical v = true) ∧
  (∀ s l r, parse_items fuel s = Some (l, r) → forallb canonical l = true) ∧
  (∀ s m r, parse_fields fuel s = Some (m, r) → forallb (λ kv, canonical kv.2) m = true).
Proof.
  induction fuel as [|fuel (IHv&IHi&IHf)]; [done|]. split_and!.
  - intros s v r. cbn [parse_value]. destruct (skip_ws s) as [|c rest]; [done|].
    assert (Hnum : ('(l, r0) ← parse_num (String c rest); Some (JNum l, r0)) = Some (v, r) → canonical v = true).
    { destruct (parse_num (String c rest)) as [[l r0]|] eqn:E; [|done]. intros [= <- <-]. by eapply parse_num_number. }
    assert (Hstr : ('(w, r0) ← parse_str None rest; Some (JStr w, r0)) = Some (v, r) → canonical v = true).
    { destruct (parse_str None rest) as [[w r0]|]; [|done]. by intros [= <- <-]. }
    assert (Hlit : ∀ p w, canonical w = true → (r0 ← strip_prefix p (String c rest); Some (w, r0)) = Some (v, r) → canonical v = true).
    { intros p w Hw. destruct (strip_prefix p (String c rest)); [|done]. by intros [= <- <-]. }
    assert (Hitems : ('(l, r0) ← parse_items fuel rest; Some (JArr l, r0)) = Some (v, r) → canonical v = true).
    { destruct (parse_items fuel rest) as [[l r0]|] eqn:E; [|done]. intros [= <- <-]. by eapply IHi. }
    assert (Hfields : ('(l, r0) ← parse_fields fuel rest; Some (mkobj l, r0)) = Some (v, r) → canonical v = true).
    { destruct (parse_fields fuel rest) as [[l r0]|] eqn:E; [|done]. intros [= <- <-]. apply mkobj_canonical. by eapply IHf. }
    repeat match goal with |- context [match ?x with _ => _ end = Some _] => destruct x end; first [exact Hnum|exact Hstr|by apply Hlit|exact Hitems|exact Hfields|done|by intros [= <- <-]].
  - intros s l r. cbn [parse_items]. destruct (parse_value fuel s) as [[v r1]|] eqn:E; [|done]. cbn [mbind option_bind]. apply IHv in E.
    destruct (skip_ws r1) as [|c r2]; [done|]. destruct (_ =? 44)%N; [|destruct (_ =? 93)%N; [|done]; intros [= <- <-]; cbn; by rewrite E].
    destruct (parse_items fuel r2) as [[l2 r3]|] eqn:E2; [|done]. intros [= <- <-]. cbn [forallb]. rewrite E. by eapply IHi.
  - intros s m r. cbn [parse_fields]. destruct (skip_ws s) as [|q r0]; [done|]. destruct (_ =? 34)%N; [|done].
    destruct (parse_str None r0) as [[k r1]|]; [|done]. cbn [mbind option_bind]. destruct (skip_ws r1) as [|c r2]; [done|].
    destruct (_ =? 58)%N; [|done]. destruct (parse_value fuel r2) as [[v r3]|] eqn:E; [|done]. cbn [mbind option_bind]. apply IHv in E.
    destruct (skip_ws r3) as [|c2 r4]; [done|]. destruct (_ =? 44)%N; [|destruct (_ =? 125)%N; [|done]; intros [= <- <-]; cbn; by rewrite E].
    destruct (parse_fields fuel r4) as [[l2 r5]|] eqn:E2; [|done]. intros [= <- <-]. cbn [forallb snd]. rewrite E. by eapply IHf.
Qed.

(** ** Compaction *)

(** A character that compaction copies inside a string. *)
Definition copied (c : ascii) : bool :=
  negb (code c =? 34)%N && negb (code c =? 92)%N && negb (code c =? 60)%N && negb (code c =? 62)%N && negb (code c =? 38)%N.
Definition separator_ahead (s : string) : bool :=
  match s with String c2 (String c3 _) => (code c2 =? 128)%N && ((code c3 =? 168)%N || (code c3 =? 169)%N) | _ => false end.

Lemma compact_copy c s : copied c = true → (code c =? 226)%N && separator_ahead s = false →
  compact true false (String c s) = String c (compact true false s).
Proof.
  unfold copied. rewrite !andb_true_iff, !negb_true_iff. intros ((((H1&H2)&H3)&H4)&H5) Hs. cbn [compact negb andb]. rewrite H1, H2, H3, H4, H5. cbn [orb andb negb].
  destruct s as [|c2 [|c3 s]]; [done|done|]. cbn [separator_ahead] in Hs.
  destruct (code c =? 226)%N; [|done]. destruct (code c2 =? 128)%N; [|done]. cbn [andb] in *. apply orb_false_iff in Hs as [-> ->]. done.
Qed.
Lemma compact_escaped e s : (code e =? 60)%N || (code e =? 62)%N || (code e =? 38)%N || (code e =? 226)%N = false →
  compact true false (String (chr 92) (String e s)) = String (chr 92) (String e (compact true false s)).
Proof.
  rewrite !orb_false_iff. intros (((H1&H2)&H3)&H4). cbn [compact negb andb]. change (code (chr 92) =? 34)%N with false. change (code (chr 92) =? 60)%N with false.
  change (code (chr 92) =? 62)%N with false. change (code (chr 92) =? 38)%N with false. change (code (chr 92) =? 226)%N with false. change (code (chr 92) =? 92)%N with true.
  cbn [orb andb negb]. rewrite H1, H2, H3, H4. cbn [orb andb negb]. rewrite andb_false_r. cbn [negb]. destruct s as [|c2 [|c3 s]]; done.
Qed.
(** The shapes of an encoded character, for compaction. *)
Definition compact_shape (c : ascii) : bool :=
  match escape_char c with
  | String c1 "" => Ascii.eqb c1 c && copied c
  | String b (String e "") => Ascii.eqb b (chr 92) && negb ((code e =? 60)%N || (code e =? 62)%N || (code e =? 38)%N || (code e =? 226)%N)
  | String b (String u (String h1 (String h2 (String h3 (String h4 ""))))) =>
      Ascii.eqb b (chr 92) && Ascii.eqb u (chr 117) && forallb (λ h, copied h && negb (code h =? 226)%N) [h1; h2; h3; h4]
  | _ => false
  end.
Lemma compact_shapes c : compact_shape c = true.
Proof. apply all_chars. vm_compute. reflexivity. Qed.
Lemma compact_char c s : (code c =? 226)%N && separator_ahead s = false →
  compact true false (escape_char c +:+ s) = escape_char c +:+ compact true false s.
Proof.
  intros Hs. pose proof (compact_shapes c) as Hc. unfold compact_shape in Hc.
  destruct (escape_char c) as [|c1 [|c2 [|c3 [|c4 [|c5 [|c6 [|c7 l]]]]]]]; try discriminate Hc.
  - apply andb_prop in Hc as [->%Ascii.eqb_eq Hc]. by apply (compact_copy c s).
  - apply andb_prop in Hc as [->%Ascii.eqb_eq Hc%negb_true_iff]. by apply (compact_escaped c2 s).
  - apply andb_prop in Hc as [[->%Ascii.eqb_eq ->%Ascii.eqb_eq]%andb_prop Hc]. cbn [forallb] in Hc. rewrite !andb_true_iff, !negb_true_iff in Hc.
    destruct Hc as ((C3&N3)&(C4&N4)&(C5&N5)&(C6&N6)&_).
    transitivity (compact true false (String (chr 92) (String (chr 117) (String c3 (String c4 (String c5 (String c6 s))))))); [done|].
    rewrite compact_escaped by done. by rewrite !compact_copy by (try done; first [by rewrite N3|by rewrite N4|by rewrite N5|by rewrite N6]).
Qed.
Lemma escape_head c s tail : ∃ h t, escape (String c s) +:+ tail = String h t ∧ (h = c ∨ h = chr 92).
Proof.
  assert (Hplain : ∀ x, ∃ h t, (escape_char c +:+ x) +:+ tail = String h t ∧ (h = c ∨ h = chr 92)).
  { intros x. pose proof (compact_shapes c) as Hc. unfold compact_shape in Hc.
    destruct (escape_char c) as [|c1 [|c2 [|c3 [|c4 [|c5 [|c6 [|c7 l]]]]]]]; try discriminate Hc; eexists _, _; (split; [reflexivity|]).
    - apply andb_prop in Hc as [->%Ascii.eqb_eq _]. by left.
    - apply andb_prop in Hc as [->%Ascii.eqb_eq _]. by right.
    - apply andb_prop in Hc as [[->%Ascii.eqb_eq _]%andb_prop _]. by right. }
  rewrite escape_cons. destruct s as [|c2 [|c3 s]]; [apply Hplain|apply Hplain|].
  destruct (_ && _); [eexists _, _; split; [reflexivity|by right]|]. destruct (_ && _); [eexists _, _; split; [reflexivity|by right]|apply Hplain].
Qed.
Lemma separator_escape s rest : separator_ahead (escape s +:+ quote +:+ rest) = separator_ahead s.
Proof.
  destruct s as [|c2 s]; [by destruct rest|]. destruct (escape_head c2 s (quote +:+ rest)) as (h&t&E&Hh).
  destruct (N.eqb_spec (code c2) 128) as [E2|E2].
  2: { rewrite E. destruct t as [|c3 t]; cbn [separator_ahead].
       - destruct s; [done|]. cbn. by rewrite (proj2 (N.eqb_neq _ _) E2).
       - assert ((code h =? 128)%N = false) as ->. { destruct Hh as [->| ->]; [by apply N.eqb_neq|done]. }
         cbn. destruct s; [done|]. cbn. by rewrite (proj2 (N.eqb_neq _ _) E2). }
  assert (c2 = chr 128) as -> by (apply code_chr; by rewrite E2).
  assert (escape (String (chr 128) s) = String (chr 128) (escape s)) as ->.
  { rewrite escape_cons. by destruct s as [|? [|? ?]]. }
  clear. change (String (chr 128) (escape s) +:+ quote +:+ rest) with (String (chr 128) (escape s +:+ quote +:+ rest)).
  destruct s as [|c3 s]; [done|]. destruct (escape_head c3 s (quote +:+ rest)) as (h&t&E&Hh). rewrite E. cbn [separator_ahead]. change (code (chr 128) =? 128)%N with true. cbn [andb].
  destruct Hh as [->| ->]; [done|]. change ((code (chr 92) =? 168)%N || (code (chr 92) =? 169)%N) with false.
  destruct ((code c3 =? 168)%N || (code c3 =? 169)%N) eqn:E3; [|done]. exfalso.
  assert (∃ t, escape (String c3 s) +:+ quote +:+ rest = String c3 t) as [t2 Ht2].
  { apply orb_true_iff in E3 as [->%code_chr| ->%code_chr]; rewrite escape_cons; destruct s as [|? [|? ?]]; by eexists. }
  rewrite Ht2 in E. injection E as -> _. done.
Qed.
Lemma compact_string s rest : compact true false (escape s +:+ quote +:+ rest) = escape s +:+ quote +:+ compact false false rest.
Proof.
  remember (String.length s) as n eqn:Hn. revert s Hn. induction n as [n IH] using lt_wf_ind. intros s ->.
  destruct s as [|c s].
  { change (escape "" +:+ quote +:+ rest) with (String (chr 34) rest). change (escape "" +:+ quote +:+ compact false false rest) with (String (chr 34) (compact false false rest)).
    cbn [compact negb andb]. destruct rest as [|c2 [|c3 rest]]; done. }
  assert (Hplain : (code c =? 226)%N && separator_ahead s = false →
    compact true false ((escape_char c +:+ escape s) +:+ quote +:+ rest) = (escape_char c +:+ escape s) +:+ quote +:+ compact false false rest).
  { intros Hs. rewrite !append_assoc. rewrite compact_char by by rewrite separator_escape. by rewrite (IH (String.length s)) by (cbn; lia || done). }
  rewrite escape_cons. destruct s as [|c2 [|c3 s]].
  - apply Hplain. by rewrite andb_false_r.
  - apply Hplain. by rewrite andb_false_r.
  - cbn [separator_ahead] in Hplain. destruct (code c =? 226)%N; [|by apply Hplain]. destruct (code c2 =? 128)%N; [|by apply Hplain]. cbn [andb] in *.
    assert (Hsep : ∀ d, copied d && negb (code d =? 226)%N = true → compact true false (("\u202" +:+ String d (escape s)) +:+ quote +:+ rest) =
      ("\u202" +:+ String d (escape s)) +:+ quote +:+ compact false false rest).
    { intros d [Hd Hd2%negb_true_iff]%andb_prop. rewrite !append_assoc. change ("\u202" +:+ ?x) with (String (chr 92) (String "u" (String "2" (String "0" (String "2" x))))).
      change (String d (escape s) +:+ ?x) with (String d (escape s +:+ x)). rewrite compact_escaped by done.
      rewrite !compact_copy by (first [done|by rewrite Hd2]). by rewrite (IH (String.length s)) by (cbn; lia || done). }
    destruct (code c3 =? 168)%N; [by apply (Hsep "8"%char)|]. destruct (code c3 =? 169)%N; [by apply (Hsep "9"%char)|]. by apply Hplain.
Qed.

(** Outside strings. *)
Definition bare (c : ascii) : bool :=
  negb (is_ws c) && negb (code c =? 34)%N && negb (code c =? 60)%N && negb (code c =? 62)%N && negb (code c =? 38)%N && negb (code c =? 226)%N.
Lemma compact_bare c s : bare c = true → compact false false (String c s) = String c (compact false false s).
Proof.
  unfold bare. rewrite !andb_true_iff, !negb_true_iff. intros (((((H1&H2)&H3)&H4)&H5)&H6). cbn [compact negb andb]. rewrite H1, H2, H3, H4, H5, H6. cbn [orb andb negb].
  destruct s as [|c2 [|c3 s]]; done.
Qed.
Lemma compact_bare_text t s : forallb bare (explode t) = true → compact false false (t +:+ s) = t +:+ compact false false s.
Proof.
  induction t as [|c t IH]; [done|]. cbn [explode String.list_ascii_of_string forallb]. intros [Hc Ht]%andb_prop.
  change (String c t +:+ s) with (String c (t +:+ s)). rewrite compact_bare by done. by rewrite IH.
Qed.
Lemma bare_digits d : all_digits d = true → forallb bare (explode d) = true.
Proof.
  unfold all_digits. rewrite !forallb_forall. intros H c Hc. specialize (H c Hc). revert H. clear. unfold Json.is_digit.
  intros [H1%N.leb_le H2%N.leb_le]%andb_prop. unfold bare, is_ws. rewrite !andb_true_iff, !negb_true_iff, !N.eqb_neq.
  repeat split; try lia. rewrite ?orb_false_iff, ?N.eqb_neq. lia.
Qed.
Lemma number_bare l : number l = true → forallb bare (explode l) = true.
Proof.
  unfold number. destruct (parse_num l) as [[x [|]]|] eqn:E; try done. intros ->%String.eqb_eq. revert E.
  rewrite parse_num_parts. destruct (num_sign l) as [sign s1] eqn:Es.
  assert (Hsign : forallb bare (explode sign) = true).
  { unfold num_sign in Es. destruct l as [|d s]; [by injection Es as <- _|]. by destruct (code d =? 45)%N; injection Es as <- _. }
  destruct (take_digits s1) as [[|c int] s2] eqn:Et; [done|].
  destruct (_ && _); [done|]. destruct (num_frac s2) as [[f s3]|] eqn:Ef; [|done]. cbn [mbind option_bind].
  destruct (num_expo s3) as [[e s4]|] eqn:Ee; [|done]. cbn [mbind option_bind]. intros [= <- _].
  apply take_digits_spec in Et as [Hint _]. rewrite !explode_app, !forallb_app.
  rewrite Hsign, (bare_digits _ Hint). cbn [andb]. apply andb_true_iff. split.
  - destruct s2 as [|d s]; cbn [num_frac] in Ef; [by injection Ef as <- _|]. destruct (code d =? 46)%N; [|by injection Ef as <- _].
    destruct (take_digits s) as [d' t] eqn:Ed. destruct (String.eqb d' ""); [done|]. injection Ef as <- _. apply take_digits_spec in Ed as [Hd _].
    rewrite explode_app, forallb_app, (bare_digits _ Hd). done.
  - destruct s3 as [|d s]; cbn [num_expo] in Ee; [by injection Ee as <- _|]. destruct ((code d =? 101)%N || (code d =? 69)%N) eqn:Hd; [|by injection Ee as <- _].
    destruct (match s with String c' r => _ | _ => _ end) as [sg s''] eqn:Esg. destruct (take_digits s'') as [d' t] eqn:Ed.
    destruct (String.eqb d' ""); [done|]. injection Ee as <- _. apply take_digits_spec in Ed as [Hd' _].
    change (explode (String d (sg +:+ d'))) with (d :: explode (sg +:+ d')). cbn [forallb]. rewrite explode_app, forallb_app, (bare_digits _ Hd').
    assert (bare d = true) as -> by (apply orb_true_iff in Hd as [->%code_chr| ->%code_chr]; reflexivity).
    assert (forallb bare (explode sg) = true) as ->; [|done].
    destruct s as [|c' r]; [by injection Esg as <- _|]. destruct ((code c' =? 43)%N || (code c' =? 45)%N) eqn:Hc'; injection Esg as <- _; [|done].
    cbn [explode String.list_ascii_of_string forallb]. by apply orb_true_iff in Hc' as [->%code_chr| ->%code_chr].
Qed.

Definition compacts (j : json) : Prop := ∀ rest, canonical j = true → compact false false (marshal j +:+ rest) = marshal j +:+ compact false false rest.
Lemma compact_quoted s rest : compact false false (quoted s +:+ rest) = quoted s +:+ compact false false rest.
Proof.
  rewrite !quoted_text. rewrite <- compact_string. generalize (escape s +:+ quote +:+ rest) as t. intros t. cbn [compact]. change (is_ws (chr 34)) with false. cbn [negb andb].
  change (code (chr 34) =? 34)%N with true. change (code (chr 34) =? 60)%N with false. change (code (chr 34) =? 62)%N with false. change (code (chr 34) =? 38)%N with false.
  change (code (chr 34) =? 226)%N with false. change (code (chr 34) =? 92)%N with false. cbn [orb andb negb]. destruct t as [|c2 [|c3 t]]; done.
Qed.
(** Texts in a row. *)
Definition stable (t : string) : Prop := ∀ rest, compact false false (t +:+ rest) = t +:+ compact false false rest.
Lemma stable_app t u : stable t → stable u → stable (t +:+ u).
Proof. intros Ht Hu rest. by rewrite !append_assoc, Ht, Hu. Qed.
Lemma stable_bare t : forallb bare (explode t) = true → stable t.
Proof. intros H rest. by apply compact_bare_text. Qed.
Lemma stable_quoted s : stable (quoted s).
Proof. intros rest. apply compact_quoted. Qed.
Lemma stable_joinc l : Forall stable l → stable (joinc "," l).
Proof.
  induction 1 as [|x l Hx Hl IH]; [done|]. destruct l as [|y l]; [done|]. rewrite joinc_cons. apply stable_app; [done|]. apply stable_app; [by apply stable_bare|done].
Qed.
Lemma stable_marshal j : canonical j = true → stable (marshal j).
Proof.
  induction j as [|b|l|s|l IH|m IH] using json_ind'; intros Hc.
  - by apply stable_bare.
  - destruct b; by apply stable_bare.
  - apply stable_bare. by apply number_bare.
  - apply stable_quoted.
  - change (marshal (JArr l)) with ("[" +:+ joinc "," (List.map marshal l) +:+ "]"). apply stable_app; [by apply stable_bare|]. apply stable_app; [|by apply stable_bare].
    apply stable_joinc. cbn [canonical] in Hc. rewrite forallb_forall in Hc. pose proof (proj1 (List.Forall_forall _ _) IH) as IH'. apply List.Forall_forall. intros t Ht.
    apply in_map_iff in Ht as (x&<-&Hx). apply IH'; [done|by apply Hc].
  - change (marshal (JObj m)) with ("{" +:+ joinc "," (List.map member_text m) +:+ "}"). apply stable_app; [by apply stable_bare|]. apply stable_app; [|by apply stable_bare].
    apply stable_joinc. cbn [canonical] in Hc. apply andb_prop in Hc as [_ Hc]. rewrite forallb_forall in Hc. pose proof (proj1 (List.Forall_forall _ _) IH) as IH'. apply List.Forall_forall. intros t Ht.
    apply in_map_iff in Ht as (x&<-&Hx). unfold member_text. apply stable_app; [apply stable_quoted|]. apply stable_app; [by apply stable_bare|].
    apply IH'; [done|by apply Hc].
Qed.
Lemma compact_marshal j : canonical j = true → compact_raw (marshal j) = marshal j.
Proof. intros H. unfold compact_raw. rewrite <- (append_nil (marshal j)) at 1. rewrite stable_marshal by done. apply append_nil. Qed.
