(* ===== verification/PluginSchema.v ===== *)
(** [sdk/plugin/schema.go] and the metadata part of [sdk/plugin/sdk.go]: what a
    plugin says of itself, its validation and the canonical contract.  Plugin and
    host run the same code.

    Semantic versions are the class [Semver], the schema library the class
    [SdkSchemas].  Go iterates over the sets of capabilities in an unspecified
    order, which shows only in the choice of one error among several; the model
    takes the order of the names. *)

From Stdlib Require Import Ascii.
From Stdlib Require String.
From S2P Require Import Prelude.
From S2P Require Import Json.
From S2P Require Import GoStd.
From S2P Require Import Resource.
From S2P Require Import ActionContract.
From S2P Require Import PluginMapping.
From S2P Require Import PluginContract.
From S2P Require Import FlowCompiler.

Local Open Scope Z_scope.

(** ** Names *)

Definition name_char (c : ascii) : bool := is_lower c || is_digit c || Ascii.eqb c "-".
(** [[a-z][a-z0-9-]*] *)
Definition segment (s : string) : bool := match explode s with [] => false | c :: l => is_lower c && forallb name_char l end.
Definition pluginName (s : string) : bool := segment s && (String.length s <=? 63)%nat.
Definition capabilityName (s : string) : bool :=
  let parts := split_on "."%char s in (2 <=? length parts)%nat && forallb segment parts.

Definition ProtocolVersion : Z := 1.
Definition ActivationFenceCapability : string := "trigger.bootstrap.activation-fence".

(** [StrictNewVersion]: the error. *)
Class Semver := StrictNewVersion : string → option string.

(** A validation error of the library with its causes. *)
#[warnings="-register-all"]
Inductive ValidationError := mkValidationError { ve_location : list string; ve_causes : list ValidationError }.
Class SdkSchemas := {
  ss_schema : Type;
  ss_load : json → option string;
  ss_compile : json → string + ss_schema;
  ss_validate : ss_schema → json → option ValidationError }.

Record Metadata := mkMetadata {
  md_name : string; md_version : string; md_capabilities : list string; md_actions : list ActionDescriptor;
  md_triggers : list TriggerDescriptor; md_input : string; md_output : string }.
Record Issue := mkIssue { is_path : string; is_code : string; is_message : string }.

(** ** Schemas *)

Section Contract.
Context {semver : Semver} {schemas : SdkSchemas} {sha : Sha256}.

Definition draft2020Schema : string := "https://json-schema.org/draft/2020-12/schema".
Definition sdk_draft (object : list (string * json)) : option string :=
  match obj_get "$schema" object with
  | None => None
  | Some (JStr schema) => if String.eqb schema draft2020Schema then None else Some ("$schema must be " +:+ quoted draft2020Schema)
  | Some _ => Some ("$schema must be " +:+ quoted draft2020Schema)
  end.
Definition declaresObject (document : json) : bool :=
  match document with JObj object => (match obj_get "type" object with Some (JStr t) => String.eqb t "object" | _ => false end) | _ => false end.
(** The schema and its canonical text. *)
Definition compileSchema (label raw : string) (requireObject : bool) : string + (ss_schema * string) :=
  if String.eqb (trim_space raw) "" then inl (label +:+ " schema is required") else
  match decode_stream raw with
  | None => inl (label +:+ " schema must be valid JSON: " +:+ decode_error)
  | Some (document, rest) =>
      if negb (at_eof rest) then inl (label +:+ " schema must contain exactly one JSON value") else
      match reject_external sdk_draft document with
      | Some e => inl (label +:+ " schema: " +:+ e)
      | None =>
          if requireObject && negb (declaresObject document) then inl (label +:+ " schema must declare an object root") else
          match ss_load document with
          | Some e => inl ("load " +:+ label +:+ " schema: " +:+ e)
          | None =>
              match ss_compile document with
              | inl e => inl ("compile " +:+ label +:+ " schema: " +:+ e)
              | inr compiled => inr (compiled, marshal document)
              end
          end
      end
  end.

(** ** Descriptors *)

Record compiledActionContract := mkCompiled { ca_config : ss_schema; ca_input : ss_schema; ca_output : ss_schema }.
Abbreviation contracts := (gmap string compiledActionContract).

Definition compile_action (d : ActionDescriptor) : string + (ActionDescriptor * compiledActionContract) :=
  match compileSchema (ad_action d +:+ " config") (ad_config d) true with
  | inl e => inl e
  | inr (config, canonicalConfig) =>
      match compileSchema (ad_action d +:+ " input") (ad_input d) false with
      | inl e => inl e
      | inr (input, canonicalInput) =>
          match compileSchema (ad_action d +:+ " output") (ad_output d) false with
          | inl e => inl e
          | inr (output, canonicalOutput) =>
              inr (mkActionDescriptor (ad_action d) canonicalConfig canonicalInput canonicalOutput, mkCompiled config input output)
          end
      end
  end.
Definition agent_action (name : string) : string := name +:+ ".run".
Fixpoint compile_actions (name : string) (declared : gset string) (hasAgent : bool) (l : list ActionDescriptor) (seen : gset string)
    : string + (list ActionDescriptor * contracts * gset string) :=
  match l with
  | [] => inr ([], ∅, seen)
  | d :: l =>
      if negb (capabilityName (ad_action d)) || negb (has_prefix (ad_action d) (name +:+ "."))
      then inl ("invalid action descriptor " +:+ quoted (ad_action d))
      else if bool_decide (ad_action d ∈ seen) then inl ("duplicate action descriptor " +:+ quoted (ad_action d))
      else if negb (bool_decide (ad_action d ∈ declared)) && negb (hasAgent && String.eqb (ad_action d) (agent_action name))
      then inl ("action descriptor " +:+ quoted (ad_action d) +:+ " has no matching capability")
      else match compile_action d with
           | inl e => inl e
           | inr (d, compiled) =>
               match compile_actions name declared hasAgent l ({[ad_action d]} ∪ seen) with
               | inl e => inl e
               | inr (l, contracts, seen) => inr (d :: l, <[ad_action d := compiled]> contracts, seen)
               end
           end
  end.
(** The first name of the set that was not seen. *)
Definition missing (declared seen : gset string) : option string := head (sort_strings (elements (declared ∖ seen))).
Definition validateActionDescriptors (metadata : Metadata) (declared : gset string) (hasAgent : bool)
    : string + (list ActionDescriptor * contracts) :=
  match compile_actions (md_name metadata) declared hasAgent (md_actions metadata) ∅ with
  | inl e => inl e
  | inr (descriptors, contracts, seen) =>
      match missing declared seen with
      | Some action => inl ("task action " +:+ quoted action +:+ " is missing an action descriptor")
      | None =>
          if hasAgent && negb (bool_decide (agent_action (md_name metadata) ∈ seen))
          then inl ("agent runtime is missing action descriptor " +:+ quoted (agent_action (md_name metadata)))
          else inr (sort_by (onc ad_action str_cmp) descriptors, contracts)
      end
  end.

Definition trigger_capability (capability : string) : bool :=
  has_prefix capability "trigger." && negb (String.eqb capability ActivationFenceCapability).
Definition declared_sources (capabilities : list string) : gset string :=
  list_to_set ((λ c, trim_prefix c "trigger.") <$> filter (λ c, trigger_capability c = true) capabilities).
Fixpoint compile_triggers (name : string) (declared : gset string) (l : list TriggerDescriptor) (seen : gset string)
    : string + (list TriggerDescriptor * gset string) :=
  match l with
  | [] => inr ([], seen)
  | d :: l =>
      if negb (capabilityName (td_source d)) || negb (has_prefix (td_source d) (name +:+ "."))
      then inl ("invalid trigger descriptor " +:+ quoted (td_source d))
      else if bool_decide (td_source d ∈ seen) then inl ("duplicate trigger descriptor " +:+ quoted (td_source d))
      else if negb (bool_decide (td_source d ∈ declared)) then inl ("trigger descriptor " +:+ quoted (td_source d) +:+ " has no matching capability")
      else match compileSchema (td_source d +:+ " trigger config") (td_config d) true with
           | inl e => inl e
           | inr (_, config) =>
               match compileSchema (td_source d +:+ " trigger event") (td_event d) false with
               | inl e => inl e
               | inr (_, event) =>
                   match compile_triggers name declared l ({[td_source d]} ∪ seen) with
                   | inl e => inl e
                   | inr (l, seen) => inr (mkTriggerDescriptor (td_source d) config event :: l, seen)
                   end
               end
           end
  end.
Definition validateTriggerDescriptors (metadata : Metadata) (hasTrigger : bool) : string + list TriggerDescriptor :=
  let declared := declared_sources (md_capabilities metadata) in
  match compile_triggers (md_name metadata) declared (md_triggers metadata) ∅ with
  | inl e => inl e
  | inr (descriptors, seen) =>
      match (if hasTrigger then missing declared seen else None) with
      | Some source => inl ("trigger source " +:+ quoted source +:+ " is missing a trigger descriptor")
      | None => inr (sort_by (onc td_source str_cmp) descriptors)
      end
  end.

(** ** Metadata *)

Fixpoint check_capabilities (name : string) (l : list string) (seen actions : gset string) : string + gset string :=
  match l with
  | [] => inr actions
  | capability :: l =>
      let namespace := default "" (head (split_on "."%char capability)) in
      let task := has_prefix capability "task." in
      if negb (capabilityName capability) then inl ("invalid plugin capability " +:+ quoted capability)
      else if bool_decide (capability ∈ seen) then inl ("duplicate plugin capability " +:+ quoted capability)
      else if negb (String.eqb namespace "task" || String.eqb namespace "trigger" || String.eqb namespace "agent")
      then inl ("unsupported plugin capability namespace " +:+ quoted namespace)
      else if task && negb (has_prefix capability ("task." +:+ name +:+ "."))
      then inl ("task capability " +:+ quoted capability +:+ " must be rooted at plugin name " +:+ quoted name)
      else check_capabilities name l ({[capability]} ∪ seen) (if task then {[trim_prefix capability "task."]} ∪ actions else actions)
  end.
(** A retained protocol-v1 schema. *)
Definition legacy_schema (label schema : string) : option string :=
  if negb (String.eqb schema "") && negb (valid schema) then Some (label +:+ " schema must be valid JSON") else None.
Definition validateMetadata (metadata : Metadata) (hasTask hasTrigger hasAgent : bool) : string + (Metadata * gset string * contracts) :=
  if negb (pluginName (md_name metadata)) then inl ("invalid plugin name " +:+ quoted (md_name metadata)) else
  match StrictNewVersion (md_version metadata) with
  | Some e => inl ("plugin version must be semantic: " +:+ e)
  | None =>
      if (length (md_capabilities metadata) =? 0)%nat then inl "plugin capabilities must not be empty" else
      match check_capabilities (md_name metadata) (md_capabilities metadata) ∅ ∅ with
      | inl e => inl e
      | inr actions =>
          if hasTask && bool_decide (actions = ∅) then inl "task handler requires at least one task.<action> capability" else
          match first_error [legacy_schema "input" (md_input metadata); legacy_schema "output" (md_output metadata)] with
          | Some e => inl e
          | None =>
              match validateActionDescriptors metadata actions hasAgent with
              | inl e => inl e
              | inr (descriptors, contracts) =>
                  match validateTriggerDescriptors metadata hasTrigger with
                  | inl e => inl e
                  | inr triggers =>
                      inr (mkMetadata (md_name metadata) (md_version metadata) (sort_strings (md_capabilities metadata)) descriptors triggers
                             (md_input metadata) (md_output metadata), actions, contracts)
                  end
              end
          end
      end
  end.

(** ** The contract a host keeps *)

(** [DescribeResponse]; a descriptor can be missing. *)
Record DescribeResponse := mkDescribe {
  dr_name : string; dr_version : string; dr_protocol : option ProtocolRange; dr_capabilities : list string;
  dr_actions : list (option ActionDescriptor); dr_triggers : list (option TriggerDescriptor) }.

Definition action_text (d : ActionDescriptor) : string :=
  "{" +:+ joinc "," [quoted "action" +:+ ":" +:+ quoted (ad_action d); quoted "configSchema" +:+ ":" +:+ compact_raw (ad_config d);
    quoted "inputSchema" +:+ ":" +:+ compact_raw (ad_input d); quoted "outputSchema" +:+ ":" +:+ compact_raw (ad_output d)] +:+ "}".
Definition trigger_text (d : TriggerDescriptor) : string :=
  "{" +:+ joinc "," [quoted "source" +:+ ":" +:+ quoted (td_source d); quoted "configSchema" +:+ ":" +:+ compact_raw (td_config d);
    quoted "eventSchema" +:+ ":" +:+ compact_raw (td_event d)] +:+ "}".
Definition array_text {A} (f : A → string) (l : list A) : string := "[" +:+ joinc "," (f <$> l) +:+ "]".
(** [json.Marshal]: no actions are a nil slice, no triggers are left out. *)
Definition contract_text (c : Contract) : string :=
  let actions := match ct_actions c with [] => "null" | l => array_text action_text l end in
  let triggers := match ct_triggers c with [] => [] | l => [quoted "triggers" +:+ ":" +:+ array_text trigger_text l] end in
  "{" +:+ joinc "," ((quoted "actions" +:+ ":" +:+ actions) :: triggers) +:+ "}".

Definition bad_protocol (p : option ProtocolRange) : bool :=
  match p with None => true | Some p => (pt_minimum p =? 0) || (pt_maximum p <? pt_minimum p) end.
Definition ValidateDescription (description : option DescribeResponse) : string + (Contract * string) :=
  match description with
  | None => inl "plugin description has an invalid protocol range"
  | Some d =>
      if bad_protocol (dr_protocol d) then inl "plugin description has an invalid protocol range" else
      match mapM id (dr_actions d) with
      | None => inl "plugin description contains an empty action descriptor"
      | Some actions =>
          match mapM id (dr_triggers d) with
          | None => inl "plugin description contains an empty trigger descriptor"
          | Some triggers =>
              let has f := existsb f (dr_capabilities d) in
              match validateMetadata (mkMetadata (dr_name d) (dr_version d) (dr_capabilities d) actions triggers "" "")
                      (has (λ c, has_prefix c "task.")) (has trigger_capability) (has (λ c, has_prefix c "agent.")) with
              | inl e => inl e
              | inr (validated, _, _) =>
                  let contract := mkPluginContract (md_actions validated) (md_triggers validated) in
                  inr (contract, sha256_hex (contract_text contract))
              end
          end
      end
  end.

(** ** Values *)

(** The longest location, the smallest text among equally long ones. *)
Fixpoint deepestInstanceLocation (e : ValidationError) : list string :=
  fold_left (λ best candidate,
    if (length best <? length candidate)%nat || ((length candidate =? length best)%nat && str_lt (join "." candidate) (join "." best))
    then candidate else best) (List.map deepestInstanceLocation (ve_causes e)) (ve_location e).
Definition schemaIssue (e : ValidationError) (root : string) : Issue :=
  let location := deepestInstanceLocation e in
  mkIssue (match location with [] => root | _ => root +:+ "." +:+ join "." location end) "schema_invalid"
    (root +:+ " does not satisfy its declared action schema").
(** The decoder reads the first value. *)
Definition validateRaw (schema : ss_schema) (raw root : string) : option Issue :=
  match decode_stream raw with
  | None => Some (mkIssue root "schema_invalid" (root +:+ " is not valid JSON"))
  | Some (value, _) => (λ e, schemaIssue e root) <$> ss_validate schema value
  end.
Definition validateConfig (c : compiledActionContract) (raw : string) : option Issue := validateRaw (ca_config c) raw "config".
Definition validateInput (c : compiledActionContract) (raw : string) : option Issue := validateRaw (ca_input c) raw "input".
End Contract.

(** * The contract of a plugin: what validation guarantees, and the text in the
       store decodes into the contract that was validated. *)

From S2P Require Import JsonPlain.
From S2P Require Import JsonRound.
From S2P Require Import JsonCanonical.

(** ** Raw members of an encoded value *)

Lemma substring_app t s : String.substring 0 (String.length t) (t +:+ s) = t.
Proof. induction t as [|c t IH]; [by destruct s|]. cbn [String.length]. change (String c t +:+ s) with (String c (t +:+ s)). cbn [String.substring]. by rewrite IH. Qed.
Lemma before_app t s : before (t +:+ s) s = t.
Proof. unfold before. rewrite append_length. replace (String.length t + String.length s - String.length s)%nat with (String.length t) by lia. apply substring_app. Qed.

(** A text that is read as one value, wherever it stands. *)
Definition one_value (t : string) : Prop := (∃ c s, t = String c s ∧ value_start c = true) ∧
  ∀ rest, stops_number rest = true → ∃ v, parse_value (nesting (t +:+ rest)) (t +:+ rest) = Some (v, rest).
Lemma marshal_one j : sound j = true → one_value (marshal j).
Proof.
  intros H. split; [by apply marshal_head|]. intros rest Hr. exists (norm j). apply reads_back_all; [done| |done].
  unfold nesting. rewrite append_length. lia.
Qed.
Lemma raw_items_back l : l ≠ [] → Forall one_value l → ∀ fuel rest, (length l < fuel)%nat →
  raw_items fuel (joinc "," l +:+ String "]" rest) = Some (l, rest).
Proof.
  induction l as [|t l IH]; [done|]. intros _ Hl fuel rest Hf. inversion Hl as [|? ? [(c&s&Et&Hc) Ht] Hl']; subst.
  destruct fuel as [|fuel]; [cbn in Hf; lia|]. cbn [raw_items]. destruct l as [|u l].
  - cbn [joinc]. destruct (Ht (String "]" rest) eq_refl) as [v Hv].
    change (String c s +:+ String "]" rest) with (String c (s +:+ String "]" rest)) in *. rewrite value_start_ws by done.
    rewrite Hv. cbn [mbind option_bind]. rewrite skip_ws_stop by done. change (String c (s +:+ String "]" rest)) with (String c s +:+ String "]" rest). by rewrite before_app.
  - rewrite joinc_cons, append_assoc. change (("," +:+ joinc "," (u :: l)) +:+ String "]" rest) with (String "," (joinc "," (u :: l) +:+ String "]" rest)).
    destruct (Ht (String "," (joinc "," (u :: l) +:+ String "]" rest)) eq_refl) as [v Hv]. set (tail := String "," (joinc "," (u :: l) +:+ String "]" rest)) in *.
    change (String c s +:+ tail) with (String c (s +:+ tail)) in *. rewrite value_start_ws by done.
    rewrite Hv. cbn [mbind option_bind]. unfold tail at 1. rewrite skip_ws_stop by done. change (String c (s +:+ tail)) with (String c s +:+ tail). rewrite before_app.
    change (Ascii.eqb "," ",") with true. cbv iota. rewrite IH; [done|done|done|cbn [length] in *; lia].
Qed.

(** A member: its key and the text of its value. *)
Definition raw_text (kv : string * string) : string := quoted kv.1 +:+ ":" +:+ kv.2.
Lemma raw_members_back m : m ≠ [] → Forall (λ kv, one_value kv.2) m → ∀ fuel rest, (length m < fuel)%nat →
  raw_members fuel (joinc "," (raw_text <$> m) +:+ String "}" rest) = Some (m, rest).
Proof.
  induction m as [|[k t] m IH]; [done|]. intros _ Hm fuel rest Hf. inversion Hm as [|? ? [(c&s&Et&Hc) Ht] Hm']; subst. cbn [snd] in *. subst t.
  destruct fuel as [|fuel]; [cbn in Hf; lia|].
  assert (Hstep : ∀ tail, stops_number tail = true → raw_members (S fuel) (raw_text (k, String c s) +:+ tail) =
    match skip_ws tail with
    | String d r4 => if Ascii.eqb d "," then '(l, r5) ← raw_members fuel r4; Some ((k, String c s) :: l, r5)
                     else if Ascii.eqb d "}" then Some ([(k, String c s)], r4) else None
    | EmptyString => None
    end).
  { intros tail Htail. unfold raw_text. cbn [fst snd]. rewrite append_assoc, quoted_text. cbn [raw_members]. rewrite skip_ws_stop by done.
    change (negb (Ascii.eqb (chr 34) (chr 34))) with false. cbv iota. rewrite parse_str_escape. cbn [mbind option_bind]. rewrite append_assoc.
    change (":" +:+ (String c s +:+ tail)) with (String ":" (String c (s +:+ tail))). rewrite skip_ws_stop by done. change (negb (Ascii.eqb ":" ":")) with false. cbv iota.
    rewrite value_start_ws by done. destruct (Ht tail Htail) as [v Hv]. change (String c s +:+ tail) with (String c (s +:+ tail)) in Hv. rewrite Hv. cbn [mbind option_bind].
    change (String c (s +:+ tail)) with (String c s +:+ tail). by rewrite before_app. }
  destruct m as [|kv m].
  - change (raw_text <$> [(k, String c s)]) with [raw_text (k, String c s)]. cbn [joinc]. rewrite Hstep by done. by rewrite skip_ws_stop.
  - change (raw_text <$> (k, String c s) :: kv :: m) with (raw_text (k, String c s) :: raw_text kv :: (raw_text <$> m)). rewrite joinc_cons, append_assoc.
    change (("," +:+ ?x) +:+ String "}" rest) with (String "," (x +:+ String "}" rest)). rewrite Hstep by done. rewrite skip_ws_stop by done.
    change (Ascii.eqb "," ",") with true. cbv iota. change (raw_text kv :: (raw_text <$> m)) with (raw_text <$> kv :: m). rewrite IH; [done|done|done|cbn [length] in *; lia].
Qed.

Lemma joinc_length l : Forall (λ t, t ≠ "") l → (length l <= String.length (joinc "," l) + 1)%nat.
Proof.
  induction 1 as [|t l Ht Hl IH]; [cbn; lia|]. destruct l as [|u l]; [destruct t; [done|cbn; lia]|]. rewrite joinc_cons, !append_length.
  cbn [length] in *. change (String.length ",") with 1%nat. lia.
Qed.
Definition object_text (m : list (string * string)) : string := "{" +:+ joinc "," (raw_text <$> m) +:+ "}".
Lemma object_members_back m : Forall (λ kv, one_value kv.2) m → object_members (object_text m) = Some (Some m).
Proof.
  intros Hm. unfold object_text. destruct m as [|[k t] m]; [done|]. unfold object_members.
  change ("{" +:+ ?x) with (String "{" x). rewrite skip_ws_stop by done. change (Ascii.eqb "{" "{") with true. cbv iota.
  set (text := joinc "," (raw_text <$> (k, t) :: m) +:+ "}").
  assert (∃ s, text = String (chr 34) s) as [s Es].
  { unfold text. change (raw_text <$> (k, t) :: m) with (raw_text (k, t) :: (raw_text <$> m)). destruct (raw_text <$> m); [cbn [joinc]|rewrite joinc_cons, append_assoc];
      unfold raw_text; cbn [fst]; rewrite append_assoc, quoted_text; eauto. }
  rewrite Es at 1. rewrite skip_ws_stop by done. change (Ascii.eqb (chr 34) "}") with false. cbv iota. unfold text at 2.
  rewrite raw_members_back; [done|done|done|]. unfold nesting, text. rewrite append_length.
  pose proof (joinc_length (raw_text <$> (k, t) :: m)) as Hl. rewrite length_fmap in Hl. cbn [length String.length] in *.
  assert (S (length m) <= String.length (joinc "," (raw_text <$> (k, t) :: m)) + 1)%nat; [|lia]. apply Hl. apply Forall_fmap. apply Forall_true. intros [k' t']. done.
Qed.
Lemma array_items_back l : Forall one_value l → array_items ("[" +:+ joinc "," l +:+ "]") = Some l.
Proof.
  intros Hl. destruct l as [|t l]; [done|]. unfold array_items. change ("[" +:+ ?x) with (String "[" x). rewrite skip_ws_stop by done.
  change (Ascii.eqb "[" "[") with true. cbv iota. inversion Hl as [|? ? [(c&s&Et&Hc) Ht] Hl']; subst.
  set (text := joinc "," (String c s :: l) +:+ "]").
  assert (∃ r, text = String c r) as [r Er].
  { unfold text. destruct l; [cbn [joinc]|rewrite joinc_cons, append_assoc]; by eexists. }
  rewrite Er at 1. rewrite value_start_ws by done. unfold value_start in Hc. rewrite !andb_true_iff, !negb_true_iff in Hc. destruct Hc as [[_ Hc] _].
  assert (Ascii.eqb c "]" = false) as -> by (destruct (Ascii.eqb_spec c "]") as [->|]; [by vm_compute in Hc|done]). unfold text at 2.
  rewrite raw_items_back; [done|done|done|]. unfold nesting, text. rewrite append_length.
  pose proof (joinc_length (String c s :: l)) as Hlen. assert (S (length l) <= String.length (joinc "," (String c s :: l)) + 1)%nat; [|cbn [length String.length]; lia].
  apply Hlen. eapply Forall_impl; [exact Hl|]. cbn. intros t ((c'&s'&->&_)&_). done.
Qed.

(** ** The contract text *)

(** Schemas as [compileSchema] writes them. *)
Definition canonical_text (t : string) : Prop := ∃ j, canonical j = true ∧ t = marshal j.
Lemma canonical_text_compact t : canonical_text t → compact_raw t = t.
Proof. intros (j&Hj&->). by apply compact_marshal. Qed.
Lemma canonical_text_value t : canonical_text t → ∃ j, sound j = true ∧ t = marshal j.
Proof. intros (j&Hj&->). exists j. split; [by apply canonical_sound|done]. Qed.

Definition action_members (d : ActionDescriptor) : list (string * string) :=
  [("action", quoted (ad_action d)); ("configSchema", ad_config d); ("inputSchema", ad_input d); ("outputSchema", ad_output d)].
Definition trigger_members (d : TriggerDescriptor) : list (string * string) :=
  [("source", quoted (td_source d)); ("configSchema", td_config d); ("eventSchema", td_event d)].
Definition canonical_action (d : ActionDescriptor) : Prop := canonical_text (ad_config d) ∧ canonical_text (ad_input d) ∧ canonical_text (ad_output d).
Definition canonical_trigger (d : TriggerDescriptor) : Prop := canonical_text (td_config d) ∧ canonical_text (td_event d).

Lemma action_text_members d : canonical_action d → action_text d = object_text (action_members d).
Proof. intros (H1&H2&H3). unfold action_text. by rewrite !canonical_text_compact. Qed.
Lemma trigger_text_members d : canonical_trigger d → trigger_text d = object_text (trigger_members d).
Proof. intros (H1&H2). unfold trigger_text. by rewrite !canonical_text_compact. Qed.
Lemma object_json l : Forall (λ kv, ∃ j, sound j = true ∧ kv.2 = marshal j) l → ∃ j, sound j = true ∧ object_text l = marshal j.
Proof.
  intros H. assert (∃ m, forallb (λ kv, sound kv.2) m = true ∧ l = (λ kv, (kv.1, marshal kv.2)) <$> m) as (m&Hm&->).
  { induction H as [|[k t] l (j&Hj&E) _ (m&Hm&->)]; [by exists []|]. cbn in E. subst t. exists ((k, j) :: m). split; [cbn; by rewrite Hj|done]. }
  exists (JObj m). split; [done|]. unfold object_text. change (marshal (JObj m)) with ("{" +:+ joinc "," (List.map member_text m) +:+ "}"). do 3 f_equal.
  clear. induction m as [|kv m IH]; [done|]. rewrite !fmap_cons. cbn [List.map]. by rewrite IH.
Qed.
Lemma values_one (l : list (string * string)) : Forall (λ kv, ∃ j, sound j = true ∧ kv.2 = marshal j) l → Forall (λ kv, one_value kv.2) l.
Proof. intros H. eapply Forall_impl; [exact H|]. cbn. intros kv (j&Hj&->). by apply marshal_one. Qed.
Lemma action_values d : canonical_action d → Forall (λ kv, ∃ j, sound j = true ∧ kv.2 = marshal j) (action_members d).
Proof. intros (H1&H2&H3). repeat constructor; cbn; [by exists (JStr (ad_action d))|by apply canonical_text_value..]. Qed.
Lemma trigger_values d : canonical_trigger d → Forall (λ kv, ∃ j, sound j = true ∧ kv.2 = marshal j) (trigger_members d).
Proof. intros (H1&H2). repeat constructor; cbn; [by exists (JStr (td_source d))|by apply canonical_text_value..]. Qed.

Lemma raw_string_quoted old s : raw_string old (quoted s) = Some s.
Proof. unfold raw_string. change (quoted s) with (marshal (JStr s)). by rewrite parse_marshal. Qed.
Lemma decode_action d : canonical_action d → decode_struct action_field (mkActionDescriptor "" "" "" "") (action_text d) = Some d.
Proof.
  intros H. rewrite action_text_members by done. unfold decode_struct. rewrite object_members_back by by apply values_one, action_values.
  unfold action_members. cbn [mbind option_bind raw_struct fst snd].
  change (fold_name "action") with "action". change (fold_name "configSchema") with "configschema". change (fold_name "inputSchema") with "inputschema".
  change (fold_name "outputSchema") with "outputschema". unfold action_field. cbn [String.eqb Ascii.eqb Bool.eqb]. rewrite raw_string_quoted. by destruct d.
Qed.
Lemma decode_trigger d : canonical_trigger d → decode_struct trigger_field (mkTriggerDescriptor "" "" "") (trigger_text d) = Some d.
Proof.
  intros H. rewrite trigger_text_members by done. unfold decode_struct. rewrite object_members_back by by apply values_one, trigger_values.
  unfold trigger_members. cbn [mbind option_bind raw_struct fst snd].
  change (fold_name "source") with "source". change (fold_name "configSchema") with "configschema". change (fold_name "eventSchema") with "eventschema".
  unfold trigger_field. cbn [String.eqb Ascii.eqb Bool.eqb]. rewrite raw_string_quoted. by destruct d.
Qed.
Lemma array_one {A} (f : A → string) l : Forall (λ x, ∃ j, sound j = true ∧ f x = marshal j) l → ∃ j, sound j = true ∧ array_text f l = marshal j.
Proof.
  intros H. assert (∃ js, forallb sound js = true ∧ f <$> l = List.map marshal js) as (js&Hs&E).
  { induction H as [|x l (j&Hj&E) _ (js&Hs&IH)]; [by exists []|]. exists (j :: js). split; [cbn; by rewrite Hj|]. rewrite fmap_cons, E, IH. done. }
  exists (JArr js). split; [done|]. unfold array_text. rewrite E. done.
Qed.
Lemma array_values {A} (f : A → string) l : Forall (λ x, ∃ j, sound j = true ∧ f x = marshal j) l → array_items (array_text f l) = Some (f <$> l).
Proof. intros H. unfold array_text. apply array_items_back. apply Forall_fmap. eapply Forall_impl; [exact H|]. cbn. intros x (j&Hj&->). by apply marshal_one. Qed.
Lemma decode_list {A} (decode : string → option A) (f : A → string) l : Forall (λ x, ∃ j, sound j = true ∧ f x = marshal j) l →
  Forall (λ x, decode (f x) = Some x) l → raw_list decode (array_text f l) = Some l.
Proof.
  intros Hj Hd. unfold raw_list. rewrite array_values by done. cbn [mbind option_bind]. clear Hj. induction Hd as [|x l Hx Hd IH]; [done|].
  rewrite fmap_cons. cbn [mapM]. by rewrite Hx, IH.
Qed.

Definition canonical_contract (c : Contract) : Prop := Forall canonical_action (ct_actions c) ∧ Forall canonical_trigger (ct_triggers c).
Lemma action_json d : canonical_action d → ∃ j, sound j = true ∧ action_text d = marshal j.
Proof. intros H. rewrite action_text_members by done. by apply object_json, action_values. Qed.
Lemma trigger_json d : canonical_trigger d → ∃ j, sound j = true ∧ trigger_text d = marshal j.
Proof. intros H. rewrite trigger_text_members by done. by apply object_json, trigger_values. Qed.

Definition contract_members (c : Contract) : list (string * string) :=
  ("actions", match ct_actions c with [] => "null" | l => array_text action_text l end)
  :: match ct_triggers c with [] => [] | l => [("triggers", array_text trigger_text l)] end.
Lemma contract_text_members c : contract_text c = object_text (contract_members c).
Proof. unfold contract_text, contract_members, object_text. by destruct (ct_triggers c). Qed.
Lemma contract_values c : canonical_contract c → Forall (λ kv, ∃ j, sound j = true ∧ kv.2 = marshal j) (contract_members c).
Proof.
  intros [Ha Ht]. unfold contract_members. constructor; cbn [snd].
  - destruct (ct_actions c) as [|d l]; [by exists JNull|]. apply array_one. eapply Forall_impl; [exact Ha|]. apply action_json.
  - destruct (ct_triggers c) as [|d l]; [constructor|]. constructor; [|constructor]. apply array_one. eapply Forall_impl; [exact Ht|]. apply trigger_json.
Qed.
Lemma decode_stream_object m : sound (JObj m) = true → is_Some (decode_stream (marshal (JObj m))).
Proof.
  intros H. unfold decode_stream. pose proof (reads_back_all (JObj m) (2 * String.length (marshal (JObj m)) + 2)%nat "" H) as E.
  rewrite append_nil in E. rewrite E by (try done; lia). cbn [mbind option_bind norm]. unfold mkobj. by eexists.
Qed.

(** The text decodes into the contract. *)
Lemma decode_contract_text c : canonical_contract c → DecodeContract (contract_text c) = Some c.
Proof.
  intros Hc. pose proof (contract_values c Hc) as Hv. unfold DecodeContract. rewrite contract_text_members.
  assert (is_Some (decode_stream (object_text (contract_members c)))) as [x ->].
  { assert (∃ m, sound (JObj m) = true ∧ object_text (contract_members c) = marshal (JObj m)) as (m&Hm&->); [|by apply decode_stream_object].
    destruct (object_json _ Hv) as (j&Hj&E). destruct j as [|[]|l|s|l|m]; try (exfalso; unfold object_text in E; cbn [marshal quoted] in E; discriminate E); [|by exists m].
    exfalso. cbn [sound] in Hj. destruct (number_head l Hj) as (c0&s0&->&Hs). unfold object_text in E. cbn [marshal] in E. injection E as <- _. by vm_compute in Hs. }
  cbn [mbind option_bind]. unfold decode_struct. rewrite object_members_back by by apply values_one. cbn [mbind option_bind]. destruct Hc as [Ha Ht].
  assert (Hact : contract_field (mkPluginContract [] []) "actions" (match ct_actions c with [] => "null" | l => array_text action_text l end) = Some (mkPluginContract (ct_actions c) [])).
  { unfold contract_field. change (String.eqb "actions" "actions") with true. cbv iota. destruct (ct_actions c) as [|d l]; [done|].
    rewrite (decode_list (decode_struct action_field (mkActionDescriptor "" "" "" "")) action_text); [done| |].
    - eapply Forall_impl; [exact Ha|]. apply action_json.
    - eapply Forall_impl; [exact Ha|]. apply decode_action. }
  unfold contract_members. cbn [raw_struct fst snd]. change (fold_name "actions") with "actions". rewrite Hact. cbn [mbind option_bind].
  destruct c as [actions triggers]. cbn [ct_actions ct_triggers] in *. destruct triggers as [|d l]; [done|]. cbn [raw_struct fst snd]. change (fold_name "triggers") with "triggers".
  unfold contract_field. change (String.eqb "triggers" "actions") with false. change (String.eqb "triggers" "triggers") with true. cbv iota.
  rewrite (decode_list (decode_struct trigger_field (mkTriggerDescriptor "" "" "")) trigger_text); [done| |].
  - eapply Forall_impl; [exact Ht|]. apply trigger_json.
  - eapply Forall_impl; [exact Ht|]. apply decode_trigger.
Qed.

(** ** Validation *)

Section Validation.
Context {semver : Semver} {schemas : SdkSchemas} {sha : Sha256}.

(** A schema text and what the library compiles from it. *)
Definition compiles (object : bool) (text : string) (schema : ss_schema) : Prop := ∃ document,
  canonical document = true ∧ text = marshal document ∧ reject_external sdk_draft document = None ∧
  (object = true → declaresObject document = true) ∧ ss_compile document = inr schema.
Lemma compileSchema_compiles label raw object schema text : compileSchema label raw object = inr (schema, text) → compiles object text schema.
Proof.
  unfold compileSchema. destruct (String.eqb _ ""); [done|]. destruct (decode_stream raw) as [[document rest]|] eqn:Ed; [|done].
  destruct (negb (at_eof rest)); [done|]. destruct (reject_external sdk_draft document) eqn:Er; [done|].
  destruct (object && negb (declaresObject document)) eqn:Eo; [done|]. destruct (ss_load document); [done|].
  destruct (ss_compile document) as [e|c] eqn:Ec; [done|]. intros [= <- <-]. exists document. split_and!; [|done|done| |done].
  - unfold decode_stream in Ed. destruct (parse_value _ raw) as [[v r]|] eqn:Ev; [|done]. apply parse_value_canonical in Ev. cbn [mbind option_bind] in Ed.
    destruct v, r; repeat match type of Ed with context [if ?x then _ else _] => destruct x end; first [discriminate Ed|injection Ed as <- _; exact Ev].
  - intros ->. by destruct (declaresObject document).
Qed.
Lemma compiles_canonical object text schema : compiles object text schema → canonical_text text.
Proof. intros (document&H&->&_). by exists document. Qed.

Definition compiled_action (d : ActionDescriptor) (c : compiledActionContract) : Prop :=
  compiles true (ad_config d) (ca_config c) ∧ compiles false (ad_input d) (ca_input c) ∧ compiles false (ad_output d) (ca_output c).
Lemma compile_action_ok d d' c : compile_action d = inr (d', c) → ad_action d' = ad_action d ∧ compiled_action d' c.
Proof.
  unfold compile_action. destruct (compileSchema _ (ad_config d) true) as [e|[config t1]] eqn:E1; [done|].
  destruct (compileSchema _ (ad_input d) false) as [e|[input t2]] eqn:E2; [done|].
  destruct (compileSchema _ (ad_output d) false) as [e|[output t3]] eqn:E3; [done|]. intros [= <- <-].
  split; [done|]. split_and!; by eapply compileSchema_compiles.
Qed.
Lemma compiled_canonical d c : compiled_action d c → canonical_action d.
Proof. intros (H1&H2&H3). split_and!; by eapply compiles_canonical. Qed.

(** What a validated action descriptor is. *)
Definition valid_action (name : string) (declared : gset string) (hasAgent : bool) (d : ActionDescriptor) : Prop :=
  capabilityName (ad_action d) = true ∧ has_prefix (ad_action d) (name +:+ ".") = true ∧
  (ad_action d ∈ declared ∨ hasAgent = true ∧ ad_action d = agent_action name).
Lemma compile_actions_ok name declared hasAgent l seen l' cs seen' : compile_actions name declared hasAgent l seen = inr (l', cs, seen') →
  NoDup (ad_action <$> l') ∧ (∀ d, d ∈ l' → (ad_action d ∉ seen) ∧ valid_action name declared hasAgent d ∧ ∃ c, cs !! ad_action d = Some c ∧ compiled_action d c) ∧
  seen' = list_to_set (ad_action <$> l') ∪ seen.
Proof.
  revert seen l' cs seen'. induction l as [|d l IH]; intros seen l' cs seen'; cbn [compile_actions].
  { intros [= <- <- <-]. split_and!; [constructor|by intros d ?%elem_of_nil|set_solver]. }
  destruct (negb (capabilityName _) || _) eqn:E1; [done|]. apply orb_false_iff in E1 as [E1%negb_false_iff E2%negb_false_iff].
  destruct (bool_decide (ad_action d ∈ seen)) eqn:E3; [done|]. apply bool_decide_eq_false in E3.
  destruct (negb _ && negb _) eqn:E4; [done|]. destruct (compile_action d) as [e|[d' c]] eqn:E5; [done|]. apply compile_action_ok in E5 as [En Hc].
  destruct (compile_actions _ _ _ l _) as [e|[[l2 cs2] seen2]] eqn:E6; [done|]. intros [= <- <- <-]. destruct (IH _ _ _ _ E6) as (Hn&Hd&->).
  assert (Hnew : ad_action d' ∉ (ad_action <$> l2)).
  { intros (x&Ex&Hx)%list_elem_of_fmap. destruct (Hd x Hx) as (Hs&_). rewrite <- Ex in Hs. set_solver. }
  split_and!.
  - by constructor.
  - intros x [->|Hx]%elem_of_cons.
    + split_and!; [by rewrite En| |exists c; split; [apply lookup_insert_eq|done]]. split_and!; [by rewrite En|by rewrite En|].
      rewrite En. apply andb_false_iff in E4 as [E4%negb_false_iff%bool_decide_eq_true|E4%negb_false_iff]; [by left|right].
      by apply andb_prop in E4 as [-> ->%String.eqb_eq].
    + destruct (Hd x Hx) as (Hs&Hv&c2&Hc2&Hx2). split_and!; [set_solver|done|]. exists c2. split; [|done]. rewrite lookup_insert_ne; [done|].
      intros Heq. apply Hnew. rewrite Heq. apply list_elem_of_fmap. eauto.
  - rewrite fmap_cons, list_to_set_cons. set_solver.
Qed.

Definition valid_trigger (name : string) (declared : gset string) (d : TriggerDescriptor) : Prop :=
  capabilityName (td_source d) = true ∧ has_prefix (td_source d) (name +:+ ".") = true ∧ td_source d ∈ declared.
Lemma compile_triggers_ok name declared l seen l' seen' : compile_triggers name declared l seen = inr (l', seen') →
  NoDup (td_source <$> l') ∧ (∀ d, d ∈ l' → (td_source d ∉ seen) ∧ valid_trigger name declared d ∧ canonical_trigger d) ∧
  seen' = list_to_set (td_source <$> l') ∪ seen.
Proof.
  revert seen l' seen'. induction l as [|d l IH]; intros seen l' seen'; cbn [compile_triggers].
  { intros [= <- <-]. split_and!; [constructor|by intros d ?%elem_of_nil|set_solver]. }
  destruct (negb (capabilityName _) || _) eqn:E1; [done|]. apply orb_false_iff in E1 as [E1%negb_false_iff E2%negb_false_iff].
  destruct (bool_decide (td_source d ∈ seen)) eqn:E3; [done|]. apply bool_decide_eq_false in E3.
  destruct (negb _) eqn:E4; [done|]. apply negb_false_iff, bool_decide_eq_true in E4.
  destruct (compileSchema _ (td_config d) true) as [e|[c1 config]] eqn:E5; [done|]. destruct (compileSchema _ (td_event d) false) as [e|[c2 event]] eqn:E6; [done|].
  apply compileSchema_compiles, compiles_canonical in E5, E6.
  destruct (compile_triggers _ _ l _) as [e|[l2 seen2]] eqn:E7; [done|]. intros [= <- <-]. destruct (IH _ _ _ E7) as (Hn&Hd&->).
  split_and!.
  - constructor; [|done]. cbn. intros (x&Ex&Hx)%list_elem_of_fmap. destruct (Hd x Hx) as (Hs&_). rewrite <- Ex in Hs. set_solver.
  - intros x [->|Hx]%elem_of_cons; [done|]. destruct (Hd x Hx) as (Hs&Hv&Hc). split_and!; [set_solver|done|done].
  - rewrite fmap_cons, list_to_set_cons. cbn. set_solver.
Qed.
Lemma missing_none declared seen : missing declared seen = None → declared ⊆ seen.
Proof.
  unfold missing, sort_strings. intros H x Hx. destruct (decide (x ∈ seen)) as [|Hn]; [done|].
  assert (Hin : x ∈ sort_by str_cmp (elements (declared ∖ seen))) by (rewrite elem_of_sort_by by apply _; set_solver).
  destruct (sort_by _ _); [by apply elem_of_nil in Hin|done].
Qed.

Definition task_capability (capability : string) : Prop := has_prefix capability "task." = true.
Lemma check_capabilities_ok name l seen actions actions' : check_capabilities name l seen actions = inr actions' →
  ∀ a, a ∈ actions' ↔ a ∈ actions ∨ ∃ c, c ∈ l ∧ task_capability c ∧ a = trim_prefix c "task.".
Proof.
  revert seen actions. induction l as [|capability l IH]; intros seen actions; cbn [check_capabilities].
  { intros [= <-] a. split; [by left|]. intros [?|(c&?%elem_of_nil&_)]; done. }
  destruct (negb (capabilityName _)); [done|]. destruct (bool_decide _); [done|]. destruct (negb _); [done|]. destruct (_ && _); [done|].
  intros H a. rewrite (IH _ _ H a). unfold task_capability. destruct (has_prefix capability "task.") eqn:E; split.
  - intros [Ha|(c&Hc&Ht&->)]; [|right; exists c; split; [by right|done]]. apply elem_of_union in Ha as [->%elem_of_singleton|Ha]; [|by left].
    right. exists capability. split; [left|done].
  - intros [Ha|(c&[->|Hc]%elem_of_cons&Ht&->)]; [left; set_solver|left; set_solver|right; eauto].
  - intros [Ha|(c&Hc&Ht&->)]; [by left|right; exists c; split; [by right|done]].
  - intros [Ha|(c&[->|Hc]%elem_of_cons&Ht&->)]; [by left|congruence|right; eauto].
Qed.

(** Validated metadata. *)
Record validated (metadata md : Metadata) (hasAgent : bool) (actions : gset string) (contracts : gmap string compiledActionContract) : Prop := {
  vm_name : md_name md = md_name metadata;
  vm_actions : ∀ a, a ∈ actions ↔ ∃ c, c ∈ md_capabilities metadata ∧ task_capability c ∧ a = trim_prefix c "task.";
  vm_distinct : NoDup (ad_action <$> md_actions md) ∧ NoDup (td_source <$> md_triggers md);
  vm_sorted : StronglySorted (cmp_le (onc ad_action str_cmp)) (md_actions md);
  vm_valid : ∀ d, d ∈ md_actions md → valid_action (md_name md) actions hasAgent d ∧ ∃ c, contracts !! ad_action d = Some c ∧ compiled_action d c;
  vm_complete : ∀ a, a ∈ actions → ∃ d, d ∈ md_actions md ∧ ad_action d = a;
  vm_triggers : Forall canonical_trigger (md_triggers md) }.
Lemma validateMetadata_ok metadata hasTask hasTrigger hasAgent md actions contracts :
  validateMetadata metadata hasTask hasTrigger hasAgent = inr (md, actions, contracts) → validated metadata md hasAgent actions contracts.
Proof.
  unfold validateMetadata. destruct (negb (pluginName _)); [done|]. destruct (StrictNewVersion _); [done|]. destruct (_ =? 0)%nat; [done|].
  destruct (check_capabilities _ _ ∅ ∅) as [e|declared] eqn:Ec; [done|]. destruct (hasTask && _); [done|]. destruct (first_error _); [done|].
  unfold validateActionDescriptors. destruct (compile_actions _ declared hasAgent _ ∅) as [e|[[l cs] seen]] eqn:Ea; [done|].
  destruct (missing declared seen) eqn:Em; [done|]. destruct (hasAgent && _); [done|].
  unfold validateTriggerDescriptors. destruct (compile_triggers _ _ _ ∅) as [e|[lt seent]] eqn:Et; [done|].
  destruct (if hasTrigger then _ else _); [done|]. intros [= <- <- <-]. apply compile_actions_ok in Ea as (Hn&Hd&->). apply compile_triggers_ok in Et as (Hnt&Hdt&_).
  apply missing_none in Em. split; cbn [md_name md_actions md_triggers].
  - done.
  - intros a. rewrite (check_capabilities_ok _ _ _ _ _ Ec a). set_solver.
  - by rewrite !sort_by_perm.
  - apply sort_by_sorted, _.
  - intros d Hin. rewrite elem_of_sort_by in Hin by apply _. destruct (Hd d Hin) as (_&Hv&Hc). done.
  - intros a Ha. apply Em in Ha. rewrite union_empty_r_L, elem_of_list_to_set in Ha. apply list_elem_of_fmap in Ha as (d&->&Hin). exists d.
    split; [|done]. by rewrite elem_of_sort_by by apply _.
  - apply Forall_forall. intros d Hin. rewrite elem_of_sort_by in Hin by apply _. by destruct (Hdt d Hin) as (_&_&?).
Qed.

Lemma validated_contract description contract digest : ValidateDescription (Some description) = inr (contract, digest) →
  ∃ hasAgent md actions contracts, contract = mkPluginContract (md_actions md) (md_triggers md) ∧ digest = sha256_hex (contract_text contract) ∧
    validated (mkMetadata (dr_name description) (dr_version description) (dr_capabilities description)
      (default [] (mapM id (dr_actions description))) (default [] (mapM id (dr_triggers description))) "" "") md hasAgent actions contracts.
Proof.
  unfold ValidateDescription. destruct (bad_protocol _); [done|]. destruct (mapM id (dr_actions description)) as [la|]; [|done].
  destruct (mapM id (dr_triggers description)) as [lt|]; [|done]. destruct (validateMetadata _ _ _ _) as [e|[[md actions] contracts]] eqn:E; [done|].
  intros [= <- <-]. eexists _, md, actions, contracts. split_and!; [done|done|]. by eapply validateMetadata_ok.
Qed.
Lemma validated_canonical metadata md hasAgent actions contracts : validated metadata md hasAgent actions contracts →
  canonical_contract (mkPluginContract (md_actions md) (md_triggers md)).
Proof.
  intros H. split; [|by eapply vm_triggers]. apply Forall_forall. intros d Hd. destruct (vm_valid _ _ _ _ _ H d Hd) as (_&c&_&Hc). by eapply compiled_canonical.
Qed.
(** The descriptor of a declared action is found. *)
Lemma descriptor_found metadata md hasAgent actions contracts a : validated metadata md hasAgent actions contracts → a ∈ actions →
  ∃ d c, actionDescriptor (mkPluginContract (md_actions md) (md_triggers md)) a = Some d ∧ ad_action d = a ∧ contracts !! a = Some c ∧ compiled_action d c.
Proof.
  intros H Ha. destruct (vm_complete _ _ _ _ _ H a Ha) as (d&Hd&Ed). unfold actionDescriptor. cbn [ct_actions].
  destruct (List.find (λ d, String.eqb (ad_action d) a) (md_actions md)) as [d'|] eqn:Ef.
  - apply List.find_some in Ef as [Hin%list_elem_of_In Heq%String.eqb_eq]. destruct (vm_valid _ _ _ _ _ H d' Hin) as (_&c&Hc&Hx).
    exists d', c. subst a. rewrite <- Heq in *. done.
  - exfalso. apply list_elem_of_In in Hd. pose proof (List.find_none _ _ Ef d Hd) as Hno. cbn in Hno. rewrite Ed, String.eqb_refl in Hno. done.
Qed.
End Validation.
