(* ===== verification/PluginBundle.v ===== *)
(** [internal/pluginbundle/bundle.go]: the archive a plugin is installed from.

    The readers of the archive (gzip, tar), YAML, semantic versions and SHA-256 are
    classes: an opened archive is the list of its entries, and the error that ends
    it.  The plugin directory is the digest file of every version directory.
    Names and paths are ASCII. *)

From Stdlib Require Import Ascii.
From Stdlib Require String.
From S2P Require Import Prelude.
From S2P Require Import Json.
From S2P Require Import GoStd.
From S2P Require Import Resource.
From S2P Require Import PluginMapping.
From S2P Require Import Db.
From S2P Require Import StoreRuns.
From S2P Require Import StorePlugins.
From S2P Require Import PluginContract.
From S2P Require Import FlowCompiler.
From S2P Require Import PluginSchema.

Local Open Scope Z_scope.

Definition APIVersion : string := "orchigram.dev/plugin/v1alpha1".
Definition maxBundle : Z := Z.shiftl 128 20.
Definition maxFile : Z := Z.shiftl 96 20.

Inductive EntryType := Directory | Regular | Special.
(** [en_data]: what reading the entry gives, or the error. *)
Record Entry := mkEntry { en_name : string; en_type : EntryType; en_size : Z; en_data : string + string }.
Class Archives := {
  ar_read : string → string + (list Entry * option string);
  ar_write : list (string * string) → string + string;
  yaml_decode : string → string + Manifest;
  yaml_encode : Manifest → string + string }.

(** The digest file of every version directory; [None] cannot be read. *)
Abbreviation Directories := (gmap (string * string) (option string)).

(** ** Names *)

(** [[a-z0-9][a-z0-9_-]{0,31}] *)
Definition target_char (c : ascii) : bool := is_lower c || is_digit c || Ascii.eqb c "_" || Ascii.eqb c "-".
Definition targetName (s : string) : bool :=
  match explode s with [] => false | c :: l => (is_lower c || is_digit c) && forallb target_char l && (length l <=? 31)%nat end.
Definition cleanArchivePath (value : string) : string + string :=
  let cleaned := path_clean (implode (List.map (λ c, if Ascii.eqb c "\" then "/"%char else c) (explode value))) in
  if String.eqb cleaned "." || String.eqb cleaned "" || has_prefix cleaned "/" || String.eqb cleaned ".." || has_prefix cleaned "../"
  then inl ("unsafe bundle path " +:+ quoted value) else inr cleaned.
Definition EqualFold (a b : string) : bool := String.eqb (implode (lower <$> explode a)) (implode (lower <$> explode b)).

(** ** Manifests *)

Section Bundle.
Context {semver : Semver} {sha : Sha256} {archives : Archives}.

Fixpoint check_manifest_capabilities (name : string) (l : list string) (seen : gset string) : option string :=
  match l with
  | [] => None
  | capability :: l =>
      let namespace := default "" (head (split_on "."%char capability)) in
      if negb (capabilityName capability) || bool_decide (capability ∈ seen)
      then Some ("invalid or duplicate plugin capability " +:+ quoted capability)
      else if negb (String.eqb namespace "task" || String.eqb namespace "trigger" || String.eqb namespace "agent")
      then Some ("unsupported plugin capability namespace " +:+ quoted namespace)
      else if String.eqb namespace "task" && negb (has_prefix capability ("task." +:+ name +:+ "."))
      then Some ("task capability " +:+ quoted capability +:+ " must be rooted at plugin name " +:+ quoted name)
      else check_manifest_capabilities name l ({[capability]} ∪ seen)
  end.
Definition platform_key (p : Platform) : string := pf_os p +:+ "/" +:+ pf_arch p.
Fixpoint check_platforms (l : list Platform) (seen seenPaths : gset string) : option string :=
  match l with
  | [] => None
  | p :: l =>
      if negb (targetName (pf_os p)) || negb (targetName (pf_arch p)) then Some ("invalid plugin platform " +:+ quoted (platform_key p))
      else if bool_decide (platform_key p ∈ seen) then Some ("duplicate plugin platform " +:+ platform_key p)
      else match cleanArchivePath (pf_path p) with
           | inl e => Some e
           | inr cleaned =>
               if negb (String.eqb cleaned (pf_path p)) then Some ("platform " +:+ platform_key p +:+ " path must be normalized")
               else if bool_decide (pf_path p ∈ seenPaths) then Some ("duplicate platform target " +:+ quoted (pf_path p))
               else if negb (StoreRuns.sha256_hex (pf_sha256 p)) then Some ("platform " +:+ platform_key p +:+ " has invalid sha256")
               else check_platforms l ({[platform_key p]} ∪ seen) ({[pf_path p]} ∪ seenPaths)
           end
  end.
(** [Manifest.Validate]. *)
Definition Validate (m : Manifest) : option string :=
  if negb (String.eqb (mf_apiVersion m) APIVersion) then Some ("unsupported plugin apiVersion " +:+ quoted (mf_apiVersion m))
  else if negb (pluginName (mf_name m)) then Some ("invalid plugin name " +:+ quoted (mf_name m))
  else match StrictNewVersion (mf_version m) with
  | Some e => Some ("plugin version must be semantic: " +:+ e)
  | None =>
      if bad_protocol (Some (mf_protocol m)) then Some "plugin protocol range is invalid"
      else if (length (mf_capabilities m) =? 0)%nat then Some "plugin capabilities must not be empty"
      else if (length (mf_platforms m) =? 0)%nat then Some "plugin platforms must not be empty"
      else match check_manifest_capabilities (mf_name m) (mf_capabilities m) ∅ with
           | Some e => Some e
           | None => check_platforms (mf_platforms m) ∅ ∅
           end
  end.

(** ** Reading *)

Fixpoint read_entries (l : list Entry) (broken : option string) (files : gmap string string) : string + gmap string string :=
  match l with
  | [] => match broken with Some e => inl ("read plugin bundle: " +:+ e) | None => inr files end
  | e :: l =>
      match en_type e with
      | Directory => read_entries l broken files
      | Special => inl ("bundle entry " +:+ quoted (en_name e) +:+ " is not a regular file")
      | Regular =>
          match cleanArchivePath (en_name e) with
          | inl error => inl error
          | inr name =>
              if (en_size e <? 0) || (maxFile <? en_size e) then inl ("bundle entry " +:+ quoted name +:+ " exceeds size limit")
              else if bool_decide (is_Some (files !! name)) then inl ("duplicate bundle entry " +:+ quoted name)
              else match en_data e with
                   | inl error => inl ("read bundle entry " +:+ quoted name +:+ ": " +:+ error)
                   | inr data =>
                       if negb (Z.of_nat (String.length data) =? en_size e) then inl ("read bundle entry " +:+ quoted name +:+ ": %!w(<nil>)")
                       else read_entries l broken (<[name := data]> files)
                   end
          end
      end
  end.
(** The manifest, the binary and the digest of the bundle. *)
Definition ParseForPlatform (bundle targetOS targetArch : string) : string + (Manifest * string * string) :=
  let size := Z.of_nat (String.length bundle) in
  if (size =? 0) || (maxBundle <? size) then inl "plugin bundle must be between 1 byte and 128 MiB" else
  match ar_read bundle with
  | inl e => inl ("open plugin bundle: " +:+ e)
  | inr (entries, broken) =>
      match read_entries entries broken ∅ with
      | inl e => inl e
      | inr files =>
          match files !! "plugin.yaml" with
          | None => inl "plugin.yaml is required"
          | Some data =>
              match yaml_decode data with
              | inl e => inl ("decode plugin.yaml: " +:+ e)
              | inr manifest =>
                  match Validate manifest with
                  | Some e => inl e
                  | None =>
                      match platform_for manifest targetOS targetArch with
                      | inl e => inl e
                      | inr platform =>
                          match files !! pf_path platform with
                          | None => inl ("platform binary " +:+ quoted (pf_path platform) +:+ " is missing")
                          | Some binary =>
                              if negb (EqualFold (pf_sha256 platform) (sha256_hex binary))
                              then inl ("platform binary " +:+ quoted (pf_path platform) +:+ " digest mismatch")
                              else inr (manifest, binary, sha256_hex bundle)
                          end
                      end
                  end
              end
          end
      end
  end.

(** ** Writing *)

Definition platform_order : Platform → Platform → comparison :=
  lexc (onc pf_os str_cmp) (lexc (onc pf_arch str_cmp) (onc pf_path str_cmp)).
Definition normalizeManifest (m : Manifest) : Manifest :=
  mkManifest (mf_apiVersion m) (mf_name m) (mf_version m) (mf_protocol m) (sort_strings (mf_capabilities m)) (sort_by platform_order (mf_platforms m)).
Fixpoint add_binaries (platforms : list Platform) (binaries files : gmap string string) : string + gmap string string :=
  match platforms with
  | [] => inr files
  | p :: platforms =>
      match binaries !! pf_path p with
      | None => inl ("binary " +:+ quoted (pf_path p) +:+ " is missing")
      | Some binary =>
          if negb (EqualFold (pf_sha256 p) (sha256_hex binary)) then inl ("binary " +:+ quoted (pf_path p) +:+ " digest mismatch")
          else add_binaries platforms binaries (<[pf_path p := binary]> files)
      end
  end.
Definition sorted_files (files : gmap string string) : list (string * string) := sort_by (onc fst str_cmp) (map_to_list files).
Definition Build (manifest : Manifest) (binaries : gmap string string) : string + string :=
  let manifest := normalizeManifest manifest in
  match Validate manifest with
  | Some e => inl e
  | None =>
      match yaml_encode manifest with
      | inl e => inl e
      | inr data =>
          match add_binaries (mf_platforms manifest) binaries {["plugin.yaml" := data]} with
          | inl e => inl e
          | inr files =>
              match ar_write (sorted_files files) with
              | inl e => inl e
              | inr bundle => if maxBundle <? Z.of_nat (String.length bundle) then inl "plugin bundle exceeds 128 MiB" else inr bundle
              end
          end
      end
  end.

(** ** The version directory *)

(** Whether it was published now. *)
Definition Publish (m : Manifest) (digest : string) (d : Directories) : (string + bool) * Directories :=
  match d !! (mf_name m, mf_version m) with
  | Some existing =>
      (match existing with
       | Some text => if String.eqb (trim_space text) digest then inr false
                      else inl ("plugin " +:+ mf_name m +:+ " version " +:+ mf_version m +:+ " is already installed with a different digest")
       | None => inl ("plugin " +:+ mf_name m +:+ " version " +:+ mf_version m +:+ " is already installed with a different digest")
       end, d)
  | None => (inr true, <[(mf_name m, mf_version m) := Some (digest +:+ String (chr 10) "")]> d)
  end.
End Bundle.

(** * Plugin archives: what was built is read back, for every platform. *)

(** An entry as the writer makes it. *)
Definition file_entry (nd : string * string) : Entry := mkEntry nd.1 Regular (Z.of_nat (String.length nd.2)) (inr nd.2).
(** The libraries read what they wrote; an archive is not empty. *)
Class ArchiveLaws {archives : Archives} := {
  archive_back files bundle : ar_write files = inr bundle → ar_read bundle = inr (file_entry <$> files, None) ∧ bundle ≠ "";
  yaml_back m data : yaml_encode m = inr data → yaml_decode data = inr m }.

Section Facts.
Context {semver : Semver} {sha : Sha256} {archives : Archives} {laws : ArchiveLaws}.

(** ** Platforms *)

(** A validated platform list. *)
Definition valid_platform (p : Platform) : Prop :=
  targetName (pf_os p) = true ∧ targetName (pf_arch p) = true ∧ cleanArchivePath (pf_path p) = inr (pf_path p).
Lemma check_platforms_ok l seen seenPaths : check_platforms l seen seenPaths = None →
  Forall valid_platform l ∧ NoDup (platform_key <$> l) ∧ NoDup (pf_path <$> l) ∧
  Forall (λ p, (platform_key p ∉ seen) ∧ (pf_path p ∉ seenPaths)) l.
Proof.
  revert seen seenPaths. induction l as [|p l IH]; intros seen seenPaths; cbn [check_platforms].
  { intros _. repeat split; constructor. }
  destruct (negb _ || negb _) eqn:E1; [done|]. apply orb_false_iff in E1 as [E1%negb_false_iff E1'%negb_false_iff].
  destruct (bool_decide (platform_key p ∈ seen)) eqn:E2; [done|]. apply bool_decide_eq_false in E2.
  destruct (cleanArchivePath (pf_path p)) as [e|cleaned] eqn:E3; [done|]. destruct (negb _) eqn:E4; [done|]. apply negb_false_iff, String.eqb_eq in E4 as ->.
  destruct (bool_decide (pf_path p ∈ seenPaths)) eqn:E5; [done|]. apply bool_decide_eq_false in E5. destruct (negb _); [done|].
  intros H. destruct (IH _ _ H) as (H1&H2&H3&H4). rewrite Forall_forall in H4. rewrite !fmap_cons. split_and!.
  - constructor; [done|]. exact H1.
  - constructor; [|done]. intros (x&Ex&Hx)%list_elem_of_fmap. destruct (H4 x Hx) as [Hk _]. rewrite <- Ex in Hk. set_solver.
  - constructor; [|done]. intros (x&Ex&Hx)%list_elem_of_fmap. destruct (H4 x Hx) as [_ Hk]. rewrite <- Ex in Hk. set_solver.
  - constructor; [done|]. apply Forall_forall. intros x Hx. destruct (H4 x Hx). set_solver.
Qed.
(** The first platform for a target is the only one. *)
Lemma platform_found m p : NoDup (platform_key <$> mf_platforms m) → p ∈ mf_platforms m → platform_for m (pf_os p) (pf_arch p) = inr p.
Proof.
  intros Hn Hp. unfold platform_for. destruct (List.find _ _) as [q|] eqn:E.
  - apply List.find_some in E as [Hq%list_elem_of_In [H1%String.eqb_eq H2%String.eqb_eq]%andb_prop]. f_equal.
    assert (platform_key q = platform_key p) as Hk by (unfold platform_key; congruence).
    apply list_elem_of_lookup in Hq as [i Hi], Hp as [j Hj]. assert (i = j) as ->; [|congruence].
    apply (NoDup_lookup _ i j (platform_key q) Hn); rewrite list_lookup_fmap, ?Hi, ?Hj; cbn; congruence.
  - apply list_elem_of_In in Hp. pose proof (List.find_none _ _ E p Hp) as H. cbn in H. by rewrite !String.eqb_refl in H.
Qed.

(** ** Files *)

Lemma add_binaries_ok l binaries files files' : add_binaries l binaries files = inr files' → NoDup (pf_path <$> l) →
  (∀ p, p ∈ l → ∃ binary, binaries !! pf_path p = Some binary ∧ files' !! pf_path p = Some binary ∧ EqualFold (pf_sha256 p) (sha256_hex binary) = true) ∧
  (∀ k, k ∉ (pf_path <$> l) → files' !! k = files !! k) ∧
  (∀ k, is_Some (files' !! k) → k ∈ (pf_path <$> l) ∨ is_Some (files !! k)).
Proof.
  revert files. induction l as [|p l IH]; intros files; cbn [add_binaries].
  { intros [= <-] _. split_and!; [by intros p ?%elem_of_nil|done|by right]. }
  destruct (binaries !! pf_path p) as [binary|] eqn:Eb; [|done]. destruct (negb _) eqn:E; [done|]. apply negb_false_iff in E.
  rewrite !fmap_cons. intros H [Hp Hn]%NoDup_cons. destruct (IH _ H Hn) as (H1&H2&H3). split_and!.
  - intros q [->|Hq]%elem_of_cons; [|by apply H1]. exists binary. split_and!; [done| |done]. rewrite H2 by done. apply lookup_insert_eq.
  - intros k [Hk Hk']%not_elem_of_cons. rewrite H2 by done. by apply lookup_insert_ne.
  - intros k Hk. rewrite elem_of_cons. destruct (H3 k Hk) as [?|Hs]; [by left; right|]. destruct (decide (k = pf_path p)) as [->|Hne]; [by left; left|].
    rewrite lookup_insert_ne in Hs by done. by right.
Qed.

(** Reading the entries of a map of clean names gives the map. *)
Lemma read_entries_files l files : NoDup l.*1 → (∀ k d, (k, d) ∈ l → cleanArchivePath k = inr k ∧ Z.of_nat (String.length d) ≤ maxFile ∧ files !! k = None) →
  read_entries (file_entry <$> l) None files = inr (list_to_map l ∪ files).
Proof.
  revert files. induction l as [|[k d] l IH]; intros files Hn Hl; [by rewrite fmap_nil, list_to_map_nil, (left_id_L ∅ _)|].
  rewrite !fmap_cons. cbn [fmap list_fmap fst] in Hn. apply NoDup_cons in Hn as [Hk Hn]. cbn [read_entries file_entry en_type en_name en_size en_data fst snd].
  destruct (Hl k d (list_elem_of_here _ _)) as (->&Hs&Hf). assert ((Z.of_nat (String.length d) <? 0) || (maxFile <? Z.of_nat (String.length d)) = false) as ->.
  { apply orb_false_iff. rewrite !Z.ltb_ge. lia. }
  rewrite bool_decide_eq_false_2 by by rewrite Hf; intros [? ?]. rewrite Z.eqb_refl. cbn [negb].
  rewrite IH; [|done|].
  - f_equal. rewrite list_to_map_cons. apply map_eq. intros j. rewrite !lookup_union. destruct (decide (j = k)) as [->|Hne].
    + rewrite !lookup_insert_eq. rewrite (not_elem_of_list_to_map_1 l k) by done. by rewrite Hf.
    + by rewrite !lookup_insert_ne.
  - intros k' d' Hin. destruct (Hl k' d') as (H1&H2&H3); [by right|]. split_and!; [done|done|]. rewrite lookup_insert_ne; [done|].
    intros <-. apply Hk. apply list_elem_of_fmap. by exists (k, d').
Qed.
Lemma read_sorted files : (∀ k d, files !! k = Some d → cleanArchivePath k = inr k ∧ Z.of_nat (String.length d) ≤ maxFile) →
  read_entries (file_entry <$> sorted_files files) None ∅ = inr files.
Proof.
  intros H. unfold sorted_files.
  assert (Hp : sort_by (onc fst str_cmp) (map_to_list files) ≡ₚ map_to_list files) by apply sort_by_perm.
  rewrite read_entries_files.
  - f_equal. rewrite (right_id_L ∅ _). rewrite <- (list_to_map_to_list files) at 2. apply list_to_map_proper; [|done]. rewrite Hp. apply NoDup_fst_map_to_list.
  - rewrite Hp. apply NoDup_fst_map_to_list.
  - intros k d Hin. rewrite Hp in Hin. apply elem_of_map_to_list in Hin. destruct (H k d Hin). split_and!; [done|done|apply lookup_empty].
Qed.

(** ** The round trip *)

Definition manifest_name : string := "plugin.yaml".
Lemma manifest_name_clean : cleanArchivePath manifest_name = inr manifest_name.
Proof. vm_compute. reflexivity. Qed.

Lemma built_parses m binaries bundle : Build m binaries = inr bundle →
  manifest_name ∉ (pf_path <$> mf_platforms m) →
  (∀ data, yaml_encode (normalizeManifest m) = inr data → Z.of_nat (String.length data) ≤ maxFile) →
  (∀ k d, binaries !! k = Some d → Z.of_nat (String.length d) ≤ maxFile) →
  ∀ p, p ∈ mf_platforms m → ∃ binary, binaries !! pf_path p = Some binary ∧
    ParseForPlatform bundle (pf_os p) (pf_arch p) = inr (normalizeManifest m, binary, sha256_hex bundle).
Proof.
  unfold Build. set (n := normalizeManifest m). destruct (Validate n) as [e|] eqn:Ev; [done|]. destruct (yaml_encode n) as [e|data] eqn:Ey; [done|].
  destruct (add_binaries _ _ _) as [e|files] eqn:Ef; [done|]. destruct (ar_write _) as [e|b] eqn:Ew; [done|]. destruct (_ <? _) eqn:Es; [done|].
  intros [= ->] Hm Hd Hb p Hp.
  assert (Hperm : mf_platforms n ≡ₚ mf_platforms m) by apply sort_by_perm.
  assert (Hc : check_platforms (mf_platforms n) ∅ ∅ = None).
  { unfold Validate in Ev. repeat match type of Ev with (if ?x then _ else _) = None => destruct x; [discriminate Ev|] | match ?x with Some _ => _ | None => _ end = None => destruct x; [discriminate Ev|] end. exact Ev. }
  destruct (check_platforms_ok _ _ _ Hc) as (Hvalid&Hkeys&Hpaths&_). destruct (add_binaries_ok _ _ _ _ Ef Hpaths) as (H1&H2&H3).
  assert (Hp' : p ∈ mf_platforms n) by by rewrite Hperm. destruct (H1 p Hp') as (binary&Hbin&Hfile&Hsha). exists binary. split; [done|].
  assert (Hm' : manifest_name ∉ (pf_path <$> mf_platforms n)) by by rewrite Hperm.
  destruct (archive_back _ _ Ew) as [Hread Hne]. unfold ParseForPlatform. rewrite Hread, Es.
  assert ((Z.of_nat (String.length bundle) =? 0) = false) as -> by (apply Z.eqb_neq; destruct bundle; [done|cbn; lia]). cbn [orb].
  rewrite read_sorted.
  - change (files !! "plugin.yaml") with (files !! manifest_name). rewrite (H2 _ Hm'). change (({["plugin.yaml" := data]} : gmap string string) !! manifest_name) with (({[manifest_name := data]} : gmap string string) !! manifest_name).
    rewrite lookup_singleton_eq, (yaml_back _ _ Ey), Ev, platform_found by done. rewrite Hfile, Hsha. done.
  - intros k d Hk. destruct (H3 k) as [Hin|Hin]; [by rewrite Hk| |].
    + apply list_elem_of_fmap in Hin as (q&->&Hq). rewrite Forall_forall in Hvalid. destruct (Hvalid q Hq) as (_&_&Hcl). split; [done|].
      destruct (H1 q Hq) as (bq&Hbq&Hfq&_). apply (Hb (pf_path q)). congruence.
    + destruct (decide (k = manifest_name)) as [->|Hne']; [|by rewrite lookup_singleton_ne in Hin; destruct Hin].
      split; [apply manifest_name_clean|]. rewrite (H2 _ Hm') in Hk. apply lookup_singleton_Some in Hk as [_ <-]. by apply Hd.
Qed.
End Facts.
