(* ===== verification/PluginSdk.v ===== *)
(** [sdk/plugin/sdk.go]: the runtime of a plugin process.

    A handler is a tree: it returns, or it calls the sink and goes on with what the
    call answers ([Handler]).  Calls of the sink are serialized by its mutex, so a
    handler with several goroutines is the sequence in which they get it; what they
    send after the terminal event is refused by the closed sink.  [ExecuteEvent] is the
    event on the wire.  The clock, the errors of [stream.Send] and of
    [json.Marshal] are arguments.  Contexts are the set of requests that were cancelled.  Request
    names are ASCII. *)

From Stdlib Require Import Ascii.
From Stdlib Require String.
From S2P Require Import Prelude.
From S2P Require Import Json.
From S2P Require Import GoStd.
From S2P Require Import Resource.
From S2P Require Import Plan.
From S2P Require Import ActionContract.
From S2P Require Import PluginContract.
From S2P Require Import FlowCompiler.
From S2P Require Import Db.
From S2P Require Import StoreRuns.
From S2P Require Import EngineNode.
From S2P Require Import ManagerBind.
From S2P Require Import ManagerRun.
From S2P Require Import ManagerStream.
From S2P Require Import PluginSchema.

Local Open Scope Z_scope.

(** ** The event sink *)

(** [nil], a value, a value that [json.Marshal] refuses. *)
Inductive Payload := Nil | Value (v : json) | Unencodable (error : string).
Record eventSink := mkSink { es_sequence : Z; es_closed : bool; es_sent : list ExecuteEvent }.
Definition new_sink : eventSink := mkSink 0 false [].

(** [clock n] and [refused n]: the time of the [n]-th event and the error of its [Send]. *)
Record Wire := mkWire { clock : Z → string; refused : Z → option string }.

Definition ErrEventSinkClosed : string := "plugin event sink is closed".
Definition encode (payload : Payload) : string + string :=
  match payload with Nil => inr "{}" | Value v => inr (marshal v) | Unencodable e => inl ("encode plugin event payload: " +:+ e) end.
(** The error and the sink; the sequence number is used up by a refused event. *)
Definition send (wire : Wire) (eventType : string) (payload : Payload) (raw : string) (terminal : bool) (s : eventSink) : option string * eventSink :=
  if es_closed s then (Some ErrEventSinkClosed, s)
  else if String.eqb (trim_space eventType) "" then (Some "plugin event type is required", s)
  else if negb terminal && terminal_type eventType then (Some "terminal events are owned by the plugin SDK", s)
  else match encode payload with
       | inl e => (Some e, s)
       | inr data =>
           let sequence := u64 (es_sequence s + 1) in
           match refused wire sequence with
           | Some e => (Some e, mkSink sequence (es_closed s) (es_sent s))
           | None => (None, mkSink sequence terminal (es_sent s ++ [mkExecuteEvent sequence eventType (Some (clock wire sequence)) data raw]))
           end
       end.
Definition Emit (wire : Wire) (eventType : string) (payload : Payload) := send wire eventType payload "" false.
Definition Log (wire : Wire) (eventType raw : string) := send wire eventType Nil raw false.
Definition finish_sink (wire : Wire) (eventType : string) (payload : Payload) := send wire eventType payload "" true.

(** ** Handlers *)

Inductive Handler :=
  | Return (result : string + Payload)
  | Emits (eventType : string) (payload : Payload) (k : option string → Handler)
  | Logs (eventType raw : string) (k : option string → Handler).
Fixpoint run_handler (wire : Wire) (h : Handler) (s : eventSink) : (string + Payload) * eventSink :=
  match h with
  | Return result => (result, s)
  | Emits eventType payload k => let '(e, s) := Emit wire eventType payload s in run_handler wire (k e) s
  | Logs eventType raw k => let '(e, s) := Log wire eventType raw s in run_handler wire (k e) s
  end.

Record TaskRequest := mkTaskRequest {
  tq_action : string; tq_input : string; tq_config : string; tq_secrets : gmap string string;
  tq_meta : string * string * string * Z * string; tq_deadline : Z }.
Class TaskHandler := {
  th_validate : string → string → list Issue;
  th_execute : TaskRequest → Handler }.
(** [TaskHandlerFuncs]. *)
Definition TaskHandlerFuncs (validate : option (string → string → list Issue)) (run : option (TaskRequest → Handler)) : TaskHandler := {|
  th_validate := match validate with Some f => f | None => λ _ _, [] end;
  th_execute := match run with Some f => f | None => λ _, Return (inl "task execute function is not configured") end |}.

(** ** The runtime *)

Record callIdentity := mkCallIdentity {
  ci_request : string; ci_run : string; ci_node : string; ci_key : string; ci_attempt : Z }.
#[export] Instance callIdentity_eq : EqDecision callIdentity.
Proof. solve_decision. Defined.
Definition no_identity : callIdentity := mkCallIdentity "" "" "" "" 0.

Record CallMeta := mkCallMeta {
  cm_request : string; cm_run : string; cm_node : string; cm_attempt : Z; cm_key : string; cm_deadline : option Z }.

(** [rt_cancelled]: the cancelled contexts; [rt_waiting]: the WaitGroup. *)
Record Runtime := mkRuntime {
  rt_accepting : bool; rt_active : gmap string callIdentity; rt_cancelled : gset string; rt_waiting : Z; rt_nextStream : Z }.
Definition new_runtime : Runtime := mkRuntime true ∅ ∅ 0 0.

Record Status := mkStatus { sts_code : string; sts_message : string }.
Definition draining : Status := mkStatus "Unavailable" "plugin is draining".
Definition invalid_argument (message : string) : Status := mkStatus "InvalidArgument" message.

Definition register (identity : callIdentity) (r : Runtime) : option Status * Runtime :=
  if negb (rt_accepting r) then (Some draining, r)
  else if bool_decide (is_Some (rt_active r !! ci_request identity)) then (Some (mkStatus "AlreadyExists" "request is already active"), r)
  else (None, mkRuntime true (<[ci_request identity := identity]> (rt_active r)) (rt_cancelled r ∖ {[ci_request identity]})
                (rt_waiting r + 1) (rt_nextStream r)).
Definition unregister (request : string) (r : Runtime) : Runtime :=
  mkRuntime (rt_accepting r) (delete request (rt_active r)) (rt_cancelled r) (rt_waiting r - 1) (rt_nextStream r).
Definition stream_name (n : Z) : string := "trigger-watch-" +:+ itoa n.
Definition registerStream (r : Runtime) : (Status + string) * Runtime :=
  if negb (rt_accepting r) then (inl draining, r)
  else let n := u64 (rt_nextStream r + 1) in
       (inr (stream_name n), mkRuntime true (<[stream_name n := no_identity]> (rt_active r)) (rt_cancelled r ∖ {[stream_name n]}) (rt_waiting r + 1) n).
Definition canAccept (r : Runtime) : option Status := if rt_accepting r then None else Some draining.

(** The answer and its message. *)
Definition Health (r : Runtime) : bool * string := if rt_accepting r then (true, "ready") else (false, "draining").
(** The part before the wait for the handlers; the deadline is [None] when it is
    missing or invalid.  The wait ends at the deadline and changes nothing. *)
Definition Shutdown (deadline : option Z) (r : Runtime) : option Status * Runtime :=
  match deadline with
  | None => (Some (invalid_argument "valid shutdown deadline is required"), r)
  | Some _ => (None, mkRuntime false (rt_active r) (rt_cancelled r ∪ dom (rt_active r)) (rt_waiting r) (rt_nextStream r))
  end.

(** [now] is given when the deadline must be in the future. *)
Definition validateCallMeta (meta : option CallMeta) (now : option Z) : Status + callIdentity :=
  let blank s := String.eqb (trim_space s) "" in
  match meta with
  | None => inl (invalid_argument "complete call metadata is required")
  | Some m =>
      if blank (cm_request m) || blank (cm_run m) || blank (cm_node m) || (cm_attempt m =? 0) || blank (cm_key m)
      then inl (invalid_argument "complete call metadata is required")
      else match cm_deadline m with
           | None => inl (invalid_argument "a valid call deadline is required")
           | Some deadline =>
               if (match now with Some now => deadline <=? now | None => false end)
               then inl (invalid_argument "a valid call deadline is required")
               else inr (mkCallIdentity (cm_request m) (cm_run m) (cm_node m) (cm_key m) (cm_attempt m))
           end
  end.
(** Whether it was accepted and the outcome. *)
Definition Cancel (meta : option CallMeta) (r : Runtime) : (Status + (bool * string)) * Runtime :=
  match validateCallMeta meta None with
  | inl status => (inl status, r)
  | inr identity =>
      match rt_active r !! ci_request identity with
      | Some call =>
          if decide (call = identity)
          then (inr (true, "context-cancel"),
                mkRuntime (rt_accepting r) (rt_active r) ({[ci_request identity]} ∪ rt_cancelled r) (rt_waiting r) (rt_nextStream r))
          else (inr (false, "not-running"), r)
      | None => (inr (false, "not-running"), r)
      end
  end.

(** ** Task calls *)

Definition normalizedJSON (value : string) : string := if String.eqb value "" then "{}" else value.
Definition validationIssueMessage (i : Issue) : string := is_path i +:+ " (" +:+ is_code i +:+ "): " +:+ is_message i.

Section Calls.
Context {schemas : SdkSchemas} {handler : TaskHandler} (actions : gset string) (contracts : gmap string compiledActionContract).

(** A missing contract is the zero value, whose validation panics. *)
Definition contract_of (action : string) : option compiledActionContract := contracts !! action.

Definition invalid_issue (i : Issue) : bool := String.eqb (trim_space (is_code i)) "" || String.eqb (trim_space (is_message i)) "".
(** [None] panics. *)
Definition ValidateAction (action config : string) (r : Runtime) : option (Status + list Issue) :=
  match canAccept r with
  | Some status => Some (inl status)
  | None =>
      if negb (bool_decide (action ∈ actions)) then Some (inl (invalid_argument ("task action " +:+ quoted action +:+ " is not declared"))) else
      let config := normalizedJSON config in
      if negb (valid config) then Some (inl (invalid_argument "config_json must be valid JSON")) else
      contract ← contract_of action;
      match validateConfig contract config with
      | Some issue => Some (inr [issue])
      | None =>
          let issues := th_validate action config in
          Some (if existsb invalid_issue issues then inl (mkStatus "Internal" "task handler returned an invalid validation issue") else inr issues)
      end
  end.

(** [ExecuteRequest]: the metadata, the action and its data. *)
Record TaskCall := mkTaskCall {
  tc_meta : option CallMeta; tc_action : string; tc_input : string; tc_config : string; tc_secrets : gmap string string }.
(** The value and what [json.Marshal] makes of it; [nil] is [null]. *)
Definition validateOutputValue (c : compiledActionContract) (value : Payload) : option Issue :=
  match value with
  | Unencodable _ => Some (mkIssue "output" "schema_invalid" "output cannot be encoded as JSON")
  | _ =>
      let encoded := match value with Value v => marshal v | _ => "null" end in
      match decode_stream encoded with
      | None => Some (mkIssue "output" "schema_invalid" "output cannot be encoded as JSON")
      | Some (normalized, _) => (λ e, schemaIssue e "output") <$> ss_validate (ca_output c) normalized
      end
  end.
(** The handler and the terminal event. *)
Definition terminal_event (c : compiledActionContract) (result : string + Payload) : string * Payload :=
  match result with
  | inl error => ("task.failed", Value (mkobj [("error", JStr error)]))
  | inr value =>
      match validateOutputValue c value with
      | Some issue => ("task.failed", Value (mkobj [("error", JStr (validationIssueMessage issue))]))
      | None => ("task.completed", value)
      end
  end.
Definition run_task (wire : Wire) (c : compiledActionContract) (request : TaskRequest) : option string * eventSink :=
  let '(result, s) := run_handler wire (th_execute request) new_sink in
  let '(eventType, payload) := terminal_event c result in
  finish_sink wire eventType payload s.

(** The checks before the call is registered. *)
Definition admit_call (now : Z) (call : TaskCall) : option (Status + (callIdentity * compiledActionContract)) :=
  match validateCallMeta (tc_meta call) (Some now) with
  | inl status => Some (inl status)
  | inr identity =>
      if negb (bool_decide (tc_action call ∈ actions))
      then Some (inl (invalid_argument ("task action " +:+ quoted (tc_action call) +:+ " is not declared"))) else
      let input := normalizedJSON (tc_input call) in
      let config := normalizedJSON (tc_config call) in
      if negb (valid input) || negb (valid config)
      then Some (inl (invalid_argument "input_json and config_json must be valid JSON")) else
      contract ← contract_of (tc_action call);
      match validateConfig contract config with
      | Some issue => Some (inl (invalid_argument (validationIssueMessage issue)))
      | None =>
          match validateInput contract input with
          | Some issue => Some (inl (invalid_argument (validationIssueMessage issue)))
          | None => Some (inr (identity, contract))
          end
      end
  end.
Definition task_request (identity : callIdentity) (call : TaskCall) : TaskRequest :=
  mkTaskRequest (tc_action call) (normalizedJSON (tc_input call)) (normalizedJSON (tc_config call)) (tc_secrets call)
    (ci_request identity, ci_run identity, ci_node identity, ci_attempt identity, ci_key identity)
    (match tc_meta call with Some m => default 0 (cm_deadline m) | None => 0 end).
(** What the wire carries and how the call ends: [inl] a status of the runtime,
    [inr] what [finish] returns.  [others] is what the other calls do to the
    runtime while the handler runs. *)
Definition Execute (now : Z) (wire : Wire) (call : TaskCall) (others : Runtime → Runtime) (r : Runtime)
    : option ((Status + option string) * list ExecuteEvent * Runtime) :=
  admitted ← admit_call now call;
  Some match admitted with
  | inl status => (inl status, [], r)
  | inr (identity, contract) =>
      match register identity r with
      | (Some status, r) => (inl status, [], r)
      | (None, r) =>
          let '(e, s) := run_task wire contract (task_request identity call) in
          (inr e, es_sent s, unregister (ci_request identity) (others r))
      end
  end.
End Calls.

(** ** Construction and description *)

Section New.
Context {semver : Semver} {schemas : SdkSchemas}.

Definition unserved (hasTask hasTrigger hasAgent : bool) (capability : string) : option string :=
  if has_prefix capability "task." && negb hasTask then Some ("capability " +:+ quoted capability +:+ " requires a task handler")
  else if has_prefix capability "trigger." && negb hasTrigger then Some ("capability " +:+ quoted capability +:+ " requires a trigger server")
  else if has_prefix capability "agent." && negb hasAgent then Some ("capability " +:+ quoted capability +:+ " requires an agent server")
  else None.
Definition New (metadata : Metadata) (hasTask hasTrigger hasAgent : bool)
    : string + (Metadata * gset string * gmap string compiledActionContract * Runtime) :=
  match validateMetadata metadata hasTask hasTrigger hasAgent with
  | inl e => inl e
  | inr (metadata, actions, contracts) =>
      match first_error (unserved hasTask hasTrigger hasAgent <$> md_capabilities metadata) with
      | Some e => inl e
      | None => inr (metadata, actions, contracts, new_runtime)
      end
  end.
Definition Describe (metadata : Metadata) (host : option ProtocolRange) : Status + DescribeResponse :=
  match host with
  | None => inl (invalid_argument "valid host protocol range is required")
  | Some h =>
      if bad_protocol host then inl (invalid_argument "valid host protocol range is required")
      else if (pt_maximum h <? ProtocolVersion) || (ProtocolVersion <? pt_minimum h)
      then inl (mkStatus "FailedPrecondition" "plugin protocol ranges do not overlap")
      else inr (mkDescribe (md_name metadata) (md_version metadata) (Some (mkProtocolRange ProtocolVersion ProtocolVersion))
                  (md_capabilities metadata) (Some <$> md_actions metadata) (Some <$> md_triggers metadata))
  end.
End New.

(** ** Agent and trigger adapters *)

(** The call is registered around the author's server; [Cancel] delegates with the
    answer [delegate] and cancels the context. *)
Definition agent_Execute {A} (now : Z) (meta : option CallMeta) (serve : Runtime → A * Runtime) (r : Runtime) : (Status + A) * Runtime :=
  match validateCallMeta meta (Some now) with
  | inl status => (inl status, r)
  | inr identity =>
      match register identity r with
      | (Some status, r) => (inl status, r)
      | (None, r) => let '(a, r) := serve r in (inr a, unregister (ci_request identity) r)
      end
  end.
Definition agent_Cancel {A} (meta : option CallMeta) (delegate : A) (not_running : A) (r : Runtime) : (Status + A) * Runtime :=
  match validateCallMeta meta None with
  | inl status => (inl status, r)
  | inr identity =>
      if bool_decide (rt_active r !! ci_request identity = Some identity)
      then (inr delegate, mkRuntime (rt_accepting r) (rt_active r) ({[ci_request identity]} ∪ rt_cancelled r) (rt_waiting r) (rt_nextStream r))
      else (inr not_running, r)
  end.
Definition trigger_Watch {A} (serve : Runtime → A * Runtime) (r : Runtime) : (Status + A) * Runtime :=
  match registerStream r with
  | (inl status, r) => (inl status, r)
  | (inr request, r) => let '(a, r) := serve r in (inr a, unregister request r)
  end.
