(* ===== verification/PluginSdkFacts.v ===== *)
(** The runtime of a plugin process: what its event sink sends is what the host
    accepts, and the life of its calls. *)

From Stdlib Require Import Ascii.
From Stdlib Require String.
From S2P Require Import Prelude.
From S2P Require Import Json.
From S2P Require Import GoStd.
From S2P Require Import JsonPlain.
From S2P Require Import JsonRound.
From S2P Require Import Resource.
From S2P Require Import Plan.
From S2P Require Import ActionContract.
From S2P Require Import PluginContract.
From S2P Require Import ResourceJson.
From S2P Require Import FlowCompiler.
From S2P Require Import Db.
From S2P Require Import StoreRuns.
From S2P Require Import StoreResources.
From S2P Require Import EngineNode.
From S2P Require Import ManagerBind.
From S2P Require Import Redact.
From S2P Require Import ManagerRun.
From S2P Require Import ManagerStream.
From S2P Require Import ManagerFacts.
From S2P Require Import PluginSchema.
From S2P Require Import PluginSdk.

Local Open Scope Z_scope.

(** ** The sink *)

(** What [json.Marshal] accepts is a JSON value. *)
Definition encodes (p : Payload) : Prop := match p with Value v => canonical v = true | _ => True end.
Fixpoint encoding (h : Handler) : Prop :=
  match h with
  | Return result => match result with inr p => encodes p | inl _ => True end
  | Emits _ payload k => encodes payload ∧ ∀ e, encoding (k e)
  | Logs _ _ k => ∀ e, encoding (k e)
  end.
Definition reliable (wire : Wire) : Prop := ∀ n, refused wire n = None.

Lemma encode_valid p data : encodes p → encode p = inr data → valid data = true.
Proof.
  destruct p as [|v|e]; cbn [encode encodes]; [by intros _ [= <-]| |done]. intros Hc [= <-]. unfold valid. by rewrite parse_marshal.
Qed.

(** The events of an open sink: numbered from [n], none of them terminal. *)
Fixpoint progress (n : Z) (l : list ExecuteEvent) : Prop :=
  match l with
  | [] => True
  | e :: l => xe_sequence e = n ∧ trim_space (xe_type e) ≠ "" ∧ is_Some (xe_occurredAt e) ∧ valid (xe_payload e) = true ∧
      terminal_type (xe_type e) = false ∧ progress (n + 1) l
  end.
Lemma progress_snoc n l e : progress n (l ++ [e]) ↔ progress n l ∧ progress (n + Z.of_nat (length l)) [e].
Proof.
  revert n. induction l as [|x l IH]; intros n; cbn [app length].
  - cbn [progress]. rewrite Z.add_0_r. tauto.
  - change (progress n (x :: l ++ [e])) with (xe_sequence x = n ∧ trim_space (xe_type x) ≠ "" ∧ is_Some (xe_occurredAt x) ∧ valid (xe_payload x) = true ∧
      terminal_type (xe_type x) = false ∧ progress (n + 1) (l ++ [e])). rewrite IH.
    replace (n + 1 + Z.of_nat (length l)) with (n + Z.of_nat (S (length l))) by lia.
    change (progress n (x :: l)) with (xe_sequence x = n ∧ trim_space (xe_type x) ≠ "" ∧ is_Some (xe_occurredAt x) ∧ valid (xe_payload x) = true ∧
      terminal_type (xe_type x) = false ∧ progress (n + 1) l). tauto.
Qed.

(** An open sink that has counted what it sent. *)
Definition sink_open (s : eventSink) : Prop :=
  es_closed s = false ∧ es_sequence s = Z.of_nat (length (es_sent s)) ∧ progress 1 (es_sent s).
Definition roomy (s : eventSink) : Prop := Z.of_nat (length (es_sent s)) < 2 ^ 64 - 1.

Lemma new_sink_open : sink_open new_sink.
Proof. done. Qed.
Section Sink.
Context (wire : Wire).

Lemma send_progress eventType payload raw s e s' : reliable wire → encodes payload → sink_open s → roomy s →
  send wire eventType payload raw false s = (e, s') → sink_open s' ∧ ∃ l, es_sent s' = es_sent s ++ l.
Proof.
  intros Hw Hp (Hc&Hn&Hl) Hr. unfold send. rewrite Hc. cbn [negb andb].
  assert (Hstop : ∀ x : option string, (x, s) = (e, s') → sink_open s' ∧ ∃ l, es_sent s' = es_sent s ++ l).
  { intros x [= _ <-]. split; [done|]. exists []. by rewrite app_nil_r. }
  destruct (String.eqb (trim_space eventType) "") eqn:Et; [apply Hstop|]. apply String.eqb_neq in Et.
  destruct (terminal_type eventType) eqn:Ety; [apply Hstop|]. destruct (encode payload) as [x|data] eqn:Ee; [apply Hstop|]. clear Hstop.
  rewrite Hw. intros [= _ <-]. unfold roomy in Hr. rewrite Hn, u64_small by lia. split; [|by eexists]. split_and!; [done| |].
  - cbn [es_sequence es_sent]. rewrite length_app. cbn [length]. lia.
  - cbn [es_sent]. apply progress_snoc. split; [done|]. cbn [progress xe_sequence xe_type xe_occurredAt xe_payload].
    split_and!; [lia|done|by eexists|by eapply encode_valid|done|done].
Qed.

(** Nothing is sent through a closed sink: late events are refused. *)
Lemma closed_sink eventType payload raw terminal s : es_closed s = true → send wire eventType payload raw terminal s = (Some ErrEventSinkClosed, s).
Proof. unfold send. by intros ->. Qed.

(** The terminal event closes an open sink. *)
Lemma finish_progress eventType payload data s : reliable wire → sink_open s → roomy s → trim_space eventType ≠ "" → encode payload = inr data →
  let n := Z.of_nat (length (es_sent s)) + 1 in
  finish_sink wire eventType payload s = (None, mkSink n true (es_sent s ++ [mkExecuteEvent n eventType (Some (clock wire n)) data ""])).
Proof.
  intros Hw (Hc&Hn&_) Hr Ht He. unfold finish_sink, send. rewrite Hc, (proj2 (String.eqb_neq _ _) Ht), He, Hw. cbn [negb andb].
  unfold roomy in Hr. rewrite Hn, u64_small by lia. done.
Qed.

(** A handler only adds events. *)
Lemma send_grows eventType payload raw terminal s : ∃ l, es_sent (send wire eventType payload raw terminal s).2 = es_sent s ++ l.
Proof. unfold send. repeat case_match; cbn [snd es_sent]; solve [by eexists|exists []; by rewrite app_nil_r]. Qed.
Lemma sent_grows h s : ∃ l, es_sent (run_handler wire h s).2 = es_sent s ++ l.
Proof.
  revert s. induction h as [result|ty payload k IH|ty raw k IH]; intros s; cbn [run_handler]; [exists []; by rewrite app_nil_r| |].
  - destruct (send_grows ty payload "" false s) as [l Hl]. unfold Emit. destruct (send _ _ _ _ _ s) as [e s1]. cbn [snd] in Hl.
    destruct (IH e s1) as [l2 ->]. exists (l ++ l2). by rewrite Hl, app_assoc.
  - destruct (send_grows ty Nil raw false s) as [l Hl]. unfold Log. destruct (send _ _ _ _ _ s) as [e s1]. cbn [snd] in Hl.
    destruct (IH e s1) as [l2 ->]. exists (l ++ l2). by rewrite Hl, app_assoc.
Qed.
Lemma roomy_before s s' l : es_sent s' = es_sent s ++ l → roomy s' → roomy s.
Proof. unfold roomy. intros ->. rewrite length_app. lia. Qed.
Lemma run_handler_open h s result s' : reliable wire → encoding h → sink_open s → roomy s' → run_handler wire h s = (result, s') →
  sink_open s' ∧ match result with inr p => encodes p | inl _ => True end.
Proof.
  intros Hw. revert s. induction h as [r|ty payload k IH|ty raw k IH]; intros s He Hs Hr E; cbn [run_handler encoding] in *.
  - injection E as <- <-. by split.
  - destruct He as [Hp Hk]. unfold Emit in E. destruct (send_grows ty payload "" false s) as [l1 Hl1].
    destruct (send _ _ _ _ _ s) as [e s1] eqn:E1. cbn [snd] in Hl1. destruct (sent_grows (k e) s1) as [l Hl]. rewrite E in Hl. cbn [snd] in Hl.
    assert (roomy s) as Hroom by (eapply roomy_before; [exact Hl1|]; by eapply roomy_before).
    destruct (send_progress _ _ _ _ _ _ Hw Hp Hs Hroom E1) as [Hs1 _]. by eapply IH.
  - unfold Log in E. destruct (send_grows ty Nil raw false s) as [l1 Hl1].
    destruct (send _ _ _ _ _ s) as [e s1] eqn:E1. cbn [snd] in Hl1. destruct (sent_grows (k e) s1) as [l Hl]. rewrite E in Hl. cbn [snd] in Hl.
    assert (roomy s) as Hroom by (eapply roomy_before; [exact Hl1|]; by eapply roomy_before).
    destruct (send_progress _ Nil _ _ _ _ Hw I Hs Hroom E1) as [Hs1 _]. by eapply IH.
Qed.
End Sink.

(** ** The host *)

Section Host.
Context {cal : Calendar} {dig : Digest} {sha : Sha256} {files : RawLogFiles} (now fresh : Z → string) (a : runArtifact).

(** Redaction leaves the payload JSON. *)
Definition still_json (e : ExecuteEvent) : Prop := valid (redact (xe_payload e) (ra_redactions a)) = true.

(** The events of an open sink and a terminal event are a closed stream. *)
Lemma progress_closes l x : ∀ n, progress n l → xe_sequence x = n + Z.of_nat (length l) → trim_space (xe_type x) ≠ "" → is_Some (xe_occurredAt x) →
  terminal_type (xe_type x) = true → Forall still_json (l ++ [x]) → closes a n (l ++ [x]) x.
Proof.
  induction l as [|y l IH]; intros n Hl Hn Ht Ho Hty Hj; cbn [app length] in *.
  - inversion Hj as [|? ? Hx _]; subst. constructor; [|done]. split_and!; [by rewrite Z.add_0_r in Hn|done|done|done].
  - cbn [progress] in Hl. destruct Hl as (Hs&Hyt&Hyo&_&Hyty&Hl). inversion Hj as [|? ? Hy Hj']; subst. constructor; [by split_and!|done|].
    apply IH; try done. lia.
Qed.
Lemma completes_json n events out : completes a n events out → Forall still_json events.
Proof. induction 1 as [n e (_&_&_&Hv)|n e events out (_&_&_&Hv) _ _ IH]; by repeat constructor. Qed.
End Host.

(** ** Calls *)

Section Calls.
Context {cal : Calendar} {dig : Digest} {sha : Sha256} {files : RawLogFiles} {schemas : SdkSchemas} {handler : TaskHandler}.
Context (now fresh : Z → string) (a : runArtifact).

Lemma error_object_canonical e : canonical (mkobj [("error", JStr e)]) = true.
Proof. reflexivity. Qed.

(** What the host makes of a failure the SDK reports. *)
Definition task_failed (error : string) : ExecError :=
  let diagnostic := terminalFailureDiagnostic (redact (marshal (mkobj [("error", JStr error)])) (ra_redactions a)) in
  plain ("plugin reported task.failed" +:+ (if String.eqb diagnostic "" then "" else ": " +:+ diagnostic)).
(** What the host makes of the result of a handler: the value when it satisfies the
    output schema, redacted; a nil value is checked as [null] and read as [{}]. *)
Definition host_result (c : compiledActionContract) (result : string + Payload) : ExecError + string :=
  match result with
  | inl error => inl (task_failed error)
  | inr value =>
      match validateOutputValue c value, value with
      | Some issue, _ => inl (task_failed (validationIssueMessage issue))
      | None, Value v => inr (redact (marshal v) (ra_redactions a))
      | None, Nil => inr (redact "{}" (ra_redactions a))
      | None, Unencodable e => inl (task_failed e)
      end
  end.

Lemma terminal_cases c result : encodes (match result with inr p => p | inl _ => Nil end) →
  ∃ ty payload data, terminal_event c result = (ty, payload) ∧ encode payload = inr data ∧ valid data = true ∧ trim_space ty ≠ "" ∧
    terminal_type ty = true ∧ finish (ra_redactions a) ty (redact data (ra_redactions a)) EndOfStream = host_result c result.
Proof.
  intros He.
  assert (Hfail : ∀ error, let payload := Value (mkobj [("error", JStr error)]) in let data := marshal (mkobj [("error", JStr error)]) in
    encode payload = inr data ∧ valid data = true ∧ trim_space "task.failed" ≠ "" ∧ terminal_type "task.failed" = true ∧
    finish (ra_redactions a) "task.failed" (redact data (ra_redactions a)) EndOfStream = inl (task_failed error)).
  { intros error. split_and!; [done| |done|done|done]. by apply (encode_valid (Value (mkobj [("error", JStr error)]))). }
  unfold host_result, terminal_event. destruct result as [error|p]; [by do 3 eexists; split; [reflexivity|apply Hfail]|].
  destruct (validateOutputValue c p) as [issue|] eqn:Ev; [by do 3 eexists; split; [reflexivity|apply Hfail]|].
  destruct p as [|v|e]; [| |by unfold validateOutputValue in Ev].
  - exists "task.completed", Nil, "{}". split_and!; done.
  - exists "task.completed", (Value v), (marshal v). split_and!; [done|done| |done|done|done]. by eapply (encode_valid (Value v)).
Qed.

Lemma run_task_host wire c request e s : reliable wire → encoding (th_execute request) → roomy s → run_task wire c request = (e, s) →
  e = None ∧ es_closed s = true ∧
  (∃ l x, es_sent s = l ++ [x] ∧ progress 1 l ∧ xe_sequence x = Z.of_nat (length l) + 1 ∧ terminal_type (xe_type x) = true) ∧
  let result := (run_handler wire (th_execute request) new_sink).1 in ∀ log st,
    (Forall (still_json a) (es_sent s) → files_work a → (ra_persist a = true → recordable fresh a 1 st) →
       ∃ st', consume now fresh a (mkStream (es_sent s) EndOfStream) log st = (host_result c result, log +:+ concat (chunk a <$> es_sent s), st')) ∧
    (¬ Forall (still_json a) (es_sent s) → ∃ error log' st', consume now fresh a (mkStream (es_sent s) EndOfStream) log st = (inl error, log', st')).
Proof.
  intros Hw Henc Hroom. unfold run_task. destruct (run_handler wire (th_execute request) new_sink) as [result s1] eqn:Er. cbn [fst].
  destruct (terminal_event c result) as [ty payload] eqn:Et. intros E.
  assert (Hroom1 : roomy s1).
  { destruct (send_grows wire ty payload "" true s1) as [l Hl]. unfold finish_sink in E. rewrite E in Hl. by eapply roomy_before. }
  destruct (run_handler_open wire _ _ _ _ Hw Henc new_sink_open Hroom1 Er) as [Ho Hres].
  destruct (terminal_cases c result) as (ty'&payload'&data&Et'&He&Hv&Hne&Hterm&Hfin); [by destruct result|]. rewrite Et in Et'. injection Et' as <- <-.
  rewrite (finish_progress wire ty payload data s1 Hw Ho Hroom1 Hne He) in E. injection E as <- <-. destruct Ho as (_&_&Hprog).
  split_and!; [done|done|eexists (es_sent s1), _; split_and!; [done|done|done|done]|]. intros log st. cbn [es_sent]. unfold consume. cbn [sm_events sm_end].
  set (x := mkExecuteEvent _ ty _ data ""). split.
  - intros Hj Hf Hrec. destruct (consume_closed now fresh a 1 (es_sent s1 ++ [x]) x) with (log := log) (s := st) as (st'&Hcons); [|done|lia|done|].
    + apply progress_closes; [done|cbn; lia|done|by eexists|done|done].
    + exists st'. rewrite Hcons. cbn [x xe_type xe_payload]. by rewrite Hfin.
  - intros Hj. destruct (consume_from _ _ _ _ _ _ _ _ _ _) as [[[error|out] log'] st'] eqn:Hc; [by eexists _, _, _|].
    exfalso. apply Hj. apply (consume_from_completes (dig:=dig)) in Hc as (_&Hc&_). by eapply completes_json.
Qed.
End Calls.

(** What a call that was not refused did. *)
Lemma Execute_run {schemas : SdkSchemas} {handler : TaskHandler} actions contracts now wire call others r e events r' :
  PluginSdk.Execute actions contracts now wire call others r = Some (inr e, events, r') →
  ∃ identity c r1 s, admit_call actions contracts now call = Some (inr (identity, c)) ∧ register identity r = (None, r1) ∧
    run_task wire c (task_request identity call) = (e, s) ∧ events = es_sent s ∧ r' = unregister (ci_request identity) (others r1).
Proof.
  unfold PluginSdk.Execute, mbind, option_bind. destruct (admit_call _ _ _ _) as [[status|[identity c]]|]; [done| |done].
  destruct (register identity r) as [[status|] r1] eqn:Er; [done|]. destruct (run_task _ _ _) as [e1 s] eqn:Et. intros [= <- <- <-].
  by exists identity, c, r1, s.
Qed.

(** ** The life of calls *)

(** A runtime with the handlers that run: requests and streams. *)
Inductive runtime_step : Runtime * list string → Runtime * list string → Prop :=
  | step_register identity r r' l (Hr : register identity r = (None, r')) : runtime_step (r, l) (r', ci_request identity :: l)
  | step_registerStream r r' name l (Hr : registerStream r = (inr name, r')) : runtime_step (r, l) (r', name :: l)
  | step_unregister name r l1 l2 : runtime_step (r, l1 ++ name :: l2) (unregister name r, l1 ++ l2)
  | step_cancel meta r l : runtime_step (r, l) ((Cancel meta r).2, l)
  | step_shutdown deadline r l : runtime_step (r, l) ((Shutdown deadline r).2, l).
Definition runs : Runtime * list string → Prop := rtc runtime_step (new_runtime, []).

(** The WaitGroup counts the running handlers; every active entry is one of them;
    a draining runtime has cancelled them all. *)
Definition runtime_inv (x : Runtime * list string) : Prop :=
  rt_waiting x.1 = Z.of_nat (length x.2) ∧ (∀ name, is_Some (rt_active x.1 !! name) → name ∈ x.2) ∧
  (rt_accepting x.1 = false → dom (rt_active x.1) ⊆ rt_cancelled x.1).
Lemma runtime_step_inv x y : runtime_inv x → runtime_step x y → runtime_inv y.
Proof.
  intros (Hw&Ha&Hc) Hstep. destruct Hstep as [identity r r' l Hr|r r' name l Hr|name r l1 l2|meta r l|deadline r l]; cbn [fst snd] in *.
  - revert Hr. unfold register. destruct (rt_accepting r) eqn:Eacc; [|done]. cbn [negb]. destruct (bool_decide _) eqn:Eb; [done|]. intros [= <-].
    split_and!; cbn [fst snd rt_waiting rt_active rt_accepting]; [rewrite Hw; cbn [length]; lia| |done].
    intros name [x Hx]. apply lookup_insert_Some in Hx as [[<- _]|[_ Hx]]; [left|right; eauto].
  - revert Hr. unfold registerStream. destruct (rt_accepting r) eqn:Eacc; [|done]. cbn [negb]. intros [= <- <-].
    split_and!; cbn [fst snd rt_waiting rt_active rt_accepting]; [rewrite Hw; cbn [length]; lia| |done].
    intros name [x Hx]. apply lookup_insert_Some in Hx as [[<- _]|[_ Hx]]; [left|right; eauto].
  - split_and!; cbn [fst snd unregister rt_waiting rt_active rt_accepting rt_cancelled].
    + rewrite Hw, !length_app. cbn [length]. lia.
    + intros name' [x Hx]. apply lookup_delete_Some in Hx as [Hne Hx]. assert (Hin : name' ∈ l1 ++ name :: l2) by eauto.
      rewrite elem_of_app, elem_of_cons in Hin. rewrite elem_of_app. naive_solver.
    + intros Hacc. specialize (Hc Hacc). rewrite dom_delete. set_solver.
  - unfold Cancel. destruct (validateCallMeta meta None) as [status|identity]; [done|].
    destruct (rt_active r !! ci_request identity) as [call|]; [|done]. destruct (decide (call = identity)); [|done].
    split_and!; [done|done|]. intros Hacc. specialize (Hc Hacc). cbn [snd fst rt_active rt_cancelled]. set_solver.
  - destruct deadline as [d|]; [|done]. split_and!; [done|done|]. intros _. cbn [Shutdown snd fst rt_active rt_cancelled]. set_solver.
Qed.
Lemma runs_inv x : runs x → runtime_inv x.
Proof.
  unfold runs. revert x. apply rtc_ind_r.
  - split_and!; [done|intros name [x Hx]; discriminate Hx|done].
  - intros x y _ Hstep IH. by eapply runtime_step_inv.
Qed.

(** Once it drains, a runtime only loses handlers. *)
Lemma draining_step x y : rt_accepting x.1 = false → runtime_step x y → rt_accepting y.1 = false ∧ y.2 `sublist_of` x.2.
Proof.
  intros Hacc Hstep. destruct Hstep as [identity r r' l Hr|r r' name l Hr|name r l1 l2|meta r l|deadline r l]; cbn [fst snd] in *.
  - unfold register in Hr. by rewrite Hacc in Hr.
  - unfold registerStream in Hr. by rewrite Hacc in Hr.
  - split; [done|]. apply sublist_app; [done|by constructor].
  - split; [|done]. unfold Cancel. repeat case_match; done.
  - split; [|done]. by destruct deadline.
Qed.
Lemma draining x y : rtc runtime_step x y → rt_accepting x.1 = false → rt_accepting y.1 = false ∧ y.2 `sublist_of` x.2.
Proof.
  induction 1 as [x|x y z Hstep _ IH]; intros Hacc; [done|]. destruct (draining_step x y Hacc Hstep) as [Hy Hs].
  destruct (IH Hy) as [Hz Hs']. split; [done|]. by etrans.
Qed.

(** A request that is named like a stream shares its entry. *)
Example stream_name_collision : let r := (register (mkCallIdentity "trigger-watch-1" "run" "node" "key" 1) new_runtime).2 in
  rt_active (registerStream r).2 !! "trigger-watch-1" = Some no_identity ∧
  (Cancel (Some (mkCallMeta "trigger-watch-1" "run" "node" 1 "key" (Some 0))) (registerStream r).2).1 = inr (false, "not-running").
Proof. split; vm_compute; reflexivity. Qed.
