(* ===== verification/PluginController.v ===== *)
(** [internal/plugincontroller/controller.go]: PluginInstallation resources drive
    which immutable plugin version is active.

    The controller works on the resource store and on a plugin runtime, the class
    [PluginRuntime]; a [World] is the database and the runtime's own state.  Store
    calls draw from environments as in [Proc].  Go visits the plugins of a pass in
    an unspecified order, the argument [order].  Plugin names, versions and digests
    are ASCII.  The mutex that serializes passes is not modelled: a pass is one
    function. *)

From Stdlib Require Import Ascii.
From Stdlib Require String.
From S2P Require Import Prelude.
From S2P Require Import Json.
From S2P Require Import GoStd.
From S2P Require Import Resource.
From S2P Require Import Plan.
From S2P Require Import PluginMapping.
From S2P Require Import Db.
From S2P Require Import StoreRuns.
From S2P Require Import StoreResources.
From S2P Require Import StoreOutbox.
From S2P Require Import StorePlugins.
From S2P Require Import PluginContract.
From S2P Require Import Proc.
From S2P Require Import Orchestrator.
From S2P Require Import References.

Local Open Scope Z_scope.

(** ** Worlds *)

Definition World (R A : Type) : Type := Db * R → res A * (Db * R).
#[export] Instance world_ret R : MRet (World R) := λ A a w, (ok a, w).
#[export] Instance world_bind R : MBind (World R) := λ A B f p w,
  match p w with (inl e, w') => (fail e, w') | (inr a, w') => f a w' end.
Definition on_store {R A} (p : Proc A) : World R A := λ w, let '(r, s) := p w.1 in (r, (s, w.2)).
Definition world_lift {R A} (r : res A) : World R A := λ w, (r, w).
Definition world_attempt {R A} (p : World R A) : World R (res A) := λ w, let '(r, w') := p w in (ok r, w').

(** [Runtime]; the number is the position of the call in the pass. *)
Class PluginRuntime (R : Type) := {
  rt_List : nat → World R (list PluginRecord);
  rt_Enable : nat → string → string → World R unit;
  rt_Disable : nat → string → World R unit;
  rt_Health : nat → Db * R → list HealthDiagnostic * (Db * R) }.

Definition unavailable : Err := ErrMsg "plugin runtime is unavailable".
Definition unavailableRuntime : PluginRuntime unit := {|
  rt_List _ w := (fail unavailable, w); rt_Enable _ _ _ w := (fail unavailable, w); rt_Disable _ _ w := (fail unavailable, w);
  rt_Health _ w := ([mkHealth "plugins" "runtime_unavailable" "plugin runtime is unavailable"], w) |}.

(** ** Observations *)

Abbreviation Installation := (ObjectMeta * PluginInstallationSpec)%type.
Definition hostProtocolVersion : Z := 1.
Definition is_enabled (i : Installation) : bool := match pi_enabled i.2 with Some b => b | None => false end.
Definition key_of (i : Installation) : string := installationKey (pi_plugin i.2) (pi_version i.2).

Definition groupInstallations (installations : list Installation) : gmap string (list Installation) :=
  fold_left (λ m i, <[pi_plugin i.2 := default [] (m !! pi_plugin i.2) ++ [i]]> m) installations ∅.
Definition enabledInstallations (installations : list Installation) : list Installation :=
  filter (λ i, is_enabled i = true) installations.
(** By name and version, and the active ones by name. *)
Definition indexRecords (records : list PluginRecord) : gmap string PluginRecord * gmap string PluginRecord :=
  fold_left (λ m r, (<[installationKey (pv_name r) (pv_version r) := r]> m.1, if pv_active r then <[pv_name r := r]> m.2 else m.2))
    records (∅, ∅).
Definition exactRecord (i : Installation) (records : gmap string PluginRecord) : option PluginRecord :=
  match records !! key_of i with
  | Some r => if String.eqb (pv_digest r) (pi_digest i.2) then Some r else None
  | None => None
  end.
Definition incompatible (r : PluginRecord) : bool :=
  match decode_manifest (pv_manifest r) with
  | None => true
  | Some m => (hostProtocolVersion <? pt_minimum (mf_protocol m)) || (pt_maximum (mf_protocol m) <? hostProtocolVersion)
  end.
Definition pluginFromHealthPath (path : string) : string :=
  match strip_prefix "plugins/" path with Some identity => default "" (head (split_on "@"%char identity)) | None => "" end.

Definition upper_char (c : ascii) : ascii := if is_lower c then ascii_of_N (N_of_ascii c - 32) else c.
Definition title (part : string) : string := match part with String c s => String (upper_char c) s | EmptyString => "" end.
Definition reasonTitle (code : string) : string := join "" (title <$> split_on "_"%char code).
Definition reason_char (c : ascii) : list ascii := if is_upper c then ["_"%char; lower c] else [lower c].
Definition reasonCode (reason : string) : string :=
  match explode reason with [] => "" | c :: l => implode (lower c :: mjoin (reason_char <$> l)) end.

(** ** Status *)

Record statusFailure := mkFailure { sf_code : string; sf_message : string }.
Record verdict := mkVerdict { vd_phase : string; vd_ready : bool; vd_reason : string; vd_message : string }.
Definition broken (reason message : string) : verdict := mkVerdict "Error" false reason message.

Section Status.
Context (group : list Installation) (records active : gmap string PluginRecord) (failures : gmap string statusFailure).

Definition is_active (i : Installation) : bool :=
  match active !! pi_plugin i.2 with
  | Some r => String.eqb (pv_version r) (pi_version i.2) && String.eqb (pv_digest r) (pi_digest i.2)
  | None => false
  end.
(** The failure recorded for the plugin; a missing entry is the zero value. *)
Definition failure_of (i : Installation) : option statusFailure :=
  match failures !! pi_plugin i.2 with
  | Some f => if String.eqb (sf_code f) "" then None else Some f
  | None => None
  end.
(** The cases of the switch, in its order. *)
Definition verdict_of (i : Installation) : verdict :=
  if (1 <? length (enabledInstallations group))%nat && is_enabled i
  then mkVerdict "Conflict" false "MultipleEnabledVersions" "multiple plugin versions are enabled"
  else match records !! key_of i with
  | None => broken "BundleMissing" "the immutable plugin bundle is not installed"
  | Some record =>
      if negb (String.eqb (pv_digest record) (pi_digest i.2)) then broken "DigestMismatch" "the installed plugin bundle has a different digest"
      else if incompatible record then broken "ProtocolIncompatible" "the installed plugin protocol is incompatible with this daemon"
      else match (if is_enabled i || is_active i then failure_of i else None) with
      | Some f => broken (reasonTitle (sf_code f)) (sf_message f)
      | None =>
          if is_enabled i && is_active i then mkVerdict "Active" true "Activated" "the selected immutable plugin version is active"
          else if is_enabled i then broken "ActivationPending" "the selected immutable plugin version is not active"
          else mkVerdict "Installed" true "Reconciled" "immutable plugin installation is reconciled"
      end
  end.
Definition capabilities_of (i : Installation) : list string :=
  match r ← records !! key_of i; decode_manifest (pv_manifest r) with
  | Some m => sort_strings (mf_capabilities m)
  | None => []
  end.
Definition installed (i : Installation) : bool := if exactRecord i records is Some _ then true else false.
Definition installationStatus (i : Installation) : list (string * json) * option HealthDiagnostic :=
  let v := verdict_of i in
  let diagnostics := if vd_ready v then [] else [mkobj [("code", JStr (reasonCode (vd_reason v))); ("message", JStr (vd_message v))]] in
  ([("active", JBool (is_active i)); ("capabilities", JArr (JStr <$> capabilities_of i));
    ("conditions", JArr [mkobj [("type", JStr "Ready"); ("status", JStr (if vd_ready v then "True" else "False"));
                                ("reason", JStr (vd_reason v)); ("message", JStr (vd_message v))]]);
    ("diagnostics", JArr diagnostics); ("digest", JStr (pi_digest i.2)); ("installed", JBool (installed i));
    ("observedGeneration", JNum (itoa (m_generation i.1))); ("phase", JStr (vd_phase v)); ("plugin", JStr (pi_plugin i.2));
    ("version", JStr (pi_version i.2))],
   if vd_ready v then None
   else Some (mkHealth ("controllers/plugins/" +:+ pi_plugin i.2 +:+ "@" +:+ pi_version i.2) (reasonCode (vd_reason v)) (vd_message v))).
End Status.

(** ** Names *)

(** The builder and whether a dash may follow. *)
Fixpoint dashed (l : list ascii) (lastDash empty : bool) : list ascii :=
  match l with
  | [] => []
  | c :: l =>
      if is_lower c || is_digit c then c :: dashed l false false
      else if negb lastDash && negb empty then "-"%char :: dashed l true false
      else dashed l lastDash empty
  end.
Definition is_dash (c : ascii) : bool := Ascii.eqb c "-".
Definition lower_text (s : string) : string := implode (lower <$> explode s).
Definition sanitizeLabel (value : string) : string := trim_with is_dash (implode (dashed (explode (lower_text value)) false true)).
Definition ResourceName (record : PluginRecord) : string :=
  let digest := String.substring 0 10 (lower_text (pv_digest record)) in
  let base := sanitizeLabel (pv_name record +:+ "-" +:+ pv_version record) in
  let base := if String.eqb base "" then "plugin" else base in
  let suffix := if String.eqb digest "" then "" else "-" +:+ digest in
  let maximumBase := Nat.max 1 (63 - String.length suffix) in
  let base := if (maximumBase <? String.length base)%nat then trim_with is_dash (String.substring 0 maximumBase base) else base in
  (if String.eqb base "" then "p" else base) +:+ suffix.

(** ** The controller *)

(** [issueKeys] and the tracker. *)
Record controller := mkPluginController { pc_health : Tracker; pc_issues : gset string }.
Definition New : controller :=
  mkPluginController (Set_ "starting" (mkHealth "controllers/plugins" "starting" "plugin installation reconciliation has not completed") ∅) ∅.
(** For a context that is not cancelled. *)
Definition observe (r : res unit) (c : controller) : controller :=
  let t := Clear "starting" (pc_health c) in
  mkPluginController match r with
    | inr _ => Clear "reconcile" t
    | inl _ => Set_ "reconcile" (mkHealth "controllers/plugins" "reconcile_failed"
                 "plugin installation reconciliation failed; inspect daemon logs") t
    end (pc_issues c).
Definition replaceIssues (next : gmap string HealthDiagnostic) (c : controller) : controller :=
  let t := fold_left (λ t key, Clear ("desired/" +:+ key) t) (elements (pc_issues c ∖ dom next)) (pc_health c) in
  mkPluginController (fold_left (λ t kd, Set_ ("desired/" +:+ kd.1) kd.2 t) (map_to_list next) t) (dom next).

Section Controller.
Context {cal : Calendar} {dig : Digest} {R : Type} {runtime : PluginRuntime R}.

Definition installation_order : Installation → Installation → comparison :=
  lexc (onc (λ i, pi_plugin i.2) str_cmp) (lexc (onc (λ i, pi_version i.2) str_cmp)
    (lexc (onc (λ i, m_namespace i.1) str_cmp) (onc (λ i, m_name i.1) str_cmp))).
Definition installations (env : Env) (n : nat) : Proc (list Installation) :=
  documents ← List_ env n "PluginInstallation" "" 1000;
  l ← proc_lift (mapM DecodePluginInstallation documents.1);
  mret (sort_by installation_order l).

(** The document of an installation, as the marshalled resource is decoded. *)
Definition installation_document (i : Installation) : Document := mkDocument APIVersion i.1 (SpecPluginInstallation i.2) [].
Definition same_version (record : PluginRecord) (i : Installation) : bool :=
  String.eqb (pi_plugin i.2) (pv_name record) && String.eqb (pi_version i.2) (pv_version record).
Fixpoint projection_in (record : PluginRecord) (documents : list Document) : res (option Document) :=
  match documents with
  | [] => ok None
  | document :: documents =>
      installation ← DecodePluginInstallation document;
      if same_version record installation then ok (Some document) else projection_in record documents
  end.
Definition adopted (record : PluginRecord) : Installation :=
  (mkMeta (ResourceName record) DefaultNamespace "" 0 0 ∅,
   mkPluginInstallation (pv_name record) (pv_version record) (pv_digest record) (Some (pv_active record))).
Definition ensureProjection (env : Env) (record : PluginRecord) : Proc Document :=
  documents ← List_ env 0 "PluginInstallation" "" 1000;
  existing ← proc_lift (projection_in record documents.1);
  match existing with
  | Some document => mret document
  | None =>
      document ← proc_lift (DecodeStrict (installation_document (adopted record)));
      call env 2 (Apply document (mkApplyOptions 0 ("adopt-plugin-" +:+ pv_name record +:+ "-" +:+ pv_version record) "plugin-controller" "")
        (uuid_at env 0) (uuid_at env 1) (now_at env 1))
  end.
Fixpoint ensureProjections (envs : nat → Env) (n : nat) (records : list PluginRecord) : Proc unit :=
  match records with
  | [] => mret tt
  | record :: records => ensureProjection (envs n) record ≫= λ _, ensureProjections envs (S n) records
  end.

(** What the enabled installations of one plugin ask for. *)
Inductive decision := Activate (record : PluginRecord) | Deactivate | Retain (failure : option statusFailure).
Definition decide_group (group : list Installation) (records : gmap string PluginRecord) : decision :=
  match enabledInstallations group with
  | [] => Deactivate
  | [target] =>
      match exactRecord target records with
      | Some record => if incompatible record then Retain None else Activate record
      | None => Retain None
      end
  | _ => Retain (Some (mkFailure "multiple_enabled_versions" "multiple plugin versions are enabled"))
  end.
Definition same_activation (active : option PluginRecord) (record : PluginRecord) : bool :=
  match active with
  | Some a => String.eqb (pv_version a) (pv_version record) && String.eqb (pv_digest a) (pv_digest record)
  | None => false
  end.
(** The calls for one plugin and the failure they leave. *)
Definition converge_one (n : nat) (plugin : string) (group : list Installation) (records active : gmap string PluginRecord)
    : World R (option statusFailure) :=
  match decide_group group records with
  | Retain failure => mret failure
  | Deactivate =>
      match active !! plugin with
      | None => mret None
      | Some _ =>
          r ← world_attempt (rt_Disable n plugin);
          mret match r with
          | inr _ | inl ErrNotFound => None
          | inl _ => Some (mkFailure "disable_failed" "plugin deactivation failed; inspect daemon logs")
          end
      end
  | Activate record =>
      if same_activation (active !! plugin) record then mret None else
      r ← world_attempt (rt_Enable n (pv_name record) (pv_version record));
      mret match r with
      | inr _ => None
      | inl _ => Some (mkFailure "activation_failed" "plugin activation failed; inspect daemon logs")
      end
  end.
Fixpoint converge (n : nat) (plugins : list string) (groups : gmap string (list Installation)) (records active : gmap string PluginRecord)
    (failures : gmap string statusFailure) : World R (gmap string statusFailure) :=
  match plugins with
  | [] => mret failures
  | plugin :: plugins =>
      f ← converge_one n plugin (default [] (groups !! plugin)) records active;
      converge (S n) plugins groups records active (match f with Some f => <[plugin := f]> failures | None => failures end)
  end.

(** Probe failures override those of the pass. *)
Definition health_failures (diagnostics : list HealthDiagnostic) (failures : gmap string statusFailure) : gmap string statusFailure :=
  fold_left (λ m d, let plugin := pluginFromHealthPath (hd_path d) in
    if String.eqb plugin "" then m else <[plugin := mkFailure (hd_code d) (hd_message d)]> m) diagnostics failures.
Definition issue_key (i : Installation) : string := key_of i +:+ "/" +:+ m_namespace i.1 +:+ "/" +:+ m_name i.1.
(** A concurrent apply or delete that won is skipped. *)
Fixpoint write_statuses (envs : nat → Env) (n : nat) (l : list Installation) (groups : gmap string (list Installation))
    (records active : gmap string PluginRecord) (failures : gmap string statusFailure) (issues : gmap string HealthDiagnostic)
    : Proc (gmap string HealthDiagnostic) :=
  match l with
  | [] => mret issues
  | i :: l =>
      let '(status, issue) := installationStatus (default [] (groups !! pi_plugin i.2)) records active failures i in
      r ← attempt (call (envs n) 0 (UpdateResourceStatus "PluginInstallation" (m_namespace i.1) (m_name i.1) (m_generation i.1) status
                                     (stamp (envs n) 0)));
      match r with
      | inr _ => write_statuses envs (S n) l groups records active failures
                   (match issue with Some d => <[issue_key i := d]> issues | None => issues end)
      | inl ErrNotFound | inl (ErrStaleObservedGeneration _ _) => write_statuses envs (S n) l groups records active failures issues
      | inl e => proc_fail e
      end
  end.

(** The environments of a pass: the projections, the reads, the status writes. *)
Record PassEnv := mkPassEnv { pe_projections : nat → Env; pe_reads : Env; pe_statuses : nat → Env }.
Definition probe : World R (list HealthDiagnostic) := λ w, let '(d, w) := rt_Health 0 w in (ok d, w).
Definition reconcileLocked (env : PassEnv) (order : list string → list string) : World R (gmap string HealthDiagnostic) :=
  records ← rt_List 0;
  on_store (ensureProjections (pe_projections env) 0 records) ≫= λ _,
  l ← on_store (installations (pe_reads env) 0);
  let groups := groupInstallations l in
  let '(byVersion, active) := indexRecords records in
  failures ← converge 0 (order (map_to_list groups).*1) groups byVersion active ∅;
  records ← rt_List 1;
  let '(byVersion, active) := indexRecords records in
  diagnostics ← probe;
  on_store (write_statuses (pe_statuses env) 0 l groups byVersion active (health_failures diagnostics failures) ∅).
(** The issues are replaced only when the pass succeeds. *)
Definition Reconcile (env : PassEnv) (order : list string → list string) (w : Db * R) (c : controller) : res unit * (Db * R) * controller :=
  let '(r, w) := reconcileLocked env order w in
  match r with
  | inl e => (fail e, w, observe (fail e) c)
  | inr issues => (ok tt, w, observe (ok tt) (replaceIssues issues c))
  end.

(** ** Command line mutations *)

Definition desiredStateRequestID (i : Installation) (enabled : bool) : string :=
  "plugin-cli:" +:+ m_uid i.1 +:+ ":" +:+ itoa (m_resourceVersion i.1) +:+ ":" +:+ (if enabled then "true" else "false").
Definition of_plugin (plugin : string) (i : Installation) : bool := String.eqb (pi_plugin i.2) plugin.
Definition of_version (version : string) (i : Installation) : bool := String.eqb (pi_version i.2) version.
(** The installations to write, the selected ones first; [None] is not found. *)
Definition selection (plugin version : string) (enabled : bool) (l : list Installation) : option (list Installation) :=
  let targets := filter (λ i, of_plugin plugin i && of_version version i = true) l in
  let rest := filter (λ i, of_plugin plugin i && negb (enabled && of_version version i) = true) l in
  if enabled then match targets with [] => None | _ => Some (targets ++ rest) end
  else match rest with [] => None | _ => Some rest end.
Definition set_desired (i : Installation) (desired : bool) : Installation :=
  (i.1, mkPluginInstallation (pi_plugin i.2) (pi_version i.2) (pi_digest i.2) (Some desired)).
Fixpoint apply_selection (envs : nat → Env) (n : nat) (version : string) (enabled : bool) (l : list Installation) : Proc unit :=
  match l with
  | [] => mret tt
  | i :: l =>
      let desired := enabled && of_version version i in
      (if Bool.eqb (is_enabled i) desired then mret tt else
       document ← proc_lift (DecodeStrict (installation_document (set_desired i desired)));
       call (envs n) 0 (Apply document (mkApplyOptions (m_resourceVersion i.1) (desiredStateRequestID i desired) "unix-peer" "")
         (uuid_at (envs n) 0) (uuid_at (envs n) 1) (now_at (envs n) 0)) ≫= λ _, mret tt) ≫= λ _,
      apply_selection envs (S n) version enabled l
  end.
Definition SetEnabled (reads : Env) (writes : nat → Env) (env : PassEnv) (order : list string → list string) (plugin version : string)
    (enabled : bool) (w : Db * R) (c : controller) : res unit * (Db * R) * controller :=
  let '(r, w) := on_store (l ← installations reads 0;
      match selection plugin version enabled l with
      | None => proc_fail ErrNotFound
      | Some l => apply_selection writes 0 version enabled l
      end) w in
  match r with
  | inl e => (fail e, w, c)
  | inr _ => Reconcile env order w c
  end.

(** ** Diagnostics of a submitted installation *)

(** Another resource for the same plugin version. *)
Definition duplicates (document : Document) (i : Installation) (candidate : Document) : bool :=
  let m := doc_meta document in let c := doc_meta candidate in
  if String.eqb (m_uid c) (m_uid m) || (String.eqb (m_namespace c) (m_namespace m) && String.eqb (m_name c) (m_name m)) then false
  else match DecodePluginInstallation candidate with
       | inr other => String.eqb (pi_plugin other.2) (pi_plugin i.2) && String.eqb (pi_version other.2) (pi_version i.2)
       | inl _ => false
       end.
Definition changed_identity (i : Installation) (current : res Document) : option (list Diagnostic) :=
  match current with
  | inr current =>
      match DecodePluginInstallation current with
      | inl _ => None
      | inr stored =>
          Some (if String.eqb (pi_plugin stored.2) (pi_plugin i.2) && String.eqb (pi_version stored.2) (pi_version i.2)
                   && String.eqb (pi_digest stored.2) (pi_digest i.2) then []
                else [diag "spec" "immutable_identity" "PluginInstallation plugin, version, and digest are immutable"])
      end
  | inl ErrNotFound => Some []
  | inl _ => Some [diag "spec" "reference_unavailable" "plugin installation state is temporarily unavailable"]
  end.
Definition bundle_diagnostics (i : Installation) (records : gmap string PluginRecord) : list Diagnostic :=
  match records !! key_of i with
  | None => [warning "spec.version" "bundle_missing" "the immutable plugin bundle is not installed"]
  | Some record =>
      if negb (String.eqb (pv_digest record) (pi_digest i.2))
      then [warning "spec.digest" "digest_mismatch" "the installed plugin bundle has a different digest"]
      else if incompatible record
      then [warning "spec.version" "protocol_incompatible" "the installed plugin protocol is incompatible with this daemon"] else []
  end.
Definition Diagnostics (env : Env) (document : Document) (w : Db * R) : list Diagnostic * (Db * R) :=
  match doc_spec document with
  | SpecPluginInstallation _ =>
      match DecodePluginInstallation document with
      | inl _ => ([diag "spec" "invalid" "PluginInstallation cannot be decoded"], w)
      | inr i =>
          let m := doc_meta document in
          let '(current, s) := call env 0 (Get "PluginInstallation" (m_namespace m) (m_name m)) w.1 in
          match changed_identity i current with
          | None => ([diag "spec" "invalid" "stored PluginInstallation cannot be decoded"], (s, w.2))
          | Some changed =>
              let '(documents, s) := List_ env 1 "PluginInstallation" "" 1000 s in
              match documents with
              | inl _ => (changed ++ [diag "spec" "reference_unavailable" "plugin installation state is temporarily unavailable"], (s, w.2))
              | inr documents =>
                  let duplicate := if existsb (duplicates document i) documents.1
                    then [diag "spec.version" "duplicate_installation" "plugin name and version already have a PluginInstallation resource"]
                    else [] in
                  let '(records, w) := rt_List 0 (s, w.2) in
                  match records with
                  | inl _ => (changed ++ duplicate ++ [diag "spec" "reference_unavailable" "installed plugin state is temporarily unavailable"], w)
                  | inr records => (changed ++ duplicate ++ bundle_diagnostics i (indexRecords records).1, w)
                  end
              end
          end
      end
  | _ => ([], w)
  end.
End Controller.

(** * The plugin controller: a pass gives every plugin the activation its
       installations ask for, and reports what it could not. *)

From S2P Require Import JsonPlain.
From S2P Require Import StoreStep.

(** ** Grouping *)

Lemma groups_snoc l i :
  groupInstallations (l ++ [i]) = <[pi_plugin i.2 := default [] (groupInstallations l !! pi_plugin i.2) ++ [i]]> (groupInstallations l).
Proof. unfold groupInstallations. by rewrite fold_left_app. Qed.
Lemma groups_lookup l p : groupInstallations l !! p =
  match filter (λ i, of_plugin p i = true) l with [] => None | g => Some g end.
Proof.
  induction l as [|i l IH] using rev_ind; [done|]. rewrite groups_snoc, filter_app.
  destruct (decide (pi_plugin i.2 = p)) as [<-|Hp].
  - rewrite lookup_insert_eq, IH. rewrite (filter_cons_True (λ i, of_plugin _ i = true) i) by apply String.eqb_refl.
    rewrite filter_nil. by destruct (filter _ l).
  - rewrite lookup_insert_ne, IH by done. rewrite (filter_cons_False (λ i, of_plugin p i = true) i);
      [by rewrite filter_nil, app_nil_r|unfold of_plugin; by rewrite (proj2 (String.eqb_neq _ _) Hp)].
Qed.

(** ** Records *)

Definition plugin_records (s : Db) : list PluginRecord := default [] (match result ListPlugins s with inr l => Some l | inl _ => None end).
Definition active_record (s : Db) (p : string) : option PluginRecord :=
  match result (Plugin p "") s with inr r => Some r | inl _ => None end.
Definition active_version (s : Db) (p : string) : option string := pv_version <$> active_record s p.
(** Names and versions have no at sign (the manifest's validation). *)
Definition no_at (s : string) : Prop := "@"%char ∉ explode s.
Definition named (s : Db) : Prop := map_Forall (λ k _, no_at k.1 ∧ no_at k.2) (db_plugins s).

Lemma plugin_records_in s r : r ∈ plugin_records s ↔ ∃ k row, db_plugins s !! k = Some row ∧ r = plugin_record s (k, row).
Proof.
  unfold plugin_records, result, ListPlugins, tx_get. simpl. rewrite list_elem_of_fmap. split.
  - intros ([k row]&->&Hin). rewrite elem_of_sort_by in Hin by apply _. apply elem_of_map_to_list in Hin. eauto.
  - intros (k&row&Hk&->). exists (k, row). split; [done|]. rewrite elem_of_sort_by by apply _. by apply elem_of_map_to_list.
Qed.
Lemma plugin_record_fields s k row : let r := plugin_record s (k, row) in
  pv_name r = k.1 ∧ pv_version r = k.2 ∧ pv_digest r = pg_digest row ∧ pv_manifest r = pg_manifest row ∧ pv_active r = is_active_version k.1 k.2 s.
Proof. by destruct k. Qed.
Lemma active_record_spec s p r : active_record s p = Some r ↔
  ∃ a row, db_activations s !! p = Some a ∧ db_plugins s !! (p, av_version a) = Some row ∧ r = plugin_record s ((p, av_version a), row).
Proof.
  unfold active_record, result, Plugin, tx_row. simpl. destruct (db_activations s !! p) as [a|] eqn:Ea; simpl.
  - destruct (db_plugins s !! (p, av_version a)) as [row|] eqn:Er; simpl; split; [by intros [= <-]; eauto|intros (?&?&[= <-]&E&->); congruence|done|intros (?&?&[= <-]&E&->); congruence].
  - split; [done|]. by intros (?&?&?&_).
Qed.

Definition record_key (r : PluginRecord) : string := installationKey (pv_name r) (pv_version r).
Lemma index_snoc l r : indexRecords (l ++ [r]) =
  (<[record_key r := r]> (indexRecords l).1, if pv_active r then <[pv_name r := r]> (indexRecords l).2 else (indexRecords l).2).
Proof. unfold indexRecords. by rewrite fold_left_app. Qed.
Lemma index_version l k r : (indexRecords l).1 !! k = Some r → r ∈ l ∧ record_key r = k.
Proof.
  induction l as [|x l IH] using rev_ind; [done|]. rewrite index_snoc, elem_of_app, list_elem_of_singleton. cbn [fst].
  rewrite lookup_insert_Some. intros [[<- <-]|[_ H]]; [auto|]. apply IH in H. naive_solver.
Qed.
Lemma index_active_in l p r : (indexRecords l).2 !! p = Some r → r ∈ l ∧ pv_active r = true ∧ pv_name r = p.
Proof.
  induction l as [|x l IH] using rev_ind; [done|]. rewrite index_snoc, elem_of_app, list_elem_of_singleton. cbn [snd].
  destruct (pv_active x) eqn:Ex; [|intros H; apply IH in H; naive_solver].
  rewrite lookup_insert_Some. intros [[<- <-]|[_ H]]; [auto|]. apply IH in H. naive_solver.
Qed.
Lemma index_active_some l r : r ∈ l → pv_active r = true → is_Some ((indexRecords l).2 !! pv_name r).
Proof.
  intros Hin Ha. induction l as [|x l IH] using rev_ind; [by apply elem_of_nil in Hin|]. rewrite index_snoc. cbn [snd].
  apply elem_of_app in Hin as [Hin|Hin%list_elem_of_singleton]; [|subst x; by rewrite Ha, lookup_insert_eq].
  destruct (pv_active x); [|by apply IH]. destruct (decide (pv_name x = pv_name r)) as [->|]; [by rewrite lookup_insert_eq|].
  rewrite lookup_insert_ne by done. by apply IH.
Qed.

(** The active index is the active record of the store. *)
Lemma active_index s p : (indexRecords (plugin_records s)).2 !! p = active_record s p.
Proof.
  assert (Hin : ∀ r, (indexRecords (plugin_records s)).2 !! p = Some r → active_record s p = Some r).
  { intros r H. apply index_active_in in H as (Hr&Ha&Hn). apply plugin_records_in in Hr as ([n v]&row&Hk&->).
    destruct (plugin_record_fields s (n, v) row) as (En&_&_&_&Ea). rewrite Ea in Ha. rewrite En in Hn. cbn [fst snd] in *. subst n.
    unfold is_active_version in Ha. destruct (db_activations s !! p) as [a|] eqn:E; [|done]. apply String.eqb_eq in Ha. subst v.
    apply active_record_spec. eauto. }
  destruct (active_record s p) as [r|] eqn:Er.
  - destruct ((indexRecords (plugin_records s)).2 !! p) as [r'|] eqn:E; [by rewrite <- (Hin r' eq_refl)|]. exfalso.
    apply active_record_spec in Er as (a&row&Ha&Hrow&->).
    destruct (plugin_record_fields s (p, av_version a) row) as (En&_&_&_&Ea).
    assert (is_Some ((indexRecords (plugin_records s)).2 !! p)) as [? ?]; [|congruence].
    assert (H := index_active_some (plugin_records s) (plugin_record s ((p, av_version a), row))). rewrite En in H. cbn [fst] in H. apply H.
    + apply plugin_records_in. eauto.
    + rewrite Ea. unfold is_active_version. cbn [fst snd]. by rewrite Ha, String.eqb_refl.
  - destruct ((indexRecords (plugin_records s)).2 !! p) as [r'|] eqn:E; [|done]. by specialize (Hin r' eq_refl).
Qed.

(** A key with one at sign. *)
Lemma one_separator {A} (c : A) l1 l2 k1 k2 : c ∉ l1 → c ∉ l2 → l1 ++ c :: l2 = k1 ++ c :: k2 → k1 = l1 ∧ k2 = l2.
Proof.
  revert k1. induction l1 as [|x l1 IH]; intros [|y k1] H1 H2 E; simpl in E.
  - by injection E as ->.
  - injection E as <- ->. exfalso. apply H2, elem_of_app. right. left.
  - injection E as -> _. exfalso. apply H1. left.
  - injection E as -> E. apply not_elem_of_cons in H1 as [_ H1]. by destruct (IH k1 H1 H2 E) as [-> ->].
Qed.
Lemma key_inj a b c d : no_at a → no_at b → installationKey a b = installationKey c d → c = a ∧ d = b.
Proof.
  unfold installationKey, no_at. intros Ha Hb H. apply (f_equal explode) in H. rewrite !explode_app in H.
  change (explode a ++ "@"%char :: explode b = explode c ++ "@"%char :: explode d) in H. apply one_separator in H as [H1 H2]; [|done|done].
  rewrite <- (implode_explode c), <- (implode_explode d), H1, H2, !implode_explode. done.
Qed.

(** ** Convergence *)

Definition bundle (row : PluginRow) : string * string := (pg_digest row, pg_manifest row).
Definition same_bundles (s s' : Db) : Prop := ∀ k, bundle <$> db_plugins s' !! k = bundle <$> db_plugins s !! k.

(** What the controller expects of the runtime when nobody else writes. *)
Class RuntimeLaws (R : Type) (runtime : PluginRuntime R) := {
  law_List n w : rt_List n w = (ok (plugin_records w.1), w);
  law_Health n w : db_resources (rt_Health n w).2.1 = db_resources w.1 ∧ same_bundles w.1 (rt_Health n w).2.1 ∧
    ∀ q, active_version (rt_Health n w).2.1 q = active_version w.1 q;
  law_Enable n p v w r w' : rt_Enable n p v w = (r, w') →
    db_resources w'.1 = db_resources w.1 ∧ same_bundles w.1 w'.1 ∧
    (∀ q, q ≠ p → active_version w'.1 q = active_version w.1 q) ∧
    active_version w'.1 p = match r with inr _ => Some v | inl _ => active_version w.1 p end;
  law_Disable n p w r w' : rt_Disable n p w = (r, w') →
    db_resources w'.1 = db_resources w.1 ∧ same_bundles w.1 w'.1 ∧
    (∀ q, q ≠ p → active_version w'.1 q = active_version w.1 q) ∧
    active_version w'.1 p = match r with inr _ | inl ErrNotFound => None | inl _ => active_version w.1 p end }.

(** The activation a decision asks for. *)
Definition wanted (d : decision) (before : option string) : option string :=
  match d with Activate r => Some (pv_version r) | Deactivate => None | Retain _ => before end.
Definition retained (d : decision) : option statusFailure := match d with Retain f => f | _ => None end.

Section Converge.
Context {R : Type} {runtime : PluginRuntime R} {laws : RuntimeLaws R runtime}.
Context (groups : gmap string (list Installation)) (records active : gmap string PluginRecord).
Abbreviation decided p := (decide_group (default [] (groups !! p)) records).

(** What became of a plugin: as decided, or its call, the [n]-th of the pass, was
    made in [w1] and failed, and nothing changed. *)
Definition as_decided (p : string) (f : option statusFailure) (w w' : Db * R) : Prop :=
  f = retained (decided p) ∧ active_version w'.1 p = wanted (decided p) (active_version w.1 p).
Definition call_failed (n : nat) (p : string) (f : option statusFailure) (w1 : Db * R) : Prop :=
  match decided p with
  | Activate r =>
      same_activation (active !! p) r = false ∧
      (∃ e w2, rt_Enable n p (pv_version r) w1 = (inl e, w2)) ∧
      f = Some (mkFailure "activation_failed" "plugin activation failed; inspect daemon logs")
  | Deactivate =>
      is_Some (active !! p) ∧
      (∃ e w2, rt_Disable n p w1 = (inl e, w2) ∧ e ≠ ErrNotFound) ∧
      f = Some (mkFailure "disable_failed" "plugin deactivation failed; inspect daemon logs")
  | Retain _ => False
  end.
Definition untouched (p : string) (w w' : Db * R) : Prop :=
  db_resources w'.1 = db_resources w.1 ∧ same_bundles w.1 w'.1 ∧ ∀ q, q ≠ p → active_version w'.1 q = active_version w.1 q.

Lemma exact_record i r : exactRecord i records = Some r → records !! key_of i = Some r ∧ pv_digest r = pi_digest i.2.
Proof. unfold exactRecord. destruct (records !! key_of i) as [x|]; [|done]. destruct (String.eqb_spec (pv_digest x) (pi_digest i.2)); [|done]. by intros [= <-]. Qed.
Lemma decide_activate g r : decide_group g records = Activate r →
  ∃ i, enabledInstallations g = [i] ∧ exactRecord i records = Some r ∧ incompatible r = false.
Proof.
  unfold decide_group. destruct (enabledInstallations g) as [|i [|? ?]]; try done. destruct (exactRecord i records) as [x|] eqn:E; [|done].
  destruct (incompatible x) eqn:Ei; [done|]. intros [= <-]. by exists i.
Qed.

(** The record an activation names belongs to the plugin of the group. *)
Hypothesis record_names : ∀ p r, decided p = Activate r → pv_name r = p.

Lemma converge_one_outcome n p w : pv_version <$> active !! p = active_version w.1 p →
  ∃ f w', converge_one n p (default [] (groups !! p)) records active w = (inr f, w') ∧
    (as_decided p f w w' ∨ call_failed n p f w ∧ active_version w'.1 p = active_version w.1 p) ∧ untouched p w w'.
Proof.
  intros Ha. unfold converge_one, as_decided, call_failed, untouched.
  assert (Hsame : db_resources w.1 = db_resources w.1 ∧ same_bundles w.1 w.1 ∧ ∀ q, q ≠ p → active_version w.1 q = active_version w.1 q) by done.
  destruct (decided p) as [r| |failure] eqn:Ed; cbn [retained wanted].
  - destruct (same_activation (active !! p) r) eqn:Es.
    + exists None, w. split_and!; try done. left. split; [done|]. unfold same_activation in Es. destruct (active !! p) as [a|] eqn:Ea; [|done].
      rewrite <- Ha. cbn. apply andb_true_iff in Es as [->%String.eqb_eq _]. done.
    + unfold mbind, world_bind, world_attempt. rewrite (record_names p r Ed).
      destruct (rt_Enable n p (pv_version r) w) as [[e|[]] w'] eqn:E; apply law_Enable in E as (H1&H2&H3&H4).
      * eexists _, w'. split; [reflexivity|]. split; [right; eauto 10|done].
      * eexists _, w'. split; [reflexivity|]. split; [left; eauto|done].
  - destruct (active !! p) as [a|] eqn:Ea.
    + unfold mbind, world_bind, world_attempt. destruct (rt_Disable n p w) as [r w'] eqn:E. apply law_Disable in E as (H1&H2&H3&H4).
      eexists _, w'. split; [reflexivity|]. split; [|done]. destruct r as [e|[]]; [|by left]. destruct e; first [by left|right; split; [|done]; split_and!; [done|by eexists _, _|done]].
    + exists None, w. split_and!; try done. left. split; [done|]. by rewrite <- Ha.
  - exists failure, w. split_and!; try done. by left.
Qed.

Lemma converge_outcome plugins n failures w : NoDup plugins →
  (∀ p, p ∈ plugins → pv_version <$> active !! p = active_version w.1 p) → (∀ p, p ∈ plugins → failures !! p = None) →
  ∃ fs w', converge n plugins groups records active failures w = (inr fs, w') ∧
    db_resources w'.1 = db_resources w.1 ∧ same_bundles w.1 w'.1 ∧
    (∀ p, p ∈ plugins → as_decided p (fs !! p) w w' ∨
       ∃ k f1 w1, plugins !! k = Some p ∧ converge n (take k plugins) groups records active failures w = (inr f1, w1) ∧
         call_failed (n + k) p (fs !! p) w1 ∧ active_version w'.1 p = active_version w.1 p) ∧
    (∀ p, p ∉ plugins → fs !! p = failures !! p ∧ active_version w'.1 p = active_version w.1 p).
Proof.
  revert n failures w. induction plugins as [|p plugins IH]; intros n failures w Hn Ha Hf; cbn [converge].
  { exists failures, w. split_and!; try done. by intros p ?%elem_of_nil. }
  apply NoDup_cons in Hn as [Hp Hn]. destruct (converge_one_outcome n p w (Ha p (list_elem_of_here _ _))) as (f&w1&E1&Ho&Hr1&Hb1&Hq1).
  unfold mbind at 1, world_bind. rewrite E1. set (failures1 := match f with Some f => <[p := f]> failures | None => failures end).
  destruct (IH (S n) failures1 w1) as (fs&w'&E&Hr&Hb&Hin&Hout); [done| | |].
  { intros q Hq. rewrite Hq1 by (intros ->; done). apply Ha. by right. }
  { intros q Hq. subst failures1. destruct f; [rewrite lookup_insert_ne by (intros ->; done)|]; apply Hf; by right. }
  exists fs, w'. split_and!; [exact E|by rewrite Hr|intros k; by rewrite Hb| |].
  - intros q [->|Hq]%elem_of_cons.
    + destruct (Hout p Hp) as [Hfp Hvp]. assert (fs !! p = f) as ->.
      { rewrite Hfp. subst failures1. destruct f; [by rewrite lookup_insert_eq|]. apply Hf. left. }
      unfold as_decided in *. rewrite Hvp. destruct Ho as [Ho|[Hc Hv]]; [by left|right]. exists 0%nat, failures, w. rewrite Nat.add_0_r. by split_and!.
    + specialize (Hin q Hq). unfold as_decided in *. rewrite Hq1 in Hin by (intros ->; done).
      destruct Hin as [Hin|(k&f1&w2&Hk&Ek&Hc&Hv)]; [by left|right]. exists (S k), f1, w2. split_and!; [exact Hk| |by rewrite Nat.add_succ_r|done].
      cbn [take converge]. unfold mbind, world_bind. rewrite E1. exact Ek.
  - intros q [Hqp Hq]%not_elem_of_cons. destruct (Hout q Hq) as [-> ->]. split; [|by apply Hq1].
    subst failures1. destruct f; [by rewrite lookup_insert_ne by done|done].
Qed.

(** With the activations as decided, a pass makes no call. *)
Lemma converge_stable plugins n failures w :
  (∀ p, p ∈ plugins → match decided p with
     | Activate r => same_activation (active !! p) r = true | Deactivate => active !! p = None | Retain _ => True end) →
  ∃ fs, converge n plugins groups records active failures w = (inr fs, w).
Proof.
  revert n failures. induction plugins as [|p plugins IH]; intros n failures H; cbn [converge]; [by eexists|].
  assert (converge_one n p (default [] (groups !! p)) records active w = (inr (retained (decided p)), w)) as E.
  { unfold converge_one. specialize (H p (list_elem_of_here _ _)). destruct (decided p); cbn [retained]; [by rewrite H|by rewrite H|done]. }
  unfold mbind at 1, world_bind. rewrite E. apply IH. intros q Hq. apply H. by right.
Qed.
End Converge.

(** ** The version index *)

Lemma version_index s k r : named s → (indexRecords (plugin_records s)).1 !! k = Some r ↔
  ∃ n v row, db_plugins s !! (n, v) = Some row ∧ k = installationKey n v ∧ r = plugin_record s ((n, v), row).
Proof.
  intros Hs. split.
  - intros [Hr <-]%index_version. apply plugin_records_in in Hr as ([n v]&row&Hk&->). exists n, v, row. split_and!; [done| |done].
    destruct (plugin_record_fields s (n, v) row) as (En&Ev&_). unfold record_key. by rewrite En, Ev.
  - intros (n&v&row&Hk&->&->). destruct ((indexRecords (plugin_records s)).1 !! installationKey n v) as [r|] eqn:E.
    + apply index_version in E as [Hr Hkey]. apply plugin_records_in in Hr as ([n' v']&row'&Hk'&->).
      destruct (plugin_record_fields s (n', v') row') as (En&Ev&_). unfold record_key in Hkey. rewrite En, Ev in Hkey.
      destruct (Hs _ _ Hk') as [H1 H2]. apply key_inj in Hkey as [-> ->]; [|done|done]. cbn [fst snd] in Hk. rewrite Hk in Hk'. by injection Hk' as <-.
    + exfalso. assert (Hin : plugin_record s ((n, v), row) ∈ plugin_records s) by (apply plugin_records_in; eauto).
      revert Hin E. generalize (plugin_records s) as l. intros l Hin E.
      assert (is_Some ((indexRecords l).1 !! installationKey n v)) as [? ?]; [|congruence]. clear E.
      destruct (plugin_record_fields s (n, v) row) as (En&Ev&_).
      induction l as [|x l IH] using rev_ind; [by apply elem_of_nil in Hin|]. rewrite index_snoc. cbn [fst].
      destruct (decide (record_key x = installationKey n v)) as [->|Hne]; [by rewrite lookup_insert_eq|]. rewrite lookup_insert_ne by done.
      apply elem_of_app in Hin as [Hin|Hin%list_elem_of_singleton]; [by apply IH|]. subst x. unfold record_key in Hne. by rewrite En, Ev in Hne.
Qed.

(** Stores with the same bundles decide alike. *)
Definition same_record (r r' : PluginRecord) : Prop :=
  pv_name r' = pv_name r ∧ pv_version r' = pv_version r ∧ pv_digest r' = pv_digest r ∧ pv_manifest r' = pv_manifest r.
Lemma same_bundles_named s s' : same_bundles s s' → named s → named s'.
Proof. intros Hb Hs k row Hk. specialize (Hb k). rewrite Hk in Hb. destruct (db_plugins s !! k) as [row'|] eqn:E; [|done]. by apply (Hs k row'). Qed.
Lemma same_bundles_sym s s' : same_bundles s s' → same_bundles s' s.
Proof. intros H k. by rewrite H. Qed.
Lemma version_index_same s s' k r' : named s → same_bundles s s' → (indexRecords (plugin_records s')).1 !! k = Some r' →
  ∃ r, (indexRecords (plugin_records s)).1 !! k = Some r ∧ same_record r r'.
Proof.
  intros Hs Hb H. apply version_index in H as (n&v&row'&Hk&->&->); [|by eapply same_bundles_named].
  pose proof (Hb (n, v)) as E. rewrite Hk in E. destruct (db_plugins s !! (n, v)) as [row|] eqn:Er; [|done]. injection E as E1 E2.
  exists (plugin_record s ((n, v), row)). split; [apply version_index; eauto 10|].
  destruct (plugin_record_fields s (n, v) row) as (F1&F2&F3&F4&_), (plugin_record_fields s' (n, v) row') as (G1&G2&G3&G4&_).
  unfold same_record. rewrite F1, F2, F3, F4, G1, G2, G3, G4, E1, E2. done.
Qed.
Lemma exact_same s s' i r' : named s → same_bundles s s' → exactRecord i (indexRecords (plugin_records s')).1 = Some r' →
  ∃ r, exactRecord i (indexRecords (plugin_records s)).1 = Some r ∧ same_record r r'.
Proof.
  intros Hs Hb [Hk Hd]%exact_record. destruct (version_index_same s s' _ _ Hs Hb Hk) as (r&Hr&Hsame). exists r. split; [|done].
  unfold exactRecord. rewrite Hr. destruct Hsame as (_&_&Ed&_). by rewrite <- Ed, Hd, String.eqb_refl.
Qed.
Lemma decide_same s s' g : named s → same_bundles s s' →
  match decide_group g (indexRecords (plugin_records s')).1, decide_group g (indexRecords (plugin_records s)).1 with
  | Activate r', Activate r => same_record r r'
  | Deactivate, Deactivate => True
  | Retain f', Retain f => f' = f
  | _, _ => False
  end.
Proof.
  intros Hs Hb. unfold decide_group. destruct (enabledInstallations g) as [|i [|? ?]]; [done| |done].
  destruct (exactRecord i (indexRecords (plugin_records s')).1) as [r'|] eqn:E'.
  - destruct (exact_same s s' i r' Hs Hb E') as (r&->&Hsame). assert (incompatible r' = incompatible r) as -> by (unfold incompatible; by destruct Hsame as (_&_&_&->)).
    by destruct (incompatible r).
  - destruct (exactRecord i (indexRecords (plugin_records s)).1) as [r|] eqn:E; [|done].
    destruct (exact_same s' s i r (same_bundles_named _ _ Hb Hs) (same_bundles_sym _ _ Hb) E) as (?&?&_). congruence.
Qed.

(** An enabled installation is ready exactly when it is the only enabled one of its
    plugin, nothing failed, and its bundle is the compatible active version. *)
Lemma ready_status s group failures i : named s → is_enabled i = true →
  vd_ready (verdict_of group (indexRecords (plugin_records s)).1 (indexRecords (plugin_records s)).2 failures i) = true ↔
  (length (enabledInstallations group) <= 1)%nat ∧ failure_of failures i = None ∧
  ∃ r, active_record s (pi_plugin i.2) = Some r ∧ pv_version r = pi_version i.2 ∧ pv_digest r = pi_digest i.2 ∧ incompatible r = false.
Proof.
  intros Hs He. unfold verdict_of, is_active. rewrite He, active_index, andb_true_r. cbn [andb orb].
  destruct (1 <? length (enabledInstallations group))%nat eqn:E1; [apply Nat.ltb_lt in E1; split; [intros H; discriminate H|lia]|]. apply Nat.ltb_ge in E1.
  assert (Hkey : ∀ record r, (indexRecords (plugin_records s)).1 !! key_of i = Some record → active_record s (pi_plugin i.2) = Some r →
    pv_version r = pi_version i.2 → r = record).
  { intros record r Hk Hr Hv. apply version_index in Hk as (n&v&row&Hrow&Hk&->); [|done]. destruct (Hs _ _ Hrow) as [Hn Hno].
    apply symmetry, key_inj in Hk as [E2 E3]; [|done|done]. apply active_record_spec in Hr as (a&row'&_&Hrow'&->).
    destruct (plugin_record_fields s (pi_plugin i.2, av_version a) row') as (_&Ev&_). rewrite Hv in Ev. cbn [snd] in Ev.
    rewrite <- Ev in *. rewrite E2, E3 in *. congruence. }
  split.
  - destruct ((indexRecords (plugin_records s)).1 !! key_of i) as [record|] eqn:Er; [|done]. destruct (negb _) eqn:Ed; [done|].
    destruct (incompatible record) eqn:Ei; [done|]. destruct (failure_of failures i); [done|]. intros H. split_and!; [lia|done|].
    destruct (active_record s (pi_plugin i.2)) as [r|] eqn:Ea; [|done]. destruct (_ && _) eqn:Eb; [|done]. apply andb_true_iff in Eb as [Ev%String.eqb_eq Eg%String.eqb_eq].
    exists r. split_and!; [done|done|done|]. by rewrite (Hkey record r eq_refl eq_refl Ev).
  - intros (_&->&r&Hr&Hv&Hg&Hi). rewrite Hr. assert ((indexRecords (plugin_records s)).1 !! key_of i = Some r) as ->.
    { pose proof Hr as (a&row&_&Hrow&->)%active_record_spec. destruct (plugin_record_fields s (pi_plugin i.2, av_version a) row) as (_&Ev&_).
      apply version_index; [done|]. exists (pi_plugin i.2), (av_version a), row. split_and!; [done| |done]. unfold key_of. rewrite <- Hv, Ev. done. }
    by rewrite Hg, Hv, !String.eqb_refl, Hi.
Qed.

(** An activation of a decided version is the one of the record. *)
Lemma activated s p r : named s → (indexRecords (plugin_records s)).1 !! record_key r = Some r → pv_name r = p →
  active_version s p = Some (pv_version r) → same_activation ((indexRecords (plugin_records s)).2 !! p) r = true.
Proof.
  intros Hs Hr Hn Hv. rewrite active_index. unfold active_version in Hv. destruct (active_record s p) as [a|] eqn:Ea; [|done]. injection Hv as Hv.
  unfold same_activation. rewrite Hv, String.eqb_refl. cbn [andb]. apply String.eqb_eq.
  apply active_record_spec in Ea as (x&row&_&Hrow&->). apply version_index in Hr as (n&v&row2&Hrow2&_&->); [|done].
  destruct (plugin_record_fields s (n, v) row2) as (F1&F2&F3&_), (plugin_record_fields s (p, av_version x) row) as (_&G2&G3&_).
  rewrite F1 in Hn. rewrite F2, G2 in Hv. cbn [fst snd] in *. subst. rewrite F3, G3. congruence.
Qed.

(** ** A whole pass *)

Definition plugin_tables (s : Db) := (db_plugins s, db_activations s).
(** The others of a pass leave the plugin tables alone. *)
Definition quiet (env : Env) : Prop := ∀ i s, plugin_tables (others env i s) = plugin_tables s.
Definition keeps_tables {A} (p : Proc A) : Prop := ∀ s, plugin_tables (p s).2 = plugin_tables s.

Section Tables.
Context {cal : Calendar} {dig : Digest}.

Lemma tables_ret {A} (a : A) : keeps_tables (mret a).
Proof. done. Qed.
Lemma tables_fail {A} e : keeps_tables (proc_fail (A:=A) e).
Proof. done. Qed.
Lemma tables_lift {A} (r : res A) : keeps_tables (proc_lift r).
Proof. done. Qed.
Lemma tables_attempt {A} (p : Proc A) : keeps_tables p → keeps_tables (attempt p).
Proof. intros H s. specialize (H s). unfold attempt. by destruct (p s). Qed.
Lemma tables_bind {A B} (p : Proc A) (f : A → Proc B) : keeps_tables p → (∀ a, keeps_tables (f a)) → keeps_tables (p ≫= f).
Proof.
  intros Hp Hf s. specialize (Hp s). unfold mbind, proc_bind. destruct (p s) as [[e|a] s1]; simpl in *; [done|]. rewrite <- Hp. apply Hf.
Qed.
Lemma tables_call {A} env i (t : Tx A) : quiet env → (∀ s a s', t s = inr (a, s') → plugin_tables s' = plugin_tables s) →
  keeps_tables (call env i t).
Proof.
  intros He Ht s. unfold call. destruct (t (others env i s)) as [e|[a s']] eqn:E; simpl; [apply He|]. rewrite <- (He i s). by eapply Ht.
Qed.
Lemma tables_List env i kind ns limit : quiet env → keeps_tables (List_ env i kind ns limit).
Proof.
  intros He. unfold List_. apply tables_bind; [apply tables_call; [done|]|].
  - unfold list_rows. intros s a s' H. by tx_inv.
  - intros documents. apply tables_bind; [apply tables_call; [done|]|intros; apply tables_ret]. intros s a s' H. by tx_inv.
Qed.
Lemma tables_Apply doc o u q t s a s' : Apply doc o u q t s = inr (a, s') → plugin_tables s' = plugin_tables s.
Proof. intros H. by run_op H. Qed.
Lemma tables_UpdateResourceStatus k ns n g st now s a s' : UpdateResourceStatus k ns n g st now s = inr (a, s') → plugin_tables s' = plugin_tables s.
Proof. intros H. by run_op H. Qed.
End Tables.
Create HintDb tables.
#[export] Hint Resolve tables_ret tables_fail tables_lift tables_attempt tables_bind tables_call tables_List tables_Apply
  tables_UpdateResourceStatus : tables.

Lemma tables_bundles s s' : plugin_tables s' = plugin_tables s →
  same_bundles s s' ∧ (∀ p, active_version s' p = active_version s p) ∧ plugin_records s' = plugin_records s.
Proof.
  intros [= H1 H2]. destruct s, s'; simpl in *; subst. split_and!; [done|intros p|done].
  unfold active_version. f_equal. apply option_eq. intros r. by rewrite !active_record_spec.
Qed.

(** Follows the calls of a pass. *)
Ltac tables :=
  repeat match goal with
  | |- keeps_tables (_ ≫= _) => apply tables_bind; [|intros ?]
  | |- keeps_tables (match ?x with _ => _ end) => destruct x
  | |- keeps_tables (call _ _ _) => apply tables_call; [auto|eauto with tables]
  | |- keeps_tables (List_ _ _ _ _ _) => apply tables_List; auto
  end; auto with tables.

Section Pass.
Context {cal : Calendar} {dig : Digest} {R : Type} {runtime : PluginRuntime R} {laws : RuntimeLaws R runtime}.

Lemma tables_ensureProjections envs n records : (∀ i, quiet (envs i)) → keeps_tables (ensureProjections envs n records).
Proof. intros Hq. revert n. induction records as [|r records IH]; intros n; cbn [ensureProjections]; unfold ensureProjection; tables. Qed.
Lemma tables_write_statuses envs n l groups records active failures issues : (∀ i, quiet (envs i)) →
  keeps_tables (write_statuses envs n l groups records active failures issues).
Proof.
  intros Hq. revert n issues. induction l as [|i l IH]; intros n issues; cbn [write_statuses]; [tables|].
  destruct (installationStatus _ _ _ _ _) as [status issue]. apply tables_bind; [apply tables_attempt; tables|]. intros a. tables.
Qed.
Lemma tables_installations env n : quiet env → keeps_tables (installations env n).
Proof. intros Hq. unfold installations. tables. Qed.

(** What the enabled installations of [l] decide for a plugin. *)
Definition group_for (p : string) (l : list Installation) : list Installation := filter (λ i, of_plugin p i = true) l.
Definition decision_of (s : Db) (l : list Installation) (p : string) : decision := decide_group (group_for p l) (indexRecords (plugin_records s)).1.

Lemma groups_of l p : default [] (groupInstallations l !! p) = group_for p l.
Proof. rewrite groups_lookup. unfold group_for. by destruct (filter _ l). Qed.
Lemma groups_keys l p : p ∈ (map_to_list (groupInstallations l)).*1 ↔ group_for p l ≠ [].
Proof.
  rewrite list_elem_of_fmap. split.
  - intros ([q g]&->&Hin%elem_of_map_to_list). rewrite groups_lookup in Hin. unfold group_for. cbn. by destruct (filter _ l).
  - intros H. exists (p, group_for p l). split; [done|]. apply elem_of_map_to_list. rewrite groups_lookup. unfold group_for in *. by destruct (filter _ l).
Qed.
Lemma decision_names s l p r : named s → decision_of s l p = Activate r →
  pv_name r = p ∧ (indexRecords (plugin_records s)).1 !! record_key r = Some r.
Proof.
  intros Hs (i&Hi&[Hr _]%exact_record&_)%decide_activate.
  assert (Hp : pi_plugin i.2 = p).
  { assert (Hin : i ∈ enabledInstallations (group_for p l)) by (rewrite Hi; left). apply list_elem_of_filter in Hin as [_ [Hp _]%list_elem_of_filter].
    by apply String.eqb_eq in Hp. }
  pose proof Hr as Hr'. apply version_index in Hr as (n&v&row&Hrow&Hk&->); [|done]. destruct (plugin_record_fields s (n, v) row) as (En&Ev&_).
  unfold key_of in Hk. destruct (Hs _ _ Hrow) as [H1 H2]. symmetry in Hk. apply key_inj in Hk as [H3 H4]; [|done|done].
  unfold record_key. rewrite En, Ev. cbn [fst snd] in *. split; [congruence|]. rewrite <- Hr'. unfold key_of. congruence.
Qed.

(** Where the activation is the decided one, another pass has nothing to call. *)
Lemma decided_stable s s' l p : named s → same_bundles s s' →
  active_version s' p = wanted (decision_of s l p) (active_version s p) →
  match decision_of s' l p with
  | Activate r => same_activation ((indexRecords (plugin_records s')).2 !! p) r = true
  | Deactivate => (indexRecords (plugin_records s')).2 !! p = None
  | Retain _ => True
  end.
Proof.
  intros Hs Hb Ha. pose proof (decide_same s s' (group_for p l) Hs Hb) as Hd. change (decide_group (group_for p l) (indexRecords (plugin_records s')).1) with (decision_of s' l p) in Hd.
  change (decide_group (group_for p l) (indexRecords (plugin_records s)).1) with (decision_of s l p) in Hd.
  pose proof (same_bundles_named _ _ Hb Hs) as Hs'. destruct (decision_of s' l p) as [r'| |f'] eqn:E'; [| |done].
  - destruct (decision_of s l p) as [r| |f] eqn:E; [|done|done]. cbn in Ha. destruct Hd as (_&Ev&_). rewrite <- Ev in Ha.
    destruct (decision_names s' l p r' Hs' E') as [Hn Hk]. by apply activated.
  - destruct (decision_of s l p) as [r| |f] eqn:E; [done| |done]. cbn in Ha. rewrite active_index. unfold active_version in Ha. by destruct (active_record s' p).
Qed.
Lemma stable_pass s w' l plugins n failures : named s → same_bundles s w'.1 →
  (∀ p, p ∈ plugins → active_version w'.1 p = wanted (decision_of s l p) (active_version s p)) →
  ∃ fs, converge n plugins (groupInstallations l) (indexRecords (plugin_records w'.1)).1 (indexRecords (plugin_records w'.1)).2 failures w' = (inr fs, w').
Proof. intros Hs Hb Ha. apply converge_stable. intros p Hp. rewrite groups_of. exact (decided_stable s w'.1 l p Hs Hb (Ha p Hp)). Qed.

(** The pass as a whole. *)
Lemma reconcile_inv env order w issues w' : reconcileLocked env order w = (inr issues, w') →
  ∃ l failures s1 s2 w3 diagnostics, ensureProjections (pe_projections env) 0 (plugin_records w.1) w.1 = (inr tt, s1) ∧
    installations (pe_reads env) 0 s1 = (inr l, s2) ∧
    converge 0 (order (map_to_list (groupInstallations l)).*1) (groupInstallations l) (indexRecords (plugin_records w.1)).1
      (indexRecords (plugin_records w.1)).2 ∅ (s2, w.2) = (inr failures, w3) ∧
    write_statuses (pe_statuses env) 0 l (groupInstallations l) (indexRecords (plugin_records w3.1)).1 (indexRecords (plugin_records w3.1)).2
      (health_failures diagnostics failures) ∅ (rt_Health 0 w3).2.1 = (inr issues, w'.1) ∧ diagnostics = (rt_Health 0 w3).1.
Proof.
  unfold reconcileLocked, mbind, world_bind. rewrite law_List. unfold ok, fail, on_store at 1. cbv beta iota.
  destruct (ensureProjections _ 0 _ w.1) as [[e|[]] s1] eqn:E1; [done|]. cbv beta iota. cbn [fst snd].
  unfold on_store at 1. destruct (installations (pe_reads env) 0 _) as [[e|l] s2] eqn:E2; [done|]. cbv beta iota. cbn [fst snd].
  destruct (indexRecords (plugin_records w.1)) as [byVersion active] eqn:Ei.
  destruct (converge 0 _ _ _ _ _ _) as [[e|failures] w3] eqn:E3; [done|]. rewrite law_List. cbv beta iota delta [ok].
  destruct (indexRecords (plugin_records w3.1)) as [byVersion3 active3] eqn:Ei3. unfold probe. cbv beta.
  destruct (rt_Health 0 w3) as [diagnostics w4] eqn:Eh. unfold on_store. cbv beta iota delta [ok]. cbn [fst snd].
  match goal with |- context [write_statuses ?a ?b ?c ?d ?e ?f ?g ?h w4.1] => destruct (write_statuses a b c d e f g h w4.1) as [r s5] eqn:E5 end.
  intros [= -> <-]. exists l, failures, s1, s2, w3, diagnostics. rewrite Ei3, Eh. cbn [fst snd]. split_and!; [done|exact E2|exact E3|exact E5|done].
Qed.

(** The environments of a pass in which the others leave the plugin tables alone. *)
Definition quiet_pass (env : PassEnv) : Prop := (∀ i, quiet (pe_projections env i)) ∧ quiet (pe_reads env) ∧ ∀ i, quiet (pe_statuses env i).
(** The installations a pass reads. *)
Definition observed (env : PassEnv) (s : Db) : res (list Installation) :=
  (installations (pe_reads env) 0 (ensureProjections (pe_projections env) 0 (plugin_records s) s).2).1.

(** The pass as its record tells it: the calls for the plugins in turn, from the
    store [s2] of the reads to [w3], the failures they left, the probe, and the
    status writes with these failures. *)
Definition passed (env : PassEnv) (order : list string → list string) (w : Db * R) (l : list Installation)
    (failures : gmap string statusFailure) (issues : gmap string HealthDiagnostic) (s2 : Db) (w3 w' : Db * R) : Prop :=
  observed env w.1 = inr l ∧ plugin_tables s2 = plugin_tables w.1 ∧
  converge 0 (order (map_to_list (groupInstallations l)).*1) (groupInstallations l) (indexRecords (plugin_records w.1)).1
    (indexRecords (plugin_records w.1)).2 ∅ (s2, w.2) = (inr failures, w3) ∧
  write_statuses (pe_statuses env) 0 l (groupInstallations l) (indexRecords (plugin_records w3.1)).1 (indexRecords (plugin_records w3.1)).2
    (health_failures (rt_Health 0 w3).1 failures) ∅ (rt_Health 0 w3).2.1 = (inr issues, w'.1).
(** The call of the pass for a plugin, made where the calls for the plugins before
    it left the world, failed. *)
Definition own_call_failed (order : list string → list string) (w : Db * R) (l : list Installation) (s2 : Db) (p : string)
    (f : option statusFailure) : Prop :=
  let groups := groupInstallations l in let records := indexRecords (plugin_records w.1) in
  let plugins := order (map_to_list groups).*1 in
  ∃ n f1 w1, plugins !! n = Some p ∧ converge 0 (take n plugins) groups records.1 records.2 ∅ (s2, w.2) = (inr f1, w1) ∧
    call_failed groups records.1 records.2 n p f w1.

(** Every plugin has the activation its installations ask for, or its call failed
    and nothing changed for it. *)
Lemma pass_outcome env order w issues w' : quiet_pass env → named w.1 → (∀ l, order l ≡ₚ l) → reconcileLocked env order w = (inr issues, w') →
  ∃ l failures s2 w3, passed env order w l failures issues s2 w3 w' ∧ same_bundles w.1 w'.1 ∧
    (∀ p, group_for p l ≠ [] →
       failures !! p = retained (decision_of w.1 l p) ∧ active_version w'.1 p = wanted (decision_of w.1 l p) (active_version w.1 p) ∨
       own_call_failed order w l s2 p (failures !! p) ∧ active_version w'.1 p = active_version w.1 p) ∧
    (∀ p, group_for p l = [] → active_version w'.1 p = active_version w.1 p).
Proof.
  intros (Hq1&Hq2&Hq3) Hs Hord H. apply reconcile_inv in H as (l&failures&s1&s2&w3&diagnostics&E1&E2&E3&E5&->).
  pose proof (tables_ensureProjections _ 0 (plugin_records w.1) Hq1 w.1) as T1. rewrite E1 in T1. cbn [snd] in T1.
  pose proof (tables_installations _ 0 Hq2 s1) as T2. rewrite E2 in T2. cbn [snd] in T2. rewrite T1 in T2.
  destruct (tables_bundles _ _ T2) as (B2&A2&_).
  pose proof (tables_write_statuses (pe_statuses env) 0 l (groupInstallations l) (indexRecords (plugin_records w3.1)).1
    (indexRecords (plugin_records w3.1)).2 (health_failures (rt_Health 0 w3).1 failures) ∅ Hq3 (rt_Health 0 w3).2.1) as T5. rewrite E5 in T5. cbn [snd] in T5.
  destruct (tables_bundles _ _ T5) as (B5&A5&_). destruct (law_Health 0 w3) as (_&BH&AH).
  destruct (converge_outcome (groupInstallations l) (indexRecords (plugin_records w.1)).1 (indexRecords (plugin_records w.1)).2
    (λ p r, λ E, proj1 (decision_names w.1 l p r Hs (eq_trans (f_equal (λ g, decide_group g _) (eq_sym (groups_of l p))) E)))
    (order (map_to_list (groupInstallations l)).*1) 0 ∅ (s2, w.2)) as (fs&w3'&E3'&_&B3&Hin&Hout).
  - rewrite Hord. apply NoDup_fst_map_to_list.
  - intros p _. rewrite active_index. cbn [fst]. by rewrite A2.
  - intros p _. apply lookup_empty.
  - rewrite E3 in E3'. injection E3' as <- <-. exists l, failures, s2, w3. split_and!.
    + split_and!; [|done|done|done]. unfold observed. rewrite E1. cbn [snd]. by rewrite E2.
    + intros k. cbn [fst] in B3. by rewrite (B5 k), (BH k), (B3 k), (B2 k).
    + intros p Hp. rewrite A5, AH. specialize (Hin p ltac:(by rewrite Hord, groups_keys)). unfold as_decided in Hin. cbn [fst] in Hin.
      rewrite groups_of, A2 in Hin. destruct Hin as [Hin|(n&f1&w1&Hn&En&Hc&Hv)]; [by left|right]. split; [|done]. by exists n, f1, w1.
    + intros p Hp. rewrite A5, AH. destruct (Hout p) as [_ ->]; [rewrite Hord, groups_keys; intros Hne; by apply Hne|]. cbn [fst]. apply A2.
Qed.
End Pass.
