(* ===== verification/ManagerAdmin.v ===== *)
(** [internal/pluginmanager/manager.go], the control plane: installing, enabling and
    disabling plugin versions, the table of supervised processes, health, doctor,
    call limits and the registry of active calls.

    Programs of the manager run in the [World] of the plugin controller: the
    database and the manager's own state ([Manager]).  Processes are the class
    [ProcessHost]; what it answers may differ from call to call, so every call of it
    is numbered by the clock of the manager.  The mutexes make the table updates
    atomic; closing a process is not modelled, nor are the file operations of an
    installation other than its version directory. *)

From Stdlib Require Import Ascii.
From Stdlib Require String.
From S2P Require Import Prelude.
From S2P Require Import Json.
From S2P Require Import GoStd.
From S2P Require Import Resource.
From S2P Require Import Plan.
From S2P Require Import ActionContract.
From S2P Require Import PluginMapping.
From S2P Require Import ResourceJson.
From S2P Require Import Db.
From S2P Require Import StoreRuns.
From S2P Require Import StoreResources.
From S2P Require Import StoreOutbox.
From S2P Require Import StorePlugins.
From S2P Require Import PluginContract.
From S2P Require Import FlowCompiler.
From S2P Require Import PluginSchema.
From S2P Require Import PluginBundle.
From S2P Require Import Proc.
From S2P Require Import EngineNode.
From S2P Require Import ManagerBind.
From S2P Require Import Redact.
From S2P Require Import ManagerRun.
From S2P Require Import ManagerStream.
From S2P Require Import Orchestrator.
From S2P Require Import PluginController.

Local Open Scope Z_scope.

(** ** Call limits *)

Record callLimiter := mkLimiter { cl_name : string; cl_maximum : Z; cl_active : Z; cl_waiting : Z }.
Definition newCallLimiter (name : string) (maximum : Z) : callLimiter := mkLimiter name maximum 0 0.
(** [acquire]: wait; a token or the end of the context; [release]. *)
Definition limiter_wait (l : callLimiter) : callLimiter := mkLimiter (cl_name l) (cl_maximum l) (cl_active l) (cl_waiting l + 1).
Definition limiter_grant (l : callLimiter) : option callLimiter :=
  if cl_active l <? cl_maximum l then Some (mkLimiter (cl_name l) (cl_maximum l) (cl_active l + 1) (cl_waiting l - 1)) else None.
Definition limiter_abandon (l : callLimiter) : callLimiter := mkLimiter (cl_name l) (cl_maximum l) (cl_active l) (cl_waiting l - 1).
Definition limiter_release (l : callLimiter) : callLimiter := mkLimiter (cl_name l) (cl_maximum l) (cl_active l - 1) (cl_waiting l).

(** The limits of [NewWithLimits]. *)
Definition activity_limit (activities : Z) : Z := if activities <? 1 then 1 else activities.
Definition agent_limit (activities agents : Z) : Z :=
  let activities := activity_limit activities in if (agents <? 1) || (activities <? agents) then activities else agents.

(** ** The manager *)

(** [ph_start]: a negotiated process and its description; [ph_health]: readiness
    and message. *)
Class ProcessHost (P : Type) := {
  ph_start : nat → string → string → string + (P * DescribeResponse);
  ph_health : nat → P → string + (bool * string);
  ph_exited : nat → P → bool }.

Record activeCall := mkActiveCall { ac_run : string; ac_kind : string; ac_cancelled : option string }.
Record Manager (P : Type) := mkManager {
  mg_processes : gmap string P; mg_clock : nat; mg_directories : Directories; mg_active : gmap string activeCall;
  mg_activities : callLimiter; mg_agents : callLimiter }.
Arguments mkManager {P}.
Arguments mg_processes {P}. Arguments mg_clock {P}. Arguments mg_directories {P}. Arguments mg_active {P}.
Arguments mg_activities {P}. Arguments mg_agents {P}.
Definition NewWithLimits {P} (activities agents : Z) : Manager P :=
  mkManager ∅ 0 ∅ ∅ (newCallLimiter "activities" (activity_limit activities)) (newCallLimiter "agents" (agent_limit activities agents)).

Section Admin.
Context {cal : Calendar} {dig : Digest} {semver : Semver} {schemas : SdkSchemas} {sha : Sha256} {archives : Archives}.
Context {P : Type} {processes : ProcessHost P}.
Context (targetOS targetArch root : string).
Abbreviation M A := (World (Manager P) A).

Definition world_fail {R A} (e : Err) : World R A := λ w, (fail e, w).
Definition text_error {R A} (message : string) : World R A := world_fail (ErrMsg message).
Definition lift_text {R A} (r : string + A) : World R A := match r with inl e => text_error e | inr a => mret a end.
(** The number of a call of the process host. *)
Definition moment : M nat := λ w,
  let m := w.2 in
  (ok (mg_clock m), (w.1, mkManager (mg_processes m) (S (mg_clock m)) (mg_directories m) (mg_active m) (mg_activities m) (mg_agents m))).
Definition set_processes (f : gmap string P → gmap string P) : M unit := λ w,
  let m := w.2 in
  (ok tt, (w.1, mkManager (f (mg_processes m)) (mg_clock m) (mg_directories m) (mg_active m) (mg_activities m) (mg_agents m))).
Definition process_of (key : string) : M (option P) := λ w, (ok (mg_processes w.2 !! key), w).

(** [pluginhost.Launch]. *)
Definition host_Launch (executable binaryDigest : string) : M (P * DescribeResponse) :=
  if negb (StoreRuns.sha256_hex binaryDigest) then text_error "plugin binary digest is invalid" else
  n ← moment; lift_text (ph_start n executable binaryDigest).

Definition executable_path (record : PluginRecord) : string := root +:+ "/" +:+ pv_name record +:+ "/" +:+ pv_version record +:+ "/plugin".
Definition legacy (record : PluginRecord) : bool := String.eqb (pv_contract record) "" && String.eqb (pv_contractDigest record) "".
Definition incomplete (record : PluginRecord) : bool := String.eqb (pv_contract record) "" || String.eqb (pv_contractDigest record) "".
(** Start the binary of an installation and compare it with its manifest. *)
Definition start_installed (record : PluginRecord) : M (P * DescribeResponse) :=
  manifest ← lift_text match decode_manifest (pv_manifest record) with Some m => inr m | None => inl decode_error end;
  platform ← lift_text (platform_for manifest targetOS targetArch);
  pd ← host_Launch (executable_path record) (pf_sha256 platform);
  if negb (String.eqb (dr_name pd.2) (pv_name record)) || negb (String.eqb (dr_version pd.2) (pv_version record))
  then text_error "running plugin identity does not match installation"
  else if negb (sameCapabilities (dr_capabilities pd.2) (mf_capabilities manifest))
  then text_error "running plugin capabilities do not match installation"
  else mret pd.
Definition with_contract (record : PluginRecord) (contract : Contract) (digest : string) : PluginRecord :=
  mkPluginRecord (pv_name record) (pv_version record) (pv_digest record) (pv_manifest record) (contract_text contract) digest
    (pv_state record) (pv_installed record) (pv_active record).
Definition ensureContract (env : Env) (record : PluginRecord) : M PluginRecord :=
  if negb (String.eqb (pv_contract record) "") && negb (String.eqb (pv_contractDigest record) "") then mret record
  else if negb (String.eqb (pv_contract record) "") || negb (String.eqb (pv_contractDigest record) "")
  then text_error "installed plugin action contract metadata is incomplete"
  else
    pd ← start_installed record;
    cd ← lift_text match ValidateDescription (Some pd.2) with inl e => inl ("validate running plugin action contract: " +:+ e) | inr r => inr r end;
    on_store (call env 0 (PutPlugin (with_contract record cd.1 cd.2) (Some (pv_installed record)) (now_at env 0))) ≫= λ _,
    on_store (call env 1 (Plugin (pv_name record) (pv_version record))).
Definition launch (env : Env) (record : PluginRecord) : M P :=
  if negb (legacy record) && incomplete record then text_error "installed plugin action contract metadata is incomplete" else
  adopted ← (if legacy record then world_attempt (ensureContract env record) else mret (fail ErrNotFound));
  let record' := match adopted with inr adopted => adopted | inl _ => record end in
  let legacyContract := legacy record && (if adopted is inl _ then true else false) in
  pd ← start_installed record';
  if legacyContract then mret pd.1 else
  match ValidateDescription (Some pd.2) with
  | inl e => text_error ("validate running plugin action contract: " +:+ e)
  | inr (_, digest) =>
      if negb (String.eqb digest (pv_contractDigest record')) then text_error "running plugin action contract does not match the immutable installation"
      else mret pd.1
  end.

(** Processes of the other versions of [name]. *)
Definition other_version (name key candidate : string) : bool := has_prefix candidate (name +:+ "@") && negb (String.eqb candidate key).
Definition not_ready (name version message : string) : string := "plugin " +:+ name +:+ "@" +:+ version +:+ " is not ready: " +:+ message.
Definition Enable (env : Env) (name version : string) : M unit :=
  record ← on_store (call env 2 (Plugin name version));
  process ← launch env record;
  n ← moment;
  match ph_health n process with
  | inl e => text_error e
  | inr (false, message) => text_error (not_ready name version message)
  | inr (true, _) =>
      on_store (call env 3 (ActivatePlugin name version (stamp env 3))) ≫= λ _,
      let key := installationKey name version in
      set_processes (λ m, <[key := process]> (filter (λ kp, other_version name key kp.1 = false) m))
  end.
Definition evict (key : string) : M unit := set_processes (delete key).
Definition Disable (env : Env) (name : string) : M unit :=
  record ← on_store (call env 0 (Plugin name ""));
  on_store (call env 1 (DisablePlugin name)) ≫= λ _,
  evict (installationKey name (pv_version record)).
Definition List_plugins (env : Env) : M (list PluginRecord) := on_store (call env 0 ListPlugins).
Definition Describe_plugin (env : Env) (name version : string) : M PluginRecord := on_store (call env 0 (Plugin name version)).

(** ** Processes and health *)

(** The process of the table unless it has exited. *)
Definition running (key : string) : M (option P) :=
  p ← process_of key;
  match p with
  | None => mret None
  | Some p => n ← moment; mret (if ph_exited n p then None else Some p)
  end.
Definition processForRecord (env : Env) (record : PluginRecord) : M P :=
  let key := installationKey (pv_name record) (pv_version record) in
  existing ← running key;
  match existing with
  | Some p => mret p
  | None =>
      process ← launch env record;
      existing ← running key;
      match existing with
      | Some p => mret p
      | None => set_processes (<[key := process]>) ≫= λ _, mret process
      end
  end.
Definition removeExitedProcess (key : string) : M bool :=
  p ← process_of key;
  match p with
  | None => mret false
  | Some p => n ← moment; if ph_exited n p then evict key ≫= λ _, mret true else mret false
  end.
Definition plugin_path (record : PluginRecord) : string := "plugins/" +:+ pv_name record +:+ "@" +:+ pv_version record.
Definition checkActivePlugin (env : Env) (record : PluginRecord) : M (option HealthDiagnostic) :=
  let path := plugin_path record in
  exited ← removeExitedProcess (installationKey (pv_name record) (pv_version record));
  if exited : bool then mret (Some (mkHealth path "process_exited" "active plugin process exited; the next health probe will attempt restart")) else
  process ← world_attempt (processForRecord env record);
  match process with
  | inl _ => mret (Some (mkHealth path "unavailable" "active plugin is unavailable; inspect daemon logs"))
  | inr process =>
      n ← moment;
      mret match ph_health n process with
      | inl _ => Some (mkHealth path "rpc_failed" "active plugin health RPC failed; inspect daemon logs")
      | inr (true, _) => None
      | inr (false, _) => Some (mkHealth path "not_ready" "active plugin reported that it is not ready")
      end
  end.
Definition diagnostic_order : HealthDiagnostic → HealthDiagnostic → comparison := lexc (onc hd_path str_cmp) (onc hd_code str_cmp).
Definition sortHealthDiagnostics (l : list HealthDiagnostic) : list HealthDiagnostic := sort_by diagnostic_order l.
Fixpoint check_plugins (envs : nat → Env) (n : nat) (active : list PluginRecord) : M (list (option HealthDiagnostic)) :=
  match active with
  | [] => mret []
  | record :: active => d ← checkActivePlugin (envs n) record; l ← check_plugins envs (S n) active; mret (d :: l)
  end.
Definition saturated (l : callLimiter) : list HealthDiagnostic :=
  if 0 <? cl_waiting l
  then [mkHealth ("capacity/" +:+ cl_name l) "saturated" "configured execution capacity is saturated; queued work is waiting"] else [].
(** The probes of one call, in the order in which they answer; [answered] of them
    do before the deadline. *)
Definition HealthDiagnostics (envs : nat → Env) (arrival : list PluginRecord → list PluginRecord) (answered : nat) : M (list HealthDiagnostic) := λ w,
  let capacity := saturated (mg_activities w.2) ++ saturated (mg_agents w.2) in
  let '(records, s) := call (envs 0%nat) 0 ListPlugins w.1 in
  match records with
  | inl _ => (ok (capacity ++ [mkHealth "plugins" "state_unavailable" "plugin activation state is unavailable; inspect daemon logs"]), (s, w.2))
  | inr records =>
      let active := filter (λ r, pv_active r = true) records in
      match active with
      | [] => (ok capacity, (s, w.2))
      | _ =>
          (results ← check_plugins envs 1 (arrival active);
           let found := omap id (take answered results) in
           let late := if (answered <? length active)%nat
             then [mkHealth "plugins" "probe_timeout" "active plugin health checks exceeded their bounded deadline"] else [] in
           mret (sortHealthDiagnostics (capacity ++ found ++ late))) (s, w.2)
      end
  end.

(** ** Installation *)

Definition set_directories (d : Directories) : M unit := λ w,
  let m := w.2 in (ok tt, (w.1, mkManager (mg_processes m) (mg_clock m) d (mg_active m) (mg_activities m) (mg_agents m))).
Definition publish (m : Manifest) (digest : string) : M bool := λ w,
  let '(r, d) := Publish m digest (mg_directories w.2) in
  match r with inl e => (fail (ErrMsg e), w) | inr published => (ok published, (set_directories d w).2) end.
Definition remove_directory (m : Manifest) : M unit := λ w, set_directories (delete (mf_name m, mf_version m) (mg_directories w.2)) w.
Definition staged_executable (m : Manifest) : string := root +:+ "/" +:+ mf_name m +:+ "/.install/plugin".

Definition platform_json (p : Platform) : json :=
  JObj [("os", JStr (pf_os p)); ("arch", JStr (pf_arch p)); ("path", JStr (pf_path p)); ("sha256", JStr (pf_sha256 p))].
(** [json.Marshal(manifest)]; a validated manifest has no empty list. *)
Definition manifest_json (m : Manifest) : json :=
  JObj [("apiVersion", JStr (mf_apiVersion m)); ("name", JStr (mf_name m)); ("version", JStr (mf_version m));
    ("protocol", JObj [("minimum", JNum (itoa (pt_minimum (mf_protocol m)))); ("maximum", JNum (itoa (pt_maximum (mf_protocol m))))]);
    ("capabilities", JArr (JStr <$> mf_capabilities m)); ("platforms", JArr (platform_json <$> mf_platforms m))].
(** The last steps: publish the directory, store the record or take the directory
    back. *)
Definition store_installation (env : Env) (manifest : Manifest) (digest : string) (record : PluginRecord) : M PluginRecord :=
  published ← publish manifest digest;
  stored ← world_attempt (on_store (call env 0 (PutPlugin record None (now_at env 0))));
  match stored with
  | inl e => (if published : bool then remove_directory manifest else mret tt) ≫= λ _, world_fail e
  | inr _ => on_store (call env 1 (Plugin (mf_name manifest) (mf_version manifest)))
  end.
Definition Install (env : Env) (bundle : string) : M PluginRecord :=
  parsed ← lift_text (ParseForPlatform bundle targetOS targetArch);
  let '(manifest, _, digest) := parsed in
  if (1 <? pt_minimum (mf_protocol manifest)) || (pt_maximum (mf_protocol manifest) <? 1)
  then text_error ("plugin protocol range " +:+ itoa (pt_minimum (mf_protocol manifest)) +:+ "-" +:+ itoa (pt_maximum (mf_protocol manifest))
                   +:+ " is incompatible with host protocol 1") else
  platform ← lift_text (platform_for manifest targetOS targetArch);
  pd ← host_Launch (staged_executable manifest) (pf_sha256 platform);
  if negb (String.eqb (dr_name pd.2) (mf_name manifest)) || negb (String.eqb (dr_version pd.2) (mf_version manifest))
  then text_error ("plugin identity " +:+ dr_name pd.2 +:+ "@" +:+ dr_version pd.2 +:+ " does not match manifest " +:+ mf_name manifest +:+ "@" +:+ mf_version manifest)
  else if negb (sameCapabilities (dr_capabilities pd.2) (mf_capabilities manifest)) then text_error "plugin capabilities do not match manifest" else
  cd ← lift_text match ValidateDescription (Some pd.2) with inl e => inl ("validate plugin action contract: " +:+ e) | inr r => inr r end;
  let record := mkPluginRecord (mf_name manifest) (mf_version manifest) digest (marshal (manifest_json manifest)) (contract_text cd.1) cd.2 "installed" 0 false in
  store_installation env manifest digest record.

(** ** Active calls *)

Definition set_active (f : gmap string activeCall → gmap string activeCall) (m : Manager P) : Manager P :=
  mkManager (mg_processes m) (mg_clock m) (mg_directories m) (f (mg_active m)) (mg_activities m) (mg_agents m).
Definition registerActiveCall (request run kind : string) : Manager P → Manager P := set_active (<[request := mkActiveCall run kind None]>).
(** The entry is removed when it is still the call's own. *)
Definition releaseActiveCall (request : string) : Manager P → Manager P := set_active (delete request).
(** Once: a later reason does not replace the first. *)
Definition cancelProviderCall (reason : string) (c : activeCall) : activeCall :=
  mkActiveCall (ac_run c) (ac_kind c) (match ac_cancelled c with Some r => Some r | None => Some reason end).
Definition CancelRun (run reason : string) : Manager P → Manager P :=
  set_active (fmap (λ c, if String.eqb (ac_run c) run then cancelProviderCall reason c else c)).
Definition Close (m : Manager P) : Manager P :=
  mkManager ∅ (mg_clock m) (mg_directories m) (mg_active m) (mg_activities m) (mg_agents m).
End Admin.

(** ** Secrets and doctor *)

(** [os.Stat]: whether a file is regular, and its size. *)
Class FileStat := Stat : string → option (bool * Z).
Definition SecretStatus {cal : Calendar} {host : Host} {files : FileStat} (s : Db) (namespace name : string) : string * string :=
  match lookup s "SecretRef" namespace name with
  | inl _ => ("Missing", "unknown")
  | inr document =>
      match DecodeSecretRef document with
      | inl _ => ("Missing", "unknown")
      | inr reference =>
          let backend := sr_backend reference.2 in
          if String.eqb backend "env" || String.eqb backend "environment" then
            match LookupEnv (sr_key reference.2) with
            | Some value => if String.eqb value "" then ("Missing", "env") else ("Configured", "env")
            | None => ("Missing", "env")
            end
          else if String.eqb backend "file" then
            match Stat (sr_key reference.2) with
            | Some (true, size) => if (0 <? size) && (size <=? maxSecretSize) then ("Configured", "file") else ("Missing", "file")
            | _ => ("Missing", "file")
            end
          else ("Missing", backend)
      end
  end.

(** The error of a doctor stream. *)
Fixpoint drain_from (redactions : list string) (expected : Z) (terminal : string) (events : list ExecuteEvent) (e : StreamEnd) : option string :=
  match events with
  | [] =>
      match e with
      | EndOfStream =>
          if String.eqb terminal "" then Some "doctor stream ended without completion"
          else if failed_type terminal then Some "doctor command failed" else None
      | StreamError code message _ =>
          let sanitized := status_text code (redact message redactions) in
          Some (if String.eqb terminal "" then sanitized
                else if failed_type terminal then "doctor command failed: " +:+ sanitized
                else "doctor stream did not end immediately after completion: " +:+ sanitized)
      end
  | event :: events =>
      if negb (String.eqb terminal "") then Some "doctor stream emitted an event after completion"
      else if negb (xe_sequence event =? expected) || String.eqb (trim_space (xe_type event)) "" || negb (bool_decide (is_Some (xe_occurredAt event)))
              || negb (valid (xe_payload event)) then Some "doctor stream sequence is malformed"
      else drain_from redactions (expected + 1) (if terminal_type (xe_type event) then xe_type event else terminal) events e
  end.
Definition drainDoctor (stream : Stream) (redactions : list string) : option string := drain_from redactions 1 "" (sm_events stream) (sm_end stream).

Definition doctor_input : string := marshal (mkobj [("doctor", JBool true)]).
(** The check of one profile with the process of [record]. *)
Definition doctor_profile {cal : Calendar} {host : Host} {plugins : PluginHost} (s : Db) (record : PluginRecord) (profile : ObjectMeta * AgentProfileSpec) : option string :=
  match resolveProfileSecrets s (m_namespace profile.1) (a_secretRefs profile.2) [] with
  | inl e => Some ("agent profile " +:+ m_name profile.1 +:+ ": " +:+ e)
  | inr secrets =>
      match StartAgent record (mkExecuteRequest "" (a_type profile.2) (spec_text (SpecAgentProfile profile.2)) doctor_input "" secrets) with
      | inl e => Some ("agent profile " +:+ m_name profile.1 +:+ " authentication: " +:+ ee_text e)
      | inr stream =>
          match drainDoctor stream (secretValues secrets) with
          | Some e => Some ("agent profile " +:+ m_name profile.1 +:+ " authentication: " +:+ e)
          | None => None
          end
      end
  end.
Fixpoint doctor_profiles {cal : Calendar} {host : Host} {plugins : PluginHost} (s : Db) (record : PluginRecord) (documents : list Document) : res unit :=
  match documents with
  | [] => ok tt
  | document :: documents =>
      profile ← DecodeAgentProfile document;
      match doctor_profile s record profile with
      | Some e => fail (ErrMsg e)
      | None => doctor_profiles s record documents
      end
  end.
Definition check_profiles {R} {cal : Calendar} {host : Host} {plugins : PluginHost} (record : PluginRecord) (documents : list Document) : World R unit :=
  λ w, (doctor_profiles w.1 record documents, w).
Definition Doctor {cal : Calendar} {semver : Semver} {schemas : SdkSchemas} {sha : Sha256} {P : Type} {processes : ProcessHost P} {host : Host} {plugins : PluginHost}
    (targetOS targetArch root : string) (env : Env) (name version : string) : World (Manager P) unit :=
  record ← on_store (call env 2 (Plugin name version));
  process ← launch targetOS targetArch root env record;
  n ← moment;
  match ph_health n process with
  | inl e => text_error e
  | inr (false, message) => text_error ("plugin is not ready: " +:+ message)
  | inr (true, _) =>
      if negb (String.eqb name "agent-command") then mret tt else
      documents ← on_store (List_ env 3 "AgentProfile" "" 1000);
      check_profiles record documents.1
  end.

(** ** The manager as the controller's runtime *)

(** What the calls of a pass draw. *)
Record ManagerEnv := mkManagerEnv {
  me_list : nat → Env; me_enable : nat → Env; me_disable : nat → Env; me_health : nat → Env;
  me_arrival : list PluginRecord → list PluginRecord; me_answered : nat }.
Definition manager_runtime {cal : Calendar} {dig : Digest} {semver : Semver} {schemas : SdkSchemas} {sha : Sha256} {P : Type} {processes : ProcessHost P}
    (targetOS targetArch root : string) (env : ManagerEnv) : PluginRuntime (Manager P) := {|
  rt_List n := List_plugins (me_list env n);
  rt_Enable n := Enable targetOS targetArch root (me_enable env n);
  rt_Disable n := Disable (me_disable env n);
  rt_Health n w :=
    let '(r, w) := HealthDiagnostics targetOS targetArch root (me_health env) (me_arrival env) (me_answered env) w in
    (match r with inr l => l | inl _ => [] end, w) |}.

(** * The control plane of the plugin manager: it is a runtime for the plugin
       controller, installations are immutable, calls stay within their limits. *)

From S2P Require Import StoreStep.

(** ** Stores that differ in plugin states and contracts only *)

Record similar (s s' : Db) : Prop := {
  sim_resources : db_resources s' = db_resources s;
  sim_bundles : same_bundles s s';
  sim_activations : db_activations s' = db_activations s }.
Lemma similar_refl s : similar s s.
Proof. done. Qed.
Lemma similar_trans s1 s2 s3 : similar s1 s2 → similar s2 s3 → similar s1 s3.
Proof. intros [A1 A2 A3] [B1 B2 B3]. split; [congruence| |congruence]. intros k. by rewrite (B2 k), (A2 k). Qed.

Lemma active_version_spec s p : active_version s p = (a ← db_activations s !! p; _ ← db_plugins s !! (p, av_version a); Some (av_version a)).
Proof.
  unfold active_version, active_record, result, Plugin, tx_row. simpl. destruct (db_activations s !! p) as [a|]; [|done]. simpl.
  by destruct (db_plugins s !! (p, av_version a)).
Qed.
Lemma same_bundles_row s s' k : same_bundles s s' → (is_Some (db_plugins s' !! k) ↔ is_Some (db_plugins s !! k)).
Proof. intros H. rewrite <- !(fmap_is_Some bundle). by rewrite (H k). Qed.
Lemma same_active s s' q : same_bundles s s' → db_activations s' !! q = db_activations s !! q → active_version s' q = active_version s q.
Proof.
  intros Hb Ha. rewrite !active_version_spec, Ha. destruct (db_activations s !! q) as [a|]; [|done]. simpl.
  pose proof (same_bundles_row s s' (q, av_version a) Hb) as H. destruct (db_plugins s' !! _) eqn:E1, (db_plugins s !! _) eqn:E2; try done; exfalso.
  - destruct H as [H _]. by destruct H.
  - destruct H as [_ H]. by destruct H.
Qed.
Lemma similar_active s s' q : similar s s' → active_version s' q = active_version s q.
Proof. intros [_ Hb Ha]. apply same_active; [done|by rewrite Ha]. Qed.

(** ** Programs that leave a similar store *)

Definition still (env : Env) : Prop := ∀ i s, others env i s = s.
Definition has_rows (keys : list (string * string)) (s : Db) : Prop := ∀ k, k ∈ keys → is_Some (db_plugins s !! k).
Lemma has_rows_similar keys s s' : similar s s' → has_rows keys s → has_rows keys s'.
Proof. intros [_ Hb _] H k Hk. rewrite same_bundles_row by done. by apply H. Qed.

Section Frame.
Context {R : Type} (keys : list (string * string)).
Definition framed {A} (p : World R A) : Prop := ∀ w, has_rows keys w.1 → similar w.1 (p w).2.1.
Lemma framed_ret {A} (a : A) : framed (mret a).
Proof. done. Qed.
Lemma framed_fail {A} e : framed (world_fail (A:=A) e).
Proof. done. Qed.
Lemma framed_text {A} e : framed (text_error (A:=A) e).
Proof. done. Qed.
Lemma framed_lift {A} (r : string + A) : framed (lift_text r).
Proof. by destruct r. Qed.
Lemma framed_attempt {A} (p : World R A) : framed p → framed (world_attempt p).
Proof. intros H w Hw. specialize (H w Hw). unfold world_attempt. by destruct (p w). Qed.
Lemma framed_bind {A B} (p : World R A) (f : A → World R B) : framed p → (∀ a, framed (f a)) → framed (p ≫= f).
Proof.
  intros Hp Hf w Hw. specialize (Hp w Hw). unfold mbind, world_bind. destruct (p w) as [[e|a] w1]; simpl in *; [done|].
  eapply similar_trans; [exact Hp|]. apply Hf. by eapply has_rows_similar.
Qed.
Lemma framed_read {A} env i (t : Tx A) : still env → (∀ s a s', t s = inr (a, s') → s' = s) → framed (on_store (call env i t)).
Proof. intros He Ht w _. unfold on_store, call. rewrite He. destruct (t w.1) as [e|[a s']] eqn:E; [done|]. by rewrite (Ht _ _ _ E). Qed.
End Frame.
Create HintDb framed.
#[export] Hint Resolve framed_ret framed_fail framed_text framed_lift framed_attempt framed_bind : framed.

Lemma read_Plugin name version s a s' : Plugin name version s = inr (a, s') → s' = s.
Proof. unfold Plugin. intros H. by tx_inv. Qed.
Lemma read_ListPlugins s a s' : ListPlugins s = inr (a, s') → s' = s.
Proof. unfold ListPlugins. intros H. by tx_inv. Qed.
Lemma Plugin_row name version s r : result (Plugin name version) s = inr r → is_Some (db_plugins s !! (pv_name r, pv_version r)) ∧ pv_name r = name ∧
  (version ≠ "" → pv_version r = version).
Proof.
  unfold result, Plugin, tx_row. destruct (String.eqb_spec version "") as [->|Hv]; simpl.
  - destruct (db_activations s !! name) as [a|]; [|done]. simpl. destruct (db_plugins s !! (name, av_version a)) as [row|] eqn:E; [|done]. simpl.
    intros [= <-]. cbn. by rewrite E.
  - destruct (db_plugins s !! (name, version)) as [row|] eqn:E; [|done]. simpl. intros [= <-]. cbn. by rewrite E.
Qed.
(** Storing a contract under an installation leaves its bundle. *)
Lemma PutPlugin_similar r t now s a s' : is_Some (db_plugins s !! (pv_name r, pv_version r)) → PutPlugin r t now s = inr (a, s') → similar s s'.
Proof.
  intros Hrow H. unfold PutPlugin in H. cbv zeta in H. destruct (db_plugins s !! (pv_name r, pv_version r)) as [row|] eqn:E; [|by destruct Hrow].
  apply tx_bind_inv in H as (existing&s1&[-> ->]%tx_get_inv&H). rewrite E in H. tx_inv; [|done]. split; [done| |done].
  intros k. cbn. destruct (decide (k = (pv_name r, pv_version r))) as [->|Hne]; [by rewrite lookup_insert_eq, E|by rewrite lookup_insert_ne].
Qed.

Section Manager.
Context {cal : Calendar} {dig : Digest} {semver : Semver} {schemas : SdkSchemas} {sha : Sha256} {archives : Archives}.
Context {P : Type} {processes : ProcessHost P} (targetOS targetArch root : string).

Section Framed.
Context (keys : list (string * string)).
Abbreviation framed := (framed (R:=Manager P) keys).
Lemma framed_moment : framed moment.
Proof. done. Qed.
Lemma framed_processes f : framed (set_processes f).
Proof. done. Qed.
Lemma framed_process_of key : framed (process_of key).
Proof. done. Qed.
#[local] Hint Resolve framed_moment framed_processes framed_process_of : framed.
Ltac framed := repeat match goal with
  | |- ManagerAdmin.framed _ (_ ≫= _) => apply framed_bind; [|intros ?]
  | |- ManagerAdmin.framed _ (match ?x with _ => _ end) => destruct x
  end; auto with framed.
Lemma framed_start record : framed (start_installed targetOS targetArch root record).
Proof. unfold start_installed, host_Launch. framed. Qed.
#[local] Hint Resolve framed_start : framed.
Lemma framed_ensureContract env record : still env → (pv_name record, pv_version record) ∈ keys → framed (ensureContract targetOS targetArch root env record).
Proof.
  intros He Hk. unfold ensureContract. framed; [|apply framed_read; [done|apply read_Plugin]].
  intros w Hw. unfold on_store, call. rewrite He. destruct (PutPlugin _ _ _ w.1) as [e|[u s']] eqn:E; [done|]. apply PutPlugin_similar in E; [done|]. by apply Hw.
Qed.
Lemma framed_launch env record : still env → (pv_name record, pv_version record) ∈ keys → framed (launch targetOS targetArch root env record).
Proof.
  intros He Hk. unfold launch. framed. apply framed_attempt. by apply framed_ensureContract.
Qed.
Lemma framed_running key : framed (running key).
Proof. unfold running. framed. Qed.
#[local] Hint Resolve framed_running : framed.
Lemma framed_check env record : still env → (pv_name record, pv_version record) ∈ keys → framed (checkActivePlugin targetOS targetArch root env record).
Proof.
  intros He Hk. unfold checkActivePlugin, removeExitedProcess, evict. framed. apply framed_attempt. unfold processForRecord. framed. by apply framed_launch.
Qed.
Lemma framed_check_plugins envs n active : (∀ i, still (envs i)) → (∀ r, r ∈ active → (pv_name r, pv_version r) ∈ keys) →
  framed (check_plugins targetOS targetArch root envs n active).
Proof.
  intros He. revert n. induction active as [|r active IH]; intros n Hk; cbn [check_plugins]; [auto with framed|].
  apply framed_bind; [apply framed_check; [done|]; apply Hk; left|]. intros d. apply framed_bind; [apply IH; intros r' Hr'; apply Hk; by right|auto with framed].
Qed.
End Framed.

(** ** The laws of the controller's runtime *)

Lemma activate_active name version now s u s' : ActivatePlugin name version now s = inr (u, s') →
  db_resources s' = db_resources s ∧ same_bundles s s' ∧ (∀ q, q ≠ name → active_version s' q = active_version s q) ∧ active_version s' name = Some version.
Proof.
  intros H. run_op H.
  assert (Hb : same_bundles s (set_plugins (map_imap (λ k p, Some (activation_state name version k p))) (set_activations (λ m, <[name := mkActivationRow version now]> m) s))).
  { intros k. cbn. rewrite map_lookup_imap. destruct (db_plugins s !! k) as [row|]; [|done]. cbn. f_equal. unfold activation_state. by repeat case_match. }
  split_and!; [done|exact Hb| |].
  - intros q Hq. apply same_active; [exact Hb|]. cbn. by rewrite lookup_insert_ne.
  - rewrite active_version_spec. cbn. rewrite lookup_insert_eq. cbn. rewrite map_lookup_imap. match goal with E : db_plugins s !! _ = Some _ |- _ => by rewrite E end.
Qed.
Lemma disable_active name s u s' : DisablePlugin name s = inr (u, s') →
  db_resources s' = db_resources s ∧ same_bundles s s' ∧ (∀ q, q ≠ name → active_version s' q = active_version s q) ∧ active_version s' name = None.
Proof.
  intros H. run_op H.
  assert (Hb : same_bundles s (set_plugins (map_imap (λ k p, Some (deactivation_state name k p))) (set_activations (delete name) s))).
  { intros k. cbn. rewrite map_lookup_imap. destruct (db_plugins s !! k) as [row|]; [|done]. cbn. f_equal. unfold deactivation_state. by repeat case_match. }
  split_and!; [done|exact Hb| |].
  - intros q Hq. apply same_active; [exact Hb|]. cbn. by rewrite lookup_delete_ne.
  - rewrite active_version_spec. cbn. by rewrite lookup_delete_eq.
Qed.

Lemma world_bind_inv {R A B} (p : World R A) (f : A → World R B) w r w' : (p ≫= f) w = (r, w') →
  (∃ e, p w = (inl e, w') ∧ r = inl e) ∨ ∃ a w1, p w = (inr a, w1) ∧ f a w1 = (r, w').
Proof. unfold mbind, world_bind. destruct (p w) as [[e|a] w1]; [intros [= <- <-]; left; eauto|right; eauto]. Qed.
Lemma on_store_Plugin env i name version w r w' : still env → on_store (R:=Manager P) (call env i (Plugin name version)) w = (r, w') →
  r = result (Plugin name version) w.1 ∧ w' = w.
Proof.
  intros He. unfold on_store, call. rewrite He. unfold result. destruct (Plugin name version w.1) as [e|[a s']] eqn:E; intros [= <- <-]; (split; [done|]).
  - by destruct w.
  - apply read_Plugin in E as ->. by destruct w.
Qed.

Lemma Enable_active env name version w r w' : still env → Enable targetOS targetArch root env name version w = (r, w') →
  db_resources w'.1 = db_resources w.1 ∧ same_bundles w.1 w'.1 ∧ (∀ q, q ≠ name → active_version w'.1 q = active_version w.1 q) ∧
  active_version w'.1 name = match r with inr _ => Some version | inl _ => active_version w.1 name end.
Proof.
  intros He H. unfold Enable in H.
  assert (Hsim : ∀ w1 : Db * Manager P, similar w.1 w1.1 → ∀ e, db_resources w1.1 = db_resources w.1 ∧ same_bundles w.1 w1.1 ∧ (∀ q, q ≠ name → active_version w1.1 q = active_version w.1 q) ∧
    active_version w1.1 name = match (inl e : res unit) with inr _ => Some version | inl _ => active_version w.1 name end).
  { intros w1 Hs e. pose proof Hs as [H1 H2 H3]. split_and!; [done|done| |]; intros; by apply similar_active. }
  apply world_bind_inv in H as [(e&H&->)|(record&w1&H1&H)]; [apply on_store_Plugin in H as [_ ->]; [by apply Hsim|done]|].
  apply on_store_Plugin in H1 as [H1 ->]; [|done]. symmetry in H1. apply Plugin_row in H1 as (Hrow&Hn&Hver).
  assert (Hrows : has_rows [(pv_name record, pv_version record)] w.1) by by intros k ->%list_elem_of_singleton.
  pose proof (framed_launch [(pv_name record, pv_version record)] env record He (list_elem_of_here _ _) w Hrows) as Hl.
  apply world_bind_inv in H as [(e&H&->)|(process&w2&H2&H)]; [rewrite H in Hl; by apply Hsim|]. rewrite H2 in Hl. cbn [snd] in Hl.
  apply world_bind_inv in H as [(e&H&->)|(n&w3&H3&H)]; [by unfold moment in H|]. unfold moment in H3. injection H3 as <- <-. cbn [fst] in *.
  destruct (ph_health _ process) as [e|[[] message]].
  - unfold text_error, world_fail in H. injection H as <- <-. exact (Hsim (w2.1, _) Hl ErrNotFound).
  - apply world_bind_inv in H as [(e&H&->)|([]&w4&H4&H)].
    + unfold on_store, call in H. cbn [fst snd] in H. rewrite He in H. destruct (ActivatePlugin _ _ _ w2.1) as [e'|[u s']]; [|done]. injection H as <- <-. exact (Hsim (w2.1, _) Hl ErrNotFound).
    + unfold on_store, call in H4. cbn [fst snd] in H4. rewrite He in H4. destruct (ActivatePlugin _ _ _ w2.1) as [e'|[u s']] eqn:E; [done|]. injection H4 as _ <-.
      injection H as <- <-. cbn [fst]. apply activate_active in E as (A1&A2&A3&A4). destruct Hl as [B1 B2 B3]. split_and!; [congruence| | |done].
      * intros k. by rewrite (A2 k), (B2 k).
      * intros q Hq. rewrite A3 by done. by apply similar_active.
  - unfold text_error, world_fail in H. injection H as <- <-. exact (Hsim (w2.1, _) Hl ErrNotFound).
Qed.
Lemma Disable_active env name w r w' : still env → Disable (P:=P) env name w = (r, w') →
  db_resources w'.1 = db_resources w.1 ∧ same_bundles w.1 w'.1 ∧ (∀ q, q ≠ name → active_version w'.1 q = active_version w.1 q) ∧
  active_version w'.1 name = match r with inr _ | inl ErrNotFound => None | inl _ => active_version w.1 name end.
Proof.
  intros He H. unfold Disable in H.
  apply world_bind_inv in H as [(e&H&->)|(record&w1&H1&H)].
  { apply on_store_Plugin in H as [H ->]; [|done]. split_and!; [done|done|done|]. unfold active_version, active_record. rewrite <- H.
    assert (e = ErrNotFound) as ->; [|done]. revert H. unfold result, Plugin, tx_row. simpl. destruct (db_activations w.1 !! name) as [a|]; simpl; [|by intros [= ->]].
    destruct (db_plugins w.1 !! (name, av_version a)); simpl; [done|by intros [= ->]]. }
  apply on_store_Plugin in H1 as [H1 ->]; [|done].
  apply world_bind_inv in H as [(e&H&->)|([]&w2&H2&H)].
  - unfold on_store, call in H. rewrite He in H. destruct (DisablePlugin name w.1) as [e'|[u s']] eqn:E; [|done]. exfalso.
    revert E. unfold DisablePlugin, mbind, tx_bind, tx_row. revert H1. unfold result, Plugin, tx_row. simpl. by destruct (db_activations w.1 !! name).
  - unfold on_store, call in H2. rewrite He in H2. destruct (DisablePlugin name w.1) as [e'|[u s']] eqn:E; [done|]. injection H2 as _ <-. injection H as <- <-. by apply disable_active in E.
Qed.

Lemma plugin_records_rows s : has_rows ((λ r, (pv_name r, pv_version r)) <$> plugin_records s) s.
Proof.
  intros k (r&->&Hr)%list_elem_of_fmap. apply plugin_records_in in Hr as ([n v]&row&Hrow&->). cbn. by rewrite Hrow.
Qed.
Lemma HealthDiagnostics_similar envs arrival answered w : (∀ i, still (envs i)) → (∀ l, arrival l ≡ₚ l) →
  similar w.1 (HealthDiagnostics targetOS targetArch root envs arrival answered w).2.1.
Proof.
  intros He Ha. unfold HealthDiagnostics, call. rewrite (He 0%nat 0%nat). unfold ListPlugins, tx_get. cbv beta iota zeta.
  change (plugin_record w.1 <$> sort_by (lexc (onc (λ kp, kp.1.1) str_cmp) (onc (λ kp, kp.1.2) str_cmp)) (map_to_list (db_plugins w.1))) with (plugin_records w.1).
  unfold ok at 1. cbv beta iota. set (active := filter (λ r, pv_active r = true) (plugin_records w.1)).
  destruct active as [|r l] eqn:E; [done|]. rewrite <- E.
  assert (Hk : ∀ x, x ∈ arrival active → (pv_name x, pv_version x) ∈ (λ r, (pv_name r, pv_version r)) <$> plugin_records w.1).
  { intros x Hx. rewrite (Ha active) in Hx. unfold active in Hx. apply list_elem_of_filter in Hx as [_ Hx]. apply list_elem_of_fmap. eauto. }
  pose proof (framed_check_plugins _ envs 1 (arrival active) He Hk w (plugin_records_rows w.1)) as H. unfold mbind, world_bind.
  rewrite <- surjective_pairing. destruct (check_plugins targetOS targetArch root envs 1 (arrival active) w) as [[e|results] w1]; exact H.
Qed.

(** Storing a record: its own row appears or keeps its bundle, the others stay. *)
Lemma PutPlugin_rows r t now s u s' : PutPlugin r t now s = inr (u, s') →
  (∀ k, k ≠ (pv_name r, pv_version r) → db_plugins s' !! k = db_plugins s !! k) ∧ db_activations s' = db_activations s ∧
  (∃ row, db_plugins s' !! (pv_name r, pv_version r) = Some row ∧ pg_digest row = pv_digest r) ∧
  (∀ k row, db_plugins s !! k = Some row → ∃ row', db_plugins s' !! k = Some row' ∧ PluginController.bundle row' = PluginController.bundle row).
Proof.
  unfold PutPlugin. cbv zeta. intros H. apply tx_bind_inv in H as (existing&s1&[-> ->]%tx_get_inv&H).
  destruct (db_plugins s !! (pv_name r, pv_version r)) as [row|] eqn:E.
  - apply tx_bind_inv in H as (?&s1&Hg&H). apply tx_guard_inv in Hg as [Hg%String.eqb_eq ->]. destruct (_ && _).
    + apply tx_mod_inv in H as ->. cbn. split_and!; [by intros; rewrite lookup_insert_ne|done|rewrite lookup_insert_eq; eauto|].
      intros k row' Hk. destruct (decide (k = (pv_name r, pv_version r))) as [->|Hne]; [rewrite lookup_insert_eq; rewrite E in Hk; injection Hk as <-; eauto|].
      rewrite lookup_insert_ne by done. eauto.
    + apply tx_guard_inv in H as [_ ->]. split_and!; eauto.
  - tx_inv. cbn. split_and!; [by intros; rewrite lookup_insert_ne|done|rewrite lookup_insert_eq; eauto|].
    intros k row' Hk. rewrite lookup_insert_ne by congruence. eauto.
Qed.

(** An installation is all or nothing and immutable: the rows and the version
    directories there were stay, a failure leaves nothing, and a success is the
    row and the directory of the archive's digest. *)
Definition install_frame (w w' : Db * Manager P) : Prop :=
  db_activations w'.1 = db_activations w.1 ∧
  (∀ k row, db_plugins w.1 !! k = Some row → ∃ row', db_plugins w'.1 !! k = Some row' ∧ PluginController.bundle row' = PluginController.bundle row) ∧
  (∀ k d, mg_directories w.2 !! k = Some d → mg_directories w'.2 !! k = Some d).
Definition nothing_installed (w w' : Db * Manager P) : Prop := w'.1 = w.1 ∧ mg_directories w'.2 = mg_directories w.2.
Definition installed_as (digest : string) (w w' : Db * Manager P) (record : PluginRecord) : Prop :=
  pv_digest record = digest ∧
  (∃ row, db_plugins w'.1 !! (pv_name record, pv_version record) = Some row ∧ pg_digest row = digest) ∧
  (∀ k, k ≠ (pv_name record, pv_version record) → db_plugins w'.1 !! k = db_plugins w.1 !! k ∧ mg_directories w'.2 !! k = mg_directories w.2 !! k) ∧
  (mg_directories w'.2 !! (pv_name record, pv_version record) = Some (Some (digest +:+ String (chr 10) "")) ∨
   mg_directories w'.2 = mg_directories w.2 ∧ ∃ text, mg_directories w.2 !! (pv_name record, pv_version record) = Some (Some text) ∧ trim_space text = digest).
Lemma nothing_frame w w' : nothing_installed w w' → install_frame w w'.
Proof. intros [H1 H2]. unfold install_frame. rewrite H1, H2. split_and!; eauto. Qed.

Lemma parsed_digest bundle os arch m binary digest : ParseForPlatform bundle os arch = inr (m, binary, digest) → digest = FlowCompiler.sha256_hex bundle.
Proof. unfold ParseForPlatform. repeat case_match; try discriminate. by intros [= <- <- <-]. Qed.
Lemma store_installation_ok env manifest digest record w r w' : still env →
  pv_name record = mf_name manifest → pv_version record = mf_version manifest → pv_version record ≠ "" → pv_digest record = digest →
  store_installation (P:=P) env manifest digest record w = (r, w') →
  install_frame w w' ∧ match r with inl _ => nothing_installed w w' | inr record' => installed_as digest w w' record' ∧
    pv_name record' = mf_name manifest ∧ pv_version record' = mf_version manifest end.
Proof.
  intros He Hn Hv Hne Hd. unfold store_installation. rewrite <- Hn, <- Hv. destruct w as [s m].
  assert (Hpub : ∃ p, publish manifest digest (s, m) = p) by eauto. destruct Hpub as [[[e|published] [s1 m1]] Hpub]; unfold mbind, world_bind; rewrite Hpub.
  all: unfold publish, Publish in Hpub; rewrite <- Hn, <- Hv in Hpub; cbn [snd] in Hpub.
  - assert (nothing_installed (s, m) (s1, m1)) as Hno.
    { destruct (mg_directories m !! _) as [[text|]|]; [destruct (String.eqb _ _)| |]; cbn in Hpub; try discriminate Hpub; by injection Hpub as _ <- <-. }
    intros [= <- <-]. split; [by apply nothing_frame|done].
  - assert (Hs1 : s1 = s ∧ (published = false ∧ mg_directories m1 = mg_directories m ∧ (∃ text, mg_directories m !! (pv_name record, pv_version record) = Some (Some text) ∧ trim_space text = digest) ∨
      published = true ∧ mg_directories m !! (pv_name record, pv_version record) = None ∧ mg_directories m1 = <[(pv_name record, pv_version record) := Some (digest +:+ String (chr 10) "")]> (mg_directories m))).
    { destruct (mg_directories m !! _) as [[text|]|] eqn:Ed; [destruct (String.eqb_spec (trim_space text) digest)| |]; cbn in Hpub; try discriminate Hpub; injection Hpub as <- <- <-;
        (split; [done|]); [left|right]; eauto 10. }
    destruct Hs1 as [-> Hdirs]. unfold world_attempt, on_store, call. cbn [fst snd]. rewrite (He 0%nat).
    destruct (PutPlugin record None (now_at env 0) s) as [e|[u s2]] eqn:Ep.
    + assert (Hno : ∀ m2, mg_directories m2 = mg_directories m → install_frame (s, m) (s, m2) ∧ nothing_installed (s, m) (s, m2)).
      { intros m2 E. assert (nothing_installed (s, m) (s, m2)) by done. split; [by apply nothing_frame|done]. }
      destruct Hdirs as [(->&Hm&_)|(->&Hm&Hm1)].
      * unfold ok at 1. cbv beta iota. intros [= <- <-]. by apply Hno.
      * unfold remove_directory, set_directories. cbn. intros [= <- <-]. apply Hno. cbn. rewrite <- Hn, <- Hv, Hm1. by apply delete_insert_id.
    + unfold ok at 1 2. cbv beta iota. cbn [fst snd]. rewrite (He 1%nat). apply PutPlugin_rows in Ep as (H1&H2&(row&H3&H3')&H4).
      assert (Plugin (pv_name record) (pv_version record) s2 = inr (plugin_record s2 ((pv_name record, pv_version record), row), s2)) as ->.
      { unfold Plugin, tx_row. rewrite (proj2 (String.eqb_neq _ _) Hne). cbn. by rewrite H3. }
      intros [= <- <-]. destruct (plugin_record_fields s2 (pv_name record, pv_version record) row) as (F1&F2&F3&_). cbn [fst snd] in F1, F2.
      unfold ok, install_frame, installed_as. cbv beta iota. split_and!; [done|exact H4| | | | | |done|done].
      * cbn [snd]. intros k d Hk. destruct Hdirs as [(_&->&_)|(_&Hm&->)]; [done|]. rewrite lookup_insert_ne; [done|]. intros <-. congruence.
      * cbn. by rewrite H3', Hd.
      * cbn [pv_name pv_version plugin_record]. exists row. by rewrite H3', Hd.
      * cbn [pv_name pv_version plugin_record]. intros k Hk. cbn [fst snd]. split; [by apply H1|]. destruct Hdirs as [(_&->&_)|(_&_&->)]; [done|by apply lookup_insert_ne].
      * cbn [pv_name pv_version plugin_record]. destruct Hdirs as [(_&Hm&text&Ht)|(_&_&Hm)]; cbn [snd]; rewrite Hm; [right; eauto|left; apply lookup_insert_eq].
Qed.

Lemma validated_version description contract digest : ValidateDescription (Some description) = inr (contract, digest) →
  StrictNewVersion (dr_version description) = None.
Proof.
  unfold ValidateDescription, validateMetadata. destruct (bad_protocol _); [done|]. destruct (mapM id (dr_actions _)); [|done]. destruct (mapM id (dr_triggers _)); [|done].
  cbn [md_name md_version]. destruct (negb (pluginName _)); [done|]. by destruct (StrictNewVersion _).
Qed.
Lemma Install_immutable env archive w r w' : still env → (StrictNewVersion "" ≠ None) → Install targetOS targetArch root env archive w = (r, w') →
  install_frame w w' ∧
  match r with inl _ => nothing_installed w w' | inr record => installed_as (FlowCompiler.sha256_hex archive) w w' record end.
Proof.
  intros He Hempty H. unfold Install in H.
  assert (Hfail : ∀ w1, nothing_installed w w1 → ∀ e, (inl e : res PluginRecord, w1) = (r, w') → install_frame w w' ∧
    match r with inl _ => nothing_installed w w' | inr record => installed_as (FlowCompiler.sha256_hex archive) w w' record end).
  { intros w1 Hn e [= <- <-]. split; [by apply nothing_frame|done]. }
  assert (Hw : nothing_installed w w) by done.
  apply world_bind_inv in H as [(e&H&->)|([[manifest binary] digest]&w1&H1&H)].
  { unfold lift_text, text_error, world_fail in H. destruct (ParseForPlatform _ _ _); [|discriminate H]. injection H as _ <-. by eapply Hfail. }
  unfold lift_text, text_error, world_fail in H1. destruct (ParseForPlatform _ _ _) as [e|p] eqn:Ep; [discriminate H1|]. injection H1 as -> <-.
  apply parsed_digest in Ep as ->. destruct (_ || _); [by eapply Hfail|].
  apply world_bind_inv in H as [(e&H&->)|(platform&w2&H2&H)].
  { unfold lift_text, text_error, world_fail in H. destruct (platform_for _ _ _); [|discriminate H]. injection H as _ <-. by eapply Hfail. }
  assert (w2 = w) as ->. { unfold lift_text, text_error, world_fail in H2. destruct (platform_for _ _ _); [discriminate H2|]. by injection H2. }
  assert (Hl : nothing_installed w (host_Launch (P:=P) (staged_executable root manifest) (pf_sha256 platform) w).2).
  { unfold host_Launch. destruct (negb _); [done|]. unfold mbind, world_bind, moment, lift_text, text_error, world_fail. cbv beta iota zeta.
    unfold ok. cbv beta iota. match goal with |- context [ph_start ?a ?b ?c] => by destruct (ph_start a b c) end. }
  apply world_bind_inv in H as [(e&H&->)|(pd&w3&H3&H)]; [rewrite H in Hl; by eapply Hfail|]. rewrite H3 in Hl. cbn [snd] in Hl. clear H2 H3.
  destruct (negb _ || negb _) eqn:Eid; [by eapply Hfail|]. destruct (negb (sameCapabilities _ _)); [by eapply Hfail|].
  apply orb_false_iff in Eid as [_ Ever%negb_false_iff%String.eqb_eq].
  apply world_bind_inv in H as [(e&H&->)|([contract cdigest]&w4&H4&H)].
  { unfold lift_text, text_error, world_fail in H. destruct (ValidateDescription _); [|discriminate H]. injection H as _ <-. by eapply Hfail. }
  unfold lift_text, text_error, world_fail in H4. destruct (ValidateDescription _) as [e|cd] eqn:Ed; [discriminate H4|]. injection H4 as -> <-.
  apply validated_version in Ed. rewrite Ever in Ed.
  apply store_installation_ok in H as [Hf Hr]; [|done|done|done|cbn; intros E; rewrite E in Ed; done|done].
  destruct Hl as [Hl1 Hl2]. unfold install_frame, nothing_installed in *. rewrite Hl1, Hl2 in *. split; [done|].
  destruct r as [e|record]; [done|]. destruct Hr as [Hr _]. unfold installed_as in *. by rewrite Hl1, Hl2 in Hr.
Qed.

(** Nobody else writes during the calls of the runtime. *)
Definition still_manager (env : ManagerEnv) : Prop :=
  (∀ i, still (me_list env i)) ∧ (∀ i, still (me_enable env i)) ∧ (∀ i, still (me_disable env i)) ∧ (∀ i, still (me_health env i)) ∧
  ∀ l, me_arrival env l ≡ₚ l.
Lemma manager_laws env : still_manager env → RuntimeLaws (Manager P) (manager_runtime targetOS targetArch root env).
Proof.
  intros (H1&H2&H3&H4&H5). split.
  - intros n [s m]. unfold manager_runtime, rt_List, List_plugins, on_store, call. cbn [fst snd]. by rewrite (H1 n 0%nat s).
  - intros n w. pose proof (HealthDiagnostics_similar (me_health env) (me_arrival env) (me_answered env) w H4 H5) as Hs. cbn [manager_runtime rt_Health].
    destruct (HealthDiagnostics _ _ _ _ _ _ w) as [r w']. cbn [snd] in *. pose proof Hs as [A1 A2 A3]. split_and!; [done|done|]. intros q. by apply similar_active.
  - intros n p v w r w' H. exact (Enable_active _ _ _ _ _ _ (H2 n) H).
  - intros n p w r w' H. exact (Disable_active _ _ _ _ _ (H3 n) H).
Qed.
End Manager.
