(* ===== verification/ManagerWatch.v ===== *)
(** [internal/pluginmanager/manager.go], [WatchTrigger]: one bidirectional stream
    with a provider, an event of which is acknowledged only after the callback of
    the trigger controller has persisted it.

    What the provider does is the class [TriggerHost]: a started watch is the events
    it sends, each with the error of sending its acknowledgement, and the error the
    stream ends with.  The [i]-th call of the callback is [accept i]: the callback
    draws fresh times and identifiers every time. *)

From Stdlib Require String.
From S2P Require Import Prelude.
From S2P Require Import Json.
From S2P Require Import GoStd.
From S2P Require Import Resource.
From S2P Require Import Plan.
From S2P Require Import ActionContract.
From S2P Require Import PluginMapping.
From S2P Require Import ResourceJson.
From S2P Require Import PluginContract.
From S2P Require Import FlowCompiler.
From S2P Require Import Db.
From S2P Require Import StoreRuns.
From S2P Require Import StorePlugins.
From S2P Require Import Proc.
From S2P Require Import EngineNode.
From S2P Require Import PluginSchema.
From S2P Require Import ManagerBind.
From S2P Require Import ManagerRun.
From S2P Require Import ManagerStream.
From S2P Require Import Trigger.

Local Open Scope Z_scope.

(** [ws_activatedAt] is [None] for the zero time. *)
Record WatchStart := mkWatchStart {
  ws_installationUid : string; ws_source : string; ws_cursor : string; ws_activatedAt : option Z; ws_configJson : string;
  ws_secrets : gmap string string }.
Record Watching := mkWatching { wt_events : list (TriggerEvent * option string); wt_end : string }.
(** [StartWatch]: the error of opening the stream or sending the start command. *)
Class TriggerHost := { StartWatch : PluginRecord → WatchStart → string + Watching }.

Section Watch.
Context {cal : Calendar} {host : Host} {js : JsonSchema} {plugins : PluginHost} {triggers : TriggerHost}.

Definition bootstrap_time_error : string := "provider bootstrap activation time is required for an empty cursor unless replayExisting is true".
Definition validateProviderBootstrap (record : PluginRecord) (cursor : string) (activatedAt : Z) (c : config) : option string :=
  let replayExisting := match obj_get "replayExisting" c with Some (JBool b) => b | _ => false end in
  if negb (String.eqb cursor "") || replayExisting then None
  else if activatedAt =? zero_time then Some bootstrap_time_error
  else match decode_manifest (pv_manifest record) with
       | None => Some ("decode plugin manifest: " +:+ decode_error)
       | Some manifest =>
           if existsb (String.eqb ActivationFenceCapability) (mf_capabilities manifest) then None
           else Some ("plugin " +:+ quoted (pv_name record) +:+ " does not declare " +:+ ActivationFenceCapability +:+
                      "; refusing a non-replay provider bootstrap")
       end.

Definition contract_error_text (e : triggerContractError) : string := te_path e +:+ " (" +:+ te_code e +:+ "): " +:+ te_message e.

(** The receive loop: the acknowledged events, oldest first, and the error that
    ends the watch; [None] when a validation does not return. *)
Fixpoint watch_events (schema : string) (accept : nat → TriggerEvent → Proc unit) (i : nat) (events : list (TriggerEvent * option string))
    (ended : string) (s : Db) : option (Err * list TriggerEvent * Db) :=
  match events with
  | [] => Some (ErrMsg ended, [], s)
  | (event, ackError) :: events =>
      error ← validateTriggerContractJSON schema "event" (te_payload event);
      match error with
      | Some e => Some (ErrMsg (contract_error_text e), [], s)
      | None =>
          match accept i event s with
          | (inl e, s) => Some (e, [], s)
          | (inr _, s) =>
              match ackError with
              | Some e => Some (ErrMsg e, [], s)
              | None =>
                  '(e, acked, s) ← watch_events schema accept (S i) events ended s;
                  Some (e, event :: acked, s)
              end
          end
      end
  end.

(** Everything before the stream is open: the start command of the validated
    configuration.  [env] is the store the call sees at its reads. *)
Definition prepare_watch (env : Env) (pluginName source triggerUID namespace : string) (c : config) (cursor : string) (activatedAt : Z)
    (s : Db) : option (string + (PluginRecord * TriggerDescriptor * WatchStart)) :=
  match activeProcess pluginName (others env 0 s) with
  | inl e => Some (inl (ee_text e))
  | inr record =>
      match triggerDescriptor record source with
      | inl e => Some (inl (provider_error_text e))
      | inr descriptor =>
          match validateProviderBootstrap record cursor activatedAt c with
          | Some e => Some (inl e)
          | None =>
              match resolveNodeSecretsInNamespace (others env 1 (others env 0 s)) namespace c [] with
              | inl e => Some (inl e)
              | inr (secrets, c) =>
                  error ← validateTriggerContractValue (td_config descriptor) "config" (JObj c);
                  Some match error with
                       | Some e => inl (contract_error_text e)
                       | None => inr (record, descriptor, mkWatchStart triggerUID (td_source descriptor) cursor
                                        (if activatedAt =? zero_time then None else Some activatedAt) (marshal (JObj c)) secrets)
                       end
              end
          end
      end
  end.
Definition WatchTrigger (env : Env) (pluginName source triggerUID namespace : string) (c : config) (cursor : string) (activatedAt : Z)
    (accept : nat → TriggerEvent → Proc unit) (s : Db) : option (Err * list TriggerEvent * Db) :=
  prepared ← prepare_watch env pluginName source triggerUID namespace c cursor activatedAt s;
  let s := others env 1 (others env 0 s) in
  match prepared with
  | inl e => Some (ErrMsg e, [], s)
  | inr (record, descriptor, start) =>
      match StartWatch record start with
      | inl e => Some (ErrMsg e, [], s)
      | inr stream => watch_events (td_event descriptor) accept 0 (wt_events stream) (wt_end stream) s
      end
  end.
End Watch.

(** ** What an acknowledgement means *)

(** The payload satisfies a schema. *)
Definition satisfies `{JsonSchema} (schema payload : string) : Prop :=
  ∃ compiled value, ActionContract.Compile schema = inr compiled ∧ parse payload = Some value ∧ Validate compiled value = Some [].
Lemma validated_json `{JsonSchema} schema root payload : validateTriggerContractJSON schema root payload = Some None → satisfies schema payload.
Proof.
  unfold validateTriggerContractJSON, validateTriggerContractValue. destruct (parse payload) as [v|] eqn:Ep; [|done].
  destruct (ActionContract.Compile schema) as [e|compiled] eqn:Ec; [done|]. destruct (Validate compiled v) as [[|x l]|] eqn:Ev; [|done|done].
  intros _. exists compiled, v. by rewrite Ep, Ec, Ev.
Qed.

(** * Watches of a provider: an acknowledged event is a persisted one, and the stored
       cursor is that of the last persisted event. *)

From S2P Require Import StoreOutbox.
From S2P Require Import StoreResources.
From S2P Require Import StoreStep.
From S2P Require Import StoreHistory.
From S2P Require Import EngineAdapter.
From S2P Require Import Orchestrator.
From S2P Require Import TriggerFacts.

Section Facts.
Context {cal : Calendar} {dig : Digest}.

(** ** Acceptance of provider events *)

(** What a watch relies on: acceptances of events and signals are committed store
    operations that leave a receipt of the occurrence. *)
Class ProviderLaws (acceptor : Acceptor) : Prop := {
  provider_evolves t g o f ns i c : evolves (accept_provider_trigger t g o f ns i c);
  provider_receipt t g o f ns i c s r s' : reachable s →
    accept_provider_trigger t g o f ns i c s = (inr r, s') → is_Some (lookup_receipt t o s');
  signal_evolves t g o f ns r n p c : evolves (accept_provider_signal t g o f ns r n p c);
  signal_receipt t g o f ns r n p c s x s' : reachable s →
    accept_provider_signal t g o f ns r n p c s = (inr x, s') → is_Some (lookup_receipt t o s') }.
(** Alone, an acceptance changes the receipt of its occurrence and the cursor of
    its Trigger, or nothing when it fails. *)
Definition accepts_alone (t o c : string) (p : Proc Receipt) : Prop := ∀ s r s', p s = (r, s') →
  match r with
  | inl _ => s' = s
  | inr _ => (∀ k, k ≠ (t, o) → db_receipts s' !! k = db_receipts s !! k) ∧ is_Some (lookup_receipt t o s') ∧
             (c ≠ "" → ∃ now, db_cursors s' = <[t := mkCursorRow c o now]> (db_cursors s))
  end.
Class ProviderSolo (acceptor : Acceptor) : Prop := {
  provider_only t g o f ns i c : accepts_alone t o c (accept_provider_trigger t g o f ns i c);
  signal_only t g o f ns r n p c : accepts_alone t o c (accept_provider_signal t g o f ns r n p c) }.

Lemma acceptTrigger_alone t g o f ns i d c p fr fu now s r s' :
  acceptTrigger t g o f ns i d c o p fr fu now s = inr (r, s') →
  (∀ k, k ≠ (t, o) → db_receipts s' !! k = db_receipts s !! k) ∧ is_Some (lookup_receipt t o s') ∧
  (c ≠ "" → ∃ now, db_cursors s' = <[t := mkCursorRow c o now]> (db_cursors s)).
Proof.
  intros H. destruct (acceptTrigger_receipts _ _ _ _ _ _ _ _ _ _ _ _ _ _ _ _ H) as (Hs&Hk&_). split_and!; [done|done|]. intros Hc.
  apply String.eqb_neq in Hc. unfold acceptTrigger in H. rewrite Hc in H. run_op H; simplify_eq; simpl in *; eauto; congruence.
Qed.
Lemma signal_alone t g o f ns run n p c fr now s r s' :
  StoreOutbox.AcceptProviderSignal t g o f ns run n p c fr now s = inr (r, s') →
  (∀ k, k ≠ (t, o) → db_receipts s' !! k = db_receipts s !! k) ∧ is_Some (lookup_receipt t o s') ∧
  (c ≠ "" → ∃ now, db_cursors s' = <[t := mkCursorRow c o now]> (db_cursors s)).
Proof.
  intros H. unfold StoreOutbox.AcceptProviderSignal in H. run_op H; simplify_eq; simpl in *; split_and!; eauto.
  all: first [by intros k Hk; rewrite lookup_insert_ne | unfold lookup_receipt; simpl; rewrite lookup_insert_eq; eauto].
Qed.

(** The store and the orchestrator as acceptors. *)
Ltac provider_laws := intros; apply evolves_call; [assumption|]; first [apply commits_accept | apply commits_signal].
#[export] Instance store_provider_laws env : interference env → ProviderLaws (store_acceptor env).
Proof.
  intros He. split; [provider_laws| |provider_laws|].
  - intros * _ H%call_ok. by eapply acceptTrigger_alone.
  - intros * _ H%call_ok. by eapply signal_alone.
Qed.
#[export] Instance store_provider_solo now uuid : ProviderSolo (store_acceptor (alone now uuid)).
Proof.
  split; intros * s r' s' H; destruct r' as [e|x]; [by apply call_fail in H as [_ ->]| |by apply call_fail in H as [_ ->]|];
    apply call_ok in H; [by eapply acceptTrigger_alone|by eapply signal_alone].
Qed.
Lemma orchestrator_accepts {compiler : FlowCompiler} t g o f ns i c fr fu now s0 s r s' :
  Orchestrator.AcceptProviderTrigger t g o f ns i c fr fu now s0 s = inr (r, s') →
  ∃ plan, acceptTrigger t g o f ns i true c o plan fr fu now s = inr (r, s').
Proof.
  unfold Orchestrator.AcceptProviderTrigger. destruct (lookup_receipt t o s0); [by exists None|].
  unfold mbind, res_bind. destruct (plan_and_input _ _ _ _) as [e|plan]; [done|]. by exists (Some plan).
Qed.
#[export] Instance orchestrator_provider_laws {compiler : FlowCompiler} env : interference env → ProviderLaws (orchestrator_acceptor env).
Proof.
  intros He. split; [|  |provider_laws|].
  - intros t g o f ns i c s. simpl. assert (H01 : rtc store_step s (others env 1 (others env 0 s))) by (etrans; apply He).
    destruct (Orchestrator.AcceptProviderTrigger _ _ _ _ _ _ _ _ _ _ _ _) as [e|[r s']] eqn:E; [exact H01|]. apply orchestrator_accepts in E as [plan E].
    simpl. etrans; [exact H01|]. by eapply commits_accept.
  - intros * _ H. simpl in H. destruct (Orchestrator.AcceptProviderTrigger _ _ _ _ _ _ _ _ _ _ _ _) as [e|[r' s1]] eqn:E; [done|].
    injection H as -> ->. apply orchestrator_accepts in E as [plan E]. by eapply acceptTrigger_alone.
  - intros * _ H%call_ok. by eapply signal_alone.
Qed.

(** The callback of the controller. *)
Lemma accept_event_evolves {acceptor : Acceptor} {laws : ProviderLaws acceptor} trigger event : evolves (accept_event trigger event).
Proof.
  unfold accept_event. case_match; [apply evolves_fail|]. repeat case_match; try apply evolves_fail.
  all: eapply evolves_bind; [first [apply provider_evolves|apply signal_evolves]|intros r; apply evolves_ret].
Qed.
Definition identified (event : TriggerEvent) : Prop := te_providerEventId event ≠ "" ∧ te_cursor event ≠ "" ∧ valid (te_payload event) = true.
Lemma accept_event_ok {acceptor : Acceptor} {laws : ProviderLaws acceptor} trigger event s s' : reachable s →
  accept_event trigger event s = (inr tt, s') → identified event ∧ is_Some (lookup_receipt (m_uid trigger.1) (te_providerEventId event) s').
Proof.
  intros Hr. unfold accept_event. destruct (_ || _) eqn:E; [by intros [=]|].
  apply orb_false_iff in E as [[E1%String.eqb_neq E2%String.eqb_neq]%orb_false_iff E3%negb_false_iff].
  repeat case_match; try by intros [=]. all: intros (r&s1&Ha&Hret)%proc_bind_ok; apply proc_ret_ok in Hret as [_ ->]; split; [done|].
  all: first [by eapply provider_receipt|by eapply signal_receipt].
Qed.
Lemma accept_event_alone {acceptor : Acceptor} {solo : ProviderSolo acceptor} trigger event s r s' :
  accept_event trigger event s = (r, s') →
  match r with
  | inl _ => s' = s
  | inr _ => identified event ∧ (∀ k, k ≠ (m_uid trigger.1, te_providerEventId event) → db_receipts s' !! k = db_receipts s !! k) ∧
             is_Some (lookup_receipt (m_uid trigger.1) (te_providerEventId event) s') ∧
             ∃ now, db_cursors s' = <[m_uid trigger.1 := mkCursorRow (te_cursor event) (te_providerEventId event) now]> (db_cursors s)
  end.
Proof.
  unfold accept_event. destruct (_ || _) eqn:E; [by intros [= <- <-]|].
  apply orb_false_iff in E as [[E1%String.eqb_neq E2%String.eqb_neq]%orb_false_iff E3%negb_false_iff].
  assert (Hp : ∀ p : Proc Receipt, accepts_alone (m_uid trigger.1) (te_providerEventId event) (te_cursor event) p →
    (p ≫= λ _, mret tt) s = (r, s') → match r with
      | inl _ => s' = s
      | inr _ => identified event ∧ (∀ k, k ≠ (m_uid trigger.1, te_providerEventId event) → db_receipts s' !! k = db_receipts s !! k) ∧
                 is_Some (lookup_receipt (m_uid trigger.1) (te_providerEventId event) s') ∧
                 ∃ now, db_cursors s' = <[m_uid trigger.1 := mkCursorRow (te_cursor event) (te_providerEventId event) now]> (db_cursors s)
      end).
  { intros p Hp H. unfold mbind, proc_bind in H. destruct (p s) as [[e|x] s1] eqn:Ep; specialize (Hp _ _ _ Ep); injection H as <- <-; [done|].
    destruct Hp as (H1&H2&H3). split_and!; [done|done|done|by apply H3]. }
  repeat case_match; try by intros [= <- <-]. all: apply Hp; first [apply provider_only|apply signal_only].
Qed.
End Facts.

(** ** Watches *)

Section Watches.
Context {cal : Calendar} {dig : Digest} {js : JsonSchema}.

(** The persisted events of a watch: those acknowledged and perhaps one more, whose
    acknowledgement failed. *)
Definition persisted (acked accepted : list TriggerEvent) : Prop := accepted = acked ∨ ∃ event, accepted = acked ++ [event].

Lemma watch_events_acked schema accept (Q : TriggerEvent → Db → Prop) :
  (∀ i event, evolves (accept i event)) →
  (∀ i event s s', reachable s → accept i event s = (inr tt, s') → Q event s') →
  (∀ event s s', reachable s → rtc store_step s s' → Q event s → Q event s') →
  ∀ events i ended s e acked s', reachable s → watch_events schema accept i events ended s = Some (e, acked, s') →
    rtc store_step s s' ∧ acked `prefix_of` events.*1 ∧ Forall (λ event, satisfies schema (te_payload event) ∧ Q event s') acked.
Proof.
  intros He HQ Hkeep. induction events as [|[event ackError] events IH]; intros i ended s e acked s' Hr H; cbn [watch_events] in H.
  { injection H as _ <- <-. split_and!; [first [exact Hs|reflexivity]|apply prefix_nil|constructor]. }
  unfold mbind, option_bind in H. destruct (validateTriggerContractJSON _ _ _) as [[err|]|] eqn:Ev; [|  |done].
  { injection H as _ <- <-. split_and!; [first [exact Hs|reflexivity]|apply prefix_nil|constructor]. }
  pose proof (He i event s) as Hs. destruct (accept i event s) as [[err|[]] s1] eqn:Ea; cbn in Hs.
  { injection H as _ <- <-. split_and!; [first [exact Hs|reflexivity]|apply prefix_nil|constructor]. }
  destruct ackError as [err|].
  { injection H as _ <- <-. split_and!; [first [exact Hs|reflexivity]|apply prefix_nil|constructor]. }
  assert (Hr1 : reachable s1) by (unfold reachable in *; by etrans).
  destruct (watch_events schema accept (S i) events ended s1) as [[[e' acked'] s2]|] eqn:Ew; [|done]. injection H as _ <- <-.
  destruct (IH _ _ _ _ _ _ Hr1 Ew) as (H1&H2&H3). split_and!; [etrans; [exact Hs|exact H1]|by apply prefix_cons|].
  apply Forall_cons; split; [|done]. split; [by eapply validated_json|]. eapply Hkeep; [exact Hr1|exact H1|]. exact (HQ _ _ _ _ Hr Ea).
Qed.

(** Alone, the events leave their receipts, and the cursor of the last one. *)
Lemma watch_events_alone (accept : nat → TriggerEvent → Proc unit) uid schema :
  (∀ i event s r s', accept i event s = (r, s') → match r with
    | inl _ => s' = s
    | inr _ => (∀ k, k ≠ (uid, te_providerEventId event) → db_receipts s' !! k = db_receipts s !! k) ∧
               ∃ now, db_cursors s' = <[uid := mkCursorRow (te_cursor event) (te_providerEventId event) now]> (db_cursors s)
    end) →
  ∀ events i ended s e acked s', watch_events schema accept i events ended s = Some (e, acked, s') →
    ∃ accepted, persisted acked accepted ∧ accepted `prefix_of` events.*1 ∧
      (∀ k, k ∉ ((λ event, (uid, te_providerEventId event)) <$> accepted) → db_receipts s' !! k = db_receipts s !! k) ∧
      (∀ t, t ≠ uid → db_cursors s' !! t = db_cursors s !! t) ∧
      (cu_cursor <$> db_cursors s' !! uid) = match last accepted with Some event => Some (te_cursor event) | None => cu_cursor <$> db_cursors s !! uid end.
Proof.
  intros HA. induction events as [|[event ackError] events IH]; intros i ended s e acked s' H; cbn [watch_events] in H.
  { injection H as _ <- <-. exists []. split_and!; [by left|apply prefix_nil|done|done|done]. }
  unfold mbind, option_bind in H. destruct (validateTriggerContractJSON _ _ _) as [[err|]|] eqn:Ev; [|  |done].
  { injection H as _ <- <-. exists []. split_and!; [by left|apply prefix_nil|done|done|done]. }
  destruct (accept i event s) as [[err|[]] s1] eqn:Ea; specialize (HA _ _ _ _ _ Ea) as Hone; cbn in Hone.
  { subst s1. injection H as _ <- <-. exists []. split_and!; [by left|apply prefix_nil|done|done|done]. }
  destruct Hone as (Hrec&now&Hcur). assert (Hone : ∀ t, t ≠ uid → db_cursors s1 !! t = db_cursors s !! t).
  { intros t Ht. by rewrite Hcur, lookup_insert_ne. }
  destruct ackError as [err|].
  { injection H as _ <- <-. exists [event]. split_and!; [right; by exists event|by apply prefix_cons, prefix_nil| |done|].
    - intros k Hk. apply Hrec. cbn in Hk. set_solver.
    - by rewrite Hcur, lookup_insert_eq. }
  destruct (watch_events schema accept (S i) events ended s1) as [[[e' acked'] s2]|] eqn:Ew; [|done]. injection H as _ <- <-.
  destruct (IH _ _ _ _ _ _ Ew) as (accepted&Hp&Hpre&H1&H2&H3). exists (event :: accepted). split_and!.
  - destruct Hp as [->|[x ->]]; [by left|right; by exists x].
  - by apply prefix_cons.
  - intros k Hk. cbn in Hk. rewrite H1 by set_solver. apply Hrec. set_solver.
  - intros t Ht. by rewrite H2, Hone.
  - rewrite H3. destruct accepted as [|x accepted]; [cbn; by rewrite Hcur, lookup_insert_eq|]. rewrite (last_cons event). destruct (last (x :: accepted)) eqn:El; [done|by apply last_None in El].
Qed.
End Watches.
