(* ===== verification/ServerHandlers.v ===== *)
(** What the handlers of [internal/server/api.go] share: the state and error monad
    they run in, the store calls whose errors become statuses, and the server side
    of a stream.

    A [Handler W A] threads the state [W]; an error keeps it.  What a client has
    received of a stream is part of the state; whether the next [Send] succeeds
    is the client's affair, the class [Client]. *)

From Stdlib Require String.
From S2P Require Import Prelude.
From S2P Require Import Json.
From S2P Require Import GoStd.
From S2P Require Import Resource.
From S2P Require Import Plan.
From S2P Require Import Db.
From S2P Require Import StoreRuns.
From S2P Require Import StoreResources.
From S2P Require Import Proc.
From S2P Require Import PluginController.
From S2P Require Import ServerPages.

Local Open Scope Z_scope.

Definition Handler (W A : Type) : Type := W → rpc A * W.
#[export] Instance handler_ret W : MRet (Handler W) := λ A a w, (inr a, w).
#[export] Instance handler_bind W : MBind (Handler W) := λ A B f p w,
  match p w with (inl e, w') => (inl e, w') | (inr a, w') => f a w' end.
Definition refuse {W A} (s : RpcStatus) : Handler W A := λ w, (inl s, w).
Definition reject {W A} (code : Code) (message : string) : Handler W A := refuse (mkStatus code message).
Definition lift_rpc {W A} (r : rpc A) : Handler W A := λ w, (r, w).
(** A call whose error is returned as [rpcError(err)]. *)
Definition answering {W A} (p : W → res A * W) : Handler W A := λ w,
  let '(r, w) := p w in (match r with inl e => inl (rpcError e) | inr a => inr a end, w).
(** The result as a value: the handler inspects the error. *)
Definition trying {W A} (p : W → res A * W) : Handler W (res A) := λ w, let '(r, w) := p w in (inr r, w).
(** A handler of one part of the state. *)
Definition on_first {W X A} (p : Handler W A) : Handler (W * X) A := λ wx, let '(r, w) := p wx.1 in (r, (w, wx.2)).

(** What one read of the store sees. *)
Definition snapshot (env : Env) (i : nat) : Proc Db := call env i (tx_get (λ s, s)).

(** ** Streams *)

(** [None]: the message is taken; [Some e]: [Send] returns [e]. *)
Class Client (A : Type) := receives : list A → A → option RpcStatus.
Definition Send {W A} `{!Client A} (m : A) : Handler (W * list A) unit := λ wx,
  match receives wx.2 m with Some e => (inl e, wx) | None => (inr tt, (wx.1, wx.2 ++ [m])) end.
Fixpoint send_all {W A} `{!Client A} (l : list A) : Handler (W * list A) unit :=
  match l with [] => mret tt | m :: l => Send m ≫= λ _, send_all l end.
(** A client that takes everything. *)
Definition open_client A : Client A := λ _ _, None.

Definition cancelled : RpcStatus := mkStatus Canceled "context canceled".

(** A polling loop: one turn per tick until the context ends. *)
Fixpoint polling {W X T} (turn : T → X → Handler W X) (turns : list T) (x : X) : Handler W unit :=
  match turns with
  | [] => refuse cancelled
  | t :: turns => x ← turn t x; polling turn turns x
  end.

Section Facts.
Context {W : Type}.
Lemma handler_bind_ok {A B} (p : Handler W A) (f : A → Handler W B) w b w' :
  (p ≫= f) w = (inr b, w') ↔ ∃ a w1, p w = (inr a, w1) ∧ f a w1 = (inr b, w').
Proof.
  unfold mbind, handler_bind. destruct (p w) as [[e|a] w1]; split; [done|by intros (?&?&?&?)|eauto|by intros (?&?&[= -> ->]&?)].
Qed.
Lemma answering_ok {A} (p : W → res A * W) w a w' : answering p w = (inr a, w') ↔ p w = (inr a, w').
Proof. unfold answering. destruct (p w) as [[e|b] w1]; split; intros H; by inversion H. Qed.
Lemma answering_fail {A} (p : W → res A * W) w st w' :
  answering p w = (inl st, w') ↔ ∃ e, p w = (inl e, w') ∧ st = rpcError e.
Proof.
  unfold answering. destruct (p w) as [[e|b] w1]; split; [intros [= <- <-]; eauto|by intros (?&[= -> ->]&->)|done|by intros (?&?&_)].
Qed.
Lemma trying_ok {A} (p : W → res A * W) w r w' : trying p w = (inr r, w') ↔ p w = (r, w').
Proof. unfold trying. destruct (p w) as [r1 w1]; split; intros H; by inversion H. Qed.
Lemma trying_not_fail {A} (p : W → res A * W) w st w' : trying p w ≠ (inl st, w').
Proof. unfold trying. by destruct (p w). Qed.
Lemma handler_ret_ok {A} (a b : A) (w w' : W) : mret (M:=Handler W) a w = (inr b, w') ↔ b = a ∧ w' = w.
Proof. unfold mret, handler_ret. split; [by intros [= -> ->]|by intros [-> ->]]. Qed.
Lemma send_all_open {A} (l sent : list A) (w : W) :
  send_all (Client0:=open_client A) l (w, sent) = (inr tt, (w, sent ++ l)).
Proof.
  revert sent. induction l as [|m l IH]; intros sent; simpl; [by rewrite app_nil_r|].
  unfold mbind, handler_bind, Send. simpl. rewrite IH. by rewrite <- app_assoc.
Qed.
End Facts.

(** [handler_inv] decomposes a run that returned a response. *)
Ltac handler_step :=
  match goal with
  | H : refuse _ _ = (inr _, _) |- _ => discriminate H
  | H : reject _ _ _ = (inr _, _) |- _ => discriminate H
  | H : mret _ _ = (inr _, _) |- _ => apply handler_ret_ok in H as [? ?]; subst
  | H : answering _ _ = (inr _, _) |- _ => apply answering_ok in H
  | H : trying _ _ = (inr _, _) |- _ => apply trying_ok in H
  | H : (_ ≫= _) _ = (inr _, _) |- _ =>
      let H1 := fresh "Hpart" in apply handler_bind_ok in H as (?&?&H1&H)
  | H : (match ?x with _ => _ end) _ = (inr _, _) |- _ => destruct x eqn:?
  end.
Ltac handler_inv := repeat (handler_step; try discriminate).
