(* ===== verification/ServerResources.v ===== *)
(** [internal/server/api.go], the resource and flow services: apply and validate,
    get, delete, watch, export, compile and the graph preview.

    A submitted document is what yaml.v3 made of the bytes: its error or a value.
    The handlers of one request read the store several times and others commit in
    between; the calls draw from environments as in [Proc].  [projectResource]
    reads one store.  The plugin manager's views of the store are the class
    [ManagerViews]; [collaborators] says which of the pointers given to [NewAPI]
    are not nil (the daemon gives all of them).  The JSON and YAML texts of
    responses are their values. *)

From Stdlib Require String.
From S2P Require Import Prelude.
From S2P Require Import Json.
From S2P Require Import GoStd.
From S2P Require Import Resource.
From S2P Require Import Plan.
From S2P Require Import References.
From S2P Require Import FlowCompiler.
From S2P Require Import Db.
From S2P Require Import StoreRuns.
From S2P Require Import StoreResources.
From S2P Require Import Proc.
From S2P Require Import Orchestrator.
From S2P Require Import PluginController.
From S2P Require Import ServerPages.
From S2P Require Import ServerHandlers.

Local Open Scope Z_scope.

Record Collaborators := mkCollaborators { has_orchestrator : bool; has_plugins : bool; has_triggers : bool; has_pluginState : bool }.

(** [Manager.SecretStatus] and [Manager.ValidateTriggerProvider] over a store. *)
Class ManagerViews := {
  view_SecretStatus : Db → string → string → string * string;
  view_ValidateTriggerProvider : Db → ProviderValidator }.

(** ** Messages *)

Inductive Severity := SEVERITY_ERROR | SEVERITY_WARNING.
Record DiagnosticPB := mkDiagnosticPB { dp_severity : Severity; dp_path : string; dp_code : string; dp_message : string }.
Definition diagnosticPB (d : Diagnostic) : DiagnosticPB :=
  mkDiagnosticPB (if String.eqb (dg_severity d) SeverityWarning then SEVERITY_WARNING else SEVERITY_ERROR)
    (dg_path d) (dg_code d) (dg_message d).

Abbreviation Submitted := (string + Document)%type.
Record ApplyRequest := mkApplyRequest {
  aq_document : Submitted; aq_dryRun : bool; aq_expected : Z; aq_requestID : string; aq_context : string }.
Record ApplyResponse := mkApplyResponse { as_resource : ResourceDocument; as_diagnostics : list DiagnosticPB }.
Record DeleteRequest := mkDeleteRequest { dq_key : resource_key; dq_expected : Z; dq_requestID : string }.
Record WatchRequest := mkWatchRequest { wq_kind : string; wq_namespace : string; wq_after : Z }.
Record ResourceEvent := mkResourceEvent { we_revision : Z; we_type : string; we_resource : ResourceDocument; we_observed : string }.
Record CompileResponse := mkCompileResponse { cs_diagnostics : list DiagnosticPB; cs_plan : option ExecutionPlan; cs_hash : string }.
Record GraphNode := mkGraphNode { gn_id : string; gn_label : string; gn_action : string }.
Record GraphEdge := mkGraphEdge { ge_from : string; ge_to : string; ge_condition : string }.
Record PreviewGraphResponse := mkPreview { pv_nodes : list GraphNode; pv_edges : list GraphEdge; pv_diagnostics : list DiagnosticPB }.

Section Api.
Context {cal : Calendar} {dig : Digest} {compiler : FlowCompiler} {views : ManagerViews}.
Context {R : Type} {runtime : PluginRuntime R} (collaborators : Collaborators).
Abbreviation W := (Db * R)%type.

(** A typed decoder over the submitted value. *)
Definition submitted {A} (decode : Document → res A) (raw : Submitted) : rpc A :=
  match raw with
  | inl e => inl (invalid e)
  | inr d => match decode d with inl e => inl (invalid (error_text e)) | inr a => inr a end
  end.

(** ** Diagnostics and projection *)

Definition resolver (s : Db) : Resolver :=
  mkResolver (Some (λ kind namespace name, result (Get kind namespace name) s)) (Some (view_ValidateTriggerProvider s)).
(** The compiler's and the resolver's part. *)
Definition document_diagnostics (s : Db) (document : Document) : res (list Diagnostic) :=
  compiled ← match doc_spec document with
             | SpecFlow _ => flow ← DecodeFlow document; ok (Compile flow).2
             | _ => ok [] end;
  ok (compiled ++ if Supports (doc_kind document) then References.Diagnostics (resolver s) document else []).
Definition installation_diagnostics (env : Env) (document : Document) : World R (list Diagnostic) := λ w,
  let '(found, w) := PluginController.Diagnostics env document w in (ok found, w).
Definition resourceDiagnostics (env : Env) (document : Document) : World R (list Diagnostic) :=
  s ← on_store (snapshot env 3);
  diagnostics ← world_lift (document_diagnostics s document);
  if String.eqb (doc_kind document) "PluginInstallation" && has_pluginState collaborators
  then more ← installation_diagnostics env document; mret (diagnostics ++ more)
  else mret diagnostics.

(** [resourceDiagnostics] on the kinds for which the plugin controller has no say. *)
Definition projectResource (s : Db) (document : Document) : ResourceDocument :=
  match doc_spec document with
  | SpecSecretRef _ =>
      let '(state, backend) := if has_plugins collaborators
        then view_SecretStatus s (m_namespace (doc_meta document)) (m_name (doc_meta document)) else ("Missing", "unknown") in
      resourcePB (WithServerStatus [("backend", JStr backend); ("state", JStr state)] document)
  | _ =>
      if String.eqb (doc_kind document) "Flow" || Supports (doc_kind document) then
        match document_diagnostics s document with
        | inr diagnostics => resourcePB (WithServerStatus (Status document diagnostics) document)
        | inl _ => resourcePB document
        end
      else resourcePB document
  end.
Definition projected (env : Env) (i : nat) (document : Document) : Handler W ResourceDocument := λ w,
  let '(r, s) := snapshot env i w.1 in
  (match r with inr seen => inr (projectResource seen document) | inl _ => inr (resourcePB document) end, (s, w.2)).

(** ** Apply *)

Definition apply (envs : nat → Env) (request : ApplyRequest) (dryRun : bool) : Handler W ApplyResponse :=
  doc ← lift_rpc (submitted DecodeStrict (aq_document request));
  let doc := WithServerStatus [] doc in
  found ← trying (resourceDiagnostics (envs 0%nat) doc);
  match found with
  | inl e => reject InvalidArgument (error_text e)
  | inr found =>
      let diagnostics := diagnosticPB <$> found in
      if HasErrors found then mret (mkApplyResponse (resourcePB doc) diagnostics)
      else if dryRun then mret (mkApplyResponse (resourcePB doc) diagnostics)
      else
        let env := envs 1%nat in
        applied ← answering (on_store (call env 0 (Apply doc
                    (mkApplyOptions (aq_expected request) (aq_requestID request) "unix-peer" (aq_context request))
                    (uuid_at env 0) (uuid_at env 1) (now_at env 0))));
        resource ← projected env 1 applied;
        mret (mkApplyResponse resource diagnostics)
  end.
Definition Apply_ (envs : nat → Env) (request : ApplyRequest) : Handler W ApplyResponse := apply envs request (aq_dryRun request).
Definition Validate (envs : nat → Env) (request : ApplyRequest) : Handler W ApplyResponse := apply envs request true.

(** ** Get and delete *)

Definition Get_ (env : Env) (key : resource_key) : Handler W ResourceDocument :=
  doc ← answering (on_store (call env 0 (Get key.1.1 key.1.2 key.2)));
  projected env 1 doc.

Definition deletable (env : Env) (key : resource_key) : Handler W unit :=
  if negb (String.eqb key.1.1 "PluginInstallation") then mret tt else
  document ← answering (on_store (call env 0 (Get key.1.1 key.1.2 key.2)));
  installation ← answering (world_lift (DecodePluginInstallation document));
  if is_enabled installation
  then reject FailedPrecondition "an enabled PluginInstallation must be disabled before deletion" else mret tt.
Definition Delete_ (env : Env) (request : DeleteRequest) : Handler W unit :=
  let key := dq_key request in
  deletable env key ≫= λ _,
  answering (on_store (call env 1 (Delete key.1.1 key.1.2 key.2 (dq_expected request) (dq_requestID request) (uuid_at env 1) (stamp env 1)))).

(** ** Watch *)

Definition event_document (env : Env) (event : ResourceEventRow) : Handler W ResourceDocument :=
  match re_doc event with
  | Some d =>
      match DecodeStrict d with
      | inl _ => reject Internal "stored resource event is invalid"
      | inr doc => projected env 0 doc
      end
  | None => mret (mkResourceDocument (re_kind event, re_namespace event, re_name event) (re_uid event) (re_revision event) 0 None)
  end.
Context {client : Client ResourceEvent}.
Fixpoint send_events (envs : nat → Env) (n : nat) (events : list ResourceEventRow) (revision : Z) : Handler (W * list ResourceEvent) Z :=
  match events with
  | [] => mret revision
  | event :: events =>
      document ← on_first (event_document (envs n) event);
      Send (mkResourceEvent (re_revision event) (re_type event) document (re_observed event)) ≫= λ _,
      send_events envs (S n) events (re_revision event)
  end.
Definition watch_turn (request : WatchRequest) (envs : nat → Env) (revision : Z) : Handler (W * list ResourceEvent) Z :=
  events ← on_first (answering (on_store (call (envs 0%nat) 0 (EventsAfter (wq_kind request) (wq_namespace request) revision 100))));
  send_events envs 1 events revision.
Definition Watch (request : WatchRequest) (turns : list (nat → Env)) : Handler (W * list ResourceEvent) unit :=
  polling (watch_turn request) turns (wq_after request).

(** ** Export *)

Fixpoint Export (env : Env) (n : nat) (keys : list resource_key) : Handler W (list Document) :=
  match keys with
  | [] => mret []
  | key :: keys =>
      doc ← answering (on_store (call env n (Get key.1.1 key.1.2 key.2)));
      docs ← Export env (S n) keys;
      mret (WithServerStatus [] doc :: docs)
  end.

(** ** Compile *)

Definition CompileFlow (raw : Submitted) : rpc CompileResponse :=
  match submitted DecodeFlow raw with
  | inl e => inl e
  | inr flow =>
      let '(plan, diagnostics) := Compile flow in
      inr (mkCompileResponse (diagnosticPB <$> diagnostics) (if HasErrors diagnostics then None else Some plan) (pl_planHash plan))
  end.
(** The plan is read back from its JSON. *)
Definition PreviewGraph (raw : Submitted) : rpc PreviewGraphResponse :=
  match CompileFlow raw with
  | inl e => inl e
  | inr compiled =>
      inr match cs_plan compiled with
          | None => mkPreview [] [] (cs_diagnostics compiled)
          | Some plan =>
              mkPreview ((λ n, mkGraphNode (pn_id n) (pn_name n) (pn_uses n)) <$> pl_nodes plan)
                ((λ e, mkGraphEdge (pe_from e) (pe_to e) (pe_condition e)) <$> pl_edges plan) (cs_diagnostics compiled)
          end
  end.
End Api.
