(* ===== verification/ServerRuns.v ===== *)
(** [internal/server/api.go], the run service: starting and listing runs, the event
    stream, attempts, artifacts, decisions and cancellations.

    The handlers run over the database and the state [E] of the workflow engine.
    The daemon's state directory is the class [StateDir]: [os.OpenRoot] confines
    the paths it opens.  A row of the store with its key stands for the message
    built from it; a zero completion time is [None]. *)

From Stdlib Require String.
From S2P Require Import Prelude.
From S2P Require Import Json.
From S2P Require Import GoStd.
From S2P Require Import Resource.
From S2P Require Import Plan.
From S2P Require Import FlowCompiler.
From S2P Require Import Db.
From S2P Require Import StoreRuns.
From S2P Require Import StoreResources.
From S2P Require Import StoreOutbox.
From S2P Require Import Proc.
From S2P Require Import EngineNode.
From S2P Require Import EngineAdapter.
From S2P Require Import Orchestrator.
From S2P Require Import PluginController.
From S2P Require Import ServerPages.
From S2P Require Import ServerHandlers.

Local Open Scope Z_scope.

Definition u32 (x : Z) : Z := x mod 2 ^ 32.

(** ** Messages *)

Record StartRunRequest := mkStartRunRequest { sq_flow : string; sq_input : string; sq_key : string }.
Record ListRunsRequest := mkListRunsRequest { lr_flow : string; lr_phase : string; lr_limit : Z }.
Record WatchRunRequest := mkWatchRunRequest { wr_uid : string; wr_after : Z }.
Record ApprovalRequest := mkApprovalRequest { aq_run : string; aq_node : string; aq_reason : string }.
Record RunSummary := mkRunSummary {
  ru_uid : string; ru_flow : string; ru_phase : string; ru_plan : string; ru_interpreter : string; ru_created : string; ru_updated : string }.
Definition runPB (run : string * RunRow) : RunSummary :=
  mkRunSummary run.1 (run_flow run.2) (run_phase run.2) (run_plan run.2) (run_interpreter run.2) (run_created run.2) (run_updated run.2).
Record NodeAttempt := mkNodeAttempt {
  na_run : string; na_node : string; na_iteration : Z; na_attempt : Z; na_framework : Z; na_phase : string; na_key : string;
  na_input : string; na_output : string; na_error : string; na_outcome : string; na_started : string; na_completed : option string }.
Definition attemptPB (a : attempt_key * AttemptRow) : NodeAttempt :=
  let '((run, node, iteration, attempt), r) := a in
  mkNodeAttempt run node (u32 iteration) attempt (at_framework r) (at_phase r) (at_key r) (at_input r)
    (default "" (at_output r)) (at_error r) (at_outcome r) (at_started r) (at_completed r).
Record ArtifactInfo := mkArtifactInfo {
  ai_uid : string; ai_run : string; ai_node : string; ai_iteration : Z; ai_attempt : Z; ai_name : string; ai_mediaType : string;
  ai_size : Z; ai_sha256 : string; ai_created : string; ai_updated : string }.
Definition artifactPB (a : (attempt_key * string) * ArtifactRow) : ArtifactInfo :=
  let '((run, node, iteration, attempt, name), r) := a in
  mkArtifactInfo (ar_uid r) run node (u32 iteration) attempt name (ar_mediaType r) (ar_size r) (ar_sha256 r) (ar_created r) (ar_updated r).

Definition validRunPhase (phase : string) : bool :=
  existsb (String.eqb phase) ["pending"; "running"; "waiting"; "succeeded"; "failed"; "rejected"; "cancelled"].

(** ** Files *)

(** What [Stat] (a regular file, the size) and reading the file give. *)
Record OpenedFile := mkOpenedFile { of_stat : option (bool * Z); of_content : string + string }.
Class StateDir := {
  OpenRoot : option string;            (* an error *)
  root_Open : string → option OpenedFile }.

Definition maxArtifactDownload : Z := 67108864.
Definition chunkSize : nat := Z.to_nat 65536.
(** [io.ReadAll(io.LimitReader(file, limit))]. *)
Definition ReadLimited (limit : Z) (content : string) : string :=
  if Z.of_nat (String.length content) <=? limit then content else String.substring 0 (Z.to_nat limit) content.

Definition secureArtifactName (relativePath : string) : string + string :=
  if String.eqb relativePath "" || path_is_abs relativePath then inl "artifact path is not relative"
  else
    let name := path_clean relativePath in
    if String.eqb name "." || String.eqb name ".." || has_prefix name "../" then inl "artifact path escapes state directory"
    else inr name.

Section Api.
Context {cal : Calendar} {compiler : FlowCompiler} {E : Type} {engine : WorkflowClient E} {sha : Sha256} {files : StateDir}.
Context (fault : Boundary → option Err).
Abbreviation W := (Db * E)%type.

(** ** Starting and reading runs *)

(** The receipt is looked up in one store, accepted in the next. *)
Definition start_manual (env : Env) (flow input key : string) : Proc Receipt := λ s,
  let s := others env 0 s in
  StartManual fault flow DefaultNamespace input key (uuid_at env 0) (uuid_at env 1) (uuid_at env 2) (stamp env 1) s (others env 1 s).
Definition Start_ (env : Env) (request : StartRunRequest) : Handler W string :=
  if String.eqb (sq_flow request) "" then reject InvalidArgument "flow is required" else
  let input := nonempty (sq_input request) in
  if negb (valid input) then reject InvalidArgument "input_json must be valid JSON" else
  receipt ← answering (on_store (start_manual env (sq_flow request) input (sq_key request)));
  mret (rt_run receipt).

Definition flow_uid (env : Env) (flow : string) : Handler W string :=
  if String.eqb flow "" then mret "" else
  found ← trying (on_store (call env 0 (Get "Flow" DefaultNamespace flow)));
  match found with
  | inr document => mret (m_uid (doc_meta document))
  | inl ErrNotFound => mret flow
  | inl e => refuse (rpcError e)
  end.
Definition ListRuns_ (env : Env) (request : ListRunsRequest) : Handler W (list RunSummary) :=
  if 1000 <? lr_limit request then reject InvalidArgument "limit must not exceed 1000"
  else if negb (String.eqb (lr_phase request) "") && negb (validRunPhase (lr_phase request))
  then reject InvalidArgument "phase filter is invalid" else
  flowUID ← flow_uid env (lr_flow request);
  runs ← answering (on_store (call env 1 (ListRunsFiltered flowUID (lr_phase request) (lr_limit request))));
  mret (runPB <$> runs).
Definition GetRun_ (env : Env) (uid : string) : Handler W RunSummary :=
  if String.eqb uid "" then reject InvalidArgument "uid is required" else
  run ← answering (on_store (call env 0 (GetRun uid)));
  mret (runPB (uid, run)).
(** The plan and its hash. *)
Definition RunPlan (env : Env) (uid : string) : Handler W (ExecutionPlan * string) :=
  run ← answering (on_store (call env 0 (GetRun uid)));
  plan ← answering (on_store (call env 1 (GetPlan (run_plan run))));
  mret (plan, pl_planHash plan).
Definition ListAttempts (env : Env) (run node : string) (limit : Z) : Handler W (list NodeAttempt) :=
  if String.eqb run "" then reject InvalidArgument "run_uid is required" else
  attempts ← answering (on_store (call env 0 (ListNodeAttempts run node limit)));
  mret (attemptPB <$> attempts).
Definition ListArtifacts_ (env : Env) (run : string) (limit : Z) : Handler W (list ArtifactInfo) :=
  if String.eqb run "" then reject InvalidArgument "run_uid is required" else
  artifacts ← answering (on_store (call env 0 (ListArtifacts run limit)));
  mret (artifactPB <$> artifacts).

(** ** Events *)

Definition events_turn {events_client : Client RunEventRow} (request : WatchRunRequest) (env : Env) (sequence : Z)
    : Handler (W * list RunEventRow) Z :=
  events ← on_first (answering (on_store (call env 0 (RunEventsAfter (wr_uid request) sequence 100))));
  send_all events ≫= λ _,
  mret (default sequence (ev_seq <$> last events)).
Definition WatchEvents {events_client : Client RunEventRow} (request : WatchRunRequest) (turns : list Env) : Handler (W * list RunEventRow) unit :=
  polling (events_turn request) turns (wr_after request).

(** ** Artifacts *)

(** [for offset := 0; offset < len(data); offset += 64 << 10], [n] turns at most. *)
Fixpoint send_chunks {chunk_client : Client string} (n : nat) (data : string) (offset : nat) : Handler (W * list string) unit :=
  match n with
  | O => mret tt
  | S n =>
      if (offset <? String.length data)%nat then
        let stop := Nat.min (offset + chunkSize) (String.length data) in
        Send (String.substring offset (stop - offset) data) ≫= λ _, send_chunks n data (offset + chunkSize)
      else mret tt
  end.
Definition GetArtifact {chunk_client : Client string} (env : Env) (uid : string) : Handler (W * list string) unit :=
  if String.eqb uid "" then reject InvalidArgument "uid is required" else
  artifact ← on_first (answering (on_store (call env 0 (ArtifactByUID uid))));
  if (ar_size artifact <? 0) || (maxArtifactDownload <? ar_size artifact)
  then reject ResourceExhausted "artifact exceeds the 64 MiB download limit" else
  match secureArtifactName (ar_path artifact) with
  | inl e => reject Internal e
  | inr name =>
      match OpenRoot with
      | Some e => reject Internal e
      | None =>
          match root_Open name with
          | None => reject DataLoss "registered artifact file is unavailable"
          | Some file =>
              if match of_stat file with Some (regular, size) => negb regular || negb (size =? ar_size artifact) | None => true end
              then reject DataLoss "artifact metadata does not match the registered file" else
              match of_content file with
              | inl e => reject Internal e
              | inr content =>
                  let data := ReadLimited (maxArtifactDownload + 1) content in
                  if negb (Z.of_nat (String.length data) =? ar_size artifact)
                  then reject DataLoss "artifact size changed while it was read"
                  else if negb (String.eqb (FlowCompiler.sha256_hex data) (ar_sha256 artifact))
                  then reject DataLoss "artifact digest verification failed"
                  else send_chunks (S (String.length data)) data 0
              end
          end
      end
  end.

(** ** Decisions and cancellations *)

Definition on_engine {A} (f : E → res A * E) : Db * E → res A * (Db * E) := λ w, let '(r, e) := f w.2 in (r, (w.1, e)).

Definition decide_ (env : Env) (request : ApprovalRequest) (decision : string) : Handler W unit :=
  if String.eqb (aq_run request) "" || String.eqb (aq_node request) "" then reject InvalidArgument "run_uid and node_id are required" else
  answering (on_store (call env 0 (DecideApproval (aq_run request) (aq_node request) decision "unix-peer" (aq_reason request) (stamp env 0)))) ≫= λ _,
  sent ← trying (on_engine (SignalApproval (aq_run request) (aq_node request) (mkApproval decision (aq_reason request))));
  match sent with
  | inl _ => mret tt
  | inr _ => answering (on_store (call env 1 (MarkApprovalSignaled (aq_run request) (aq_node request))))
  end.
Definition Approve (env : Env) (request : ApprovalRequest) : Handler W unit := decide_ env request "approved".
Definition Reject (env : Env) (request : ApprovalRequest) : Handler W unit := decide_ env request "rejected".

Definition Cancel_ (env : Env) (run reason : string) : Handler W unit :=
  answering (on_store (call env 0 (RequestRunCancellation run reason (stamp env 0)))) ≫= λ _,
  cancelled ← trying (on_engine (EngineAdapter.Cancel run reason));
  match cancelled with
  | inl ErrNotFound =>
      answering (on_store (call env 1 (MarkRunCancellationDeliveredIfStartImpossible run (stamp env 1)))) ≫= λ _, mret tt
  | inl _ => mret tt
  | inr _ => answering (on_store (call env 1 (MarkRunCancellationDelivered run (stamp env 1))))
  end.
Definition Reconcile_ (env : Env) (run : string) : Handler W RunSummary :=
  answering (λ w : Db * E, EngineAdapter.Reconcile (stamp env 0) w.1 w.2) ≫= λ _,
  row ← answering (on_store (call env 1 (GetRun run)));
  mret (runPB (run, row)).
End Api.
