(* ===== verification/ServerPlugins.v ===== *)
(** [internal/server/api.go], the plugin, trigger and system services: uploads,
    enabling and disabling, health, doctor, trigger previews and overrides.

    The handlers run over the database, the state [R] of the plugin manager and the
    plugin controller.  What the handlers ask of the manager is the class
    [PluginService]; [manager_service] is the manager of [ManagerAdmin].  Identity
    and version of the process ([Info]) and backups are not modelled. *)

From Stdlib Require String.
From S2P Require Import Prelude.
From S2P Require Import Json.
From S2P Require Import GoStd.
From S2P Require Import Resource.
From S2P Require Import Plan.
From S2P Require Import ActionContract.
From S2P Require Import PluginMapping.
From S2P Require Import Db.
From S2P Require Import StoreRuns.
From S2P Require Import StoreResources.
From S2P Require Import StoreOutbox.
From S2P Require Import StorePlugins.
From S2P Require Import PluginContract.
From S2P Require Import FlowCompiler.
From S2P Require Import PluginSchema.
From S2P Require Import PluginBundle.
From S2P Require Import Proc.
From S2P Require Import EngineNode.
From S2P Require Import ManagerBind.
From S2P Require Import Redact.
From S2P Require Import ManagerRun.
From S2P Require Import ManagerStream.
From S2P Require Import Orchestrator.
From S2P Require Import Trigger.
From S2P Require Import PluginController.
From S2P Require Import ManagerAdmin.
From S2P Require Import ServerPages.
From S2P Require Import ServerHandlers.
From S2P Require Import ServerResources.

Local Open Scope Z_scope.

(** ** Uploads *)

Definition maxBundleUpload : Z := 134217728.
(** The chunks with their [final] marks, then the end of the stream or an error. *)
Record Upload := mkUpload { up_chunks : list (string * bool); up_end : option RpcStatus }.
Fixpoint receive (chunks : list (string * bool)) (ending : option RpcStatus) (bundle : string) (final : bool) : rpc (string * bool) :=
  match chunks with
  | [] => match ending with Some e => inl e | None => inr (bundle, final) end
  | (chunk, mark) :: chunks =>
      if final then inl (invalid "bundle data followed final chunk")
      else if maxBundleUpload <? Z.of_nat (String.length bundle) + Z.of_nat (String.length chunk)
      then inl (mkStatus ResourceExhausted "plugin bundle exceeds 128 MiB")
      else
        let bundle := bundle +:+ chunk in
        if mark then inr (bundle, true) else receive chunks ending bundle false
  end.
Definition receive_bundle (upload : Upload) : rpc string :=
  match receive (up_chunks upload) (up_end upload) "" false with
  | inl e => inl e
  | inr (bundle, final) => if final then inr bundle else inl (invalid "plugin bundle is missing a final chunk")
  end.

(** ** Interfaces *)

Class PluginService (R : Type) := {
  sv_Install : string → World R PluginRecord;
  sv_List : World R (list PluginRecord);
  sv_Describe : string → string → World R PluginRecord;
  sv_Doctor : nat → string → string → World R unit;
  sv_Health : World R (list HealthDiagnostic) }.

(** A temporary file in the state directory: not created, or whether it closed;
    whether [git] is on the path. *)
Class SystemHost := { create_temporary : option bool; git_found : bool }.

Record PluginInfo := mkPluginInfo { pf_name : string; pf_version : string; pf_digest : string; pf_state : string; pf_capabilities : list string }.
(** A stored manifest is one that was validated; the error of decoding is ignored. *)
Definition pluginInfo (record : PluginRecord) : PluginInfo :=
  mkPluginInfo (pv_name record) (pv_version record) (pv_digest record)
    (if pv_active record then "active" else pv_state record)
    (match decode_manifest (pv_manifest record) with Some m => mf_capabilities m | None => [] end).

Record HealthResponse := mkHealthResponse { hr_ready : bool; hr_diagnostics : list DiagnosticPB }.
Definition healthPB (d : HealthDiagnostic) : DiagnosticPB := mkDiagnosticPB SEVERITY_ERROR (hd_path d) (hd_code d) (hd_message d).
Definition systemDiagnostic (path code message : string) : DiagnosticPB := mkDiagnosticPB SEVERITY_ERROR path code message.

Section Api.
Context {cal : Calendar} {dig : Digest} {cron : CronLibrary} {R : Type} {runtime : PluginRuntime R} {service : PluginService R} {system : SystemHost}.
Context (collaborators : Collaborators).
Abbreviation W := ((Db * R) * PluginController.controller)%type.

(** ** The plugin service *)

Definition reconciling (env : PassEnv) (order : list string → list string) : W → res unit * W := λ w,
  let '(r, dr, c) := PluginController.Reconcile env order w.1 w.2 in (r, (dr, c)).
Definition setting (reads : Env) (writes : nat → Env) (env : PassEnv) (order : list string → list string) (plugin version : string) (enabled : bool)
    : W → res unit * W := λ w,
  let '(r, dr, c) := SetEnabled reads writes env order plugin version enabled w.1 w.2 in (r, (dr, c)).

(** Name, version and digest. *)
Definition InstallPlugin (env : Env) (pass : PassEnv) (order : list string → list string) (upload : Upload) : Handler W (string * string * string) :=
  if negb (has_plugins collaborators) then reject Unavailable "plugin manager is unavailable" else
  bundle ← lift_rpc (receive_bundle upload);
  record ← on_first (answering (sv_Install bundle));
  (if has_pluginState collaborators then
     on_first (answering (on_store (ensureProjection env record))) ≫= λ _,
     answering (reconciling pass order)
   else mret tt) ≫= λ _,
  mret (pv_name record, pv_version record, pv_digest record).
Definition EnablePlugin (reads : Env) (writes : nat → Env) (pass : PassEnv) (order : list string → list string) (name version : string) : Handler W unit :=
  if negb (has_pluginState collaborators) then reject Unavailable "plugin installation controller is unavailable"
  else answering (setting reads writes pass order name version true).
Definition DisablePlugin_ (reads : Env) (writes : nat → Env) (pass : PassEnv) (order : list string → list string) (name : string) : Handler W unit :=
  if negb (has_pluginState collaborators) then reject Unavailable "plugin installation controller is unavailable"
  else answering (setting reads writes pass order name "" false).
Definition ListPlugins_ : Handler W (list PluginInfo) :=
  records ← on_first (answering sv_List);
  mret (pluginInfo <$> records).
Definition DescribePlugin (name version : string) : Handler W PluginInfo :=
  record ← on_first (answering (sv_Describe name version));
  mret (pluginInfo record).
Definition DoctorPlugin (name version : string) : Handler W (list DiagnosticPB) :=
  checked ← on_first (trying (sv_Doctor 0 name version));
  mret match checked with inl e => [systemDiagnostic "plugin" "doctor_failed" (error_text e)] | inr _ => [] end.

(** ** The system service *)

(** The trackers of the orchestrator and the trigger controller. *)
Definition Health (control triggers : Tracker) : Handler W HealthResponse := λ w,
  let first := (if has_orchestrator collaborators then Snapshot control else []) ++ (if has_triggers collaborators then Snapshot triggers else []) in
  let '(found, dr) := if has_plugins collaborators then sv_Health w.1 else (ok [], w.1) in
  let found := match found with inr l => l | inl _ => [] end in
  let state := if has_pluginState collaborators then Snapshot (pc_health w.2) else [] in
  let diagnostics := sort_by diagnostic_order (first ++ found ++ state) in
  (inr (mkHealthResponse (length diagnostics =? 0)%nat (healthPB <$> diagnostics)), (dr, w.2)).

Fixpoint doctor_active (n : nat) (records : list PluginRecord) : Handler W (list DiagnosticPB) :=
  match records with
  | [] => mret []
  | record :: records =>
      if negb (pv_active record) then doctor_active n records else
      checked ← on_first (trying (sv_Doctor n (pv_name record) (pv_version record)));
      found ← doctor_active (S n) records;
      mret match checked with
           | inl _ => systemDiagnostic ("plugins/" +:+ pv_name record) "doctor_failed"
                        "active plugin or one of its configured profiles failed its doctor check; inspect daemon logs" :: found
           | inr _ => found
           end
  end.
Definition doctor_plugins : Handler W (list DiagnosticPB) :=
  if negb (has_plugins collaborators) then mret [] else
  records ← on_first (trying sv_List);
  match records with
  | inl _ => mret [systemDiagnostic "plugins" "state_unavailable" "plugin installation state is unavailable"]
  | inr records => doctor_active 0 records
  end.
Definition Doctor_ : Handler W (list DiagnosticPB) :=
  let storage := match create_temporary with
    | None => [systemDiagnostic "storage" "not_writable" "daemon state storage is not writable"]
    | Some false => [systemDiagnostic "storage" "sync_failed" "daemon state storage check could not be completed"]
    | Some true => [] end in
  let git := if git_found then [] else [systemDiagnostic "executables/git" "not_found" "system git is not available on the daemon PATH"] in
  plugins ← doctor_plugins;
  mret (sort_by (onc dp_path str_cmp) (storage ++ git ++ plugins)).

(** ** The trigger service *)

Definition trigger_by_uid (env : Env) (uid : string) : Handler W (ObjectMeta * TriggerSpec) :=
  document ← on_first (answering (on_store (call env 0 (ResourceByUID "Trigger" uid))));
  answering (λ w, (DecodeTrigger document, w)).
(** Identity and instant of each. *)
Definition NextTriggerOccurrences (env : Env) (uid : string) (count : Z) : Handler W (list (string * Z)) :=
  trigger ← trigger_by_uid env uid;
  match NextOccurrences trigger (now_at env 0) count with
  | inl e => reject InvalidArgument (error_text e)
  | inr occurrences => mret ((λ at_, (OccurrenceIdentity trigger.1 at_, at_)) <$> occurrences)
  end.
Definition SetTriggerEnabled_ (env : Env) (uid : string) (enabled : bool) : Handler W unit :=
  trigger ← trigger_by_uid env uid;
  on_first (answering (on_store (call env 1 (EnsureTriggerState (m_uid trigger.1) (m_generation trigger.1)
    (trigger_enabled trigger.2) (now_at env 1) (stamp env 1))))) ≫= λ _,
  on_first (answering (on_store (call env 2 (SetTriggerEnabled (m_uid trigger.1) enabled (stamp env 2))))).
Definition TriggerReceipts_ (env : Env) (trigger : string) (limit : Z) : Handler W (list Receipt * list ((string * string) * SkipRow)) :=
  receipts ← on_first (answering (on_store (call env 0 (TriggerReceipts trigger limit))));
  skips ← on_first (answering (on_store (call env 1 (TriggerSkips trigger limit))));
  mret (receipts, skips).
End Api.

(** ** The manager behind the service *)

Definition manager_service {cal : Calendar} {dig : Digest} {semver : Semver} {schemas : SdkSchemas} {sha : Sha256} {archives : Archives}
    {P : Type} {processes : ProcessHost P} {host : Host} {plugins : PluginHost} (targetOS targetArch root : string) (env : ManagerEnv) (install : Env)
    (doctor : nat → Env) : PluginService (Manager P) := {|
  sv_Install := Install targetOS targetArch root install;
  sv_List := List_plugins (me_list env 0%nat);
  sv_Describe := Describe_plugin (me_list env 1%nat);
  sv_Doctor n := Doctor targetOS targetArch root (doctor n);
  sv_Health := HealthDiagnostics targetOS targetArch root (me_health env) (me_arrival env) (me_answered env) |}.
