(* ===== verification/Retention.v ===== *)
(** [internal/retention/retention.go] with [RemoveFinishedRun] of
    [internal/engine/engine.go] and the [Retention] handler of
    [internal/server/api.go]: an explainable plan of what may go, and its collection:
    the history in the workflow engine, the rows, then the files.

    The operating system is [FileSystem]: any state [F] with the calls the service
    makes, which may fail in any way.  Errors after the first commit leave the
    report of what was done so far, so the report is part of the state while
    collecting.  Paths are those of a Unix system. *)

From Stdlib Require Import Ascii.
From Stdlib Require String.
From S2P Require Import Prelude.
From S2P Require Import Json.
From S2P Require Import GoStd.
From S2P Require Import Resource.
From S2P Require Import Plan.
From S2P Require Import Db.
From S2P Require Import StoreRuns.
From S2P Require Import StorePlugins.
From S2P Require Import Proc.
From S2P Require Import EngineNode.
From S2P Require Import EngineAdapter.
From S2P Require Import ManagerStream.
From S2P Require Import PluginController.
From S2P Require Import ServerPages.
From S2P Require Import ServerHandlers.
From S2P Require Import ServerRuns.

Local Open Scope Z_scope.

(** ** Paths *)

(** [filepath.Join]. *)
Fixpoint filepath_Join (elements : list string) : string :=
  match elements with
  | [] => ""
  | e :: rest => if String.eqb e "" then filepath_Join rest else path_clean (join "/" elements)
  end.
Definition path_names (path : string) : list string := filter (λ name, name ≠ "") (split_on "/"%char path).
(** [filepath.Base]. *)
Definition filepath_Base (path : string) : string :=
  if String.eqb path "" then "." else default "/" (last (path_names path)).
(** [filepath.Rel] of two absolute paths. *)
Fixpoint relative_names (base target : list string) : list string :=
  match base, target with
  | b :: base', t :: target' =>
      if String.eqb b t then relative_names base' target' else replicate (length base) ".." ++ target
  | _, _ => replicate (length base) ".." ++ target
  end.
Definition filepath_Rel (base target : string) : string :=
  match relative_names (path_names (path_clean base)) (path_names (path_clean target)) with
  | [] => "."
  | names => join "/" names
  end.
Definition escapes (rel : string) : bool := String.eqb rel ".." || has_prefix rel "../".

Definition safeStatePath (root relative : string) : string + string :=
  if String.eqb relative "" || path_is_abs relative then inl "retention artifact path is not relative" else
  let target := filepath_Join [root; relative] in
  if escapes (filepath_Rel root target)
  then inl ("retention artifact path " +:+ quoted relative +:+ " escapes state directory") else inr target.

(** ** The operating system *)

Inductive FsError := NotExist | FsFailed (message : string).
Record FileInfo := mkFileInfo { fi_regular : bool; fi_symlink : bool; fi_size : Z; fi_mod : Z }.
Record DirEntry := mkDirEntry { de_name : string; de_symlink : bool; de_dir : bool; de_info : FsError + FileInfo }.
(** The calls [filepath.WalkDir] makes of its function as long as it returns nil. *)
Inductive WalkStep := WalkError (e : FsError) | WalkEntry (entry : DirEntry).
Class FileSystem (F : Type) := {
  os_Lstat : string → F → FsError + FileInfo;
  os_ReadDir : string → F → FsError + list DirEntry;
  os_WalkDir : string → F → list WalkStep;
  os_Remove : string → F → (FsError + unit) * F;
  os_RemoveAll : string → F → (FsError + unit) * F }.
Definition fs_error (e : FsError) : Err :=
  ErrMsg (match e with NotExist => "file does not exist" | FsFailed message => message end).

(** ** Reports *)

Record Item := mkItem { it_kind : string; it_identity : string; it_size : Z; it_reason : string }.
Record Report := mkReport {
  rp_dryRun : bool; rp_before : Z; rp_items : list Item; rp_runs : Z; rp_files : Z; rp_bytes : Z }.
Definition no_report : Report := mkReport false zero_time [] 0 0 0.
Record backupCandidate := mkBackup { bc_path : string; bc_mod : Z; bc_size : Z }.

(** ** Planning *)

Section Planning.
Context {F : Type} {fs : FileSystem F}.

Definition inspectArtifact (root relative : string) (f : F) : res (string * option FileInfo) :=
  match safeStatePath root relative with
  | inl e => fail (ErrMsg e)
  | inr path =>
      match os_Lstat path f with
      | inl NotExist => ok (path, None)
      | inl e => fail (fs_error e)
      | inr info =>
          if negb (fi_regular info) || fi_symlink info
          then fail (ErrMsg "retention refuses a non-regular artifact entry") else ok (path, Some info)
      end
  end.
Fixpoint check_artifacts (stateDir : string) (paths : list string) (f : F) : res unit :=
  match paths with
  | [] => ok tt
  | relative :: paths => inspectArtifact stateDir relative f ≫= λ _, check_artifacts stateDir paths f
  end.
Definition workspace_of (stateDir uid : string) : string := filepath_Join [stateDir; "workspaces"; uid].
Definition check_workspace (stateDir uid : string) (f : F) : res unit :=
  match os_Lstat (workspace_of stateDir uid) f with
  | inr info => if fi_symlink info then fail (ErrMsg "retention refuses a symlink workspace") else ok tt
  | inl NotExist => ok tt
  | inl e => fail (fs_error e)
  end.
Fixpoint plan_runs (stateDir : string) (candidates : list RetentionRun) (f : F) : res (list Item) :=
  match candidates with
  | [] => ok []
  | c :: candidates =>
      check_artifacts stateDir (rn_paths c) f ≫= λ _,
      check_workspace stateDir (rn_uid c) f ≫= λ _,
      items ← plan_runs stateDir candidates f;
      ok (mkItem "Run" (rn_uid c) (rn_bytes c) "terminal and older than cutoff" :: items)
  end.

Fixpoint backup_files (root : string) (entries : list DirEntry) : res (list backupCandidate) :=
  match entries with
  | [] => ok []
  | entry :: entries =>
      if de_symlink entry || de_dir entry || negb (has_suffix (de_name entry) ".tar.gz") then backup_files root entries else
      match de_info entry with
      | inl e => fail (fs_error e)
      | inr info =>
          all ← backup_files root entries;
          ok (if fi_regular info then mkBackup (filepath_Join [root; de_name entry]) (fi_mod info) (fi_size info) :: all else all)
      end
  end.
(** The newest first. *)
Definition newest_backup : backupCandidate → backupCandidate → comparison :=
  lexc (revc (onc bc_mod Z.compare)) (revc (onc bc_path str_cmp)).
Fixpoint select_backups (before keepRecent limit index found : Z) (all : list backupCandidate) : list backupCandidate :=
  match all with
  | [] => []
  | c :: all =>
      if (index <? keepRecent) || negb (bc_mod c <? before) then select_backups before keepRecent limit (index + 1) found all
      else c :: (if found + 1 =? limit then [] else select_backups before keepRecent limit (index + 1) (found + 1) all)
  end.
Definition planBackups (root : string) (before keepRecent limit : Z) (f : F) : res (list backupCandidate) :=
  match os_ReadDir root f with
  | inl NotExist => ok []
  | inl e => fail (fs_error e)
  | inr entries =>
      all ← backup_files root entries;
      ok (select_backups before keepRecent limit 0 0 (sort_by newest_backup all))
  end.

Fixpoint tree_size (steps : list WalkStep) (size : Z) : res Z :=
  match steps with
  | [] => ok size
  | WalkError NotExist :: steps => tree_size steps size
  | WalkError e :: _ => fail (fs_error e)
  | WalkEntry entry :: steps =>
      if de_symlink entry then fail (ErrMsg "retention refuses a symlink in an immutable plugin tree")
      else if de_dir entry then tree_size steps size
      else match de_info entry with
           | inl e => fail (fs_error e)
           | inr info =>
               if fi_regular info then tree_size steps (size + fi_size info)
               else fail (ErrMsg "retention refuses a non-regular plugin entry")
           end
  end.
Definition regularTreeSize (root : string) (f : F) : res Z := tree_size (os_WalkDir root f) 0.
Definition plugin_directory (stateDir : string) (plugin : PluginRecord) : string :=
  filepath_Join [stateDir; "plugins"; pv_name plugin; pv_version plugin].
(** The plugins with their sizes ([pluginSizes]). *)
Fixpoint plan_plugins (stateDir : string) (plugins : list PluginRecord) (f : F) : res (list (PluginRecord * Z)) :=
  match plugins with
  | [] => ok []
  | plugin :: plugins =>
      size ← regularTreeSize (plugin_directory stateDir plugin) f;
      rest ← plan_plugins stateDir plugins f;
      ok ((plugin, size) :: rest)
  end.
Definition backup_item (b : backupCandidate) : Item :=
  mkItem "Backup" (filepath_Base (bc_path b)) (bc_size b) "older than cutoff and outside the preserved recent set".
Definition plugin_item (p : PluginRecord * Z) : Item :=
  mkItem "PluginInstallation" (pv_name p.1 +:+ "@" +:+ pv_version p.1) p.2 "inactive, old, and unreferenced".
End Planning.

(** ** [RemoveFinishedRun] *)

Class WorkflowHistory (E : Type) := {
  (** whether the instance is finished *)
  GetWorkflowInstanceState : string → E → res bool;
  RemoveWorkflowInstance : string → E → res unit * E }.

(** One turn per poll: what the engine did since the last one.  [late] is the error
    once the turns are over: the deadline passed or the context ended. *)
Fixpoint RemoveFinishedRun {E} {client : WorkflowClient E} {history : WorkflowHistory E}
    (turns : list (E → E)) (late : Err) (run : string) (e : E) : res unit * E :=
  match turns with
  | [] => (fail late, e)
  | turn :: turns =>
      let e := turn e in
      match findInstance run e with
      | inl ErrNotFound => (ok tt, e)
      | inl err => (fail err, e)
      | inr _ =>
          match GetWorkflowInstanceState run e with
          | inl err => (fail err, e)
          | inr finished => if finished : bool then RemoveWorkflowInstance run e else RemoveFinishedRun turns late run e
          end
      end
  end.
Definition retention_deadline : Err := ErrMsg "workflow instance did not become terminal within the retention deadline".

(** ** Collecting *)

Section Service.
Context {cal : Calendar} {E F : Type} {fs : FileSystem F}.
(** The engine, the files and the report so far. *)
Abbreviation C := ((E * F) * Report)%type.
Context (pruner : option (string → E → res unit * E)).

Definition on_files {A} (p : F → (FsError + A) * F) : World C (FsError + A) := λ w,
  let '(r, f) := p w.2.1.2 in (ok r, (w.1, ((w.2.1.1, f), w.2.2))).
Definition looking {A} (p : F → res A) : World C A := λ w, (p w.2.1.2, w).
Definition tally (runs files bytes : Z) : World C unit := λ w,
  let r := w.2.2 in
  (ok tt, (w.1, (w.2.1, mkReport (rp_dryRun r) (rp_before r) (rp_items r) (rp_runs r + runs) (rp_files r + files) (rp_bytes r + bytes)))).

Fixpoint prune_history (uids : list string) : World C unit :=
  match pruner, uids with
  | None, _ | _, [] => mret tt
  | Some RemoveFinishedRun, run :: uids =>
      (λ w, let '(r, e) := RemoveFinishedRun run w.2.1.1 in
            (match r with inl err => fail (wrap ("remove durable history for Run " +:+ run +:+ ": ") err) | inr _ => ok tt end,
             (w.1, ((e, w.2.1.2), w.2.2)))) ≫= λ _,
      prune_history uids
  end.

Definition remove_artifact (stateDir relative : string) : World C unit :=
  found ← looking (inspectArtifact stateDir relative);
  removed ← on_files (os_Remove found.1);
  match removed with
  | inr _ => tally 0 1 (if found.2 is Some info then fi_size info else 0)
  | inl NotExist => mret tt
  | inl e => world_lift (fail (fs_error e))
  end.
Fixpoint remove_artifacts (stateDir : string) (paths : list string) : World C unit :=
  match paths with
  | [] => mret tt
  | relative :: paths => remove_artifact stateDir relative ≫= λ _, remove_artifacts stateDir paths
  end.
Definition removeTreeWithin (root target : string) : World C unit :=
  let rel := filepath_Rel root target in
  if String.eqb rel "." || escapes rel then world_lift (fail (ErrMsg "retention tree escaped its owned root")) else
  found ← looking (λ f, ok (os_Lstat target f));
  match found with
  | inl NotExist => mret tt
  | inl e => world_lift (fail (fs_error e))
  | inr info =>
      if fi_symlink info then world_lift (fail (ErrMsg "retention refuses a symlink workspace")) else
      removed ← on_files (os_RemoveAll target);
      match removed with inr _ => mret tt | inl e => world_lift (fail (fs_error e)) end
  end.
(** [filepath.Dir] of a cleaned absolute path. *)
Definition parent (path : string) : string := "/" +:+ join "/" (removelast (path_names path)).
Fixpoint remove_parents (n : nat) (root current : string) : World C unit :=
  match n with
  | O => mret tt
  | S n =>
      if String.eqb current root then mret tt else
      removed ← on_files (os_Remove current);
      match removed with
      | inl (FsFailed _) => mret tt
      | _ => remove_parents n root (parent current)
      end
  end.
Definition removeEmptyParents (root start : string) : World C unit :=
  let start := path_clean start in
  remove_parents (S (length (path_names start))) (path_clean root) start.

Definition collect_files (stateDir : string) (c : RetentionRun) : World C unit :=
  remove_artifacts stateDir (rn_paths c) ≫= λ _,
  removeTreeWithin (filepath_Join [stateDir; "workspaces"]) (workspace_of stateDir (rn_uid c)) ≫= λ _,
  removeEmptyParents (filepath_Join [stateDir; "artifacts"]) (filepath_Join [stateDir; "artifacts"; rn_uid c]).
Fixpoint collect_candidates (stateDir : string) (candidates : list RetentionRun) : World C unit :=
  match candidates with
  | [] => mret tt
  | c :: candidates => collect_files stateDir c ≫= λ _, collect_candidates stateDir candidates
  end.
Fixpoint collect_backups (backups : list backupCandidate) : World C unit :=
  match backups with
  | [] => mret tt
  | b :: backups =>
      removed ← on_files (os_Remove (bc_path b));
      match removed with
      | inl (FsFailed e) => world_lift (fail (ErrMsg e))
      | _ => tally 0 1 (bc_size b) ≫= λ _, collect_backups backups
      end
  end.
(** [n] is the number of the store call. *)
Fixpoint collect_plugins (env : Env) (n : nat) (stateDir : string) (plugins : list (PluginRecord * Z)) : World C unit :=
  match plugins with
  | [] => mret tt
  | (p, size) :: plugins =>
      on_store (call env n (CollectRetainedPlugin (pv_name p) (pv_version p) (pv_digest p))) ≫= λ _,
      removeTreeWithin (filepath_Join [stateDir; "plugins"]) (plugin_directory stateDir p) ≫= λ _,
      tally 0 1 size ≫= λ _,
      collect_plugins env (S n) stateDir plugins
  end.
Definition collect_all (env : Env) (n : nat) (stateDir : string) (candidates : list RetentionRun) (backups : list backupCandidate)
    (plugins : list (PluginRecord * Z)) : World C unit :=
  tally (Z.of_nat (length candidates)) 0 0 ≫= λ _,
  collect_candidates stateDir candidates ≫= λ _,
  collect_backups backups ≫= λ _,
  collect_plugins env n stateDir plugins.

(** ** [Apply] *)

Record Plans := mkPlans { tp_runs : list RetentionRun; tp_backups : list backupCandidate; tp_plugins : list (PluginRecord * Z); tp_items : list Item }.
(** The planning makes the calls 0 to 2 + n for n Runs. *)
Definition plan (env : Env) (stateDir : string) (completedBefore keepRecent keepRecentBackups limit : Z) (includeInactivePlugins : bool)
    : World C Plans :=
  candidates ← on_store (PlanRunRetention env 0 completedBefore keepRecent limit);
  runs ← looking (plan_runs stateDir candidates);
  backups ← looking (planBackups (filepath_Join [stateDir; "backups"]) completedBefore keepRecentBackups limit);
  plugins ← (if includeInactivePlugins then
               records ← on_store (PlanPluginRetention env (1 + length candidates) completedBefore limit);
               looking (plan_plugins stateDir records)
             else mret []);
  mret (mkPlans candidates backups plugins (runs ++ (backup_item <$> backups) ++ (plugin_item <$> plugins))).

(** The report and the error. *)
Definition Apply (env : Env) (stateDir : string) (completedBefore keepRecent keepRecentBackups limit : Z)
    (collect includeInactivePlugins : bool) (w : Db * (E * F)) : Report * option Err * (Db * (E * F)) :=
  let stateDir := path_clean stateDir in
  if negb (path_is_abs stateDir) then ((no_report, Some (ErrMsg "retention state directory must be absolute")), w) else
  let '(planned, w1) := plan env stateDir completedBefore keepRecent keepRecentBackups limit includeInactivePlugins (w.1, (w.2, no_report)) in
  match planned with
  | inl err => ((no_report, Some err), (w1.1, w1.2.1))
  | inr p =>
      let report := mkReport (negb collect) completedBefore (tp_items p) 0 0 0 in
      if negb collect || (length (tp_runs p) + length (tp_backups p) + length (tp_plugins p) =? 0)%nat
      then ((report, None), (w1.1, w1.2.1)) else
      let uids := rn_uid <$> tp_runs p in
      let n := (3 + length uids)%nat in
      let '(committed, w2) := (prune_history uids ≫= λ _, on_store (call env n (CollectRetainedRuns uids (stamp env n)))) (w1.1, (w1.2.1, report)) in
      match committed with
      | inl err => ((no_report, Some err), (w2.1, w2.2.1))
      | inr _ =>
          let '(r, w3) := collect_all env (S n) stateDir (tp_runs p) (tp_backups p) (tp_plugins p) w2 in
          ((w3.2.2, res_error r), (w3.1, w3.2.1))
      end
  end.

(** ** The handler *)

(** [tq_before] is [None] when the timestamp is missing or invalid. *)
Record RetentionRequest := mkRetentionRequest {
  tq_before : option Z; tq_keepRuns : Z; tq_keepBackups : Z; tq_limit : Z; tq_collect : bool; tq_plugins : bool }.
Record RetentionResponse := mkRetentionResponse {
  rs_dryRun : bool; rs_before : Z; rs_items : list Item; rs_runs : Z; rs_files : Z; rs_bytes : Z }.
Definition Retention_ (env : Env) (now : Z) (stateDir : string) (request : RetentionRequest) : Handler (Db * (E * F)) RetentionResponse := λ w,
  match tq_before request with
  | None => (inl (mkStatus InvalidArgument "completed_before is required"), w)
  | Some cutoff =>
      if negb (cutoff <? now) then (inl (mkStatus InvalidArgument "completed_before must be in the past"), w) else
      let limit := if tq_limit request =? 0 then 100 else tq_limit request in
      let '((report, err), w) := Apply env stateDir cutoff (tq_keepRuns request) (tq_keepBackups request) limit (tq_collect request) (tq_plugins request) w in
      match err with
      | Some e => (inl (rpcError e), w)
      | None => (inr (mkRetentionResponse (rp_dryRun report) (rp_before report) (rp_items report) (u32 (rp_runs report)) (u32 (rp_files report)) (rp_bytes report)), w)
      end
  end.
End Service.
