(* ===== verification/ServerStream.v ===== *)
(** The event streams of the server: [Watch] over the resource log and
    [WatchEvents] over a run's log deliver, in order and without gaps or
    repetitions, what the log holds after the position the client asked for.

    A poll takes the first events after a position; as the log only grows at its
    end, consecutive polls are consecutive parts of it. *)

From Stdlib Require String.
From S2P Require Import Prelude.
From S2P Require Import Json.
From S2P Require Import GoStd.
From S2P Require Import Resource.
From S2P Require Import Plan.
From S2P Require Import Db.
From S2P Require Import StoreRuns.
From S2P Require Import StoreResources.
From S2P Require Import StoreStep.
From S2P Require Import Proc.
From S2P Require Import StoreSafety.
From S2P Require Import StoreWatch.
From S2P Require Import StoreOps.
From S2P Require Import StoreAttempts.
From S2P Require Import Orchestrator.
From S2P Require Import PluginController.
From S2P Require Import ServerPages.
From S2P Require Import ServerPagesFacts.
From S2P Require Import ServerHandlers.
From S2P Require Import ServerResources.
From S2P Require Import ServerRuns.

Local Open Scope Z_scope.

(** ** Polls of a sorted log *)

Lemma filter_none {A} (P : A → Prop) `{∀ x, Decision (P x)} (l : list A) : (∀ x, x ∈ l → ¬ P x) → filter P l = [].
Proof. induction l as [|x l IH]; intros H1; [done|]. rewrite filter_cons_False by (apply H1; left). apply IH. intros y Hy. apply H1. by right. Qed.
Lemma filter_every {A} (P : A → Prop) `{∀ x, Decision (P x)} (l : list A) : (∀ x, x ∈ l → P x) → filter P l = l.
Proof.
  induction l as [|x l IH]; intros H1; [done|]. rewrite filter_cons_True by (apply H1; left). f_equal. apply IH. intros y Hy. apply H1. by right.
Qed.

Section Polls.
Context {E : Type} (key : E → Z).

Definition later (after : Z) (log : list E) : list E := filter (λ e, after < key e) log.
Definition moved (after : Z) (events : list E) : Z := default after (key <$> last events).
Definition ordered (log : list E) : Prop := StronglySorted Z.lt (key <$> log).

Lemma moved_cons after e l : moved after (e :: l) = moved (key e) l.
Proof. unfold moved. rewrite last_cons. by destruct (last l). Qed.
Lemma ordered_later after log : ordered log → ordered (later after log).
Proof.
  unfold ordered. induction log as [|e log IH]; [done|]. simpl. intros [Hs Hf]%StronglySorted_inv.
  unfold later. rewrite filter_cons. case_decide; [|by apply IH]. simpl. constructor; [by apply IH|].
  rewrite Forall_fmap in Hf |- *. apply Forall_forall. intros x [_ Hx]%list_elem_of_filter. by eapply Forall_forall in Hf.
Qed.
Lemma sort_ordered log : ordered log → sort_by (onc key Z.compare) log = log.
Proof.
  unfold ordered. intros H. apply sort_by_sorted_id; [apply _|].
  induction log as [|e log IH]; [constructor|]. simpl in H. apply StronglySorted_inv in H as [Hs Hf].
  constructor; [auto|]. by rewrite Forall_fmap in Hf.
Qed.
Lemma later_prefix after l l' : l `prefix_of` l' → later after l `prefix_of` later after l'.
Proof. intros [k ->]. unfold later. rewrite filter_app. by apply prefix_app_r. Qed.

(** After the events [a] were delivered the rest is what is later than the last. *)
Lemma later_moved after log a b :
  ordered log → later after log = a ++ b → later (moved after a) log = b.
Proof.
  intros Hs Hab. destruct (last a) as [z|] eqn:Hz.
  2: { apply last_None in Hz as ->. done. }
  unfold moved. rewrite Hz. simpl.
  apply last_Some in Hz as [a0 ->].
  assert (Ho : ordered ((a0 ++ [z]) ++ b)) by (rewrite <- Hab; by apply ordered_later).
  assert (Hlt : after < key z).
  { assert (z ∈ later after log) as [H _]%list_elem_of_filter; [|done]. rewrite Hab. set_solver. }
  assert (later (key z) log = later (key z) (later after log)) as ->.
  { unfold later. rewrite list_filter_filter. apply list_filter_iff. intros x. lia. }
  rewrite Hab. unfold later. rewrite filter_app.
  unfold ordered in Ho. rewrite fmap_app in Ho. apply StronglySorted_app in Ho as (H12&H1&_).
  assert (filter (λ e, key z < key e) (a0 ++ [z]) = []) as ->.
  { rewrite fmap_app in H1. apply StronglySorted_app in H1 as (H0&_&_).
    apply filter_none. intros x Hx. apply elem_of_app in Hx as [Hx|Hx]; [|apply list_elem_of_singleton in Hx as ->; lia].
    enough (key x < key z) by lia. apply H0; [by apply list_elem_of_fmap_2|simpl; set_solver]. }
  simpl. apply filter_every. intros x Hx. apply (H12 (key z) (key x)).
  - rewrite fmap_app. apply elem_of_app. right. simpl. set_solver.
  - by apply list_elem_of_fmap_2.
Qed.
End Polls.

(** ** Following a growing log *)

Section Follow.
Context {E M X T : Type} (key : E → Z) (log : Db → list E) (sent_as : E → M → Prop).
Context (good : Db → Prop) (grow : relation Db) `{!PreOrder grow}.
Context (turn : T → Z → Handler ((Db * X) * list M) Z) (proper : T → Prop).
Hypothesis good_ordered : ∀ s, good s → ordered key (log s).
Hypothesis grow_good : ∀ s s', grow s s' → good s → good s'.
Hypothesis grow_prefix : ∀ s s', grow s s' → log s `prefix_of` log s'.

(** One turn: the events after the position in a store in between, as far as they
    could be sent. *)
Definition delivers (t : T) (after : Z) (s : Db) (x : X) (sent : list M) : Prop :=
  ∃ s1 s' x' events messages r, turn t after ((s, x), sent) = (r, ((s', x'), sent ++ messages)) ∧
    grow s s1 ∧ grow s1 s' ∧ Forall2 sent_as events messages ∧
    match r with
    | inr after' => events = take 100 (later key after (log s1)) ∧ after' = moved key after events
    | inl _ => events `prefix_of` later key after (log s1)
    end.
Hypothesis turn_delivers : ∀ t after s x sent, proper t → good s → delivers t after s x sent.

(** What a client received is an initial part of what the log holds after its
    position. *)
Lemma follow_prefix turns : ∀ after s x sent, Forall proper turns → good s →
  ∃ s' x' events messages r, polling turn turns after ((s, x), sent) = (r, ((s', x'), sent ++ messages)) ∧
    grow s s' ∧ Forall2 sent_as events messages ∧ events `prefix_of` later key after (log s').
Proof.
  induction turns as [|t turns IH]; intros after s x sent Ht Hg; simpl.
  { exists s, x, [], [], (inl cancelled). rewrite app_nil_r. split_and!; [done|done|constructor|apply prefix_nil]. }
  apply Forall_cons in Ht as [Ht Hts].
  destruct (turn_delivers t after s x sent Ht Hg) as (s1&s'&x'&events&messages&r&Hr&H1&H2&Hs&Hm).
  unfold mbind, handler_bind. rewrite Hr. destruct r as [e|after'].
  { exists s', x', events, messages, (inl e). split_and!; [done|by transitivity s1|done|].
    etrans; [done|]. apply later_prefix. by apply grow_prefix. }
  destruct Hm as [He ->]. destruct (IH (moved key after events) s' x' (sent ++ messages) Hts ltac:(eauto)) as (s2&x2&evs&msgs&r&->&H3&Hs2&Hp).
  exists s2, x2, (events ++ evs), (messages ++ msgs), r. split_and!.
  - by rewrite app_assoc.
  - transitivity s'; [|done]. by transitivity s1.
  - by apply Forall2_app.
  - assert (log s1 `prefix_of` log s2) as Hl by (apply grow_prefix; by transitivity s').
    destruct (later_prefix key after _ _ Hl) as [k Hk].
    assert (∃ b, later key after (log s2) = events ++ b) as [b Hb].
    { exists (drop 100 (later key after (log s1)) ++ k). by rewrite Hk, app_assoc, He, take_drop. }
    rewrite (later_moved key after (log s2) events b) in Hp; [|apply good_ordered; eauto|done].
    rewrite Hb. by apply prefix_app.
Qed.

(** With turns enough for what the log holds at the start, and no turn that
    fails, all of it is received. *)
Lemma follow_live turns : (∀ t after s x sent e w, t ∈ turns → good s → turn t after ((s, x), sent) ≠ (inl e, w)) →
  ∀ after s x sent, Forall proper turns → good s →
  ∃ s' x' events messages, polling turn turns after ((s, x), sent) = (inl cancelled, ((s', x'), sent ++ messages)) ∧
    Forall2 sent_as events messages ∧
    ∀ l, l `prefix_of` later key after (log s) → (length l ≤ 100 * length turns)%nat → l `prefix_of` events.
Proof.
  induction turns as [|t turns IH]; intros Hnf after s x sent Ht Hg; cbn [polling].
  { exists s, x, [], []. rewrite app_nil_r. split_and!; [done|constructor|]. intros l _ Hl. simpl in Hl. by destruct l; simpl in Hl; [|lia]. }
  apply Forall_cons in Ht as [Ht Hts].
  destruct (turn_delivers t after s x sent Ht Hg) as (s1&s'&x'&events&messages&r&Hr&H1&H2&Hs&Hm).
  unfold mbind, handler_bind. destruct r as [e|after']; [by eapply Hnf in Hr; [|left|]|]. rewrite Hr.
  destruct Hm as [He ->].
  assert (Hnf' : ∀ t0 after s x sent e w, t0 ∈ turns → good s → turn t0 after ((s, x), sent) ≠ (inl e, w)).
  { intros. apply Hnf; [by right|done]. }
  destruct (IH Hnf' (moved key after events) s' x' (sent ++ messages) Hts ltac:(eauto)) as (s2&x2&evs&msgs&->&Hs2&Hp).
  exists s2, x2, (events ++ evs), (messages ++ msgs). split_and!; [by rewrite app_assoc|by apply Forall2_app|].
  intros l Hl Hn. assert (Hl1 : l `prefix_of` later key after (log s1)).
  { etrans; [exact Hl|]. apply later_prefix. by apply grow_prefix. }
  destruct (decide (length l ≤ 100)%nat) as [Hle|Hgt].
  - apply prefix_app_r. destruct Hl1 as [k Hk]. rewrite He, Hk, take_app_ge by done. by exists (take (100 - length l) k).
  - assert (l = events ++ drop 100 l) as El.
    { rewrite He. destruct Hl1 as [k Hk]. rewrite Hk, take_app_le by lia. by rewrite take_drop. }
    rewrite El. apply prefix_app. apply Hp; [|rewrite length_drop; simpl in Hn; lia].
    assert (log s1 `prefix_of` log s') as Hlog by by apply grow_prefix.
    assert (Hl' : l `prefix_of` later key after (log s')) by (etrans; [exact Hl1|by apply later_prefix]).
    destruct Hl' as [k Hk]. rewrite (later_moved key after (log s') events (drop 100 l ++ k)); [by exists k|apply good_ordered; eauto|].
    by rewrite Hk, app_assoc, <- El.
Qed.
End Follow.

(** ** The resource log *)

Section Catalogue.
Context {cal : Calendar} {dig : Digest}.

Definition event_ok (e : ResourceEventRow) : Prop := ∀ d, re_doc e = Some d → well_formed d.
Definition live (s : Db) : Prop := rtc served empty_db s.
(** Only the daemon's own operations interfere. *)
Definition serving (env : Env) : Prop := ∀ i s, rtc served s (others env i s).

Lemma step_event s s' : store_step s s' →
  db_resource_events s' = db_resource_events s ∨
  ∃ e, db_resource_events s' = db_resource_events s ++ [e] ∧ docs s' = StoreWatch.observe (docs s) e.
Proof.
  intros Hstep. destruct Hstep; run_op Hop.
  all: try (by left).
  all: try (right; eexists; split; [reflexivity|]; unfold docs; simpl; etrans; [first [apply fmap_insert|apply fmap_delete]|reflexivity]).
  left. revert Hop. apply (collect_runs_ind (λ s', db_resource_events s' = db_resource_events s)); [|done].
  intros run r s1 s2 H1 Hc. pose proof (cr_rest _ _ _ _ _ Hc) as E. injection E as ??????????. congruence.
Qed.
Lemma events_filed s s' : served s s' → filed s → Forall event_ok (db_resource_events s) → Forall event_ok (db_resource_events s').
Proof.
  intros Hs Hf He. destruct (step_event _ _ (served_step _ _ Hs)) as [->|(e&->&Ho)]; [done|].
  apply Forall_app. split; [done|]. constructor; [|done]. intros d Hd.
  unfold StoreWatch.observe in Ho. rewrite Hd in Ho. assert (docs s' !! event_key e = Some d) as H by (rewrite Ho; apply lookup_insert_eq).
  unfold docs in H. apply lookup_fmap_Some in H as (row&<-&Hrow). by destruct (filed_step _ _ Hs Hf _ _ Hrow) as (_&?&_).
Qed.
Lemma events_live s : live s → Forall event_ok (db_resource_events s).
Proof.
  intros H. enough (filed s ∧ Forall event_ok (db_resource_events s)) by tauto. revert s H.
  apply (rtc_ind_r (λ s, filed s ∧ Forall event_ok (db_resource_events s))).
  - split; [by apply served_filed|constructor].
  - intros s s' _ Hs [IH1 IH2]. split; [by eapply filed_step|by eapply events_filed].
Qed.
Lemma live_reachable s : live s → reachable s.
Proof. apply served_steps. Qed.

(** The events a watch asks for. *)
Definition watched (kind namespace : string) (s : Db) : list ResourceEventRow :=
  filter (λ e, matches kind (re_kind e) && matches namespace (re_namespace e) = true) (db_resource_events s).
Lemma watched_ordered kind namespace s : live s → ordered re_revision (watched kind namespace s).
Proof.
  intros H%live_reachable. destruct (log_of_reachable _ H) as (_&_&Hs&_). unfold watched. revert Hs.
  induction (db_resource_events s) as [|e l IH]; [done|]. simpl. intros [Hs Hf]%StronglySorted_inv. rewrite filter_cons.
  case_decide; [|by apply IH]. unfold ordered. simpl. constructor; [by apply IH|].
  rewrite Forall_fmap in Hf |- *. apply Forall_forall. intros x [_ Hx]%list_elem_of_filter. by eapply Forall_forall in Hf.
Qed.
Lemma watched_grows kind namespace s s' : rtc served s s' → watched kind namespace s `prefix_of` watched kind namespace s'.
Proof.
  intros H%served_steps%grew_rtc. destruct H as (_&new&E&_). unfold watched. rewrite E, filter_app. by apply prefix_app_r.
Qed.
Lemma EventsAfter_poll kind namespace after s : live s →
  EventsAfter kind namespace after 100 s = inr (take 100 (later re_revision after (watched kind namespace s)), s).
Proof.
  intros H. unfold EventsAfter, tx_get. do 3 f_equal.
  assert (filter (λ e, after < re_revision e ∧ matches kind (re_kind e) && matches namespace (re_namespace e) = true) (db_resource_events s)
    = later re_revision after (watched kind namespace s)) as ->.
  { unfold later, watched. by rewrite list_filter_filter. }
  apply sort_ordered. by apply ordered_later, watched_ordered.
Qed.
End Catalogue.

(** ** Watch *)

Section Watch.
Context {cal : Calendar} {dig : Digest} {compiler : FlowCompiler} {views : ManagerViews} {R : Type} {client : Client ResourceEvent}.
Context (collaborators : Collaborators).

(** The message of an event: its document as the server projects it. *)
Definition sent_as (e : ResourceEventRow) (m : ResourceEvent) : Prop :=
  we_revision m = re_revision e ∧ we_type m = re_type e ∧ we_observed m = re_observed e ∧
  match re_doc e with
  | Some d => ∃ seen, we_resource m = projectResource collaborators seen d
  | None => we_resource m = mkResourceDocument (event_key e) (re_uid e) (re_revision e) 0 None
  end.

Lemma call_read {A} env i (f : Db → A) s : call env i (tx_get f) s = (inr (f (others env i s)), others env i s).
Proof. done. Qed.
Lemma event_document_ok env e (w : Db * R) : serving env → event_ok e →
  ∃ s' m, event_document collaborators env e w = (inr m, (s', w.2)) ∧ rtc served w.1 s' ∧
    match re_doc e with
    | Some d => ∃ seen, m = projectResource collaborators seen d
    | None => m = mkResourceDocument (event_key e) (re_uid e) (re_revision e) 0 None
    end.
Proof.
  intros Henv He. unfold event_document. destruct (re_doc e) as [d|] eqn:Hd.
  - rewrite (He d Hd). unfold projected, snapshot. rewrite call_read. do 2 eexists. split_and!; [done|apply Henv|by eexists].
  - exists w.1. eexists. split_and!; [by destruct w|done|done].
Qed.

Lemma send_events_ok envs events : ∀ n after s x sent, (∀ n, serving (envs n)) → Forall event_ok events →
  ∃ s' x' taken messages r, send_events (R:=R) collaborators envs n events after ((s, x), sent) = (r, ((s', x'), sent ++ messages)) ∧
    rtc served s s' ∧ Forall2 sent_as taken messages ∧ taken `prefix_of` events ∧
    match r with inr after' => taken = events ∧ after' = moved re_revision after events
               | inl e => ∃ sent m, receives sent m = Some e end.
Proof.
  induction events as [|e events IH]; intros n after s x sent Henv He; cbn [send_events].
  { exists s, x, [], [], (inr after). rewrite app_nil_r. split_and!; try done. }
  apply Forall_cons in He as [He Hes]. destruct (event_document_ok (envs n) e (s, x) (Henv n) He) as (s1&m&Hm&H1&Hc).
  unfold mbind at 1, handler_bind at 1. unfold on_first at 1. cbn [fst snd]. rewrite Hm. simpl in H1.
  set (message := mkResourceEvent _ _ _ _). unfold mbind at 1, handler_bind at 1, Send at 1. cbn [fst snd].
  destruct (receives sent message) as [err|] eqn:Hr.
  { exists s1, x, [], [], (inl err). rewrite app_nil_r. split_and!; [done|done|constructor|apply prefix_nil|eauto]. }
  destruct (IH (S n) (re_revision e) s1 x (sent ++ [message]) Henv Hes) as (s2&x2&taken&messages&r&->&H2&Hs&Hp&Hcase).
  exists s2, x2, (e :: taken), (message :: messages), r. split_and!.
  - by rewrite <- app_assoc.
  - by etrans.
  - constructor; [|done]. unfold sent_as. split_and!; try done.
  - by apply prefix_cons.
  - destruct r as [err|after']; [done|]. destruct Hcase as [-> ->]. split; [done|]. by rewrite moved_cons.
Qed.

Lemma watch_turn_ok request envs after s x sent : (∀ n, serving (envs n)) → live s →
  ∃ s1 s' x' events messages r, watch_turn (R:=R) collaborators request envs after ((s, x), sent) = (r, ((s', x'), sent ++ messages)) ∧
    rtc served s s1 ∧ rtc served s1 s' ∧ Forall2 sent_as events messages ∧
    match r with
    | inr after' => events = take 100 (later re_revision after (watched (wq_kind request) (wq_namespace request) s1)) ∧
                    after' = moved re_revision after events
    | inl e => events `prefix_of` later re_revision after (watched (wq_kind request) (wq_namespace request) s1) ∧
               ∃ sent m, receives sent m = Some e
    end.
Proof.
  intros Henv Hs. unfold watch_turn. set (s1 := others (envs 0%nat) 0 s).
  assert (Hs1 : rtc served s s1) by apply Henv.
  assert (Hl1 : live s1) by (unfold live in *; by etrans).
  set (events := take 100 (later re_revision after (watched (wq_kind request) (wq_namespace request) s1))).
  assert (Hread : on_first (X:=list ResourceEvent) (answering (on_store (R:=R) (call (envs 0%nat) 0
      (EventsAfter (wq_kind request) (wq_namespace request) after 100)))) ((s, x), sent) = (inr events, ((s1, x), sent))).
  { pose proof (EventsAfter_poll (wq_kind request) (wq_namespace request) after s1 Hl1) as H.
    unfold on_first, answering, on_store, call. cbn [fst snd]. fold s1. by rewrite H. }
  unfold mbind at 1, handler_bind at 1. rewrite Hread.
  assert (Hok : Forall event_ok events).
  { pose proof (events_live _ Hl1) as H. rewrite Forall_forall in H |- *. intros e He. apply H.
    unfold events in He. apply elem_of_take in He as (i&Hi&_). apply list_elem_of_lookup_2 in Hi.
    unfold later, watched in Hi. by apply list_elem_of_filter in Hi as [_ [_ ?]%list_elem_of_filter]. }
  destruct (send_events_ok envs events 1 after s1 x sent Henv Hok) as (s'&x'&taken&messages&r&->&H2&Hf&Hp&Hc).
  exists s1, s', x', taken, messages, r. split_and!; try done.
  destruct r as [e|after']; [|by destruct Hc as [-> ->]]. split; [|done].
  etrans; [exact Hp|]. unfold events. eexists; symmetry; apply take_drop.
Qed.
End Watch.

(** ** WatchEvents *)

Lemma seqZ_sorted n : ∀ m, StronglySorted Z.lt (seqZ m (Z.of_nat n)).
Proof.
  induction n as [|n IH]; intros m; [constructor|]. rewrite seqZ_cons by lia.
  replace (Z.pred (Z.of_nat (S n))) with (Z.of_nat n) by lia. constructor; [apply IH|].
  apply Forall_seqZ. lia.
Qed.
Lemma later_seqZ after n m : m ≤ after + 1 →
  filter (λ z, after < z) (seqZ m (Z.of_nat n)) = seqZ (after + 1) (m + Z.of_nat n - 1 - after).
Proof.
  revert m. induction n as [|n IH]; intros m Hm; [by rewrite !seqZ_nil by lia|].
  rewrite seqZ_cons by lia. replace (Z.pred (Z.of_nat (S n))) with (Z.of_nat n) by lia. rewrite filter_cons. case_decide.
  - replace m with (after + 1) by lia. rewrite filter_every.
    + rewrite (seqZ_cons _ (after + 1 + Z.of_nat (S n) - 1 - after)) by lia. do 2 f_equal; lia.
    + intros x Hx%elem_of_seqZ. lia.
  - destruct (decide (Z.of_nat n = 0)) as [E|]; [rewrite E, !seqZ_nil by lia; done|]. rewrite IH by lia. f_equal. lia.
Qed.
Lemma later_keys {E} (key : E → Z) after log : key <$> later key after log = filter (λ z, after < z) (key <$> log).
Proof. unfold later. induction log as [|e log IH]; [done|]. simpl. rewrite !filter_cons. case_decide; simpl; [f_equal|]; exact IH. Qed.

Section RunEvents.
Context {cal : Calendar} {dig : Digest} {client : Client RunEventRow} {X : Type}.

Lemma run_log_ordered run s : reachable s → ordered ev_seq (events_of run s).
Proof. intros H%log_reachable. unfold ordered. pose proof (H run) as E. unfold seqs_of in E. unfold events_of. rewrite E. apply seqZ_sorted. Qed.
(** The sequence numbers after a position. *)
Lemma run_log_later run s after : reachable s → 0 ≤ after →
  ev_seq <$> later ev_seq after (events_of run s) = seqZ (after + 1) (Z.of_nat (length (events_of run s)) - after).
Proof.
  intros H%log_reachable Ha. rewrite later_keys. pose proof (H run) as E. unfold seqs_of in E. unfold events_of. rewrite E.
  rewrite length_fmap, later_seqZ by lia. f_equal. lia.
Qed.

Lemma run_log_step run s s' : store_step s s' →
  events_of run s `prefix_of` events_of run s' ∨ db_runs s' !! run = None.
Proof.
  intros Hstep. unfold events_of. destruct Hstep; run_op Hop.
  all: try (left; done).
  all: try (left; simpl; rewrite !filter_app; by repeat apply prefix_app_r).
  revert Hop. apply (collect_runs_ind (λ s', filter (λ e, ev_run e = run) (db_run_events s) `prefix_of` filter (λ e, ev_run e = run) (db_run_events s')
      ∨ db_runs s' !! run = None)); [|by left].
  intros u r s1 s2 [H1|H1] Hc; rewrite (cr_events _ _ _ _ _ Hc), (cr_runs _ _ _ _ _ Hc).
  - destruct (decide (u = run)) as [->|Hne]; [right; apply lookup_delete_eq|left].
    rewrite list_filter_filter_l; [done|]. by intros e ->.
  - right. by rewrite lookup_delete_None; right.
Qed.
Lemma run_log_grows run s s' : rtc (retaining run) s s' → events_of run s `prefix_of` events_of run s'.
Proof.
  induction 1 as [|s1 s2 s3 [Hs Hr] _ IH]; [done|]. etrans; [|exact IH].
  destruct (run_log_step run _ _ Hs) as [?|E]; [done|]. rewrite E in Hr. by destruct Hr.
Qed.
Lemma retaining_reachable run s s' : rtc (retaining run) s s' → reachable s → reachable s'.
Proof. induction 1 as [|s1 s2 s3 [Hs _] _ IH]; [done|]. intros H. apply IH. by eapply rtc_r. Qed.

Lemma RunEventsAfter_poll run after s : reachable s →
  RunEventsAfter run after 100 s = inr (take 100 (later ev_seq after (events_of run s)), s).
Proof. intros H. unfold RunEventsAfter, tx_get. do 3 f_equal. apply sort_ordered. by apply ordered_later, run_log_ordered. Qed.

Lemma send_all_spec {W} (l : list RunEventRow) : ∀ (w : W) sent, ∃ taken r, send_all l (w, sent) = (r, (w, sent ++ taken)) ∧ taken `prefix_of` l ∧
  match r with inr _ => taken = l | inl e => ∃ sent m, receives sent m = Some e end.
Proof.
  induction l as [|m l IH]; intros w sent; simpl.
  { exists [], (inr tt). by rewrite app_nil_r. }
  unfold mbind, handler_bind, Send. simpl. destruct (receives sent m) as [e|] eqn:Hr.
  { exists [], (inl e). rewrite app_nil_r. split_and!; [done|apply prefix_nil|eauto]. }
  destruct (IH w (sent ++ [m])) as (taken&r&->&Hp&Hc). exists (m :: taken), r. split_and!; [by rewrite <- app_assoc|by apply prefix_cons|].
  destruct r; [done|by rewrite Hc].
Qed.

(** The other goroutines neither collect the run. *)
Definition keeping (run : string) (env : Env) : Prop := ∀ i s, rtc (retaining run) s (others env i s).
Lemma events_turn_ok request env after s (x : X) sent : keeping (wr_uid request) env → reachable s →
  ∃ s' messages r, events_turn request env after ((s, x), sent) = (r, ((s', x), sent ++ messages)) ∧ rtc (retaining (wr_uid request)) s s' ∧
    match r with
    | inr after' => messages = take 100 (later ev_seq after (events_of (wr_uid request) s')) ∧ after' = moved ev_seq after messages
    | inl e => messages `prefix_of` later ev_seq after (events_of (wr_uid request) s') ∧ ∃ sent m, receives sent m = Some e
    end.
Proof.
  intros Henv Hs. set (s1 := others env 0 s). assert (H1 : rtc (retaining (wr_uid request)) s s1) by apply Henv.
  assert (Hr1 : reachable s1) by by eapply retaining_reachable.
  unfold events_turn, mbind, handler_bind, on_first, answering, on_store, call. cbn [fst snd]. fold s1.
  rewrite RunEventsAfter_poll by done. set (events := take 100 _). unfold ok. cbv beta iota.
  destruct (send_all_spec events (s1, x) sent) as (taken&r&Hsend&Hp&Hc). rewrite Hsend. destruct r as [e|[]].
  - exists s1, taken, (inl e). split_and!; [done|done| |done]. etrans; [exact Hp|]. eexists; symmetry; apply take_drop.
  - exists s1, taken, (inr (moved ev_seq after events)). subst taken. split_and!; done.
Qed.
End RunEvents.

(** ** What the clients receive *)

Section Received.
Context {cal : Calendar} {dig : Digest} {compiler : FlowCompiler} {views : ManagerViews} {R : Type}.
Context (collaborators : Collaborators).

Section Resources.
Context {client : Client ResourceEvent} (request : WatchRequest).
Abbreviation asked s := (watched (wq_kind request) (wq_namespace request) s).

Lemma watch_delivers envs after s (x : R) sent : (∀ n, serving (envs n)) → live s →
  delivers re_revision (watched (wq_kind request) (wq_namespace request)) (sent_as collaborators) (rtc served)
    (watch_turn collaborators request) envs after s x sent.
Proof.
  intros He Hs. destruct (watch_turn_ok collaborators request envs after s x sent He Hs) as (s1&s'&x'&events&messages&r&H&?&?&?&Hc).
  exists s1, s', x', events, messages, r. split_and!; try done. destruct r; [by destruct Hc|done].
Qed.
Lemma Watch_received turns s (x : R) sent : Forall (λ envs : nat → Env, ∀ n, serving (envs n)) turns → live s →
  ∃ s' x' events messages r, Watch collaborators request turns ((s, x), sent) = (r, ((s', x'), sent ++ messages)) ∧ rtc served s s' ∧
    Forall2 (sent_as collaborators) events messages ∧ events `prefix_of` later re_revision (wq_after request) (asked s').
Proof.
  intros Ht Hs. eapply (follow_prefix re_revision (watched (wq_kind request) (wq_namespace request)) (sent_as collaborators) live (rtc served)); try done.
  - intros. by apply watched_ordered.
  - intros s1 s2 H1 H2. unfold live in *. by etrans.
  - intros. by apply watched_grows.
  - intros. by apply watch_delivers.
Qed.
Lemma Watch_complete turns s (x : R) sent : (∀ sent m, receives (A:=ResourceEvent) sent m = None) →
  Forall (λ envs : nat → Env, ∀ n, serving (envs n)) turns → live s →
  (length (later re_revision (wq_after request) (asked s)) ≤ 100 * length turns)%nat →
  ∃ w' events messages, Watch collaborators request turns ((s, x), sent) = (inl cancelled, (w', sent ++ messages)) ∧
    Forall2 (sent_as collaborators) events messages ∧ later re_revision (wq_after request) (asked s) `prefix_of` events.
Proof.
  intros Hc Ht Hs Hn.
  destruct (λ H1 H2 H3 H4 H5, follow_live re_revision (watched (wq_kind request) (wq_namespace request)) (sent_as collaborators) live (rtc served)
    (watch_turn collaborators request) (λ envs, ∀ n, serving (envs n)) H1 H2 H3 H4 turns H5 (wq_after request) s x sent Ht Hs)
    as (s'&x'&events&messages&H&Hf&Hl).
  - intros. by apply watched_ordered.
  - intros s1 s2 H1 H2. unfold live in *. by etrans.
  - intros. by apply watched_grows.
  - intros. by apply watch_delivers.
  - intros envs after s1 x1 sent1 e w Hin Hs1 E. rewrite Forall_forall in Ht.
    destruct (watch_turn_ok collaborators request envs after s1 x1 sent1 (Ht _ Hin) Hs1) as (?&?&?&?&?&r&Hr&_&_&_&Hcase).
    rewrite E in Hr. destruct r; [|done]. destruct Hcase as (_&l&m&Hm). rewrite Hc in Hm. done.
  - exists (s', x'), events, messages. split_and!; [done|done|]. by apply Hl.
Qed.
End Resources.

Section Runs.
Context {client : Client RunEventRow} {X : Type} (request : WatchRunRequest).
Abbreviation run_log s := (events_of (wr_uid request) s).

Lemma events_delivers env after s (x : X) sent : keeping (wr_uid request) env → reachable s →
  delivers ev_seq (events_of (wr_uid request)) eq (rtc (retaining (wr_uid request))) (events_turn request) env after s x sent.
Proof.
  intros He Hs. destruct (events_turn_ok request env after s x sent He Hs) as (s'&messages&r&H&Hg&Hc).
  exists s', s', x, messages, messages, r. split_and!; [done|done|done|by apply list_eq_Forall2|].
  destruct r; [by destruct Hc|done].
Qed.
Lemma WatchEvents_received turns s (x : X) sent : Forall (keeping (wr_uid request)) turns → reachable s →
  ∃ s' x' messages r, WatchEvents request turns ((s, x), sent) = (r, ((s', x'), sent ++ messages)) ∧ rtc (retaining (wr_uid request)) s s' ∧
    messages `prefix_of` later ev_seq (wr_after request) (run_log s').
Proof.
  intros Ht Hs.
  destruct (λ H1 H2 H3 H4, follow_prefix ev_seq (events_of (wr_uid request)) eq reachable (rtc (retaining (wr_uid request))) (events_turn request)
    (keeping (wr_uid request)) H1 H2 H3 H4 turns (wr_after request) s x sent Ht Hs) as (s'&x'&events&messages&r&H&Hg&Hf&Hp).
  - intros. by apply run_log_ordered.
  - intros s1 s2 H1 H2. by eapply retaining_reachable.
  - intros. by apply run_log_grows.
  - intros. by apply events_delivers.
  - apply list_eq_Forall2 in Hf as ->. eauto 10.
Qed.
Lemma WatchEvents_complete turns s (x : X) sent : (∀ sent m, receives (A:=RunEventRow) sent m = None) →
  Forall (keeping (wr_uid request)) turns → reachable s →
  (length (later ev_seq (wr_after request) (run_log s)) ≤ 100 * length turns)%nat →
  ∃ w' messages, WatchEvents request turns ((s, x), sent) = (inl cancelled, (w', sent ++ messages)) ∧
    later ev_seq (wr_after request) (run_log s) `prefix_of` messages.
Proof.
  intros Hc Ht Hs Hn.
  destruct (λ H1 H2 H3 H4 H5, follow_live ev_seq (events_of (wr_uid request)) eq reachable (rtc (retaining (wr_uid request))) (events_turn request)
    (keeping (wr_uid request)) H1 H2 H3 H4 turns H5 (wr_after request) s x sent Ht Hs) as (s'&x'&events&messages&H&Hf&Hl).
  - intros. by apply run_log_ordered.
  - intros s1 s2 H1 H2. by eapply retaining_reachable.
  - intros. by apply run_log_grows.
  - intros. by apply events_delivers.
  - intros env after s1 x1 sent1 e w Hin Hs1 E. rewrite Forall_forall in Ht.
    destruct (events_turn_ok request env after s1 x1 sent1 (Ht _ Hin) Hs1) as (?&?&r&Hr&_&Hcase).
    rewrite E in Hr. destruct r; [|done]. destruct Hcase as (_&l&m&Hm). rewrite Hc in Hm. done.
  - apply list_eq_Forall2 in Hf as ->. eauto 10.
Qed.
(** The numbers received are consecutive. *)
Lemma consecutive s messages : reachable s → 0 ≤ wr_after request → messages `prefix_of` later ev_seq (wr_after request) (run_log s) →
  ev_seq <$> messages = seqZ (wr_after request + 1) (Z.of_nat (length messages)).
Proof.
  intros Hr Ha [k Hk]. destruct (decide (messages = [])) as [->|Hne]; [done|]. assert (length messages ≠ 0)%nat as Hpos by (by destruct messages).
  pose proof (run_log_later (wr_uid request) s _ Hr Ha) as E. rewrite Hk, fmap_app in E.
  assert (Hlen : Z.of_nat (length messages) ≤ Z.of_nat (length (run_log s)) - wr_after request).
  { apply (f_equal length) in E. rewrite length_app, !length_fmap, length_seqZ in E. lia. }
  replace (Z.of_nat (length (run_log s)) - wr_after request) with (Z.of_nat (length messages) + (Z.of_nat (length (run_log s)) - wr_after request - Z.of_nat (length messages))) in E by lia.
  rewrite seqZ_app in E by lia. apply app_inj_1 in E as [E _]; [done|]. rewrite length_fmap, length_seqZ. lia.
Qed.
End Runs.
End Received.

Lemma sent_revisions {compiler : FlowCompiler} {cal : Calendar} {views : ManagerViews} collaborators events messages :
  Forall2 (sent_as collaborators) events messages → we_revision <$> messages = re_revision <$> events.
Proof. induction 1 as [|e m events messages (H&_) _ IH]; [done|]. cbn. rewrite H. f_equal. exact IH. Qed.
