(* ===== verification/ServerFacts.v ===== *)
(** The handlers of the API: what they write, and when.

    [R] below is any preorder that contains what the others commit between two
    calls of a request: with equality it says what the handler itself did, with
    [served] that the daemon only takes served steps. *)

From Stdlib Require Import Ascii.
From Stdlib Require String.
From S2P Require Import Prelude.
From S2P Require Import Json.
From S2P Require Import GoStd.
From S2P Require Import JsonPlain.
From S2P Require Import Resource.
From S2P Require Import Plan.
From S2P Require Import References.
From S2P Require Import FlowCompiler.
From S2P Require Import Db.
From S2P Require Import StoreRuns.
From S2P Require Import StoreResources.
From S2P Require Import StoreOutbox.
From S2P Require Import StorePlugins.
From S2P Require Import StoreStep.
From S2P Require Import Proc.
From S2P Require Import StoreSafety.
From S2P Require Import StoreWatch.
From S2P Require Import StoreAttempts.
From S2P Require Import StoreOps.
From S2P Require Import EngineNode.
From S2P Require Import EngineInterp.
From S2P Require Import EngineAdapter.
From S2P Require Import Orchestrator.
From S2P Require Import PluginController.
From S2P Require Import PluginBundle.
From S2P Require Import ManagerAdmin.
From S2P Require Import ServerPages.
From S2P Require Import ServerPagesFacts.
From S2P Require Import ServerHandlers.
From S2P Require Import ServerResources.
From S2P Require Import ServerRuns.
From S2P Require Import ServerPlugins.
From S2P Require Import ServerStream.

Local Open Scope Z_scope.

Ltac destruct_call H r s E :=
  match type of H with context [call ?env ?i ?t ?s0] => destruct (call env i t s0) as [r s] eqn:E end.

(** ** Resources *)

Section Resources.
Context {cal : Calendar} {dig : Digest} {compiler : FlowCompiler} {views : ManagerViews} {R : Type} {runtime : PluginRuntime R}.
Context (collaborators : Collaborators) (rel : relation Db) `{!PreOrder rel}.

(** The others move the store along [rel]; listing the plugins does too. *)
Definition within (env : Env) : Prop := ∀ i s, rel s (others env i s).
Definition lists_within : Prop := ∀ n w, rel w.1 (rt_List n w).2.1.

Lemma call_rel {A} env i (t : Tx A) s r s' : within env → call env i t s = (r, s') →
  ∃ s1, rel s s1 ∧ match r with inl e => t s1 = inl e ∧ s' = s1 | inr a => t s1 = inr (a, s') end.
Proof.
  intros He H. exists (others env i s). split; [apply He|]. unfold call in H.
  destruct (t (others env i s)) as [e|[a s1]]; by injection H as <- <-.
Qed.
Lemma read_rel {A} env i (f : Db → A) s : within env → ∃ s1, call env i (tx_get f) s = (inr (f s1), s1) ∧ rel s s1.
Proof. intros He. exists (others env i s). split; [done|apply He]. Qed.

(** Reads that only fail or return. *)
Definition reads {A} (t : Tx A) : Prop := ∀ s a s', t s = inr (a, s') → s' = s.
Lemma call_reads {A} env i (t : Tx A) s : within env → reads t → rel s (call env i t s).2.
Proof.
  intros He Ht. unfold call. destruct (t (others env i s)) as [e|[a s1]] eqn:E; simpl; [apply He|]. rewrite (Ht _ _ _ E). apply He.
Qed.
Lemma Get_reads k ns n : reads (Get k ns n).
Proof. intros s a s' H. unfold Get in H. tx_inv. done. Qed.
Lemma list_rows_reads k ns l : reads (list_rows k ns l).
Proof. intros s a s' H. unfold list_rows in H. tx_inv. done. Qed.
Lemma List_rel env i k ns l s : within env → rel s (List_ env i k ns l s).2.
Proof.
  intros He. unfold List_, mbind, proc_bind. pose proof (call_reads env i _ s He (list_rows_reads k ns l)) as H.
  destruct (call env i _ s) as [[e|documents] s1]; [exact H|]. destruct (read_rel env (S i) db_revision s1 He) as (s2&->&H2).
  simpl in *. by transitivity s1.
Qed.

Lemma controller_diagnostics_rel env document (w : Db * R) : within env → lists_within →
  rel w.1 (PluginController.Diagnostics env document w).2.1.
Proof.
  intros He Hl. unfold PluginController.Diagnostics. destruct (doc_spec document); try done.
  destruct (DecodePluginInstallation document) as [e|i]; [done|].
  pose proof (call_reads env 0 _ w.1 He (Get_reads "PluginInstallation" (m_namespace (doc_meta document)) (m_name (doc_meta document)))) as H0.
  destruct (call env 0 _ w.1) as [current s1]. simpl in H0.
  destruct (changed_identity i current); [|done].
  pose proof (List_rel env 1 "PluginInstallation" "" 1000 s1 He) as H1.
  destruct (List_ env 1 _ _ _ s1) as [documents s2]. simpl in H1.
  destruct documents as [e|documents]; [by transitivity s1|].
  pose proof (Hl 0%nat (s2, w.2)) as H2. destruct (rt_List 0 (s2, w.2)) as [records w2]. simpl in H2.
  destruct records; simpl; (transitivity s1; [done|]; by transitivity s2).
Qed.
Lemma resourceDiagnostics_rel env document (w : Db * R) : within env → lists_within →
  rel w.1 (resourceDiagnostics collaborators env document w).2.1.
Proof.
  intros He Hl. unfold resourceDiagnostics, mbind, world_bind, on_store. destruct (read_rel env 3 (λ s, s) w.1 He) as (s1&H&Hr).
  unfold snapshot. rewrite H. unfold world_lift. destruct (document_diagnostics s1 document) as [e|found]; [done|].
  destruct (_ && _); [|done]. unfold installation_diagnostics.
  pose proof (controller_diagnostics_rel env document (s1, w.2) He Hl) as Hd.
  destruct (PluginController.Diagnostics env document (s1, w.2)) as [more w2]. simpl in Hd |- *. by transitivity s1.
Qed.
Lemma projected_rel env i d (w : Db * R) : within env →
  ∃ s1, projected collaborators env i d w = (inr (projectResource collaborators s1 d), (s1, w.2)) ∧ rel w.1 s1.
Proof. intros He. exists (others env i w.1). split; [done|apply He]. Qed.

(** What [apply] stores: nothing on an error, when a diagnostic is an error or on a
    dry run; otherwise the decoded document without its status, once. *)
Definition apply_outcome (envs : nat → Env) (request : ApplyRequest) (dryRun : bool) (w : Db * R) (r : rpc ApplyResponse) (s' : Db) : Prop :=
  match r with
  | inl _ => rel w.1 s'
  | inr response =>
      ∃ raw doc found w1, aq_document request = inr raw ∧ DecodeStrict raw = inr doc ∧
        resourceDiagnostics collaborators (envs 0%nat) (WithServerStatus [] doc) w = (inr found, w1) ∧
        as_diagnostics response = diagnosticPB <$> found ∧
        if HasErrors found || dryRun then rel w.1 s' ∧ as_resource response = resourcePB (WithServerStatus [] doc)
        else ∃ s1 stored s2, rel w.1 s1 ∧
          Apply (WithServerStatus [] doc) (mkApplyOptions (aq_expected request) (aq_requestID request) "unix-peer" (aq_context request))
            (uuid_at (envs 1%nat) 0) (uuid_at (envs 1%nat) 1) (now_at (envs 1%nat) 0) s1 = inr (stored, s2) ∧
          rel s2 s' ∧ ∃ seen, as_resource response = projectResource collaborators seen stored
  end.
Lemma apply_spec envs request dryRun (w : Db * R) : (∀ n, within (envs n)) → lists_within →
  let '(r, w') := apply collaborators envs request dryRun w in apply_outcome envs request dryRun w r w'.1.
Proof.
  intros He Hl. unfold apply, mbind, handler_bind, lift_rpc, submitted. destruct (aq_document request) as [e|raw] eqn:Eq; [simpl; reflexivity|].
  destruct (DecodeStrict raw) as [e|doc] eqn:Ed; [simpl; reflexivity|].
  pose proof (resourceDiagnostics_rel (envs 0%nat) (WithServerStatus [] doc) w (He _) Hl) as Hd.
  unfold trying. destruct (resourceDiagnostics _ _ _ w) as [[e|found] w1] eqn:Er; [exact Hd|]. simpl in Hd.
  destruct (HasErrors found) eqn:Hf.
  { exists raw, doc, found, w1. rewrite Hf. simpl. by split_and!. }
  destruct dryRun.
  { exists raw, doc, found, w1. rewrite Hf. simpl. by split_and!. }
  unfold answering, on_store. set (t := Apply _ _ _ _ _).
  destruct (call (envs 1%nat) 0 t w1.1) as [[e|stored] s2] eqn:Ec.
  - destruct (call_rel _ _ _ _ _ _ (He 1%nat) Ec) as (s1&H1&_&->). simpl. by transitivity w1.1.
  - destruct (call_rel _ _ _ _ _ _ (He 1%nat) Ec) as (s1&H1&Ha).
    destruct (projected_rel (envs 1%nat) 1 stored (s2, w1.2) (He 1%nat)) as (s3&Hp&H3). cbn [fst snd]. rewrite Hp.
    exists raw, doc, found, w1. rewrite Hf. simpl. split_and!; try done.
    exists s1, stored, s2. split_and!; [by transitivity w1.1|done|done|by exists s3].
Qed.

End Resources.

(** ** Deletion *)

Section Deletion.
Context {cal : Calendar} {dig : Digest} {R : Type}.

(** A row that is not newer than a revision was already there at it. *)
Lemma row_step s s' k r : store_step s s' → db_resources s' !! k = Some r → rr_version r ≤ db_revision s → db_resources s !! k = Some r.
Proof.
  intros Hstep Hk Hv. destruct Hstep.
  1: { destruct (ap_row _ _ _ _ _ _ (apply_applied _ _ _ _ _ _ _ _ Hop)) as (row&Hrow&_&Hrv&_).
       rewrite Hrow, lookup_insert_Some in Hk. destruct Hk as [[_ <-]|[_ ?]]; [lia|done]. }
  all: run_op Hop; try exact Hk.
  all: try (simpl in Hk; apply lookup_insert_Some in Hk as [[_ <-]|[_ ?]]; [simpl in Hv; lia|done]).
  all: try (simpl in Hk; by apply lookup_delete_Some in Hk as [_ ?]).
  revert Hop Hk. enough (∀ s1, db_resources s1 = db_resources s → db_resources s1 !! k = Some r → db_resources s !! k = Some r).
  { intros Hop. apply H. revert Hop. apply (collect_runs_ind (λ s1, db_resources s1 = db_resources s)); [|done].
    intros u ur s1 s2 H1 Hc. pose proof (cr_rest _ _ _ _ _ Hc) as E. by injection E as ?->????????. }
  by intros s1 ->.
Qed.
Lemma row_kept s s' k r : rtc store_step s s' → db_resources s' !! k = Some r → rr_version r ≤ db_revision s → db_resources s !! k = Some r.
Proof.
  induction 1 as [|s s1 s2 Hs H IH]; [done|]. intros Hk Hv.
  pose proof (proj1 (grew_step _ _ Hs)). eapply row_step; [exact Hs|apply IH; [done|lia]|done].
Qed.

Lemma Delete_row k ns n v rq fr now s a s' : Delete k ns n v rq fr now s = inr (a, s') →
  ∃ row, db_resources s !! (k, default_namespace ns, n) = Some row ∧ rr_version row = v ∧
    db_resources s' = delete (k, default_namespace ns, n) (db_resources s).
Proof. intros Hop. run_op Hop; eexists; split_and!; eauto using eq_sym; by apply Z.eqb_eq. Qed.

(** A deleted installation, whatever the others commit between the check and the
    deletion, provided that the client names a version it could have seen. *)
Lemma Delete_disabled env request (w w' : Db * R) : serving env → live w.1 → (dq_key request).1.1 = "PluginInstallation" →
  dq_expected request ≤ db_revision w.1 → Delete_ env request w = (inr tt, w') →
  let k := (("PluginInstallation", default_namespace (dq_key request).1.2), (dq_key request).2) in
  ∃ s1 row i, rtc served w.1 s1 ∧ db_resources s1 !! k = Some row ∧ rr_version row = dq_expected request ∧
    DecodePluginInstallation (rr_doc row) = inr i ∧ is_enabled i = false ∧ db_resources w'.1 = delete k (db_resources s1).
Proof.
  intros He Hl Hk Hv H k. unfold Delete_ in H. handler_inv.
  unfold deletable in Hpart. rewrite Hk in Hpart. simpl in Hpart. handler_inv.
  unfold on_store in Hpart0. destruct_call Hpart0 rd sd Ec. injection Hpart0 as -> <-.
  apply call_ok in Ec. unfold world_lift in Hpart1. injection Hpart1 as Hi <-.
  unfold Get in Ec. apply tx_bind_inv in Ec as (row&s1&Hrow&Hdec). apply tx_row_inv in Hrow as [Hrow ->].
  apply tx_lift_inv in Hdec as [Hdec ->]. cbn [fst snd] in *.
  unfold on_store in H. cbn [fst snd] in H. destruct_call H r2 s2 Ec2. injection H as -> <-. rewrite Hk in Ec2.
  apply call_ok in Ec2. destruct (Delete_row _ _ _ _ _ _ _ _ _ _ Ec2) as (row2&Hrow2&Hv2&Hd).
  set (s1 := others env 0 w.1) in *. set (s3 := others env 1 s1) in *.
  assert (row2 = row) as ->.
  { pose proof (served_steps _ _ (He 1%nat s1)) as Hs13. pose proof (served_steps _ _ (He 0%nat w.1)) as Hs01.
    pose proof (proj1 (grew_rtc _ _ Hs01)) as Hrev. fold s1 in Hrev.
    assert (db_resources s1 !! k = Some row2) by (eapply row_kept; [exact Hs13|exact Hrow2|lia]). unfold k in *. congruence. }
  exists s3, row, x3. split_and!; try done.
  - etrans; [apply He|]. apply He.
  - assert (Hf : filed s3). { apply served_filed. unfold live in Hl. etrans; [exact Hl|]. etrans; apply He. }
    destruct (Hf _ _ Hrow2) as (_&Hw&_). rewrite Hw in Hdec. by injection Hdec as ->.
Qed.
End Deletion.

(** What the server applies is what [DecodeStrict] returned. *)
Lemma apply_served {cal : Calendar} {dig : Digest} {compiler : FlowCompiler} {views : ManagerViews} {R : Type} {runtime : PluginRuntime R}
    collaborators envs request dryRun (w : Db * R) :
  (∀ n, within (rtc served) (envs n)) → lists_within (R:=R) (rtc served) → rtc served w.1 (apply collaborators envs request dryRun w).2.1.
Proof.
  intros He Hl. pose proof (apply_spec collaborators (rtc served) envs request dryRun w He Hl) as H.
  destruct (apply _ _ _ _ _) as [[e|response] w']; [exact H|].
  destruct H as (raw&doc&found&w1&_&Hd&_&_&H). destruct (_ || _); [apply H|]. destruct H as (s1&stored&s2&H1&Ha&H2&_).
  etrans; [exact H1|]. eapply rtc_l; [|exact H2]. eapply served_apply; [|exact Ha].
  apply well_formed_server_status. by eapply DecodeStrict_idem.
Qed.

(** ** Decisions *)

Section Decisions.
Context {cal : Calendar} {dig : Digest} {E : Type} {engine : WorkflowClient E}.

Definition decided_as (run node state actor reason : string) (s : Db) : Prop :=
  ∃ a, db_approvals s !! (run, node) = Some a ∧ ap_state a = state ∧ ap_actor a = actor ∧ ap_reason a = reason.
Definition signalled (run node : string) (s : Db) : Prop := ∃ a, db_approvals s !! (run, node) = Some a ∧ ap_delivered a = true.

Lemma approval_held s s' run node : store_step s s' → is_Some (db_approvals s !! (run, node)) →
  is_Some (db_approvals s' !! (run, node)) ∨ db_runs s' !! run = None.
Proof.
  intros Hstep Hs. destruct Hstep; run_op Hop; try (by left).
  - left. simpl. rewrite lookup_insert. by case_decide.
  - left. simpl. rewrite lookup_insert. by case_decide.
  - left. simpl. rewrite lookup_alter. case_decide; [|done]. destruct Hs as [ap0 Hx]. simplify_eq. rewrite Hx. by eexists.
  - revert Hop. apply (collect_runs_ind (λ s', is_Some (db_approvals s' !! (run, node)) ∨ db_runs s' !! run = None)); [|by left].
    intros u r s1 s2 H1 Hc. rewrite (cr_approvals _ _ _ _ _ Hc), (cr_runs _ _ _ _ _ Hc).
    destruct (decide (u = run)) as [->|Hne]; [right; apply lookup_delete_eq|].
    destruct H1 as [[ap0 Hx]|H1]; [left|right; by rewrite lookup_delete_None; right].
    exists ap0. unfold delete_where. apply map_lookup_filter_Some. split; [done|]. simpl. by apply String.eqb_neq.
Qed.
Lemma decided_retained run node state actor reason s s' : rtc (retaining run) s s' → state ≠ "pending" →
  decided_as run node state actor reason s → decided_as run node state actor reason s' ∧ (signalled run node s → signalled run node s').
Proof.
  intros H Hp. induction H as [|s s1 s2 [Hs Hr] _ IH]; [done|]. intros (a&Ha&Hst&Hac&Hre).
  destruct (approval_held s s1 run node Hs) as [[a1 Ha1]|Hn]; [by exists a| |rewrite Hn in Hr; by destruct Hr].
  destruct (approvals_step _ _ Hs _ _ _ Ha Ha1) as [Hk _]. destruct Hk as [Hd Hdel].
  { unfold decided. rewrite Hst. by apply negb_true_iff, String.eqb_neq. }
  unfold StoreAttempts.decision in Hd. injection Hd as E1 E2 E3 _ _.
  destruct IH as [IH1 IH2]; [exists a1; split_and!; congruence|]. split; [done|].
  intros (b&Hb&Hbd). apply IH2. exists a1. split; [done|]. apply Hdel. congruence.
Qed.

(** A returned decision was committed before the engine was asked; a refused one
    asked nothing of it. *)
Definition decision_outcome (rel : relation Db) (env : Env) (request : ApprovalRequest) (state : string) (w : Db * E) (r : rpc unit) (w' : Db * E) : Prop :=
  match r with
  | inl _ => w'.2 = w.2 ∧ rel w.1 w'.1
  | inr _ => ∃ s0 s1 sent, rel w.1 s0 ∧
      DecideApproval (aq_run request) (aq_node request) state "unix-peer" (aq_reason request) (stamp env 0) s0 = inr (tt, s1) ∧
      SignalApproval (aq_run request) (aq_node request) (mkApproval state (aq_reason request)) w.2 = (sent, w'.2) ∧
      match sent with
      | inl _ => w'.1 = s1
      | inr _ => ∃ s2, rel s1 s2 ∧ MarkApprovalSignaled (aq_run request) (aq_node request) s2 = inr (tt, w'.1)
      end
  end.
Lemma decide_spec (rel : relation Db) `{!PreOrder rel} env request state (w : Db * E) : within rel env →
  let '(r, w') := decide_ env request state w in decision_outcome rel env request state w r w'.
Proof.
  intros He. unfold decide_. destruct (_ || _); [by split|]. unfold mbind, handler_bind, answering, on_store.
  match goal with |- context [call env 0 ?t w.1] => destruct (call env 0 t w.1) as [[err|[]] s1] eqn:Ec end.
  { destruct (call_rel rel _ _ _ _ _ _ He Ec) as (s0&H0&_&->). by split. }
  destruct (call_rel rel _ _ _ _ _ _ He Ec) as (s0&H0&Hd). unfold trying, on_engine. cbn [fst snd].
  destruct (SignalApproval _ _ _ w.2) as [[err|[]] e'] eqn:Es; cbn [fst snd].
  { exists s0, s1. eexists. split_and!; [done|done|exact Es|done]. }
  match goal with |- context [call env 1 ?t s1] => destruct (call env 1 t s1) as [[err|[]] s3] eqn:Em end.
  { apply call_fail in Em as [Em _]. done. }
  destruct (call_rel rel _ _ _ _ _ _ He Em) as (s2&H2&Hm). exists s0, s1. eexists. split_and!; [done|done|exact Es|]. by exists s2.
Qed.

Lemma DecideApproval_decided run node state actor reason now s s' : DecideApproval run node state actor reason now s = inr (tt, s') →
  decided_as run node state actor reason s' ∧ state ≠ "pending" ∧ is_Some (db_approvals s !! (run, node)).
Proof.
  intros Hop. unfold DecideApproval in Hop. tx_inv. split_and!; [| |by eexists].
  - eexists. split; [apply lookup_insert_eq|done].
  - intros ->. done.
Qed.
Lemma MarkApprovalSignaled_signalled run node s s' a : MarkApprovalSignaled run node s = inr (tt, s') →
  db_approvals s !! (run, node) = Some a → ap_state a ≠ "pending" → signalled run node s'.
Proof.
  intros Hop Ha Hs. unfold MarkApprovalSignaled in Hop. tx_inv. exists (mark_signaled a). simpl. rewrite lookup_alter_eq, Ha. split; [done|].
  unfold mark_signaled. by rewrite (proj2 (String.eqb_neq _ _) Hs).
Qed.

(** *** Redelivery *)

Lemma redelivered signals : ∀ s (e : E) s' e', redeliver_approvals signals s e = (inr tt, (s', e')) →
  (∀ k a, db_approvals s !! k = Some a → ∃ a', db_approvals s' !! k = Some a' ∧ StoreAttempts.decision a' = StoreAttempts.decision a ∧
     (ap_delivered a = true → ap_delivered a' = true)) ∧
  ∀ run node state reason a, (run, node, state, reason) ∈ signals → db_approvals s !! (run, node) = Some a → ap_state a ≠ "pending" → signalled run node s'.
Proof.
  induction signals as [|[[[run node] state] reason] signals IH]; intros s e s' e' H; simpl in H.
  { injection H as <- <-. split; [by eauto|]. intros ????? Hin. by apply elem_of_nil in Hin. }
  destruct (SignalApproval _ _ _ e) as [[err|[]] e1] eqn:Es; [done|].
  set (s1 := set_approvals (alter mark_signaled (run, node)) s) in *. assert (Em : MarkApprovalSignaled run node s = inr (tt, s1)) by done.
  destruct (IH _ _ _ _ H) as [IH1 IH2]. clearbody s1.
  assert (Hk : ∀ k a, db_approvals s !! k = Some a → ∃ a1, db_approvals s1 !! k = Some a1 ∧ StoreAttempts.decision a1 = StoreAttempts.decision a ∧ ap_state a1 = ap_state a ∧
     (ap_delivered a = true → ap_delivered a1 = true)).
  { intros k a Ha. unfold MarkApprovalSignaled in Em. tx_inv. simpl. rewrite lookup_alter. case_decide; [subst k|by eauto].
    rewrite Ha. exists (mark_signaled a). simpl. split_and!; try done; unfold mark_signaled; by destruct (String.eqb _ _). }
  split.
  - intros k a Ha. destruct (Hk _ _ Ha) as (a1&Ha1&Hd1&_&Hl1). destruct (IH1 _ _ Ha1) as (a2&Ha2&Hd2&Hl2). exists a2. split_and!; [done|congruence|auto].
  - intros r n st re a Hin Ha Hp. apply elem_of_cons in Hin as [[= -> -> -> ->]|Hin].
    + destruct (MarkApprovalSignaled_signalled _ _ _ _ _ Em Ha Hp) as (a1&Ha1&Hd1). destruct (IH1 _ _ Ha1) as (a2&Ha2&_&Hl). exists a2. auto.
    + destruct (Hk _ _ Ha) as (a1&Ha1&_&Hs1&_). eapply IH2; [done|exact Ha1|congruence].
Qed.
Lemma redeliver_cancellations_approvals cancellations : ∀ now s (e : E) r s' e',
  redeliver_cancellations cancellations now s e = (r, (s', e')) → db_approvals s' = db_approvals s.
Proof.
  induction cancellations as [|[run reason] cancellations IH]; intros now s e r s' e' H; simpl in H; [by injection H as _ <- _|].
  destruct (EngineAdapter.Cancel run reason e) as [[err|[]] e1].
  - destruct err; try by injection H as _ <- _.
    destruct (MarkRunCancellationDeliveredIfStartImpossible run now s) as [err|[b s1]] eqn:Em; [by injection H as _ <- _|].
    rewrite (IH _ _ _ _ _ _ H). unfold MarkRunCancellationDeliveredIfStartImpossible in Em. by tx_inv.
  - by rewrite (IH _ _ _ _ _ _ H).
Qed.
(** A reconciliation that succeeds delivers the decisions it read. *)
Lemma Reconcile_delivers now s (e : E) s' e' run node state actor reason signals :
  EngineAdapter.Reconcile now s e = (inr tt, (s', e')) → state ≠ "pending" → decided_as run node state actor reason s →
  result (UndeliveredApprovalSignals 100) s = inr signals → (run, node, state, reason) ∈ signals → signalled run node s'.
Proof.
  intros H Hp (a&Ha&Hst&_) Hs Hin. unfold EngineAdapter.Reconcile in H. rewrite Hs in H.
  destruct (redeliver_approvals signals s e) as [[err|[]] [s1 e1]] eqn:Er; [done|].
  destruct (result (UndeliveredRunCancellations 100) s1) as [err|cancellations]; [done|].
  pose proof (redeliver_cancellations_approvals _ _ _ _ _ _ _ H) as E1.
  destruct (redelivered _ _ _ _ _ Er) as [_ Hd]. destruct (Hd _ _ _ _ _ Hin Ha) as (b&Hb&Hbd); [congruence|].
  exists b. by rewrite E1.
Qed.
End Decisions.

(** ** Artifacts *)

(** The whole of a list of chunks. *)
Definition assembled (chunks : list string) : string := foldr String.append "" chunks.

Lemma substring_split s : ∀ i a b, String.substring i (a + b) s = String.substring i a s +:+ String.substring (i + a) b s.
Proof.
  induction s as [|c s IH]; intros i a b; [by destruct i, a, b|].
  destruct i as [|i]; simpl; [|apply IH]. destruct a as [|a]; simpl; [done|]. by rewrite (IH 0%nat a b).
Qed.
Lemma substring_none s : ∀ i, String.substring i 0 s = "".
Proof. induction s as [|c s IH]; intros [|i]; simpl; auto. Qed.
Lemma substring_whole s : String.substring 0 (String.length s) s = s.
Proof. induction s as [|c s IH]; [done|]. simpl. by rewrite IH. Qed.
Lemma substring_length s : ∀ i n, (i + n ≤ String.length s)%nat → String.length (String.substring i n s) = n.
Proof.
  induction s as [|c s IH]; intros i n H; simpl in H.
  - destruct i, n; simpl; lia.
  - destruct i as [|i]; simpl; [|apply IH; lia]. destruct n as [|n]; simpl; [done|]. rewrite IH; simpl; lia.
Qed.

(** The messages of [send_chunks]. *)
Fixpoint chunks_of (n : nat) (data : string) (offset : nat) : list string :=
  match n with
  | O => []
  | S n =>
      if (offset <? String.length data)%nat then
        String.substring offset (Nat.min (offset + chunkSize) (String.length data) - offset) data :: chunks_of n data (offset + chunkSize)
      else []
  end.
Lemma send_chunks_all {E} `{!Client string} n data : ∀ offset (w : (Db * E) * list string), send_chunks n data offset w = send_all (chunks_of n data offset) w.
Proof.
  induction n as [|n IH]; intros offset w; [done|]. cbn [send_chunks chunks_of]. destruct (_ <? _)%nat; [|done].
  cbn [send_all]. unfold mbind, handler_bind. destruct (Send _ w) as [[e|[]] w1]; [done|apply IH].
Qed.
Lemma chunkSize_pos : (0 < chunkSize)%nat.
Proof. unfold chunkSize. lia. Qed.
Lemma chunks_bounded n data : ∀ offset, Forall (λ c, (0 < String.length c ≤ chunkSize)%nat) (chunks_of n data offset).
Proof.
  pose proof chunkSize_pos. induction n as [|n IH]; intros offset; cbn [chunks_of]; [constructor|].
  destruct (Nat.ltb_spec offset (String.length data)); constructor; [|apply IH]. rewrite substring_length; lia.
Qed.
Lemma chunks_assembled n data : ∀ offset, (offset ≤ String.length data)%nat → (String.length data < offset + n)%nat →
  assembled (chunks_of n data offset) = String.substring offset (String.length data - offset) data.
Proof.
  pose proof chunkSize_pos. induction n as [|n IH]; intros offset Hle Hn; [lia|]. cbn [chunks_of].
  destruct (Nat.ltb_spec offset (String.length data)) as [Hlt|]; cbn [assembled foldr].
  2: { replace (String.length data - offset)%nat with 0%nat by lia. by rewrite substring_none. }
  set (k := (Nat.min (offset + chunkSize) (String.length data) - offset)%nat).
  replace (String.length data - offset)%nat with (k + (String.length data - offset - k))%nat by lia. rewrite substring_split. f_equal.
  destruct (decide (offset + chunkSize ≤ String.length data)%nat) as [Hc|Hc].
  - change (foldr String.append "") with assembled. rewrite IH by lia. replace (offset + k)%nat with (offset + chunkSize)%nat by lia. f_equal. lia.
  - assert (chunks_of n data (offset + chunkSize) = []) as ->. { destruct n; [done|]. cbn [chunks_of]. by rewrite (proj2 (Nat.ltb_ge _ _)) by lia. }
    replace (String.length data - offset - k)%nat with 0%nat by lia. by rewrite substring_none.
Qed.

Section Artifacts.
Context {cal : Calendar} {dig : Digest} {E : Type} {sha : Sha256} {files : StateDir} {client : Client string}.

(** The registered file: regular, of the registered size and digest. *)
Definition stored_intact (row : ArtifactRow) (data : string) : Prop :=
  OpenRoot = None ∧ ∃ name, secureArtifactName (ar_path row) = inr name ∧
  ∃ file, root_Open name = Some file ∧ of_stat file = Some (true, ar_size row) ∧ of_content file = inr data ∧
    Z.of_nat (String.length data) = ar_size row ∧ ar_size row ≤ maxArtifactDownload ∧ FlowCompiler.sha256_hex data = ar_sha256 row.

Lemma ReadLimited_short limit content : Z.of_nat (String.length content) ≤ limit → ReadLimited limit content = content.
Proof. intros H. unfold ReadLimited. by rewrite (proj2 (Z.leb_le _ _) H). Qed.
(** A limited read that is shorter than the limit is the whole content. *)
Lemma ReadLimited_whole limit content : 0 ≤ limit → Z.of_nat (String.length (ReadLimited limit content)) < limit → ReadLimited limit content = content.
Proof.
  intros Hl. unfold ReadLimited. destruct (Z.leb_spec (Z.of_nat (String.length content)) limit) as [|H]; [done|].
  intros Hs. rewrite substring_length in Hs by lia. lia.
Qed.

Lemma send_all_ok {W A} `{!Client A} (l : list A) : ∀ (w : W) sent w', send_all l (w, sent) = (inr tt, w') → w' = (w, sent ++ l).
Proof.
  induction l as [|m l IH]; intros w sent w' H; simpl in H; [injection H as <-; by rewrite app_nil_r|].
  unfold mbind, handler_bind, Send in H. simpl in H. destruct (receives sent m); [done|]. apply IH in H. by rewrite <- app_assoc in H.
Qed.
Lemma ArtifactByUID_reads uid s row s' : ArtifactByUID uid s = inr (row, s') → s' = s.
Proof. intros H. unfold ArtifactByUID in H. by apply tx_row_inv in H as [_ ->]. Qed.

(** A download that succeeds is the registered file, whole. *)
Lemma GetArtifact_ok env uid s (e : E) w' : GetArtifact env uid ((s, e), []) = (inr tt, w') →
  ∃ row data, ArtifactByUID uid (others env 0 s) = inr (row, others env 0 s) ∧ stored_intact row data ∧
    w' = ((others env 0 s, e), chunks_of (S (String.length data)) data 0).
Proof.
  intros H. unfold GetArtifact in H. destruct (String.eqb uid ""); [done|].
  apply handler_bind_ok in H as (row&w1&Hrow&H). unfold on_first, answering, on_store, call in Hrow. cbn [fst snd] in Hrow.
  destruct (ArtifactByUID uid (others env 0 s)) as [err|[row0 s1]] eqn:Er; [done|]. injection Hrow as <- <-.
  pose proof (ArtifactByUID_reads _ _ _ _ Er) as ->. exists row0.
  destruct (_ || _) eqn:Hsize; [done|]. apply orb_false_iff in Hsize as [H0%Z.ltb_ge H1%Z.ltb_ge].
  destruct (secureArtifactName _) as [err|name] eqn:Hn; [done|]. destruct OpenRoot eqn:Ho; [done|]. destruct (root_Open name) as [file|] eqn:Hf; [|done].
  destruct (of_stat file) as [[regular size]|] eqn:Hst; [|done].
  destruct (negb regular || negb (size =? ar_size row0)) eqn:Hreg; [done|]. apply orb_false_iff in Hreg as [->%negb_false_iff ->%negb_false_iff%Z.eqb_eq].
  destruct (of_content file) as [err|content] eqn:Hc; [done|].
  destruct (negb (_ =? _)) eqn:Hlen; [done|]. apply negb_false_iff, Z.eqb_eq in Hlen.
  destruct (negb (String.eqb _ _)) eqn:Hs; [done|]. apply negb_false_iff, String.eqb_eq in Hs.
  assert (Hw : ReadLimited (maxArtifactDownload + 1) content = content).
  { apply ReadLimited_whole; [unfold maxArtifactDownload|rewrite Hlen]; lia. }
  rewrite Hw in Hlen, Hs, H.
  rewrite send_chunks_all in H. apply send_all_ok in H as ->. exists content. split_and!; [done| |done].
  split; [done|]. exists name. split; [done|]. exists file. done.
Qed.
(** A registered file that is intact is sent whole to a client that takes it. *)
Lemma GetArtifact_intact env uid s (e : E) row data : uid ≠ "" → (∀ sent m, receives (A:=string) sent m = None) →
  ArtifactByUID uid (others env 0 s) = inr (row, others env 0 s) → stored_intact row data →
  GetArtifact env uid ((s, e), []) = (inr tt, ((others env 0 s, e), chunks_of (S (String.length data)) data 0)).
Proof.
  intros Hu Hopen Hrow (Ho&name&Hn&file&Hf&Hst&Hc&Hlen&Hmax&Hs). unfold GetArtifact. rewrite (proj2 (String.eqb_neq _ _) Hu).
  unfold mbind, handler_bind, on_first, answering, on_store, call. cbn [fst snd]. rewrite Hrow. unfold ok. cbv beta iota.
  rewrite (proj2 (Z.ltb_ge (ar_size row) 0)), (proj2 (Z.ltb_ge maxArtifactDownload (ar_size row))) by lia. cbn [orb].
  rewrite Hn, Ho, Hf, Hst, Hc. cbn [negb orb]. rewrite Z.eqb_refl. cbn [negb].
  rewrite ReadLimited_short by (unfold maxArtifactDownload in *; lia). rewrite Hlen, Z.eqb_refl, Hs, String.eqb_refl. cbn [negb].
  rewrite send_chunks_all. generalize (chunks_of (S (String.length data)) data 0). intros l.
  change (l) with ([] ++ l) at 2. generalize (@nil string). induction l as [|m l IH]; intros sent; simpl; [by rewrite app_nil_r|].
  unfold mbind, handler_bind, Send. simpl. rewrite Hopen, IH. by rewrite <- app_assoc.
Qed.
End Artifacts.

(** *** The paths of registered artifacts *)

Lemma relative_clean p : path_is_abs p = false → path_is_abs (path_clean p) = false.
Proof.
  intros H. unfold path_clean. rewrite H. destruct (clean_parts_shape (split_on "/"%char p) [] 0 (split_on_no_slash p) (Forall_nil_2 _)) as (names&n&E&Hn).
  simpl in E. rewrite E. destruct n as [|n]; simpl.
  - destruct names as [|x names]; [done|]. apply Forall_cons in Hn as [(Hx&_&_&Hs) _]. by apply not_abs_join.
  - change (".." :: (replicate n ".." ++ names)) with (".." :: (replicate n ".." ++ names)). apply not_abs_join; [done|]. unfold no_slash, explode. simpl. set_solver.
Qed.
Lemma secure_name_inside path name : secureArtifactName path = inr name →
  ∃ parts, parts ≠ [] ∧ name = join "/" parts ∧ Forall ordinary parts.
Proof.
  unfold secureArtifactName. destruct (String.eqb path "" || path_is_abs path) eqn:Ha; [done|]. apply orb_false_iff in Ha as [_ Ha].
  destruct (_ || _) eqn:Hi; [done|]. intros [= <-]. apply path_clean_inside. rewrite (relative_clean _ Ha). exact Hi.
Qed.

Lemma inside_secure parts : parts ≠ [] → Forall ordinary parts → secureArtifactName (join "/" parts) = inr (join "/" parts).
Proof.
  intros Hne Ho. destruct (join_inside parts Hne Ho) as (Ha&Hc&H0&Hi). unfold secureArtifactName. by rewrite Ha, Hc, H0, Hi.
Qed.

Section Registered.
Context {cal : Calendar} {dig : Digest}.
Definition inside (r : ArtifactRow) : Prop := ∃ parts, parts ≠ [] ∧ ar_path r = join "/" parts ∧ Forall ordinary parts.
Lemma artifacts_inside_step s s' : map_Forall (λ _ r, inside r) (db_artifacts s) → store_step s s' → map_Forall (λ _ r, inside r) (db_artifacts s').
Proof.
  intros H Hstep. destruct Hstep.
  all: try (pose proof (artifact_inside _ _ _ _ _ _ Hop) as Hin).
  all: run_op Hop; try exact H.
  all: try (apply map_Forall_insert_2; [exact Hin|exact H]).
  revert Hop. apply (collect_runs_ind (λ s', map_Forall (λ _ r, inside r) (db_artifacts s'))); [|exact H].
  intros u r s1 s2 H1 Hc. rewrite (cr_artifacts _ _ _ _ _ Hc). intros k ar0 Hk. apply (H1 k). unfold delete_where in Hk. by apply map_lookup_filter_Some in Hk as [? _].
Qed.
Lemma artifacts_inside s : reachable s → map_Forall (λ _ r, inside r) (db_artifacts s).
Proof. apply (reachable_ind (λ s, map_Forall (λ _ r, inside r) (db_artifacts s))); [by intros ??|]. intros s1 s2 _. apply artifacts_inside_step. Qed.
Lemma registered_secure uid s row : reachable s → ArtifactByUID uid s = inr (row, s) → secureArtifactName (ar_path row) = inr (ar_path row).
Proof.
  intros Hr H. unfold ArtifactByUID in H. apply tx_row_inv in H as [H _]. apply head_Some_elem_of in H.
  apply list_elem_of_filter in H as [_ H]. apply list_elem_of_fmap in H as ([k r]&->&Hk). apply elem_of_map_to_list in Hk.
  cbn [snd]. destruct (artifacts_inside _ Hr _ _ Hk) as (parts&Hne&->&Ho). by apply inside_secure.
Qed.
End Registered.

(** ** Uploads *)

(** The chunks up to the first one marked final. *)
Fixpoint upload_of (chunks : list (string * bool)) : option (list string) :=
  match chunks with
  | [] => None
  | (chunk, mark) :: chunks => if mark : bool then Some [chunk] else (λ l, chunk :: l) <$> upload_of chunks
  end.
Definition total (chunks : list string) : Z := Z.of_nat (String.length (assembled chunks)).
Lemma total_cons c l : total (c :: l) = Z.of_nat (String.length c) + total l.
Proof. unfold total. change (assembled (c :: l)) with (c +:+ assembled l). rewrite append_length. lia. Qed.

Lemma received_ok chunks ending : ∀ bundle whole,
  receive chunks ending bundle false = inr (whole, true) ↔
  ∃ l, upload_of chunks = Some l ∧ whole = bundle +:+ assembled l ∧ Z.of_nat (String.length bundle) + total l ≤ maxBundleUpload.
Proof.
  induction chunks as [|[chunk mark] chunks IH]; intros bundle whole; cbn [receive upload_of].
  { split; [by destruct ending|by intros (?&?&_)]. }
  destruct (Z.ltb_spec maxBundleUpload (Z.of_nat (String.length bundle) + Z.of_nat (String.length chunk))) as [Hlt|Hle].
  { split; [done|]. intros (l&Hl&_&Ht). exfalso. destruct mark; [injection Hl as <-|apply fmap_Some in Hl as (k&_&->)];
      rewrite total_cons in Ht; unfold total in Ht; lia. }
  destruct mark.
  - split.
    + intros [= <-]. exists [chunk]. split_and!; [done|simpl; by rewrite append_nil|]. rewrite total_cons. unfold total. simpl. lia.
    + intros (l&[= <-]&->&_). simpl. by rewrite append_nil.
  - rewrite IH. rewrite append_length. split.
    + intros (l&Hl&->&Ht). exists (chunk :: l). rewrite Hl, total_cons. split_and!; [done|by rewrite append_assoc|lia].
    + intros (l&Hl&->&Ht). apply fmap_Some in Hl as (k&Hk&->). exists k. rewrite total_cons in Ht. split_and!; [done|by rewrite append_assoc|lia].
Qed.
Lemma receive_bundle_ok upload bundle :
  receive_bundle upload = inr bundle ↔
  ∃ l, upload_of (up_chunks upload) = Some l ∧ bundle = assembled l ∧ total l ≤ maxBundleUpload.
Proof.
  unfold receive_bundle. transitivity (receive (up_chunks upload) (up_end upload) "" false = inr (bundle, true)).
  - destruct (receive _ _ _ _) as [e|[b []]]; split; congruence.
  - rewrite received_ok. by setoid_rewrite Z.add_0_l.
Qed.
(** Data after the final chunk is not looked at: the refusal
    [bundle data followed final chunk] is never reached. *)
Lemma trailing_data_ignored chunks more ending ending' l : upload_of chunks = Some l →
  receive_bundle (mkUpload (chunks ++ more) ending) = receive_bundle (mkUpload chunks ending').
Proof.
  unfold receive_bundle. simpl. intros Hl. enough (∀ b, receive (chunks ++ more) ending b false = receive chunks ending' b false) as -> by done.
  revert l Hl. induction chunks as [|[chunk mark] chunks IH]; intros l Hl b; [done|]. simpl in *. destruct (_ <? _); [done|].
  destruct mark; [done|]. apply fmap_Some in Hl as (k&Hk&_). by apply (IH k).
Qed.

(** ** Health *)

Section Health.
Context {R : Type} {service : PluginService R}.
(** Ready exactly when no component reports anything. *)
Lemma Health_ready control triggers (w : (Db * R) * controller) : 
  let collaborators := mkCollaborators true true true true in
  ∃ dr response, Health collaborators control triggers w = (inr response, (dr, w.2)) ∧
    (hr_ready response = true ↔ hr_diagnostics response = []) ∧
    (hr_ready response = true ↔ Snapshot control = [] ∧ Snapshot triggers = [] ∧ Snapshot (pc_health w.2) = [] ∧
       match (sv_Health w.1).1 with inr l => l = [] | inl _ => True end).
Proof.
  intros collaborators. unfold Health. cbn. destruct (sv_Health w.1) as [found dr] eqn:E. eexists _, _. split; [done|]. cbn [hr_ready hr_diagnostics].
  set (l := (_ ++ _) ++ _ ++ _). assert (Hl : (length (sort_by diagnostic_order l) =? 0)%nat = true ↔ l = []).
  { rewrite sort_by_length. destruct l; simpl; split; done. }
  split.
  - rewrite Hl. split; [by intros ->|]. intros H%(f_equal length). rewrite length_fmap in H. pose proof (sort_by_length diagnostic_order l) as Hs. unfold sort_by in Hs. rewrite Hs in H. by destruct l.
  - rewrite Hl. unfold l. rewrite !app_nil. destruct found; simpl; tauto.
Qed.
End Health.

(** ** From a decision to the engine *)

Section Delivery.
Context {cal : Calendar} {dig : Digest} {E : Type} {engine : WorkflowClient E}.

(** The decisions that wait for the engine. *)
Definition backlog (s : Db) : list ((string * string) * ApprovalRow) :=
  filter (λ ka, ap_state ka.2 ≠ "pending" ∧ ap_delivered ka.2 = false) (map_to_list (db_approvals s)).
Lemma undelivered_listed run node state actor reason s : decided_as run node state actor reason s → state ≠ "pending" →
  ¬ signalled run node s → (length (backlog s) ≤ 100)%nat →
  ∃ signals, result (UndeliveredApprovalSignals 100) s = inr signals ∧ (run, node, state, reason) ∈ signals.
Proof.
  intros (a&Ha&Hst&_&Hre) Hp Hn Hlen. eexists. split; [reflexivity|]. fold (backlog s).
  rewrite take_ge by (rewrite sort_by_length; exact Hlen).
  apply list_elem_of_fmap. exists ((run, node), a). split; [by rewrite <- Hst, <- Hre|]. rewrite elem_of_sort_by.
  apply list_elem_of_filter. simpl. split; [|by apply elem_of_map_to_list]. split; [congruence|].
  destruct (ap_delivered a) eqn:Hd; [|done]. exfalso. apply Hn. by exists a.
Qed.
Lemma Reconcile_keeps now s (e : E) s' e' run node : EngineAdapter.Reconcile now s e = (inr tt, (s', e')) → signalled run node s → signalled run node s'.
Proof.
  intros H (a&Ha&Hd). unfold EngineAdapter.Reconcile in H. destruct (result (UndeliveredApprovalSignals 100) s) as [err|signals]; [done|].
  destruct (redeliver_approvals signals s e) as [[err|[]] [s1 e1]] eqn:Er; [done|].
  destruct (result (UndeliveredRunCancellations 100) s1) as [err|cancellations]; [done|].
  destruct (redelivered _ _ _ _ _ Er) as [Hk _]. destruct (Hk _ _ Ha) as (b&Hb&_&Hdel).
  exists b. rewrite (redeliver_cancellations_approvals _ _ _ _ _ _ _ H). auto.
Qed.
(** Once decided, the next reconciliation that succeeds delivers, unless more
    than a hundred decisions wait. *)
Lemma reconciled now s (e : E) s' e' run node state actor reason : decided_as run node state actor reason s → state ≠ "pending" →
  (length (backlog s) ≤ 100)%nat → EngineAdapter.Reconcile now s e = (inr tt, (s', e')) → signalled run node s'.
Proof.
  intros Hd Hp Hlen H. destruct (db_approvals s !! (run, node)) as [a|] eqn:Ha; [|by destruct Hd as (?&?&_); congruence].
  destruct (ap_delivered a) eqn:Hdel; [eapply Reconcile_keeps; [exact H|by exists a]|].
  destruct (undelivered_listed _ _ _ _ _ _ Hd Hp) as (signals&Hs&Hin); [intros (b&Hb&?); congruence|done|].
  by eapply Reconcile_delivers.
Qed.

Lemma decide_decides env request state (w w' : Db * E) : keeping (aq_run request) env → decide_ env request state w = (inr tt, w') →
  state ≠ "pending" ∧ decided_as (aq_run request) (aq_node request) state "unix-peer" (aq_reason request) w'.1 ∧
  ((SignalApproval (aq_run request) (aq_node request) (mkApproval state (aq_reason request)) w.2).1 = inr tt →
     signalled (aq_run request) (aq_node request) w'.1).
Proof.
  intros He H. destruct w' as [s' e']. pose proof (decide_spec (rtc (retaining (aq_run request))) env request state w He) as Hs. rewrite H in Hs.
  destruct Hs as (s0&s1&sent&_&Hd&Hsig&Hm). cbn [fst snd] in *. destruct (DecideApproval_decided _ _ _ _ _ _ _ _ Hd) as (Hdec&Hp&_). rewrite Hsig. split; [done|].
  destruct sent as [err|[]]; [by rewrite Hm|]. destruct Hm as (s2&H2&Hm).
  destruct (decided_retained _ _ _ _ _ _ _ H2 Hp Hdec) as [(a&Ha&Hst&Hac&Hre) _].
  assert (Hsg : signalled (aq_run request) (aq_node request) s') by (eapply MarkApprovalSignaled_signalled; [exact Hm|exact Ha|congruence]).
  split; [|done]. unfold MarkApprovalSignaled in Hm. tx_inv. exists (mark_signaled a). simpl. rewrite lookup_alter_eq, Ha. split; [done|].
  unfold mark_signaled. destruct (String.eqb _ _); done.
Qed.

(** *** What the engine has accepted *)

(** The signals an engine has accepted so far; it forgets none. *)
Class SignalLog : Type := {
  signals : E → list (string * string * Signal);
  signal_logged run name signal e e' : SignalWorkflow run name signal e = (inr tt, e') → (run, name, signal) ∈ signals e';
  signal_kept run name signal e : signals e ⊆ signals (SignalWorkflow run name signal e).2;
  cancel_kept run e : signals e ⊆ signals (CancelWorkflowInstance run e).2;
  provider_kept f run reason e : EngineAdapter.CancelRun = Some f → signals e ⊆ signals (f run reason e).2 }.
Context {log : SignalLog}.

Definition received (run node state reason : string) (e : E) : Prop := (run, approvalSignalName node, SigApproval (mkApproval state reason)) ∈ signals e.
(** The decision is stored, and it is flagged as delivered only if the engine has it,
    and always if it was [before]. *)
Definition held (before : Prop) (run node state actor reason : string) (w : Db * E) : Prop :=
  decided_as run node state actor reason w.1 ∧ (signalled run node w.1 → received run node state reason w.2) ∧ (before → signalled run node w.1).

(** The others' commits flag no decision: the two callers of [MarkApprovalSignaled]
    are steps of their own. *)
Definition quietly (run node : string) (s s' : Db) : Prop := retaining run s s' ∧ (signalled run node s' → signalled run node s).
Inductive control_step (run node : string) : relation (Db * E) :=
| control_store s s' e : quietly run node s s' → control_step run node (s, e) (s', e)
| control_engine s e e' : signals e ⊆ signals e' → control_step run node (s, e) (s, e')
| control_decide env request state w : within (rtc (quietly run node)) env → control_step run node w (decide_ env request state w).2
| control_reconcile now s e : control_step run node (s, e) (EngineAdapter.Reconcile now s e).2.

Lemma held_engine before run node state actor reason s e e' : signals e ⊆ signals e' → held before run node state actor reason (s, e) → held before run node state actor reason (s, e').
Proof. intros He (H1&H2&H3). split_and!; [done| |done]. intros Hs. apply He. by apply H2. Qed.
Lemma held_row before run node state actor reason s s' e : db_approvals s' !! (run, node) = db_approvals s !! (run, node) →
  held before run node state actor reason (s, e) → held before run node state actor reason (s', e).
Proof. intros E1 ((a&Ha&Hd)&H2&H3). unfold held, decided_as, signalled in *. cbn [fst] in *. rewrite E1. split_and!; [by exists a|done|done]. Qed.
Lemma held_quiet before run node state actor reason s s' e : state ≠ "pending" → rtc (quietly run node) s s' →
  held before run node state actor reason (s, e) → held before run node state actor reason (s', e).
Proof.
  intros Hp Hs. induction Hs as [|s s1 s2 [Hs Hf] _ IH]; [done|]. intros (H1&H2&H3). apply IH.
  destruct (decided_retained _ _ _ _ _ _ _ (rtc_once _ _ Hs) Hp H1) as [D1 D2]. split_and!; [done| |by auto].
  intros Hn. by apply H2, Hf.
Qed.
Lemma SignalApproval_kept run node signal e : signals e ⊆ signals (SignalApproval run node signal e).2.
Proof. apply signal_kept. Qed.
Lemma SignalApproval_received run node state reason e e' : SignalApproval run node (mkApproval state reason) e = (inr tt, e') → received run node state reason e'.
Proof. apply signal_logged. Qed.
Lemma Cancel_kept run reason e : signals e ⊆ signals (EngineAdapter.Cancel run reason e).2.
Proof.
  unfold EngineAdapter.Cancel. assert (H : signals e ⊆ signals (match EngineAdapter.CancelRun with None => (ok tt, e) | Some f => f run reason e end).2).
  { destruct EngineAdapter.CancelRun as [f|] eqn:Hf; [by apply provider_kept|done]. }
  destruct (match EngineAdapter.CancelRun with None => _ | Some f => _ end) as [provider e1]. cbn [snd] in H.
  destruct (findInstance run e1) as [err|[]]; [exact H|]. etrans; [exact H|]. pose proof (cancel_kept run e1) as Hc.
  by destruct (CancelWorkflowInstance run e1).
Qed.
Lemma Mark_other run node k s s' : MarkApprovalSignaled run node s = inr (tt, s') → k ≠ (run, node) → db_approvals s' !! k = db_approvals s !! k.
Proof. intros Hop Hk. unfold MarkApprovalSignaled in Hop. tx_inv. simpl. by rewrite lookup_alter_ne. Qed.
Lemma held_mark before run node state actor reason s s' e : MarkApprovalSignaled run node s = inr (tt, s') → state ≠ "pending" →
  received run node state reason e → held before run node state actor reason (s, e) → held before run node state actor reason (s', e).
Proof.
  intros Hop Hp He ((a&Ha&Hst&Hd)&_&_). cbn [fst] in *. split_and!; [|done|].
  - exists (mark_signaled a). unfold MarkApprovalSignaled in Hop. tx_inv. simpl.
    rewrite lookup_alter_eq, Ha. split; [done|]. unfold mark_signaled. by destruct (String.eqb _ _).
  - intros _. eapply MarkApprovalSignaled_signalled; [exact Hop|exact Ha|congruence].
Qed.

Lemma held_redeliver before run node state actor reason l : ∀ s e r s' e', state ≠ "pending" →
  Forall (λ d : string * string * string * string, d.1.1 = (run, node) → d = (run, node, state, reason)) l →
  redeliver_approvals l s e = (r, (s', e')) → held before run node state actor reason (s, e) → held before run node state actor reason (s', e').
Proof.
  induction l as [|[[[u n] st] re] l IH]; intros s e r s' e' Hp Hl H Hh; simpl in H; [by injection H as _ <- <-|].
  apply Forall_cons in Hl as [Hd Hl]. pose proof (SignalApproval_kept u n (mkApproval st re) e) as Hkept.
  destruct (SignalApproval u n (mkApproval st re) e) as [[err|[]] e1] eqn:Es; cbn [snd] in Hkept; pose proof (held_engine _ _ _ _ _ _ _ _ _ Hkept Hh) as H1.
  { by injection H as _ <- <-. }
  set (s1 := set_approvals (alter mark_signaled (u, n)) s) in *. assert (Em : MarkApprovalSignaled u n s = inr (tt, s1)) by done. clearbody s1.
  eapply IH; [done|done|exact H|]. destruct (decide ((u, n) = (run, node))) as [Ek|Ek].
  - pose proof (Hd Ek) as E2. injection E2 as -> -> -> ->. eapply held_mark; [exact Em|done|by eapply SignalApproval_received|exact H1].
  - eapply held_row; [|exact H1]. by eapply Mark_other.
Qed.
Lemma held_cancellations before run node state actor reason l : ∀ now s e r s' e',
  redeliver_cancellations l now s e = (r, (s', e')) → held before run node state actor reason (s, e) → held before run node state actor reason (s', e').
Proof.
  induction l as [|[u re] l IH]; intros now s e r s' e' H Hh; simpl in H; [by injection H as _ <- <-|].
  pose proof (Cancel_kept u re e) as Hkept. destruct (EngineAdapter.Cancel u re e) as [[err|[]] e1]; cbn [snd] in Hkept;
    pose proof (held_engine _ _ _ _ _ _ _ _ _ Hkept Hh) as H1.
  - destruct err; try by injection H as _ <- <-.
    destruct (MarkRunCancellationDeliveredIfStartImpossible u now s) as [err|[b s1]] eqn:Em; [by injection H as _ <- <-|].
    eapply IH; [exact H|]. eapply held_row; [|exact H1]. unfold MarkRunCancellationDeliveredIfStartImpossible in Em. by tx_inv.
  - eapply IH; [exact H|]. by eapply held_row.
Qed.
Lemma undelivered_of s l run node state actor reason : result (UndeliveredApprovalSignals 100) s = inr l → decided_as run node state actor reason s →
  Forall (λ d : string * string * string * string, d.1.1 = (run, node) → d = (run, node, state, reason)) l.
Proof.
  intros H (a&Ha&<-&_&<-). unfold result, UndeliveredApprovalSignals, tx_get in H. injection H as <-. apply Forall_fmap, Forall_forall.
  intros [k b] Hin. apply elem_of_take in Hin as (i&Hin&_). apply list_elem_of_lookup_2, elem_of_sort_by, list_elem_of_filter in Hin as [_ Hin].
  apply elem_of_map_to_list in Hin. cbn. destruct k as [u n]. cbn. intros [= -> ->]. congruence.
Qed.
Lemma held_reconcile before run node state actor reason now s e : state ≠ "pending" → held before run node state actor reason (s, e) →
  held before run node state actor reason (EngineAdapter.Reconcile now s e).2.
Proof.
  intros Hp Hh. unfold EngineAdapter.Reconcile. destruct (result (UndeliveredApprovalSignals 100) s) as [err|l] eqn:Hl; [done|].
  pose proof (undelivered_of _ _ _ _ _ _ _ Hl (proj1 Hh)) as Hall.
  destruct (redeliver_approvals l s e) as [r [s1 e1]] eqn:Er. pose proof (held_redeliver _ _ _ _ _ _ _ _ _ _ _ _ Hp Hall Er Hh) as H1.
  destruct r as [err|[]]; [done|]. destruct (result (UndeliveredRunCancellations 100) s1) as [err|cancellations]; [done|].
  destruct (redeliver_cancellations cancellations now s1 e1) as [r [s2 e2]] eqn:Ec. by eapply held_cancellations.
Qed.
Lemma held_decide before run node state actor reason env request state' (w : Db * E) : state ≠ "pending" → within (rtc (quietly run node)) env →
  held before run node state actor reason w → held before run node state actor reason (decide_ env request state' w).2.
Proof.
  intros Hp He Hh. destruct w as [s e]. pose proof (decide_spec (rtc (quietly run node)) env request state' (s, e) He) as H.
  destruct (decide_ env request state' (s, e)) as [[err|[]] [s' e']]; cbn [decision_outcome fst snd] in H |- *.
  { destruct H as [-> H]. by eapply held_quiet. }
  destruct H as (s0&s1&sent&H0&Hd&Hsig&Hm). pose proof (held_quiet _ _ _ _ _ _ _ _ _ Hp H0 Hh) as Hh0.
  assert (Hother : (run, node) ≠ (aq_run request, aq_node request)).
  { intros [= -> ->]. destruct Hh0 as [(a&Ha&Hst&_) _]. cbn [fst] in Ha. unfold DecideApproval in Hd. tx_inv. simplify_eq.
    match goal with H : String.eqb (ap_state a) "pending" = true |- _ => apply String.eqb_eq in H; congruence end. }
  assert (Hh1 : held before run node state actor reason (s1, e)).
  { eapply held_row; [|exact Hh0]. unfold DecideApproval in Hd. tx_inv. simpl. by rewrite lookup_insert_ne. }
  pose proof (SignalApproval_kept (aq_run request) (aq_node request) (mkApproval state' (aq_reason request)) e) as Hkept.
  rewrite Hsig in Hkept. cbn [snd] in Hkept. apply (held_engine _ _ _ _ _ _ _ _ _ Hkept) in Hh1.
  destruct sent as [err|[]]; [by rewrite Hm|]. destruct Hm as (s2&H2&Hm). apply (held_quiet _ _ _ _ _ _ _ _ _ Hp H2) in Hh1.
  eapply held_row; [|exact Hh1]. by eapply Mark_other.
Qed.
Lemma held_steps before run node state actor reason x y : state ≠ "pending" → rtc (control_step run node) x y →
  held before run node state actor reason x → held before run node state actor reason y.
Proof.
  intros Hp Hxy. induction Hxy as [|x y z Hstep _ IH]; [done|]. intros Hh. apply IH. destruct Hstep.
  - eapply held_quiet; [done|by apply rtc_once|exact Hh].
  - by eapply held_engine.
  - by apply held_decide.
  - by apply held_reconcile.
Qed.
(** A request that answers leaves its decision held. *)
Lemma decide_held env request state (w w' : Db * E) : keeping (aq_run request) env → decide_ env request state w = (inr tt, w') →
  state ≠ "pending" ∧ held (signalled (aq_run request) (aq_node request) w'.1) (aq_run request) (aq_node request) state "unix-peer" (aq_reason request) w'.
Proof.
  intros He H. destruct (decide_decides env request state w w' He H) as (Hp&Hd&_). split; [done|]. split_and!; [exact Hd| |done].
  pose proof (decide_spec (rtc (retaining (aq_run request))) env request state w He) as Hs. rewrite H in Hs.
  destruct Hs as (s0&s1&sent&_&Hop&Hsig&Hm). destruct sent as [err|[]]; [|intros _; by eapply SignalApproval_received].
  rewrite Hm. intros (a&Ha&Hf). cbn [fst] in *. subst. unfold DecideApproval in Hop. tx_inv.
  rewrite Hop in Ha. simpl in Ha. rewrite lookup_insert_eq in Ha. by injection Ha as <-.
Qed.

(** Cancellation: the intent is committed first. *)
Lemma Cancel_spec (rel : relation Db) `{!PreOrder rel} env run reason (w : Db * E) : within rel env →
  let '(r, w') := Cancel_ env run reason w in
  match r with
  | inl _ => w'.2 = w.2 ∧ rel w.1 w'.1
  | inr _ => ∃ s0 s1 cancelled, rel w.1 s0 ∧ RequestRunCancellation run reason (stamp env 0) s0 = inr (tt, s1) ∧
      EngineAdapter.Cancel run reason w.2 = (cancelled, w'.2) ∧
      match cancelled with
      | inl ErrNotFound => ∃ s2 b, rel s1 s2 ∧ MarkRunCancellationDeliveredIfStartImpossible run (stamp env 1) s2 = inr (b, w'.1)
      | inl _ => w'.1 = s1
      | inr _ => ∃ s2, rel s1 s2 ∧ MarkRunCancellationDelivered run (stamp env 1) s2 = inr (tt, w'.1)
      end
  end.
Proof.
  intros He. unfold Cancel_, mbind, handler_bind, answering, on_store.
  match goal with |- context [call env 0 ?t w.1] => destruct (call env 0 t w.1) as [[err|[]] s1] eqn:Ec end.
  { destruct (call_rel rel _ _ _ _ _ _ He Ec) as (s0&H0&_&->). by split. }
  destruct (call_rel rel _ _ _ _ _ _ He Ec) as (s0&H0&Hd). unfold trying, on_engine. cbn [fst snd].
  destruct (EngineAdapter.Cancel run reason w.2) as [[err|[]] e'] eqn:Es; cbn [fst snd].
  - unfold mret, handler_ret. cbn [fst snd]. destruct err; try (exists s0, s1; eexists; split_and!; [done|done|reflexivity|done]).
    cbn [fst snd]. match goal with |- context [call env 1 ?t s1] => destruct (call env 1 t s1) as [[err|b] s3] eqn:Em end.
    { apply call_fail in Em as [Em _]. exfalso. unfold MarkRunCancellationDeliveredIfStartImpossible, mbind, tx_bind, tx_get in Em. simpl in Em.
      destruct (db_cancellations _ !! _) as [c|]; [|done]. by destruct (_ || _). }
    destruct (call_rel rel _ _ _ _ _ _ He Em) as (s2&H2&Hm). exists s0, s1. eexists. split_and!; [done|done|reflexivity|]. by exists s2, b.
  - cbn [fst snd]. match goal with |- context [call env 1 ?t s1] => destruct (call env 1 t s1) as [[err|[]] s3] eqn:Em end.
    { by apply call_fail in Em as [Em _]. }
    destruct (call_rel rel _ _ _ _ _ _ He Em) as (s2&H2&Hm). exists s0, s1. eexists. split_and!; [done|done|reflexivity|]. by exists s2.
Qed.
(** The run is over, or its cancellation is recorded. *)
Lemma RequestRunCancellation_recorded run reason now s s' : RequestRunCancellation run reason now s = inr (tt, s') →
  ∃ r, db_runs s' !! run = Some r ∧ (terminalRunPhase (run_phase r) = true ∨ is_Some (db_cancellations s' !! run)).
Proof.
  intros Hop. run_op Hop.
  - eexists. split; [eassumption|]. left. match goal with H : _ && _ = true |- _ => by apply andb_true_iff in H as [_ ?] end.
  - eexists. split; [eassumption|]. right. match goal with H : bool_decide _ = true |- _ => by apply bool_decide_eq_true in H end.
  - eexists. split; [simpl; rewrite lookup_alter_eq; match goal with H : db_runs _ !! _ = Some _ |- _ => rewrite H end; reflexivity|]. by left.
Qed.
End Delivery.
