(* ===== verification/RetentionFacts.v ===== *)
(** The retention service: paths below the state directory, the files it may touch,
    the order of its commits, and what is gone when it succeeds.  A file system in
    memory ([memory]) satisfies the laws the last point rests on. *)

From Stdlib Require Import Ascii.
From Stdlib Require String.
From S2P Require Import Prelude.
From S2P Require Import Json.
From S2P Require Import GoStd.
From S2P Require Import Resource.
From S2P Require Import Plan.
From S2P Require Import Db.
From S2P Require Import StoreRuns.
From S2P Require Import StorePlugins.
From S2P Require Import StoreResources.
From S2P Require Import StoreStep.
From S2P Require Import StoreOps.
From S2P Require Import Proc.
From S2P Require Import EngineAdapter.
From S2P Require Import ManagerStream.
From S2P Require Import PluginController.
From S2P Require Import ServerPages.
From S2P Require Import ServerHandlers.
From S2P Require Import ServerRuns.
From S2P Require Import Retention.
From S2P Require Import ServerFacts.

Local Open Scope Z_scope.

(** ** Absolute paths *)

Definition absolute (names : list string) : string := "/" +:+ join "/" names.

Lemma absolute_is_abs names : path_is_abs (absolute names) = true.
Proof. unfold path_is_abs, absolute, has_prefix. by rewrite strip_prefix_app. Qed.
Lemma split_nonempty a : split_on "/"%char a ≠ [].
Proof. destruct a as [|c a]; [done|]. cbn [split_on]. destruct (Ascii.eqb c "/"%char); [done|]. by destruct (split_on "/"%char a). Qed.
Lemma split_app a b : split_on "/"%char (a +:+ String "/"%char b) = split_on "/"%char a ++ split_on "/"%char b.
Proof.
  induction a as [|c a IH]; [done|]. change (String c a +:+ String "/"%char b) with (String c (a +:+ String "/"%char b)).
  cbn [split_on]. rewrite IH. destruct (Ascii.eqb c "/"%char); [done|]. pose proof (split_nonempty a). by destruct (split_on "/"%char a).
Qed.
Lemma split_joined x l : split_on "/"%char (join "/" (x :: l)) = (x :: l) ≫= split_on "/"%char.
Proof.
  revert x. induction l as [|y l IH]; intros x; [simpl; by rewrite app_nil_r|].
  change (join "/" (x :: y :: l)) with (x +:+ String "/"%char (join "/" (y :: l))). rewrite split_app, IH. done.
Qed.
Lemma ordinary_nonempty names : Forall ordinary names → filter (λ name, name ≠ "") names = names.
Proof. induction 1 as [|x l [Hx _] _ IH]; [done|]. rewrite filter_cons_True by done. by f_equal. Qed.
Lemma ordinary_no_slash names : Forall ordinary names → Forall no_slash names.
Proof. intros H. eapply Forall_impl; [exact H|]. by intros y (_&_&_&?). Qed.
Lemma split_absolute names : Forall ordinary names →
  split_on "/"%char (absolute names) = "" :: (if names is [] then [""] else names).
Proof.
  intros H. unfold absolute. change ("/" +:+ join "/" names) with (String "/"%char (join "/" names)). cbn [split_on].
  destruct names as [|x names]; [done|]. change (Ascii.eqb "/" "/") with true. cbv match.
  rewrite split_join; [done|done|by apply ordinary_no_slash].
Qed.
Lemma names_absolute names : Forall ordinary names → path_names (absolute names) = names.
Proof.
  intros H. unfold path_names. rewrite split_absolute by done. rewrite filter_cons_False by (intros E; by apply E).
  destruct names; [done|by apply ordinary_nonempty].
Qed.

(** Cleaning a rooted path. *)
Lemma clean_rooted parts : ∀ stack, Forall no_slash parts → Forall ordinary stack → Forall ordinary (clean_parts true parts stack).
Proof.
  induction parts as [|p parts IH]; intros stack Hp Hs; simpl; [by apply Forall_rev|].
  apply Forall_cons in Hp as [Hp Hparts]. destruct (String.eqb_spec p ""); simpl; [by apply IH|]. destruct (String.eqb_spec p "."); simpl; [by apply IH|].
  destruct (String.eqb_spec p "..") as [->|].
  - destruct stack as [|x stack]; [by apply IH|]. apply Forall_cons in Hs as [(?&?&Hx&?) Hs]. rewrite (proj2 (String.eqb_neq _ _) Hx). by apply IH.
  - apply IH; [done|]. by constructor.
Qed.
Lemma clean_absolute path : path_is_abs path = true → ∃ names, Forall ordinary names ∧ path_clean path = absolute names.
Proof.
  intros H. unfold path_clean. rewrite H. eexists. split; [|reflexivity]. apply clean_rooted; [apply split_on_no_slash|done].
Qed.
Lemma clean_skip_root root parts : Forall ordinary root →
  clean_parts true (split_on "/"%char (absolute root) ++ parts) [] = clean_parts true parts (rev root).
Proof.
  intros H. rewrite split_absolute by done.
  assert (∀ names stack, Forall ordinary names → clean_parts true (names ++ parts) stack = clean_parts true parts (rev names ++ stack)) as Hskip.
  { induction names as [|x names IH]; intros stack Hn; [done|]. apply Forall_cons in Hn as [(H1&H2&H3&_) Hn]. simpl.
    rewrite (proj2 (String.eqb_neq _ _) H1), (proj2 (String.eqb_neq _ _) H2), (proj2 (String.eqb_neq _ _) H3). simpl. rewrite IH by done. by rewrite <- app_assoc. }
  destruct root as [|x root]; [done|]. transitivity (clean_parts true ((x :: root) ++ parts) []); [reflexivity|].
  rewrite Hskip by done. by rewrite app_nil_r.
Qed.
Lemma clean_absolute_id names : Forall ordinary names → path_clean (absolute names) = absolute names.
Proof.
  intros H. unfold path_clean. rewrite absolute_is_abs. rewrite <- (app_nil_r (split_on _ _)), clean_skip_root by done. simpl. by rewrite rev_involutive.
Qed.

(** ** Joining below a directory *)

Definition joined (root : list string) (rest : list string) : list string := clean_parts true (rest ≫= split_on "/"%char) (rev root).
Lemma join_absolute root rest : Forall ordinary root → filepath_Join (absolute root :: rest) = absolute (joined root rest).
Proof.
  intros H. cbn [filepath_Join]. change (String.eqb (absolute root) "") with false. cbv match. unfold path_clean.
  assert (path_is_abs (join "/" (absolute root :: rest)) = true) as ->.
  { destruct rest; [apply absolute_is_abs|]. unfold path_is_abs, has_prefix, absolute. cbn [join]. done. }
  rewrite split_joined. change ((absolute root :: rest) ≫= split_on "/"%char) with (split_on "/"%char (absolute root) ++ (rest ≫= split_on "/"%char)).
  by rewrite clean_skip_root.
Qed.
Lemma joined_ordinary root rest : Forall ordinary root → Forall ordinary (joined root rest).
Proof.
  intros H. apply clean_rooted; [|by apply Forall_rev]. induction rest as [|x rest IH]; [done|]. simpl. apply Forall_app. split; [apply split_on_no_slash|done].
Qed.
Lemma joined_names root names : Forall ordinary names → joined root names = root ++ names.
Proof.
  intros H. unfold joined. assert (names ≫= split_on "/"%char = names) as ->.
  { induction H as [|x l Hx _ IH]; [done|]. change ((x :: l) ≫= split_on "/"%char) with (split_on "/"%char x ++ (l ≫= split_on "/"%char)).
    rewrite IH. change x with (join "/" [x]) at 1. rewrite split_join; [done|done|]. constructor; [apply Hx|done]. }
  rewrite clean_ordinary by done. by rewrite rev_involutive.
Qed.
Lemma joined_path root names : names ≠ [] → Forall ordinary names → joined root [join "/" names] = root ++ names.
Proof.
  intros Hn H. unfold joined. simpl. rewrite app_nil_r, split_join by (done || by apply ordinary_no_slash). rewrite clean_ordinary by done. by rewrite rev_involutive.
Qed.

(** ** [filepath.Rel] *)

Lemma relative_shape base : ∀ target, ∃ common up down,
  base = common ++ up ∧ target = common ++ down ∧ relative_names base target = replicate (length up) ".." ++ down.
Proof.
  induction base as [|b base IH]; intros target; [by exists [], [], target|]. destruct target as [|t target]; [by exists [], (b :: base), []|].
  cbn [relative_names]. destruct (String.eqb_spec b t) as [->|Hne].
  - destruct (IH target) as (common&up&down&E1&E2&E). exists (t :: common), up, down. rewrite E, E1, E2. split_and!; [done|done|done].
  - by exists [], (b :: base), (t :: target).
Qed.
(** A relative path that does not step out: the target is below the base. *)
Lemma rel_inside base target : Forall ordinary base → Forall ordinary target →
  escapes (filepath_Rel (absolute base) (absolute target)) = false → ∃ down, target = base ++ down.
Proof.
  intros Hb Ht. unfold filepath_Rel. rewrite !clean_absolute_id, !names_absolute by done.
  destruct (relative_shape base target) as (common&up&down&->&->&E). rewrite E. destruct up as [|u up]; [intros _; exists down; by rewrite app_nil_r|].
  cbn [length replicate app]. destruct (replicate (length up) ".." ++ down) as [|y l]; [done|].
  unfold escapes, has_prefix. change (join "/" (".." :: y :: l)) with ("../" +:+ join "/" (y :: l)). rewrite strip_prefix_app. by rewrite orb_true_r.
Qed.
Lemma rel_below base target : Forall ordinary base → Forall ordinary target →
  String.eqb (filepath_Rel (absolute base) (absolute target)) "." || escapes (filepath_Rel (absolute base) (absolute target)) = false →
  ∃ down, down ≠ [] ∧ target = base ++ down.
Proof.
  intros Hb Ht [H1 H2]%orb_false_iff. destruct (rel_inside _ _ Hb Ht H2) as [down ->]. exists down. split; [|done]. intros ->.
  rewrite app_nil_r in H1. revert H1. unfold filepath_Rel. rewrite !clean_absolute_id, !names_absolute by done.
  assert (relative_names base base = []) as -> by (clear; induction base as [|b base IH]; [done|]; cbn [relative_names]; by rewrite String.eqb_refl). done.
Qed.
Lemma ordinary_inside names : names ≠ [] → Forall ordinary names → escapes (join "/" names) = false.
Proof.
  intros Hn Ho. pose proof (inside_secure _ Hn Ho) as H. unfold secureArtifactName in H. destruct (_ || _); [done|].
  destruct (_ || _) eqn:E; [done|]. injection H as Hc. rewrite Hc in E. apply orb_false_iff in E as [E1 E2]. apply orb_false_iff in E1 as [_ E1].
  unfold escapes. by rewrite E1, E2.
Qed.
Lemma below_is_inside base down : Forall ordinary base → Forall ordinary down →
  escapes (filepath_Rel (absolute base) (absolute (base ++ down))) = false.
Proof.
  intros Hb Hd. unfold filepath_Rel. rewrite !clean_absolute_id, !names_absolute by (try apply Forall_app_2; done).
  assert (relative_names base (base ++ down) = down) as ->.
  { clear. induction base as [|b base IH]; [by destruct down|]. cbn [relative_names app]. by rewrite String.eqb_refl. }
  destruct down as [|x down]; [done|]. by apply ordinary_inside.
Qed.

Ltac ordinals := repeat (apply Forall_cons; split; [assumption|]); apply Forall_nil_2.

(** ** What a call may touch *)

Section Frames.
Context {cal : Calendar} {dig : Digest} {E F : Type} {fs : FileSystem F}.
Context (pruner : option (string → E → res unit * E)) (root : list string) (Hroot : Forall ordinary root).
Abbreviation C := ((E * F) * Report)%type.

(** One call that removes something below the state directory, at one of the
    [area]'s places. *)
Inductive removes (area : list string → Prop) : F → F → Prop :=
| removes_file names f : names ≠ [] → Forall ordinary names → area names → removes area f (os_Remove (absolute (root ++ names)) f).2
| removes_tree names f : names ≠ [] → Forall ordinary names → area names → removes area f (os_RemoveAll (absolute (root ++ names)) f).2.

Record frame (area : list string → Prop) (w w' : Db * C) : Prop := {
  fr_db : rtc store_step w.1 w'.1;
  fr_engine : w'.2.1.1 = w.2.1.1;
  fr_files : rtc (removes area) w.2.1.2 w'.2.1.2;
  fr_runs : rp_runs w'.2.2 = rp_runs w.2.2;
  fr_items : rp_items w'.2.2 = rp_items w.2.2 }.
#[export] Instance frame_preorder area : PreOrder (frame area).
Proof.
  split.
  - intros w. by split.
  - intros w1 w2 w3 [D1 E1 F1 R1 I1] [D2 E2 F2 R2 I2]. split; [by etrans|congruence|by etrans|congruence|congruence].
Qed.
Definition confined {A} (area : list string → Prop) (p : World C A) : Prop := ∀ w, frame area w (p w).2.

Lemma confined_ret {A} area (a : A) : confined area (mret a).
Proof. by intros w. Qed.
Lemma confined_lift {A} area (r : res A) : confined area (world_lift r).
Proof. by intros w. Qed.
Lemma confined_looking {A} area (p : F → res A) : confined area (looking p).
Proof. by intros w. Qed.
Lemma confined_tally area files bytes : confined area (tally 0 files bytes).
Proof. intros w. split; try done. simpl. lia. Qed.
Lemma confined_bind {A B} area (p : World C A) (q : A → World C B) :
  confined area p → (∀ a, confined area (q a)) → confined area (p ≫= q).
Proof.
  intros Hp Hq w. specialize (Hp w). unfold mbind, world_bind. destruct (p w) as [[e|a] w1]; [done|]. etrans; [exact Hp|apply Hq].
Qed.
Lemma confined_store {A} area (p : Proc A) : evolves p → confined area (on_store p).
Proof. intros Hp w. specialize (Hp w.1). unfold on_store. destruct (p w.1) as [r s]. by split. Qed.
Lemma confined_remove area names : names ≠ [] → Forall ordinary names → area names → confined area (on_files (os_Remove (absolute (root ++ names)))).
Proof.
  intros Hn Ho Ha [s [[e f] r]]. pose proof (removes_file area names f Hn Ho Ha) as Hr. unfold on_files. simpl.
  destruct (os_Remove (absolute (root ++ names)) f) as [x f']. split; try done. by apply rtc_once.
Qed.
Lemma confined_remove_all area names : names ≠ [] → Forall ordinary names → area names → confined area (on_files (os_RemoveAll (absolute (root ++ names)))).
Proof.
  intros Hn Ho Ha [s [[e f] r]]. pose proof (removes_tree area names f Hn Ho Ha) as Hr. unfold on_files. simpl.
  destruct (os_RemoveAll (absolute (root ++ names)) f) as [x f']. split; try done. by apply rtc_once.
Qed.
Local Hint Resolve confined_ret confined_lift confined_looking confined_tally confined_bind confined_remove confined_remove_all : core.

(** ** The steps of a collection *)

Lemma safe_path names : names ≠ [] → Forall ordinary names → safeStatePath (absolute root) (join "/" names) = inr (absolute (root ++ names)).
Proof.
  intros Hn Ho. unfold safeStatePath. pose proof (inside_secure _ Hn Ho) as Hs. unfold secureArtifactName in Hs. destruct (_ || _); [done|].
  rewrite join_absolute, joined_path by done. by rewrite below_is_inside.
Qed.
Lemma inspect_path names f path info : names ≠ [] → Forall ordinary names →
  inspectArtifact (absolute root) (join "/" names) f = inr (path, info) → path = absolute (root ++ names).
Proof.
  intros Hn Ho. unfold inspectArtifact. rewrite safe_path by done.
  destruct (os_Lstat _ f) as [[|e]|i]; [by intros [= <- _]|done|]. destruct (_ || _); [done|]. by intros [= <- _].
Qed.
Lemma remove_artifact_confined area names : names ≠ [] → Forall ordinary names → area names →
  confined area (remove_artifact (absolute root) (join "/" names)).
Proof.
  intros Hn Ho Ha w. unfold remove_artifact, mbind, world_bind, looking.
  destruct (inspectArtifact (absolute root) (join "/" names) w.2.1.2) as [e|[path info]] eqn:Hi; [done|].
  apply inspect_path in Hi as ->; [|done|done]. cbn [fst snd].
  refine (confined_bind area (on_files (os_Remove (absolute (root ++ names)))) _ _ _ w); [auto|]. intros [[|e]|[]]; auto.
Qed.
Lemma remove_artifacts_confined area paths : Forall (λ path, ∃ names, names ≠ [] ∧ Forall ordinary names ∧ path = join "/" names ∧ area names) paths →
  confined area (remove_artifacts (absolute root) paths).
Proof.
  induction 1 as [|path paths (names&Hn&Ho&->&Ha) _ IH]; [apply confined_ret|]. apply confined_bind; [by apply remove_artifact_confined|auto].
Qed.
Lemma remove_tree_confined area dir target : ordinary dir → Forall ordinary target →
  (∀ down, down ≠ [] → target = root ++ dir :: down → area (dir :: down)) →
  confined area (removeTreeWithin (absolute (root ++ [dir])) (absolute target)).
Proof.
  intros Hd Ht Ha. unfold removeTreeWithin. assert (Hb : Forall ordinary (root ++ [dir])) by (apply Forall_app_2; [done|ordinals]).
  destruct (_ || _) eqn:Hrel; [auto|]. destruct (rel_below _ _ Hb Ht Hrel) as (down&Hne&->). rewrite <- app_assoc in *. cbn [app] in *.
  apply Forall_app in Ht as [_ Ht]. apply confined_bind; [auto|]. intros [[|e]|info]; [auto|auto|]. destruct (fi_symlink info); [auto|].
  apply confined_bind; [apply confined_remove_all; [done|done|by apply Ha]|]. intros [e|[]]; auto.
Qed.
Lemma parent_absolute names x : Forall ordinary (names ++ [x]) → parent (absolute (names ++ [x])) = absolute names.
Proof. intros H. unfold parent. rewrite names_absolute by done. by rewrite removelast_last. Qed.
Lemma remove_parents_confined area dir x : ordinary dir → ordinary x → area [dir; x] →
  confined area (removeEmptyParents (absolute (root ++ [dir])) (absolute (root ++ [dir; x]))).
Proof.
  intros Hd Hx Ha. assert (Hb : Forall ordinary (root ++ [dir])) by (apply Forall_app_2; [done|ordinals]).
  assert (Hs : Forall ordinary (root ++ [dir; x])) by (apply Forall_app_2; [done|ordinals]).
  unfold removeEmptyParents. rewrite !clean_absolute_id, names_absolute by done.
  replace (length (root ++ [dir; x])) with (S (S (length root))) by (rewrite length_app; simpl; lia).
  cbn [remove_parents]. destruct (String.eqb _ _); [auto|]. apply confined_bind; [apply confined_remove; [done|ordinals|done]|].
  assert (parent (absolute (root ++ [dir; x])) = absolute (root ++ [dir])) as ->.
  { change [dir; x] with ([dir] ++ [x]) in *. rewrite app_assoc in *. by apply parent_absolute. }
  rewrite String.eqb_refl. intros [[|e]|[]]; auto.
Qed.
Lemma join_dir dir : ordinary dir → filepath_Join [absolute root; dir] = absolute (root ++ [dir]).
Proof. intros H. rewrite join_absolute, joined_names by (done || ordinals). done. Qed.
Lemma join_dir2 dir x : ordinary dir → ordinary x → filepath_Join [absolute root; dir; x] = absolute (root ++ [dir; x]).
Proof. intros Hd H. rewrite join_absolute, joined_names by (done || ordinals). done. Qed.

Lemma literal_ordinary :
  ordinary "workspaces" ∧ ordinary "artifacts" ∧ ordinary "backups" ∧ ordinary "plugins".
Proof. repeat split; try done; unfold no_slash, explode; simpl; set_solver. Qed.

(** ** Plans *)

(** The first [n] of a sorted list, for one that is not among them. *)
Lemma first_before {A} (R : relation A) n (l : list A) x : StronglySorted R l → x ∈ drop n l →
  length (take n l) = n ∧ Forall (λ y, R y x) (take n l).
Proof.
  intros Hl Hx. rewrite <- (take_drop n l) in Hl. split.
  - rewrite length_take. apply list_elem_of_lookup in Hx as [i Hi]. rewrite lookup_drop in Hi. apply lookup_lt_Some in Hi. lia.
  - apply Forall_forall. intros y Hy. by eapply StronglySorted_app_1_elem_of.
Qed.
Lemma first_others {A} n (l : list A) x : x ∈ drop n l → length (take n l) = n ∧ take n l ++ [x] ⊆+ l.
Proof.
  intros Hx. split.
  - rewrite length_take. apply list_elem_of_lookup in Hx as [i Hi]. rewrite lookup_drop in Hi. apply lookup_lt_Some in Hi. lia.
  - rewrite <- (take_drop n l) at 2. apply submseteq_app; [done|]. by apply singleton_submseteq_l.
Qed.

(** A Run that may go: finished before the cutoff, with nothing to deliver, and at
    least [keepRecent] others finished no earlier. *)
Record due_run (before keepRecent : Z) (s : Db) (uid : string) (r : RunRow) (completed : string) : Prop := {
  dr_row : db_runs s !! uid = Some r;
  dr_terminal : terminalRunPhase (run_phase r) = true;
  dr_completed : run_completed r = Some completed;
  dr_old : str_lt completed (rfc3339nano before) = true;
  dr_delivered o : o ∈ db_outbox s → ob_aggregate o = uid → ob_state o = ObCompleted;
  dr_newer : ∃ newer, NoDup (uid :: newer) ∧ length newer = Z.to_nat keepRecent ∧
    Forall (λ u, ∃ r', db_runs s !! u = Some r' ∧ terminalRunPhase (run_phase r') = true ∧ str_le completed (completed_text (u, r')) = true) newer }.
Lemma recent_before keep s ur : ur ∈ terminal_runs s → ur.1 ∉ recent_runs keep s →
  NoDup (ur.1 :: recent_runs keep s) ∧ length (recent_runs keep s) = Z.to_nat keep ∧
  Forall (λ u, ∃ r', db_runs s !! u = Some r' ∧ terminalRunPhase (run_phase r') = true ∧ str_le (completed_text ur) (completed_text (u, r')) = true) (recent_runs keep s).
Proof.
  intros Hu Hn. unfold recent_runs in *. set (order := lexc _ _) in *. set (sorted := sort_by order (terminal_runs s)) in *.
  assert (Hx : ur ∈ drop (Z.to_nat keep) sorted).
  { apply (elem_of_sort_by order) in Hu. fold sorted in Hu. rewrite <- (take_drop (Z.to_nat keep) sorted), elem_of_app in Hu.
    destruct Hu as [Hu|Hu]; [|done]. exfalso. apply Hn, list_elem_of_fmap. by exists ur. }
  destruct (first_before (cmp_le order) _ _ _ (sort_by_sorted order _) Hx) as (Hlen&Hle).
  split_and!.
  - constructor; [done|]. assert (Hd : NoDup sorted.*1).
    { unfold sorted. rewrite (sort_by_perm order). apply NoDup_fmap_fst; [|apply NoDup_filter, NoDup_map_to_list].
      intros u r1 r2 [_ H1]%list_elem_of_filter [_ H2]%list_elem_of_filter. apply elem_of_map_to_list in H1, H2. congruence. }
    rewrite <- (take_drop (Z.to_nat keep) sorted), fmap_app in Hd. by apply NoDup_app in Hd as [Hd _].
  - by rewrite length_fmap.
  - apply Forall_fmap. rewrite Forall_forall in *. intros [u r'] Hy. specialize (Hle _ Hy). apply elem_of_take in Hy as (i&Hy&_).
    apply list_elem_of_lookup_2 in Hy. apply elem_of_sort_by, list_elem_of_filter in Hy as [Ht Hy]. apply elem_of_map_to_list in Hy.
    exists r'. split_and!; [done|done|]. cbn [fst]. rewrite str_le_spec. revert Hle. unfold order, cmp_le, lexc, revc, onc.
    destruct (str_cmp (completed_text ur) (completed_text (u, r'))) eqn:Ec; [done|done|done].
Qed.
Lemma retention_runs_due before keepRecent limit s l s' : retention_runs before keepRecent limit s = inr (l, s') →
  s' = s ∧ Forall (λ uc, ∃ r, due_run before keepRecent s uc.1 r uc.2) l.
Proof.
  intros H. unfold retention_runs in H. tx_inv. split; [done|]. apply Forall_fmap, Forall_forall. intros [uid r] Hc.
  apply elem_of_take in Hc as (i&Hc&_). apply list_elem_of_lookup_2 in Hc.
  apply elem_of_sort_by, list_elem_of_filter in Hc as [Hcand Hin]. unfold retention_candidate in Hcand. cbn [fst snd] in *.
  apply andb_true_iff in Hcand as [Hcand Hrecent]. apply andb_true_iff in Hcand as [Hold Hopen].
  apply negb_true_iff, bool_decide_eq_false in Hrecent. apply negb_true_iff in Hopen.
  pose proof (recent_before keepRecent s (uid, r) Hin Hrecent) as Hnewer. cbn [fst] in Hnewer.
  apply list_elem_of_filter in Hin as [Ht Hin]. apply elem_of_map_to_list in Hin. exists r.
  unfold completed_text in *. cbn [fst snd] in *. destruct (run_completed r) as [completed|] eqn:Ec; [|done]. split; [done..| |by eexists].
  intros o Ho <-. apply dec_stable. intros Hs. apply not_true_iff_false in Hopen. apply Hopen, existsb_exists. exists o.
  split; [by apply list_elem_of_In|]. rewrite String.eqb_refl. simpl. by apply negb_true_iff, bool_decide_eq_false.
Qed.

(** A planned Run, with the artifacts it had when they were listed. *)
Definition selected (before keepRecent : Z) (s : Db) (c : RetentionRun) : Prop :=
  (∃ r, due_run before keepRecent s (rn_uid c) r (rn_completed c)) ∧
  ∃ s1, rtc store_step s s1 ∧ rn_paths c = ar_path <$> artifacts_of (rn_uid c) s1.
Lemma run_artifacts_select env before keepRecent s0 l : interference env → ∀ i s cs s',
  rtc store_step s0 s → Forall (λ uc, ∃ r, due_run before keepRecent s0 uc.1 r uc.2) l →
  run_artifacts env i l s = (inr cs, s') → Forall (selected before keepRecent s0) cs.
Proof.
  intros He. induction l as [|[uid completed] l IH]; intros i s cs s' Hs Hl H; cbn [run_artifacts] in H; proc_inv; [done|].
  apply Forall_cons in Hl as [Hc Hl]. unfold retention_artifacts in *. tx_inv.
  assert (Hs1 : rtc store_step s0 (others env i s)) by (etrans; [exact Hs|apply He]). constructor; [|by eapply IH].
  split; [exact Hc|]. by exists (others env i s).
Qed.
Lemma PlanRunRetention_selects env i before keepRecent limit s l s' : interference env →
  PlanRunRetention env i before keepRecent limit s = (inr l, s') →
  rtc store_step (others env i s) s' ∧ Forall (selected before keepRecent (others env i s)) l.
Proof.
  intros He H. unfold PlanRunRetention, proc_guard in H. proc_inv.
  match goal with H : retention_runs _ _ _ _ = inr _ |- _ => apply retention_runs_due in H as [-> Hl] end.
  split; [|by eapply run_artifacts_select].
  match goal with H : run_artifacts ?env ?i ?l ?s = _ |- _ => pose proof (evolves_run_artifacts env l He i s) as Hs; by rewrite H in Hs end.
Qed.

(** A planned plugin version: inactive and old when it was listed; no installation
    and no stored plan referred to it shortly before. *)
Definition referenced_by (s : Db) (name version : string) : Prop :=
  (∃ k row i, db_resources s !! k = Some row ∧ k.1.1 = "PluginInstallation" ∧ DecodePluginInstallation (rr_doc row) = inr i ∧
     pi_plugin i.2 = name ∧ pi_version i.2 = version) ∨
  (∃ hash plan node b, db_plans s !! hash = Some plan ∧ node ∈ pl_nodes (pr_plan plan) ∧ pn_plugin node = Some b ∧
     pb_name b = name ∧ pb_version b = version).
Record due_plugin (before : Z) (s : Db) (p : PluginRecord) : Prop := {
  dp_inactive : pv_active p = false;
  dp_old : pv_installed p < before;
  dp_unreferenced : ∃ s1, rtc store_step s s1 ∧ ¬ referenced_by s1 (pv_name p) (pv_version p);
  dp_installed : ∃ s2 row, rtc store_step s s2 ∧ db_plugins s2 !! (pv_name p, pv_version p) = Some row ∧
    p = plugin_record s2 ((pv_name p, pv_version p), row) }.
Lemma installation_refs_all rows l r i : installation_refs rows = inr l → r ∈ rows → DecodePluginInstallation (rr_doc r) = inr i →
  (pi_plugin i.2, pi_version i.2) ∈ l.
Proof.
  revert l. induction rows as [|r' rows IH]; intros l H Hr Hi; [by apply elem_of_nil in Hr|]. cbn [installation_refs] in H. unfold mbind, res_bind in H.
  destruct (DecodePluginInstallation (rr_doc r')) as [e|i'] eqn:Ed; [done|]. destruct (installation_refs rows) as [e|l'] eqn:El; [done|]. injection H as <-.
  apply elem_of_cons in Hr as [->|Hr]; [rewrite Ed in Hi; injection Hi as ->; left|right; by eapply IH].
Qed.
Lemma referenced_all s referenced s' name version : referencedPluginVersionsTx s = inr (referenced, s') → referenced_by s name version →
  s' = s ∧ (name, version) ∈ referenced.
Proof.
  intros H Hr. unfold referencedPluginVersionsTx in H. tx_inv. split; [done|]. apply elem_of_list_to_set, elem_of_app.
  destruct Hr as [(k&row&i&Hk&Hkind&Hd&<-&<-)|(hash&plan&node&b&Hp&Hnode&Hb&<-&<-)].
  - left. eapply installation_refs_all; [done| |exact Hd]. apply list_elem_of_fmap. exists (k, row). split; [done|].
    apply list_elem_of_filter. split; [exact Hkind|by apply elem_of_map_to_list].
  - right. apply list_elem_of_bind. exists (pr_plan plan). split; [|apply list_elem_of_fmap; exists (hash, plan); split; [done|by apply elem_of_map_to_list]].
    unfold plan_refs. apply list_elem_of_omap. exists node. split; [done|]. by rewrite Hb.
Qed.
Lemma PlanPluginRetention_due env i before limit s l s' : interference env →
  PlanPluginRetention env i before limit s = (inr l, s') → Forall (due_plugin before s) l.
Proof.
  intros He H. unfold PlanPluginRetention, proc_guard, ListPlugins in H. proc_inv. tx_inv. apply Forall_forall. intros p Hp.
  match goal with H : referencedPluginVersionsTx _ = inr (?r, ?s1) |- _ => rename H into Href; set (referenced := r) in *; assert (s1 = others env i s) as ->
    by (unfold referencedPluginVersionsTx in Href; tx_inv; done) end.
  apply elem_of_take in Hp as (j&Hp&_). apply list_elem_of_lookup_2, list_elem_of_filter in Hp as [(Ha&Hold&Hn) Hp].
  apply list_elem_of_fmap in Hp as ([[name version] row]&->&Hp). apply elem_of_sort_by, elem_of_map_to_list in Hp.
  split; [done|done| |].
  - exists (others env i s). split; [apply He|]. intros Hr. by apply (referenced_all _ _ _ _ _ Href) in Hr as [_ Hr].
  - eexists (others env (S i) (others env i s)), row. split_and!; [etrans; apply He|done|done].
Qed.

Definition planned (p : Plans) (names : list string) : Prop :=
  (∃ c, c ∈ tp_runs p ∧ (names = ["workspaces"; rn_uid c] ∨ names = ["artifacts"; rn_uid c] ∨ join "/" names ∈ rn_paths c)) ∨
  (∃ b, b ∈ tp_backups p ∧ bc_path b = absolute (root ++ names)) ∨
  (∃ plugin size down, (plugin, size) ∈ tp_plugins p ∧ names = "plugins" :: down ∧ plugin_directory (absolute root) plugin = absolute (root ++ names)).
Definition below (path : string) : Prop := ∃ names, names ≠ [] ∧ Forall ordinary names ∧ path = join "/" names.
Record plans_ok (p : Plans) : Prop := {
  po_runs : Forall (λ c, ordinary (rn_uid c) ∧ Forall below (rn_paths c)) (tp_runs p);
  po_backups : Forall (λ b, ∃ name, ordinary name ∧ bc_path b = absolute (root ++ ["backups"; name])) (tp_backups p) }.

(** The names [os.ReadDir] returns are names. *)
Class NamesLaw : Prop := entry_names path f entries : os_ReadDir path f = inr entries → Forall (λ entry, ordinary (de_name entry)) entries.
Context {names_law : NamesLaw}.
(** A regular archive of the backups directory. *)
Definition backup_entry (entry : DirEntry) (b : backupCandidate) : Prop :=
  de_symlink entry = false ∧ de_dir entry = false ∧ has_suffix (de_name entry) ".tar.gz" = true ∧ ordinary (de_name entry) ∧
  ∃ info, de_info entry = inr info ∧ fi_regular info = true ∧
    b = mkBackup (absolute (root ++ ["backups"; de_name entry])) (fi_mod info) (fi_size info).
(** A backup that may go: an archive older than the cutoff, with [keepRecent] others
    that are no older. *)
Definition due_backup (before keepRecent : Z) (f : F) (b : backupCandidate) : Prop :=
  bc_mod b < before ∧ ∃ entries entry newer, os_ReadDir (absolute (root ++ ["backups"])) f = inr entries ∧ backup_entry entry b ∧
    newer ++ [entry] ⊆+ entries ∧ length newer = Z.to_nat keepRecent ∧
    Forall (λ other, ∃ b', backup_entry other b' ∧ bc_mod b ≤ bc_mod b') newer.
Lemma backup_files_entries entries all : Forall (λ entry, ordinary (de_name entry)) entries →
  backup_files (absolute (root ++ ["backups"])) entries = inr all → ∃ kept, kept `sublist_of` entries ∧ Forall2 backup_entry kept all.
Proof.
  intros H. revert all. induction H as [|entry entries Hn _ IH]; intros all; cbn [backup_files]; [intros [= <-]; by exists []|].
  destruct (_ || _ || _) eqn:Hskip; [intros (kept&?&?)%IH; exists kept; split; [by constructor|done]|].
  apply orb_false_iff in Hskip as [Hskip Hsuffix]. apply orb_false_iff in Hskip as [Hlink Hdir]. apply negb_false_iff in Hsuffix.
  destruct (de_info entry) as [e|info] eqn:Hinfo; [done|]. unfold mbind, res_bind.
  destruct (backup_files _ entries) as [e|rest]; [done|]. intros [= <-]. destruct (IH _ eq_refl) as (kept&Hk&Hr).
  destruct (fi_regular info) eqn:Hreg; [|exists kept; split; [by constructor|done]].
  exists (entry :: kept). split; [by constructor|]. constructor; [|done]. split_and!; try done. exists info. split_and!; [done|done|]. f_equal.
  change (filepath_Join [absolute (root ++ ["backups"]); de_name entry] = absolute (root ++ ["backups"; de_name entry])).
  destruct literal_ordinary as (_&_&Hb&_). assert (Hd : Forall ordinary (root ++ ["backups"])) by (apply Forall_app_2; [done|ordinals]).
  rewrite join_absolute, joined_names by (done || ordinals). by rewrite <- app_assoc.
Qed.
Lemma select_backups_old before keepRecent limit all : ∀ index found b, b ∈ select_backups before keepRecent limit index found all →
  bc_mod b < before ∧ ∃ i, all !! i = Some b ∧ keepRecent ≤ index + Z.of_nat i.
Proof.
  induction all as [|c all IH]; intros index found b Hb; cbn [select_backups] in Hb; [by apply elem_of_nil in Hb|].
  assert (Hrest : ∀ found', b ∈ select_backups before keepRecent limit (index + 1) found' all →
    bc_mod b < before ∧ ∃ i, (c :: all) !! i = Some b ∧ keepRecent ≤ index + Z.of_nat i).
  { intros found' (Hm&i&Hi&Hk)%IH. split; [done|]. exists (S i). split; [done|lia]. }
  destruct (_ || _) eqn:Hc; [by eapply Hrest|]. apply orb_false_iff in Hc as [Hindex Hold]. apply negb_false_iff in Hold.
  apply elem_of_cons in Hb as [->|Hb]; [split; [lia|]; exists O; split; [done|lia]|].
  destruct (_ =? _); [by apply elem_of_nil in Hb|by eapply Hrest].
Qed.
Lemma planBackups_due before keepRecent limit f backups :
  planBackups (filepath_Join [absolute root; "backups"]) before keepRecent limit f = inr backups → Forall (due_backup before keepRecent f) backups.
Proof.
  unfold planBackups. rewrite join_dir by apply literal_ordinary. destruct (os_ReadDir _ f) as [[|e]|entries] eqn:Hd; [by intros [= <-]|done|].
  unfold mbind, res_bind. destruct (backup_files _ entries) as [e|all] eqn:Hf; [done|]. intros [= <-].
  apply backup_files_entries in Hf as (kept&Hsub&Hall); [|by eapply entry_names].
  set (sorted := sort_by newest_backup all).
  assert (Hperm : all ≡ₚ sorted) by (symmetry; apply sort_by_perm).
  destruct (Permutation_Forall2 Hperm (proj2 (Forall2_flip backup_entry _ _) Hall)) as (kept'&Hkept&Hs). apply Forall2_flip in Hs.
  apply Forall_forall. intros b Hb. apply select_backups_old in Hb as (Hm&i&Hi&Hk). split; [done|]. set (n := Z.to_nat keepRecent).
  assert (Hin : b ∈ drop n sorted) by (apply list_elem_of_lookup; exists (i - n)%nat; rewrite lookup_drop; replace (n + (i - n))%nat with i by lia; done).
  pose proof (Forall2_drop _ _ _ n Hs) as Hdrop. apply list_elem_of_lookup in Hin as [j Hj].
  destruct (Forall2_lookup_r _ _ _ _ _ Hdrop Hj) as (entry&Hentry&Harchive). apply list_elem_of_lookup_2 in Hj, Hentry.
  destruct (first_before (cmp_le newest_backup) _ _ _ (sort_by_sorted newest_backup all) Hj) as [_ Hle].
  destruct (first_others n kept' entry Hentry) as [Hlen Hmore].
  exists entries, entry, (take n kept'). split_and!; [done|done| |done|].
  - etrans; [exact Hmore|]. rewrite <- Hkept. by apply sublist_submseteq.
  - apply Forall_forall. intros other Ho. apply list_elem_of_lookup in Ho as [k Ho].
    destruct (Forall2_lookup_l _ _ _ _ _ (Forall2_take _ _ _ n Hs) Ho) as (b'&Hb'&Ha). exists b'. split; [done|].
    apply list_elem_of_lookup_2 in Hb'. rewrite Forall_forall in Hle. specialize (Hle _ Hb'). revert Hle.
    unfold newest_backup, cmp_le, lexc, revc, onc. destruct (Z.compare_spec (bc_mod b) (bc_mod b')); [lia|lia|done].
Qed.

Lemma world_bind_ok {R A B} (p : World R A) (q : A → World R B) w b w' :
  (p ≫= q) w = (inr b, w') ↔ ∃ a w1, p w = (inr a, w1) ∧ q a w1 = (inr b, w').
Proof.
  unfold mbind, world_bind. destruct (p w) as [[e|a] w1]; split; [done|by intros (?&?&?&?)|eauto|by intros (?&?&[= -> ->]&?)].
Qed.

(** Planning leaves the engine, the files and the report alone. *)
Definition idle {A} (p : World C A) : Prop := ∀ w, rtc store_step w.1 (p w).2.1 ∧ (p w).2.2 = w.2.
Lemma idle_ret {A} (a : A) : idle (mret a).
Proof. by intros w. Qed.
Lemma idle_looking {A} (p : F → res A) : idle (looking p).
Proof. by intros w. Qed.
Lemma idle_store {A} (p : Proc A) : evolves p → idle (on_store p).
Proof. intros Hp w. specialize (Hp w.1). unfold on_store. by destruct (p w.1). Qed.
Lemma idle_bind {A B} (p : World C A) (q : A → World C B) : idle p → (∀ a, idle (q a)) → idle (p ≫= q).
Proof.
  intros Hp Hq w. specialize (Hp w). unfold mbind, world_bind. destruct (p w) as [[e|a] w1]; [done|]. destruct Hp as [H1 H2]. simpl in *.
  destruct (Hq a w1) as [H3 H4]. split; [by etrans|congruence].
Qed.
Local Hint Resolve idle_ret idle_looking idle_store idle_bind : core.
Lemma plan_idle env stateDir before keepRuns keepBackups limit plugins : interference env →
  idle (plan env stateDir before keepRuns keepBackups limit plugins).
Proof.
  intros He. unfold plan. apply idle_bind; [apply idle_store; by apply evolves_plan_runs|]. intros candidates. apply idle_bind; [auto|]. intros runs.
  apply idle_bind; [auto|]. intros backups.
  apply idle_bind; [|auto]. destruct plugins; [|auto]. apply idle_bind; [apply idle_store; by apply evolves_plan_plugins|auto].
Qed.
(** What a plan may name. *)
Record due (before keepRuns keepBackups : Z) (plugins : bool) (s : Db) (f : F) (p : Plans) : Prop := {
  du_runs : Forall (selected before keepRuns s) (tp_runs p);
  du_backups : Forall (due_backup before keepBackups f) (tp_backups p);
  du_plugins : Forall (due_plugin before s) (tp_plugins p).*1;
  du_asked : plugins = false → tp_plugins p = [] }.
Lemma plan_plugins_all stateDir records f l : plan_plugins stateDir records f = inr l → l.*1 = records.
Proof.
  revert l. induction records as [|r records IH]; intros l; cbn [plan_plugins]; [by intros [= <-]|]. unfold mbind, res_bind.
  destruct (regularTreeSize _ f); [done|]. destruct (plan_plugins _ records f) as [e|rest]; [done|]. intros [= <-]. cbn. by rewrite (IH rest).
Qed.
Lemma plan_due env before keepRuns keepBackups limit plugins (w w' : Db * C) p : interference env →
  plan env (absolute root) before keepRuns keepBackups limit plugins w = (inr p, w') →
  due before keepRuns keepBackups plugins (others env 0 w.1) w.2.1.2 p.
Proof.
  intros He. unfold plan. intros (candidates&w1&H1&H)%world_bind_ok. apply world_bind_ok in H as (runs&w2&H2&H). apply world_bind_ok in H as (backups&w3&H3&H).
  apply world_bind_ok in H as (l&w4&H4&H). injection H as <- _. unfold looking in H2, H3. injection H2 as _ <-. injection H3 as H3 <-.
  unfold on_store in H1. destruct (PlanRunRetention env 0 before keepRuns limit w.1) as [r s1] eqn:Hc. injection H1 as -> <-. cbn [fst snd] in *.
  apply PlanRunRetention_selects in Hc as [Hs1 Hc]; [|done]. split; cbn [tp_runs tp_backups tp_plugins].
  - exact Hc.
  - by eapply planBackups_due.
  - destruct plugins; [|by injection H4 as <- _]. apply world_bind_ok in H4 as (records&w5&H4&H5). injection H5 as H5 _.
    apply plan_plugins_all in H5 as ->. unfold on_store in H4. cbn [fst snd] in H4.
    destruct (PlanPluginRetention env _ before limit s1) as [r s2] eqn:Hp. injection H4 as -> _. apply PlanPluginRetention_due in Hp; [|done].
    eapply Forall_impl; [exact Hp|]. intros q [D1 D2 (s3&?&?) (s4&row&?&?&?)]. split; [done|done| |].
    + exists s3. split; [by etrans|done].
    + exists s4, row. split_and!; [by etrans|done|done].
  - intros ->. by injection H4 as <- _.
Qed.
Lemma selected_ok before keepRuns s c : reachable s → map_Forall (λ run _, ordinary run) (db_runs s) → selected before keepRuns s c →
  ordinary (rn_uid c) ∧ Forall below (rn_paths c).
Proof.
  intros Hr Hu [(r&Hrow) (s1&Hs1&->)]. split; [eapply Hu, Hrow|]. apply Forall_fmap, Forall_forall. intros a Ha. unfold artifacts_of in Ha.
  apply elem_of_sort_by, list_elem_of_fmap in Ha as ([k a']&->&Ha). apply list_elem_of_filter in Ha as [_ Ha]. apply elem_of_map_to_list in Ha.
  assert (Hr1 : reachable s1) by (unfold reachable in *; by etrans).
  destruct (artifacts_inside _ Hr1 _ _ Ha) as (parts&?&Epath&?). by exists parts.
Qed.
Lemma due_ok before keepRuns keepBackups plugins s f p : reachable s → map_Forall (λ run _, ordinary run) (db_runs s) →
  due before keepRuns keepBackups plugins s f p → plans_ok p.
Proof.
  intros Hr Hu [D1 D2 _ _]. split; [eapply Forall_impl; [exact D1|]; intros c; by apply selected_ok|].
  eapply Forall_impl; [exact D2|]. intros b (_&entries&entry&newer&_&(_&_&_&Hname&info&_&_&->)&_). by exists (de_name entry).
Qed.

(** ** Collecting *)

Lemma collect_files_confined p c : plans_ok p → c ∈ tp_runs p → confined (planned p) (collect_files (absolute root) c).
Proof.
  intros Hp Hc. destruct literal_ordinary as (Hw&Ha&_&_). pose proof (po_runs _ Hp) as Hr. rewrite Forall_forall in Hr. destruct (Hr _ Hc) as [Hu Hpaths].
  unfold collect_files, workspace_of. rewrite !join_dir, !join_dir2 by done.
  apply confined_bind; [|intros _; apply confined_bind; [|intros _]].
  - apply remove_artifacts_confined. rewrite Forall_forall in *. intros path Hpath. destruct (Hpaths _ Hpath) as (names&Hn&Ho&->).
    exists names. split_and!; try done. left. exists c. auto.
  - apply remove_tree_confined; [done|apply Forall_app_2; [done|ordinals]|]. intros down Hd Hdown. apply app_inv_head in Hdown. left. exists c. split; [done|]. left. congruence.
  - apply remove_parents_confined; [done|done|]. left. exists c. auto.
Qed.
Lemma collect_candidates_confined p l : plans_ok p → l ⊆ tp_runs p → confined (planned p) (collect_candidates (absolute root) l).
Proof.
  intros Hp. induction l as [|c l IH]; intros Hl; [apply confined_ret|]. apply confined_bind; [apply collect_files_confined; [done|set_solver]|]. intros _. apply IH. set_solver.
Qed.
Lemma collect_backups_confined p l : plans_ok p → l ⊆ tp_backups p → confined (planned p) (collect_backups l).
Proof.
  intros Hp. induction l as [|b l IH]; intros Hl; [apply confined_ret|]. assert (Hb : b ∈ tp_backups p) by set_solver.
  pose proof (po_backups _ Hp) as Hr. rewrite Forall_forall in Hr. destruct (Hr _ Hb) as (name&Hname&Hpath). destruct literal_ordinary as (_&_&Hd&_).
  assert (Hrest : confined (planned p) (tally 0 1 (bc_size b) ≫= λ _, collect_backups l)).
  { apply confined_bind; [apply confined_tally|]. intros _. apply IH. set_solver. }
  cbn [collect_backups]. rewrite Hpath. apply confined_bind.
  - apply confined_remove; [done|ordinals|]. right. left. by exists b.
  - intros [[|e]|[]]; [done|apply confined_lift|done].
Qed.
Lemma commits_collect_plugin name version digest : commits (CollectRetainedPlugin name version digest).
Proof. intros s [] s' H. apply rtc_once. by eapply step_collect_plugin. Qed.
Lemma plugin_directory_ordinary plugin : ∃ names, Forall ordinary names ∧ plugin_directory (absolute root) plugin = absolute names.
Proof. unfold plugin_directory. rewrite join_absolute by done. eexists. split; [by apply joined_ordinary|done]. Qed.
Lemma collect_plugins_confined p env n l : interference env → l ⊆ tp_plugins p → confined (planned p) (collect_plugins env n (absolute root) l).
Proof.
  intros He. revert n. induction l as [|[plugin size] l IH]; intros n Hl; [apply confined_ret|]. destruct literal_ordinary as (_&_&_&Hd).
  cbn [collect_plugins]. apply confined_bind; [|intros _; apply confined_bind; [|intros _; apply confined_bind; [apply confined_tally|intros _; apply IH; set_solver]]].
  - apply confined_store, evolves_call; [done|apply commits_collect_plugin].
  - destruct (plugin_directory_ordinary plugin) as (names&Hn&Hpath). rewrite Hpath, join_dir by done. apply remove_tree_confined; [done|done|].
    intros down Hne ->. right. right. exists plugin, size, down. split_and!; [set_solver|done|done].
Qed.

(** ** What is gone *)

Class RemovalLaws : Prop := {
  remove_gone path f r f' : os_Remove path f = (r, f') → r = inr tt ∨ r = inl NotExist → os_Lstat path f' = inl NotExist;
  remove_all_gone path f f' : os_RemoveAll path f = (inr tt, f') → os_Lstat path f' = inl NotExist;
  remove_keeps_gone path other f : os_Lstat other f = inl NotExist → os_Lstat other (os_Remove path f).2 = inl NotExist;
  remove_all_keeps_gone path other f : os_Lstat other f = inl NotExist → os_Lstat other (os_RemoveAll path f).2 = inl NotExist }.
Context {removal_laws : RemovalLaws}.
Definition gone (path : string) (f : F) : Prop := os_Lstat path f = inl NotExist.
Definition files_of (w : Db * C) : F := w.2.1.2.

Lemma gone_stays area path f f' : rtc (removes area) f f' → gone path f → gone path f'.
Proof. induction 1 as [|f f1 f2 Hr _ IH]; [done|]. intros H. apply IH. destruct Hr; [by apply remove_keeps_gone|by apply remove_all_keeps_gone]. Qed.
Lemma confined_files {A} area (p : World C A) w w' r : confined area p → p w = (r, w') → rtc (removes area) (files_of w) (files_of w').
Proof. intros Hp H. specialize (Hp w). rewrite H in Hp. apply Hp. Qed.
Lemma gone_after {A} area path (p : World C A) w w' r : confined area p → p w = (r, w') → gone path (files_of w) → gone path (files_of w').
Proof. intros Hp H. by eapply gone_stays, confined_files. Qed.
Lemma on_files_ok (q : F → (FsError + unit) * F) w r w' : on_files q w = (inr r, w') → q (files_of w) = (r, files_of w').
Proof. unfold on_files, files_of. destruct (q w.2.1.2) as [x f]. by intros [= <- <-]. Qed.

Lemma remove_artifact_gone relative w w' : below relative → remove_artifact (absolute root) relative w = (inr tt, w') →
  gone (filepath_Join [absolute root; relative]) (files_of w').
Proof.
  intros (names&Hn&Ho&->) H. apply world_bind_ok in H as ([path info]&w1&H1&H). injection H1 as H1 <-. apply inspect_path in H1 as ->; [|done|done].
  apply world_bind_ok in H as (r&w2&H2&H). apply on_files_ok in H2. rewrite join_absolute, joined_path by done. cbn [fst snd] in *.
  destruct r as [[|e]|[]]; [|done|]; injection H as <-; unfold gone; eapply remove_gone; (done || (by left) || by right).
Qed.
Lemma remove_tree_gone within target w w' : removeTreeWithin within target w = (inr tt, w') → gone target (files_of w').
Proof.
  unfold removeTreeWithin. destruct (_ || _); [done|]. intros (found&w1&H1&H)%world_bind_ok. injection H1 as H1 <-.
  destruct found as [[|e]|info]; [injection H as <-; exact H1|done|]. destruct (fi_symlink info); [done|].
  apply world_bind_ok in H as (r&w2&H2&H). apply on_files_ok in H2. destruct r as [e|[]]; [done|]. injection H as <-. by eapply remove_all_gone.
Qed.
Lemma remove_artifacts_gone paths : ∀ w w', Forall below paths → remove_artifacts (absolute root) paths w = (inr tt, w') →
  Forall (λ path, gone (filepath_Join [absolute root; path]) (files_of w')) paths.
Proof.
  induction paths as [|path paths IH]; intros w w' Hp H; [done|]. apply Forall_cons in Hp as [Hp Hps].
  apply world_bind_ok in H as ([]&w1&H1&H). constructor; [|by eapply IH].
  eapply (gone_after (λ _, True)); [apply remove_artifacts_confined|exact H|by eapply remove_artifact_gone].
  eapply Forall_impl; [exact Hps|]. intros y (names&?&?&?). by exists names.
Qed.

(** Nothing of the Run is left. *)
Definition cleared (f : F) (c : RetentionRun) : Prop :=
  Forall (λ path, gone (filepath_Join [absolute root; path]) f) (rn_paths c) ∧ gone (workspace_of (absolute root) (rn_uid c)) f.
Lemma cleared_stays area f f' c : rtc (removes area) f f' → cleared f c → cleared f' c.
Proof. intros Hr [H1 H2]. split; [|by eapply gone_stays]. eapply Forall_impl; [exact H1|]. intros path. by apply gone_stays with area. Qed.
Lemma collect_files_cleared p c w w' : plans_ok p → c ∈ tp_runs p → collect_files (absolute root) c w = (inr tt, w') → cleared (files_of w') c.
Proof.
  intros Hp Hc H. pose proof (po_runs _ Hp) as Hr. rewrite Forall_forall in Hr. destruct (Hr _ Hc) as [Hu Hpaths]. destruct literal_ordinary as (Hw&Ha&_&_).
  apply world_bind_ok in H as ([]&w1&H1&H). apply world_bind_ok in H as ([]&w2&H2&H).
  assert (Hlast : rtc (removes (λ _, True)) (files_of w2) (files_of w')).
  { eapply confined_files; [|exact H]. rewrite join_dir, join_dir2 by done. by apply remove_parents_confined. }
  assert (Hmid : rtc (removes (λ _, True)) (files_of w1) (files_of w2)).
  { eapply confined_files; [|exact H2]. unfold workspace_of. rewrite join_dir, join_dir2 by done.
    apply remove_tree_confined; [done|apply Forall_app_2; [done|ordinals]|done]. }
  apply (cleared_stays _ _ _ _ Hlast). split.
  - eapply Forall_impl; [by eapply remove_artifacts_gone|]. intros path. by apply gone_stays with (λ _, True).
  - by eapply remove_tree_gone.
Qed.
Lemma collect_candidates_cleared p l : plans_ok p → l ⊆ tp_runs p → ∀ w w', collect_candidates (absolute root) l w = (inr tt, w') → Forall (cleared (files_of w')) l.
Proof.
  intros Hp. induction l as [|c l IH]; intros Hl w w' H; [done|]. apply world_bind_ok in H as ([]&w1&H1&H). constructor; [|eapply IH; [set_solver|exact H]].
  eapply cleared_stays; [eapply confined_files; [|exact H]; apply (collect_candidates_confined p l); [done|set_solver]|].
  eapply collect_files_cleared; [done|set_solver|done].
Qed.
Lemma collect_backups_gone p l : plans_ok p → l ⊆ tp_backups p → ∀ w w', collect_backups l w = (inr tt, w') → Forall (λ b, gone (bc_path b) (files_of w')) l.
Proof.
  intros Hp. induction l as [|b l IH]; intros Hl w w' H; [done|]. apply world_bind_ok in H as (r&w1&H1&H). apply on_files_ok in H1.
  assert (Hr : (r = inr tt ∨ r = inl NotExist) ∧ (tally 0 1 (bc_size b) ≫= λ _, collect_backups l) w1 = (inr tt, w')).
  { destruct r as [[|e]|[]]; [auto|done|auto]. }
  destruct Hr as [Hr Hrest]. apply world_bind_ok in Hrest as ([]&w2&H2&Hrest). injection H2 as <-. constructor; [|eapply IH; [set_solver|exact Hrest]].
  eapply gone_stays; [eapply confined_files; [|exact Hrest]; apply (collect_backups_confined p l); [done|set_solver]|]. by eapply remove_gone.
Qed.
Lemma collect_plugins_gone p env l : interference env → l ⊆ tp_plugins p → ∀ n w w', collect_plugins env n (absolute root) l w = (inr tt, w') →
  Forall (λ ps, gone (plugin_directory (absolute root) ps.1) (files_of w')) l.
Proof.
  intros He. induction l as [|[plugin size] l IH]; intros Hl n w w' H; [done|]. apply world_bind_ok in H as ([]&w1&_&H).
  apply world_bind_ok in H as ([]&w2&H2&H). apply world_bind_ok in H as ([]&w3&H3&H). constructor; [|eapply IH; [set_solver|exact H]].
  eapply gone_stays; [eapply confined_files; [|exact H]; apply (collect_plugins_confined p); [done|set_solver]|].
  injection H3 as <-. exact (remove_tree_gone _ _ _ _ H2).
Qed.

Lemma tally_ok runs files bytes (w w' : Db * C) : tally runs files bytes w = (inr tt, w') →
  w'.1 = w.1 ∧ w'.2.1 = w.2.1 ∧ rp_runs w'.2.2 = rp_runs w.2.2 + runs ∧ rp_items w'.2.2 = rp_items w.2.2.
Proof. intros H. injection H as <-. done. Qed.
Lemma collect_all_frame p env n (w w' : Db * C) r : interference env → plans_ok p →
  collect_all env n (absolute root) (tp_runs p) (tp_backups p) (tp_plugins p) w = (r, w') →
  rtc store_step w.1 w'.1 ∧ w'.2.1.1 = w.2.1.1 ∧ rtc (removes (planned p)) (files_of w) (files_of w') ∧
  rp_runs w'.2.2 = rp_runs w.2.2 + Z.of_nat (length (tp_runs p)) ∧ rp_items w'.2.2 = rp_items w.2.2.
Proof.
  intros He Hp. unfold collect_all. set (rest := λ _ : unit, _ ≫= _). intros H.
  assert (Hrest : confined (planned p) (rest tt)).
  { apply confined_bind; [by apply collect_candidates_confined|]. intros _. apply confined_bind; [by apply collect_backups_confined|]. intros _. by apply collect_plugins_confined. }
  unfold mbind at 1, world_bind at 1 in H. destruct (tally (Z.of_nat (length (tp_runs p))) 0 0 w) as [[e|[]] w1] eqn:Ht; [done|].
  apply tally_ok in Ht as (H1&H2&H3&H4). specialize (Hrest w1). rewrite H in Hrest. destruct Hrest as [D He' Hf Hr Hi]. unfold files_of. simpl in *.
  rewrite H1, H2 in *. rewrite Hr, Hi. done.
Qed.
Lemma collect_all_gone p env n (w w' : Db * C) : interference env → plans_ok p →
  collect_all env n (absolute root) (tp_runs p) (tp_backups p) (tp_plugins p) w = (inr tt, w') →
  Forall (cleared (files_of w')) (tp_runs p) ∧ Forall (λ b, gone (bc_path b) (files_of w')) (tp_backups p) ∧
  Forall (λ ps, gone (plugin_directory (absolute root) ps.1) (files_of w')) (tp_plugins p).
Proof.
  intros He Hp H. apply world_bind_ok in H as ([]&w1&_&H). apply world_bind_ok in H as ([]&w2&H2&H). apply world_bind_ok in H as ([]&w3&H3&H).
  assert (F3 : rtc (removes (planned p)) (files_of w3) (files_of w')) by (eapply confined_files; [|exact H]; by apply collect_plugins_confined).
  assert (F2 : rtc (removes (planned p)) (files_of w2) (files_of w')).
  { etrans; [|exact F3]. eapply confined_files; [|exact H3]. by apply collect_backups_confined. }
  split_and!.
  - eapply Forall_impl; [by eapply collect_candidates_cleared|]. intros c. by apply cleared_stays with (planned p).
  - eapply Forall_impl; [by eapply collect_backups_gone|]. intros b. by apply gone_stays with (planned p).
  - by eapply collect_plugins_gone.
Qed.

(** The history goes before the rows, Run by Run until one fails. *)
Fixpoint prune_all (uids : list string) (e : E) : res unit * E :=
  match pruner, uids with
  | None, _ | _, [] => (ok tt, e)
  | Some prune, run :: uids =>
      match prune run e with
      | (inl err, e') => (fail (wrap ("remove durable history for Run " +:+ run +:+ ": ") err), e')
      | (inr _, e') => prune_all uids e'
      end
  end.
Lemma prune_history_all uids : ∀ s e (f : F) r, prune_history pruner uids (s, ((e, f), r)) =
  ((prune_all uids e).1, (s, (((prune_all uids e).2, f), r))).
Proof.
  induction uids as [|uid uids IH]; intros s e f r; cbn [prune_history prune_all]; [by destruct pruner|]. destruct pruner as [prune|]; [|done].
  unfold mbind, world_bind. cbn [fst snd]. destruct (prune uid e) as [[err|[]] e1]; [done|]. exact (IH s e1 f r).
Qed.

(** *** A request *)

Definition empty_plan (p : Plans) : Prop := tp_runs p = [] ∧ tp_backups p = [] ∧ tp_plugins p = [].
(** What a pass does with its plan [p], made when the store was [s1]: nothing without
    an order to collect; otherwise the histories, then the rows, and only after these
    were deleted the files of the plan. *)
Definition settled (env : Env) (collect : bool) (p : Plans) (s1 : Db) (e : E) (f : F) (report : Report) (err : option Err) (s' : Db) (e' : E) (f' : F) : Prop :=
  let uids := rn_uid <$> tp_runs p in
  let n := (3 + length uids)%nat in
  (collect = false ∨ empty_plan p →
     (f', e', s', err) = (f, e, s1, None) ∧ rp_items report = tp_items p ∧ rp_runs report = 0) ∧
  (collect = true → ¬ empty_plan p →
     e' = (prune_all uids e).2 ∧
     match (prune_all uids e).1 with
     | inl error => (f', s', err) = (f, s1, Some error)
     | inr _ =>
         match CollectRetainedRuns uids (stamp env n) (others env n s1) with
         | inl error => (f', s', err) = (f, others env n s1, Some error)
         | inr (_, s2) =>
             rtc store_step s2 s' ∧ rtc (removes (planned p)) f f' ∧ rp_items report = tp_items p ∧ rp_runs report = Z.of_nat (length (tp_runs p)) ∧
             (err = None → Forall (cleared f') (tp_runs p) ∧ Forall (λ b, gone (bc_path b) f') (tp_backups p) ∧
                Forall (λ ps, gone (plugin_directory (absolute root) ps.1) f') (tp_plugins p))
         end
     end).
Definition nothing_planned (p : Plans) : bool := (length (tp_runs p) + length (tp_backups p) + length (tp_plugins p) =? 0)%nat.
Lemma empty_plan_spec p : nothing_planned p = true ↔ empty_plan p.
Proof. unfold nothing_planned, empty_plan. rewrite Nat.eqb_eq. destruct (tp_runs p), (tp_backups p), (tp_plugins p); simpl; (split; [intros; split_and!; try done; exfalso; lia|by intros (?&?&?)]). Qed.

Lemma Apply_planned env stateDir before keepRuns keepBackups limit collect plugins s e f report err s' e' f' planned w1 :
  interference env → path_clean stateDir = absolute root →
  plan env (absolute root) before keepRuns keepBackups limit plugins (s, ((e, f), no_report)) = (planned, w1) →
  (∀ p, planned = inr p → plans_ok p) →
  Retention.Apply pruner env stateDir before keepRuns keepBackups limit collect plugins (s, (e, f)) = ((report, err), (s', (e', f'))) →
  match planned with
  | inl error => (f', e', s', err) = (f, e, w1.1, Some error)
  | inr p => settled env collect p w1.1 e f report err s' e' f'
  end.
Proof.
  intros He Hroot' Hplan Hok. unfold Retention.Apply. rewrite Hroot', absolute_is_abs. cbn [negb fst snd].
  pose proof (plan_idle env (absolute root) before keepRuns keepBackups limit plugins He (s, ((e, f), no_report))) as [_ Hidle].
  rewrite Hplan in Hidle |- *. destruct w1 as [s1 w1]. cbn [fst snd] in Hidle |- *. subst w1. cbn [fst snd].
  destruct planned as [error|p]; [by intros [= <- <- <- <- <-]|]. specialize (Hok _ eq_refl). fold (nothing_planned p).
  destruct (negb collect || nothing_planned p) eqn:Hc.
  { intros [= <- <- <- <- <-]. split; [done|]. intros -> Hne. by apply empty_plan_spec in Hc. }
  apply orb_false_iff in Hc as [Hc Hne]. apply negb_false_iff in Hc as ->.
  assert (Hne' : ¬ empty_plan p) by (intros Hp%empty_plan_spec; congruence).
  intros H. split; [by intros [?|?]|]. intros _ _. revert H. set (uids := rn_uid <$> tp_runs p). set (n := (3 + length uids)%nat).
  unfold mbind, world_bind. rewrite prune_history_all. destruct (prune_all uids e) as [[err1|[]] e1]; cbn [fst snd]; [by intros [= <- <- <- <- <-]|].
  unfold on_store. cbn [fst snd]. unfold call. destruct (CollectRetainedRuns uids (stamp env n) (others env n s1)) as [err2|[[] s2]] eqn:Hcall; [by intros [= <- <- <- <- <-]|].
  cbv beta iota. match goal with |- context [collect_all env _ _ _ _ _ ?w] => set (w2 := w) end.
  destruct (collect_all env (S n) (absolute root) (tp_runs p) (tp_backups p) (tp_plugins p) w2) as [r [s3 [[e3 f3] r3]]] eqn:Hall. intros [= <- <- <- <- <-].
  pose proof Hall as Hframe. apply (collect_all_frame p) in Hframe as (D&De&Ff&Hr&Hi); [|done|done]. unfold files_of in Ff. simpl in D, De, Ff, Hr, Hi.
  split; [done|]. split_and!; try done.
  intros Hnone. destruct r as [e0|[]]; [done|]. exact (collect_all_gone p env _ _ _ He Hok Hall).
Qed.
Lemma settled_evolves env collect p s1 e f report err s' e' f' : interference env →
  settled env collect p s1 e f report err s' e' f' → rtc store_step s1 s'.
Proof.
  intros He [Hidle Hcollect]. destruct (nothing_planned p) eqn:Hn.
  { apply empty_plan_spec in Hn. destruct Hidle as [[= -> -> -> ->] _]; [by right|]. reflexivity. }
  assert (Hne : ¬ empty_plan p) by (intros Hp%empty_plan_spec; congruence).
  destruct collect; [|destruct Hidle as [[= -> -> -> ->] _]; [by left|reflexivity]].
  destruct (Hcollect eq_refl Hne) as [_ H]. destruct (prune_all _ e) as [[err1|[]] e1]; cbn [fst] in H; [injection H as _ -> _; reflexivity|].
  etrans; [apply (He (3 + length (rn_uid <$> tp_runs p))%nat)|].
  destruct (CollectRetainedRuns _ _ _) as [err2|[[] s2]] eqn:Hcall; [injection H as _ -> _; reflexivity|].
  destruct H as [H _]. etrans; [|exact H]. apply rtc_once. by eapply step_collect_runs.
Qed.
End Frames.

(** ** Removing a finished Run from the engine *)

Section Engine.
Context {E : Type} {client : WorkflowClient E} {history : WorkflowHistory E}.

(** The history is removed only of an instance that is finished; the engine is
    asked nothing else, and the answer comes after at most one poll per turn. *)
Lemma RemoveFinishedRun_finished turns late run e r e' : RemoveFinishedRun turns late run e = (r, e') →
  ∃ seen, e' = foldl (λ e turn, turn e) e (take seen turns) ∨
    ∃ e1, e1 = foldl (λ e turn, turn e) e (take seen turns) ∧ findInstance run e1 = inr tt ∧
      GetWorkflowInstanceState run e1 = inr true ∧ RemoveWorkflowInstance run e1 = (r, e').
Proof.
  revert e. induction turns as [|turn turns IH]; intros e; cbn [RemoveFinishedRun].
  { intros [= <- <-]. exists O. by left. }
  assert (Hone : ∀ e1, e1 = turn e → ∃ seen, e1 = foldl (λ e turn, turn e) e (take seen (turn :: turns))) by (intros e1 ->; by exists 1%nat).
  destruct (findInstance run (turn e)) as [err|[]] eqn:Hf.
  { destruct (Hone (turn e) eq_refl) as [seen Hseen]. intros H. exists seen. left. rewrite <- Hseen. by destruct err; injection H. }
  destruct (GetWorkflowInstanceState run (turn e)) as [err|[]] eqn:Hs.
  - intros [= <- <-]. exists 1%nat. by left.
  - intros H. exists 1%nat. right. by exists (turn e).
  - intros (seen&H)%IH. exists (S seen). exact H.
Qed.
(** It succeeds when the instance finishes in time. *)
Definition after_polls (turns : list (E → E)) (n : nat) (e : E) : E := foldl (λ e turn, turn e) e (take n turns).
Lemma RemoveFinishedRun_in_time (turns : list (E → E)) late run e (n : nat) :
  (0 < n ≤ length turns)%nat →
  (∀ k, (0 < k < n)%nat → findInstance run (after_polls turns k e) = inr tt ∧ GetWorkflowInstanceState run (after_polls turns k e) = inr false) →
  findInstance run (after_polls turns n e) = inr tt → GetWorkflowInstanceState run (after_polls turns n e) = inr true →
  RemoveFinishedRun turns late run e = RemoveWorkflowInstance run (after_polls turns n e).
Proof.
  revert e n. induction turns as [|turn turns IH]; intros e n Hn Hwait Hf Hs; [simpl in Hn; lia|].
  destruct n as [|n]; [lia|]. cbn [RemoveFinishedRun]. destruct n as [|n].
  - change (after_polls (turn :: turns) 1 e) with (after_polls turns 0 (turn e)) in *. unfold after_polls in *. rewrite take_0 in *. cbn [foldl] in *. by rewrite Hf, Hs.
  - destruct (Hwait 1%nat ltac:(lia)) as [Hf1 Hs1]. change (after_polls (turn :: turns) 1 e) with (after_polls turns 0 (turn e)) in Hf1, Hs1.
    unfold after_polls in Hf1, Hs1. rewrite take_0 in Hf1, Hs1. cbn [foldl] in Hf1, Hs1. rewrite Hf1, Hs1.
    apply (IH (turn e) (S n)); [simpl in Hn; lia| |exact Hf|exact Hs]. intros k Hk. exact (Hwait (S k) ltac:(lia)).
Qed.
End Engine.

(** ** A file system in memory *)

(** Paths with what is at them; directories are the entries that are neither
    regular nor links. *)
Abbreviation Memory := (gmap string FileInfo).
Definition ordinary_name (name : string) : bool :=
  negb (String.eqb name "" || String.eqb name "." || String.eqb name ".." || existsb (Ascii.eqb "/"%char) (explode name)).
Definition under (path other : string) : bool := has_prefix other (path +:+ "/").
Definition memory_entry (name : string) (info : FileInfo) : DirEntry :=
  mkDirEntry name (fi_symlink info) (negb (fi_regular info) && negb (fi_symlink info)) (inr info).
Definition memory_child (path : string) (entry : string * FileInfo) : option DirEntry :=
  name ← strip_prefix (path +:+ "/") entry.1;
  if ordinary_name name then Some (memory_entry name entry.2) else None.
#[export] Instance memory : FileSystem Memory := {
  os_Lstat path f := match f !! path with Some info => inr info | None => inl NotExist end;
  os_ReadDir path f :=
    match f !! path with
    | Some _ => inr (sort_by (onc de_name str_cmp) (omap (memory_child path) (map_to_list f)))
    | None => inl NotExist
    end;
  os_WalkDir path f :=
    match f !! path with
    | Some info => WalkEntry (memory_entry path info) ::
        ((λ entry, WalkEntry (memory_entry entry.1 entry.2)) <$>
           sort_by (onc fst str_cmp) (filter (λ entry, under path entry.1 = true) (map_to_list f)))
    | None => [WalkError NotExist]
    end;
  os_Remove path f :=
    match f !! path with
    | None => (inl NotExist, f)
    | Some _ => if existsb (λ entry, under path entry.1) (map_to_list f) then (inl (FsFailed "directory not empty"), f) else (inr tt, delete path f)
    end;
  os_RemoveAll path f := (inr tt, filter (λ entry, entry.1 ≠ path ∧ under path entry.1 = false) f) }.

Lemma ordinary_name_ok name : ordinary_name name = true → ordinary name.
Proof.
  unfold ordinary_name. intros Ho%negb_true_iff. rewrite !orb_false_iff, !String.eqb_neq in Ho. destruct Ho as (((?&?)&?)&Hs).
  split_and!; try done. intros Hin. apply not_true_iff_false in Hs. apply Hs, existsb_exists. exists "/"%char. split; [by apply list_elem_of_In|done].
Qed.
#[export] Instance memory_names : NamesLaw (F:=Memory).
Proof.
  intros path f entries. cbn [os_ReadDir memory]. destruct (f !! path); [|done]. intros [= <-]. apply Forall_forall. intros entry Hentry.
  apply elem_of_sort_by, list_elem_of_omap in Hentry as ([other info]&_&H). unfold memory_child in H. cbn [fst snd] in H.
  destruct (strip_prefix (path +:+ "/") other) as [name|]; [|done]. simpl in H. destruct (ordinary_name name) eqn:Ho; [|done]. injection H as <-.
  by apply ordinary_name_ok.
Qed.
#[export] Instance memory_removals : RemovalLaws (F:=Memory).
Proof.
  split.
  - intros path f r f'. cbn [os_Remove os_Lstat memory]. destruct (f !! path) eqn:Hf; [destruct (existsb _ _)|]; intros [= <- <-] [H|H]; try done;
      [by rewrite lookup_delete_eq|by rewrite Hf].
  - intros path f f'. cbn [os_RemoveAll os_Lstat memory]. intros [= <-]. by rewrite map_lookup_filter_None_2 by (right; intros ? _ [H _]; by apply H).
  - intros path other f. cbn [os_Remove os_Lstat memory]. destruct (f !! path); [destruct (existsb _ _)|]; try done. cbn [snd].
    destruct (decide (path = other)) as [->|Hne]; [by rewrite lookup_delete_eq|by rewrite lookup_delete_ne].
  - intros path other f. cbn [os_RemoveAll os_Lstat memory snd]. destruct (f !! other) eqn:Hf; [done|].
    by rewrite map_lookup_filter_None_2 by (by left).
Qed.
