(* ===== verification/PropertiesPlugins.v ===== *)
(** The properties of plugin packages, of the author's SDK and of the control plane
    of plugins, each with a witness at one sample plugin: its archive is built,
    installed, selected by an installation resource and activated by a pass. *)

From Stdlib Require Import Ascii.
From Stdlib Require String.
From S2P Require Import Prelude.
From S2P Require Import Json.
From S2P Require Import GoStd.
From S2P Require Import JsonPlain.
From S2P Require Import JsonRound.
From S2P Require Import JsonCanonical.
From S2P Require Import Resource.
From S2P Require Import Plan.
From S2P Require Import ActionContract.
From S2P Require Import PluginMapping.
From S2P Require Import ResourceJson.
From S2P Require Import PluginContract.
From S2P Require Import FlowCompiler.
From S2P Require Import PluginSchema.
From S2P Require Import Db.
From S2P Require Import StoreRuns.
From S2P Require Import StoreResources.
From S2P Require Import StoreOutbox.
From S2P Require Import StorePlugins.
From S2P Require Import StoreStep.
From S2P Require Import StoreHistory.
From S2P Require Import Proc.
From S2P Require Import EngineNode.
From S2P Require Import EngineAdapter.
From S2P Require Import PluginBundle.
From S2P Require Import ManagerBind.
From S2P Require Import Redact.
From S2P Require Import ManagerRun.
From S2P Require Import ManagerStream.
From S2P Require Import StoreOps.
From S2P Require Import ManagerFacts.
From S2P Require Import PluginSdk.
From S2P Require Import PluginSdkFacts.
From S2P Require Import Orchestrator.
From S2P Require Import PluginController.
From S2P Require Import ManagerAdmin.
From S2P Require Import Trigger.
From S2P Require Import TriggerFacts.
From S2P Require Import ManagerWatch.
From S2P Require Import Samples.

Local Open Scope Z_scope.

(** ** A plugin *)

Definition zeros : string := implode (replicate 64 "0"%char).
#[local] Instance zero_sha : FlowCompiler.Sha256 := λ _, zeros.
#[local] Instance any_version : Semver := λ v, if String.eqb v "" then Some "empty version" else None.
#[local] Instance any_schema : SdkSchemas := {| ss_schema := unit; ss_load _ := None; ss_compile _ := inr tt; ss_validate _ _ := None |}.

Definition object_schema : string := marshal (mkobj [("type", JStr "object")]).
Definition echo_action : ActionDescriptor := mkActionDescriptor "echo.say" object_schema "true" "true".
Definition echo_description : DescribeResponse :=
  mkDescribe "echo" "1.0.0" (Some (mkProtocolRange 1 1)) ["task.echo.say"] [Some echo_action] [].
Definition echo_binary : string := "binary".
Definition echo_manifest : Manifest :=
  mkManifest APIVersion "echo" "1.0.0" (mkProtocolRange 1 1) ["task.echo.say"] [mkPlatform "linux" "amd64" "bin/echo" zeros].
Definition echo_binaries : gmap string string := {["bin/echo" := echo_binary]}.

(** Libraries that write one manifest and one archive. *)
#[local] Instance Platform_eq : EqDecision Platform. Proof. solve_decision. Defined.
#[local] Instance ProtocolRange_eq : EqDecision ProtocolRange. Proof. solve_decision. Defined.
#[local] Instance Manifest_eq : EqDecision Manifest. Proof. solve_decision. Defined.
Definition echo_files : list (string * string) := [("bin/echo", echo_binary); (manifest_name, "yaml")].
#[local] Instance one_archive : Archives := {|
  ar_read s := if String.eqb s "archive" then inr (file_entry <$> echo_files, None) else inl "gzip: invalid header";
  ar_write files := if bool_decide (files = echo_files) then inr "archive" else inl "unsupported";
  yaml_decode s := if String.eqb s "yaml" then inr echo_manifest else inl "yaml: invalid";
  yaml_encode m := if bool_decide (m = echo_manifest) then inr "yaml" else inl "unsupported" |}.
#[local] Instance one_archive_laws : ArchiveLaws.
Proof.
  split; cbn.
  - intros files bundle. case_bool_decide as E; [|done]. intros [= <-]. by rewrite E.
  - intros m data. case_bool_decide as E; [|done]. intros [= <-]. by rewrite E.
Qed.
Lemma echo_built : Build echo_manifest echo_binaries = inr "archive".
Proof. vm_compute. reflexivity. Qed.

(** A host on which the plugin answers and is ready. *)
#[local] Instance echo_processes : ProcessHost unit := {|
  ph_start _ _ _ := inr (tt, echo_description); ph_health _ _ := inr (true, "ready"); ph_exited _ _ := false |}.
Definition still_env : Env := alone t0 (λ i, match i with O => "echo-uid" | _ => "request-9" end).
Lemma still_alone now uuid : still (alone now uuid).
Proof. done. Qed.
Definition control_env : ManagerEnv := mkManagerEnv (λ _, still_env) (λ _, still_env) (λ _, still_env) (λ _, still_env) (λ l, l) 100.
Lemma control_still : still_manager control_env.
Proof. split_and!; intros; done. Qed.
#[local] Instance control : PluginRuntime (Manager unit) := manager_runtime "linux" "amd64" "/plugins" control_env.
#[local] Instance control_laws : RuntimeLaws (Manager unit) control := manager_laws "linux" "amd64" "/plugins" control_env control_still.

Definition fresh_host : Db * Manager unit := (empty_db, NewWithLimits 4 2).
Definition install_echo := Install "linux" "amd64" "/plugins" still_env "archive" fresh_host.
Definition selecting : Document :=
  mkDocument Resource.APIVersion (mkMeta "echo" "default" "" 0 0 ∅) (SpecPluginInstallation (mkPluginInstallation "echo" "1.0.0" zeros (Some true))) [].
Definition selected : Db * Manager unit := (commit (Apply selecting no_options "echo-uid" "request-1" t0) install_echo.2.1, install_echo.2.2).
Definition pass_env : PassEnv := mkPassEnv (λ _, still_env) still_env (λ _, still_env).
Definition echo_pass := reconcileLocked pass_env (λ l, l) selected.

Definition of_result {A B} (f : A → B) (r : res A) : option B := match r with inl _ => None | inr a => Some (f a) end.
Example install_works : of_result (λ r, (pv_name r, pv_digest r, pv_active r)) install_echo.1 = Some ("echo", zeros, false).
Proof. vm_compute. reflexivity. Qed.
Example pass_works : of_result map_to_list echo_pass.1 = Some [] ∧ active_version echo_pass.2.1 "echo" = Some "1.0.0".
Proof. split; vm_compute; reflexivity. Qed.

(** ** Packages *)

(** C23. An archive made by [Build] is read back for every platform of its manifest:
    the normalized manifest, the binary given for that platform and the digest of
    the archive, provided no platform takes the manifest's own file name and no
    file exceeds what the reader admits. *)
Theorem built_bundle_parses {semver : Semver} {sha : FlowCompiler.Sha256} {archives : Archives} {laws : ArchiveLaws} m binaries bundle :
  Build m binaries = inr bundle → manifest_name ∉ (pf_path <$> mf_platforms m) →
  (∀ data, yaml_encode (normalizeManifest m) = inr data → Z.of_nat (String.length data) ≤ maxFile) →
  (∀ k d, binaries !! k = Some d → Z.of_nat (String.length d) ≤ maxFile) →
  ∀ p, p ∈ mf_platforms m → ∃ binary, binaries !! pf_path p = Some binary ∧
    ParseForPlatform bundle (pf_os p) (pf_arch p) = inr (normalizeManifest m, binary, FlowCompiler.sha256_hex bundle).
Proof. apply built_parses. Qed.

Lemma built_bundle_parses_witness : ∃ binary, echo_binaries !! "bin/echo" = Some binary ∧
  ParseForPlatform "archive" "linux" "amd64" = inr (echo_manifest, binary, zeros).
Proof.
  apply (built_bundle_parses echo_manifest echo_binaries "archive" echo_built) with (p := mkPlatform "linux" "amd64" "bin/echo" zeros).
  - apply (bool_decide_unpack _). vm_compute. exact I.
  - assert (yaml_encode (normalizeManifest echo_manifest) = inr "yaml") as -> by (vm_compute; reflexivity). intros data [= <-]. vm_compute. discriminate.
  - intros k d H. unfold echo_binaries in H. apply lookup_singleton_Some in H as [_ <-]. vm_compute. discriminate.
  - left.
Defined.

(** The contract a host keeps of a described plugin: its text decodes to itself
    and is what the digest is of; its actions and sources are distinct, belong to
    the plugin, and every declared task action has a descriptor whose schemas
    compiled. *)
Theorem described_contract_roundtrips {semver : Semver} {schemas : SdkSchemas} {sha : FlowCompiler.Sha256} description contract digest :
  ValidateDescription (Some description) = inr (contract, digest) →
  DecodeContract (contract_text contract) = Some contract ∧ digest = FlowCompiler.sha256_hex (contract_text contract) ∧
  NoDup (ad_action <$> ct_actions contract) ∧ NoDup (td_source <$> ct_triggers contract) ∧
  (∀ d, d ∈ ct_actions contract → has_prefix (ad_action d) (dr_name description +:+ ".") = true) ∧
  ∀ c, c ∈ dr_capabilities description → has_prefix c "task." = true →
    ∃ d compiled, actionDescriptor contract (trim_prefix c "task.") = Some d ∧ ad_action d = trim_prefix c "task." ∧ compiled_action d compiled.
Proof.
  intros H. apply validated_contract in H as (hasAgent&md&actions&contracts&->&->&Hv). split_and!.
  - apply decode_contract_text. by eapply validated_canonical.
  - done.
  - exact (proj1 (vm_distinct _ _ _ _ _ Hv)).
  - exact (proj2 (vm_distinct _ _ _ _ _ Hv)).
  - intros d Hd. destruct (vm_valid _ _ _ _ _ Hv d Hd) as [(_&Hp&_) _]. by rewrite (vm_name _ _ _ _ _ Hv) in Hp.
  - intros c Hc Ht. destruct (descriptor_found _ _ _ _ _ (trim_prefix c "task.") Hv) as (d&compiled&H1&H2&_&H3); [|by exists d, compiled].
    apply (vm_actions _ _ _ _ _ Hv). by exists c.
Qed.

Definition echo_contract : Contract := mkPluginContract [echo_action] [].
Lemma described_contract_roundtrips_witness :
  DecodeContract (contract_text echo_contract) = Some echo_contract ∧
  ∃ d compiled, actionDescriptor echo_contract "echo.say" = Some d ∧ compiled_action d compiled.
Proof.
  destruct (described_contract_roundtrips echo_description echo_contract zeros) as (H1&_&_&_&_&H2); [vm_compute; reflexivity|]. split; [exact H1|].
  destruct (H2 "task.echo.say" (list_elem_of_here _ _) eq_refl) as (d&compiled&Hd&_&Hc). exists d, compiled. split; [exact Hd|exact Hc].
Defined.

(** ** The SDK and the host *)

(** C24. A task call that the SDK admits ends the way its handler ended, as the host
    reads it.  This is for a wire that refuses nothing, values that encode as JSON
    and fewer than 2^64 - 1 events.  Whatever the handler emits, the events are
    numbered from one and close with the only terminal event.  The manager's reader,
    for a stored attempt or not, then returns the handler's value, redacted, when it
    satisfies the output schema of the action, and the handler's failure or the
    violation otherwise; a nil value is checked as null and returned as {}.  That is
    when redaction leaves every payload JSON and recording cannot fail: the raw log
    files work and a stored attempt is open and without recorded events
    ([recordable]).  When redaction breaks a payload, the call fails. *)
Theorem sdk_call_completes {cal : Calendar} {dig : Digest} {sha : FlowCompiler.Sha256} {files : RawLogFiles} {schemas : SdkSchemas} {handler : TaskHandler}
    now fresh a actions contracts time wire call others r e events r' :
  PluginSdk.Execute actions contracts time wire call others r = Some (inr e, events, r') →
  reliable wire → (∀ request, encoding (th_execute request)) → Z.of_nat (length events) < 2 ^ 64 - 1 →
  e = None ∧
  (∃ l x, events = l ++ [x] ∧ progress 1 l ∧ xe_sequence x = Z.of_nat (length l) + 1 ∧ terminal_type (xe_type x) = true) ∧
  ∃ identity c, admit_call actions contracts time call = Some (inr (identity, c)) ∧
    let result := (run_handler wire (th_execute (task_request identity call)) new_sink).1 in ∀ log st,
    (Forall (still_json a) events → files_work a → (ra_persist a = true → recordable fresh a 1 st) →
       ∃ st', consume now fresh a (mkStream events EndOfStream) log st = (host_result a c result, log +:+ concat (chunk a <$> events), st')) ∧
    (¬ Forall (still_json a) events → ∃ error log' st', consume now fresh a (mkStream events EndOfStream) log st = (inl error, log', st')).
Proof.
  intros H Hw Henc Hroom. apply Execute_run in H as (identity&c&r1&s&Hadm&_&Hrun&->&_).
  destruct (run_task_host now fresh a wire c _ _ _ Hw (Henc _) Hroom Hrun) as (He&_&Hlast&Hcons).
  split_and!; [done|done|]. exists identity, c. split; [done|]. exact Hcons.
Qed.

(** A handler that reports progress and answers. *)
Definition echoing (request : TaskRequest) : Handler :=
  Emits "echo.progress" (Value (mkobj [("heard", JBool true)])) (λ _, Logs "echo.log" "raw" (λ _, Return (inr (Value (mkobj [("said", JStr "hi")]))))).
#[local] Instance echo_handler : TaskHandler := TaskHandlerFuncs None (Some echoing).
Definition echo_wire : Wire := mkWire (λ n, rfc3339nano (t0 + n * second)) (λ _, None).
Definition echo_call : TaskCall := mkTaskCall (Some (mkCallMeta "request-1" "run-1" "a" 1 "key" (Some (t0 + hour)))) "echo.say" "" "" ∅.
Definition echo_attempt : runArtifact := mkRunArtifact "run-1" "a" 0 1 ["hi"] true.
#[local] Instance echo_logs : RawLogFiles := {| append_fault _ _ := None; read_fault _ _ := None |}.
Definition echo_uid (n : Z) : string := "artifact-" +:+ itoa n.
Lemma echo_recordable : recordable echo_uid echo_attempt 1 s6.
Proof.
  split.
  - eexists. split; [vm_compute; reflexivity|reflexivity].
  - eexists. vm_compute. reflexivity.
  - unfold ordinary. split_and!; try done; unfold no_slash, explode; simpl; set_solver.
  - intros q _. change (db_plugin_events s6) with (∅ : gmap (attempt_key * Z) PluginEventRow). apply lookup_empty.
  - intros k row _. change (db_artifacts s6) with (∅ : gmap (attempt_key * string) ArtifactRow). by rewrite lookup_empty.
  - intros text. vm_compute. reflexivity.
Qed.
Definition echo_compiled : gmap string compiledActionContract := {["echo.say" := mkCompiled tt tt tt]}.
Definition echo_executed := PluginSdk.Execute {["echo.say"]} echo_compiled t0 echo_wire echo_call (λ r, r) new_runtime.
Definition echo_events : list ExecuteEvent := match echo_executed with Some (_, events, _) => events | None => [] end.
(** The call of a stored attempt with a secret: its value comes back redacted. *)
Lemma sdk_call_completes_witness : length echo_events = 3%nat ∧ ∃ st',
  consume (λ _, now0) echo_uid echo_attempt (mkStream echo_events EndOfStream) "" s6
  = (inr (marshal (mkobj [("said", JStr "[REDACTED]")])), "raw", st').
Proof.
  split; [vm_compute; reflexivity|].
  refine (_ (sdk_call_completes (λ _, now0) echo_uid echo_attempt {["echo.say"]} echo_compiled t0 echo_wire echo_call (λ r, r) new_runtime
    None echo_events (unregister "request-1" (register (mkCallIdentity "request-1" "run-1" "a" "key" 1) new_runtime).2) _ _ _ _)).
  - intros (_&_&identity&c&Hadm&Hc). assert (identity = mkCallIdentity "request-1" "run-1" "a" "key" 1 ∧ c = mkCompiled tt tt tt) as [-> ->].
    { assert (admit_call {["echo.say"]} echo_compiled t0 echo_call = Some (inr (mkCallIdentity "request-1" "run-1" "a" "key" 1, mkCompiled tt tt tt))) as E
        by (vm_compute; reflexivity).
      pose proof (eq_trans (eq_sym Hadm) E) as E2. injection E2 as E3 E4. split; [exact E3|exact E4]. }
    destruct (Hc "" s6) as [Hok _]. destruct Hok as (st'&E); [repeat constructor|by intros q|intros _; exact echo_recordable|].
    exists st'. exact E.
  - vm_compute. reflexivity.
  - intros n. reflexivity.
  - intros request. cbn. repeat split.
  - vm_compute. reflexivity.
Defined.

(** Draining.  Once a plugin runtime stops accepting it admits no call and no
    stream, whatever is called, cancelled or shut down afterwards: the handlers of
    any later state are some of those that ran, the wait group counts exactly
    them, and every call still registered has its context cancelled. *)
Theorem draining_runtime_only_finishes x y : runs x → rt_accepting x.1 = false → rtc runtime_step x y →
  rt_accepting y.1 = false ∧ y.2 `sublist_of` x.2 ∧ rt_waiting y.1 = Z.of_nat (length y.2) ∧
  dom (rt_active y.1) ⊆ rt_cancelled y.1 ∧ ∀ name, is_Some (rt_active y.1 !! name) → name ∈ y.2.
Proof.
  intros Hx Hacc Hxy. destruct (draining x y Hxy Hacc) as [Hy Hsub]. destruct (runs_inv y) as (Hw&Ha&Hc); [unfold runs in *; by etrans|].
  split_and!; [done|done|done|by apply Hc|done].
Qed.

(** One call runs, the runtime shuts down, the call ends. *)
Definition busy : Runtime := (register (mkCallIdentity "request-1" "run-1" "a" "key" 1) new_runtime).2.
Definition drained : Runtime := (Shutdown (Some t0) busy).2.
Lemma draining_runtime_only_finishes_witness :
  runs (drained, ["request-1"]) ∧ rt_cancelled drained = {["request-1"]} ∧ rt_waiting (unregister "request-1" drained) = 0.
Proof.
  assert (Hx : runs (drained, ["request-1"])).
  { apply (rtc_l _ _ (busy, ["request-1"])); [apply (step_register (mkCallIdentity "request-1" "run-1" "a" "key" 1)); vm_compute; reflexivity|].
    apply rtc_once, (step_shutdown (Some t0) busy). }
  split; [exact Hx|]. split; [vm_compute; reflexivity|].
  refine (proj1 (proj2 (proj2 (draining_runtime_only_finishes (drained, ["request-1"]) (unregister "request-1" drained, []) Hx eq_refl _)))).
  apply rtc_once, (step_unregister "request-1" drained [] []).
Defined.

(** ** Installation and activation *)

(** C25. Installing a plugin is all or nothing, and what is installed is immutable:
    activations, the bundles of the installed versions and their directories never
    change; a failure leaves the store and the directories as they were; a success
    adds at most the row and the directory of the archive's digest. *)
Theorem installations_are_immutable {cal : Calendar} {dig : Digest} {semver : Semver} {schemas : SdkSchemas} {sha : FlowCompiler.Sha256}
    {archives : Archives} {P : Type} {processes : ProcessHost P} targetOS targetArch root env archive (w w' : Db * Manager P) r :
  still env → StrictNewVersion "" ≠ None → Install targetOS targetArch root env archive w = (r, w') →
  install_frame w w' ∧
  match r with inl _ => nothing_installed w w' | inr record => installed_as (FlowCompiler.sha256_hex archive) w w' record end.
Proof. apply Install_immutable. Qed.

(** The archive is installed, and installed again. *)
Definition echo_record : PluginRecord :=
  mkPluginRecord "echo" "1.0.0" zeros (marshal (manifest_json echo_manifest)) (contract_text echo_contract) zeros "installed" t0 false.
Lemma echo_installed : install_echo.1 = inr echo_record.
Proof. vm_compute. reflexivity. Qed.
Lemma installations_are_immutable_witness :
  installed_as zeros fresh_host install_echo.2 echo_record ∧
  ∃ r, (Install "linux" "amd64" "/plugins" still_env "archive" install_echo.2).1 = r ∧
    install_frame install_echo.2 (Install "linux" "amd64" "/plugins" still_env "archive" install_echo.2).2.
Proof.
  split.
  - refine (proj2 (installations_are_immutable "linux" "amd64" "/plugins" still_env "archive" fresh_host install_echo.2 (inr echo_record)
      (still_alone _ _) _ _)); [discriminate|].
    exact (eq_trans (surjective_pairing install_echo) (f_equal (λ r, (r, install_echo.2)) echo_installed)).
  - eexists. split; [reflexivity|].
    refine (proj1 (installations_are_immutable "linux" "amd64" "/plugins" still_env "archive" install_echo.2 _ _ (still_alone _ _) _ (surjective_pairing _))).
    discriminate.
Defined.

(** C26. Convergence.  A pass of the plugin controller that returns leaves every
    bundle as it was and, whatever order it visits the plugins in, gives each
    plugin with an installation resource the activation its resources ask for —
    the single enabled, installed and compatible version, none when all are
    disabled, the old one otherwise — with one exception: the pass made the Enable
    or Disable call of that plugin, in the state the calls before it left, and the
    runtime refused it.  Then nothing changed for that plugin, and the failure of
    that call is among those the pass wrote its statuses and issues with.  Other
    plugins are left alone.  Where the activations are the decided ones, converging
    again makes no call of the runtime and changes nothing. *)
Theorem plugins_converge {cal : Calendar} {dig : Digest} {R : Type} {runtime : PluginRuntime R} {laws : RuntimeLaws R runtime} env order w issues w' :
  quiet_pass env → named w.1 → (∀ l, order l ≡ₚ l) → reconcileLocked env order w = (inr issues, w') →
  ∃ l failures s2 w3, passed env order w l failures issues s2 w3 w' ∧ same_bundles w.1 w'.1 ∧
    (∀ p, group_for p l ≠ [] →
       failures !! p = retained (decision_of w.1 l p) ∧ active_version w'.1 p = wanted (decision_of w.1 l p) (active_version w.1 p) ∨
       own_call_failed order w l s2 p (failures !! p) ∧ active_version w'.1 p = active_version w.1 p) ∧
    (∀ p, group_for p l = [] → active_version w'.1 p = active_version w.1 p) ∧
    ∀ plugins n before, (∀ p, p ∈ plugins → active_version w'.1 p = wanted (decision_of w.1 l p) (active_version w.1 p)) →
      ∃ after, converge n plugins (groupInstallations l) (indexRecords (plugin_records w'.1)).1 (indexRecords (plugin_records w'.1)).2 before w' = (inr after, w').
Proof.
  intros Hq Hn Ho H. destruct (pass_outcome env order w issues w' Hq Hn Ho H) as (l&failures&s2&w3&Hp&Hb&Hin&Hout). exists l, failures, s2, w3.
  split_and!; [done|done|done|done|]. intros plugins n before Ha. by eapply stable_pass.
Qed.

Lemma selected_named : named selected.1.
Proof. apply map_Forall_to_list. apply (bool_decide_unpack _). vm_compute. exact I. Qed.
Lemma still_quiet now uuid : quiet (alone now uuid).
Proof. done. Qed.
Lemma echo_pass_ok : echo_pass = (inr ∅, echo_pass.2).
Proof. apply pair_fst. vm_compute. reflexivity. Qed.
Lemma plugins_converge_witness : active_version selected.1 "echo" = None ∧ active_version echo_pass.2.1 "echo" = Some "1.0.0" ∧
  same_bundles selected.1 echo_pass.2.1.
Proof.
  split; [vm_compute; reflexivity|]. split; [vm_compute; reflexivity|].
  destruct (plugins_converge pass_env (λ l, l) selected ∅ echo_pass.2) as (l&failures&s2&w3&_&Hb&_).
  - repeat split; intros; apply still_quiet.
  - exact selected_named.
  - intros l. reflexivity.
  - exact echo_pass_ok.
  - exact Hb.
Defined.

(** The status of an enabled installation is truthful: it is ready exactly when
    no other version of its plugin is enabled, no failure is recorded for the
    plugin, and the store's active version of the plugin is the one it names, with
    its digest and a protocol range that includes the host's. *)
Theorem ready_installation_is_active s group failures i : named s → is_enabled i = true →
  vd_ready (verdict_of group (indexRecords (plugin_records s)).1 (indexRecords (plugin_records s)).2 failures i) = true ↔
  (length (enabledInstallations group) <= 1)%nat ∧ failure_of failures i = None ∧
  ∃ r, active_record s (pi_plugin i.2) = Some r ∧ pv_version r = pi_version i.2 ∧ pv_digest r = pi_digest i.2 ∧ incompatible r = false.
Proof. apply ready_status. Qed.

Definition echo_installation : Installation := (mkMeta "echo" "default" "echo-uid" 1 1 ∅, mkPluginInstallation "echo" "1.0.0" zeros (Some true)).
Lemma pass_named : named echo_pass.2.1.
Proof. apply map_Forall_to_list. apply (bool_decide_unpack _). vm_compute. exact I. Qed.
Lemma ready_installation_is_active_witness :
  vd_ready (verdict_of [echo_installation] (indexRecords (plugin_records echo_pass.2.1)).1 (indexRecords (plugin_records echo_pass.2.1)).2 ∅ echo_installation) = true ∧
  ∃ r, active_record echo_pass.2.1 "echo" = Some r ∧ pv_version r = "1.0.0".
Proof.
  assert (H : vd_ready (verdict_of [echo_installation] (indexRecords (plugin_records echo_pass.2.1)).1 (indexRecords (plugin_records echo_pass.2.1)).2 ∅ echo_installation) = true)
    by (vm_compute; reflexivity).
  split; [exact H|]. destruct (proj1 (ready_installation_is_active echo_pass.2.1 [echo_installation] ∅ echo_installation pass_named eq_refl) H) as (_&_&r&Hr&Hv&_).
  exists r. split; [exact Hr|exact Hv].
Defined.

(** ** Watches *)

(** A provider plugin and a Trigger that watches it. *)
Definition feed_manifest : Manifest := mkManifest APIVersion "feed" "1.0.0" (mkProtocolRange 1 1) ["trigger.feed.post"; ActivationFenceCapability] [].
Definition feed_contract : Contract := mkPluginContract [] [mkTriggerDescriptor "feed.post" object_schema object_schema].
Definition feed_plugin : PluginRecord :=
  mkPluginRecord "feed" "1.0.0" zeros (marshal (manifest_json feed_manifest)) (contract_text feed_contract) zeros "" 0 false.
Definition feed_spec : TriggerSpec := mkTriggerSpec "deploy" None None None (Some (mkProvider "feed" "" [])) None.
Definition feed_document : Document := mkDocument Resource.APIVersion (mkMeta "feed" "default" "" 0 0 ∅) (SpecTrigger feed_spec) [].
Definition feed_trigger : ObjectMeta * TriggerSpec := (mkMeta "feed" "default" "feed-uid" 2 1 ∅, feed_spec).
Definition feed1 : Db := commit (Apply feed_document no_options "feed-uid" "request-2" t0) s1.
Definition feed2 : Db := commit (EnsureTriggerState "feed-uid" 1 true t0 now0) feed1.
Definition feed3 : Db := commit (PutPlugin feed_plugin None t0) feed2.
Definition feeding : Db := commit (ActivatePlugin "feed" "1.0.0" now0) feed3.
Lemma step_feed1 : store_step s1 feed1.
Proof. eapply step_apply, commit_inr. vm_compute. reflexivity. Qed.
Lemma step_feed2 : store_step feed1 feed2.
Proof. eapply step_trigger_state, commit_inr. vm_compute. reflexivity. Qed.
Lemma step_feed3 : store_step feed2 feed3.
Proof. eapply step_put_plugin, commit_inr. vm_compute. reflexivity. Qed.
Lemma step_feeding : store_step feed3 feeding.
Proof. eapply step_activate, commit_inr. vm_compute. reflexivity. Qed.
Lemma reach_feeding : reachable feeding.
Proof.
  unfold reachable. eapply rtc_r; [|exact step_feeding]. eapply rtc_r; [|exact step_feed3]. eapply rtc_r; [|exact step_feed2].
  eapply rtc_r; [exact reach_1|exact step_feed1].
Qed.

#[local] Instance object_validator : JsonSchema := {|
  js_build _ := inr (mkSchema [mkSchemaObject None ["object"] ∅ AdditionalUnset None None []] 0); js_validate _ _ := None |}.
#[local] Instance no_secrets : Host := {| LookupEnv _ := None; ReadSecret _ := None |}.
#[local] Instance started : PluginHost :=
  {| Launch _ := None; StartTask _ _ := inl (plain "unused"); StartAgent _ _ := inl (plain "unused") |}.
Definition post (id cursor : string) : TriggerEvent := mkTriggerEvent id cursor (marshal (mkobj [("post", JStr id)])) "".
(** Two posts, of which the acknowledgement of the second is lost. *)
#[local] Instance feed_host : TriggerHost := {|
  StartWatch _ _ := inr (mkWatching [(post "post-1" "cursor-1", None); (post "post-2" "cursor-2", Some "connection closed")] "EOF") |}.
Definition post_uuid (i n : nat) : string := itoa (Z.of_nat i) +:+ "-" +:+ itoa (Z.of_nat n).
Definition feed_acceptors (i : nat) : Acceptor := store_acceptor (alone t0 (post_uuid i)).
#[local] Instance feed_laws i : ProviderLaws (feed_acceptors i) := store_provider_laws _ (interference_alone _ _).
#[local] Instance feed_solo i : ProviderSolo (feed_acceptors i) := store_provider_solo _ _.
Definition watched := ManagerWatch.WatchTrigger still_env "feed" "" (m_uid feed_trigger.1) "default" [] "" t0
  (λ i, accept_event (acceptor := feed_acceptors i) feed_trigger) feeding.
Definition after_watch : Db := match watched with Some (_, _, s) => s | None => feeding end.
Definition watch_error : Err := match watched with Some (e, _, _) => e | None => ErrNotFound end.
Lemma watched_once : watched = Some (watch_error, [post "post-1" "cursor-1"], after_watch).
Proof.
  assert (H : of_result id match watched with Some (_, acked, _) => inr acked | None => inl ErrNotFound end = Some [post "post-1" "cursor-1"])
    by (vm_compute; reflexivity).
  unfold after_watch, watch_error. destruct watched as [[[e acked] s]|]; [|discriminate H]. cbn in H. injection H as ->. reflexivity.
Qed.

(** C27. An acknowledgement is a promise kept.  Every event a watch acknowledged had
    an identity, a cursor and a payload that satisfies the event schema of the
    installed contract, in the order the provider sent them from the first, and its
    acceptance is durable: the receipt of its occurrence is in the store at the end
    of the watch, whatever else was committed meanwhile. *)
Theorem acknowledged_events_are_persisted {cal : Calendar} {dig : Digest} {host : Host} {js : JsonSchema} {plugins : PluginHost}
    {triggers : TriggerHost} (acceptors : nat → Acceptor) {laws : ∀ i, ProviderLaws (acceptors i)}
    env plugin source namespace c cursor activatedAt trigger s e acked s' :
  reachable s → interference env →
  ManagerWatch.WatchTrigger env plugin source (m_uid trigger.1) namespace c cursor activatedAt
    (λ i, accept_event (acceptor := acceptors i) trigger) s = Some (e, acked, s') →
  rtc store_step s s' ∧
  (acked = [] ∨ ∃ record descriptor start stream,
     prepare_watch env plugin source (m_uid trigger.1) namespace c cursor activatedAt s = Some (inr (record, descriptor, start)) ∧
     StartWatch record start = inr stream ∧ acked `prefix_of` (wt_events stream).*1 ∧
     Forall (λ event, satisfies (td_event descriptor) (te_payload event)) acked) ∧
  Forall (λ event, identified event ∧ is_Some (lookup_receipt (m_uid trigger.1) (te_providerEventId event) s')) acked.
Proof.
  intros Hr He H. assert (Hs : rtc store_step s (others env 1 (others env 0 s))) by (etrans; apply He).
  unfold ManagerWatch.WatchTrigger, mbind, option_bind in H. destruct (prepare_watch _ _ _ _ _ _ _ _ s) as [[err|[[record descriptor] start]]|] eqn:Ep; [| |done].
  { injection H as _ <- <-. split_and!; [exact Hs|by left|constructor]. }
  destruct (StartWatch record start) as [err|stream] eqn:Es.
  { injection H as _ <- <-. split_and!; [exact Hs|by left|constructor]. }
  apply (watch_events_acked _ _ (λ event s, identified event ∧ is_Some (lookup_receipt (m_uid trigger.1) (te_providerEventId event) s))) in H as (H1&H2&H3).
  - split_and!; [by etrans|right|]; [|eapply Forall_impl; [exact H3|by intros event [_ ?]]].
    exists record, descriptor, start, stream. split_and!; [done|done|done|]. eapply Forall_impl; [exact H3|by intros event [? _]].
  - intros i event. apply accept_event_evolves.
  - intros i event s1 s2 Hs1. by apply accept_event_ok.
  - intros event s1 s2 Hs1 Hs12 [Hid [x Hx]]. split; [done|]. exists x. by eapply occurrences_forever.
  - unfold reachable in *. by etrans.
Qed.

Lemma acknowledged_events_are_persisted_witness :
  is_Some (lookup_receipt "feed-uid" "post-1" after_watch) ∧ lookup_receipt "feed-uid" "post-1" feeding = None.
Proof.
  split; [|vm_compute; reflexivity].
  pose proof watched_once as H. unfold watched in H at 1.
  destruct (acknowledged_events_are_persisted feed_acceptors still_env "feed" "" "default" [] "" t0 feed_trigger feeding watch_error
    [post "post-1" "cursor-1"] after_watch reach_feeding (interference_alone _ _) H) as (_&_&Hr).
  exact (proj2 (proj1 (proj1 (Forall_cons _ _ _) Hr))).
Defined.

(** The stored cursor of a Trigger. *)
Definition stored_cursor (uid : string) (s : Db) : option string := cu_cursor <$> db_cursors s !! uid.

(** Where a provider resumes.  While nothing else commits, a watch leaves the
    stored cursor of its Trigger at the last event that was persisted — the last
    acknowledged one or the one after it, whose acknowledgement failed — and at the
    old cursor when there is none, so an event is delivered again rather than lost;
    it adds receipts of persisted events only and touches no other cursor. *)
Theorem provider_resumes_after_persisted_events {cal : Calendar} {dig : Digest} {host : Host} {js : JsonSchema} {plugins : PluginHost}
    {triggers : TriggerHost} (acceptors : nat → Acceptor) {solo : ∀ i, ProviderSolo (acceptors i)}
    env plugin source namespace c cursor activatedAt trigger s e acked s' :
  still env →
  ManagerWatch.WatchTrigger env plugin source (m_uid trigger.1) namespace c cursor activatedAt
    (λ i, accept_event (acceptor := acceptors i) trigger) s = Some (e, acked, s') →
  ∃ accepted, persisted acked accepted ∧
    (∀ k, k ∉ ((λ event, (m_uid trigger.1, te_providerEventId event)) <$> accepted) → db_receipts s' !! k = db_receipts s !! k) ∧
    (∀ t, t ≠ m_uid trigger.1 → db_cursors s' !! t = db_cursors s !! t) ∧
    stored_cursor (m_uid trigger.1) s' = match last accepted with Some event => Some (te_cursor event) | None => stored_cursor (m_uid trigger.1) s end.
Proof.
  intros He H. unfold ManagerWatch.WatchTrigger, mbind, option_bind in H. rewrite !He in H.
  assert (Hno : ∃ accepted, persisted [] accepted ∧
    (∀ k, k ∉ ((λ event, (m_uid trigger.1, te_providerEventId event)) <$> accepted) → db_receipts s !! k = db_receipts s !! k) ∧
    (∀ t, t ≠ m_uid trigger.1 → db_cursors s !! t = db_cursors s !! t) ∧
    stored_cursor (m_uid trigger.1) s = match last accepted with Some event => Some (te_cursor event) | None => stored_cursor (m_uid trigger.1) s end).
  { exists []. split_and!; [by left|done|done|done]. }
  destruct (prepare_watch _ _ _ _ _ _ _ _ s) as [[err|[[record descriptor] start]]|] eqn:Ep; [| |done].
  { injection H as _ <- <-. exact Hno. }
  destruct (StartWatch record start) as [err|stream] eqn:Es.
  { injection H as _ <- <-. exact Hno. }
  apply (watch_events_alone _ (m_uid trigger.1)) in H as (accepted&H1&_&H2&H3&H4); [by exists accepted|].
  intros i event s1 r s2 Ha. apply accept_event_alone in Ha. destruct r; [done|]. by destruct Ha as (_&Ha&_&Hc).
Qed.

Lemma provider_resumes_after_persisted_events_witness :
  stored_cursor "feed-uid" after_watch = Some "cursor-2" ∧ stored_cursor "feed-uid" feeding = None ∧
  ∀ t, t ≠ "feed-uid" → db_cursors after_watch !! t = db_cursors feeding !! t.
Proof.
  split; [vm_compute; reflexivity|]. split; [vm_compute; reflexivity|].
  pose proof watched_once as H. unfold watched in H at 1.
  destruct (provider_resumes_after_persisted_events feed_acceptors still_env "feed" "" "default" [] "" t0 feed_trigger feeding watch_error
    [post "post-1" "cursor-1"] after_watch (still_alone _ _) H) as (accepted&_&_&Hc&_).
  exact Hc.
Defined.
