(* ===== verification/PropertiesApi.v ===== *)
(** The properties of the public API, each with a witness. *)

From Stdlib Require Import Ascii.
From Stdlib Require String.
From S2P Require Import Prelude.
From S2P Require Import Json.
From S2P Require Import GoStd.
From S2P Require Import Resource.
From S2P Require Import Plan.
From S2P Require Import References.
From S2P Require Import FlowCompiler.
From S2P Require Import Db.
From S2P Require Import StoreRuns.
From S2P Require Import StorePlugins.
From S2P Require Import Retention.
From S2P Require Import RetentionFacts.
From S2P Require Import StoreOps.
From S2P Require Import StoreResources.
From S2P Require Import StoreOutbox.
From S2P Require Import StoreStep.
From S2P Require Import StoreAttempts.
From S2P Require Import Proc.
From S2P Require Import EngineNode.
From S2P Require Import EngineAdapter.
From S2P Require Import Orchestrator.
From S2P Require Import PluginController.
From S2P Require Import ServerPages.
From S2P Require Import ServerPagesFacts.
From S2P Require Import ServerHandlers.
From S2P Require Import ServerResources.
From S2P Require Import ServerRuns.
From S2P Require Import ServerPlugins.
From S2P Require Import ServerStream.
From S2P Require Import ServerFacts.
From S2P Require Import Samples.

Local Open Scope Z_scope.

(** ** Samples *)

#[local] Instance any_compiler : Orchestrator.FlowCompiler := {| Orchestrator.Compile _ := (sample_plan, []); Orchestrator.ValidateRunInput _ _ := ok tt |}.
#[local] Instance plain_views : ManagerViews := {| view_SecretStatus _ _ _ := ("Missing", "env"); view_ValidateTriggerProvider _ _ _ _ _ := [] |}.
#[local] Instance no_runtime : PluginRuntime unit := unavailableRuntime.
Definition all_present : Collaborators := mkCollaborators true true true true.
Definition quiet_env : Env := alone t0 (λ _, "id").
Lemma quiet_serving : serving quiet_env.
Proof. intros i s. apply rtc_refl. Qed.
Lemma quiet_keeping run : keeping run quiet_env.
Proof. intros i s. apply rtc_refl. Qed.
Lemma live_s1 : live s1.
Proof.
  apply rtc_once. eapply (served_apply _ _ sample_document sample_document).
  - vm_compute. reflexivity.
  - apply commit_inr. vm_compute. reflexivity.
Qed.

(** ** Streams *)

(** C28. Watching resources.  While the daemon's operations go on, the messages of a
    watch are the events of the log after the requested revision that match its
    filters, in the order of the log, none missing and none twice, each with the
    document of its event; and a client that keeps receiving is sent every event
    that was in the log when it asked, a hundred per turn. *)
Theorem watch_delivers_in_order {cal : Calendar} {dig : Digest} {compiler : Orchestrator.FlowCompiler} {views : ManagerViews} {R : Type}
    {client : Client ResourceEvent} collaborators request turns s (x : R) :
  live s → Forall (λ envs : nat → Env, ∀ n, serving (envs n)) turns →
  let asked s := later re_revision (wq_after request) (watched (wq_kind request) (wq_namespace request) s) in
  ∃ s' x' r events messages, Watch collaborators request turns ((s, x), []) = (r, ((s', x'), messages)) ∧ rtc served s s' ∧
    Forall2 (sent_as collaborators) events messages ∧ events `prefix_of` asked s' ∧
    ((∀ sent m, receives (A:=ResourceEvent) sent m = None) → (length (asked s) ≤ 100 * length turns)%nat →
       (re_revision <$> asked s) `prefix_of` (we_revision <$> messages)).
Proof.
  intros Hs Ht asked. destruct (Watch_received collaborators request turns s x [] Ht Hs) as (s'&x'&events&messages&r&H&Hg&Hf&Hp).
  exists s', x', r, events, messages. split_and!; try done. intros Hc Hn.
  destruct (Watch_complete collaborators request turns s x [] Hc Ht Hs Hn) as (w'&evs&msgs&H2&Hf2&Hl). rewrite H in H2. injection H2 as _ _ ->.
  rewrite (sent_revisions _ _ _ Hf2). destruct Hl as [k ->]. rewrite fmap_app. by eexists.
Qed.

Lemma watch_delivers_in_order_witness :
  ∃ s' x' r events messages, Watch (R:=unit) (client:=open_client _) all_present (mkWatchRequest "" "" 0) [λ _, quiet_env] ((s1, tt), []) = (r, ((s', x'), messages)) ∧
    rtc served s1 s' ∧ Forall2 (sent_as all_present) events messages ∧ events `prefix_of` later re_revision 0 (watched "" "" s') ∧
    [1] `prefix_of` (we_revision <$> messages).
Proof.
  assert (Ht : Forall (λ envs : nat → Env, ∀ n, serving (envs n)) [λ _, quiet_env]) by (repeat constructor).
  destruct (watch_delivers_in_order (client:=open_client _) all_present (mkWatchRequest "" "" 0) [λ _, quiet_env] s1 tt live_s1 Ht)
    as (s'&x'&r&events&messages&H&Hg&Hf&Hp&Hl).
  exists s', x', r, events, messages. split_and!; try done. apply Hl; [done|]. vm_compute. lia.
Defined.

(** Following a run.  As long as the run is not collected, the messages of
    [WatchEvents] are the run's events with consecutive sequence numbers from the
    one after the requested position; a client that keeps receiving is sent every
    event that was in the log when it asked. *)
Theorem run_events_are_streamed_without_gaps {cal : Calendar} {dig : Digest} {X : Type} {client : Client RunEventRow} request turns s (x : X) :
  reachable s → Forall (keeping (wr_uid request)) turns → 0 ≤ wr_after request →
  let asked s := later ev_seq (wr_after request) (events_of (wr_uid request) s) in
  ∃ s' x' r messages, WatchEvents request turns ((s, x), []) = (r, ((s', x'), messages)) ∧ rtc (retaining (wr_uid request)) s s' ∧
    messages `prefix_of` asked s' ∧
    ev_seq <$> messages = seqZ (wr_after request + 1) (Z.of_nat (length messages)) ∧
    ((∀ sent m, receives (A:=RunEventRow) sent m = None) → (length (asked s) ≤ 100 * length turns)%nat → asked s `prefix_of` messages).
Proof.
  intros Hs Ht Ha asked. destruct (WatchEvents_received request turns s x [] Ht Hs) as (s'&x'&messages&r&H&Hg&Hp).
  exists s', x', r, messages. split_and!; try done.
  - eapply consecutive; [by eapply retaining_reachable|done|exact Hp].
  - intros Hc Hn. destruct (WatchEvents_complete request turns s x [] Hc Ht Hs Hn) as (w'&msgs&H2&Hl). rewrite H in H2. by injection H2 as _ _ ->.
Qed.

Lemma run_events_are_streamed_without_gaps_witness :
  ∃ s' x' r messages, WatchEvents (events_client:=open_client _) (mkWatchRunRequest "run-1" 0) [quiet_env] ((s7, tt), []) = (r, ((s', x'), messages)) ∧
    events_of "run-1" s7 `prefix_of` messages ∧ ev_seq <$> messages = seqZ 1 (Z.of_nat (length messages)).
Proof.
  assert (Ht : Forall (keeping "run-1") [quiet_env]) by (repeat constructor).
  destruct (run_events_are_streamed_without_gaps (client:=open_client _) (mkWatchRunRequest "run-1" 0) [quiet_env] s7 tt reach_7 Ht ltac:(done))
    as (s'&x'&r&messages&H&Hg&Hp&Hq&Hl).
  exists s', x', r, messages. split_and!; [done| |done].
  assert (E : later ev_seq 0 (events_of "run-1" s7) = events_of "run-1" s7) by (vm_compute; reflexivity).
  rewrite <- E. apply Hl; [done|]. cbn [wr_after wr_uid]. rewrite E. vm_compute. lia.
Defined.

(** ** Resources *)

(** C29. Applying a document.  [rel] is any preorder that contains what the others
    commit during the request.  A request that fails, whose diagnostics hold an
    error or that is a dry run (so every [Validate]) writes nothing of its own;
    any other one stores the decoded document once, without the status it came
    with, and answers with what it stored. *)
Theorem apply_stores_valid_documents_once {cal : Calendar} {dig : Digest} {compiler : Orchestrator.FlowCompiler} {views : ManagerViews}
    {R : Type} {runtime : PluginRuntime R} collaborators (rel : relation Db) `{!PreOrder rel} envs request dryRun (w : Db * R) :
  (∀ n, within rel (envs n)) → lists_within (R:=R) rel →
  apply_outcome collaborators rel envs request dryRun w (apply collaborators envs request dryRun w).1 (apply collaborators envs request dryRun w).2.1.
Proof.
  intros He Hl. pose proof (apply_spec collaborators rel envs request dryRun w He Hl) as H.
  by destruct (apply collaborators envs request dryRun w) as [r w'].
Qed.

Definition secret_document : Document :=
  mkDocument APIVersion (mkMeta "token" "default" "" 0 0 ∅) (SpecSecretRef (mkSecretRef "env" "TOKEN")) [("state", JStr "Configured")].
Definition secret_request : ApplyRequest := mkApplyRequest (inr secret_document) false 0 "request" "".
Lemma apply_stores_valid_documents_once_witness :
  (if (apply all_present (λ _, quiet_env) secret_request false (empty_db, tt)).1 is inr _ then true else false) = true ∧
  apply_outcome all_present eq (λ _, quiet_env) secret_request false (empty_db, tt)
    (apply all_present (λ _, quiet_env) secret_request false (empty_db, tt)).1
    (apply all_present (λ _, quiet_env) secret_request false (empty_db, tt)).2.1.
Proof.
  split; [vm_compute; reflexivity|].
  apply (apply_stores_valid_documents_once all_present eq (λ _, quiet_env) secret_request false (empty_db, tt)).
  - by intros n i s.
  - by intros n w.
Defined.

(** Deleting an installation.  Whatever the daemon commits between the check and
    the deletion, a PluginInstallation that was deleted for a client naming a
    version it could have seen was disabled when it was deleted. *)
Theorem enabled_installation_is_not_deleted {cal : Calendar} {dig : Digest} {R : Type} env request (w w' : Db * R) :
  serving env → live w.1 → (dq_key request).1.1 = "PluginInstallation" → dq_expected request ≤ db_revision w.1 →
  Delete_ env request w = (inr tt, w') →
  let k := (("PluginInstallation", default_namespace (dq_key request).1.2), (dq_key request).2) in
  ∃ s1 row i, rtc served w.1 s1 ∧ db_resources s1 !! k = Some row ∧ rr_version row = dq_expected request ∧
    DecodePluginInstallation (rr_doc row) = inr i ∧ is_enabled i = false ∧ db_resources w'.1 = delete k (db_resources s1).
Proof. apply Delete_disabled. Qed.

Definition plugin_document (enabled : bool) : Document :=
  mkDocument APIVersion (mkMeta "agent" "default" "" 0 0 ∅) (SpecPluginInstallation (mkPluginInstallation "agent" "1.0.0" "digest" (Some enabled))) [].
Definition with_plugin (enabled : bool) : Db := commit (Apply (plugin_document enabled) no_options "agent-uid" "request-1" t0) empty_db.
Definition delete_request : DeleteRequest := mkDeleteRequest (("PluginInstallation", "default"), "agent") 1 "request-2".
Lemma live_with_plugin enabled : live (with_plugin enabled).
Proof.
  apply rtc_once. eapply (served_apply _ _ (plugin_document enabled) (plugin_document enabled)).
  - by destruct enabled; vm_compute.
  - apply commit_inr. by destruct enabled; vm_compute.
Qed.
Lemma enabled_installation_is_not_deleted_witness :
  (Delete_ quiet_env delete_request (with_plugin true, tt)).1 = inl (mkStatus FailedPrecondition "an enabled PluginInstallation must be disabled before deletion") ∧
  ∃ s1 row i, rtc served (with_plugin false) s1 ∧ db_resources s1 !! ("PluginInstallation", "default", "agent") = Some row ∧
    DecodePluginInstallation (rr_doc row) = inr i ∧ is_enabled i = false.
Proof.
  split; [vm_compute; reflexivity|].
  assert (H : Delete_ quiet_env delete_request (with_plugin false, tt) = (inr tt, (Delete_ quiet_env delete_request (with_plugin false, tt)).2)).
  { apply pair_fst. vm_compute. reflexivity. }
  assert (Hv : dq_expected delete_request ≤ db_revision (with_plugin false)) by (apply Z.leb_le; vm_compute; reflexivity).
  destruct (enabled_installation_is_not_deleted quiet_env delete_request (with_plugin false, tt) _ quiet_serving (live_with_plugin false) eq_refl Hv H)
    as (s&row&i&H1&H2&H3&H4&H5&H6).
  exists s, row, i. split; [exact H1|]. split; [exact H2|]. split; [exact H4|exact H5].
Defined.

(** ** Runs *)

(** C30. A decision reaches the engine.  A request that is refused asked nothing of
    the engine and wrote nothing.  One that answers stored the decision and sent
    one signal that carries it to the Run and the approval node, and if the engine
    accepted the signal the decision is flagged as delivered.  However the daemon
    goes on — other requests, reconciliations, the work of the engine and of the
    others, as long as the Run is kept — the decision stays as it is, a flagged one
    stays flagged and the engine has accepted its signal; and a reconciliation that
    succeeds while at most a hundred decisions wait leaves it flagged, with its
    signal accepted by the engine.  [signals] is the record of what the engine
    accepted. *)
Theorem decision_reaches_the_engine {cal : Calendar} {dig : Digest} {E : Type} {engine : WorkflowClient E} {log : SignalLog}
    env request state (w : Db * E) :
  keeping (aq_run request) env →
  let '(r, w') := decide_ env request state w in
  let run := aq_run request in let node := aq_node request in
  let sent := SignalApproval run node (mkApproval state (aq_reason request)) w.2 in
  match r with
  | inl _ => w'.2 = w.2 ∧ rtc (retaining run) w.1 w'.1
  | inr _ =>
      w'.2 = sent.2 ∧ (sent.1 = inr tt → signalled run node w'.1) ∧
      ∀ x, rtc (control_step run node) w' x →
        decided_as run node state "unix-peer" (aq_reason request) x.1 ∧
        (signalled run node w'.1 → signalled run node x.1) ∧
        (signalled run node x.1 → received run node state (aq_reason request) x.2) ∧
        ∀ now s' e', (length (backlog x.1) ≤ 100)%nat → EngineAdapter.Reconcile now x.1 x.2 = (inr tt, (s', e')) →
          signalled run node s' ∧ received run node state (aq_reason request) e'
  end.
Proof.
  intros He. pose proof (decide_spec (rtc (retaining (aq_run request))) env request state w He) as Hs.
  destruct (decide_ env request state w) as [r w'] eqn:H. intros run node sent. destruct r as [err|[]]; [exact Hs|].
  destruct (decide_decides env request state w w' He H) as (_&_&Hsig). destruct (decide_held env request state w w' He H) as [Hp Hh].
  split_and!; [|exact Hsig|].
  { destruct Hs as (s0&s1&r0&_&_&Hsent&_). exact (eq_sym (f_equal snd Hsent)). }
  intros x Hx. pose proof (held_steps _ _ _ _ _ _ _ _ Hp Hx Hh) as Hheld. split_and!; [apply Hheld..|].
  intros now s' e' Hlen Hr. destruct x as [s e].
  assert (Hf : signalled run node s') by (eapply reconciled; [exact (proj1 Hheld)|exact Hp|exact Hlen|exact Hr]). split; [exact Hf|].
  pose proof (held_reconcile _ _ _ _ _ _ now _ _ Hp Hheld) as Hh'. cbn [fst snd] in Hr. rewrite Hr in Hh'. by apply Hh'.
Qed.

(** An engine that refuses the first signal it gets and records the others. *)
#[local] Instance flaky_engine : WorkflowClient (nat * list (string * string * Signal)) := {|
  GetWorkflowInstances _ _ := ok []; CreateWorkflowInstance _ _ _ e := (ok tt, e); CancelWorkflowInstance _ e := (ok tt, e);
  SignalWorkflow run name signal e :=
    match e.1 with O => (fail (ErrMsg "unavailable"), (1%nat, e.2)) | n => (ok tt, (n, (run, name, signal) :: e.2)) end;
  CancelRun := None |}.
#[local] Instance flaky_log : SignalLog.
Proof.
  refine {| signals e := e.2 |}.
  - intros run name signal [[|n] l] e'; simpl; [done|]. intros [= <-]. left.
  - intros run name signal [[|n] l]; simpl; set_solver.
  - done.
  - done.
Defined.
Definition approval : ApprovalRequest := mkApprovalRequest "run-1" "gate" "looks good".
Definition approved : Db * (nat * list (string * string * Signal)) := (decide_ quiet_env approval "approved" (s8, (O, []))).2.
Lemma decision_reaches_the_engine_witness :
  (decide_ quiet_env approval "approved" (s8, (O, []))).1 = inr tt ∧ approved.2.2 = [] ∧
  (if EngineAdapter.Reconcile now0 approved.1 approved.2 is (inr _, _) then true else false) = true ∧
  signalled "run-1" "gate" (EngineAdapter.Reconcile now0 approved.1 approved.2).2.1 ∧
  ("run-1", "approval:gate", SigApproval (mkApproval "approved" "looks good")) ∈ signals (EngineAdapter.Reconcile now0 approved.1 approved.2).2.2.
Proof.
  assert (H1 : (decide_ quiet_env approval "approved" (s8, (O, []))).1 = inr tt) by (vm_compute; reflexivity).
  assert (H2 : (if EngineAdapter.Reconcile now0 approved.1 approved.2 is (inr _, _) then true else false) = true) by (vm_compute; reflexivity).
  split; [exact H1|]. split; [vm_compute; reflexivity|]. split; [exact H2|].
  assert (Hlen : (length (backlog approved.1) ≤ 100)%nat) by (apply Nat.leb_le; vm_compute; reflexivity).
  pose proof (decision_reaches_the_engine quiet_env approval "approved" (s8, (O, [])) (quiet_keeping "run-1")) as H.
  unfold approved in *. destruct (decide_ quiet_env approval "approved" (s8, (O, []))) as [r w'] eqn:E. simpl in H1. subst r. destruct H as (_&_&H).
  destruct (H w' (rtc_refl _ _)) as (_&_&_&Hr). cbn [snd] in *.
  destruct (EngineAdapter.Reconcile now0 w'.1 w'.2) as [[err|[]] [s' e']] eqn:Er; [done|]. by eapply Hr.
Defined.

(** C31. Downloading an artifact.  Every artifact registered in a reachable store has a
    path inside the state directory; a download that succeeds sent the whole
    file, of the registered size (at most 64 MiB) and digest, in nonempty chunks
    of at most 64 KiB, and it succeeds when the file is intact and the client
    takes the chunks. *)
Theorem artifact_download_is_intact {cal : Calendar} {dig : Digest} {E : Type} {sha : Sha256} {files : StateDir} {client : Client string}
    env uid s (e : E) row :
  reachable (others env 0 s) → ArtifactByUID uid (others env 0 s) = inr (row, others env 0 s) → uid ≠ "" →
  (∃ parts, parts ≠ [] ∧ ar_path row = join "/" parts ∧ Forall ordinary parts) ∧
  (∀ w', GetArtifact env uid ((s, e), []) = (inr tt, w') →
     ∃ data, stored_intact row data ∧ assembled w'.2 = data ∧ Forall (λ c, (0 < String.length c ≤ chunkSize)%nat) w'.2) ∧
  (∀ data, stored_intact row data → (∀ sent m, receives (A:=string) sent m = None) →
     ∃ w', GetArtifact env uid ((s, e), []) = (inr tt, w') ∧ assembled w'.2 = data).
Proof.
  intros Hr Hrow Hu. assert (Hwhole : ∀ data, assembled (chunks_of (S (String.length data)) data 0) = data).
  { intros data. rewrite chunks_assembled by lia. rewrite Nat.sub_0_r. apply substring_whole. }
  split_and!.
  - pose proof (registered_secure _ _ _ Hr Hrow) as Hn. destruct (secure_name_inside _ _ Hn) as (parts&Hne&E'&Ho). by exists parts.
  - intros w' H. destruct (GetArtifact_ok env uid s e w' H) as (row'&data&Hrow'&Hi&->). rewrite Hrow in Hrow'. injection Hrow' as <-.
    exists data. split_and!; [done|apply Hwhole|apply chunks_bounded].
  - intros data Hi Hc. eexists. split; [by apply (GetArtifact_intact env uid s e row)|]. apply Hwhole.
Qed.

(** A log of the sample run and the directory that holds it. *)
#[local] Instance sample_sha : Sha256 := λ _, implode (replicate 64 "0"%char).
Definition artifact : ArtifactArg := mkArtifactArg "artifact-1" "run-1" "a" 0 1 "raw.log" "" "artifacts/run-1/./raw.log" 5 (implode (replicate 64 "0"%char)).
Definition with_artifact : Db := commit (PutArtifact artifact "" now0) s6.
#[local] Instance sample_directory : StateDir := {|
  OpenRoot := None;
  root_Open name := if String.eqb name "artifacts/run-1/raw.log" then Some (mkOpenedFile (Some (true, 5)) (inr "hello")) else None |}.
Lemma reach_with_artifact : reachable with_artifact.
Proof. eapply rtc_r; [apply reach_6|]. eapply step_artifact, commit_inr. vm_compute. reflexivity. Qed.
Lemma artifact_download_is_intact_witness :
  ∃ w', GetArtifact (chunk_client:=open_client _) quiet_env "artifact-1" ((with_artifact, tt), []) = (inr tt, w') ∧ assembled w'.2 = "hello".
Proof.
  set (row := mkArtifactRow "artifact-1" "application/octet-stream" "artifacts/run-1/raw.log" 5 (aa_sha256 artifact) now0 now0).
  assert (Hrow : ArtifactByUID "artifact-1" with_artifact = inr (row, with_artifact)).
  { apply tx_row_inv. split; [vm_compute; reflexivity|exact eq_refl]. }
  assert (Hi : stored_intact row "hello").
  { split; [reflexivity|]. exists "artifacts/run-1/raw.log". split; [vm_compute; reflexivity|].
    eexists. split; [reflexivity|]. split_and!; try reflexivity. apply Z.leb_le. reflexivity. }
  destruct (artifact_download_is_intact (client:=open_client _) quiet_env "artifact-1" with_artifact tt row reach_with_artifact Hrow ltac:(done)) as (_&_&H).
  by apply H.
Defined.

(** ** Uploads *)

(** C32. Uploading a plugin.  The bundle that is installed is exactly the data up to
    the first chunk marked final, and it is at most 128 MiB; a stream without a
    final chunk, or with more data before it, installs nothing; what follows the
    final chunk is never looked at. *)
Theorem upload_is_bounded upload bundle :
  (receive_bundle upload = inr bundle ↔
     ∃ l, upload_of (up_chunks upload) = Some l ∧ bundle = assembled l ∧ total l ≤ maxBundleUpload) ∧
  ∀ more ending, is_Some (upload_of (up_chunks upload)) →
    receive_bundle (mkUpload (up_chunks upload ++ more) ending) = receive_bundle upload.
Proof.
  split; [apply receive_bundle_ok|]. intros more ending [l Hl]. destruct upload as [chunks ending']. by eapply trailing_data_ignored.
Qed.

(** Two chunks, the second of them final, and data after it. *)
Definition sample_chunks : list (string * bool) := [("bun", false); ("dle", true)].
Lemma upload_is_bounded_witness :
  receive_bundle (mkUpload (sample_chunks ++ [("trailing", true)]) None) = inr "bundle".
Proof.
  assert (Hl : upload_of sample_chunks = Some ["bun"; "dle"]) by reflexivity.
  destruct (upload_is_bounded (mkUpload sample_chunks None) "bundle") as [[_ Hok] Hmore].
  transitivity (receive_bundle (mkUpload sample_chunks None)).
  - apply Hmore. by eexists.
  - apply Hok. exists ["bun"; "dle"]. split_and!; [exact Hl|reflexivity|]. apply Z.leb_le. reflexivity.
Defined.

(** ** Retention *)

(** C33. Retention.  Whatever the daemon commits meanwhile, the plan of a pass names
    only what may go: Runs that were finished before the cutoff, had nothing to
    deliver and were not among the [keepRuns] that finished last, with artifacts
    they had; regular archives of the backups directory older than the cutoff with
    [keepBackups] others no older; and plugin versions that were inactive, installed
    before the cutoff and referred to by no installation and no stored plan.  A dry
    run, an empty plan and a failed planning leave the engine, the files and the
    store as planning left them.  Otherwise the engine forgets the planned Runs one
    by one, and files are touched only once the planned rows were deleted in one
    transaction: when a history or the rows cannot be removed no file has changed.
    What is removed then is a registered artifact, a workspace or an artifact
    directory of a planned Run, a planned backup or a planned plugin version, all
    below the state directory, and when the pass succeeds all of these are gone. *)
Theorem retention_removes_only_what_was_planned {cal : Calendar} {dig : Digest} {E F : Type} {fs : FileSystem F} {names_law : NamesLaw}
    {removal_laws : RemovalLaws} (pruner : option (string → E → res unit * E)) root env stateDir before keepRuns keepBackups limit collect plugins
    s (e : E) (f : F) report err s' e' f' :
  Forall ordinary root → path_clean stateDir = absolute root → interference env → reachable s →
  map_Forall (λ run _, ordinary run) (db_runs (others env 0 s)) →
  Retention.Apply pruner env stateDir before keepRuns keepBackups limit collect plugins (s, (e, f)) = ((report, err), (s', (e', f'))) →
  rtc store_step s s' ∧
  let '(planned, w1) := plan env (absolute root) before keepRuns keepBackups limit plugins (s, ((e, f), no_report)) in
  match planned with
  | inl error => (f', e', s', err) = (f, e, w1.1, Some error)
  | inr p => due root before keepRuns keepBackups plugins (others env 0 s) f p ∧
             settled pruner root env collect p w1.1 e f report err s' e' f'
  end.
Proof.
  intros Hroot Hclean He Hs Hu H. pose proof (plan_idle env (absolute root) before keepRuns keepBackups limit plugins He (s, ((e, f), no_report))) as [Hidle _].
  destruct (plan env (absolute root) before keepRuns keepBackups limit plugins (s, ((e, f), no_report))) as [planned w1] eqn:Hplan.
  assert (Hdue : ∀ p, planned = inr p → due root before keepRuns keepBackups plugins (others env 0 s) f p).
  { intros p ->. by eapply plan_due in Hplan. }
  assert (Hok : ∀ p, planned = inr p → plans_ok root p).
  { intros p Hp. eapply due_ok; [| |exact (Hdue p Hp)]; [|exact Hu]. unfold reachable in *. etrans; [exact Hs|apply He]. }
  eapply Apply_planned in H; try eassumption. destruct planned as [error|p]; [split; [injection H as _ _ E' _; rewrite E'; exact Hidle|done]|].
  split; [|by auto]. etrans; [exact Hidle|by eapply settled_evolves].
Qed.

(** A finished Run with an artifact, and what is on the disk. *)
Definition finished : Db := commit (PutArtifact artifact "" now0) s11.
Definition state_file (path : string) (regular : bool) : string * FileInfo := ("/var/lib/orchigram/" +:+ path, mkFileInfo regular false 5 t0).
Definition sample_disk : gmap string FileInfo := list_to_map
  [state_file "artifacts/run-1" false; state_file "artifacts/run-1/raw.log" true; state_file "artifacts/run-2" false;
   state_file "workspaces/run-1" false; state_file "workspaces/run-1/main.go" true; state_file "workspaces/run-2" false;
   state_file "backups" false; state_file "backups/old.tar.gz" true; state_file "backups/notes.txt" true].
Definition pass (collect : bool) : Report * option Err * (Db * (unit * gmap string FileInfo)) :=
  Retention.Apply None quiet_env "/var/lib/orchigram/." (t0 + second) 0 0 100 collect true (finished, (tt, sample_disk)).
Lemma reach_finished : reachable finished.
Proof.
  eapply rtc_r; [|eapply step_artifact, commit_inr; vm_compute; reflexivity].
  eapply rtc_r; [|apply step_s11]. eapply rtc_r; [apply reach_9|apply step_s10].
Qed.
Definition state_directory : list string := ["var"; "lib"; "orchigram"].
Definition sample_plan : res Plans * (Db * ((unit * gmap string FileInfo) * Report)) :=
  plan quiet_env (absolute state_directory) (t0 + second) 0 0 100 true (finished, ((tt, sample_disk), no_report)).
Lemma names_ordinary (names : list string) : forallb ordinary_name names = true → Forall ordinary names.
Proof.
  intros H. apply Forall_forall. intros name Hn. apply forallb_forall with (x := name) in H; [|by apply list_elem_of_In].
  by apply ordinary_name_ok.
Qed.
Lemma finished_names : map_Forall (λ run _, ordinary run) (db_runs finished).
Proof.
  assert (Hk : forallb ordinary_name (fst <$> map_to_list (db_runs finished)) = true) by (vm_compute; reflexivity).
  apply names_ordinary in Hk. rewrite Forall_fmap, Forall_forall in Hk. intros run r Hr. apply (Hk (run, r)). by apply elem_of_map_to_list.
Qed.
Lemma retention_removes_only_what_was_planned_witness :
  (pass false).2.2.2 = sample_disk ∧ rp_runs (pass true).1.1 = 1 ∧
  fst <$> map_to_list (pass true).2.2.2 =
    (λ path, "/var/lib/orchigram/" +:+ path) <$> ["workspaces/run-2"; "artifacts/run-2"; "backups/notes.txt"; "backups"] ∧
  ∃ p, rn_uid <$> tp_runs p = ["run-1"] ∧ length (tp_backups p) = 1%nat ∧
    due state_directory (t0 + second) 0 0 true finished sample_disk p ∧
    settled None state_directory quiet_env true p finished tt sample_disk (pass true).1.1 (pass true).1.2 (pass true).2.1 tt (pass true).2.2.2.
Proof.
  assert (Hroot : Forall ordinary state_directory) by (apply names_ordinary; reflexivity).
  assert (Hclean : path_clean "/var/lib/orchigram/." = absolute state_directory) by (vm_compute; reflexivity).
  split; [vm_compute; reflexivity|]. split; [vm_compute; reflexivity|]. split; [vm_compute; reflexivity|].
  destruct (pass true) as [[report err] [s' [[] f']]] eqn:Hp. cbn [fst snd].
  pose proof (retention_removes_only_what_was_planned None state_directory quiet_env _ _ _ _ _ _ _ _ _ _ _ _ _ _ _
              Hroot Hclean (interference_alone t0 (λ _, "id")) reach_finished finished_names Hp) as H.
  apply proj2 in H. fold sample_plan in H. revert H.
  assert (Hplan : match sample_plan.1 with inr p => rn_uid <$> tp_runs p = ["run-1"] ∧ length (tp_backups p) = 1%nat | inl _ => False end)
    by (vm_compute; split; reflexivity).
  assert (Hstore : sample_plan.2.1 = finished) by (vm_compute; reflexivity).
  revert Hplan Hstore. generalize sample_plan. intros [[error|p] w1] Hplan Hstore; [destruct Hplan|]. cbn [fst snd] in Hplan, Hstore. rewrite Hstore.
  intros [H3 H4]. destruct Hplan as [H1 H2]. exists p. split_and!; [exact H1|exact H2|exact H3|exact H4].
Defined.
