(* ===== verification/Workspace.v ===== *)
(** [internal/process/runner.go] and [internal/workspace/workspace.go]: running git
    for one Run, its checkout and its push.

    A process is what it shows: the chunks it writes, each answered by whether it
    is to be terminated because its output was refused, and how it ends
    ([Process]).  The machine [X] has the files and starts processes; the sink
    of the output is [O].  [filepath.Abs] resolves against the working directory. *)

From Stdlib Require Import Ascii.
From Stdlib Require String.
From S2P Require Import Prelude.
From S2P Require Import Json.
From S2P Require Import GoStd.
From S2P Require Import Redact.
From S2P Require Import Resource.
From S2P Require Import Plan.
From S2P Require Import Db.
From S2P Require Import StorePlugins.
From S2P Require Import ManagerRun.
From S2P Require Import StoreRuns.
From S2P Require Import StoreResources.
From S2P Require Import Retention.
From S2P Require Import ServerPages.
From S2P Require Import ServerHandlers.

Local Open Scope Z_scope.

(** ** Running a process *)

Record ProcessSpec := mkProcess {
  ps_executable : string; ps_args : list string; ps_directory : string; ps_environment : gmap string string; ps_captureLimit : Z }.
Record Output := mkOutput { po_stream : string; po_data : string }.
Record ProcessResult := mkProcessResult { pr_exitCode : Z; pr_stdout : string; pr_stderr : string; pr_outcome : string }.
Definition no_process : ProcessResult := mkProcessResult 0 "" "" "".
(** [wait]: the error of [Wait], an exit status or another; [cancelled] is the
    outcome that a cancellation or a refused output left. *)
Inductive Process (X : Type) :=
  | Ended (exitCode : Z) (wait : option (option string)) (cancelled : string) (machine : X)
  | Wrote (output : Output) (next : bool → Process X).
Arguments Ended {X}. Arguments Wrote {X}.

Definition defaultCaptureLimit : Z := 4194304.
(** [limitedBuffer.Write]. *)
Definition capture (limit : Z) (buffer data : string) : string :=
  let remaining := limit - Z.of_nat (String.length buffer) in
  if 0 <? remaining then buffer +:+ String.substring 0 (Z.to_nat remaining) data else buffer.
(** [MinimalEnvironment] of a base alone: the entries an environment can hold. *)
Definition nul : ascii := Ascii.ascii_of_nat 0.
Definition environment_entry (kv : string * string) : Prop :=
  kv.1 ≠ "" ∧ forallb (λ c, negb (Ascii.eqb c "=" || Ascii.eqb c nul)) (explode kv.1) = true ∧ forallb (λ c, negb (Ascii.eqb c nul)) (explode kv.2) = true.
#[export] Instance environment_entry_dec kv : Decision (environment_entry kv) := _.
Definition MinimalEnvironment (base : gmap string string) : gmap string string := filter environment_entry base.

Class Machine (X : Type) := {
  start_process : ProcessSpec → X → string + Process X;
  ws_MkdirAll : string → X → option string * X;
  (** [os.Stat]: exists, does not exist, or an error *)
  ws_Stat : string → X → FsError + unit;
  ws_ReadDir : string → X → FsError + list string;
  ws_Getwd : string + string }.
Class UrlParser := url_Parse : string → option (string * string * bool).

Definition unknown {W A} (e : string) : Handler W A := reject Unknown e.
Abbreviation Emitter O := (option (Output → O → option string * O)).

Section Runner.
Context {X O : Type} {machine : Machine X}.
Abbreviation W := (X * O)%type.

(** The copied output and the end: [failed] is the first error of the sink. *)
Fixpoint run_process (limit : Z) (emit : Emitter O) (p : Process X) (out err : string) (failed : option string) (o : O)
    : ProcessResult * option string * option (option string) * W :=
  match p with
  | Ended exitCode wait cancelled x =>
      (mkProcessResult exitCode out err (if String.eqb cancelled "" then "exited" else cancelled), failed, wait, (x, o))
  | Wrote output next =>
      let stdout := String.eqb (po_stream output) "stdout" in
      let out := if stdout then capture limit out (po_data output) else out in
      let err := if stdout then err else capture limit err (po_data output) in
      match emit, failed with
      | Some emit, None =>
          let '(e, o) := emit output o in
          run_process limit (Some emit) (next (bool_decide (is_Some e))) out err e o
      | _, _ => run_process limit emit (next (bool_decide (is_Some failed))) out err failed o
      end
  end.
(** [Runner.Run]; [active] holds the requests being run. *)
Definition Run (active : gset string) (request : string) (spec : ProcessSpec) (emit : Emitter O) (w : W) : (ProcessResult * option string) * W :=
  if String.eqb request "" then (no_process, Some "request ID is required", w)
  else if String.eqb (ps_executable spec) "" then (no_process, Some "executable is required", w)
  else if bool_decide (request ∈ active) then (no_process, Some ("request " +:+ quoted request +:+ " is already running"), w)
  else match start_process spec w.1 with
       | inl e => (no_process, Some ("start " +:+ ps_executable spec +:+ ": " +:+ e), w)
       | inr p =>
           let limit := if ps_captureLimit spec <=? 0 then defaultCaptureLimit else ps_captureLimit spec in
           let '(result, failed, wait, w) := run_process limit emit p "" "" None w.2 in
           (result, match failed, wait with
                    | Some e, _ => Some e
                    | None, Some None => Some ("process exited with status " +:+ itoa (pr_exitCode result))
                    | None, Some (Some e) => Some e
                    | None, None => None
                    end, w)
       end.
End Runner.

(** ** Git *)

Definition std_char (c : ascii) : ascii := if Ascii.eqb c "-" then "+"%char else if Ascii.eqb c "_" then "/"%char else c.
(** [base64.StdEncoding]: the other alphabet, and padding. *)
Definition StdEncoding (s : string) : string :=
  let text := std_char <$> explode (EncodeToString s) in
  implode (text ++ replicate ((4 - length text mod 4) mod 4) "="%char).
Definition githubBasicCredential (token : string) : string := "Basic " +:+ StdEncoding ("x-access-token:" +:+ token).
Definition bytesReplace (value old replacement : string) : string :=
  if String.eqb old "" then value else ReplaceAll value old replacement.
Definition redactGitOutput (value token : string) : string :=
  let redacted := bytesReplace value token mark in
  if String.eqb token "" then redacted else bytesReplace redacted (githubBasicCredential token) mark.

Definition identity_char (c : ascii) : bool :=
  let b := byte c in is_digit c || ((65 <=? b) && (b <=? 90)) || ((97 <=? b) && (b <=? 122)).
Definition safeIdentity (s : string) : bool :=
  match s with
  | String c rest => identity_char c && (String.length rest <=? 127)%nat &&
      forallb (λ c, identity_char c || existsb (Ascii.eqb c) (explode "._-")) (explode rest)
  | EmptyString => false
  end.
Definition shortID (value : string) : string :=
  let value := ReplaceAll value "-" "" in if 8 <? Z.of_nat (String.length value) then String.substring 0 8 value else value.
Definition ensureWithin (root target : string) : string + unit :=
  let relative := filepath_Rel root target in
  if String.eqb relative "." || escapes relative then inl "workspace path escapes its configured root" else inr tt.

Record CheckoutRequest := mkCheckout {
  co_request : string; co_run : string; co_cloneURL : string; co_defaultBranch : string; co_issue : Z; co_token : string }.
Record CheckoutResult := mkCheckoutResult { cr_path : string; cr_branch : string }.
Record CommitRequest := mkCommit { cq_request : string; cq_path : string; cq_branch : string; cq_message : string; cq_token : string }.
Record CommitResult := mkCommitResult { cs_branch : string; cs_commit : string; cs_noChange : bool }.
Definition branch_of (issue : Z) (run : string) : string := "orchigram/issue-" +:+ itoa issue +:+ "-" +:+ shortID run.

Section Manager.
Context {X O : Type} {machine : Machine X} {urls : UrlParser} {host : Host} (root : string) (active : gset string).
Abbreviation W := (X * O)%type.

Definition filepath_Abs (path : string) : string + string :=
  if path_is_abs path then inr (path_clean path) else
  match ws_Getwd with inl e => inl e | inr directory => inr (filepath_Join [directory; path]) end.

Definition git_environment (token : string) : gmap string string :=
  let add key base := match LookupEnv key with
                      | Some value => if String.eqb value "" then base else <[key := value]> base
                      | None => base
                      end in
  let base := add "SSL_CERT_DIR" (add "SSL_CERT_FILE" (add "TMPDIR" (add "HOME"
    {["PATH" := "/usr/local/bin:/usr/bin:/bin:/opt/homebrew/bin"; "LANG" := "C.UTF-8"]}))) in
  if String.eqb token "" then base else
  <["GIT_TERMINAL_PROMPT" := "0"]> (<["GIT_CONFIG_VALUE_0" := "Authorization: " +:+ githubBasicCredential token]>
    (<["GIT_CONFIG_KEY_0" := "http.extraHeader"]> (<["GIT_CONFIG_COUNT" := "1"]> base))).
Definition safe_emit (token : string) (emit : Emitter O) : Emitter O :=
  match emit with
  | None => None
  | Some emit => if String.eqb token "" then Some emit
                 else Some (λ output, emit (mkOutput (po_stream output) (redactGitOutput (po_data output) token)))
  end.
(** The redacted standard output. *)
Definition gitResult (request directory token : string) (emit : Emitter O) (args : list string) : Handler W string := λ w,
  let '(result, failed, w) :=
    Run active request (mkProcess "git" args directory (MinimalEnvironment (git_environment token)) 0) (safe_emit token emit) w in
  match failed with
  | Some e => unknown ("git " +:+ join " " args +:+ ": " +:+ e) w
  | None => (inr (if String.eqb token "" then pr_stdout result else redactGitOutput (pr_stdout result) token), w)
  end.
Definition git request directory token emit args : Handler W unit := gitResult request directory token emit args ≫= λ _, mret tt.

Definition plain_error {A} (r : string + A) : Handler W A := match r with inl e => unknown e | inr a => mret a end.
Definition fs_text (e : FsError) : string := match e with NotExist => "file does not exist" | FsFailed message => message end.
(** The first clone of the directory, or its reset to the default branch. *)
Definition clone_workspace (request : CheckoutRequest) (defaultBranch directory branch : string) (emit : Emitter O) : Handler W unit :=
  entries ← (λ w, (inr (ws_ReadDir directory w.1), w));
  if match entries with inr (_ :: _) => true | _ => false end then unknown "workspace exists but is not a git checkout" else
  git (co_request request) "" (co_token request) emit
    ["clone"; "--no-tags"; "--single-branch"; "--branch"; defaultBranch; co_cloneURL request; directory] ≫= λ _,
  git (co_request request) directory (co_token request) emit ["checkout"; "-b"; branch].
Definition reset_workspace (request : CheckoutRequest) (defaultBranch directory branch : string) (emit : Emitter O) : Handler W unit :=
  let run := git (co_request request) directory (co_token request) emit in
  run ["fetch"; "--prune"; "origin"; defaultBranch] ≫= λ _,
  run ["checkout"; "-B"; branch; "origin/" +:+ defaultBranch] ≫= λ _,
  run ["reset"; "--hard"; "origin/" +:+ defaultBranch] ≫= λ _,
  run ["clean"; "-fdx"].
Definition check_clone_url (cloneURL : string) : string + unit :=
  match url_Parse cloneURL with
  | None => inl "clone URL is invalid"
  | Some (scheme, _, userinfo) =>
      if (String.eqb scheme "http" || String.eqb scheme "https") && userinfo then inl "HTTP(S) clone URL must not contain userinfo" else inr tt
  end.
Definition workspace_root : string + string :=
  match filepath_Abs root with
  | inl _ => inl "safe absolute workspace root is required"
  | inr path => if String.eqb path "." || String.eqb path "/" then inl "safe absolute workspace root is required" else inr path
  end.
Definition Checkout (request : CheckoutRequest) (emit : Emitter O) : Handler W CheckoutResult :=
  if negb (safeIdentity (co_run request)) || String.eqb (co_cloneURL request) "" || (co_issue request <=? 0)
  then unknown "run UID, clone URL, and positive issue number are required" else
  let defaultBranch := valueOr (co_defaultBranch request) "main" in
  if negb (safeIdentity defaultBranch) then unknown "default branch contains unsupported characters" else
  plain_error (check_clone_url (co_cloneURL request)) ≫= λ _,
  root ← plain_error workspace_root;
  (λ w, let '(e, x) := ws_MkdirAll root w.1 in (match e with Some e => inl (mkStatus Unknown e) | None => inr tt end, (x, w.2))) ≫= λ _,
  let directory := filepath_Join [root; co_run request] in
  plain_error (ensureWithin root directory) ≫= λ _,
  let branch := branch_of (co_issue request) (co_run request) in
  present ← (λ w, (inr (ws_Stat (filepath_Join [directory; ".git"]) w.1), w));
  match present with
  | inl NotExist => clone_workspace request defaultBranch directory branch emit
  | inl e => unknown (fs_text e)
  | inr _ => reset_workspace request defaultBranch directory branch emit
  end ≫= λ _,
  mret (mkCheckoutResult directory branch).

Definition CommitPush (request : CommitRequest) (emit : Emitter O) : Handler W CommitResult :=
  root ← plain_error (filepath_Abs root);
  directory ← plain_error (filepath_Abs (cq_path request));
  plain_error (ensureWithin root directory) ≫= λ _,
  if negb (has_prefix (cq_branch request) "orchigram/issue-") || String.eqb (cq_message request) ""
  then unknown "deterministic Orchigram branch and commit message are required" else
  let run := gitResult (cq_request request) directory (cq_token request) emit in
  changes ← run ["status"; "--porcelain"];
  let noChange := String.eqb (trim_space changes) "" in
  (if noChange then mret tt else
   run ["add"; "--all"] ≫= λ _,
   run ["-c"; "user.name=Orchigram"; "-c"; "user.email=orchigram@localhost"; "commit"; "-m"; cq_message request] ≫= λ _, mret tt) ≫= λ _,
  run ["push"; "--set-upstream"; "origin"; "HEAD:refs/heads/" +:+ cq_branch request] ≫= λ _,
  head ← run ["rev-parse"; "HEAD"];
  mret (mkCommitResult (cq_branch request) (trim_space head) noChange).
End Manager.
