(* ===== verification/GithubApi.v ===== *)
(** [internal/githubplugin/github.go], the GitHub client: configuration, secrets,
    requests with retries, decoded answers and pagination links.

    GitHub is [GithubService]: any state [G] that answers requests, with the clock
    and the waiting of the plugin's context.  [url.Parse] is [UrlParser] of Workspace.  An error
    that carries no gRPC status is [Unknown]; the texts of encoding/json errors are
    left out. *)

From Stdlib Require Import Ascii.
From Stdlib Require String.
From S2P Require Import Prelude.
From S2P Require Import Json.
From S2P Require Import GoStd.
From S2P Require Import Resource.
From S2P Require Import Plan.
From S2P Require Import ActionContract.
From S2P Require Import PluginMapping.
From S2P Require Import PluginContract.
From S2P Require Import Db.
From S2P Require Import StorePlugins.
From S2P Require Import PluginBundle.
From S2P Require Import ServerPages.
From S2P Require Import ServerHandlers.
From S2P Require Import Workspace.

Local Open Scope Z_scope.

(** ** Decoding into structs *)

Definition raw_bool (old : bool) (raw : string) : option bool :=
  v ← parse raw; match v with JBool b => Some b | JNull => Some old | _ => None end.
(** An [int] or [int64]. *)
Definition raw_int (old : Z) (raw : string) : option Z :=
  v ← parse raw; match v with JNum l => atoi l | JNull => Some old | _ => None end.
Definition raw_pointer {A} (f : string → option A) (raw : string) : option (option A) :=
  v ← parse raw; match v with JNull => Some None | _ => a ← f raw; Some (Some a) end.

(** [time.Time.UnmarshalJSON]: RFC 3339, as an instant. *)
Definition days_from_civil (y m d : Z) : Z :=
  let y := if m <=? 2 then y - 1 else y in
  let era := y / 400 in
  let yoe := y mod 400 in
  let doy := (153 * (if 2 <? m then m - 3 else m + 9) + 2) / 5 + d - 1 in
  let doe := yoe * 365 + yoe / 4 - yoe / 100 + doy in
  era * 146097 + doe - 719468.
Definition leap (y : Z) : bool := (y mod 4 =? 0) && (negb (y mod 100 =? 0) || (y mod 400 =? 0)).
Definition days_in (y m : Z) : Z :=
  if m =? 2 then (if leap y then 29 else 28)
  else if (m =? 4) || (m =? 6) || (m =? 9) || (m =? 11) then 30 else 31.
(** [width] digits between two bounds, then the text [after]. *)
Definition field (width : nat) (lo hi : Z) (stop : string) (s : string) : option (Z * string) :=
  v ← digits_val (explode (String.substring 0 width s)) 0;
  if (String.length s <? width)%nat || (v <? lo) || (hi <? v) then None else
  rest ← strip_prefix stop (String.substring width (String.length s) s);
  Some (v, rest).
(** The digits of a fraction: at least one, nine count. *)
Fixpoint fraction_digits (s : string) (n : nat) (acc : Z) : Z * string :=
  match s with
  | String c rest =>
      if is_digit c then match n with
                         | O => fraction_digits rest O acc
                         | S n => fraction_digits rest n (acc * 10 + (byte c - 48))
                         end
      else (acc * 10 ^ Z.of_nat n, s)
  | EmptyString => (acc * 10 ^ Z.of_nat n, s)
  end.
Definition parse_fraction (s : string) : option (Z * string) :=
  match s with
  | String c (String d _ as rest) => if Ascii.eqb c "." then if is_digit d then Some (fraction_digits rest 9 0) else None else Some (0, s)
  | String c EmptyString => if Ascii.eqb c "." then None else Some (0, s)
  | EmptyString => Some (0, s)
  end.
(** The offset in seconds. *)
Definition parse_zone (s : string) : option Z :=
  if String.eqb s "Z" then Some 0 else
  match s with
  | String c rest =>
      if negb (Ascii.eqb c "+" || Ascii.eqb c "-") then None else
      '(hours, rest) ← field 2 0 23 ":" rest;
      '(minutes, rest) ← field 2 0 59 "" rest;
      if String.eqb rest "" then
        let offset := hours * 3600 + minutes * 60 in
        Some (if Ascii.eqb c "-" then - offset else offset)
      else None
  | EmptyString => None
  end.
Definition time_parse (s : string) : option Z :=
  '(y, s) ← field 4 0 9999 "-" s;
  '(m, s) ← field 2 1 12 "-" s;
  '(d, s) ← field 2 1 (days_in y m) "T" s;
  '(h, s) ← field 2 0 23 ":" s;
  '(mi, s) ← field 2 0 59 ":" s;
  '(sec, s) ← field 2 0 59 "" s;
  '(nanos, s) ← parse_fraction s;
  offset ← parse_zone s;
  Some ((days_from_civil y m d * 86400 + h * 3600 + mi * 60 + sec - offset) * second + nanos).
Definition raw_time (old : Z) (raw : string) : option Z :=
  v ← parse raw; match v with JStr s => time_parse s | JNull => Some old | _ => None end.

(** [strings.ToLower] and [strings.ToUpper] on ASCII text. *)
Definition ascii_upper (c : ascii) : ascii := if (97 <=? byte c) && (byte c <=? 122) then Ascii.ascii_of_nat (Z.to_nat (byte c - 32)) else c.
Definition ToLower (s : string) : string := implode (lower <$> explode s).
Definition ToUpper (s : string) : string := implode (ascii_upper <$> explode s).

(** ** Configuration *)

Record repositoryConfig := mkRepositoryConfig { gc_owner : string; gc_repository : string; gc_apiBase : string; gc_tokenSecret : string }.
Definition no_repository : repositoryConfig := mkRepositoryConfig "" "" "" "".
(** A field of the embedded struct, or [None] when the name is none of its. *)
Definition repository_field (c : repositoryConfig) (name raw : string) : option (option repositoryConfig) :=
  let '(mkRepositoryConfig o r a t) := c in
  if String.eqb name "owner" then Some (v ← raw_string o raw; Some (mkRepositoryConfig v r a t))
  else if String.eqb name "repository" then Some (v ← raw_string r raw; Some (mkRepositoryConfig o v a t))
  else if String.eqb name "apibase" then Some (v ← raw_string a raw; Some (mkRepositoryConfig o r v t))
  else if String.eqb name "tokensecret" then Some (v ← raw_string t raw; Some (mkRepositoryConfig o r a v))
  else None.
(** [decodeStrict]: the first value of the text; a field must be known. *)
Definition decodeStrict {A} (field : A → string → string → option A) (zero : A) (data : string) : rpc A :=
  match (_ ← decode_stream data; decode_struct field zero data) with
  | Some a => inr a
  | None => inl (mkStatus InvalidArgument "decode configuration")
  end.

Definition defaultAPIBase : string := "https://api.github.com".
Fixpoint trim_slashes (l : list ascii) : list ascii :=
  match l with c :: l' => if Ascii.eqb c "/" then trim_slashes l' else l | [] => [] end.
Definition apiBase (value : string) : string :=
  if String.eqb value "" then defaultAPIBase else implode (rev (trim_slashes (rev (explode value)))).
(** [url.PathEscape]. *)
Definition path_char (c : ascii) : bool :=
  let b := byte c in
  is_digit c || ((65 <=? b) && (b <=? 90)) || ((97 <=? b) && (b <=? 122)) || existsb (Ascii.eqb c) (explode "-_.~$&+=:@").
Definition hex_upper (n : Z) : ascii := Ascii.ascii_of_nat (Z.to_nat (if n <? 10 then 48 + n else 55 + n)).
Definition PathEscape (s : string) : string :=
  implode (explode s ≫= λ c, if path_char c then [c] else ["%"%char; hex_upper (byte c / 16); hex_upper (byte c mod 16)]).

Definition validateRepository {urls : UrlParser} (config : repositoryConfig) : string + unit :=
  if String.eqb (gc_owner config) "" || String.eqb (gc_repository config) "" || String.eqb (gc_tokenSecret config) ""
  then inl "owner, repository, and tokenSecret are required" else
  match url_Parse (apiBase (gc_apiBase config)) with
  | Some (scheme, host, _) =>
      if (negb (String.eqb scheme "http") && negb (String.eqb scheme "https")) || String.eqb host ""
      then inl "apiBase must use http or https" else inr tt
  | None => inl "apiBase must use http or https"
  end.
Definition secret (values : gmap string string) (name : string) : string + string :=
  if String.eqb name "" then inl "tokenSecret is required" else
  match values !! name with
  | Some value => if String.eqb value "" then inl ("secret " +:+ quoted name +:+ " is missing") else inr value
  | None => inl ("secret " +:+ quoted name +:+ " is missing")
  end.
(** [/repos/OWNER/REPOSITORY] *)
Definition repository_url (config : repositoryConfig) (path : string) : string :=
  apiBase (gc_apiBase config) +:+ "/repos/" +:+ PathEscape (gc_owner config) +:+ "/" +:+ PathEscape (gc_repository config) +:+ path.
Definition invalid_argument {W A} (r : string + A) : Handler W A :=
  lift_rpc match r with inl e => inl (mkStatus InvalidArgument e) | inr a => inr a end.

(** ** Requests *)

Record GithubResponse := mkGithubResponse {
  gr_status : Z; gr_link : string; gr_remaining : string; gr_retryAfter : string; gr_reset : string; gr_body : RpcStatus + string }.
Class GithubService (G : Type) := {
  (** method, endpoint, token and body; an error of the transport is a text *)
  gh_do : string → string → string → string → G → (string + GithubResponse) * G;
  gh_now : G → Z;
  (** waiting for a while: the error of the context when it ends first *)
  gh_wait : Z → G → option RpcStatus * G;
  (** [http.StatusText] *)
  status_text : Z → string }.

Definition maxResponse : Z := 4194304.
Definition contains (needle s : string) : bool := existsb (λ i, has_prefix (String.substring i (String.length s) s) needle) (seq 0 (S (String.length s))).
(** [strings.Trim(s, "<>")] *)
Definition trim_brackets : string → string := trim_with (λ c, Ascii.eqb c "<" || Ascii.eqb c ">").
Fixpoint next_of (parts : list string) : string :=
  match parts with
  | [] => ""
  | part :: parts =>
      match split_on ";"%char part with
      | target :: relation :: _ => if contains ("rel=" +:+ quoted "next") relation then trim_brackets (trim_space target) else next_of parts
      | _ => next_of parts
      end
  end.
Definition nextLink (header : string) : string := next_of (split_on ","%char header).

(** Durations and instants are 64 bits wide: the product and the sum wrap. *)
Definition int64 (z : Z) : Z := (z + 2 ^ 63) mod 2 ^ 64 - 2 ^ 63.
Definition unixToInternal : Z := 62135596800.
Definition saturated (z : Z) : Z := Z.max (- 2 ^ 63) (Z.min max_int64 z).
Definition millisecond : Z := 1000000.
Definition reset_delay (now : Z) (reset : string) : Z :=
  match atoi reset with
  | Some reset =>
      if 0 <? reset then Z.min (Z.max (saturated ((int64 (reset + unixToInternal) - unixToInternal) * second - now)) (10 * millisecond)) second
      else 10 * millisecond
  | None => 10 * millisecond
  end.
Definition retryDelay (now : Z) (response : GithubResponse) : Z :=
  match atoi (gr_retryAfter response) with
  | Some seconds => if 0 <? seconds then Z.min (int64 (seconds * second)) second else reset_delay now (gr_reset response)
  | None => reset_delay now (gr_reset response)
  end.
Definition message_field (m name raw : string) : option string := if String.eqb name "message" then raw_string m raw else Some m.
Definition decodeLimited {A} (decode : string → option A) (body : RpcStatus + string) : rpc A :=
  match body with
  | inl e => inl e
  | inr data =>
      if maxResponse <? Z.of_nat (String.length data) then inl (mkStatus ResourceExhausted "GitHub response exceeds 4 MiB")
      else match (_ ← parse data; decode data) with
           | Some a => inr a
           | None => inl (mkStatus Internal "GitHub returned malformed JSON")
           end
  end.

Section Client.
Context {G : Type} {github : GithubService G}.

Definition do_request (method endpoint token body : string) : Handler G GithubResponse := λ g,
  let '(r, g) := gh_do method endpoint token body g in
  (match r with inl e => inl (mkStatus Unavailable e) | inr response => inr response end, g).
Definition githubStatus (response : GithubResponse) : RpcStatus :=
  let data := match gr_body response with inr data => String.substring 0 4096 data | inl _ => "" end in
  let message := default "" (_ ← parse data; decode_struct message_field "" data) in
  let message := if String.eqb message "" then status_text (gr_status response) else message in
  let code := if 500 <=? gr_status response then Unavailable else FailedPrecondition in
  let code := if (gr_status response =? 401) || (gr_status response =? 403) then PermissionDenied else code in
  mkStatus code ("GitHub API status " +:+ itoa (gr_status response) +:+ ": " +:+ message).
Definition succeeded (response : GithubResponse) : bool := (200 <=? gr_status response) && (gr_status response <? 300).
Definition rate_limited (response : GithubResponse) : bool :=
  (gr_status response =? 429) || ((gr_status response =? 403) && String.eqb (gr_remaining response) "0").

(** [n] attempts are left. *)
Fixpoint get_response (n : nat) (endpoint token : string) : Handler G GithubResponse :=
  match n with
  | O => reject ResourceExhausted "GitHub API rate limit persisted after retries"
  | S n =>
      response ← do_request "GET" endpoint token "";
      if negb (rate_limited response) then mret response else
      match n with
      | O => reject ResourceExhausted "GitHub API rate limit persisted after retries"
      | S _ =>
          (λ g, let '(ended, g) := gh_wait (retryDelay (gh_now g) response) g in
                (match ended with Some e => inl e | None => inr tt end, g)) ≫= λ _,
          get_response n endpoint token
      end
  end.
(** The target and the [Link] header. *)
Definition getJSON {A} (decode : string → option A) (endpoint token : string) : Handler G (A * string) :=
  response ← get_response 3 endpoint token;
  if negb (succeeded response) then refuse (githubStatus response) else
  value ← lift_rpc (decodeLimited decode (gr_body response));
  mret (value, gr_link response).
Definition mutateJSON {A} (decode : string → option A) (method endpoint token payload : string) : Handler G A :=
  response ← do_request method endpoint token payload;
  if negb (succeeded response) then refuse (githubStatus response)
  else lift_rpc (decodeLimited decode (gr_body response)).

(** At most [n] pages, each added to [found]; whether pages are left. *)
Fixpoint walk_pages {A S} (n : nat) (decode : string → option A) (add : S → A → Handler G S) (next token : string) (found : S) : Handler G (S * bool) :=
  if String.eqb next "" then mret (found, false) else
  match n with
  | O => mret (found, true)
  | S n =>
      page ← getJSON decode next token;
      found ← add found page.1;
      walk_pages n decode add (nextLink page.2) token found
  end.
Fixpoint add_items {A B} (item : A → Handler G (list B)) (found : list B) (l : list A) : Handler G (list B) :=
  match l with
  | [] => mret found
  | a :: l => b ← item a; add_items item (found ++ b) l
  end.
Definition pages {A B} (n : nat) (decode : string → option (list A)) (item : A → Handler G (list B)) (next token : string) : Handler G (list B * bool) :=
  walk_pages n decode (add_items item) next token [].
End Client.
