(* ===== verification/GithubWatch.v ===== *)
(** [internal/githubplugin/github.go], the TriggerProvider: the two sources, what
    they list, the cursors, and the protocol of one acknowledgement per event.

    The daemon's end of the stream is [TriggerStream]; a watch is a list of polls,
    [waited] telling how the wait after each of them ends. *)

From Stdlib Require Import Ascii.
From Stdlib Require String.
From S2P Require Import Prelude.
From S2P Require Import Json.
From S2P Require Import GoStd.
From S2P Require Import Resource.
From S2P Require Import Plan.
From S2P Require Import PluginContract.
From S2P Require Import FlowCompiler.
From S2P Require Import Db.
From S2P Require Import StorePlugins.
From S2P Require Import ServerPages.
From S2P Require Import ServerHandlers.
From S2P Require Import Workspace.
From S2P Require Import GithubApi.

Local Open Scope Z_scope.

(** ** Records of the API *)

Record issue := mkIssue { is_number : Z; is_title : string; is_body : string; is_url : string; is_state : string }.
Definition no_issue : issue := mkIssue 0 "" "" "" "".
Definition issue_field (i : issue) (name raw : string) : option issue :=
  let '(mkIssue n t b u s) := i in
  if String.eqb name "number" then v ← raw_int n raw; Some (mkIssue v t b u s)
  else if String.eqb name "title" then v ← raw_string t raw; Some (mkIssue n v b u s)
  else if String.eqb name "body" then v ← raw_string b raw; Some (mkIssue n t v u s)
  else if String.eqb name "html_url" then v ← raw_string u raw; Some (mkIssue n t b v s)
  else if String.eqb name "state" then v ← raw_string s raw; Some (mkIssue n t b u v)
  else Some i.
Definition decode_issue : string → option issue := decode_struct issue_field no_issue.
(** A struct of one text field, such as [label.name], [head.sha], [user.login]. *)
Definition text_field (key : string) (old name raw : string) : option string :=
  if String.eqb name key then raw_string old raw else Some old.

Record issueEvent := mkIssueEvent {
  ie_id : Z; ie_event : string; ie_issueURL : string; ie_issue : option issue; ie_created : Z; ie_label : string }.
Definition issueEvent_field (e : issueEvent) (name raw : string) : option issueEvent :=
  let '(mkIssueEvent i ev u it c l) := e in
  if String.eqb name "id" then v ← raw_int i raw; Some (mkIssueEvent v ev u it c l)
  else if String.eqb name "event" then v ← raw_string ev raw; Some (mkIssueEvent i v u it c l)
  else if String.eqb name "issue_url" then v ← raw_string u raw; Some (mkIssueEvent i ev v it c l)
  else if String.eqb name "issue" then v ← raw_pointer (decode_struct issue_field (default no_issue it)) raw; Some (mkIssueEvent i ev u v c l)
  else if String.eqb name "created_at" then v ← raw_time c raw; Some (mkIssueEvent i ev u it v l)
  else if String.eqb name "label" then v ← decode_struct (text_field "name") l raw; Some (mkIssueEvent i ev u it c v)
  else Some e.
Definition decode_issueEvents : string → option (list issueEvent) :=
  raw_list (decode_struct issueEvent_field (mkIssueEvent 0 "" "" None zero_time "")).

Record pullRecord := mkPull { pu_number : Z; pu_url : string; pu_body : string; pu_state : string; pu_sha : string }.
Definition pull_field (p : pullRecord) (name raw : string) : option pullRecord :=
  let '(mkPull n u b s h) := p in
  if String.eqb name "number" then v ← raw_int n raw; Some (mkPull v u b s h)
  else if String.eqb name "html_url" then v ← raw_string u raw; Some (mkPull n v b s h)
  else if String.eqb name "body" then v ← raw_string b raw; Some (mkPull n u v s h)
  else if String.eqb name "state" then v ← raw_string s raw; Some (mkPull n u b v h)
  else if String.eqb name "head" then v ← decode_struct (text_field "sha") h raw; Some (mkPull n u b s v)
  else Some p.
Definition decode_pulls : string → option (list pullRecord) := raw_list (decode_struct pull_field (mkPull 0 "" "" "" "")).

Record reviewRecord := mkReview { rv_id : Z; rv_state : string; rv_body : string; rv_submitted : Z; rv_commit : string; rv_login : string }.
Definition review_field (r : reviewRecord) (name raw : string) : option reviewRecord :=
  let '(mkReview i s b t c l) := r in
  if String.eqb name "id" then v ← raw_int i raw; Some (mkReview v s b t c l)
  else if String.eqb name "state" then v ← raw_string s raw; Some (mkReview i v b t c l)
  else if String.eqb name "body" then v ← raw_string b raw; Some (mkReview i s v t c l)
  else if String.eqb name "submitted_at" then v ← raw_time t raw; Some (mkReview i s b v c l)
  else if String.eqb name "commit_id" then v ← raw_string c raw; Some (mkReview i s b t v l)
  else if String.eqb name "user" then v ← decode_struct (text_field "login") l raw; Some (mkReview i s b t c v)
  else Some r.
Definition decode_reviews : string → option (list reviewRecord) := raw_list (decode_struct review_field (mkReview 0 "" "" zero_time "" "")).

Record reviewComment := mkReviewComment {
  cm_id : Z; cm_body : string; cm_path : string; cm_line : option Z; cm_originalLine : option Z; cm_side : string; cm_subject : string; cm_url : string }.
Definition comment_field (c : reviewComment) (name raw : string) : option reviewComment :=
  let '(mkReviewComment i b p l o s t u) := c in
  if String.eqb name "id" then v ← raw_int i raw; Some (mkReviewComment v b p l o s t u)
  else if String.eqb name "body" then v ← raw_string b raw; Some (mkReviewComment i v p l o s t u)
  else if String.eqb name "path" then v ← raw_string p raw; Some (mkReviewComment i b v l o s t u)
  else if String.eqb name "line" then v ← raw_pointer (raw_int 0) raw; Some (mkReviewComment i b p v o s t u)
  else if String.eqb name "original_line" then v ← raw_pointer (raw_int 0) raw; Some (mkReviewComment i b p l v s t u)
  else if String.eqb name "side" then v ← raw_string s raw; Some (mkReviewComment i b p l o v t u)
  else if String.eqb name "subject_type" then v ← raw_string t raw; Some (mkReviewComment i b p l o s v u)
  else if String.eqb name "html_url" then v ← raw_string u raw; Some (mkReviewComment i b p l o s t v)
  else Some c.
Definition decode_comments : string → option (list reviewComment) :=
  raw_list (decode_struct comment_field (mkReviewComment 0 "" "" None None "" "" "")).

(** ** Cursors and activation *)

Definition parseCursor (value : string) : string + Z :=
  if String.eqb value "" then inr 0 else
  match atoi value with
  | Some cursor => if cursor <? 0 then inl "GitHub cursor must be a non-negative event ID" else inr cursor
  | None => inl "GitHub cursor must be a non-negative event ID"
  end.

Record reviewCursor := mkReviewCursor { vc_submitted : Z; vc_id : Z }.
Definition no_cursor : reviewCursor := mkReviewCursor zero_time 0.
Definition cursor_field (c : reviewCursor) (name raw : string) : option reviewCursor :=
  if String.eqb name "submittedat" then v ← raw_time (vc_submitted c) raw; Some (mkReviewCursor v (vc_id c))
  else if String.eqb name "reviewid" then v ← raw_int (vc_id c) raw; Some (mkReviewCursor (vc_submitted c) v)
  else Some c.
Definition parseReviewCursor (value : string) : string + reviewCursor :=
  if String.eqb value "" then inr no_cursor else
  let wrong := "GitHub review cursor must contain a submitted timestamp and positive review ID" in
  match (_ ← parse value; decode_struct cursor_field no_cursor value) with
  | Some cursor => if (vc_submitted cursor =? zero_time) || (vc_id cursor <=? 0) then inl wrong else inr cursor
  | None => inl wrong
  end.
(** [time.Time.MarshalJSON] refuses years of more than four digits. *)
Definition year_of (t : Z) : Z := (civil_from_days (t / second / 86400)).1.1.
Definition encodeReviewCursor (cursor : reviewCursor) : rpc string :=
  if (year_of (vc_submitted cursor) <? 0) || (9999 <? year_of (vc_submitted cursor)) then inl (mkStatus Unknown "json: error calling MarshalJSON for type time.Time")
  else inr (object_text [("submittedAt", quoted (rfc3339nano (vc_submitted cursor))); ("reviewID", itoa (vc_id cursor))]).
Definition reviewCursorAfter (candidate cursor : reviewCursor) : bool :=
  (vc_submitted cursor =? zero_time) || (vc_submitted cursor <? vc_submitted candidate) ||
  ((vc_submitted candidate =? vc_submitted cursor) && (vc_id cursor <? vc_id candidate)).

(** [start.ActivatedAt]: missing, or a timestamp that may be invalid. *)
Record GithubStart := mkGithubStart {
  gs_source : string; gs_config : string; gs_secrets : gmap string string; gs_cursor : string; gs_activatedAt : option (option Z) }.
Definition providerActivation (start : GithubStart) (replayExisting hasCursor : bool) : rpc Z :=
  match gs_activatedAt start with
  | Some None => inl (mkStatus InvalidArgument "activated_at must be a valid timestamp")
  | activatedAt =>
      if replayExisting || hasCursor then inr zero_time else
      match activatedAt with
      | Some (Some t) => inr t
      | _ => inl (mkStatus FailedPrecondition "activated_at is required for an empty-cursor non-replay subscription")
      end
  end.
Definition providerPollInterval (value : string) : rpc Z :=
  if String.eqb value "" then inr (30 * second) else
  match time_ParseDuration value with
  | Some interval => if interval <=? 0 then inl (mkStatus InvalidArgument "pollInterval must be positive") else inr interval
  | None => inl (mkStatus InvalidArgument "pollInterval must be positive")
  end.
Definition activationOverlap : Z := minute.
(** The second of the activation, less the overlap. *)
Definition activation_fence (activatedAt : Z) : Z :=
  if activatedAt =? zero_time then zero_time else activatedAt - activatedAt mod second - activationOverlap.
Definition before_fence (fence at_ : Z) : bool := negb (fence =? zero_time) && (at_ <? fence).

(** ** Configuration of the sources *)

Record watchConfig := mkWatchConfig { wc_repository : repositoryConfig; wc_label : string; wc_pollInterval : string; wc_replayExisting : bool }.
Definition watchConfig_field (labels : bool) (c : watchConfig) (name raw : string) : option watchConfig :=
  let '(mkWatchConfig r l p e) := c in
  match repository_field r name raw with
  | Some r => r ← r; Some (mkWatchConfig r l p e)
  | None =>
      if labels && String.eqb name "label" then v ← raw_string l raw; Some (mkWatchConfig r v p e)
      else if String.eqb name "pollinterval" then v ← raw_string p raw; Some (mkWatchConfig r l v e)
      else if String.eqb name "replayexisting" then v ← raw_bool e raw; Some (mkWatchConfig r l p v)
      else None
  end.
(** [watchConfig] has a label, [reviewWatchConfig] has none. *)
Definition decode_watchConfig (labels : bool) : string → rpc watchConfig :=
  decodeStrict (watchConfig_field labels) (mkWatchConfig no_repository "" "" false).

(** ** The run a pull request belongs to *)

Definition marker_char (c : ascii) : bool :=
  let b := byte c in is_digit c || ((65 <=? b) && (b <=? 90)) || ((97 <=? b) && (b <=? 122)).
Fixpoint span (f : ascii → bool) (s : string) : string * string :=
  match s with
  | String c rest => if f c then let '(a, b) := span f rest in (String c a, b) else ("", s)
  | EmptyString => ("", "")
  end.
(** [[A-Za-z0-9][A-Za-z0-9._:-]{0,127}] up to a semicolon. *)
Definition marker_name (s : string) : option (string * string) :=
  let '(name, rest) := span (λ c, marker_char c || existsb (Ascii.eqb c) (explode "._:-")) s in
  match name with
  | String c _ => if marker_char c && (String.length name <=? 128)%nat then rest ← strip_prefix ";" rest; Some (name, rest) else None
  | EmptyString => None
  end.
Definition hex_lower (c : ascii) : bool := is_digit c || ((97 <=? byte c) && (byte c <=? 102)).
Definition marker_at (s : string) : option string :=
  s ← strip_prefix "<!-- orchigram:run=" s;
  '(run, s) ← marker_name s;
  s ← strip_prefix "node=" s;
  '(_, s) ← marker_name s;
  s ← strip_prefix "idempotency=" s;
  let '(digest, s) := span hex_lower s in
  if (String.length digest =? 64)%nat then _ ← strip_prefix " -->" s; Some run else None.
(** The leftmost match. *)
Fixpoint targetRunFromMarker (body : string) : option string :=
  match marker_at body with
  | Some run => Some run
  | None => match body with String _ rest => targetRunFromMarker rest | EmptyString => None end
  end.

(** ** Listing *)

Record readyEvent := mkReadyEvent { re_id : Z; re_created : Z; re_issue : issue }.
Record reviewCommentPayload := mkCommentPayload {
  cp_id : Z; cp_body : string; cp_path : string; cp_line : option Z; cp_side : string; cp_subject : string; cp_url : string }.
Record submittedReview := mkSubmitted {
  sr_cursor : reviewCursor; sr_run : string; sr_pull : pullRecord; sr_review : reviewRecord; sr_comments : list reviewCommentPayload }.

Section Listing.
Context {G : Type} {github : GithubService G}.

Definition issueEvents_url (config : repositoryConfig) : string := repository_url config "/issues/events?per_page=100".
Definition ready_event (config : watchConfig) (token : string) (cursor fence : Z) (event : issueEvent) : Handler G (list readyEvent) :=
  if (ie_id event <=? cursor) || negb (String.eqb (ie_event event) "labeled") || negb (String.eqb (ie_label event) (wc_label config))
     || before_fence fence (ie_created event)
  then mret [] else
  item ← (match ie_issue event with
          | Some item => if 0 <? is_number item then mret (Some item) else mret None
          | None => mret None
          end);
  match item with
  | Some item => mret [mkReadyEvent (ie_id event) (ie_created event) item]
  | None =>
      if String.eqb (trim_space (ie_issueURL event)) ""
      then reject FailedPrecondition ("GitHub issue event " +:+ itoa (ie_id event) +:+ " has neither an embedded issue nor issue_url")
      else
        item ← getJSON decode_issue (ie_issueURL event) token;
        mret [mkReadyEvent (ie_id event) (ie_created event) item.1]
  end.
(** Whether pages are left after the hundredth is not looked at. *)
Definition listReadyEvents (config : watchConfig) (token : string) (cursor activatedAt : Z) : Handler G (list readyEvent) :=
  found ← pages 100 decode_issueEvents (ready_event config token cursor (activation_fence activatedAt))
            (issueEvents_url (wc_repository config)) token;
  mret (sort_by (onc re_id Z.compare) found.1).

Definition comment_payload (reviewID : Z) (comment : reviewComment) : rpc reviewCommentPayload :=
  if (cm_id comment <=? 0) || String.eqb (trim_space (cm_path comment)) ""
  then inl (mkStatus FailedPrecondition ("GitHub review comment for review " +:+ itoa reviewID +:+ " is missing required identity fields")) else
  let line := match cm_line comment with Some l => Some l | None => cm_originalLine comment end in
  let subject := ToLower (cm_subject comment) in
  let subject := if String.eqb subject "" then match line with None => "file" | Some _ => "line" end else subject in
  if negb (String.eqb subject "line") && negb (String.eqb subject "file")
  then inl (mkStatus FailedPrecondition ("GitHub review comment " +:+ itoa (cm_id comment) +:+ " has unsupported subject_type " +:+ quoted (cm_subject comment)))
  else match line, String.eqb subject "line" with
       | None, true => inl (mkStatus FailedPrecondition ("GitHub line review comment " +:+ itoa (cm_id comment) +:+ " has no line location"))
       | _, _ => inr (mkCommentPayload (cm_id comment) (cm_body comment) (cm_path comment) line (cm_side comment) subject (cm_url comment))
       end.
Definition listReviewComments (config : repositoryConfig) (token : string) (pull review : Z) : Handler G (list reviewCommentPayload) :=
  found ← pages 100 decode_comments (λ c, p ← lift_rpc (comment_payload review c); mret [p])
            (repository_url config ("/pulls/" +:+ itoa pull +:+ "/reviews/" +:+ itoa review +:+ "/comments?per_page=100")) token;
  if found.2 : bool then reject ResourceExhausted ("GitHub comment pagination for review " +:+ itoa review +:+ " exceeds 100 pages") else mret found.1.

Definition submitted_review (config : repositoryConfig) (token : string) (cursor : reviewCursor) (fence : Z) (pull : pullRecord) (run : string)
    (review : reviewRecord) : Handler G (list submittedReview) :=
  let state := ToUpper (rv_state review) in
  if (rv_id review <=? 0) || (rv_submitted review =? zero_time) || (negb (String.eqb state "APPROVED") && negb (String.eqb state "CHANGES_REQUESTED"))
  then mret [] else
  if String.eqb (rv_commit review) "" || String.eqb (rv_login review) ""
  then reject FailedPrecondition ("GitHub review " +:+ itoa (rv_id review) +:+ " is missing required identity fields") else
  let review := mkReview (rv_id review) state (rv_body review) (rv_submitted review) (rv_commit review) (rv_login review) in
  let eventCursor := mkReviewCursor (rv_submitted review) (rv_id review) in
  if negb (reviewCursorAfter eventCursor cursor) || before_fence fence (rv_submitted review) then mret [] else
  comments ← listReviewComments config token (pu_number pull) (rv_id review);
  mret [mkSubmitted eventCursor run pull review comments].
Definition pull_reviews (config : repositoryConfig) (token : string) (cursor : reviewCursor) (fence : Z) (pull : pullRecord) : Handler G (list submittedReview) :=
  match targetRunFromMarker (pu_body pull) with
  | None => mret []
  | Some run =>
      if (pu_number pull <=? 0) || String.eqb (pu_sha pull) ""
      then reject FailedPrecondition "GitHub returned an invalid managed pull request" else
      found ← pages 100 decode_reviews (submitted_review config token cursor fence pull run)
                (repository_url config ("/pulls/" +:+ itoa (pu_number pull) +:+ "/reviews?per_page=100")) token;
      if found.2 : bool then reject ResourceExhausted ("GitHub review pagination for pull request " +:+ itoa (pu_number pull) +:+ " exceeds 100 pages")
      else mret found.1
  end.
Definition review_order : submittedReview → submittedReview → comparison :=
  lexc (onc (λ r, vc_submitted (sr_cursor r)) Z.compare) (onc (λ r, vc_id (sr_cursor r)) Z.compare).
Definition listSubmittedReviews (config : repositoryConfig) (token : string) (cursor : reviewCursor) (activatedAt : Z) : Handler G (list submittedReview) :=
  found ← pages 100 decode_pulls (pull_reviews config token cursor (activation_fence activatedAt))
            (repository_url config "/pulls?state=all&sort=updated&direction=desc&per_page=100") token;
  if found.2 : bool then reject ResourceExhausted "GitHub pull-request pagination exceeds 100 pages"
  else mret (sort_by review_order found.1).
End Listing.

(** ** The stream *)

Record TriggerEventPB := mkTriggerEventPB {
  tv_id : string; tv_cursor : string; tv_occurredAt : Z; tv_payload : string; tv_targetRun : string }.
Inductive TriggerCommand := CommandStart (start : GithubStart) | CommandAck (id cursor : string) | CommandNone.
Class TriggerStream (T : Type) := {
  ts_send : TriggerEventPB → T → option RpcStatus * T;
  ts_recv : T → rpc TriggerCommand * T }.

(** A struct is written in the order of its fields, a map in the order of its keys. *)
Definition text (s : string) : string := marshal (JStr s).
Definition issue_text (i : issue) : string :=
  object_text [("number", itoa (is_number i)); ("title", text (is_title i)); ("body", text (is_body i)); ("html_url", text (is_url i)); ("state", text (is_state i))].
Definition repository_json (config : repositoryConfig) : json := mkobj [("owner", JStr (gc_owner config)); ("name", JStr (gc_repository config))].
Definition provider_id (config : repositoryConfig) (kind : string) (id : Z) : string :=
  "github:" +:+ gc_owner config +:+ "/" +:+ gc_repository config +:+ ":" +:+ kind +:+ ":" +:+ itoa id.
Definition ready_event_pb (config : repositoryConfig) (event : readyEvent) : TriggerEventPB :=
  mkTriggerEventPB (provider_id config "issue-label-event" (re_id event)) (itoa (re_id event)) (re_created event)
    (object_text [("issue", issue_text (re_issue event)); ("repository", marshal (repository_json config))]) "".
Definition comment_text (c : reviewCommentPayload) : string :=
  object_text [("id", itoa (cp_id c)); ("body", text (cp_body c)); ("path", text (cp_path c));
    ("line", match cp_line c with Some l => itoa l | None => "null" end);
    ("side", text (cp_side c)); ("subject_type", text (cp_subject c)); ("html_url", text (cp_url c))].
Definition review_text (config : repositoryConfig) (event : submittedReview) : string :=
  let pull := sr_pull event in let review := sr_review event in
  object_text [
    ("pull", object_text [("head_sha", text (pu_sha pull)); ("html_url", text (pu_url pull)); ("number", itoa (pu_number pull))]);
    ("repository", marshal (repository_json config));
    ("review", object_text [
       ("author", text (rv_login review)); ("body", text (rv_body review)); ("comments", "[" +:+ joinc "," (comment_text <$> sr_comments event) +:+ "]");
       ("commit_id", text (rv_commit review)); ("id", itoa (rv_id review)); ("state", text (ToUpper (rv_state review)));
       ("submitted_at", text (rfc3339nano (rv_submitted review)))])].
Definition review_event_pb (config : repositoryConfig) (event : submittedReview) : rpc TriggerEventPB :=
  match encodeReviewCursor (sr_cursor event) with
  | inl e => inl e
  | inr cursor => inr (mkTriggerEventPB (provider_id config "pull-review" (rv_id (sr_review event))) cursor (rv_submitted (sr_review event))
                         (review_text config event) (sr_run event))
  end.

Section Watching.
Context {G T : Type} {github : GithubService G} {stream : TriggerStream T} {urls : UrlParser}.
Abbreviation W := (G * T)%type.
Definition on_stream {A} (p : T → rpc A * T) : Handler W A := λ w, let '(r, t) := p w.2 in (r, (w.1, t)).

Definition sendAndAwaitAck (event : TriggerEventPB) : Handler W unit :=
  on_stream (λ t, let '(e, t) := ts_send event t in (match e with Some e => inl e | None => inr tt end, t)) ≫= λ _,
  command ← on_stream ts_recv;
  match command with
  | CommandAck id cursor =>
      if String.eqb id (tv_id event) && String.eqb cursor (tv_cursor event) then mret tt
      else reject FailedPrecondition "trigger acknowledgement does not match emitted event"
  | _ => reject FailedPrecondition "trigger acknowledgement does not match emitted event"
  end.
(** The events of one poll; the answer is the cursor of the last one. *)
Fixpoint deliver_events {A C} (pb : A → rpc TriggerEventPB) (cursor_of : A → C) (events : list A) (cursor : C) : Handler W C :=
  match events with
  | [] => mret cursor
  | event :: events =>
      message ← lift_rpc (pb event);
      sendAndAwaitAck message ≫= λ _,
      deliver_events pb cursor_of events (cursor_of event)
  end.
(** [n] polls at most: a watch ends with an error only. *)
Fixpoint poll {A C} (n : nat) (list_events : C → Handler G (list A)) (pb : A → rpc TriggerEventPB) (cursor_of : A → C) (interval : Z) (cursor : C)
    : Handler W C :=
  match n with
  | O => mret cursor
  | S n =>
      events ← on_first (list_events cursor);
      cursor ← deliver_events pb cursor_of events cursor;
      on_first (λ g, let '(ended, g) := gh_wait interval g in (match ended with Some e => inl e | None => inr tt end, g)) ≫= λ _,
      poll n list_events pb cursor_of interval cursor
  end.

Definition watch_setup (labels : bool) (start : GithubStart) : rpc (watchConfig * Z * string) :=
  match decode_watchConfig labels (gs_config start) with
  | inl e => inl e
  | inr config =>
      match validateRepository (wc_repository config) with
      | inl e => inl (mkStatus InvalidArgument e)
      | inr _ =>
          match providerPollInterval (wc_pollInterval config) with
          | inl e => inl e
          | inr interval =>
              match secret (gs_secrets start) (gc_tokenSecret (wc_repository config)) with
              | inl e => inl (mkStatus InvalidArgument e)
              | inr token => inr (config, interval, token)
              end
          end
      end
  end.
Definition watchIssues (n : nat) (start : GithubStart) : Handler W Z :=
  '(config, interval, token) ← lift_rpc (watch_setup true start);
  let config := mkWatchConfig (wc_repository config) (if String.eqb (wc_label config) "" then "orchigram:ready" else wc_label config)
                  (wc_pollInterval config) (wc_replayExisting config) in
  cursor ← invalid_argument (parseCursor (gs_cursor start));
  activatedAt ← lift_rpc (providerActivation start (wc_replayExisting config) (0 <? cursor));
  poll n (λ cursor, listReadyEvents config token cursor activatedAt) (λ e, inr (ready_event_pb (wc_repository config) e)) re_id interval cursor.
Definition watchReviews (n : nat) (start : GithubStart) : Handler W reviewCursor :=
  '(config, interval, token) ← lift_rpc (watch_setup false start);
  cursor ← invalid_argument (parseReviewCursor (gs_cursor start));
  activatedAt ← lift_rpc (providerActivation start (wc_replayExisting config) (negb (vc_submitted cursor =? zero_time)));
  poll n (λ cursor, listSubmittedReviews (wc_repository config) token cursor activatedAt) (review_event_pb (wc_repository config)) sr_cursor interval cursor.
Definition WatchGithub (n : nat) : Handler W unit :=
  command ← on_stream ts_recv;
  match command with
  | CommandStart start =>
      if String.eqb (gs_source start) "" || String.eqb (gs_source start) "github.issues" then watchIssues n start ≫= λ _, mret tt
      else if String.eqb (gs_source start) "github.reviews" then watchReviews n start ≫= λ _, mret tt
      else reject InvalidArgument ("unsupported trigger source " +:+ quoted (gs_source start))
  | _ => reject InvalidArgument "first trigger command must be start"
  end.
End Watching.
