(* ===== verification/GithubActions.v ===== *)
(** [internal/githubplugin/github.go], the TaskProvider: issues, comments, pull
    requests, the wait for checks and the workspace actions.

    The state is GitHub, the machine of the workspace, and the event sink of the
    call ([EventSink]).  A wait of [n] polls ends with [None] when it still waits. *)

From Stdlib Require Import Ascii.
From Stdlib Require String.
From S2P Require Import Prelude.
From S2P Require Import Json.
From S2P Require Import GoStd.
From S2P Require Import Resource.
From S2P Require Import Plan.
From S2P Require Import PluginContract.
From S2P Require Import FlowCompiler.
From S2P Require Import Db.
From S2P Require Import StorePlugins.
From S2P Require Import StoreResources.
From S2P Require Import ManagerRun.
From S2P Require Import PluginSchema.
From S2P Require Import PluginSdk.
From S2P Require Import ServerPages.
From S2P Require Import ServerHandlers.
From S2P Require Import Workspace.
From S2P Require Import GithubApi.
From S2P Require Import GithubWatch.

Local Open Scope Z_scope.

Class EventSink (O : Type) := {
  sink_emit : string → json → O → option string * O;
  sink_log : string → string → O → option string * O }.

(** ** Configuration of the actions *)

Record issueConfig := mkIssueConfig { ic_repository : repositoryConfig; ic_number : Z }.
Definition issueConfig_field (c : issueConfig) (name raw : string) : option (option issueConfig) :=
  match repository_field (ic_repository c) name raw with
  | Some r => Some (r ← r; Some (mkIssueConfig r (ic_number c)))
  | None => if String.eqb name "number" then Some (v ← raw_int (ic_number c) raw; Some (mkIssueConfig (ic_repository c) v)) else None
  end.
Definition no_issueConfig : issueConfig := mkIssueConfig no_repository 0.
Definition decode_issueConfig : string → rpc issueConfig := decodeStrict (λ c name raw, default None (issueConfig_field c name raw)) no_issueConfig.

Record commentConfig := mkCommentConfig { mc_issue : issueConfig; mc_body : string }.
Definition decode_commentConfig : string → rpc commentConfig :=
  decodeStrict (λ c name raw,
    match issueConfig_field (mc_issue c) name raw with
    | Some i => i ← i; Some (mkCommentConfig i (mc_body c))
    | None => if String.eqb name "body" then v ← raw_string (mc_body c) raw; Some (mkCommentConfig (mc_issue c) v) else None
    end) (mkCommentConfig no_issueConfig "").

Record checkoutConfig := mkCheckoutConfig { kc_cloneURL : string; kc_defaultBranch : string; kc_issue : Z; kc_root : string; kc_token : string }.
Definition decode_checkoutConfig : string → rpc checkoutConfig :=
  decodeStrict (λ c name raw, let '(mkCheckoutConfig u d i r t) := c in
    if String.eqb name "cloneurl" then v ← raw_string u raw; Some (mkCheckoutConfig v d i r t)
    else if String.eqb name "defaultbranch" then v ← raw_string d raw; Some (mkCheckoutConfig u v i r t)
    else if String.eqb name "issuenumber" then v ← raw_int i raw; Some (mkCheckoutConfig u d v r t)
    else if String.eqb name "workspaceroot" then v ← raw_string r raw; Some (mkCheckoutConfig u d i v t)
    else if String.eqb name "tokensecret" then v ← raw_string t raw; Some (mkCheckoutConfig u d i r v)
    else None) (mkCheckoutConfig "" "" 0 "" "").

Record commitConfig := mkCommitConfig { oc_workspace : string; oc_root : string; oc_branch : string; oc_message : string; oc_token : string }.
Definition decode_commitConfig : string → rpc commitConfig :=
  decodeStrict (λ c name raw, let '(mkCommitConfig w r b m t) := c in
    if String.eqb name "workspace" then v ← raw_string w raw; Some (mkCommitConfig v r b m t)
    else if String.eqb name "workspaceroot" then v ← raw_string r raw; Some (mkCommitConfig w v b m t)
    else if String.eqb name "branch" then v ← raw_string b raw; Some (mkCommitConfig w r v m t)
    else if String.eqb name "message" then v ← raw_string m raw; Some (mkCommitConfig w r b v t)
    else if String.eqb name "tokensecret" then v ← raw_string t raw; Some (mkCommitConfig w r b m v)
    else None) (mkCommitConfig "" "" "" "" "").

Record pullRequestConfig := mkPullRequestConfig { pc_repository : repositoryConfig; pc_head : string; pc_base : string; pc_title : string; pc_body : string }.
Definition decode_pullRequestConfig : string → rpc pullRequestConfig :=
  decodeStrict (λ c name raw, let '(mkPullRequestConfig r h b t d) := c in
    match repository_field r name raw with
    | Some r => r ← r; Some (mkPullRequestConfig r h b t d)
    | None =>
        if String.eqb name "head" then v ← raw_string h raw; Some (mkPullRequestConfig r v b t d)
        else if String.eqb name "base" then v ← raw_string b raw; Some (mkPullRequestConfig r h v t d)
        else if String.eqb name "title" then v ← raw_string t raw; Some (mkPullRequestConfig r h b v d)
        else if String.eqb name "body" then v ← raw_string d raw; Some (mkPullRequestConfig r h b t v)
        else None
    end) (mkPullRequestConfig no_repository "" "" "" "").

Record checkWaitConfig := mkCheckWaitConfig {
  ck_repository : repositoryConfig; ck_ref : string; ck_pull : Z; ck_required : list string; ck_pollInterval : string }.
Definition decode_checkWaitConfig : string → rpc checkWaitConfig :=
  decodeStrict (λ c name raw, let '(mkCheckWaitConfig r f p q i) := c in
    match repository_field r name raw with
    | Some r => r ← r; Some (mkCheckWaitConfig r f p q i)
    | None =>
        if String.eqb name "ref" then v ← raw_string f raw; Some (mkCheckWaitConfig r v p q i)
        else if String.eqb name "pullnumber" then v ← raw_int p raw; Some (mkCheckWaitConfig r f v q i)
        else if String.eqb name "required" then v ← raw_list (raw_string "") raw; Some (mkCheckWaitConfig r f p v i)
        else if String.eqb name "pollinterval" then v ← raw_string i raw; Some (mkCheckWaitConfig r f p q v)
        else None
    end) (mkCheckWaitConfig no_repository "" 0 [] "").

(** [^[0-9a-fA-F]{40}([0-9a-fA-F]{24})?$] *)
Definition hex_digit (c : ascii) : bool := hex_lower c || ((65 <=? byte c) && (byte c <=? 70)).
Definition gitObjectID (s : string) : bool :=
  ((String.length s =? 40)%nat || (String.length s =? 64)%nat) && forallb hex_digit (explode s).
(** [strings.EqualFold] on ASCII text. *)
Definition EqualFold (a b : string) : bool := String.eqb (ToLower a) (ToLower b).

Definition validateIssue {urls : UrlParser} (config : issueConfig) : string + unit :=
  match validateRepository (ic_repository config) with
  | inl e => inl e
  | inr _ => if ic_number config <=? 0 then inl "positive issue number is required" else inr tt
  end.
Fixpoint check_names (names : list string) (seen : gset string) : string + unit :=
  match names with
  | [] => inr tt
  | name :: names =>
      if String.eqb (trim_space name) "" || negb (String.eqb name (trim_space name))
      then inl "required check names must be non-empty and must not have surrounding whitespace"
      else if bool_decide (name ∈ seen) then inl ("required check name " +:+ quoted name +:+ " is duplicated")
      else check_names names ({[name]} ∪ seen)
  end.
Definition validateCheckWait {urls : UrlParser} (config : checkWaitConfig) : string + unit :=
  match validateRepository (ck_repository config) with
  | inl e => inl e
  | inr _ =>
      if negb (gitObjectID (ck_ref config)) then inl "ref must be an exact 40- or 64-character Git object ID"
      else if ck_pull config <=? 0 then inl "positive pullNumber is required"
      else if (length (ck_required config) =? 0)%nat then inl "at least one required check name is required"
      else match check_names (ck_required config) ∅ with
           | inl e => inl e
           | inr _ =>
               if String.eqb (ck_pollInterval config) "" then inr tt else
               match time_ParseDuration (ck_pollInterval config) with
               | Some interval => if interval <=? 0 then inl "pollInterval must be positive" else inr tt
               | None => inl "pollInterval must be positive"
               end
           end
  end.
Definition optionalSecret (values : gmap string string) (name : string) : string + string :=
  if String.eqb name "" then inr "" else secret values name.

(** The request a task carries: request, Run, node, attempt and key. *)
Definition task_run (request : TaskRequest) : string := let '(_, run, _, _, _) := tq_meta request in run.
Definition task_id (request : TaskRequest) : string := let '(id, _, _, _, _) := tq_meta request in id.
Definition hiddenMarker {sha : Sha256} (request : TaskRequest) : string :=
  let '(_, run, node, _, key) := tq_meta request in
  "<!-- orchigram:run=" +:+ run +:+ ";node=" +:+ node +:+ ";idempotency=" +:+ sha256_hex key +:+ " -->".
(** [url.QueryEscape] *)
Definition query_char (c : ascii) : bool :=
  let b := byte c in is_digit c || ((65 <=? b) && (b <=? 90)) || ((97 <=? b) && (b <=? 122)) || existsb (Ascii.eqb c) (explode "-_.~").
Definition QueryEscape (s : string) : string :=
  implode (explode s ≫= λ c, if query_char c then [c] else if Ascii.eqb c " " then ["+"%char] else ["%"%char; hex_upper (byte c / 16); hex_upper (byte c mod 16)]).

(** ** Validation *)

Section Validation.
Context {urls : UrlParser}.

Definition require_ok (ok : bool) (e : string) : string + unit := if ok then inr tt else inl e.
Definition check_config {A} (r : rpc A) (check : A → string + unit) : string + unit :=
  match r with inl s => inl (rs_message s) | inr config => check config end.
Definition action_error (action config : string) : string + unit :=
  if String.eqb action "github.issue.get" then check_config (decode_issueConfig config) validateIssue
  else if String.eqb action "github.issue.comment" then
    check_config (decode_commentConfig config) (λ c,
      match validateIssue (mc_issue c) with
      | inl e => inl e
      | inr _ => require_ok (negb (String.eqb (trim_space (mc_body c)) "")) "body is required"
      end)
  else if String.eqb action "github.workspace.checkout" then
    check_config (decode_checkoutConfig config) (λ c,
      require_ok (negb (String.eqb (kc_cloneURL c) "" || (kc_issue c <=? 0) || String.eqb (kc_root c) ""))
        "cloneURL, issueNumber, and workspaceRoot are required")
  else if String.eqb action "github.workspace.commit-push" then
    check_config (decode_commitConfig config) (λ c,
      require_ok (negb (String.eqb (oc_workspace c) "" || String.eqb (oc_root c) "" || String.eqb (oc_branch c) "" || String.eqb (oc_message c) ""))
        "workspace, workspaceRoot, branch, and message are required")
  else if String.eqb action "github.pr.ensure" then
    check_config (decode_pullRequestConfig config) (λ c,
      match validateRepository (pc_repository c) with
      | inl e => inl e
      | inr _ => require_ok (negb (String.eqb (pc_head c) "" || String.eqb (pc_base c) "" || String.eqb (pc_title c) "")) "head, base, and title are required"
      end)
  else if String.eqb action "github.commit.checks.wait" then check_config (decode_checkWaitConfig config) validateCheckWait
  else inl ("unsupported action " +:+ quoted action).
Definition ValidateAction (action config : string) : list Issue :=
  match action_error action config with inl e => [PluginSchema.mkIssue "config" "invalid" e] | inr _ => [] end.
End Validation.

(** ** Answers of the API *)

Record commentRecord := mkCommentRecord { cc_id : Z; cc_body : string; cc_url : string }.
Definition commentRecord_field (c : commentRecord) (name raw : string) : option commentRecord :=
  let '(mkCommentRecord i b u) := c in
  if String.eqb name "id" then v ← raw_int i raw; Some (mkCommentRecord v b u)
  else if String.eqb name "body" then v ← raw_string b raw; Some (mkCommentRecord i v u)
  else if String.eqb name "html_url" then v ← raw_string u raw; Some (mkCommentRecord i b v)
  else Some c.
Definition decode_commentRecords : string → option (list commentRecord) := raw_list (decode_struct commentRecord_field (mkCommentRecord 0 "" "")).
(** The created comment or pull request: its number and address. *)
Definition created_field (key : string) (c : Z * string) (name raw : string) : option (Z * string) :=
  if String.eqb name key then v ← raw_int c.1 raw; Some (v, c.2)
  else if String.eqb name "html_url" then v ← raw_string c.2 raw; Some (c.1, v)
  else Some c.
Definition decode_created (key : string) : string → option (Z * string) := decode_struct (created_field key) (0, "").
(** The local [pullRecord] of [ensurePullRequest]. *)
Record branchPull := mkBranchPull { bp_number : Z; bp_url : string; bp_body : string; bp_ref : string }.
Definition branchPull_field (p : branchPull) (name raw : string) : option branchPull :=
  let '(mkBranchPull n u b h) := p in
  if String.eqb name "number" then v ← raw_int n raw; Some (mkBranchPull v u b h)
  else if String.eqb name "html_url" then v ← raw_string u raw; Some (mkBranchPull n v b h)
  else if String.eqb name "body" then v ← raw_string b raw; Some (mkBranchPull n u v h)
  else if String.eqb name "head" then v ← decode_struct (text_field "ref") h raw; Some (mkBranchPull n u b v)
  else Some p.
Definition decode_branchPulls : string → option (list branchPull) := raw_list (decode_struct branchPull_field (mkBranchPull 0 "" "" "")).

Record checkRunRecord := mkCheckRun { rr_name : string; rr_status : string; rr_conclusion : string; rr_details : string; rr_head : string }.
Definition checkRun_field (c : checkRunRecord) (name raw : string) : option checkRunRecord :=
  let '(mkCheckRun n s c' d h) := c in
  if String.eqb name "name" then v ← raw_string n raw; Some (mkCheckRun v s c' d h)
  else if String.eqb name "status" then v ← raw_string s raw; Some (mkCheckRun n v c' d h)
  else if String.eqb name "conclusion" then v ← raw_string c' raw; Some (mkCheckRun n s v d h)
  else if String.eqb name "details_url" then v ← raw_string d raw; Some (mkCheckRun n s c' v h)
  else if String.eqb name "head_sha" then v ← raw_string h raw; Some (mkCheckRun n s c' d v)
  else Some c.
Definition decode_checkRuns : string → option (list checkRunRecord) :=
  decode_struct (λ l name raw, if String.eqb name "check_runs" then raw_list (decode_struct checkRun_field (mkCheckRun "" "" "" "" "")) raw else Some l) [].
Record commitStatusRecord := mkCommitStatus { ct_context : string; ct_state : string; ct_description : string; ct_target : string }.
Definition commitStatus_field (c : commitStatusRecord) (name raw : string) : option commitStatusRecord :=
  let '(mkCommitStatus x s d t) := c in
  if String.eqb name "context" then v ← raw_string x raw; Some (mkCommitStatus v s d t)
  else if String.eqb name "state" then v ← raw_string s raw; Some (mkCommitStatus x v d t)
  else if String.eqb name "description" then v ← raw_string d raw; Some (mkCommitStatus x s v t)
  else if String.eqb name "target_url" then v ← raw_string t raw; Some (mkCommitStatus x s d v)
  else Some c.
(** State, SHA and statuses of a page of the combined status. *)
Definition statusPage_field (p : string * string * list commitStatusRecord) (name raw : string) : option (string * string * list commitStatusRecord) :=
  let '(state, sha, l) := p in
  if String.eqb name "state" then v ← raw_string state raw; Some (v, sha, l)
  else if String.eqb name "sha" then v ← raw_string sha raw; Some (state, v, l)
  else if String.eqb name "statuses" then v ← raw_list (decode_struct commitStatus_field (mkCommitStatus "" "" "" "")) raw; Some (state, sha, v)
  else Some p.
Definition decode_statusPage : string → option (string * string * list commitStatusRecord) := decode_struct statusPage_field ("", "", []).
(** State and head of a pull request. *)
Definition pullHead_field (p : string * string) (name raw : string) : option (string * string) :=
  if String.eqb name "state" then v ← raw_string p.1 raw; Some (v, p.2)
  else if String.eqb name "head" then v ← decode_struct (text_field "sha") p.2 raw; Some (p.1, v)
  else Some p.
Definition decode_pullHead : string → option (string * string) := decode_struct pullHead_field ("", "").

Record checkSummary := mkCheckSummary { sm_name : string; sm_status : string; sm_conclusion : string; sm_url : string }.
Record statusSummary := mkStatusSummary { ss_context : string; ss_state : string; ss_description : string; ss_url : string }.
Record checkSnapshot := mkCheckSnapshot { sn_head : string; sn_state : string; sn_checks : list checkSummary; sn_statuses : list statusSummary }.
Definition set_state (state : string) (s : checkSnapshot) : checkSnapshot := mkCheckSnapshot (sn_head s) state (sn_checks s) (sn_statuses s).
Definition snapshot_json (s : checkSnapshot) : json :=
  JObj [("headSha", JStr (sn_head s)); ("state", JStr (sn_state s));
    ("checks", JArr ((λ c, JObj [("name", JStr (sm_name c)); ("status", JStr (sm_status c)); ("conclusion", JStr (sm_conclusion c)); ("url", JStr (sm_url c))]) <$> sn_checks s));
    ("statuses", JArr ((λ c, JObj [("context", JStr (ss_context c)); ("state", JStr (ss_state c)); ("description", JStr (ss_description c)); ("url", JStr (ss_url c))]) <$> sn_statuses s))].

(** ** Judging a snapshot *)

(** [None]: failure; [Some p]: whether something is pending. *)
Fixpoint judge_checks (checks : list checkSummary) (pending : bool) : option bool :=
  match checks with
  | [] => Some pending
  | check :: checks =>
      if negb (String.eqb (sm_status check) "completed") then judge_checks checks true
      else if existsb (String.eqb (sm_conclusion check)) ["success"; "neutral"; "skipped"] then judge_checks checks pending
      else None
  end.
Fixpoint judge_required (snapshot : checkSnapshot) (required : list string) (pending : bool) : option bool :=
  match required with
  | [] => Some pending
  | name :: required =>
      match filter (λ c, sm_name c = name) (sn_checks snapshot) with
      | [] => judge_required snapshot required true
      | checks => pending ← judge_checks checks pending; judge_required snapshot required pending
      end
  end.
Fixpoint judge_statuses (statuses : list statusSummary) (pending : bool) : option bool :=
  match statuses with
  | [] => Some pending
  | s :: statuses =>
      if String.eqb (ss_state s) "success" then judge_statuses statuses pending
      else if String.eqb (ss_state s) "pending" then judge_statuses statuses true
      else None
  end.
Definition evaluateCheckSnapshot (snapshot : checkSnapshot) (required : list string) : string :=
  match (pending ← judge_required snapshot required false; judge_statuses (sn_statuses snapshot) pending) with
  | None => "failure"
  | Some true => "pending"
  | Some false => "success"
  end.

(** ** The actions *)

Section Client.
Context {G : Type} {github : GithubService G} {sha : Sha256} {urls : UrlParser}.

Definition issue_url (config : issueConfig) : string := repository_url (ic_repository config) ("/issues/" +:+ itoa (ic_number config)).
Definition issueGet (request : TaskRequest) : Handler G json :=
  config ← lift_rpc (decode_issueConfig (tq_config request));
  invalid_argument (validateIssue config) ≫= λ _,
  token ← invalid_argument (secret (tq_secrets request) (gc_tokenSecret (ic_repository config)));
  item ← getJSON decode_issue (issue_url config) token;
  let i := item.1 in
  mret (mkobj [("issue", JObj [("number", JNum (itoa (is_number i))); ("title", JStr (is_title i)); ("body", JStr (is_body i));
    ("html_url", JStr (is_url i)); ("state", JStr (is_state i))])]).

Definition newlines : string := String (Ascii.ascii_of_nat 10) (String (Ascii.ascii_of_nat 10) "").
Definition marked (body marker : string) : string := trim_space body +:+ newlines +:+ marker.
Definition reconciled_json (key : string) (id : Z) (address : string) (reconciled : bool) (marker : string) : json :=
  mkobj [(key, JNum (itoa id)); ("url", JStr address); ("reconciled", JBool reconciled); ("marker", JStr marker)].
Definition comment_of (request : TaskRequest) : rpc (commentConfig * string) :=
  match decode_commentConfig (tq_config request) with
  | inl e => inl e
  | inr config =>
      match validateIssue (mc_issue config), negb (String.eqb (trim_space (mc_body config)) "") with
      | inr _, true =>
          match secret (tq_secrets request) (gc_tokenSecret (ic_repository (mc_issue config))) with
          | inl e => inl (mkStatus InvalidArgument e)
          | inr token => inr (config, token)
          end
      | _, _ => inl (mkStatus InvalidArgument "valid repository, issue number, and body are required")
      end
  end.
Definition comment_payload_text (config : commentConfig) (marker : string) : string := marshal (mkobj [("body", JStr (marked (mc_body config) marker))]).
(** Whether pages are left after the hundredth is not looked at. *)
Definition issueComment (request : TaskRequest) : Handler G json :=
  '(config, token) ← lift_rpc (comment_of request);
  let marker := hiddenMarker request in
  let endpoint := issue_url (mc_issue config) +:+ "/comments" in
  comments ← pages 100 decode_commentRecords (λ c, mret [c]) (endpoint +:+ "?per_page=100") token;
  match List.find (λ c, contains marker (cc_body c)) comments.1 with
  | Some comment => mret (reconciled_json "id" (cc_id comment) (cc_url comment) true marker)
  | None =>
      created ← mutateJSON (decode_created "id") "POST" endpoint token (comment_payload_text config marker);
      mret (reconciled_json "id" created.1 created.2 false marker)
  end.

Definition pull_of (request : TaskRequest) : rpc (pullRequestConfig * string) :=
  match decode_pullRequestConfig (tq_config request) with
  | inl e => inl e
  | inr config =>
      match validateRepository (pc_repository config), String.eqb (pc_head config) "" || String.eqb (pc_base config) "" || String.eqb (pc_title config) "" with
      | inr _, false =>
          match secret (tq_secrets request) (gc_tokenSecret (pc_repository config)) with
          | inl e => inl (mkStatus InvalidArgument e)
          | inr token => inr (config, token)
          end
      | _, _ => inl (mkStatus InvalidArgument "valid repository, head, base, and title are required")
      end
  end.
Definition ensurePullRequest (request : TaskRequest) : Handler G json :=
  '(config, token) ← lift_rpc (pull_of request);
  let marker := hiddenMarker request in
  let endpoint := repository_url (pc_repository config) "/pulls" in
  let query := "head=" +:+ QueryEscape (gc_owner (pc_repository config) +:+ ":" +:+ pc_head config) +:+ "&per_page=100&state=all" in
  pulls ← pages 100 decode_branchPulls (λ p, mret [p]) (endpoint +:+ "?" +:+ query) token;
  match List.find (λ p, contains marker (bp_body p) || String.eqb (bp_ref p) (pc_head config)) pulls.1 with
  | Some pull => mret (reconciled_json "number" (bp_number pull) (bp_url pull) true marker)
  | None =>
      created ← mutateJSON (decode_created "number") "POST" endpoint token
        (marshal (mkobj [("head", JStr (pc_head config)); ("base", JStr (pc_base config)); ("title", JStr (pc_title config));
                         ("body", JStr (marked (pc_body config) marker))]));
      mret (reconciled_json "number" created.1 created.2 false marker)
  end.

Definition pullRequestHead (config : checkWaitConfig) (token : string) : Handler G string :=
  pull ← getJSON decode_pullHead (repository_url (ck_repository config) ("/pulls/" +:+ itoa (ck_pull config))) token;
  if negb (String.eqb pull.1.1 "open") || negb (gitObjectID pull.1.2)
  then reject FailedPrecondition "GitHub pull request is not open with a valid head SHA" else mret pull.1.2.

(** A page of check runs, added to the resolved commit and the checks. *)
Fixpoint add_checks (found : string * list checkSummary) (runs : list checkRunRecord) : Handler G (string * list checkSummary) :=
  match runs with
  | [] => mret found
  | run :: runs =>
      if String.eqb (trim_space (rr_name run)) "" || String.eqb (trim_space (rr_status run)) ""
      then reject FailedPrecondition "GitHub returned a check run without a name or status" else
      let resolved := found.1 in
      if negb (String.eqb (rr_head run) "") && (negb (String.eqb resolved "") && negb (EqualFold resolved (rr_head run)))
      then reject FailedPrecondition "GitHub returned check runs for different head commits" else
      let resolved := if String.eqb (rr_head run) "" then resolved else rr_head run in
      add_checks (resolved, found.2 ++ [mkCheckSummary (rr_name run) (ToLower (rr_status run)) (ToLower (rr_conclusion run)) (rr_details run)]) runs
  end.
Fixpoint add_status_items (found : list statusSummary) (items : list commitStatusRecord) : Handler G (list statusSummary) :=
  match items with
  | [] => mret found
  | item :: items =>
      if String.eqb (trim_space (ct_context item)) "" || String.eqb (trim_space (ct_state item)) ""
      then reject FailedPrecondition "GitHub returned a commit status without a context or state" else
      add_status_items (found ++ [mkStatusSummary (ct_context item) (ToLower (ct_state item)) (ct_description item) (ct_target item)]) items
  end.
(** The combined state, the resolved commit and the statuses. *)
Definition add_statuses (found : string * string * list statusSummary) (page : string * string * list commitStatusRecord)
    : Handler G (string * string * list statusSummary) :=
  let '(combined, resolved, statuses) := found in
  let '(state, commit, items) := page in
  let combined := if String.eqb combined "" then ToLower state else combined in
  if negb (String.eqb commit "") && (negb (String.eqb resolved "") && negb (EqualFold resolved commit))
  then reject FailedPrecondition "GitHub checks and commit statuses resolved to different head commits" else
  let resolved := if String.eqb commit "" then resolved else commit in
  statuses ← add_status_items statuses items;
  mret (combined, resolved, statuses).
Definition commit_url (config : checkWaitConfig) (path : string) : string :=
  repository_url (ck_repository config) ("/commits/" +:+ PathEscape (ck_ref config) +:+ path).
Definition commitCheckSnapshot (config : checkWaitConfig) (token : string) : Handler G checkSnapshot :=
  checks ← walk_pages 100 decode_checkRuns add_checks (commit_url config "/check-runs?filter=latest&per_page=100") token ("", []);
  if checks.2 : bool then reject ResourceExhausted "GitHub check-run pagination exceeds 100 pages" else
  let '(resolved, checks) := checks.1 in
  found ← walk_pages 100 decode_statusPage add_statuses (commit_url config "/status?per_page=100") token ("", resolved, []);
  if found.2 : bool then reject ResourceExhausted "GitHub commit-status pagination exceeds 100 pages" else
  let '(combined, resolved, statuses) := found.1 in
  let resolved := if String.eqb resolved "" then ToLower (ck_ref config) else resolved in
  if negb (EqualFold resolved (ck_ref config))
  then reject FailedPrecondition "GitHub resolved checks for a different commit than the requested head SHA" else
  let statuses := if negb (length statuses =? 0)%nat && negb (String.eqb combined "")
                  then statuses ++ [mkStatusSummary "github/combined-status" combined "" ""] else statuses in
  mret (mkCheckSnapshot (ToLower resolved) "pending" (sort_by (onc sm_name str_cmp) checks) (sort_by (onc ss_context str_cmp) statuses)).
End Client.

Section Tasks.
Context {G X T : Type} {github : GithubService G} {machine : Machine X} {sink : EventSink T} {sha : Sha256} {urls : UrlParser} {host : Host}.
Abbreviation W := (G * (X * T))%type.

Definition emit (eventType : string) (payload : json) : Handler W unit := λ w,
  let '(e, o) := sink_emit eventType payload w.2.2 in
  (match e with Some e => inl (mkStatus Unknown e) | None => inr tt end, (w.1, (w.2.1, o))).
Definition on_machine {A} (p : Handler (X * T) A) : Handler W A := λ w, let '(r, x) := p w.2 in (r, (w.1, x)).
Definition log_git : option (Output → T → option string * T) := Some (λ output, sink_log ("github.git." +:+ po_stream output) (po_data output)).

Definition checkout (active : gset string) (request : TaskRequest) : Handler W json :=
  config ← lift_rpc (decode_checkoutConfig (tq_config request));
  token ← invalid_argument (optionalSecret (tq_secrets request) (kc_token config));
  result ← on_machine (Checkout (kc_root config) active
    (mkCheckout (task_id request) (task_run request) (kc_cloneURL config) (kc_defaultBranch config) (kc_issue config) token) log_git);
  mret (JObj [("workspace", JStr (cr_path result)); ("branch", JStr (cr_branch result))]).
Definition commitPush (active : gset string) (request : TaskRequest) : Handler W json :=
  config ← lift_rpc (decode_commitConfig (tq_config request));
  token ← invalid_argument (optionalSecret (tq_secrets request) (oc_token config));
  result ← on_machine (CommitPush (oc_root config) active
    (mkCommit (task_id request) (oc_workspace config) (oc_branch config) (oc_message config) token) log_git);
  mret (JObj [("branch", JStr (cs_branch result)); ("commit", JStr (cs_commit result)); ("noChange", JBool (cs_noChange result))]).

Definition check_setup (request : TaskRequest) : rpc (checkWaitConfig * string * Z) :=
  match decode_checkWaitConfig (tq_config request) with
  | inl e => inl e
  | inr config =>
      match validateCheckWait config with
      | inl e => inl (mkStatus InvalidArgument e)
      | inr _ =>
          match secret (tq_secrets request) (gc_tokenSecret (ck_repository config)) with
          | inl e => inl (mkStatus InvalidArgument e)
          | inr token => inr (config, token, if String.eqb (ck_pollInterval config) "" then 5 * second else default 0 (time_ParseDuration (ck_pollInterval config)))
          end
      end
  end.
Definition await (interval : Z) : Handler W unit :=
  on_first (λ g, let '(ended, g) := gh_wait interval g in (match ended with Some e => inl e | None => inr tt end, g)).
(** One poll; [None] goes on waiting. *)
Definition check_turn (config : checkWaitConfig) (token : string) : Handler W (option checkSnapshot) :=
  currentHead ← on_first (pullRequestHead config token);
  if negb (EqualFold currentHead (ck_ref config)) then
    let snapshot := mkCheckSnapshot (ToLower (ck_ref config)) "stale" [] [] in
    emit "github.checks.stale" (snapshot_json snapshot) ≫= λ _, mret (Some snapshot)
  else
  snapshot ← on_first (commitCheckSnapshot config token);
  let snapshot := set_state (evaluateCheckSnapshot snapshot (ck_required config)) snapshot in
  if String.eqb (sn_state snapshot) "success" then
    finalHead ← on_first (pullRequestHead config token);
    if negb (EqualFold finalHead (ck_ref config)) then
      let snapshot := set_state "stale" snapshot in
      emit "github.checks.stale" (snapshot_json snapshot) ≫= λ _, mret (Some snapshot)
    else emit "github.checks.succeeded" (snapshot_json snapshot) ≫= λ _, mret (Some snapshot)
  else if String.eqb (sn_state snapshot) "failure" then
    emit "github.checks.failed" (snapshot_json snapshot) ≫= λ _,
    reject FailedPrecondition "required GitHub checks or commit statuses failed"
  else emit "github.checks.pending" (snapshot_json snapshot) ≫= λ _, mret None.
Fixpoint wait_turns (n : nat) (config : checkWaitConfig) (token : string) (interval : Z) : Handler W (option checkSnapshot) :=
  match n with
  | O => mret None
  | S n =>
      answer ← check_turn config token;
      match answer with
      | Some snapshot => mret (Some snapshot)
      | None => await interval ≫= λ _, wait_turns n config token interval
      end
  end.
Definition waitForCommitChecks (n : nat) (request : TaskRequest) : Handler W (option checkSnapshot) :=
  '(config, token, interval) ← lift_rpc (check_setup request);
  wait_turns n config token interval.

(** [Execute]: [None] while a wait for checks goes on after [n] polls. *)
Definition Execute (n : nat) (active : gset string) (request : TaskRequest) : Handler W (option json) :=
  emit "github.started" (mkobj [("action", JStr (tq_action request))]) ≫= λ _,
  let action := tq_action request in
  if String.eqb action "github.issue.get" then (a ← on_first (issueGet request); mret (Some a))
  else if String.eqb action "github.issue.comment" then (a ← on_first (issueComment request); mret (Some a))
  else if String.eqb action "github.workspace.checkout" then (a ← checkout active request; mret (Some a))
  else if String.eqb action "github.workspace.commit-push" then (a ← commitPush active request; mret (Some a))
  else if String.eqb action "github.pr.ensure" then (a ← on_first (ensurePullRequest request); mret (Some a))
  else if String.eqb action "github.commit.checks.wait" then
    answer ← waitForCommitChecks n request; mret (snapshot_json <$> answer)
  else reject Unknown ("unsupported action " +:+ quoted action).
End Tasks.
