(* ===== verification/GithubFacts.v ===== *)
(** Facts about the GitHub provider: what a successful wait for checks has seen,
    what a watch has sent, and how often a comment is posted. *)

From Stdlib Require Import Ascii.
From Stdlib Require String.
From S2P Require Import Prelude.
From S2P Require Import Json.
From S2P Require Import GoStd.
From S2P Require Import JsonPlain.
From S2P Require Import Redact.
From S2P Require Import JsonRound.
From S2P Require Import Resource.
From S2P Require Import Plan.
From S2P Require Import PluginMapping.
From S2P Require Import PluginContract.
From S2P Require Import FlowCompiler.
From S2P Require Import Db.
From S2P Require Import StorePlugins.
From S2P Require Import StoreResources.
From S2P Require Import ManagerRun.
From S2P Require Import PluginSchema.
From S2P Require Import PluginSdk.
From S2P Require Import ServerPages.
From S2P Require Import ServerHandlers.
From S2P Require Import Workspace.
From S2P Require Import GithubApi.
From S2P Require Import GithubWatch.
From S2P Require Import GithubActions.

Local Open Scope Z_scope.

(** ** The wait for checks *)

Definition concluded (c : checkSummary) : Prop := sm_conclusion c ∈ ["success"; "neutral"; "skipped"].
Definition completed (c : checkSummary) : Prop := sm_status c = "completed".
(** The required checks of a snapshot. *)
Definition required_checks (required : list string) (s : checkSnapshot) : list checkSummary :=
  filter (λ c, sm_name c ∈ required) (sn_checks s).
Definition green (s : checkSnapshot) (required : list string) : Prop :=
  (∀ name, name ∈ required → ∃ c, c ∈ sn_checks s ∧ sm_name c = name) ∧
  Forall (λ c, completed c ∧ concluded c) (required_checks required s) ∧
  Forall (λ x, ss_state x = "success") (sn_statuses s).
Definition red (s : checkSnapshot) (required : list string) : Prop :=
  Exists (λ c, completed c ∧ ¬ concluded c) (required_checks required s) ∨
  Exists (λ x, ss_state x ≠ "success" ∧ ss_state x ≠ "pending") (sn_statuses s).

Lemma existsb_eqb x l : existsb (String.eqb x) l = true ↔ x ∈ l.
Proof.
  rewrite existsb_exists. split.
  - intros (y&Hin&->%String.eqb_eq). by apply list_elem_of_In.
  - intros Hin. exists x. by rewrite <- list_elem_of_In, String.eqb_refl.
Qed.
Lemma judge_checks_spec l p :
  match judge_checks l p with
  | None => Exists (λ c, completed c ∧ ¬ concluded c) l
  | Some q => Forall (λ c, completed c → concluded c) l ∧ (q = false ↔ p = false ∧ Forall completed l)
  end.
Proof.
  revert p. induction l as [|c l IH]; intros p; cbn [judge_checks].
  - split; [constructor|]. split; [by split|by intros [-> _]].
  - destruct (String.eqb _ _) eqn:Hc.
    + apply String.eqb_eq in Hc. cbn [negb]. destruct (existsb _ _) eqn:Hs.
      * apply existsb_eqb in Hs. specialize (IH p). destruct (judge_checks l p) as [q|]; [|by apply Exists_cons_tl].
        destruct IH as [H1 H2]. split; [by constructor|]. rewrite H2, Forall_cons. naive_solver.
      * apply Exists_cons_hd. split; [done|]. intros Hin. apply existsb_eqb in Hin. congruence.
    + apply String.eqb_neq in Hc. cbn [negb]. specialize (IH true). destruct (judge_checks l true) as [q|]; [|by apply Exists_cons_tl].
      destruct IH as [H1 H2]. split; [by constructor|]. rewrite H2, Forall_cons. naive_solver.
Qed.
Lemma judge_statuses_spec l p :
  match judge_statuses l p with
  | None => Exists (λ x, ss_state x ≠ "success" ∧ ss_state x ≠ "pending") l
  | Some q => Forall (λ x, ss_state x = "success" ∨ ss_state x = "pending") l ∧ (q = false ↔ p = false ∧ Forall (λ x, ss_state x = "success") l)
  end.
Proof.
  revert p. induction l as [|x l IH]; intros p; cbn [judge_statuses].
  - split; [constructor|]. split; [by split|by intros [-> _]].
  - destruct (String.eqb (ss_state x) "success") eqn:Hs.
    + apply String.eqb_eq in Hs. specialize (IH p). destruct (judge_statuses l p) as [q|]; [|by apply Exists_cons_tl].
      destruct IH as [H1 H2]. split; [constructor; auto|]. rewrite H2, Forall_cons. naive_solver.
    + apply String.eqb_neq in Hs. destruct (String.eqb (ss_state x) "pending") eqn:Hp.
      * apply String.eqb_eq in Hp. specialize (IH true). destruct (judge_statuses l true) as [q|]; [|by apply Exists_cons_tl].
        destruct IH as [H1 H2]. split; [constructor; auto|]. rewrite H2, Forall_cons. naive_solver.
      * apply String.eqb_neq in Hp. by apply Exists_cons_hd.
Qed.
Lemma judge_required_spec s required p :
  match judge_required s required p with
  | None => Exists (λ c, completed c ∧ ¬ concluded c) (required_checks required s)
  | Some q => Forall (λ c, completed c → concluded c) (required_checks required s) ∧
      (q = false ↔ p = false ∧ (∀ name, name ∈ required → ∃ c, c ∈ sn_checks s ∧ sm_name c = name) ∧ Forall completed (required_checks required s))
  end.
Proof.
  assert (Hf : ∀ names (P : checkSummary → Prop), Forall P (required_checks names s) ↔ ∀ c, c ∈ sn_checks s → sm_name c ∈ names → P c).
  { intros names P. rewrite Forall_forall. setoid_rewrite list_elem_of_filter. naive_solver. }
  revert p. induction required as [|name required IH]; intros p; cbn [judge_required].
  - rewrite !Hf. split; [by intros ???%not_elem_of_nil|]. split; [intros ->|by intros [-> _]].
    split_and!; [done|by intros ??%not_elem_of_nil|by intros ???%not_elem_of_nil].
  - assert (Hname : ∀ c, c ∈ filter (λ c, sm_name c = name) (sn_checks s) ↔ sm_name c = name ∧ c ∈ sn_checks s) by (intros c; by rewrite list_elem_of_filter).
    destruct (filter _ _) as [|c0 cs] eqn:Hn.
    + specialize (IH true). destruct (judge_required s required true) as [q|].
      * destruct IH as [H1 H2]. rewrite Hf in H1. rewrite Hf. split.
        { intros c Hin [Hc|Hc]%elem_of_cons; [|by apply H1]. by pose proof (proj2 (Hname c) (conj Hc Hin)) as ?%not_elem_of_nil. }
        rewrite H2. split; [by intros [? _]|]. intros (_&Hall&_). destruct (Hall name) as (c&Hin&Hc); [left|].
        by pose proof (proj2 (Hname c) (conj Hc Hin)) as ?%not_elem_of_nil.
      * apply Exists_exists in IH as (c&Hin&Hc). apply Exists_exists. exists c. split; [|done].
        apply list_elem_of_filter in Hin as [? ?]. apply list_elem_of_filter. split; [by right|done].
    + pose proof (judge_checks_spec (c0 :: cs) p) as Hj. destruct (judge_checks (c0 :: cs) p) as [p'|]; cbn [mbind option_bind].
      * destruct Hj as [J1 J2]. specialize (IH p'). destruct (judge_required s required p') as [q|].
        -- destruct IH as [H1 H2]. rewrite Forall_forall in J1. setoid_rewrite Forall_forall in J2. setoid_rewrite Hname in J1. setoid_rewrite Hname in J2.
           rewrite Hf in H1. rewrite Hf in H2. rewrite !Hf. split.
           { intros c Hin [Hc|Hc]%elem_of_cons; [by apply J1|by apply H1]. }
           assert (H0 : c0 ∈ sn_checks s ∧ sm_name c0 = name) by (apply and_comm, Hname; left).
           rewrite H2, J2. setoid_rewrite elem_of_cons. naive_solver.
        -- apply Exists_exists in IH as (c&Hin&Hc). apply Exists_exists. exists c. split; [|done].
           apply list_elem_of_filter in Hin as [? ?]. apply list_elem_of_filter. split; [by right|done].
      * apply Exists_exists in Hj as (c&Hin&Hc). apply Exists_exists. exists c. split; [|done].
        apply Hname in Hin as [Hc1 Hc2]. apply list_elem_of_filter. split; [rewrite Hc1; left|done].
Qed.

Lemma required_forall (s : checkSnapshot) required (P Q : checkSummary → Prop) :
  Forall P (required_checks required s) → Forall (λ c, P c → Q c) (required_checks required s) → Forall (λ c, P c ∧ Q c) (required_checks required s).
Proof. rewrite !Forall_forall. naive_solver. Qed.
(** The verdict of a snapshot: green, red, or still pending. *)
Lemma evaluate_spec s required :
  (evaluateCheckSnapshot s required = "success" ↔ green s required) ∧ (evaluateCheckSnapshot s required = "failure" ↔ red s required).
Proof.
  unfold evaluateCheckSnapshot. pose proof (judge_required_spec s required false) as Hr.
  destruct (judge_required s required false) as [p|]; cbn [mbind option_bind].
  - destruct Hr as [R1 R2]. pose proof (judge_statuses_spec (sn_statuses s) p) as Hs. destruct (judge_statuses (sn_statuses s) p) as [q|].
    + destruct Hs as [S1 S2].
      assert (Hnotred : ¬ red s required).
      { intros [H|H]; apply Exists_exists in H as (x&Hx&H1&H2); [by apply H2, (proj1 (Forall_forall _ _) R1)|].
        by destruct (proj1 (Forall_forall _ _) S1 x Hx). }
      destruct q; split; split; try done.
      * intros (G1&G2&G3). destruct S2 as [_ S2]. discriminate S2. split; [|done]. apply R2. split_and!; [done|done|]. by eapply Forall_impl; [exact G2|intros c [? _]].
      * intros _. destruct S2 as [S2 _]. destruct (S2 eq_refl) as [-> S3]. destruct R2 as [R2 _]. destruct (R2 eq_refl) as (_&R3&R4).
        split_and!; [done|by apply required_forall|done].
    + split; split; try done; [|by right].
      intros (_&_&G3). apply Exists_exists in Hs as (x&Hx&H1&_). by destruct H1; apply (proj1 (Forall_forall _ _) G3).
  - split; split; try done; [|by left].
    intros (_&G2&_). apply Exists_exists in Hr as (c&Hc&_&H2). by destruct H2; apply (proj1 (Forall_forall _ _) G2).
Qed.

Section Waiting.
Context {G X T : Type} {github : GithubService G} {sink : EventSink T}.

Lemma on_first_ok {A} (p : Handler G A) (w : G * (X * T)) a w' :
  on_first p w = (inr a, w') ↔ ∃ g, p w.1 = (inr a, g) ∧ w' = (g, w.2).
Proof.
  unfold on_first. destruct (p w.1) as [r g]. split; [intros [= -> <-]; by exists g|by intros (?&[= -> ->]&->)].
Qed.
Lemma emit_ok eventType payload (w : G * (X * T)) w' :
  emit eventType payload w = (inr tt, w') → w'.1 = w.1.
Proof. unfold emit. destruct (sink_emit _ _ _) as [[e|] o]; by intros [= <-]. Qed.

(** What a snapshot carries is of the commit that was asked for. *)
Lemma commitCheckSnapshot_head config token g s g' : commitCheckSnapshot config token g = (inr s, g') → sn_head s = ToLower (ck_ref config).
Proof.
  unfold commitCheckSnapshot. intros H. apply handler_bind_ok in H as ([[r1 checks] more1]&g1&_&H). destruct more1; [done|]. cbn [fst snd] in H.
  apply handler_bind_ok in H as ([[[c r] l] more2]&g2&_&H). destruct more2; [done|]. cbn [fst snd] in H. cbv zeta in H.
  destruct (EqualFold _ _) eqn:He; [|done]. apply handler_ret_ok in H as [-> _]. cbn [sn_head].
  apply String.eqb_eq in He. done.
Qed.

(** The final head a successful wait has read, and the snapshot before it. *)
Record confirmed (config : checkWaitConfig) (token : string) (snapshot : checkSnapshot) (g : G) : Prop := {
  cf_state : sn_state snapshot = "success";
  cf_head : sn_head snapshot = ToLower (ck_ref config);
  cf_green : green snapshot (ck_required config);
  cf_last : ∃ before seen g1 head, commitCheckSnapshot config token before = (inr seen, g1) ∧
    sn_checks seen = sn_checks snapshot ∧ sn_statuses seen = sn_statuses snapshot ∧
    pullRequestHead config token g1 = (inr head, g) ∧ EqualFold head (ck_ref config) = true }.
(** The pull request has another head. *)
Definition moved (config : checkWaitConfig) (token : string) (snapshot : checkSnapshot) (g : G) : Prop :=
  sn_state snapshot = "stale" ∧ ∃ g1 head, pullRequestHead config token g1 = (inr head, g) ∧ EqualFold head (ck_ref config) = false.

Lemma check_turn_ok config token (w : G * (X * T)) snapshot w' :
  check_turn config token w = (inr (Some snapshot), w') → confirmed config token snapshot w'.1 ∨ moved config token snapshot w'.1.
Proof.
  unfold check_turn. intros H. apply handler_bind_ok in H as (head&w1&H1&H). apply on_first_ok in H1 as (g1&H1&->).
  destruct (EqualFold head _) eqn:Hh; cbn [negb] in H.
  2: { apply handler_bind_ok in H as ([]&w2&H2&H). apply emit_ok in H2. apply handler_ret_ok in H as [[= ->] ->]. right. split; [done|].
       rewrite H2. by exists w.1, head. }
  apply handler_bind_ok in H as (seen&w2&H2&H). apply on_first_ok in H2 as (g2&H2&->). cbn [fst] in H2. cbv zeta in H.
  destruct (String.eqb (sn_state _) "success") eqn:Hs.
  - apply handler_bind_ok in H as (final&w3&H3&H). apply on_first_ok in H3 as (g3&H3&->). cbn [fst] in H3.
    destruct (EqualFold final _) eqn:Hf; cbn [negb] in H; apply handler_bind_ok in H as ([]&w4&H4&H); apply emit_ok in H4; apply handler_ret_ok in H as [[= ->] ->].
    + left. rewrite H4. cbn [fst]. apply String.eqb_eq in Hs. split; [done|by apply commitCheckSnapshot_head in H2|exact (proj1 (proj1 (evaluate_spec _ _)) Hs)|].
      by exists g1, seen, g2, final.
    + right. split; [done|]. rewrite H4. by exists g2, final.
  - destruct (String.eqb (sn_state _) "failure"); apply handler_bind_ok in H as ([]&w3&_&H); [done|]. by apply handler_ret_ok in H as [? _].
Qed.
Lemma wait_turns_ok n config token interval (w : G * (X * T)) snapshot w' :
  wait_turns n config token interval w = (inr (Some snapshot), w') → confirmed config token snapshot w'.1 ∨ moved config token snapshot w'.1.
Proof.
  revert w. induction n as [|n IH]; intros w H; cbn [wait_turns] in H; [by apply handler_ret_ok in H as [? _]|].
  apply handler_bind_ok in H as (answer&w1&H1&H). destruct answer as [s|].
  - apply handler_ret_ok in H as [[= ->] ->]. by apply check_turn_ok in H1.
  - apply handler_bind_ok in H as ([]&w2&_&H). by apply IH in H.
Qed.

(** An answer of the wait does not depend on how many more polls were allowed. *)
Lemma wait_turns_more n m config token interval (w : G * (X * T)) r w' :
  wait_turns n config token interval w = (r, w') → r ≠ inr None → (n ≤ m)%nat → wait_turns m config token interval w = (r, w').
Proof.
  revert m w. induction n as [|n IH]; intros m w H Hr Hle; cbn [wait_turns] in H; [by injection H as <- _|].
  destruct m as [|m]; [lia|]. cbn [wait_turns]. unfold mbind, handler_bind in *. destruct (check_turn config token w) as [[e|[s|]] w1]; [done|done|].
  destruct (await interval w1) as [[e|[]] w2]; [done|]. apply IH; [done|done|lia].
Qed.
End Waiting.

(** ** What was read *)

Section Reading.
Context {G : Type} {github : GithubService G}.

(** Requests that only read, and waits. *)
Inductive asked : relation G :=
  | asked_get endpoint token g : asked g (gh_do "GET" endpoint token "" g).2
  | asked_wait d g : asked g (gh_wait d g).2.
Definition asks {A} (p : Handler G A) : Prop := ∀ g, rtc asked g (p g).2.
Lemma asks_ret {A} (r : rpc A) : asks (lift_rpc r).
Proof. intros g. reflexivity. Qed.
Lemma asks_bind {A B} (p : Handler G A) (q : A → Handler G B) : asks p → (∀ a, asks (q a)) → asks (p ≫= q).
Proof.
  intros Hp Hq g. unfold mbind, handler_bind. specialize (Hp g). destruct (p g) as [[e|a] g1]; [exact Hp|]. etrans; [exact Hp|apply Hq].
Qed.
Lemma asks_request endpoint token : asks (do_request "GET" endpoint token "").
Proof. intros g. unfold do_request. pose proof (asked_get endpoint token g) as H. destruct (gh_do "GET" endpoint token "" g) as [r g1]. by apply rtc_once. Qed.
Lemma asks_response n endpoint token : asks (get_response n endpoint token).
Proof.
  induction n as [|n IH]; cbn [get_response]; [intros g; reflexivity|]. apply asks_bind; [apply asks_request|]. intros response.
  destruct (negb (rate_limited response)); [intros g; reflexivity|]. destruct n as [|n]; [intros g; reflexivity|]. apply asks_bind; [|by intros _].
  intros g. pose proof (asked_wait (retryDelay (gh_now g) response) g) as H. destruct (gh_wait _ g) as [ended g1]. by apply rtc_once.
Qed.
Lemma asks_json {A} (decode : string → option A) endpoint token : asks (getJSON decode endpoint token).
Proof.
  unfold getJSON. apply asks_bind; [apply asks_response|]. intros response. destruct (negb (succeeded response)); [intros g; reflexivity|].
  apply asks_bind; [apply asks_ret|]. intros value g. reflexivity.
Qed.
Lemma asks_items {A B} (item : A → Handler G (list B)) l : (∀ a, asks (item a)) → ∀ found, asks (add_items item found l).
Proof. intros Hi. induction l as [|a l IH]; intros found; cbn [add_items]; [intros g; reflexivity|]. apply asks_bind; [apply Hi|]. intros b. apply IH. Qed.
Lemma asks_pages {A B} n (decode : string → option (list A)) (item : A → Handler G (list B)) next token : (∀ a, asks (item a)) → asks (pages n decode item next token).
Proof.
  intros Hi. unfold pages. generalize (@nil B). revert next. induction n as [|n IH]; intros next found; cbn [walk_pages];
    destruct (String.eqb next ""); try (intros g; reflexivity).
  apply asks_bind; [apply asks_json|]. intros page. apply asks_bind; [by apply asks_items|]. intros found'. apply IH.
Qed.

(** [a] was on a page of the listing at [url]: the first one, or one that the link
    of such a page leads to, read at some time after [g0]. *)
Inductive on_page {A} (g0 : G) (decode : string → option (list A)) (token : string) : string → A → Prop :=
  | page_here url g l link g' a : rtc asked g0 g → getJSON decode url token g = (inr (l, link), g') → a ∈ l → on_page g0 decode token url a
  | page_next url g l link g' a : rtc asked g0 g → getJSON decode url token g = (inr (l, link), g') → on_page g0 decode token (nextLink link) a →
      on_page g0 decode token url a.
(** The pages of a listing, at most [n]; whether some are left. *)
Inductive walked {A} (g0 : G) (decode : string → option (list A)) (token : string) : nat → string → list A → bool → Prop :=
  | walked_all n : walked g0 decode token n "" [] false
  | walked_left url : url ≠ "" → walked g0 decode token 0 url [] true
  | walked_page n url g l link g' rest more : url ≠ "" → rtc asked g0 g → getJSON decode url token g = (inr (l, link), g') →
      walked g0 decode token n (nextLink link) rest more → walked g0 decode token (S n) url (l ++ rest) more.

Lemma add_items_each {A B} (item : A → Handler G (list B)) g0 l : (∀ a, asks (item a)) → ∀ found g found' g', rtc asked g0 g →
  add_items item found l g = (inr found', g') → found ⊆ found' ∧
  (∀ b, b ∈ found' → b ∈ found ∨ ∃ a g1 l1 g2, a ∈ l ∧ rtc asked g0 g1 ∧ item a g1 = (inr l1, g2) ∧ b ∈ l1) ∧
  ∀ a, a ∈ l → ∃ g1 l1 g2, rtc asked g0 g1 ∧ item a g1 = (inr l1, g2) ∧ l1 ⊆ found'.
Proof.
  intros Hi. induction l as [|a l IH]; intros found g found' g' Hg H; cbn [add_items] in H.
  { apply handler_ret_ok in H as [-> _]. split_and!; [done|by left|]. intros a Ha. by apply elem_of_nil in Ha. }
  apply handler_bind_ok in H as (b&g1&H1&H). pose proof (Hi a g) as Ha. rewrite H1 in Ha. cbn [snd] in Ha.
  apply IH in H as (I1&I2&I3); [|by etrans]. split_and!.
  - set_solver.
  - intros x Hx. apply I2 in Hx as [Hx|(a'&g2&l1&g3&?&?&?&?)]; [|right; exists a', g2, l1, g3; set_solver].
    apply elem_of_app in Hx as [Hx|Hx]; [by left|right]. exists a, g, b, g1. split_and!; [left|done|done|done].
  - intros x Hx. apply elem_of_cons in Hx as [->|Hx]; [|by apply I3]. exists g, b, g1. split_and!; [done|done|set_solver].
Qed.
(** What a walk found comes from items of its pages, and every item was looked at. *)
Lemma pages_each {A B} n (decode : string → option (list A)) (item : A → Handler G (list B)) url token g0 g r g' :
  (∀ a, asks (item a)) → rtc asked g0 g → pages n decode item url token g = (inr r, g') →
  (∀ b, b ∈ r.1 → ∃ a g1 l1 g2, on_page g0 decode token url a ∧ rtc asked g0 g1 ∧ item a g1 = (inr l1, g2) ∧ b ∈ l1) ∧
  ∃ read, walked g0 decode token n url read r.2 ∧ ∀ a, a ∈ read → ∃ g1 l1 g2, rtc asked g0 g1 ∧ item a g1 = (inr l1, g2) ∧ l1 ⊆ r.1.
Proof.
  intros Hi. unfold pages. set (P := λ (found : list B) (r : list B * bool) url n, found ⊆ r.1 ∧
    (∀ b, b ∈ r.1 → b ∈ found ∨ ∃ a g1 l1 g2, on_page g0 decode token url a ∧ rtc asked g0 g1 ∧ item a g1 = (inr l1, g2) ∧ b ∈ l1) ∧
    ∃ read, walked g0 decode token n url read r.2 ∧ ∀ a, a ∈ read → ∃ g1 l1 g2, rtc asked g0 g1 ∧ item a g1 = (inr l1, g2) ∧ l1 ⊆ r.1).
  assert (Hwalk : ∀ n url found g r g', rtc asked g0 g → walk_pages n decode (add_items item) url token found g = (inr r, g') → P found r url n).
  { clear -Hi. intros n. induction n as [|n IH]; intros url found g r g' Hg H; cbn [walk_pages] in H; destruct (String.eqb_spec url "") as [->|Hne].
    1, 2, 3: apply handler_ret_ok in H as [-> _]; split_and!; [done|by left|]; exists []; (split; [by constructor|]); intros a Ha; by apply elem_of_nil in Ha.
    apply handler_bind_ok in H as ([l link]&g1&H1&H). apply handler_bind_ok in H as (found1&g2&H2&H). cbn [fst snd] in H2, H.
    pose proof (asks_json decode url token g) as Hg1. rewrite H1 in Hg1. cbn [snd] in Hg1.
    pose proof (asks_items item l Hi found g1) as Hg2. rewrite H2 in Hg2. cbn [snd] in Hg2.
    assert (rtc asked g0 g1) by by etrans. assert (rtc asked g0 g2) by by etrans.
    apply (add_items_each item g0) in H2 as (J1&J2&J3); [|done|done]. apply IH in H as (I1&I2&read&I3&I4); [|done]. split_and!.
    - set_solver.
    - intros b Hb. apply I2 in Hb as [Hb|(a&g3&l1&g4&?&?&?&?)].
      + apply J2 in Hb as [Hb|(a&g3&l1&g4&?&?&?&?)]; [by left|right]. exists a, g3, l1, g4. split_and!; try done. eapply page_here; [exact Hg|exact H1|done].
      + right. exists a, g3, l1, g4. split_and!; try done. eapply page_next; [exact Hg|exact H1|done].
    - exists (l ++ read). split; [eapply walked_page; [exact Hne|exact Hg|exact H1|exact I3]|]. intros a [Ha|Ha]%elem_of_app; [|by apply I4].
      apply J3 in Ha as (g3&l1&g4&?&?&?). exists g3, l1, g4. split_and!; [done|done|set_solver]. }
  intros Hg H. apply Hwalk in H as (_&H1&H2); [|done]. split; [|exact H2]. intros b Hb. apply H1 in Hb as [Hb|Hb]; [by apply elem_of_nil in Hb|exact Hb].
Qed.
End Reading.

(** ** What a watch sends *)

Section Conversation.
Context {T : Type} {stream : TriggerStream T}.

(** Every message was sent after the one before it was acknowledged. *)
Inductive exchanged : list TriggerEventPB → T → T → Prop :=
  | exchanged_nil t : exchanged [] t t
  | exchanged_cons m l t t1 t2 t' : ts_send m t = (None, t1) → ts_recv t1 = (inr (CommandAck (tv_id m) (tv_cursor m)), t2) →
      exchanged l t2 t' → exchanged (m :: l) t t'.
(** The event that was not: it could not be written, sending it failed, or what
    came back was not its acknowledgement. *)
Definition unacknowledged {A} (pb : A → rpc TriggerEventPB) (event : A) (t t' : T) : Prop :=
  (∃ e, pb event = inl e ∧ t' = t) ∨
  ∃ m, pb event = inr m ∧ ((∃ e, ts_send m t = (Some e, t')) ∨
    ∃ t1 command, ts_send m t = (None, t1) ∧ ts_recv t1 = (command, t') ∧ command ≠ inr (CommandAck (tv_id m) (tv_cursor m))).

Lemma exchanged_app l k t t1 t2 : exchanged l t t1 → exchanged k t1 t2 → exchanged (l ++ k) t t2.
Proof. induction 1; intros Hk; [done|]. econstructor; eauto. Qed.

Context {G : Type} {A C : Type} (pb : A → rpc TriggerEventPB) (cursor_of : A → C).

Lemma sendAndAwaitAck_ok m (w : G * T) r w' : sendAndAwaitAck m w = (r, w') →
  w'.1 = w.1 ∧ match r with
    | inr _ => exchanged [m] w.2 w'.2
    | inl _ => (∃ e, ts_send m w.2 = (Some e, w'.2)) ∨
        ∃ t1 command, ts_send m w.2 = (None, t1) ∧ ts_recv t1 = (command, w'.2) ∧ command ≠ inr (CommandAck (tv_id m) (tv_cursor m))
    end.
Proof.
  unfold sendAndAwaitAck, mbind, handler_bind, on_stream. destruct (ts_send m w.2) as [[e|] t1] eqn:Es.
  { intros [= <- <-]. split; [done|]. left. by exists e. }
  cbn [snd]. destruct (ts_recv t1) as [[e|command] t2] eqn:Er.
  { intros [= <- <-]. split; [done|]. right. by exists t1, (inl e). }
  cbn [fst snd]. destruct command as [start|id cursor|]; [|destruct (String.eqb id _ && String.eqb cursor _) eqn:Hack|].
  1, 3, 4: intros [= <- <-]; split; [done|]; right; eexists t1, _; split_and!; [done|exact Er|]; try done.
  - intros [= -> ->]. by rewrite !String.eqb_refl in Hack.
  - apply andb_true_iff in Hack as [->%String.eqb_eq ->%String.eqb_eq]. intros [= <- <-]. split; [done|].
    econstructor; [exact Es|exact Er|constructor].
Qed.

Lemma deliver_events_ok events cursor (w : G * T) r w' : deliver_events pb cursor_of events cursor w = (r, w') →
  w'.1 = w.1 ∧ ∃ acked messages t1, Forall2 (λ a m, pb a = inr m) acked messages ∧ exchanged messages w.2 t1 ∧
    match r with
    | inr c => acked = events ∧ w'.2 = t1 ∧ c = default cursor (cursor_of <$> last acked)
    | inl _ => ∃ event rest, events = acked ++ event :: rest ∧ unacknowledged pb event t1 w'.2
    end.
Proof.
  revert cursor w. induction events as [|event events IH]; intros cursor w H; cbn [deliver_events] in H.
  { injection H as <- <-. split; [done|]. exists [], [], w.2. split_and!; try done; constructor. }
  unfold mbind, handler_bind, lift_rpc in H. destruct (pb event) as [e|m] eqn:Hm.
  { injection H as <- <-. split; [done|]. exists [], [], w.2. split_and!; [constructor|constructor|]. exists event, events. split; [done|]. left. by exists e. }
  destruct (sendAndAwaitAck m w) as [[e|[]] w1] eqn:Hs; apply sendAndAwaitAck_ok in Hs as [Hg Hs].
  { injection H as <- <-. split; [done|]. exists [], [], w.2. split_and!; [constructor|constructor|]. exists event, events. split; [done|]. right. by exists m. }
  apply IH in H as (Hg'&acked&messages&t1&H1&H2&H3). split; [congruence|].
  exists (event :: acked), (m :: messages), t1. split_and!; [by constructor|by eapply (exchanged_app [m])|].
  destruct r as [e|c].
  - destruct H3 as (x&rest&->&Hx). by exists x, rest.
  - destruct H3 as (->&->&->). split_and!; [done|done|]. rewrite last_cons. by destruct (last events).
Qed.

(** Events of one poll are sorted and after the cursor; then so are those of all
    polls together. *)
Context (after : C → A → Prop) (le : A → A → Prop) (Q : A → Prop) (complete : C → list A → Prop) {le_trans : Transitive le}.
Hypothesis after_le : ∀ a b, Q a → after (cursor_of a) b → le a b.
Hypothesis after_trans : ∀ c a b, after c a → le a b → after c b.
Context {github : GithubService G} (g0 : G) (list_events : C → Handler G (list A)) (interval : Z).
Hypothesis listed : ∀ c g l g', rtc asked g0 g → list_events c g = (inr l, g') →
  rtc asked g0 g' ∧ StronglySorted le l ∧ Forall (after c) l ∧ Forall Q l ∧ complete c l.

(** The events of [n] polls: those of each are complete for the cursor it had. *)
Inductive polled : nat → C → list A → Prop :=
  | polled_none c : polled 0 c []
  | polled_some n c l rest : complete c l → polled n (default c (cursor_of <$> last l)) rest → polled (S n) c (l ++ rest).
Definition delivered (n : nat) (cursor : C) (t : T) (r : rpc C) (t' : T) : Prop :=
  ∃ acked messages t1, Forall2 (λ a m, pb a = inr m) acked messages ∧ exchanged messages t t1 ∧
    StronglySorted le acked ∧ Forall (after cursor) acked ∧ Forall Q acked ∧
    (t' = t1 ∨ ∃ event, unacknowledged pb event t1 t' ∧ after cursor event ∧ Q event ∧ Forall (λ a, le a event) acked) ∧
    ∀ c, r = inr c → t' = t1 ∧ c = default cursor (cursor_of <$> last acked) ∧ polled n cursor acked.

Lemma last_le l a : StronglySorted le l → last l = Some a → ∀ b, le a b → Forall (λ x, le x b) l.
Proof.
  intros Hs Hl b Hb. apply last_Some in Hl as [l' ->]. apply Forall_app. split; [|by repeat constructor].
  apply StronglySorted_app in Hs as (Hx&_&_). apply Forall_forall. intros x Hin. etrans; [apply Hx; [done|left]|done].
Qed.
Lemma after_last cursor l b : StronglySorted le l → Forall (after cursor) l → Forall Q l →
  after (default cursor (cursor_of <$> last l)) b → after cursor b ∧ Forall (λ x, le x b) l.
Proof.
  intros Hs Ha Hq Hb. destruct (last l) as [a|] eqn:Hl; cbn in Hb.
  - assert (Hin : a ∈ l) by (apply last_Some in Hl as [l' ->]; apply elem_of_app; right; left).
    assert (Hab : le a b) by (apply after_le; [by apply (proj1 (Forall_forall _ _) Hq)|done]).
    split; [|by eapply last_le]. eapply after_trans; [by apply (proj1 (Forall_forall _ _) Ha)|done].
  - apply last_None in Hl as ->. split; [done|constructor].
Qed.

Lemma delivered_none n cursor t r : (∀ c, r = inr c → c = cursor ∧ n = 0%nat) → delivered n cursor t r t.
Proof.
  intros H. exists [], [], t. split_and!; [constructor..|by left|]. intros c Hc. destruct (H c Hc) as [-> ->]. split_and!; [done|done|constructor].
Qed.
Lemma waits_on interval' (w : G * T) r w' :
  on_first (λ g, let '(ended, g) := gh_wait interval' g in (match ended with Some e => inl e | None => inr tt end : rpc unit, g)) w = (r, w') →
  w'.2 = w.2 ∧ rtc asked w.1 w'.1.
Proof.
  unfold on_first. pose proof (asked_wait interval' w.1) as Hw. destruct (gh_wait interval' w.1) as [ended g]. intros H.
  injection H as _ <-. split; [done|by apply rtc_once].
Qed.
Lemma poll_delivers n cursor (w : G * T) r w' : rtc asked g0 w.1 →
  poll n list_events pb cursor_of interval cursor w = (r, w') → delivered n cursor w.2 r w'.2.
Proof.
  revert cursor w. induction n as [|n IH]; intros cursor w Hw0 H; cbn [poll] in H.
  { injection H as <- <-. apply delivered_none. split; [congruence|done]. }
  unfold mbind, handler_bind in H. unfold on_first at 1 in H. destruct (list_events cursor w.1) as [[e|events] g] eqn:Hl.
  { injection H as <- <-. by apply delivered_none. }
  apply listed in Hl as (L0&L1&L2&L3&L4); [|done].
  destruct (deliver_events pb cursor_of events cursor (g, w.2)) as [[e|c] w1] eqn:Hs; apply deliver_events_ok in Hs as (Hg1&acked&messages&t1&H1&H2&H3); cbn [fst snd] in Hg1, H2.
  { injection H as <- <-. destruct H3 as (event&rest&->&Hu). apply StronglySorted_app in L1 as (X1&X2&_). apply Forall_app in L2 as [Y1 Y2]. apply Forall_app in L3 as [Z1 Z2].
    exists acked, messages, t1. split_and!; try done. right. exists event. apply Forall_cons in Y2 as [Y2 _]. apply Forall_cons in Z2 as [Z2 _].
    split_and!; try done. apply Forall_forall. intros a Ha. apply X1; [done|left]. }
  destruct H3 as (->&Ht1&->). destruct (on_first _ w1) as [[e|[]] w2] eqn:Hw; apply waits_on in Hw as [E Hw].
  { injection H as <- <-. exists events, messages, t1. split_and!; try done. left. by rewrite E. }
  apply IH in H as (acked&messages'&t2&I1&I2&I3&I4&I5&I6&I7); [|etrans; [|exact Hw]; by rewrite Hg1]. rewrite E, Ht1 in I2.
  assert (Hlater : Forall (λ b, after cursor b ∧ Forall (λ x, le x b) events) acked).
  { apply (Forall_impl _ _ _ I4). intros b Hb. by apply after_last. }
  exists (events ++ acked), (messages ++ messages'), t2. split_and!.
  - by apply Forall2_app.
  - by eapply exchanged_app.
  - apply StronglySorted_app. split_and!; [|done|done]. intros x1 x2 H1' H2'. pose proof (proj1 (Forall_forall _ _) Hlater x2 H2') as [_ Hx].
    by apply (proj1 (Forall_forall _ _) Hx).
  - apply Forall_app. split; [done|]. by eapply Forall_impl; [exact Hlater|intros b [? _]].
  - by apply Forall_app.
  - destruct I6 as [->|(event&U1&U2&U3&U4)]; [by left|right]. apply after_last in U2 as [V1 V2]; [|done..]. exists event. split_and!; try done. by apply Forall_app.
  - intros c Hc. apply I7 in Hc as (->&->&Hp). split_and!; [done| |by constructor]. rewrite last_app. by destruct (last acked).
Qed.
End Conversation.

(** ** What the listings return *)

Section Listed.
Context {G : Type} {github : GithubService G}.

Lemma sorted_impl {A} (R R' : A → A → Prop) l : (∀ a b, R a b → R' a b) → StronglySorted R l → StronglySorted R' l.
Proof. intros HR. induction 1 as [|a l _ IH Ha]; constructor; [done|]. by eapply Forall_impl; [exact Ha|intros b; apply HR]. Qed.
(** *** Issues *)

Definition issue_after (cursor : Z) (e : readyEvent) : Prop := cursor < re_id e.
Definition issue_le (a b : readyEvent) : Prop := re_id a ≤ re_id b.
(** A labeling the watch is for; [label] and [fence] are its own. *)
Definition issue_wanted (label : string) (fence cursor : Z) (event : issueEvent) : Prop :=
  cursor < ie_id event ∧ ie_event event = "labeled" ∧ ie_label event = label ∧ before_fence fence (ie_created event) = false.
(** The event that is sent for one of the listing: its issue is the embedded one, or
    what its URL answered. *)
Definition reads_issue (g0 : G) (token : string) (event : issueEvent) (e : readyEvent) : Prop :=
  re_id e = ie_id event ∧ re_created e = ie_created event ∧
  (ie_issue event = Some (re_issue e) ∧ 0 < is_number (re_issue e) ∨
   (∀ i, ie_issue event = Some i → is_number i ≤ 0) ∧
   ∃ g link g', rtc asked g0 g ∧ getJSON decode_issue (ie_issueURL event) token g = (inr (re_issue e, link), g')).
Definition ready_from (g0 : G) (config : repositoryConfig) (label token : string) (fence : Z) (e : readyEvent) : Prop :=
  ∃ event cursor, on_page g0 decode_issueEvents token (issueEvents_url config) event ∧ issue_wanted label fence cursor event ∧ reads_issue g0 token event e.
Definition issues_complete (g0 : G) (config : repositoryConfig) (label token : string) (fence cursor : Z) (l : list readyEvent) : Prop :=
  ∃ read more, walked g0 decode_issueEvents token 100 (issueEvents_url config) read more ∧
    ∀ event, event ∈ read → issue_wanted label fence cursor event → ∃ e, e ∈ l ∧ reads_issue g0 token event e.

Ltac asks_nothing := intros ?; reflexivity.
Lemma asks_ready config token cursor fence event : asks (ready_event config token cursor fence event).
Proof.
  unfold ready_event. destruct (_ || _); [asks_nothing|]. apply asks_bind.
  { destruct (ie_issue event) as [i|]; [destruct (0 <? is_number i)|]; asks_nothing. }
  intros [item|]; [asks_nothing|]. destruct (String.eqb _ _); [asks_nothing|]. apply asks_bind; [apply asks_json|intros item; asks_nothing].
Qed.
Lemma ready_event_ok config token cursor fence event g0 g l g' : rtc asked g0 g →
  ready_event config token cursor fence event g = (inr l, g') →
  (∀ e, e ∈ l → issue_wanted (wc_label config) fence cursor event ∧ reads_issue g0 token event e) ∧
  (issue_wanted (wc_label config) fence cursor event → ∃ e, e ∈ l).
Proof.
  intros Hg. unfold ready_event. destruct (_ || _) eqn:Hc.
  { intros H. apply handler_ret_ok in H as [-> _]. split; [intros e He; by apply elem_of_nil in He|]. intros (H1&H2&H3&H4).
    rewrite H2, H3, H4, !String.eqb_refl, (proj2 (Z.leb_gt _ _) H1) in Hc. done. }
  rewrite !orb_false_iff, Z.leb_gt, !negb_false_iff, !String.eqb_eq in Hc. destruct Hc as [[[Hid He] Hl] Hf].
  assert (Hw : issue_wanted (wc_label config) fence cursor event) by done.
  intros H. apply handler_bind_ok in H as (item&g1&Hitem&H).
  assert (Hg1 : g1 = g ∧ match item with Some i => ie_issue event = Some i ∧ 0 < is_number i | None => ∀ i, ie_issue event = Some i → is_number i ≤ 0 end).
  { destruct (ie_issue event) as [i|] eqn:Ei; [destruct (Z.ltb_spec 0 (is_number i))|]; apply handler_ret_ok in Hitem as [-> ->]; naive_solver. }
  destruct Hg1 as [-> Hi]. destruct item as [item|].
  - apply handler_ret_ok in H as [-> _]. split; [|by eexists; left]. intros e ->%list_elem_of_singleton. split; [done|]. split_and!; [done|done|by left].
  - destruct (String.eqb _ _); [done|]. apply handler_bind_ok in H as ([found link]&g2&Hj&H). apply handler_ret_ok in H as [-> _].
    split; [|by eexists; left]. intros e ->%list_elem_of_singleton. split; [done|]. split_and!; [done|done|]. right. split; [done|]. by exists g, link, g2.
Qed.
Lemma listReadyEvents_ok config token cursor activatedAt g0 g l g' : rtc asked g0 g → listReadyEvents config token cursor activatedAt g = (inr l, g') →
  rtc asked g0 g' ∧ StronglySorted issue_le l ∧ Forall (issue_after cursor) l ∧
  Forall (ready_from g0 (wc_repository config) (wc_label config) token (activation_fence activatedAt)) l ∧
  issues_complete g0 (wc_repository config) (wc_label config) token (activation_fence activatedAt) cursor l.
Proof.
  unfold listReadyEvents. intros Hg H. apply handler_bind_ok in H as ([found more]&g1&H1&H). apply handler_ret_ok in H as [-> ->]. cbn [fst].
  set (item := ready_event config token cursor (activation_fence activatedAt)) in *. assert (Hi : ∀ a, asks (item a)) by (intros a; apply asks_ready).
  pose proof (asks_pages 100 decode_issueEvents item (issueEvents_url (wc_repository config)) token Hi g) as Ha. rewrite H1 in Ha. cbn [snd] in Ha.
  apply (pages_each _ _ _ _ _ g0) in H1 as (Hfrom&read&Hw&Hall); [|done|done]. cbn [fst snd] in *.
  assert (Hin : ∀ e, e ∈ found → ∃ event, on_page g0 decode_issueEvents token (issueEvents_url (wc_repository config)) event ∧
            issue_wanted (wc_label config) (activation_fence activatedAt) cursor event ∧ reads_issue g0 token event e).
  { intros e He. apply Hfrom in He as (event&g2&l1&g3&Hp&Hg2&Hr&He). exists event. split; [done|]. apply (ready_event_ok _ _ _ _ _ g0) in Hr as [Hr _]; [|done]. by apply Hr. }
  split_and!.
  - by etrans.
  - apply (sorted_impl _ issue_le) with (2 := sort_by_sorted (onc re_id Z.compare) found). intros a b Hb. by apply Z.compare_le_iff.
  - rewrite sort_by_perm. apply Forall_forall. intros e He. destruct (Hin e He) as (event&_&(Hlt&_)&(Hid&_)). unfold issue_after. by rewrite Hid.
  - rewrite sort_by_perm. apply Forall_forall. intros e He. destruct (Hin e He) as (event&Hp&Hwant&Hr). by exists event, cursor.
  - exists read, more. split; [done|]. intros event Hev Hwant. destruct (Hall event Hev) as (g2&l1&g3&Hg2&Hr&Hsub).
    apply (ready_event_ok _ _ _ _ _ g0) in Hr as [Hr1 Hr2]; [|done]. destruct (Hr2 Hwant) as [e He]. exists e. split; [apply elem_of_sort_by; by apply Hsub|by apply Hr1].
Qed.

(** *** Reviews *)

Definition review_after (cursor : reviewCursor) (r : submittedReview) : Prop := reviewCursorAfter (sr_cursor r) cursor = true.
Definition review_le : submittedReview → submittedReview → Prop := cmp_le review_order.
Definition pulls_url (config : repositoryConfig) : string := repository_url config "/pulls?state=all&sort=updated&direction=desc&per_page=100".
Definition reviews_url (config : repositoryConfig) (pull : Z) : string := repository_url config ("/pulls/" +:+ itoa pull +:+ "/reviews?per_page=100").
Definition comments_url (config : repositoryConfig) (pull review : Z) : string :=
  repository_url config ("/pulls/" +:+ itoa pull +:+ "/reviews/" +:+ itoa review +:+ "/comments?per_page=100").
(** A review the watch is for: decided, after its cursor and not before its fence. *)
Definition review_wanted (fence : Z) (cursor : reviewCursor) (raw : reviewRecord) : Prop :=
  0 < rv_id raw ∧ rv_submitted raw ≠ zero_time ∧ (ToUpper (rv_state raw) = "APPROVED" ∨ ToUpper (rv_state raw) = "CHANGES_REQUESTED") ∧
  reviewCursorAfter (mkReviewCursor (rv_submitted raw) (rv_id raw)) cursor = true ∧ before_fence fence (rv_submitted raw) = false.
(** The comments of a review are those of its listing. *)
Definition comments_of (g0 : G) (config : repositoryConfig) (token : string) (pull review : Z) (l : list reviewCommentPayload) : Prop :=
  (∀ p, p ∈ l → ∃ c, on_page g0 decode_comments token (comments_url config pull review) c ∧ comment_payload review c = inr p) ∧
  ∃ read, walked g0 decode_comments token 100 (comments_url config pull review) read false ∧
    ∀ c, c ∈ read → ∃ p, p ∈ l ∧ comment_payload review c = inr p.
(** The event that is sent for a review of a pull request: to the Run that has
    marked the pull request. *)
Record reads_review (g0 : G) (config : repositoryConfig) (token : string) (pull : pullRecord) (raw : reviewRecord) (r : submittedReview) : Prop := {
  rr_pull : sr_pull r = pull;
  rr_run : targetRunFromMarker (pu_body pull) = Some (sr_run r);
  rr_review : sr_review r = mkReview (rv_id raw) (ToUpper (rv_state raw)) (rv_body raw) (rv_submitted raw) (rv_commit raw) (rv_login raw);
  rr_cursor : sr_cursor r = mkReviewCursor (rv_submitted raw) (rv_id raw);
  rr_comments : comments_of g0 config token (pu_number pull) (rv_id raw) (sr_comments r) }.
Definition managed (g0 : G) (config : repositoryConfig) (token : string) (fence : Z) (r : submittedReview) : Prop :=
  ∃ pull raw cursor, on_page g0 decode_pulls token (pulls_url config) pull ∧
    on_page g0 decode_reviews token (reviews_url config (pu_number pull)) raw ∧ review_wanted fence cursor raw ∧ reads_review g0 config token pull raw r.
Definition reviews_complete (g0 : G) (config : repositoryConfig) (token : string) (fence : Z) (cursor : reviewCursor) (l : list submittedReview) : Prop :=
  ∃ pulls, walked g0 decode_pulls token 100 (pulls_url config) pulls false ∧
    ∀ pull run, pull ∈ pulls → targetRunFromMarker (pu_body pull) = Some run →
    ∃ reviews, walked g0 decode_reviews token 100 (reviews_url config (pu_number pull)) reviews false ∧
      ∀ raw, raw ∈ reviews → review_wanted fence cursor raw → ∃ r, r ∈ l ∧ reads_review g0 config token pull raw r.
#[local] Instance review_order_total : TotalCmp review_order.
Proof. unfold review_order. apply _. Qed.
Lemma review_le_spec a b : review_le a b ↔
  vc_submitted (sr_cursor a) < vc_submitted (sr_cursor b) ∨
  vc_submitted (sr_cursor a) = vc_submitted (sr_cursor b) ∧ vc_id (sr_cursor a) ≤ vc_id (sr_cursor b).
Proof.
  unfold review_le, cmp_le, review_order, lexc, onc. destruct (Z.compare_spec (vc_submitted (sr_cursor a)) (vc_submitted (sr_cursor b))) as [E|E|E].
  - rewrite Z.compare_le_iff. lia.
  - split; [by left|done].
  - split; [done|lia].
Qed.
Lemma review_after_spec c b : review_after c b ↔
  vc_submitted c = zero_time ∨ vc_submitted c < vc_submitted (sr_cursor b) ∨
  vc_submitted c = vc_submitted (sr_cursor b) ∧ vc_id c < vc_id (sr_cursor b).
Proof.
  unfold review_after, reviewCursorAfter. rewrite !orb_true_iff, andb_true_iff, !Z.eqb_eq, !Z.ltb_lt. lia.
Qed.
Lemma asks_comments config token pull review : asks (listReviewComments config token pull review).
Proof.
  unfold listReviewComments. apply asks_bind.
  - apply asks_pages. intros c. apply asks_bind; [asks_nothing|intros p; asks_nothing].
  - intros [l [|]]; asks_nothing.
Qed.
Lemma asks_review config token cursor fence pull run raw : asks (submitted_review config token cursor fence pull run raw).
Proof.
  unfold submitted_review. cbv zeta. destruct (_ || _ || _); [asks_nothing|]. destruct (_ || _); [asks_nothing|]. destruct (negb _ || _); [asks_nothing|].
  apply asks_bind; [apply asks_comments|intros l; asks_nothing].
Qed.
Lemma asks_reviews config token cursor fence pull : asks (pull_reviews config token cursor fence pull).
Proof.
  unfold pull_reviews. destruct (targetRunFromMarker _) as [run|]; [|asks_nothing]. destruct (_ || _); [asks_nothing|].
  apply asks_bind; [apply asks_pages; intros raw; apply asks_review|]. intros [l [|]]; asks_nothing.
Qed.
Lemma listReviewComments_ok config token pull review g0 g l g' : rtc asked g0 g → listReviewComments config token pull review g = (inr l, g') →
  comments_of g0 config token pull review l.
Proof.
  intros Hg H. unfold listReviewComments in H. apply handler_bind_ok in H as ([found more]&g1&H1&H). destruct more; [done|]. apply handler_ret_ok in H as [-> _].
  cbn [fst]. set (item := λ c : reviewComment, lift_rpc (comment_payload review c) ≫= λ p, mret [p]) in *.
  assert (Hitem : ∀ c g1 l1 g2, item c g1 = (inr l1, g2) → ∃ p, comment_payload review c = inr p ∧ l1 = [p]).
  { intros c g2 l1 g3 H2. unfold item in H2. apply handler_bind_ok in H2 as (p&g4&H2&H3). apply handler_ret_ok in H3 as [-> _].
    unfold lift_rpc in H2. injection H2 as H2 _. by exists p. }
  apply (pages_each _ _ _ _ _ g0) in H1 as (Hfrom&read&Hw&Hall); [|intros c; apply asks_bind; [asks_nothing|intros p; asks_nothing]|done].
  cbn [fst snd] in *. split.
  - intros p Hp. apply Hfrom in Hp as (c&g2&l1&g3&Hpage&_&Hi&Hp). exists c. split; [done|].
    apply Hitem in Hi as (p'&Hc&->). apply list_elem_of_singleton in Hp. congruence.
  - exists read. split; [done|]. intros c Hc. destruct (Hall c Hc) as (g2&l1&g3&_&Hi&Hsub). apply Hitem in Hi as (p&Hp&->). exists p. split; [apply Hsub; left|done].
Qed.
Lemma submitted_review_ok config token cursor fence pull run raw g0 g l g' : targetRunFromMarker (pu_body pull) = Some run → rtc asked g0 g →
  submitted_review config token cursor fence pull run raw g = (inr l, g') →
  (∀ r, r ∈ l → review_wanted fence cursor raw ∧ reads_review g0 config token pull raw r) ∧ (review_wanted fence cursor raw → ∃ r, r ∈ l).
Proof.
  intros Hrun Hg. unfold submitted_review. cbv zeta. destruct (_ || _ || _) eqn:Hc.
  { intros H. apply handler_ret_ok in H as [-> _]. split; [intros r Hr; by apply elem_of_nil in Hr|]. intros (H1&H2&H3&_).
    rewrite (proj2 (Z.leb_gt _ _) H1), (proj2 (Z.eqb_neq _ _) H2) in Hc. destruct H3 as [H3|H3]; by rewrite H3 in Hc. }
  rewrite !orb_false_iff, andb_false_iff, !negb_false_iff in Hc. destruct Hc as [[Hid%Z.leb_gt Hz%Z.eqb_neq] Hstate].
  destruct (String.eqb _ _ || _); [done|]. cbn [rv_id rv_submitted].
  destruct (negb _ || _) eqn:Hk; intros H.
  { apply handler_ret_ok in H as [-> _]. split; [intros r Hr; by apply elem_of_nil in Hr|]. intros (_&_&_&H4&H5). by rewrite H4, H5 in Hk. }
  apply orb_false_iff in Hk as [Hafter%negb_false_iff Hf].
  assert (Hwant : review_wanted fence cursor raw).
  { split_and!; try done. destruct Hstate as [Hs%String.eqb_eq|Hs%String.eqb_eq]; [by left|by right]. }
  apply handler_bind_ok in H as (comments&g1&Hcomments&H). apply handler_ret_ok in H as [-> _]. apply (listReviewComments_ok _ _ _ _ g0) in Hcomments; [|done].
  split; [|by eexists; left]. intros r ->%list_elem_of_singleton. split; [done|]. by split.
Qed.
Lemma pull_reviews_ok config token cursor fence pull g0 g l g' : rtc asked g0 g → pull_reviews config token cursor fence pull g = (inr l, g') →
  (∀ r, r ∈ l → ∃ raw, on_page g0 decode_reviews token (reviews_url config (pu_number pull)) raw ∧ review_wanted fence cursor raw ∧
     reads_review g0 config token pull raw r) ∧
  ∀ run, targetRunFromMarker (pu_body pull) = Some run →
    ∃ reviews, walked g0 decode_reviews token 100 (reviews_url config (pu_number pull)) reviews false ∧
      ∀ raw, raw ∈ reviews → review_wanted fence cursor raw → ∃ r, r ∈ l ∧ reads_review g0 config token pull raw r.
Proof.
  intros Hg H. unfold pull_reviews in H. destruct (targetRunFromMarker _) as [run|] eqn:Hrun.
  2: { apply handler_ret_ok in H as [-> _]. split; [intros r Hr; by apply elem_of_nil in Hr|done]. }
  destruct (_ || _); [done|]. apply handler_bind_ok in H as ([reviews left]&g2&H2&H). destruct left; [done|]. apply handler_ret_ok in H as [-> _]. cbn [fst].
  apply (pages_each _ _ _ _ _ g0) in H2 as (Hfrom&read&Hw&Hall); [|intros raw; apply asks_review|done]. cbn [fst snd] in *. split.
  - intros r Hr. apply Hfrom in Hr as (raw&g3&l1&g4&Hpage&Hg3&Hi&Hr). exists raw. split; [done|].
    apply (submitted_review_ok _ _ _ _ _ _ _ g0) in Hi as [Hi _]; [|done|done]. by apply Hi.
  - intros run' _. exists read. split; [done|]. intros raw Hraw Hwant. destruct (Hall raw Hraw) as (g3&l1&g4&Hg3&Hi&Hsub).
    apply (submitted_review_ok _ _ _ _ _ _ _ g0) in Hi as [Hi1 Hi2]; [|done|done]. destruct (Hi2 Hwant) as [r Hr]. exists r. split; [by apply Hsub|by apply Hi1].
Qed.
Lemma listSubmittedReviews_ok config token cursor activatedAt g0 g l g' : rtc asked g0 g → listSubmittedReviews config token cursor activatedAt g = (inr l, g') →
  rtc asked g0 g' ∧ StronglySorted review_le l ∧ Forall (review_after cursor) l ∧ Forall (managed g0 config token (activation_fence activatedAt)) l ∧
  reviews_complete g0 config token (activation_fence activatedAt) cursor l.
Proof.
  unfold listSubmittedReviews. intros Hg H. apply handler_bind_ok in H as ([found more]&g1&H1&H). destruct more; [done|].
  apply handler_ret_ok in H as [-> ->]. cbn [fst]. fold (pulls_url config) in H1. set (fence := activation_fence activatedAt) in *.
  pose proof (asks_pages 100 decode_pulls _ (pulls_url config) token (asks_reviews config token cursor fence) g) as Ha. rewrite H1 in Ha. cbn [snd] in Ha.
  apply (pages_each _ _ _ _ _ g0) in H1 as (Hfrom&read&Hw&Hall); [|intros pull; apply asks_reviews|done]. cbn [fst snd] in *.
  assert (Hin : ∀ r, r ∈ found → ∃ pull raw, on_page g0 decode_pulls token (pulls_url config) pull ∧
    on_page g0 decode_reviews token (reviews_url config (pu_number pull)) raw ∧ review_wanted fence cursor raw ∧ reads_review g0 config token pull raw r).
  { intros r Hr. apply Hfrom in Hr as (pull&g2&l1&g3&Hp&Hg2&Hi&Hr). apply (pull_reviews_ok _ _ _ _ _ g0) in Hi as [Hi _]; [|done].
    destruct (Hi r Hr) as (raw&?&?&?). by exists pull, raw. }
  split_and!.
  - by etrans.
  - apply (sort_by_sorted review_order).
  - rewrite sort_by_perm. apply Forall_forall. intros r Hr. destruct (Hin r Hr) as (pull&raw&_&_&(_&_&_&Hafter&_)&Hreads).
    unfold review_after. by rewrite (rr_cursor _ _ _ _ _ _ Hreads).
  - rewrite sort_by_perm. apply Forall_forall. intros r Hr. destruct (Hin r Hr) as (pull&raw&?&?&?&?). by exists pull, raw, cursor.
  - exists read. split; [done|]. intros pull run Hpull Hrun. destruct (Hall pull Hpull) as (g2&l1&g3&Hg2&Hi&Hsub).
    apply (pull_reviews_ok _ _ _ _ _ g0) in Hi as [_ Hi]; [|done]. destruct (Hi run Hrun) as (reviews&Hwr&Hr). exists reviews. split; [done|].
    intros raw Hraw Hwant. destruct (Hr raw Hraw Hwant) as (r&Hin1&Hreads). exists r. split; [apply elem_of_sort_by; by apply Hsub|done].
Qed.
End Listed.

(** ** The two sources *)

Section Sources.
Context {G T : Type} {github : GithubService G} {stream : TriggerStream T} {urls : UrlParser}.

Lemma invalid_argument_ok {A W} (r : string + A) (w : W) a w' : invalid_argument r w = (inr a, w') ↔ r = inr a ∧ w' = w.
Proof. unfold invalid_argument, lift_rpc. destruct r; split; [done|by intros [? _]|by intros [= -> ->]|by intros [[= ->] ->]]. Qed.
Lemma lift_rpc_ok {A W} (r : rpc A) (w : W) a w' : lift_rpc r w = (inr a, w') ↔ r = inr a ∧ w' = w.
Proof. unfold lift_rpc. split; [by intros [= -> ->]|by intros [-> ->]]. Qed.

Definition watched_label (config : watchConfig) : string := if String.eqb (wc_label config) "" then "orchigram:ready" else wc_label config.
Definition issues_delivered (config : watchConfig) (token : string) (fence : Z) (n : nat) (cursor : Z) (w : G * T) (r : rpc Z) (w' : G * T) : Prop :=
  let repository := wc_repository config in
  delivered (λ e, inr (ready_event_pb repository e)) re_id issue_after issue_le
    (ready_from w.1 repository (watched_label config) token fence) (issues_complete w.1 repository (watched_label config) token fence)
    n cursor w.2 r w'.2.
Definition reviews_delivered (config : watchConfig) (token : string) (fence : Z) (n : nat) (cursor : reviewCursor) (w : G * T) (r : rpc reviewCursor) (w' : G * T) : Prop :=
  let repository := wc_repository config in
  delivered (review_event_pb repository) sr_cursor review_after review_le
    (managed w.1 repository token fence) (reviews_complete w.1 repository token fence) n cursor w.2 r w'.2.
Lemma watchIssues_delivers n start config interval token cursor activatedAt (w : G * T) r w' :
  watch_setup true start = inr (config, interval, token) → parseCursor (gs_cursor start) = inr cursor →
  providerActivation start (wc_replayExisting config) (0 <? cursor) = inr activatedAt →
  watchIssues n start w = (r, w') → issues_delivered config token (activation_fence activatedAt) n cursor w r w'.
Proof.
  intros Hs Hc Ha H. unfold watchIssues, mbind, handler_bind, lift_rpc in H. rewrite Hs in H. cbv beta iota zeta in H.
  unfold invalid_argument, lift_rpc in H. rewrite Hc in H. cbn [wc_repository wc_label wc_replayExisting] in H. rewrite Ha in H. cbv beta iota in H.
  eapply poll_delivers; [| | | | |exact H].
  - intros a b c. unfold issue_le. lia.
  - intros a b _. unfold issue_after, issue_le. lia.
  - intros c a b. unfold issue_after, issue_le. lia.
  - intros c g l g' Hg Hl. cbv beta in Hl. exact (listReadyEvents_ok _ _ _ _ _ _ _ _ Hg Hl).
  - reflexivity.
Qed.
Lemma watchReviews_delivers n start config interval token cursor activatedAt (w : G * T) r w' :
  watch_setup false start = inr (config, interval, token) → parseReviewCursor (gs_cursor start) = inr cursor →
  providerActivation start (wc_replayExisting config) (negb (vc_submitted cursor =? zero_time)) = inr activatedAt →
  watchReviews n start w = (r, w') → reviews_delivered config token (activation_fence activatedAt) n cursor w r w'.
Proof.
  intros Hs Hc Ha H. unfold watchReviews, mbind, handler_bind, lift_rpc in H. rewrite Hs in H. cbv beta iota zeta in H.
  unfold invalid_argument, lift_rpc in H. rewrite Hc, Ha in H. cbv beta iota in H.
  eapply poll_delivers; [| | | | |exact H].
  - intros a b c. rewrite !review_le_spec. lia.
  - intros a b (pull&raw&c&_&_&(_&Hz&_)&Hr) Hb%review_after_spec. rewrite review_le_spec. rewrite (rr_cursor _ _ _ _ _ _ Hr) in Hb |- *. cbn [vc_submitted vc_id] in *. lia.
  - intros c a b. rewrite !review_after_spec, review_le_spec. lia.
  - intros c g l g' Hg Hl. cbv beta in Hl. exact (listSubmittedReviews_ok _ _ _ _ _ _ _ _ Hg Hl).
  - reflexivity.
Qed.
End Sources.

(** ** A marked comment is posted once *)

Lemma substring_all s : String.substring 0 (String.length s) s = s.
Proof. induction s as [|c s IH]; [done|]. cbn. by rewrite IH. Qed.
Lemma substring_from a s n : String.substring (String.length a) n (a +:+ s) = String.substring 0 n s.
Proof. induction a as [|c a IH]; [done|]. exact IH. Qed.
Lemma substring_long s n : (String.length s ≤ n)%nat → String.substring 0 n s = s.
Proof. revert n. induction s as [|c s IH]; intros [|n] H; cbn in *; try done; [lia|]. by rewrite IH by lia. Qed.
Lemma contains_end a needle : contains needle (a +:+ needle) = true.
Proof.
  unfold contains. apply existsb_exists. exists (String.length a). split.
  - apply in_seq. rewrite append_length. lia.
  - rewrite substring_from, substring_long by (rewrite append_length; lia). unfold has_prefix.
    assert (E : strip_prefix needle needle = Some ""). { induction needle as [|c needle IH]; [done|]. cbn. by rewrite Ascii.eqb_refl. }
    by rewrite E.
Qed.
Lemma marked_contains body marker : contains marker (marked body marker) = true.
Proof. unfold marked. rewrite <- append_assoc. apply contains_end. Qed.

Section Posting.
Context {G : Type} {github : GithubService G} {sha : Sha256} {urls : UrlParser}.

(** What GitHub does with the comments of one issue, whose bodies are [bodies]:
    reading changes nothing, posting adds the comment or fails before it did, and a
    listing that has come to its end holds exactly the comments. *)
Class CommentLaws (endpoint token : string) (bodies : G → list string) : Prop := {
  law_read : ∀ e t g, bodies (gh_do "GET" e t "" g).2 = bodies g;
  law_wait : ∀ d g, bodies (gh_wait d g).2 = bodies g;
  law_post : ∀ body g, let g' := (gh_do "POST" endpoint token (marshal (mkobj [("body", JStr body)])) g).2 in
    bodies g' = bodies g ∨ bodies g' = bodies g ++ [body];
  law_posted : ∀ body g response g', gh_do "POST" endpoint token (marshal (mkobj [("body", JStr body)])) g = (inr response, g') →
    succeeded response = true → bodies g' = bodies g ++ [body];
  law_listing : ∀ g l g', pages 100 decode_commentRecords (λ c, mret [c]) (endpoint +:+ "?per_page=100") token g = (inr (l, false), g') →
    ∀ body, body ∈ bodies g ↔ body ∈ cc_body <$> l }.

Context {endpoint token : string} {bodies : G → list string} {laws : CommentLaws endpoint token bodies}.

(** Reading leaves the comments alone. *)
Lemma get_response_bodies n e t g : bodies (get_response n e t g).2 = bodies g.
Proof.
  revert g. induction n as [|n IH]; intros g; cbn [get_response]; [done|]. unfold mbind, handler_bind, do_request.
  pose proof (law_read e t g) as H. destruct (gh_do "GET" e t "" g) as [[err|response] g1]; [done|]. cbn [snd] in H.
  destruct (rate_limited response); cbn [negb]; [|done]. destruct n as [|n]; [done|].
  pose proof (law_wait (retryDelay (gh_now g1) response) g1) as Hw. destruct (gh_wait _ g1) as [[err|] g2]; cbn [snd] in Hw; [by cbn; congruence|].
  rewrite IH. congruence.
Qed.
Lemma getJSON_bodies {A} (decode : string → option A) e t g : bodies (getJSON decode e t g).2 = bodies g.
Proof.
  unfold getJSON, mbind, handler_bind. pose proof (get_response_bodies 3 e t g) as H. destruct (get_response 3 e t g) as [[err|response] g1]; [done|].
  destruct (negb (succeeded response)); [done|]. unfold lift_rpc. by destruct (decodeLimited decode (gr_body response)).
Qed.
Lemma walk_bodies {A S} n (decode : string → option A) (add : S → A → Handler G S) next t found g :
  (∀ s a g, bodies (add s a g).2 = bodies g) → bodies (walk_pages n decode add next t found g).2 = bodies g.
Proof.
  intros Hadd. revert next found g. induction n as [|n IH]; intros next found g; cbn [walk_pages]; destruct (String.eqb next ""); try done.
  unfold mbind, handler_bind. pose proof (getJSON_bodies decode next t g) as H. destruct (getJSON decode next t g) as [[err|page] g1]; [done|]. cbn [snd] in H.
  pose proof (Hadd found page.1 g1) as Ha. destruct (add found page.1 g1) as [[err|found'] g2]; cbn [snd] in Ha; [by cbn; congruence|].
  rewrite IH. congruence.
Qed.
Lemma listing_bodies n next t g : bodies (pages n decode_commentRecords (λ c, mret [c]) next t g).2 = bodies g.
Proof.
  apply walk_bodies. intros found l. revert found. induction l as [|a l IH]; intros found g1; [done|]. apply IH.
Qed.

(** The whole listing fits into its hundred pages. *)
Definition listing_complete (g : G) : Prop :=
  ∀ l more g', pages 100 decode_commentRecords (λ c, mret [c]) (endpoint +:+ "?per_page=100") token g = (inr (l, more), g') → more = false.
Definition copies (marker : string) (g : G) : nat := length (filter (λ body, contains marker body = true) (bodies g)).

Lemma issueComment_copies request config g r g' :
  comment_of request = inr (config, token) → endpoint = issue_url (mc_issue config) +:+ "/comments" → listing_complete g →
  issueComment request g = (r, g') →
  (bodies g' = bodies g ∨ bodies g' = bodies g ++ [marked (mc_body config) (hiddenMarker request)] ∧ copies (hiddenMarker request) g = 0%nat) ∧
  ∀ answer, r = inr answer → (1 ≤ copies (hiddenMarker request) g')%nat.
Proof.
  intros Hc He Hcomplete H. unfold issueComment, mbind, handler_bind, lift_rpc in H. rewrite Hc in H. cbv beta iota zeta in H. rewrite <- He in H.
  pose proof (listing_bodies 100 (endpoint +:+ "?per_page=100") token g) as Hb.
  destruct (pages 100 _ _ _ token g) as [[err|[l more]] g1] eqn:Hl; cbn [snd] in Hb.
  { injection H as <- <-. split; [by left|done]. }
  pose proof (Hcomplete _ _ _ Hl) as ->. cbn [fst] in H. destruct (List.find _ l) as [comment|] eqn:Hfind.
  { injection H as <- <-. split; [by left|]. intros answer _. apply find_some in Hfind as [Hin Hcon].
    assert (Hbody : cc_body comment ∈ bodies g1).
    { rewrite Hb. apply (law_listing _ _ _ Hl), list_elem_of_fmap. exists comment. by rewrite list_elem_of_In. }
    unfold copies. assert (Hin' : cc_body comment ∈ filter (λ body, contains (hiddenMarker request) body = true) (bodies g1)) by by apply list_elem_of_filter.
    destruct (filter _ (bodies g1)); [by apply elem_of_nil in Hin'|cbn; lia]. }
  assert (Hnone : copies (hiddenMarker request) g = 0%nat).
  { unfold copies. apply length_zero_iff_nil. apply elem_of_nil_inv. intros body [Hcon Hin]%list_elem_of_filter.
    apply (law_listing _ _ _ Hl) in Hin. apply list_elem_of_fmap in Hin as (c&->&Hin). rewrite list_elem_of_In in Hin.
    pose proof (find_none _ _ Hfind _ Hin) as Hno. cbv beta in Hno. congruence. }
  unfold mutateJSON, mbind, handler_bind, do_request, comment_payload_text in H.
  pose proof (law_post (marked (mc_body config) (hiddenMarker request)) g1) as Hp. cbv zeta in Hp.
  pose proof (law_posted (marked (mc_body config) (hiddenMarker request)) g1) as Hposted.
  destruct (gh_do "POST" endpoint token _ g1) as [[err|response] g2]; cbn [snd] in Hp.
  { injection H as <- <-. rewrite <- Hb. split; [|done]. destruct Hp as [-> | ->]; [by left|by right]. }
  assert (Hg : g' = g2).
  { destruct (negb (succeeded response)); [by injection H|]. unfold lift_rpc in H. by destruct (decodeLimited _ _); injection H. }
  subst g'. rewrite <- Hb. split; [destruct Hp as [-> | ->]; [by left|by right]|].
  intros answer ->. destruct (succeeded response) eqn:Hs; [|discriminate H].
  specialize (Hposted _ _ eq_refl Hs). unfold copies. rewrite Hposted, filter_app, length_app, filter_cons_True by apply marked_contains.
  cbn. lia.
Qed.

(** Attempts of one request, and what others do in between without its marker. *)
Inductive comment_step (request : TaskRequest) (g g' : G) : Prop :=
  | attempt_step r : listing_complete g → issueComment request g = (r, g') → comment_step request g g'
  | other_step : copies (hiddenMarker request) g' = copies (hiddenMarker request) g → comment_step request g g'.
Lemma comment_steps request config g g' :
  comment_of request = inr (config, token) → endpoint = issue_url (mc_issue config) +:+ "/comments" →
  rtc (comment_step request) g g' → (copies (hiddenMarker request) g ≤ 1)%nat → (copies (hiddenMarker request) g' ≤ 1)%nat.
Proof.
  intros Hc He Hs. induction Hs as [|g g1 g2 Hstep _ IH]; [done|]. intros H. apply IH. destruct Hstep as [r Hcomplete Hr|Heq]; [|lia].
  apply (issueComment_copies _ _ _ _ _ Hc He Hcomplete) in Hr as [[E|[E Hz]] _]; unfold copies in *; rewrite E; [done|].
  rewrite filter_app, length_app, Hz, filter_cons_True by apply marked_contains. done.
Qed.
End Posting.

(** ** Cursors *)

(** *** Timestamps *)

Lemma pad_digits_of w n acc : ∃ l, pad_digits w n acc = implode l +:+ acc ∧ length l = w ∧ forallb is_digit l = true ∧
  ∀ a, digits_val l a = Some (a * 10 ^ Z.of_nat w + n mod 10 ^ Z.of_nat w).
Proof.
  revert n acc. induction w as [|w IH]; intros n acc; cbn [pad_digits].
  - exists []. split_and!; try done. intros a. cbn. f_equal. rewrite Z.mod_1_r. lia.
  - destruct (IH (n / 10) (String (digit_char (n mod 10)) acc)) as (l&E&Hl&Hd&Hv).
    destruct (digit_char_facts (n mod 10)) as (D1&_&D3&_); [by apply Z.mod_pos_bound|].
    exists (l ++ [digit_char (n mod 10)]). split_and!.
    + by rewrite E, implode_app, append_assoc.
    + rewrite length_app, Hl. cbn. lia.
    + rewrite forallb_app, Hd. cbn. by rewrite D1.
    + intros a. rewrite digits_val_app, Hv. cbn [mbind option_bind digits_val]. rewrite D1, D3. f_equal.
      rewrite Nat2Z.inj_succ, Z.pow_succ_r by lia. rewrite (Z.rem_mul_r n 10) by (try apply Z.pow_nonzero; lia). lia.
Qed.
Lemma padded_of w n : 0 ≤ n < 10 ^ Z.of_nat w → ∃ l, padded w n = implode l ∧ length l = w ∧ forallb is_digit l = true ∧ digits_val l 0 = Some n.
Proof.
  intros H. destruct (pad_digits_of w n "") as (l&E&Hl&Hd&Hv). exists l. split_and!; [|done|done|].
  - unfold padded. by rewrite E, append_nil.
  - rewrite Hv, Z.mod_small by done. f_equal.
Qed.
Lemma field_padded w lo hi stop n rest : 0 ≤ n < 10 ^ Z.of_nat w → lo ≤ n ≤ hi → field w lo hi stop (padded w n +:+ stop +:+ rest) = Some (n, rest).
Proof.
  intros Hn Hb. destruct (padded_of w n Hn) as (l&->&Hl&_&Hv). unfold field.
  assert (Hw : w = String.length (implode l)) by by rewrite implode_length.
  rewrite Hw at 1. rewrite substring_app, explode_implode, Hv. cbn [mbind option_bind].
  rewrite append_length, <- Hw, (proj2 (Nat.ltb_ge _ _)), (proj2 (Z.ltb_ge n lo)), (proj2 (Z.ltb_ge hi n)) by lia. cbn [orb].
  rewrite Hw at 1. rewrite substring_from, substring_long by lia. by rewrite strip_prefix_app.
Qed.

Definition civil_ok (doe : Z) : bool :=
  let yoe := (doe - doe / 1460 + doe / 36524 - doe / 146096) / 365 in
  let doy := doe - (365 * yoe + yoe / 4 - yoe / 100) in
  let mp := (5 * doy + 2) / 153 in
  let d := doy - (153 * mp + 2) / 5 + 1 in
  let m := if mp <? 10 then mp + 3 else mp - 9 in
  (0 <=? yoe) && (yoe <? 400) && (0 <=? mp) && (mp <? 12) && (1 <=? d) && (d <=? days_in (yoe + (if m <=? 2 then 1 else 0)) m).
Fixpoint civil_from (n : nat) (doe : Z) : bool := match n with O => true | S n => civil_ok doe && civil_from n (doe + 1) end.
Lemma civil_from_ok n doe k : civil_from n doe = true → doe ≤ k < doe + Z.of_nat n → civil_ok k = true.
Proof.
  revert doe. induction n as [|n IH]; intros doe H Hk; [lia|]. cbn [civil_from] in H. apply andb_prop in H as [H1 H2].
  destruct (decide (k = doe)) as [->|Hne]; [done|]. apply (IH (doe + 1)); [done|lia].
Qed.
Lemma civil_checked : civil_from (Z.to_nat 146097) 0 = true.
Proof. vm_compute. reflexivity. Qed.
Lemma days_in_period y k m : days_in (y + k * 400) m = days_in y m.
Proof.
  unfold days_in, leap. assert ((y + k * 400) mod 4 = y mod 4) as -> by (Z.div_mod_to_equations; lia).
  assert ((y + k * 400) mod 100 = y mod 100) as -> by (Z.div_mod_to_equations; lia).
  by rewrite Z.mod_add by lia.
Qed.
(** The civil date of a day is a date, and the day of that date. *)
Lemma civil_back days : let '(y, m, d) := civil_from_days days in days_from_civil y m d = days ∧ 1 ≤ m ≤ 12 ∧ 1 ≤ d ≤ days_in y m.
Proof.
  unfold civil_from_days. set (era := (days + 719468) / 146097). set (doe := (days + 719468) mod 146097).
  assert (Hdoe : 0 ≤ doe < 146097) by (apply Z.mod_pos_bound; lia).
  assert (Hdays : days = era * 146097 + doe - 719468) by (pose proof (Z.div_mod (days + 719468) 146097 ltac:(lia)); lia).
  assert (Hc : civil_ok doe = true) by (apply (civil_from_ok _ _ doe civil_checked); rewrite Z2Nat.id by done; lia).
  unfold civil_ok in Hc. clearbody era doe.
  set (yoe := (doe - doe / 1460 + doe / 36524 - doe / 146096) / 365) in *. set (doy := doe - (365 * yoe + yoe / 4 - yoe / 100)) in *.
  set (mp := (5 * doy + 2) / 153) in *. set (d := doy - (153 * mp + 2) / 5 + 1) in *.
  assert (Hd : d = doy - (153 * mp + 2) / 5 + 1) by done. assert (Hdoy : doy = doe - (365 * yoe + yoe / 4 - yoe / 100)) by done.
  clearbody yoe mp d. clearbody doy.
  rewrite !andb_true_iff, !Z.leb_le, !Z.ltb_lt in Hc. destruct Hc as [[[[[H1 H2] H3] H4] H5] H6].
  unfold days_from_civil. destruct (Z.ltb_spec mp 10) as [Hm|Hm]; cbv zeta.
  - rewrite (proj2 (Z.leb_gt (mp + 3) 2)) by lia. rewrite (proj2 (Z.leb_gt (mp + 3) 2)) in H6 by lia.
    rewrite Z.add_0_r, days_in_period. rewrite Z.add_0_r in H6. rewrite (proj2 (Z.ltb_lt 2 (mp + 3))) by lia.
    rewrite Z.div_add, Z.mod_add, (Z.div_small yoe), (Z.mod_small yoe) by lia. replace (mp + 3 - 3) with mp by lia. lia.
  - rewrite (proj2 (Z.leb_le (mp - 9) 2)) by lia. rewrite (proj2 (Z.leb_le (mp - 9) 2)) in H6 by lia.
    replace (yoe + era * 400 + 1) with (yoe + 1 + era * 400) by lia. rewrite days_in_period. rewrite (proj2 (Z.ltb_ge 2 (mp - 9))) by lia.
    replace (yoe + 1 + era * 400 - 1) with (yoe + era * 400) by lia.
    rewrite Z.div_add, Z.mod_add, (Z.div_small yoe), (Z.mod_small yoe) by lia. replace (mp - 9 + 9) with mp by lia. lia.
Qed.

Lemma strip_zeros_spec l : ∃ z, l = replicate z "0"%char ++ strip_zeros l.
Proof.
  induction l as [|c l (z&IH)]; [by exists 0%nat|]. cbn [strip_zeros]. destruct (Z.eqb_spec (byte c) 48) as [E|E].
  - exists (S z). cbn. rewrite <- IH. f_equal. unfold byte in E. rewrite <- (Ascii.ascii_N_embedding c). replace (Ascii.N_of_ascii c) with 48%N by lia. reflexivity.
  - by exists 0%nat.
Qed.
Lemma digits_zeros z v : digits_val (replicate z "0"%char) v = Some (v * 10 ^ Z.of_nat z).
Proof.
  revert v. induction z as [|z IH]; intros v; cbn [replicate digits_val]; [f_equal; lia|].
  change (is_digit "0") with true. cbv iota. change (byte "0" - 48) with 0. rewrite IH. f_equal. rewrite Nat2Z.inj_succ, Z.pow_succ_r by lia. ring.
Qed.
Lemma fraction_digits_of l k acc v rest : forallb is_digit l = true → digits_val l acc = Some v → (length l ≤ k)%nat →
  fraction_digits (implode l +:+ "Z" +:+ rest) k acc = (v * 10 ^ Z.of_nat (k - length l), "Z" +:+ rest).
Proof.
  revert k acc. induction l as [|c l IH]; intros k acc Hd Hv Hk; cbn [digits_val forallb length] in *.
  - injection Hv as <-. rewrite Nat.sub_0_r. destruct k; done.
  - apply andb_prop in Hd as [Hc Hd]. rewrite Hc in Hv. change (implode (c :: l) +:+ ?x) with (String c (implode l +:+ x)). cbn [fraction_digits]. rewrite Hc.
    destruct k as [|k]; [lia|]. rewrite (IH k) by (try done; lia). done.
Qed.
Lemma parse_fraction_back n rest : 0 ≤ n < 10 ^ 9 → parse_fraction (fraction 9 n +:+ "Z" +:+ rest) = Some (n, "Z" +:+ rest).
Proof.
  intros Hn. destruct (padded_of 9 n Hn) as (l&E&Hl&Hd&Hv). unfold fraction. rewrite E, explode_implode.
  destruct (strip_zeros_spec (rev l)) as [z Hz]. set (k := strip_zeros (rev l)) in *.
  assert (Hlk : l = rev k ++ replicate z "0"%char).
  { rewrite <- (rev_involutive l), Hz, rev_app_distr. f_equal. rewrite rev_alt. apply reverse_replicate. }
  clearbody k. assert (Hv' : ∃ v, digits_val (rev k) 0 = Some v ∧ v * 10 ^ Z.of_nat z = n).
  { rewrite Hlk, digits_val_app in Hv. destruct (digits_val (rev k) 0) as [v|]; [|done]. cbn [mbind option_bind] in Hv. rewrite digits_zeros in Hv.
    injection Hv as Hv. by exists v. }
  destruct Hv' as (v&Hv1&Hv2).
  assert (Hlen : (length (rev k) + z = 9)%nat) by (pose proof (f_equal length Hlk) as Hlen; rewrite length_app, length_replicate in Hlen; lia).
  assert (Hdk : forallb is_digit (rev k) = true) by (rewrite Hlk, forallb_app in Hd; by apply andb_prop in Hd as [? _]).
  destruct (rev k) as [|c k'] eqn:Ek.
  - cbn in Hv1. injection Hv1 as <-. rewrite Z.mul_0_l in Hv2. subst n. by destruct rest.
  - change (("." +:+ implode (c :: k')) +:+ "Z" +:+ rest) with (String "." (String c (implode k' +:+ "Z" +:+ rest))).
    pose proof (fraction_digits_of (c :: k') 9 0 v rest Hdk Hv1 ltac:(cbn [length] in *; lia)) as Hf.
    change (implode (c :: k') +:+ "Z" +:+ rest) with (String c (implode k' +:+ "Z" +:+ rest)) in Hf.
    cbn [parse_fraction]. change (Ascii.eqb "." ".") with true. cbv iota. cbn [forallb] in Hdk. apply andb_prop in Hdk as [-> _]. rewrite Hf.
    replace (9 - length (c :: k'))%nat with z by (cbn [length] in *; lia). by rewrite Hv2.
Qed.

(** An instant of a four-digit year is read back. *)
Lemma time_parse_back t : 0 ≤ year_of t ≤ 9999 → time_parse (rfc3339nano t) = Some t.
Proof.
  intros Hy. unfold year_of in Hy. unfold rfc3339nano. set (secs := t / second) in *. set (s := secs mod 86400).
  pose proof (civil_back (secs / 86400)) as Hc. destruct (civil_from_days (secs / 86400)) as [[y m] d]. cbn [fst] in Hy. destruct Hc as (Hdays&Hm&Hd).
  assert (Hs : 0 ≤ s < 86400) by (apply Z.mod_pos_bound; lia).
  assert (Hd31 : days_in y m ≤ 31) by (unfold days_in; repeat case_match; lia).
  assert (Hn : 0 ≤ t mod second < second) by (apply Z.mod_pos_bound; done).
  unfold time_parse.
  rewrite (field_padded 4 0 9999 "-" y) by (try done; change (10 ^ Z.of_nat 4) with 10000; lia). cbn [mbind option_bind].
  rewrite (field_padded 2 1 12 "-" m) by (change (10 ^ Z.of_nat 2) with 100; lia). cbn [mbind option_bind].
  rewrite (field_padded 2 1 (days_in y m) "T" d) by (change (10 ^ Z.of_nat 2) with 100; lia). cbn [mbind option_bind].
  rewrite (field_padded 2 0 23 ":" (s / 3600)) by (change (10 ^ Z.of_nat 2) with 100; Z.div_mod_to_equations; lia). cbn [mbind option_bind].
  rewrite (field_padded 2 0 59 ":" (s / 60 mod 60)) by (change (10 ^ Z.of_nat 2) with 100; Z.div_mod_to_equations; lia). cbn [mbind option_bind].
  change (padded 2 (s mod 60) +:+ ?x) with (padded 2 (s mod 60) +:+ "" +:+ x).
  rewrite (field_padded 2 0 59 "" (s mod 60)) by (change (10 ^ Z.of_nat 2) with 100; Z.div_mod_to_equations; lia). cbn [mbind option_bind].
  change (fraction 9 (t mod second) +:+ "Z") with (fraction 9 (t mod second) +:+ "Z" +:+ "").
  rewrite parse_fraction_back by (change (10 ^ 9) with second; lia). cbn [mbind option_bind].
  change (parse_zone ("Z" +:+ "")) with (Some 0). cbn [mbind option_bind]. f_equal. rewrite Hdays.
  pose proof (Z.div_mod secs 86400 ltac:(lia)) as E1. fold s in E1. pose proof (Z.div_mod t second ltac:(done)) as E2. fold secs in E2.
  assert (E3 : s / 3600 * 3600 + s / 60 mod 60 * 60 + s mod 60 = s) by (Z.div_mod_to_equations; lia).
  replace (secs / 86400 * 86400 + s / 3600 * 3600 + s / 60 mod 60 * 60 + s mod 60 - 0) with secs by lia. lia.
Qed.

(** *** The two cursors *)

Lemma atoi_itoa n : 0 < n ≤ max_int64 → atoi (itoa n) = Some n.
Proof.
  intros H. unfold max_int64 in H. destruct (itoa_digits n) as (l&->&[Hd _ _ Hv (c&l'&El&Hc)]&_); [lia|]. unfold atoi. rewrite explode_implode. subst l.
  cbn [forallb] in Hd. apply andb_prop in Hd as [Hd _]. unfold is_digit in Hd.
  assert (E : (byte c =? 45) = false ∧ (byte c =? 43) = false) by lia. destruct E as [-> ->]. cbv beta iota.
  rewrite Hv, Z.mul_0_l, Z.add_0_l. cbn [mbind option_bind]. unfold max_int64.
  by rewrite (proj2 (Z.leb_le _ _)), (proj2 (Z.leb_le _ _)) by lia.
Qed.
Lemma parseCursor_back n : 0 < n ≤ max_int64 → parseCursor (itoa n) = inr n.
Proof.
  intros H. unfold parseCursor. rewrite atoi_itoa by done. rewrite (proj2 (Z.ltb_ge n 0)) by lia.
  destruct (String.eqb_spec (itoa n) "") as [E|_]; [|done]. pose proof (atoi_itoa n H) as Ha. by rewrite E in Ha.
Qed.
Lemma parseReviewCursor_back c s : vc_submitted c ≠ zero_time → 0 < vc_id c ≤ max_int64 → encodeReviewCursor c = inr s → parseReviewCursor s = inr c.
Proof.
  intros Hz Hid. unfold encodeReviewCursor. destruct (_ || _) eqn:Hy; [done|]. intros [= <-]. apply orb_false_iff in Hy as [Hy1%Z.ltb_ge Hy2%Z.ltb_ge].
  set (m := [("submittedAt", JStr (rfc3339nano (vc_submitted c))); ("reviewID", JNum (itoa (vc_id c)))]).
  set (text := FlowCompiler.object_text [("submittedAt", quoted (rfc3339nano (vc_submitted c))); ("reviewID", itoa (vc_id c))]).
  assert (Hnum : number (itoa (vc_id c)) = true).
  { destruct (itoa_digits (vc_id c)) as (l&->&Hd&_); [unfold max_int64 in Hid; lia|]. unfold number.
    pose proof (parse_num_digits (vc_id c) l "" Hd eq_refl) as Hp. rewrite append_nil in Hp. rewrite Hp. by rewrite String.eqb_refl. }
  assert (Hparse : parse text = Some (norm (JObj m))).
  { change text with (marshal (JObj m)). apply parse_norm. unfold m. cbn [sound forallb snd]. by rewrite Hnum. }
  assert (Hmembers : object_members text = Some (Some [("submittedAt", quoted (rfc3339nano (vc_submitted c))); ("reviewID", itoa (vc_id c))])).
  { change text with (PluginSchema.object_text [("submittedAt", marshal (JStr (rfc3339nano (vc_submitted c)))); ("reviewID", marshal (JNum (itoa (vc_id c))))]).
    apply object_members_back. apply Forall_cons. split; [exact (marshal_one (JStr _) eq_refl)|]. apply Forall_cons. split; [exact (marshal_one (JNum _) Hnum)|]. constructor. }
  assert (Htime : parse (quoted (rfc3339nano (vc_submitted c))) = Some (JStr (rfc3339nano (vc_submitted c)))) by exact (parse_norm (JStr _) eq_refl).
  assert (Hint : parse (itoa (vc_id c)) = Some (JNum (itoa (vc_id c)))) by exact (parse_norm (JNum _) Hnum).
  unfold parseReviewCursor. assert (Hne : String.eqb text "" = false) by done. rewrite Hne, Hparse. cbn [mbind option_bind]. unfold decode_struct. rewrite Hmembers.
  cbn [mbind option_bind raw_struct fst snd]. change (fold_name "submittedAt") with "submittedat". change (fold_name "reviewID") with "reviewid".
  unfold cursor_field. change (String.eqb "submittedat" "submittedat") with true. change (String.eqb "reviewid" "submittedat") with false.
  change (String.eqb "reviewid" "reviewid") with true. cbv iota. unfold raw_time, raw_int. rewrite Htime. cbn [mbind option_bind].
  rewrite time_parse_back by done. cbn [mbind option_bind]. rewrite Hint. cbn [mbind option_bind]. rewrite atoi_itoa by done. cbn [mbind option_bind vc_submitted vc_id].
  rewrite (proj2 (Z.eqb_neq _ _) Hz), (proj2 (Z.leb_gt _ _)) by lia. by destruct c.
Qed.

(** ** What git shows *)

Section Redaction.
Context {X : Type} {machine : Machine X} {urls : UrlParser} {host : Host} (token : string) (refuse : Output → list Output → option string).

(** Neither the token nor the credential made of it. *)
Definition clean (text : string) : Prop :=
  (redactable token → ¬ occurs token text) ∧ (redactable (githubBasicCredential token) → ¬ occurs (githubBasicCredential token) text).
(** A log that may refuse what it is given. *)
Definition keep : Output → list Output → option string * list Output := λ o l, (refuse o l, l ++ [o]).
Abbreviation W := (X * list Output)%type.

Lemma redactGitOutput_clean value : token ≠ "" → clean (redactGitOutput value token).
Proof.
  intros Ht. unfold redactGitOutput, bytesReplace. apply String.eqb_neq in Ht. rewrite Ht.
  assert (Hc : String.eqb (githubBasicCredential token) "" = false) by done. rewrite Hc. split.
  - intros Hr H. apply occurs_replace in H; [|done]. revert H. by apply ReplaceAll_gone.
  - intros Hr. by apply ReplaceAll_gone.
Qed.

(** The log stays clean. *)
Definition quiet {A} (h : Handler W A) : Prop := ∀ w, Forall (λ o, clean (po_data o)) w.2 → Forall (λ o, clean (po_data o)) (h w).2.2.
Lemma quiet_ret {A} (a : A) : quiet (mret a).
Proof. by intros w. Qed.
Lemma quiet_unknown {A} e : quiet (unknown (A := A) e).
Proof. by intros w. Qed.
Lemma quiet_plain {A} (r : string + A) : quiet (plain_error r).
Proof. by destruct r; intros w. Qed.
Lemma quiet_read {A} (f : X → A) : quiet (λ w, (inr (f w.1), w)).
Proof. by intros w. Qed.
Lemma quiet_bind {A B} (h : Handler W A) (f : A → Handler W B) : quiet h → (∀ a, quiet (f a)) → quiet (h ≫= f).
Proof. intros Hh Hf w Hw. unfold mbind, handler_bind. specialize (Hh w Hw). destruct (h w) as [[e|a] w1]; [done|by apply Hf]. Qed.

Lemma run_process_clean limit (p : Process X) out err failed (l : list Output) : token ≠ "" → Forall (λ o, clean (po_data o)) l →
  Forall (λ o, clean (po_data o)) (run_process limit (safe_emit token (Some keep)) p out err failed l).2.2.
Proof.
  intros Ht. unfold safe_emit. rewrite (proj2 (String.eqb_neq _ _) Ht).
  revert out err failed l. induction p as [|output next IH]; intros out err failed l Hl; [done|]. cbn [run_process].
  destruct failed as [e|]; [by apply IH|]. cbn [keep]. apply IH. apply Forall_app. split; [done|]. constructor; [by apply redactGitOutput_clean|constructor].
Qed.
Lemma gitResult_quiet active request directory args : token ≠ "" → quiet (gitResult active request directory token (Some keep) args).
Proof.
  intros Ht w Hw. unfold gitResult, Run. cbn [ps_executable]. change (String.eqb "git" "") with false.
  destruct (String.eqb request ""); [done|]. destruct (bool_decide _); [done|]. destruct (start_process _ w.1) as [e|p]; [done|]. cbv zeta.
  match goal with |- context [run_process ?limit ?emit ?p ?out ?err ?failed ?l] => pose proof (run_process_clean limit p out err failed l Ht Hw) as Hp;
    destruct (run_process limit emit p out err failed l) as [[[result failed'] wait] w1] end.
  cbn [snd] in Hp. destruct failed' as [e|]; [done|]. by destruct wait as [[e|]|].
Qed.
Lemma git_quiet active request directory args : token ≠ "" → quiet (git active request directory token (Some keep) args).
Proof. intros Ht. apply quiet_bind; [by apply gitResult_quiet|intros ?; apply quiet_ret]. Qed.

Lemma Checkout_quiet root active request : co_token request = token → token ≠ "" → quiet (Checkout root active request (Some keep)).
Proof.
  intros Er Ht. unfold Checkout. destruct (_ || _ || _); [apply quiet_unknown|]. destruct (negb _); [apply quiet_unknown|].
  apply quiet_bind; [apply quiet_plain|intros _]. apply quiet_bind; [apply quiet_plain|intros path].
  apply quiet_bind; [|intros _]. { intros w Hw. by destruct (ws_MkdirAll path w.1) as [[e|] x]. }
  apply quiet_bind; [apply quiet_plain|intros _]. apply quiet_bind; [apply (quiet_read (λ x, ws_Stat _ x))|intros present].
  apply quiet_bind; [|intros ?; apply quiet_ret]. destruct present as [[|e]|[]]; [|apply quiet_unknown|].
  - unfold clone_workspace. rewrite Er. apply quiet_bind; [apply (quiet_read (λ x, ws_ReadDir _ x))|intros entries].
    destruct entries as [|[]]; [|..|apply quiet_unknown]; (apply quiet_bind; [by apply git_quiet|intros _; by apply git_quiet]).
  - unfold reset_workspace. rewrite Er. repeat (apply quiet_bind; [by apply git_quiet|intros _]). by apply git_quiet.
Qed.
Lemma CommitPush_quiet root active request : cq_token request = token → token ≠ "" → quiet (CommitPush root active request (Some keep)).
Proof.
  intros Er Ht. unfold CommitPush. apply quiet_bind; [apply quiet_plain|intros path]. apply quiet_bind; [apply quiet_plain|intros directory].
  apply quiet_bind; [apply quiet_plain|intros _]. destruct (_ || _); [apply quiet_unknown|]. rewrite Er.
  apply quiet_bind; [by apply gitResult_quiet|intros changes].
  apply quiet_bind. { destruct (String.eqb _ ""); [apply quiet_ret|]. repeat (apply quiet_bind; [by apply gitResult_quiet|intros _]). apply quiet_ret. }
  intros _. repeat (apply quiet_bind; [by apply gitResult_quiet|intros ?]). apply quiet_ret.
Qed.
End Redaction.

(** The limit of it: chunks are redacted one by one. *)
Example split_git_output_leaks : redactGitOutput "s3c" "s3cr3t" +:+ redactGitOutput "r3t" "s3cr3t" = "s3cr3t".
Proof. vm_compute. reflexivity. Qed.
