(* ===== verification/PropertiesGithub.v ===== *)
(** * The properties of the GitHub provider, each with a witness at a small
       repository. *)

From Stdlib Require Import Ascii.
From Stdlib Require String.
From S2P Require Import Prelude.
From S2P Require Import Json.
From S2P Require Import GoStd.
From S2P Require Import JsonPlain.
From S2P Require Import Redact.
From S2P Require Import JsonRound.
From S2P Require Import Resource.
From S2P Require Import Plan.
From S2P Require Import ActionContract.
From S2P Require Import PluginMapping.
From S2P Require Import PluginContract.
From S2P Require Import FlowCompiler.
From S2P Require Import Db.
From S2P Require Import StoreRuns.
From S2P Require Import StoreResources.
From S2P Require Import StoreOutbox.
From S2P Require Import StorePlugins.
From S2P Require Import StoreStep.
From S2P Require Import Proc.
From S2P Require Import Orchestrator.
From S2P Require Import Trigger.
From S2P Require Import Samples.
From S2P Require Import ManagerRun.
From S2P Require Import PluginSchema.
From S2P Require Import PluginSdk.
From S2P Require Import ManagerBind.
From S2P Require Import ManagerWatch.
From S2P Require Import ServerPages.
From S2P Require Import ServerHandlers.
From S2P Require Import Workspace.
From S2P Require Import GithubApi.
From S2P Require Import GithubWatch.
From S2P Require Import GithubActions.
From S2P Require Import GithubFacts.

Local Open Scope Z_scope.

(** ** A concrete repository *)

(** Fixed pages, and the comments of one issue; the answer to the first post may
    be lost. *)
Record Hub := mkHub { hb_comments : list string; hb_lost : bool }.
Definition comments_json (l : list string) : json := JArr ((λ body, JObj [("body", JStr body)]) <$> l).
Definition answered (status : Z) (text : string) : GithubResponse := mkGithubResponse status "" "" "" "" (inr text).
Definition posted_body (text : string) : option string := decode_struct (text_field "body") "" text.
Definition hub (fixed : list (string * string)) : GithubService Hub := {|
  gh_do method endpoint token body g :=
    if String.eqb method "GET" then
      (inr (answered 200 (default (marshal (comments_json (hb_comments g))) (snd <$> List.find (λ kv, String.eqb kv.1 endpoint) fixed))), g)
    else match posted_body body with
         | Some text => (if hb_lost g then inl "connection reset" else inr (answered 201 "{}"), mkHub (hb_comments g ++ [text]) false)
         | None => (inr (answered 400 "{}"), g)
         end;
  gh_now _ := t0; gh_wait _ g := (None, g); status_text _ := "" |}.
#[local] Instance any_url : UrlParser := λ _, Some ("https", "api.github.com", false).
#[local] Instance short_sha : Sha256 := λ s, s.
#[local] Instance count_sink : EventSink (list string) := {|
  sink_emit eventType _ l := (None, l ++ [eventType]); sink_log stream _ l := (None, l ++ [stream]) |}.
(** A daemon that acknowledges what it was sent last. *)
#[local] Instance acknowledging : TriggerStream (list TriggerEventPB) := {|
  ts_send m l := (None, l ++ [m]);
  ts_recv l := (match last l with Some m => inr (CommandAck (tv_id m) (tv_cursor m)) | None => inr CommandNone end, l) |}.

Definition tokens : gmap string string := {["gh" := "t0ken"]}.
Definition in_repository (fields : list (string * json)) : string :=
  marshal (mkobj ([("owner", JStr "acme"); ("repository", JStr "app"); ("tokenSecret", JStr "gh")] ++ fields)).
Definition task (action config : string) : TaskRequest := mkTaskRequest action "{}" config tokens ("request-1", "run-1", "plan", 1, "key-1") t0.

(** ** Watching *)

(** C35. A watch sends events in the order of their cursors and waits for the
    acknowledgement of each before the next.  Whatever GitHub answers and however
    the stream ends, the acknowledged events of the watch are sorted and all after
    the cursor it started from; at most one further event was sent, the
    unacknowledged last.  Each of them stands for a record that GitHub listed after
    the watch had started.  An issue event is a labeling with the watched label,
    not older than the activation, with the embedded issue or the one its URL
    answered.  A review is decided, not older than the activation, and listed with
    its comments for a listed pull request, and it is sent to the Run that the body
    of this pull request marks.  As long as no poll fails nothing is left out: of
    the pages that a poll reads, every labeling and every review of a marked pull
    request that the watch is for and that is after its cursor is acknowledged. *)
Theorem watch_follows_the_cursor {G T} {github : GithubService G} {stream : TriggerStream T} {urls : UrlParser} start :
  (∀ n config interval token cursor activatedAt (w : G * T) r w',
    watch_setup true start = inr (config, interval, token) → parseCursor (gs_cursor start) = inr cursor →
    providerActivation start (wc_replayExisting config) (0 <? cursor) = inr activatedAt →
    watchIssues n start w = (r, w') → issues_delivered config token (activation_fence activatedAt) n cursor w r w') ∧
  (∀ n config interval token cursor activatedAt (w : G * T) r w',
    watch_setup false start = inr (config, interval, token) → parseReviewCursor (gs_cursor start) = inr cursor →
    providerActivation start (wc_replayExisting config) (negb (vc_submitted cursor =? zero_time)) = inr activatedAt →
    watchReviews n start w = (r, w') → reviews_delivered config token (activation_fence activatedAt) n cursor w r w').
Proof. split; intros *; [apply watchIssues_delivers|apply watchReviews_delivers]. Qed.

Definition labeled (id : Z) : json :=
  mkobj [("id", JNum (itoa id)); ("event", JStr "labeled"); ("created_at", JStr (rfc3339nano t0)); ("label", mkobj [("name", JStr "orchigram:ready")]);
         ("issue", mkobj [("number", JNum "7"); ("title", JStr "Fix it")])].
Definition events_page : string * string :=
  ("https://api.github.com/repos/acme/app/issues/events?per_page=100", marshal (JArr [labeled 12; labeled 11; labeled 9])).
Definition watch_start : GithubStart := mkGithubStart "github.issues" (in_repository []) tokens "10" (Some (Some t0)).
Definition watched_hub := watchIssues (github := hub [events_page]) 1 watch_start (mkHub [] false, []).
(** A marked pull request with an approval, one that no Run has marked, and the
    pages below them. *)
Definition reviewed_pull (number : Z) (body : string) : json :=
  mkobj [("number", JNum (itoa number)); ("body", JStr body); ("state", JStr "open"); ("head", mkobj [("sha", JStr "abc")])].
Definition run_marker : string :=
  "<!-- orchigram:run=run-1;node=open;idempotency=" +:+ implode (replicate 64 "0"%char) +:+ " -->".
Definition approval_json (id : Z) : json :=
  mkobj [("id", JNum (itoa id)); ("state", JStr "approved"); ("submitted_at", JStr (rfc3339nano t0)); ("commit_id", JStr "abc"); ("user", mkobj [("login", JStr "ann")])].
Definition review_pages : list (string * string) :=
  [("https://api.github.com/repos/acme/app/pulls?state=all&sort=updated&direction=desc&per_page=100", marshal (JArr [reviewed_pull 5 run_marker; reviewed_pull 6 "by hand"]));
   ("https://api.github.com/repos/acme/app/pulls/5/reviews?per_page=100", marshal (JArr [approval_json 3]));
   ("https://api.github.com/repos/acme/app/pulls/6/reviews?per_page=100", marshal (JArr [approval_json 4]));
   ("https://api.github.com/repos/acme/app/pulls/5/reviews/3/comments?per_page=100", "[]")].
Definition review_start : GithubStart := mkGithubStart "github.reviews" (in_repository []) tokens "" (Some (Some t0)).
Definition reviewed_hub := watchReviews (github := hub review_pages) 1 review_start (mkHub [] false, []).
Definition sample_watch (label : string) : watchConfig := mkWatchConfig (mkRepositoryConfig "acme" "app" "" "gh") label "" false.
Lemma watch_follows_the_cursor_witness :
  (tv_cursor <$> watched_hub.2.2) = ["11"; "12"] ∧
  issues_delivered (github := hub [events_page]) (sample_watch "") "t0ken" zero_time 1 10 (mkHub [] false, []) watched_hub.1 watched_hub.2 ∧
  (tv_targetRun <$> reviewed_hub.2.2) = ["run-1"] ∧
  reviews_delivered (github := hub review_pages) (sample_watch "") "t0ken" (activation_fence t0) 1 no_cursor (mkHub [] false, []) reviewed_hub.1 reviewed_hub.2.
Proof.
  split; [vm_compute; reflexivity|]. split.
  { refine (proj1 (watch_follows_the_cursor (github := hub [events_page]) watch_start) 1%nat (sample_watch "") (30 * second) "t0ken" 10 zero_time
      (mkHub [] false, []) _ _ _ _ _ _).
    - vm_compute. reflexivity.
    - reflexivity.
    - reflexivity.
    - apply surjective_pairing. }
  split; [vm_compute; reflexivity|].
  refine (proj2 (watch_follows_the_cursor (github := hub review_pages) review_start) 1%nat (sample_watch "") (30 * second) "t0ken" no_cursor t0
    (mkHub [] false, []) _ _ _ _ _ _).
  - vm_compute. reflexivity.
  - reflexivity.
  - reflexivity.
  - apply surjective_pairing.
Defined.

(** C36. Cursors survive a restart.  The cursor text of an issue event and of a
    review, as the daemon stores it, is read back as the cursor it was made from. *)
Theorem cursors_roundtrip :
  (∀ id, 0 < id ≤ max_int64 → parseCursor (itoa id) = inr id) ∧
  (∀ cursor text, vc_submitted cursor ≠ zero_time → 0 < vc_id cursor ≤ max_int64 → encodeReviewCursor cursor = inr text →
    parseReviewCursor text = inr cursor).
Proof. split; [exact parseCursor_back|exact parseReviewCursor_back]. Qed.

Lemma cursors_roundtrip_witness :
  parseCursor "42" = inr 42 ∧ ∃ text, encodeReviewCursor (mkReviewCursor (t0 + 120) 7) = inr text ∧ parseReviewCursor text = inr (mkReviewCursor (t0 + 120) 7).
Proof.
  split; [apply (proj1 cursors_roundtrip 42); unfold max_int64; lia|]. eexists. split; [reflexivity|].
  apply (proj2 cursors_roundtrip); [discriminate|unfold max_int64; cbn; lia|reflexivity].
Defined.

(** ** Checks *)

(** C37. A wait for checks that succeeds has seen them succeed: the last thing it
    read is that the pull request is open with the requested head; before that, a
    snapshot of that commit in which every required check is present, completed
    and concluded success, neutral or skipped, and every commit status is a success.
    Any other answer is [stale], after the head was read to have moved.  A
    snapshot fails exactly when a required check or a status has failed. *)
Theorem checks_wait_is_sound {G X T} {github : GithubService G} {machine : Machine X} {sink : EventSink T} {urls : UrlParser} :
  (∀ n request config token interval (w : G * (X * T)) snapshot w',
    check_setup request = inr (config, token, interval) →
    waitForCommitChecks n request w = (inr (Some snapshot), w') →
    confirmed config token snapshot w'.1 ∨ moved config token snapshot w'.1) ∧
  (∀ snapshot required,
    (evaluateCheckSnapshot snapshot required = "success" ↔ green snapshot required) ∧
    (evaluateCheckSnapshot snapshot required = "failure" ↔ red snapshot required)).
Proof.
  split; [|exact evaluate_spec]. intros n request config token interval w snapshot w' Hs H.
  unfold waitForCommitChecks, mbind, handler_bind, lift_rpc in H. rewrite Hs in H. cbv beta iota in H. by eapply wait_turns_ok.
Qed.

Definition head_sha : string := implode (replicate 40 "a"%char).
Definition check_json (name status conclusion : string) : json :=
  mkobj [("name", JStr name); ("status", JStr status); ("conclusion", JStr conclusion); ("head_sha", JStr head_sha)].
Definition checks_hub (conclusion : string) : GithubService Hub := hub [
  ("https://api.github.com/repos/acme/app/pulls/3", marshal (mkobj [("state", JStr "open"); ("head", mkobj [("sha", JStr head_sha)])]));
  ("https://api.github.com/repos/acme/app/commits/" +:+ head_sha +:+ "/check-runs?filter=latest&per_page=100",
    marshal (mkobj [("check_runs", JArr [check_json "test" "completed" conclusion; check_json "lint" "completed" "SKIPPED"])]));
  ("https://api.github.com/repos/acme/app/commits/" +:+ head_sha +:+ "/status?per_page=100",
    marshal (mkobj [("state", JStr "success"); ("sha", JStr head_sha); ("statuses", JArr [mkobj [("context", JStr "ci"); ("state", JStr "success")]])]))].
Definition checks_config : checkWaitConfig := mkCheckWaitConfig (mkRepositoryConfig "acme" "app" "" "gh") head_sha 3 ["lint"; "test"] "".
Definition checks_task : TaskRequest :=
  task "github.commit.checks.wait" (in_repository [("ref", JStr head_sha); ("pullNumber", JNum "3"); ("required", JArr [JStr "lint"; JStr "test"])]).
Definition still_machine : Machine unit := {|
  start_process _ _ := inl "no processes"; ws_MkdirAll _ x := (None, x); ws_Stat _ _ := inl Retention.NotExist;
  ws_ReadDir _ _ := inl Retention.NotExist; ws_Getwd := inr "/" |}.
Definition checks_run (conclusion : string) :=
  waitForCommitChecks (X := unit) (github := checks_hub conclusion) 1 checks_task (mkHub [] false, (tt, [])).
Lemma checks_wait_is_sound_witness :
  (checks_run "failure").1 = inl (mkStatus FailedPrecondition "required GitHub checks or commit statuses failed") ∧
  ∃ snapshot, (checks_run "success").1 = inr (Some snapshot) ∧ length (sn_checks snapshot) = 2%nat ∧
    confirmed (github := checks_hub "success") checks_config "t0ken" snapshot (checks_run "success").2.1.
Proof.
  split; [vm_compute; reflexivity|]. eexists. split; [vm_compute; reflexivity|]. split; [reflexivity|].
  match goal with |- confirmed _ _ ?s _ =>
    destruct (proj1 (checks_wait_is_sound (github := checks_hub "success") (machine := still_machine)) 1%nat checks_task checks_config "t0ken" (5 * second)
      (mkHub [] false, (tt, [])) s (checks_run "success").2) as [H|[H _]] end.
  - vm_compute. reflexivity.
  - vm_compute. reflexivity.
  - exact H.
  - discriminate H.
Defined.

(** ** Comments *)

(** C38. A comment is posted at most once per request.  However often a comment
    action is tried, also after answers that were lost, and whatever others do to the
    issue without its marker, at most one comment carries the marker of the
    request; after an attempt that succeeds exactly one does.  This holds as long as
    the comments of the issue fit into the hundred pages that are read. *)
Theorem comment_is_posted_once {G} {github : GithubService G} {sha : Sha256} {urls : UrlParser} endpoint token bodies
    {laws : CommentLaws endpoint token bodies} request config g g' :
  comment_of request = inr (config, token) → endpoint = issue_url (mc_issue config) +:+ "/comments" →
  rtc (comment_step (endpoint := endpoint) (token := token) (bodies := bodies) request) g g' →
  (copies (bodies := bodies) (hiddenMarker request) g ≤ 1)%nat →
  (copies (bodies := bodies) (hiddenMarker request) g' ≤ 1)%nat ∧
  ∀ answer g'', listing_complete (endpoint := endpoint) (token := token) g' → issueComment request g' = (inr answer, g'') →
    copies (bodies := bodies) (hiddenMarker request) g'' = 1%nat.
Proof.
  intros Hc He Hs H. assert (H' : (copies (bodies := bodies) (hiddenMarker request) g' ≤ 1)%nat) by by eapply comment_steps.
  split; [done|]. intros answer g'' Hcomplete Hr.
  assert (Hstep : comment_step (endpoint := endpoint) (token := token) (bodies := bodies) request g' g'') by by eapply attempt_step.
  pose proof (comment_steps request config g' g'' Hc He (rtc_once _ _ Hstep) H') as Hle.
  pose proof (proj2 (issueComment_copies _ _ _ _ _ Hc He Hcomplete Hr) answer eq_refl) as Hge. lia.
Qed.

Definition plan_request : TaskRequest := task "github.issue.comment" (in_repository [("number", JNum "7"); ("body", JStr "The plan.")]).
Definition plan_endpoint : string := "https://api.github.com/repos/acme/app/issues/7/comments".
Definition plan_config : commentConfig := mkCommentConfig (mkIssueConfig (mkRepositoryConfig "acme" "app" "" "gh") 7) "The plan.".
#[local] Instance plain_hub : GithubService Hub := hub [].

Lemma one_member key text : object_members (marshal (JObj [(key, JStr text)])) = Some (Some [(key, quoted text)]).
Proof.
  change (marshal (JObj [(key, JStr text)])) with (PluginSchema.object_text [(key, marshal (JStr text))]). apply object_members_back.
  apply Forall_cons. split; [exact (marshal_one (JStr _) eq_refl)|constructor].
Qed.
Lemma string_back text : raw_string "" (quoted text) = Some text.
Proof. unfold raw_string. change (quoted text) with (marshal (JStr text)). by rewrite (parse_norm (JStr text) eq_refl). Qed.
Lemma posted_back body : posted_body (marshal (mkobj [("body", JStr body)])) = Some body.
Proof.
  unfold posted_body, decode_struct. change (mkobj [("body", JStr body)]) with (JObj [("body", JStr body)]). rewrite one_member.
  cbn [mbind option_bind raw_struct fst snd]. change (fold_name "body") with "body". unfold text_field. rewrite String.eqb_refl, string_back. reflexivity.
Qed.
Lemma comment_back body :
  decode_struct commentRecord_field (mkCommentRecord 0 "" "") (marshal (JObj [("body", JStr body)])) = Some (mkCommentRecord 0 body "").
Proof.
  unfold decode_struct. rewrite one_member. cbn [mbind option_bind raw_struct fst snd]. change (fold_name "body") with "body".
  change (commentRecord_field (mkCommentRecord 0 "" "") "body" (quoted body)) with (v ← raw_string "" (quoted body); Some (mkCommentRecord 0 v "")).
  by rewrite string_back.
Qed.
Lemma comments_back l : decode_commentRecords (marshal (comments_json l)) = Some ((λ body, mkCommentRecord 0 body "") <$> l).
Proof.
  unfold decode_commentRecords, raw_list, comments_json.
  change (marshal (JArr ?m)) with ("[" +:+ joinc "," (List.map marshal m) +:+ "]"). rewrite array_items_back.
  2: { apply Forall_forall. intros t Ht. apply list_elem_of_In, in_map_iff in Ht as (j&<-&Hj). apply list_elem_of_In, list_elem_of_fmap in Hj as (body&->&_).
       exact (marshal_one (JObj [("body", JStr body)]) eq_refl). }
  cbn [mbind option_bind]. induction l as [|body l IH]; [done|].
  change ((λ body, JObj [("body", JStr body)]) <$> body :: l) with (JObj [("body", JStr body)] :: ((λ body, JObj [("body", JStr body)]) <$> l)).
  cbn [List.map mapM]. rewrite comment_back. cbn [mbind option_bind]. by rewrite IH.
Qed.
Lemma comments_sound l : sound (comments_json l) = true.
Proof. cbn [sound comments_json]. induction l as [|body l IH]; [done|exact IH]. Qed.
(** The one page of comments, when it is not too long. *)
Lemma hub_listing l more g g' :
  pages 100 decode_commentRecords (λ c, mret [c]) (plan_endpoint +:+ "?per_page=100") "t0ken" g = (inr (l, more), g') →
  more = false ∧ cc_body <$> l = hb_comments g.
Proof.
  unfold pages. assert (Hstep : ∀ n A F (decode : string → option A) (add : F → A → ServerHandlers.Handler Hub F) next t found,
    walk_pages (S n) decode add next t found = if String.eqb next "" then mret (found, false) else
      page ← getJSON decode next t; found ← add found page.1; walk_pages n decode add (nextLink page.2) t found) by reflexivity.
  change 100%nat with (S 99). rewrite Hstep. change (String.eqb _ "") with false. cbv iota. intros H.
  apply handler_bind_ok in H as (page&g1&Hpage&H). apply handler_bind_ok in H as (found&g2&Hadd&H).
  assert (Hget : getJSON decode_commentRecords (plan_endpoint +:+ "?per_page=100") "t0ken" g =
    match decodeLimited decode_commentRecords (inr (marshal (comments_json (hb_comments g)))) with inl e => (inl e, g) | inr v => (inr (v, ""), g) end) by reflexivity.
  rewrite Hget in Hpage. unfold decodeLimited in Hpage. destruct (maxResponse <? _); [done|].
  rewrite (parse_norm _ (comments_sound _)) in Hpage. cbn [mbind option_bind] in Hpage. rewrite comments_back in Hpage. injection Hpage as <- <-.
  cbn [fst snd] in *. change (nextLink "") with "" in H. rewrite (Hstep 98%nat) in H. change (String.eqb "" "") with true in H. cbv iota in H.
  apply handler_ret_ok in H as [[= -> ->] _]. split; [done|].
  assert (Hitems : ∀ (l found : list commentRecord) (g : Hub), add_items (λ c, mret [c]) found l g = (inr (found ++ l), g)).
  { clear. induction l as [|c l IH]; intros found g; [cbn; by rewrite app_nil_r|]. cbn [add_items]. unfold mbind, handler_bind. cbn [mret handler_ret].
    rewrite IH. by rewrite <- app_assoc. }
  rewrite Hitems in Hadd. injection Hadd as <- _. cbn [app]. rewrite <- list_fmap_compose. by apply list_fmap_id.
Qed.
#[local] Instance hub_laws : CommentLaws plan_endpoint "t0ken" hb_comments.
Proof.
  split; [done|done| | |].
  - intros body g. cbn [gh_do plain_hub hub]. change (String.eqb "POST" "GET") with false. cbv iota. rewrite posted_back. by right.
  - intros body g response g'. cbn [gh_do plain_hub hub]. change (String.eqb "POST" "GET") with false. cbv iota. rewrite posted_back.
    destruct (hb_lost g); [done|]. by intros [= <- <-] _.
  - intros g l g' H body. apply hub_listing in H as [_ ->]. done.
Qed.
Lemma hub_complete g : listing_complete (endpoint := plan_endpoint) (token := "t0ken") g.
Proof. intros l more g' H. by apply hub_listing in H as [-> _]. Qed.

(** The answer to the first attempt is lost, the second finds the comment. *)
Definition first_attempt := issueComment plan_request (mkHub ["Hello."] true).
Definition second_attempt := issueComment plan_request first_attempt.2.
Lemma comment_is_posted_once_witness :
  first_attempt.1 = inl (mkStatus Unavailable "connection reset") ∧
  second_attempt.1 = inr (reconciled_json "id" 0 "" true (hiddenMarker plan_request)) ∧
  copies (bodies := hb_comments) (hiddenMarker plan_request) second_attempt.2 = 1%nat.
Proof.
  assert (H2 : second_attempt.1 = inr (reconciled_json "id" 0 "" true (hiddenMarker plan_request))) by (vm_compute; reflexivity).
  split; [vm_compute; reflexivity|]. split; [exact H2|].
  refine (proj2 (comment_is_posted_once plan_endpoint "t0ken" hb_comments plan_request plan_config (mkHub ["Hello."] true) first_attempt.2 _ _ _ _)
    (reconciled_json "id" 0 "" true (hiddenMarker plan_request)) second_attempt.2 (hub_complete _) _).
  - vm_compute. reflexivity.
  - reflexivity.
  - apply rtc_once. apply (attempt_step _ _ _ first_attempt.1); [apply hub_complete|apply surjective_pairing].
  - apply Nat.leb_le. vm_compute. reflexivity.
  - rewrite <- H2. apply surjective_pairing.
Defined.

(** ** Reviews of finished Runs *)

(** C39. An event for a Run that has finished, or is gone, stops its Trigger.  While
    its Run has no active row and the event has no receipt, the daemon refuses it and
    changes nothing, so that a watch whose first event it is acknowledges no event
    at all and leaves every cursor where it was: the next watch starts with the same
    event, and what comes after it, for whatever Run, is never delivered. *)
Theorem finished_run_blocks_later_events {cal : Calendar} {dig : Digest} {compiler : FlowCompiler} {js : JsonSchema}
    env trigger delivery event s :
  t_delivery trigger.2 = Some delivery → d_mode delivery = "signal" →
  (∀ r, db_runs (others env 0 s) !! te_targetRun event = Some r → terminalRunPhase (run_phase r) = true) →
  lookup_receipt (m_uid trigger.1) (te_providerEventId event) (others env 0 s) = None →
  (∃ e s', accept_event (acceptor := orchestrator_acceptor env) trigger event s = (inl e, s') ∧ (s' = s ∨ s' = others env 0 s)) ∧
  ∀ schema i ackError later ended e acked s',
    watch_events schema (λ _, accept_event (acceptor := orchestrator_acceptor env) trigger) i ((event, ackError) :: later) ended s = Some (e, acked, s') →
    acked = [] ∧ (s' = s ∨ s' = others env 0 s).
Proof.
  intros Hd Hm Hrun Hnone.
  assert (Hrefused : ∃ e s', accept_event (acceptor := orchestrator_acceptor env) trigger event s = (inl e, s') ∧ (s' = s ∨ s' = others env 0 s)).
  { unfold accept_event. destruct (_ || _ || _); [eexists _, s; split; [reflexivity|by left]|]. rewrite Hd, Hm. change (String.eqb "signal" "signal") with true. cbv iota.
    destruct (String.eqb (te_targetRun event) ""); [eexists _, s; split; [reflexivity|by left]|].
    unfold mbind, proc_bind. cbn [accept_provider_signal orchestrator_acceptor]. unfold call.
    match goal with |- context [match ?t with inl _ => _ | inr _ => _ end] => destruct t as [e|[r s1]] eqn:Ha end.
    { eexists _, (others env 0 s). split; [reflexivity|by right]. }
    exfalso. unfold Orchestrator.AcceptProviderSignal, StoreOutbox.AcceptProviderSignal in Ha. run_op Ha.
    all: repeat match goal with H : db_runs _ !! _ = Some _ |- _ => apply Hrun in H end; simplify_eq; try congruence.
    all: rewrite ?negb_true_iff in *; try congruence. }
  split; [exact Hrefused|]. intros schema i ackError later ended e acked s' H. cbn [watch_events] in H.
  destruct (validateTriggerContractJSON schema "event" (te_payload event)) as [[err|]|]; [|cbn [mbind option_bind] in H|done].
  - injection H as <- <- <-. split; [done|by left].
  - destruct Hrefused as (err&s1&Hr&Hs). rewrite Hr in H. injection H as <- <- <-. done.
Qed.

Definition review_trigger : ObjectMeta * TriggerSpec :=
  (mkMeta "reviews" "default" "reviews-uid" 2 1 ∅,
   mkTriggerSpec "deploy" None None None (Some (mkProvider "github" "github.reviews" [])) (Some (mkDelivery "signal" "gate"))).
Definition review_of (run : string) : TriggerEvent := mkTriggerEvent ("github:acme/app:pull-review:" +:+ run) ("cursor-" +:+ run) "{}" run.
#[local] Instance any_object : JsonSchema := {|
  js_build _ := inr (mkSchema [mkSchemaObject None ["object"] ∅ AdditionalUnset None None []] 0); js_validate _ _ := None |}.
#[local] Instance review_compiler : FlowCompiler := {| Orchestrator.Compile _ := (sample_plan, []); ValidateRunInput _ _ := ok tt |}.
Definition review_env : Env := alone t0 (λ _, "receipt-9").
(** A review of the finished [run-1], then one of another Run. *)
Definition reviewing := watch_events "{}" (λ _, accept_event (acceptor := orchestrator_acceptor review_env) review_trigger) 0
  [(review_of "run-1", None); (review_of "run-2", None)] "EOF" s10.
Lemma finished_run_blocks_later_events_witness :
  (run_phase <$> db_runs s10 !! "run-1") = Some "succeeded" ∧ ∃ e s', reviewing = Some (e, [], s') ∧ (s' = s10 ∨ s' = s10).
Proof.
  split; [vm_compute; reflexivity|].
  assert (H : match reviewing with Some _ => true | None => false end = true) by (vm_compute; reflexivity).
  destruct reviewing as [[[e acked] s']|] eqn:E; [|discriminate H]. exists e, s'.
  destruct (proj2 (finished_run_blocks_later_events review_env review_trigger (mkDelivery "signal" "gate") (review_of "run-1") s10
    eq_refl eq_refl (ltac:(intros r Hr; vm_compute in Hr; injection Hr as <-; reflexivity)) (ltac:(vm_compute; reflexivity)))
    "{}" 0%nat None [(review_of "run-2", None)] "EOF" e acked s' E) as [-> Hs].
  split; [reflexivity|exact Hs].
Defined.

(** ** Workspaces *)

(** C40. Git does not show its token.  Whatever the git processes of a checkout or of
    a push print, and whenever their output is refused, no chunk that reaches the
    log contains the token or the credential made of it, unless the text could arise
    from the replacement itself. *)
Theorem git_output_is_redacted {X} {machine : Machine X} {urls : UrlParser} {host : Host} token refuse root active :
  token ≠ "" →
  (∀ request (w : X * list Output), co_token request = token → Forall (λ o, clean token (po_data o)) w.2 →
    Forall (λ o, clean token (po_data o)) (Checkout root active request (Some (keep refuse)) w).2.2) ∧
  (∀ request (w : X * list Output), cq_token request = token → Forall (λ o, clean token (po_data o)) w.2 →
    Forall (λ o, clean token (po_data o)) (CommitPush root active request (Some (keep refuse)) w).2.2).
Proof. intros Ht. split; intros request w Hr; [by apply Checkout_quiet|by apply CommitPush_quiet]. Qed.

(** Every git process shows the token. *)
#[local] Instance leaking : Machine unit := {|
  start_process _ _ := inr (Wrote (mkOutput "stderr" "remote: s3cr3t rejected") (λ _, Ended 0 None "" tt));
  ws_MkdirAll _ x := (None, x); ws_Stat _ _ := inl Retention.NotExist; ws_ReadDir _ _ := inl Retention.NotExist; ws_Getwd := inr "/" |}.
#[local] Instance no_variables : Host := {| LookupEnv _ := None; ReadSecret _ := None |}.
Definition checkout_request : CheckoutRequest := mkCheckout "request-1" "run-1" "https://example.com/app.git" "" 7 "s3cr3t".
Definition checked_out := Checkout "/work" ∅ checkout_request (Some (keep (λ _ _, None))) (tt, []).
Lemma git_output_is_redacted_witness :
  checked_out.1 = inr (mkCheckoutResult "/work/run-1" "orchigram/issue-7-run1") ∧
  (po_data <$> checked_out.2.2) = ["remote: [REDACTED] rejected"; "remote: [REDACTED] rejected"] ∧
  Forall (λ o, clean "s3cr3t" (po_data o)) checked_out.2.2.
Proof.
  split; [vm_compute; reflexivity|]. split; [vm_compute; reflexivity|].
  apply (proj1 (git_output_is_redacted "s3cr3t" (λ _ _, None) "/work" ∅ ltac:(discriminate)) checkout_request (tt, [])); [reflexivity|constructor].
Defined.
